(* ===== verification/_CoqProject ===== *)
-Q . S2P
Prelude.v
BufCache.v
BufSpec.v
KState.v
Log.v
LogCrash.v
LogSystem.v
CString.v
Fs.v
FsAlloc.v
FsTree.v
FsFile.v
FsWrite.v
FsInode.v
FsProps.v
FsPath.v
FsTable.v
FsDir.v
Kalloc.v
PipeRing.v
File.v
Sysfile.v
FileProps.v
SysProps.v
Vm.v
VmTable.v
VmMap.v
VmUser.v
VmGrow.v
VmProps.v
KThread.v
Printf.v
Proc.v
Console.v
Virtio.v
Exec.v
Trap.v
Boot.v
KLogic.v
KInv.v
KSpec.v
ProcSpec.v
TrapSpec.v
KGhost.v
KDev.v
DevSpec.v
KWait.v
WaitSpec.v
WaitTrap.v
SchedProps.v
DevProps.v
WaitProps.v
BootProps.v
Umalloc.v
Ulib.v
Sh.v
ShSpec.v
ShProps.v
ShRun.v
ShRunProps.v
Ergasia.v
ErgasiaProps.v
Grep.v
PrintfProps.v
Userland.v
Programs.v
Uprogs.v
ShMain.v
