(* ===== verification/Prelude.v ===== *)
(** Verification of an xv6 kernel with double-indirect blocks and symbolic links.

    THE PROGRAM.  The sources are under "operating systems project 2": a RISC-V
    kernel (kernel/) and its user programs (user/).  The file system is a stack:
    a disk driver (virtio_disk.c), a cache of blocks (bio.c), a write-ahead log
    that makes groups of block writes atomic (log.c), inodes, directories and
    paths (fs.c), open files and pipes (file.c, pipe.c) and the system calls
    (sysfile.c).  Memory is a page allocator (kalloc.c) under page tables
    (vm.c).  Processes (proc.c) run on several CPUs under spin locks
    (spinlock.c); they enter the kernel by traps (trap.c, syscall.c, sysproc.c),
    load programs (exec.c) and talk to a terminal (console.c, uart.c, printf.c).
    User programs have a library (ulib.c, umalloc.c, printf.c); the shell sh.c
    parses command lines and runs them as processes.  "operating systems project
    1" is a Unix program, ergasia1.c: a parent starts and stops children as a
    configuration file says and hands lines of text to them by semaphores.

    FILES AND CODE.  Definitions keep the names of the C functions.
    - Prelude: machine integers ([u32], [i32], [u64]), bytes and words, the
      tactics and hints of the development.
    - BufCache: bio.c and sleeplock.c as pointer programs.  BufSpec: the
      interface to the code above, programs over the cache's operations, and
      the abstract cache that BufCache implements.
    - KState: the state [kst] of the file system and its monad [K], with the
      total-correctness reading [wp].
    - Log, LogCrash, LogSystem: log.c, its disk writes one by one with a crash
      at any of them, and concurrent transactions.
    - CString: string.c.
    - Fs: all of fs.c.  FsAlloc (bitmap), FsTree, FsFile, FsWrite (bmap, readi,
      writei), FsInode, FsTable (inodes on disk and in memory), FsPath, FsDir
      (paths, directories) prove it; FsProps states the main properties.
    - Kalloc: kalloc.c.  PipeRing, File: pipe.c and file.c.  Sysfile: sysfile.c;
      FileProps, SysProps prove properties of the calls.
    - Vm: vm.c.  VmTable, VmMap, VmUser, VmGrow show that three levels of pages
      are a map from virtual pages to entries; VmProps states the properties.
    - KThread: the machine.  A kernel thread is a tree of atomic accesses; any
      CPU may take the next step of its thread or an interrupt.  spinlock.c is
      at its end.  Printf (printf.c and user/printf.c), Proc (proc.c), Console
      (console.c, uart.c), Virtio (virtio_disk.c), Exec (exec.c), Trap (trap.c,
      syscall.c, sysproc.c, plic.c) are its programs.
    - KLogic, KInv: a program logic for one thread and its soundness for all
      interleavings.  KSpec, ProcSpec, TrapSpec verify every function of the
      programs above in it.  SchedProps states the result.
    - KGhost, KDev, DevSpec: a logic of ghost state on top, with an abstract
      terminal and the owners of disk descriptors; DevProps states the result.
      KWait, WaitSpec, WaitTrap, WaitProps: in the same logic, what the holders of
      wait_lock and of p->lock know of sleeping parents and zombie children.
    - Boot: start.c, main.c and the initialisation functions.  BootProps: a
      sequential logic for CPU 0 while it is alone, and the way from reset to the
      state SchedProps and DevProps start from.
    - Umalloc: user/umalloc.c on a memory of bytes.  Ulib: user/ulib.c.
    - Sh: the parser of user/sh.c with its nodes in a store.  ShSpec: the tokens,
      the grammar and the command tree of a line; ShProps compares the two.
      ShRun: [runcmd] as the code of processes and the machine that runs them in
      any order; ShRunProps proves it.  ShMain: its descriptors and its main loop.
    - Ergasia: ergasia1.c, its configuration reader and, as a step relation, the
      parent and its children; ErgasiaProps proves both.
    - Userland: user programs as interaction trees over system calls, their
      execution, the class [FileSys] of what they rely on, and two logics: total
      correctness on a file system, and safety of all sequences of calls.
      Grep: the matcher of user/grep.c.  Programs: grep, wc and cat.  Uprogs:
      echo, ls, mkdir, rm, ln, kill, zombie and init.  PrintfProps: numbers as
      printed and read.

    WHAT THE THEOREMS SHOW.
    - Log: a crash at any disk write of commit leaves, after recovery, all of the
      transaction or nothing of it; end_op makes it durable; interleaved
      transactions keep the log's invariant.
    - Concurrency: on any number of CPUs no panic of the locks, the scheduler or
      the traps is reached, a process runs on one CPU, its state changes only
      under its lock, a spinning CPU waits for one that does not spin, and a
      parent that sleeps in wait has no zombie child: its wakeup is not lost.
    - Buffer cache: the list refines a map of blocks.  File content: bmap,
      balloc, bfree, writei, readi, iupdate and ilock meet their contracts;
      dirlookup and dirlink find and add the first entry; namex terminates.
    - System calls: they return, keep reference counts, descriptors and pipe ends
      consistent; pipes are bounded queues under every interleaving.
    - Memory: the free list is a set of pages; mappages, uvmalloc and uvmcopy
      change what they say and undo what they did on failure; copyin reads what
      copyout wrote.
    - User library: malloc and free keep a ring of disjoint free blocks and never
      hand out memory in use; atoi reads what printf wrote.
    - Shell: the parser accepts the lines of the grammar and no other; every
      program of a line runs with the descriptors the line asks for, once, in
      order, and the processes of the shell end.
    - Project 1: on sensible configurations parent and children exclude one
      another, print what was picked, and end; the reader of the configuration
      always leaves its table.
    - Devices: the ring of the console is a state of an abstract terminal, no
      ring overflows, the descriptors of the disk belong to one request each.
    - Boot: from reset, the other CPUs wait until CPU 0 has initialised the
      kernel, and then the machine is where the theorems above apply.
    - Programs: grep, wc, cat and ls end and print what they should of the files
      they are given, whatever pieces read returns; init runs one shell at a time.
    - Defects: for each of several errors of the code a theorem exhibits it.

    BOUNDS.  Loops over a fixed array recurse on the array.  A loop bounded by
    data has as fuel a bound of its data: a path's length in [namex], the bytes
    left in [readi], [writei] and the pipes, the pages of a range in vm.c, 64
    binary digits in printint, nine links in [follow], the units of the heap in
    [malloc] and [free], the length of the line in the parser of the shell.  The theorems state that
    the code returns, so the fuel is shown to suffice.  Loops with no bound
    (spinning, waiting, the scheduler, the processes of the shell and of project
    1) are steps of a machine, not fuel; where they end, a measure shows it.

    CHOICES.  In the file system code the spin locks are not represented and an
    operation is one critical section; a sleep lock that is held stops the run.
    On the machine of KThread such an operation, and one on page tables, is one
    access; accesses to memory are sequentially consistent.  Devices are the
    environment: they answer anything.  User memory is the class [UserMem],
    which VmUser discharges with copyin and copyout.  The system calls of ShRun
    are atomic and may fail at will; a program that was executed may exit at any
    time.  The simulation of project 1 has a step per access to shared memory.

    NOT MODELLED.  Assembly (entry.S, swtch.S, trampoline.S, kernelvec.S,
    initcode.S, the traps of usys.pl) and the linker script: swtch is an event of
    the machine, the addresses of symbols are parameters.  The accessors of
    control registers in riscv.h and the declarations of defs.h have no content
    beyond the register events.  The test programs (usertests.c, grind.c,
    forktest.c, stressfs.c, bigfile.c, symlinktest.c) exercise the calls and are
    no part of the system.  In project 1 the creation and removal of semaphores
    and shared memory, which call the host system on uninitialised handles, and
    ergasia1test.c, an earlier version of the program.  That the boot completes
    on a machine with enough memory, that the wakeups of the drivers are not lost,
    and the content of the stack exec builds are not proved. *)

From stdpp Require Export base numbers list gmap strings functions fin_maps.
From Stdlib Require Export ZArith Lia.

#[export] Set Default Goal Selector "!".
Local Open Scope Z_scope.

(** * Constants of kernel/param.h and kernel/fs.h *)

Definition NPROC : Z := 64.
Definition NOFILE : Z := 16.
Definition NFILE : Z := 100.
Definition NINODE : Z := 50.
Definition NDEV : Z := 10.
Definition ROOTDEV : Z := 1.
Definition MAXARG : Z := 32.
Definition MAXOPBLOCKS : Z := 10.
Definition LOGSIZE : Z := MAXOPBLOCKS * 3.
Definition NBUF : Z := MAXOPBLOCKS * 3.
Definition MAXPATH : Z := 128.

Definition ROOTINO : Z := 1.
Definition BSIZE : Z := 1024.
Definition FSMAGIC : Z := 0x10203040.
Definition NDIRECT : Z := 11.
Definition NINDIRECT : Z := BSIZE / 4.
Definition DOUBLEINDIRECT : Z := NINDIRECT * NINDIRECT.
Definition MAXFILE : Z := NDIRECT + NINDIRECT + DOUBLEINDIRECT.
Definition DIRSIZ : Z := 14.
(** [sizeof(struct dinode)] is 4 shorts, one uint and [NDIRECT+2] uints: 64 bytes. *)
Definition DINODE_SIZE : Z := 4 * 2 + 4 + 4 * (NDIRECT + 2).
Definition IPB : Z := BSIZE / DINODE_SIZE.
Definition BPB : Z := BSIZE * 8.

Definition T_DIR : Z := 1.
Definition T_FILE : Z := 2.
Definition T_DEVICE : Z := 3.
Definition T_SYMLINK : Z := 4.

(** kernel/file.h: the major number of the console. *)
Definition CONSOLE : Z := 1.

(** * Machine integers: a w-bit value is a [Z], its wrap-around written out *)

Definition u8 (z : Z) : Z := z mod 2 ^ 8.
Definition u16 (z : Z) : Z := z mod 2 ^ 16.
Definition u32 (z : Z) : Z := z mod 2 ^ 32.
Definition u64 (z : Z) : Z := z mod 2 ^ 64.
(** Conversion to [short] and [int]: two's complement. *)
Definition i16 (z : Z) : Z := (z + 2 ^ 15) mod 2 ^ 16 - 2 ^ 15.
Definition i32 (z : Z) : Z := (z + 2 ^ 31) mod 2 ^ 32 - 2 ^ 31.

Lemma u32_small z : 0 <= z < 2 ^ 32 -> u32 z = z.
Proof. intros. by apply Z.mod_small. Qed.

Lemma u32_range z : 0 <= u32 z < 2 ^ 32.
Proof. by apply Z.mod_pos_bound. Qed.

Lemma u64_small z : 0 <= z < 2 ^ 64 -> u64 z = z.
Proof. intros. by apply Z.mod_small. Qed.

Lemma u16_small z : 0 <= z < 2 ^ 16 -> u16 z = z.
Proof. intros. by apply Z.mod_small. Qed.

Lemma u8_small z : 0 <= z < 2 ^ 8 -> u8 z = z.
Proof. intros. by apply Z.mod_small. Qed.

Lemma i32_small z : - 2 ^ 31 <= z < 2 ^ 31 -> i32 z = z.
Proof. intros. unfold i32. rewrite Z.mod_small; lia. Qed.

Lemma i16_small z : - 2 ^ 15 <= z < 2 ^ 15 -> i16 z = z.
Proof. intros. unfold i16. rewrite Z.mod_small; lia. Qed.

Lemma u32_i32 z : u32 (i32 z) = u32 z.
Proof.
  unfold u32, i32. rewrite Zminus_mod_idemp_l. f_equal. lia.
Qed.

Lemma i16_u16 z : i16 (u16 z) = i16 z.
Proof. unfold i16, u16. by rewrite Zplus_mod_idemp_l. Qed.

Lemma i32_u32 z : i32 (u32 z) = i32 z.
Proof. unfold i32, u32. by rewrite Zplus_mod_idemp_l. Qed.

(** * Byte strings: blocks and structs in memory are lists of byte values *)

Abbreviation bytes := (list Z) (only parsing).

Definition is_byte (z : Z) : Prop := 0 <= z < 256.

(** Characters and string literals of the source. *)
Definition chr (a : Ascii.ascii) : Z := Z.of_N (Ascii.N_of_ascii a).
Coercion chr : Ascii.ascii >-> Z.
Definition str (s : string) : bytes := chr <$> String.list_ascii_of_string s.

(** Little-endian encoding, as the RISC-V machine stores integers. *)
Fixpoint le_bytes (n : nat) (z : Z) : bytes :=
  match n with
  | O => []
  | S n => u8 z :: le_bytes n (z / 256)
  end.

Fixpoint le_val (l : bytes) : Z :=
  match l with
  | [] => 0
  | b :: l => b + 256 * le_val l
  end.

Lemma length_le_bytes n z : length (le_bytes n z) = n.
Proof. revert z. induction n; intros z; simpl; auto. Qed.

Lemma le_bytes_is_byte n z : Forall is_byte (le_bytes n z).
Proof.
  revert z. induction n as [|n IH]; intros z; simpl; constructor; auto.
  unfold is_byte, u8. by apply Z.mod_pos_bound.
Qed.

Lemma le_val_bytes n z : le_val (le_bytes n z) = z mod 2 ^ (8 * Z.of_nat n).
Proof.
  revert z. induction n as [|n IH]; intros z; simpl.
  { by rewrite Z.mod_1_r. }
  rewrite IH. unfold u8.
  replace (8 * Z.of_nat (S n)) with (8 + 8 * Z.of_nat n) by lia.
  rewrite Z.pow_add_r by lia. change (2 ^ 8) with 256.
  rewrite Z.rem_mul_r; lia.
Qed.

Lemma le_val_range l : Forall is_byte l -> 0 <= le_val l < 2 ^ (8 * Z.of_nat (length l)).
Proof.
  induction 1 as [|b l Hb _ IH]; simpl; [lia|].
  replace (8 * Z.of_nat (S (length l))) with (8 + 8 * Z.of_nat (length l)) by lia.
  rewrite Z.pow_add_r by lia. change (2 ^ 8) with 256. unfold is_byte in Hb. lia.
Qed.

Lemma le_bytes_val l : Forall is_byte l -> le_bytes (length l) (le_val l) = l.
Proof.
  induction 1 as [|b l Hb _ IH]; simpl; [done|]. unfold is_byte in Hb. f_equal.
  - unfold u8. change (2 ^ 8) with 256.
    rewrite (Z.mul_comm 256), Z.mod_add by lia. apply Z.mod_small; lia.
  - rewrite (Z.mul_comm 256), Z.div_add by lia. rewrite Z.div_small by lia. done.
Qed.

(** Reads and writes inside a byte string at a byte offset.  [put] keeps the
    length: C stores never grow an object. *)
Definition byte_at (b : bytes) (i : Z) : Z := b !!! Z.to_nat i.

Definition sub_bytes (b : bytes) (off len : Z) : bytes :=
  take (Z.to_nat len) (drop (Z.to_nat off) b).

Definition put (b : bytes) (off : Z) (d : bytes) : bytes :=
  take (length b) (take (Z.to_nat off) b ++ d ++ drop (Z.to_nat off + length d) b).

Definition zeros (n : Z) : bytes := replicate (Z.to_nat n) 0.

Lemma length_put b off d : (Z.to_nat off <= length b)%nat -> length (put b off d) = length b.
Proof.
  intros. unfold put. rewrite length_take, !length_app, length_take, length_drop. lia.
Qed.

Lemma put_lookup_in b off d i :
  0 <= off -> (Z.to_nat off + length d <= length b)%nat ->
  (Z.to_nat off <= i < Z.to_nat off + length d)%nat ->
  put b off d !! i = d !! (i - Z.to_nat off)%nat.
Proof.
  intros. unfold put. rewrite lookup_take_lt by lia.
  rewrite lookup_app_r by (rewrite length_take; lia).
  rewrite length_take, lookup_app_l by lia. f_equal. lia.
Qed.

Lemma put_lookup_out b off d i :
  0 <= off -> (Z.to_nat off + length d <= length b)%nat ->
  ((i < Z.to_nat off)%nat \/ (Z.to_nat off + length d <= i)%nat) ->
  put b off d !! i = b !! i.
Proof.
  intros Ho Hl Hi. unfold put.
  destruct (decide (i < length b)%nat) as [Hlt|Hge].
  - rewrite lookup_take_lt by lia. destruct Hi as [Hi|Hi].
    + rewrite lookup_app_l by (rewrite length_take; lia). by rewrite lookup_take_lt.
    + rewrite lookup_app_r by (rewrite length_take; lia).
      rewrite lookup_app_r by (rewrite length_take; lia).
      rewrite lookup_drop. f_equal. rewrite length_take. lia.
  - rewrite lookup_take_ge by lia. symmetry. apply lookup_ge_None_2. lia.
Qed.

Lemma sub_bytes_put_same b off d n :
  0 <= off -> n = Z.of_nat (length d) -> (Z.to_nat off + length d <= length b)%nat ->
  sub_bytes (put b off d) off n = d.
Proof.
  intros Ho -> Hl. apply list_eq. intros i. unfold sub_bytes.
  destruct (decide (i < length d)%nat).
  - rewrite lookup_take_lt by lia. rewrite lookup_drop, put_lookup_in by lia.
    f_equal. lia.
  - rewrite lookup_take_ge by lia. symmetry. apply lookup_ge_None_2. lia.
Qed.

Lemma sub_bytes_put_disjoint b off d off' len :
  0 <= off -> 0 <= off' -> 0 <= len -> (Z.to_nat off + length d <= length b)%nat ->
  (off' + len <= off \/ off + Z.of_nat (length d) <= off') ->
  sub_bytes (put b off d) off' len = sub_bytes b off' len.
Proof.
  intros Ho Ho' Hn Hl Hd. apply list_eq. intros i. unfold sub_bytes.
  destruct (decide (i < Z.to_nat len)%nat).
  - rewrite !lookup_take_lt, !lookup_drop by lia. apply put_lookup_out; lia.
  - by rewrite !lookup_take_ge by lia.
Qed.

Lemma length_sub_bytes b off len :
  0 <= off -> 0 <= len -> off + len <= Z.of_nat (length b) ->
  length (sub_bytes b off len) = Z.to_nat len.
Proof. intros. unfold sub_bytes. rewrite length_take, length_drop. lia. Qed.

Lemma put_is_byte b off d :
  Forall is_byte b -> Forall is_byte d -> Forall is_byte (put b off d).
Proof.
  intros. unfold put. apply Forall_take, Forall_app; split; [by apply Forall_take|].
  apply Forall_app; split; [done|by apply Forall_drop].
Qed.

Lemma sub_bytes_is_byte b off len : Forall is_byte b -> Forall is_byte (sub_bytes b off len).
Proof. intros. by apply Forall_take, Forall_drop. Qed.

Lemma zeros_is_byte n : Forall is_byte (zeros n).
Proof. apply Forall_replicate. unfold is_byte; lia. Qed.

Lemma length_zeros n : length (zeros n) = Z.to_nat n.
Proof. apply length_replicate. Qed.

(** [((uint * )b)[i]]: the 32-bit word at index [i] of a block. *)
Definition word_at (b : bytes) (i : Z) : Z := le_val (sub_bytes b (4 * i) 4).
Definition put_word (b : bytes) (i : Z) (v : Z) : bytes := put b (4 * i) (le_bytes 4 v).

Lemma word_at_put_word b i v :
  0 <= i -> 4 * i + 4 <= Z.of_nat (length b) -> 0 <= v < 2 ^ 32 ->
  word_at (put_word b i v) i = v.
Proof.
  intros. unfold word_at, put_word.
  rewrite sub_bytes_put_same; [|lia|by rewrite length_le_bytes|rewrite length_le_bytes; lia].
  rewrite le_val_bytes. by apply Z.mod_small.
Qed.

Lemma word_at_put_word_ne b i j v :
  0 <= i -> 0 <= j -> i <> j -> 4 * i + 4 <= Z.of_nat (length b) ->
  word_at (put_word b i v) j = word_at b j.
Proof.
  intros. unfold word_at, put_word. f_equal.
  apply sub_bytes_put_disjoint; rewrite ?length_le_bytes; lia.
Qed.

Lemma length_put_word b i v :
  4 * i <= Z.of_nat (length b) -> length (put_word b i v) = length b.
Proof. intros. apply length_put. lia. Qed.

Lemma word_at_range b i :
  Forall is_byte b -> 0 <= i -> 4 * i + 4 <= Z.of_nat (length b) ->
  0 <= word_at b i < 2 ^ 32.
Proof.
  intros Hb Hi Hl. unfold word_at.
  pose proof (le_val_range (sub_bytes b (4 * i) 4)) as Hr.
  rewrite length_sub_bytes in Hr by lia. apply Hr. by apply sub_bytes_is_byte.
Qed.

Lemma word_at_zeros n i : word_at (zeros n) i = 0.
Proof.
  unfold word_at, sub_bytes, zeros. rewrite drop_replicate, take_replicate.
  generalize (Z.to_nat 4 `min` (Z.to_nat n - Z.to_nat (4 * i)))%nat as m.
  induction m; simpl; lia.
Qed.

Lemma filter_all {A} (P : A -> Prop) `{!forall x, Decision (P x)} (l : list A) :
  Forall P l -> filter P l = l.
Proof. induction 1; [done|]. rewrite filter_cons_True by done. by f_equal. Qed.

Lemma size_union_le (X Y : gset Z) : (size (X ∪ Y) <= size X + size Y)%nat.
Proof.
  rewrite size_union_alt. pose proof (subseteq_size (Y ∖ X) Y ltac:(set_solver)). lia.
Qed.

Lemma size_list_to_set_le (l : list Z) : (size (list_to_set l : gset Z) <= length l)%nat.
Proof.
  induction l as [|x l IH]; simpl; [done|].
  pose proof (size_union_le {[x]} (list_to_set l)). rewrite size_singleton in *. lia.
Qed.

Lemma size_union_list (H : gset Z) (L : list Z) :
  (size (H ∪ list_to_set L) <= size H + length L)%nat.
Proof. pose proof (size_union_le H (list_to_set L)). pose proof (size_list_to_set_le L). lia. Qed.

(** * Outcomes

    [panic] freezes the kernel, [sleep] gives up the CPU until another process
    calls [wakeup]: with a single flow of control both end the run.
    [OutOfFuel] is only produced by bounded loops, [Unspec] by the
    specification of the buffer cache outside its contract and by code whose
    behaviour C leaves undefined. *)
Inductive outcome (A : Type) : Type :=
| Done (a : A)
| Panicked (msg : string)
| Asleep
| OutOfFuel
| Unspec.
Arguments Done {A} a.
Arguments Panicked {A} msg.
Arguments Asleep {A}.
Arguments OutOfFuel {A}.
Arguments Unspec {A}.

#[export] Instance outcome_ret : MRet outcome := fun _ a => Done a.
#[export] Instance outcome_bind : MBind outcome := fun _ _ f m =>
  match m with
  | Done a => f a
  | Panicked msg => Panicked msg
  | Asleep => Asleep
  | OutOfFuel => OutOfFuel
  | Unspec => Unspec
  end.

(** * Automation shared by the components *)

Create HintDb xv6 discriminated.
#[export] Hint Resolve u32_range le_bytes_is_byte sub_bytes_is_byte zeros_is_byte : xv6.

(** Break every [match]/[if] of the goal or of a hypothesis, keeping equations. *)
Ltac break :=
  repeat match goal with
  | H : context [match ?x with _ => _ end] |- _ => destruct x eqn:?; simplify_eq/=
  | |- context [match ?x with _ => _ end] => destruct x eqn:?; simplify_eq/=
  end.

(** Boolean tests of the code as propositions. *)
Ltac bool2prop :=
  repeat match goal with
  | H : (_ =? _) = true |- _ => apply Z.eqb_eq in H
  | H : (_ =? _) = false |- _ => apply Z.eqb_neq in H
  | H : (_ <? _) = true |- _ => apply Z.ltb_lt in H
  | H : (_ <? _) = false |- _ => apply Z.ltb_ge in H
  | H : (_ <=? _) = true |- _ => apply Z.leb_le in H
  | H : (_ <=? _) = false |- _ => apply Z.leb_gt in H
  | H : (_ && _) = true |- _ => apply andb_true_iff in H as [? ?]
  | H : (_ || _) = false |- _ => apply orb_false_iff in H as [? ?]
  | H : negb _ = true |- _ => apply negb_true_iff in H
  | H : negb _ = false |- _ => apply negb_false_iff in H
  end.
