(* ===== verification/BufCache.v ===== *)
(** The buffer cache, kernel/bio.c, over the disk of kernel/virtio_disk.c.

    The cache is an array of [NBUF] buffers threaded on a doubly linked list
    with a sentinel; the links are modelled as the indices the pointers hold,
    so [binit], [bget] and [brelse] are the pointer programs of the source.
    Spin locks are not represented: each operation is one critical section.  A
    sleep lock that is already held makes the caller sleep ([Asleep]). *)

From S2P Require Import Prelude.
Local Open Scope Z_scope.

(** * The disk device *)

(** The virtio device is hardware.  The driver asks it to transfer [BSIZE]
    bytes at a sector; a read returns what the last write put there. *)
Class BlockDevice (D : Type) := {
  dev_read : D -> Z -> bytes;
  dev_write : D -> Z -> bytes -> D;
  dev_read_length d s : Z.of_nat (length (dev_read d s)) = BSIZE;
  dev_read_write_eq d s b :
    Z.of_nat (length b) = BSIZE -> dev_read (dev_write d s b) s = b;
  dev_read_write_ne d s s' b :
    (s + BSIZE / 512 <= s' \/ s' + BSIZE / 512 <= s) ->
    dev_read (dev_write d s b) s' = dev_read d s';
}.

(** [uint64 sector = b->blockno * (BSIZE / 512)]: a 32-bit product. *)
Definition sector (blockno : Z) : Z := u32 (blockno * (BSIZE / 512)).

(** * Data *)

Record sleeplock := SleepLock { locked : bool; lk_pid : Z }.

Record buf := Buf {
  valid : bool;
  b_dev : Z;
  blockno : Z;
  b_lock : sleeplock;
  refcnt : Z;
  b_prev : nat;
  b_next : nat;
  data : bytes;
}.

(** Index [NBUFn] of the table is the list head. *)
Definition NBUFn : nat := Z.to_nat NBUF.
Definition HEAD : nat := NBUFn.

Definition set_valid v b := Buf v (b_dev b) (blockno b) (b_lock b) (refcnt b) (b_prev b) (b_next b) (data b).
Definition set_id d n b := Buf (valid b) d n (b_lock b) (refcnt b) (b_prev b) (b_next b) (data b).
Definition set_lock l b := Buf (valid b) (b_dev b) (blockno b) l (refcnt b) (b_prev b) (b_next b) (data b).
Definition set_ref r b := Buf (valid b) (b_dev b) (blockno b) (b_lock b) r (b_prev b) (b_next b) (data b).
Definition set_prev p b := Buf (valid b) (b_dev b) (blockno b) (b_lock b) (refcnt b) p (b_next b) (data b).
Definition set_next n b := Buf (valid b) (b_dev b) (blockno b) (b_lock b) (refcnt b) (b_prev b) n (data b).
Definition set_data d b := Buf (valid b) (b_dev b) (blockno b) (b_lock b) (refcnt b) (b_prev b) (b_next b) d.

(** Store through a pointer: [f[i]] becomes [g f[i]]. *)
Definition upd (f : nat -> buf) (i : nat) (g : buf -> buf) : nat -> buf := <[i := g (f i)]> f.

(** The cache, the disk behind it and the history of the blocks written to
    the disk, newest last. *)
Record bcache (D : Type) := BCache {
  bufs : nat -> buf;
  disk : D;
  hist : list (Z * bytes);
}.
Arguments BCache {D}.
Arguments bufs {D}.
Arguments disk {D}.
Arguments hist {D}.

Definition CM (D A : Type) : Type := bcache D -> outcome (A * bcache D).
#[export] Instance CM_ret D : MRet (CM D) := fun _ a s => Done (a, s).
#[export] Instance CM_bind D : MBind (CM D) := fun _ _ f m s =>
  match m s with
  | Done (a, s') => f a s'
  | Panicked msg => Panicked msg
  | Asleep => Asleep
  | OutOfFuel => OutOfFuel
  | Unspec => Unspec
  end.

Section ops.
Context {D : Type} `{!BlockDevice D}.
(** [myproc()->pid] *)
Variable pid : Z.

Definition get_buf (i : nat) : CM D buf := fun s => Done (bufs s i, s).
Definition mod_buf (i : nat) (g : buf -> buf) : CM D unit := fun s =>
  Done (tt, BCache (upd (bufs s) i g) (disk s) (hist s)).
Definition cpanic {A} (msg : string) : CM D A := fun _ => Panicked msg.
Definition csleep {A} : CM D A := fun _ => Asleep.

(** ** kernel/sleeplock.c on the lock of a buffer *)

Definition initsleeplock (i : nat) : CM D unit := mod_buf i (set_lock (SleepLock false 0)).

Definition acquiresleep (i : nat) : CM D unit :=
  b ← get_buf i;
  if locked (b_lock b) then csleep
  else mod_buf i (set_lock (SleepLock true pid)).

Definition releasesleep (i : nat) : CM D unit := mod_buf i (set_lock (SleepLock false 0)).

Definition holdingsleep (i : nat) : CM D bool :=
  b ← get_buf i;
  mret (locked (b_lock b) && (lk_pid (b_lock b) =? pid)).

(** ** kernel/bio.c *)

(** [b] goes between the head and the first buffer of the list. *)
Definition push_front (b : nat) : CM D unit :=
  h ← get_buf HEAD;
  mod_buf b (set_next (b_next h));;
  mod_buf b (set_prev HEAD);;
  h ← get_buf HEAD;
  mod_buf (b_next h) (set_prev b);;
  mod_buf HEAD (set_next b).

Fixpoint binit_loop (n : nat) (b : nat) : CM D unit :=
  match n with
  | O => mret tt
  | S n =>
      h ← get_buf HEAD;
      mod_buf b (set_next (b_next h));;
      mod_buf b (set_prev HEAD);;
      initsleeplock b;;
      h ← get_buf HEAD;
      mod_buf (b_next h) (set_prev b);;
      mod_buf HEAD (set_next b);;
      binit_loop n (S b)
  end.

Definition binit : CM D unit :=
  mod_buf HEAD (set_prev HEAD);;
  mod_buf HEAD (set_next HEAD);;
  binit_loop NBUFn 0.

(** [for(b = bcache.head.next; b != &bcache.head; b = b->next)] *)
Fixpoint find_next (fuel : nat) (f : nat -> buf) (p : buf -> bool) (b : nat) : outcome (option nat) :=
  match fuel with
  | O => OutOfFuel
  | S fuel =>
      if decide (b = HEAD) then Done None
      else if p (f b) then Done (Some b) else find_next fuel f p (b_next (f b))
  end.

(** [for(b = bcache.head.prev; b != &bcache.head; b = b->prev)] *)
Fixpoint find_prev (fuel : nat) (f : nat -> buf) (p : buf -> bool) (b : nat) : outcome (option nat) :=
  match fuel with
  | O => OutOfFuel
  | S fuel =>
      if decide (b = HEAD) then Done None
      else if p (f b) then Done (Some b) else find_prev fuel f p (b_prev (f b))
  end.

Definition lift {A} (o : outcome A) : CM D A := fun s => a ← o; Done (a, s).

Definition bget (dev no : Z) : CM D nat := fun s =>
  (r ← lift (find_next (S NBUFn) (bufs s)
               (fun b => (b_dev b =? dev) && (blockno b =? no)) (b_next (bufs s HEAD)));
   match r with
   | Some b =>
       mod_buf b (fun x => set_ref (u32 (refcnt x + 1)) x);;
       acquiresleep b;;
       mret b
   | None =>
       r ← lift (find_prev (S NBUFn) (bufs s)
                   (fun b => refcnt b =? 0) (b_prev (bufs s HEAD)));
       match r with
       | Some b =>
           mod_buf b (set_id dev no);;
           mod_buf b (set_valid false);;
           mod_buf b (set_ref 1);;
           acquiresleep b;;
           mret b
       | None => cpanic "bget: no buffers"
       end
   end) s.

(** The transfer [virtio_disk_rw] waits for: by the time it returns the device
    has copied the block. *)
Definition virtio_disk_rw (b : nat) (write : bool) : CM D unit := fun s =>
  let x := bufs s b in
  if write then
    Done (tt, BCache (bufs s) (dev_write (disk s) (sector (blockno x)) (data x))
                     (hist s ++ [(blockno x, data x)]))
  else
    mod_buf b (set_data (dev_read (disk s) (sector (blockno x)))) s.

Definition bread (dev no : Z) : CM D nat :=
  b ← bget dev no;
  x ← get_buf b;
  (if valid x then mret tt
   else virtio_disk_rw b false;; mod_buf b (set_valid true));;
  mret b.

Definition bwrite (b : nat) : CM D unit :=
  h ← holdingsleep b;
  if negb h then cpanic "bwrite" else virtio_disk_rw b true.

Definition brelse (b : nat) : CM D unit :=
  h ← holdingsleep b;
  if negb h then cpanic "brelse" else
  releasesleep b;;
  mod_buf b (fun x => set_ref (u32 (refcnt x - 1)) x);;
  x ← get_buf b;
  if refcnt x =? 0 then
    (* no one is waiting for it. *)
    mod_buf (b_next x) (set_prev (b_prev x));;
    x ← get_buf b;
    mod_buf (b_prev x) (set_next (b_next x));;
    push_front b
  else mret tt.

Definition bpin (b : nat) : CM D unit :=
  mod_buf b (fun x => set_ref (u32 (refcnt x + 1)) x).

Definition bunpin (b : nat) : CM D unit :=
  mod_buf b (fun x => set_ref (u32 (refcnt x - 1)) x).

End ops.

(** * The list of buffers *)

(** [seg f x l y]: from [x], the [next] links visit [l] and arrive at [y], and
    the [prev] links lead back. *)
Definition linked (f : nat -> buf) (x y : nat) : Prop := b_next (f x) = y /\ b_prev (f y) = x.

Fixpoint seg (f : nat -> buf) (x : nat) (l : list nat) (y : nat) : Prop :=
  match l with
  | [] => linked f x y
  | z :: l => linked f x z /\ seg f z l y
  end.

(** The cache's list: [l] is the buffers from the most to the least recently
    used; every buffer is on it exactly once. *)
Definition lru_list (f : nat -> buf) (l : list nat) : Prop :=
  seg f HEAD l HEAD /\ l ≡ₚ seq 0 NBUFn.

Lemma seg_app f x l1 z l2 y : seg f x (l1 ++ z :: l2) y <-> seg f x l1 z /\ seg f z l2 y.
Proof. revert x. induction l1 as [|w l1 IH]; intros x; simpl; [done|]. rewrite IH. tauto. Qed.

(** Only the [next] fields of [x :: l] and the [prev] fields of [l ++ [y]] matter. *)
Lemma seg_ext f g x l y :
  (forall i, i ∈ x :: l -> b_next (g i) = b_next (f i)) ->
  (forall i, i ∈ l ++ [y] -> b_prev (g i) = b_prev (f i)) ->
  seg f x l y -> seg g x l y.
Proof.
  revert x. induction l as [|z l IH]; intros x Hn Hp; simpl; unfold linked.
  - rewrite Hn, Hp by set_solver. done.
  - intros [[? ?] ?]. rewrite Hn, Hp by set_solver. split; [done|].
    apply IH; [set_solver..|done].
Qed.

Lemma seg_find_next f p x l n :
  seg f x l HEAD -> HEAD ∉ l -> (length l < n)%nat ->
  find_next n f p (b_next (f x)) = Done (list_find (fun b => p (f b)) l ≫= fun r => Some r.2).
Proof.
  revert x l. induction n as [|n IH]; intros x l Hs Hh Hl; [lia|].
  destruct l as [|z l]; simpl in *.
  - destruct Hs as [-> _]. by rewrite decide_True.
  - destruct Hs as [[-> _] Hs]. rewrite decide_False by set_solver.
    case_decide as Hp; destruct (p (f z)); simplify_eq/=; try done.
    rewrite (IH z l) by (done || set_solver || lia).
    by destruct (list_find _ l) as [[]|].
Qed.

Lemma seg_find_prev f p y l n :
  seg f HEAD l y -> HEAD ∉ l -> (length l < n)%nat ->
  find_prev n f p (b_prev (f y)) =
    Done (list_find (fun b => p (f b)) (reverse l) ≫= fun r => Some r.2).
Proof.
  revert y l. induction n as [|n IH]; intros y l Hs Hh Hl; [lia|].
  destruct l as [|z l _] using rev_ind; simpl in *.
  - destruct Hs as [_ ->]. by rewrite decide_True.
  - rewrite length_app in Hl. simpl in Hl.
    apply seg_app in Hs as [Hs [_ ->]]. rewrite decide_False by set_solver.
    rewrite reverse_snoc. simpl.
    case_decide as Hp; destruct (p (f z)); simplify_eq/=; try done.
    rewrite (IH z l) by (done || set_solver || lia).
    by destruct (list_find _ (reverse l)) as [[]|].
Qed.

Lemma list_find_none_or {A} (P : A -> bool) (l : list A) :
  (exists x, x ∈ l /\ P x = true /\ list_find P l ≫= (fun r => Some r.2) = Some x) \/
  ((forall x, x ∈ l -> P x = false) /\ list_find P l ≫= (fun r => Some r.2) = None).
Proof.
  destruct (list_find P l) as [[i x]|] eqn:E; simpl.
  - apply list_find_Some in E as (Hi & Hp & _). left. exists x.
    split; [by eapply list_elem_of_lookup_2|]. split; [|done].
    by destruct (P x).
  - right. split; [|done]. apply list_find_None in E. rewrite Forall_forall in E.
    intros x Hx. specialize (E x Hx). by destruct (P x).
Qed.

(** Links of a table: what the list predicate can see. *)
Lemma upd_eq f i g : upd f i g i = g (f i).
Proof. apply fn_lookup_insert. Qed.
Lemma upd_ne f i j g : i <> j -> upd f i g j = f j.
Proof. apply fn_lookup_insert_ne. Qed.

Definition keeps_links (g : buf -> buf) : Prop :=
  forall b, b_next (g b) = b_next b /\ b_prev (g b) = b_prev b.

Lemma upd_links f i g j :
  keeps_links g -> b_next (upd f i g j) = b_next (f j) /\ b_prev (upd f i g j) = b_prev (f j).
Proof.
  intros Hg. destruct (decide (i = j)) as [->|]; [rewrite upd_eq; apply Hg|by rewrite upd_ne].
Qed.

Lemma lru_upd f i g l : keeps_links g -> lru_list f l -> lru_list (upd f i g) l.
Proof.
  intros Hg [Hs Hp]. split; [|done].
  eapply seg_ext, Hs; intros j _; by apply (upd_links f i g j).
Qed.

(** Taking [b] out of the list. *)
Definition unlink (f : nat -> buf) (b : nat) : nat -> buf :=
  let f := upd f (b_next (f b)) (set_prev (b_prev (f b))) in
  upd f (b_prev (f b)) (set_next (b_next (f b))).

Lemma unlink_next f b j :
  b_next (f b) <> b ->
  b_next (unlink f b j) = if decide (j = b_prev (f b)) then b_next (f b) else b_next (f j).
Proof.
  intros Hn. unfold unlink. rewrite !(upd_ne f _ b) by done.
  case_decide as Hj; [subst; by rewrite upd_eq|]. rewrite upd_ne by done.
  destruct (decide (b_next (f b) = j)) as [<-|]; [by rewrite upd_eq|by rewrite upd_ne].
Qed.

Lemma unlink_prev f b j :
  b_next (f b) <> b ->
  b_prev (unlink f b j) = if decide (j = b_next (f b)) then b_prev (f b) else b_prev (f j).
Proof.
  intros Hn. unfold unlink. rewrite !(upd_ne f _ b) by done.
  set (g := upd f _ (set_prev _)).
  assert (Hg : b_prev (upd g (b_prev (f b)) (set_next (b_next (f b))) j) = b_prev (g j)).
  { destruct (decide (b_prev (f b) = j)) as [<-|]; [by rewrite upd_eq|by rewrite upd_ne]. }
  rewrite Hg. unfold g. case_decide; [subst; by rewrite upd_eq|by rewrite upd_ne].
Qed.

(** The segment before [b], led past [b] to [n]. *)
Lemma seg_retarget f g x l b n :
  seg f x l b -> NoDup (x :: l) ->
  (forall i, i ∈ x :: l -> b_next (g i) = if decide (i = b_prev (f b)) then n else b_next (f i)) ->
  (forall i, i ∈ l -> b_prev (g i) = b_prev (f i)) ->
  b_prev (g n) = b_prev (f b) ->
  seg g x l n.
Proof.
  revert x. induction l as [|z l IH]; intros x Hs Hd Hn Hp Hpn; simpl in *.
  - destruct Hs as [_ Hb]. split; [|congruence]. rewrite Hn by set_solver.
    by rewrite decide_True.
  - destruct Hs as [[Hx Hz] Hs]. apply NoDup_cons in Hd as [Hxl Hd]. split.
    + split; [|rewrite Hp by set_solver; done].
      rewrite Hn by set_solver. rewrite decide_False; [done|].
      intros ->. apply Hxl.
      assert (Hlast : b_prev (f b) ∈ z :: l).
      { clear -Hs. revert z Hs. induction l as [|w l IH]; intros z Hs; simpl in Hs.
        - destruct Hs as [_ ->]. set_solver.
        - destruct Hs as [_ Hs]. apply IH in Hs. set_solver. }
      done.
    + apply IH; try done; intros i Hi; [apply Hn|apply Hp]; set_solver.
Qed.

Lemma unlink_seg f x l1 b l2 y :
  seg f x (l1 ++ b :: l2) y ->
  NoDup (x :: l1 ++ b :: l2) -> NoDup ((l1 ++ b :: l2) ++ [y]) ->
  seg (unlink f b) x (l1 ++ l2) y.
Proof.
  intros Hs Hx Hy. apply seg_app in Hs as [H1 H2].
  assert (Hn : b_next (f b) ∈ l2 ++ [y]).
  { destruct l2; simpl in H2; [destruct H2 as [-> _]|destruct H2 as [[-> _] _]]; set_solver. }
  assert (Hp : b_prev (f b) ∈ x :: l1).
  { destruct l1 as [|w l1 _] using rev_ind; simpl in H1.
    - destruct H1 as [_ ->]. set_solver.
    - apply seg_app in H1 as [_ [_ ->]]. set_solver. }
  rewrite <- app_assoc in Hy. simpl in Hy.
  apply NoDup_app in Hy as (Hd1 & Hd2 & Hd3).
  apply NoDup_cons in Hd3 as [Hb2 Hd3].
  rewrite app_comm_cons in Hx. apply NoDup_app in Hx as (Hx1 & Hx2 & Hx3).
  apply NoDup_cons in Hx3 as [Hb2' Hx3].
  assert (Hbn : b_next (f b) <> b) by congruence.
  assert (Hseg : seg (unlink f b) x l1 (b_next (f b))).
  { eapply (seg_retarget f); [done|done| | |].
    - intros i _. by apply unlink_next.
    - intros i Hi. rewrite unlink_prev by done. rewrite decide_False; [done|].
      intros ->. apply (Hd2 _ Hi). set_solver.
    - rewrite unlink_prev by done. by rewrite decide_True. }
  destruct l2 as [|z l2]; simpl in H2.
  - destruct H2 as [E _]. rewrite app_nil_r. by rewrite E in Hseg.
  - destruct H2 as [[E _] H2]. rewrite E in Hseg. apply seg_app. split; [done|].
    eapply seg_ext, H2.
    + intros i Hi. rewrite unlink_next by done. rewrite decide_False; [done|].
      intros ->. apply (Hx2 _ Hp). set_solver.
    + intros i Hi. rewrite unlink_prev by done. rewrite decide_False; [done|].
      intros ->. apply NoDup_cons in Hd3 as [Hz _]. rewrite E in Hi. done.
Qed.

(** Putting [b] in front. *)
Definition relink (f : nat -> buf) (b : nat) : nat -> buf :=
  let f := upd f b (set_next (b_next (f HEAD))) in
  let f := upd f b (set_prev HEAD) in
  let f := upd f (b_next (f HEAD)) (set_prev b) in
  upd f HEAD (set_next b).

Lemma relink_seg f l b :
  seg f HEAD l HEAD -> NoDup (b :: l ++ [HEAD]) -> seg (relink f b) HEAD (b :: l) HEAD.
Proof.
  intros Hs Hd. apply NoDup_cons in Hd as [Hbl Hd].
  assert (Hb : b <> HEAD) by set_solver. unfold relink. rewrite !(upd_ne _ b HEAD) by done.
  set (n := b_next (f HEAD)). set (f2 := upd (upd f b _) b _).
  assert (Hnb : n <> b).
  { unfold n. destruct l; simpl in Hs; [destruct Hs as [-> _]; done|].
    destruct Hs as [[-> _] _]. set_solver. }
  set (f3 := upd f2 n (set_prev b)).
  assert (N : forall j, b_next (upd f3 HEAD (set_next b) j) =
     if decide (j = HEAD) then b else if decide (j = b) then n else b_next (f j)).
  { intros j. case_decide; [subst; by rewrite upd_eq|]. rewrite upd_ne by done.
    unfold f3. destruct (decide (n = j)) as [<-|]; [rewrite upd_eq|rewrite upd_ne by done];
      simpl; unfold f2; case_decide; simplify_eq/=; by rewrite ?upd_eq, ?upd_ne by done. }
  assert (P : forall j, b_prev (upd f3 HEAD (set_next b) j) =
     if decide (j = n) then b else if decide (j = b) then HEAD else b_prev (f j)).
  { intros j.
    assert (b_prev (upd f3 HEAD (set_next b) j) = b_prev (f3 j)) as ->.
    { destruct (decide (HEAD = j)) as [<-|]; [by rewrite upd_eq|by rewrite upd_ne]. }
    unfold f3. case_decide; [subst; by rewrite upd_eq|]. rewrite upd_ne by done.
    unfold f2. case_decide; [subst; by rewrite upd_eq|]. by rewrite !upd_ne by done. }
  clearbody f3. clear f2.
  simpl. unfold linked. rewrite N, P, decide_True, decide_False, decide_True by done.
  split; [done|].
  destruct l as [|z l]; simpl in *; unfold linked in *.
  - destruct Hs as [Hs _]. rewrite N, P, decide_False, decide_True by done.
    fold n in Hs. by rewrite decide_True.
  - destruct Hs as [[Hn Hz] Hs]. fold n in Hn. rewrite N, P, decide_False, decide_True by done.
    rewrite decide_True by done. split; [done|].
    eapply (seg_ext f).
    + intros i Hi. rewrite N, !decide_False; [done| |].
      * intros ->. apply Hbl. set_solver.
      * intros ->. rewrite app_comm_cons in Hd.
        apply NoDup_app in Hd as (_ & Hd & _). apply (Hd _ Hi). set_solver.
    + intros i Hi. rewrite P, !decide_False; [done|intros ->; set_solver|].
      intros ->. rewrite Hn in Hi. apply NoDup_cons in Hd as [Hd _]. done.
    + done.
Qed.

Lemma lru_nodup f l : lru_list f l -> NoDup (HEAD :: l) /\ NoDup (l ++ [HEAD]).
Proof.
  intros [_ Hp].
  assert (Hd : NoDup (HEAD :: l)).
  { apply NoDup_cons. rewrite Hp. split; [|apply NoDup_seq].
    rewrite elem_of_seq. unfold HEAD. lia. }
  split; [done|]. by rewrite <- (Permutation_cons_append l HEAD).
Qed.

Lemma lru_elem f l i : lru_list f l -> i ∈ l <-> (i < NBUFn)%nat.
Proof. intros [_ ->]. rewrite elem_of_seq. lia. Qed.

Lemma lru_length f l : lru_list f l -> length l = NBUFn.
Proof. intros [_ ->]. apply length_seq. Qed.

(** [brelse]'s six pointer stores move the buffer to the front. *)
Lemma lru_move_front f l b :
  lru_list f l -> (b < NBUFn)%nat -> exists l', lru_list (relink (unlink f b) b) (b :: l').
Proof.
  intros Hl Hb. pose proof (lru_nodup _ _ Hl) as [Hd1 Hd2].
  apply (lru_elem f l) in Hb; [|done]. destruct Hl as [Hs Hp].
  apply list_elem_of_split in Hb as (l1 & l2 & ->). exists (l1 ++ l2).
  assert (Hd3 : NoDup (b :: (l1 ++ l2) ++ [HEAD])).
  { assert (E : (l1 ++ b :: l2) ++ [HEAD] ≡ₚ b :: (l1 ++ l2) ++ [HEAD])
      by (rewrite <- !app_assoc; simpl; by rewrite <- Permutation_middle).
    by rewrite <- E. }
  split; [|by rewrite Permutation_middle].
  apply relink_seg; [by apply unlink_seg|done].
Qed.

(** The scan of [bget] is a search of the list, front to back and back to front. *)
Lemma lru_find_next f l p :
  lru_list f l ->
  find_next (S NBUFn) f p (b_next (f HEAD)) =
    Done (list_find (fun b => p (f b)) l ≫= fun r => Some r.2).
Proof.
  intros Hl. pose proof (lru_nodup _ _ Hl) as [Hd _]. apply NoDup_cons in Hd as [? _].
  pose proof (lru_length _ _ Hl). apply seg_find_next; [apply Hl|done|lia].
Qed.

Lemma lru_find_prev f l p :
  lru_list f l ->
  find_prev (S NBUFn) f p (b_prev (f HEAD)) =
    Done (list_find (fun b => p (f b)) (reverse l) ≫= fun r => Some r.2).
Proof.
  intros Hl. pose proof (lru_nodup _ _ Hl) as [Hd _]. apply NoDup_cons in Hd as [? _].
  pose proof (lru_length _ _ Hl). apply seg_find_prev; [apply Hl|done|lia].
Qed.
