(* ===== verification/BufSpec.v ===== *)
(** The interface between the buffer cache and everything above it.

    Kernel code above kernel/bio.c is written as programs over the cache's
    operations ([prog]), so that it can be run both on the cache of BufCache.v
    and on the specification below, where a buffer cache is a view of the
    disk's blocks with reference counts.  [bio_refines] shows that the cache
    implements the specification for every such program. *)

From S2P Require Import Prelude BufCache.
Local Open Scope Z_scope.

(** * Programs over the buffer cache *)

(** A locked buffer, named by its device and block number: the cache holds at
    most one buffer per block. *)
Record bufid := BufId { bi_dev : Z; bi_no : Z }.

(** The operations of kernel/bio.c, and the loads and stores of [b->data]. *)
Inductive bioE : Type -> Type :=
| Bread (dev no : Z) : bioE bufid
| GetData (b : bufid) : bioE bytes
| SetData (b : bufid) (d : bytes) : bioE unit
| Bwrite (b : bufid) : bioE unit
| Brelse (b : bufid) : bioE unit
| Bpin (b : bufid) : bioE unit
| Bunpin (b : bufid) : bioE unit.

(** Ways a program ends without returning. *)
Inductive stop := SPanic (msg : string) | SSleep | SFuel | SUndef.

Inductive prog (A : Type) : Type :=
| Ret (a : A)
| Stop (s : stop)
| Vis {X : Type} (e : bioE X) (k : X -> prog A).
Arguments Ret {A} a.
Arguments Stop {A} s.
Arguments Vis {A X} e k.

#[export] Instance prog_ret : MRet prog := @Ret.
#[export] Instance prog_bind : MBind prog := fun A B f =>
  fix bind (m : prog A) : prog B :=
    match m with
    | Ret a => f a
    | Stop s => Stop s
    | Vis e k => Vis e (fun x => bind (k x))
    end.

Definition stop_outcome {A} (s : stop) : outcome A :=
  match s with SPanic msg => Panicked msg | SSleep => Asleep | SFuel => OutOfFuel | SUndef => Unspec end.

(** Run a program with the operations given by [h]. *)
Fixpoint run {S A : Type} (h : forall X, bioE X -> S -> outcome (X * S)) (p : prog A) (s : S)
  : outcome (A * S) :=
  match p with
  | Ret a => Done (a, s)
  | Stop st => stop_outcome st
  | Vis e k =>
      match h _ e s with
      | Done (x, s') => run h (k x) s'
      | Panicked msg => Panicked msg
      | Asleep => Asleep
      | OutOfFuel => OutOfFuel
      | Unspec => Unspec
      end
  end.

Lemma run_bind {S A B} h (m : prog A) (f : A -> prog B) (s : S) :
  run h (m ≫= f) s = ('(a, s') ← run h m s; run h (f a) s').
Proof.
  revert s. induction m as [a|st|X e k IH]; intros s.
  - done.
  - by destruct st.
  - simpl. destruct (h X e s) as [[x s']| | | |]; [apply IH|done..].
Qed.

(** * The cache as it is implemented *)

Section concrete.
Context {D : Type} `{!BlockDevice D}.
Variable pid : Z.

Definition is_buf (b : bufid) (x : buf) : bool :=
  (b_dev x =? bi_dev b) && (blockno x =? bi_no b).

(** The table entry a buffer name stands for. *)
Definition find_buf (f : nat -> buf) (b : bufid) : option nat :=
  list_find (fun i => is_buf b (f i)) (seq 0 NBUFn) ≫= fun r => Some r.2.

Definition with_buf {A} (b : bufid) (m : nat -> CM D A) : CM D A := fun s =>
  match find_buf (bufs s) b with
  | Some i => m i s
  | None => Unspec
  end.

Definition cache_handler (X : Type) (e : bioE X) : CM D X :=
  match e in bioE X return CM D X with
  | Bread dev no => bread pid dev no;; mret (BufId dev no)
  | GetData b => with_buf b (fun i => x ← get_buf i; mret (data x))
  | SetData b d => with_buf b (fun i => mod_buf i (set_data d))
  | Bwrite b => with_buf b (bwrite pid)
  | Brelse b => with_buf b (brelse pid)
  | Bpin b => with_buf b bpin
  | Bunpin b => with_buf b bunpin
  end.

End concrete.

(** * The cache as its clients see it *)

(** [a_view no] is what the buffer of block [no] holds or would hold once
    read; [a_refs] counts the references to the blocks that have some;
    [a_held] are the locked ones. *)
Record abio := ABio {
  a_view : Z -> bytes;
  a_disk : Z -> bytes;
  a_refs : gmap Z nat;
  a_held : gset Z;
  a_hist : list (Z * bytes);
}.

(** The contract: one device, block numbers the driver can address. *)
Definition blk_ok (dev no : Z) : bool := (dev =? ROOTDEV) && (0 <=? no) && (no <? 2 ^ 31).

Definition a_set_refs (r : gmap Z nat) (h : gset Z) (s : abio) : abio :=
  ABio (a_view s) (a_disk s) r h (a_hist s).

Definition abs_bread (dev no : Z) (s : abio) : outcome (bufid * abio) :=
  if negb (blk_ok dev no) then Unspec
  else if decide (no ∈ a_held s) then Asleep
  else match a_refs s !! no with
       | Some r =>
           if decide (Z.of_nat r < 2 ^ 31)
           then Done (BufId dev no, a_set_refs (<[no := S r]> (a_refs s)) ({[no]} ∪ a_held s) s)
           else Unspec
       | None =>
           if decide (size (a_refs s) < NBUFn)%nat
           then Done (BufId dev no, a_set_refs (<[no := 1%nat]> (a_refs s)) ({[no]} ∪ a_held s) s)
           else Panicked "bget: no buffers"
       end.

(** Clients only use the buffers they hold. *)
Definition abs_held {A} (b : bufid) (s : abio) (m : outcome A) : outcome A :=
  if blk_ok (bi_dev b) (bi_no b) && bool_decide (bi_no b ∈ a_held s) then m else Unspec.

(** Dropping the last reference to a block whose buffer differs from the disk
    loses the change at an unknown time: outside the contract. *)
Definition abs_brelse (b : bufid) (s : abio) : outcome (unit * abio) :=
  let no := bi_no b in
  match a_refs s !! no with
  | Some (S (S r)) =>
      Done (tt, a_set_refs (<[no := S r]> (a_refs s)) (a_held s ∖ {[no]}) s)
  | Some (S O) =>
      if decide (a_view s no = a_disk s no)
      then Done (tt, a_set_refs (delete no (a_refs s)) (a_held s ∖ {[no]}) s)
      else Unspec
  | _ => Unspec
  end.

Definition spec_handler (X : Type) (e : bioE X) (s : abio) : outcome (X * abio) :=
  match e in bioE X return outcome (X * abio) with
  | Bread dev no => abs_bread dev no s
  | GetData b => abs_held b s (Done (a_view s (bi_no b), s))
  | SetData b d =>
      if decide (Z.of_nat (length d) = BSIZE) then
        abs_held b s (Done (tt, ABio (<[bi_no b := d]> (a_view s)) (a_disk s) (a_refs s)
                                     (a_held s) (a_hist s)))
      else Unspec
  | Bwrite b =>
      abs_held b s (Done (tt, ABio (a_view s) (<[bi_no b := a_view s (bi_no b)]> (a_disk s))
                                   (a_refs s) (a_held s)
                                   (a_hist s ++ [(bi_no b, a_view s (bi_no b))])))
  | Brelse b => abs_held b s (abs_brelse b s)
  | Bpin b =>
      match a_refs s !! bi_no b with
      | Some r => if decide (Z.of_nat r < 2 ^ 31) then
                    abs_held b s (Done (tt, a_set_refs (<[bi_no b := S r]> (a_refs s)) (a_held s) s))
                  else Unspec
      | None => Unspec
      end
  | Bunpin b =>
      match a_refs s !! bi_no b with
      | Some (S (S r)) =>
          abs_held b s (Done (tt, a_set_refs (<[bi_no b := S r]> (a_refs s)) (a_held s) s))
      | _ => Unspec
      end
  end.

(** * The cache implements its specification *)

Section refinement.
Context {D : Type} `{!BlockDevice D}.
Variable pid : Z.

Definition abio_wf (a : abio) : Prop :=
  (forall no, a_refs a !! no = None -> a_view a no = a_disk a no) /\
  (forall no r, a_refs a !! no = Some r -> (0 < r)%nat /\ Z.of_nat r <= 2 ^ 31) /\
  (forall no, no ∈ a_held a -> is_Some (a_refs a !! no)) /\
  (forall no, Z.of_nat (length (a_view a no)) = BSIZE).

Definition lock_of (a : abio) (no : Z) (l : sleeplock) : Prop :=
  locked l = bool_decide (no ∈ a_held a) /\ (locked l = true -> lk_pid l = pid).

(** What a buffer of block [no] of the file system's device looks like. *)
Record buf_of (a : abio) (no : Z) (x : buf) : Prop := {
  bo_dev : b_dev x = ROOTDEV;
  bo_no : blockno x = no;
  bo_ok : 0 <= no < 2 ^ 31;
  bo_valid : valid x = true;
  bo_ref : refcnt x = Z.of_nat (default O (a_refs a !! no));
  bo_lock : lock_of a no (b_lock x);
  bo_data : data x = a_view a no;
}.

(** A buffer that was never used. *)
Definition buf_unused (x : buf) : Prop :=
  b_dev x <> ROOTDEV /\ refcnt x = 0 /\ locked (b_lock x) = false.

Record cache_rel (a : abio) (c : bcache D) : Prop := {
  cr_wf : abio_wf a;
  cr_lru : exists l, lru_list (bufs c) l;
  cr_buf : forall i, (i < NBUFn)%nat -> buf_unused (bufs c i) \/ buf_of a (blockno (bufs c i)) (bufs c i);
  cr_uniq : forall i j, (i < NBUFn)%nat -> (j < NBUFn)%nat ->
    b_dev (bufs c i) = ROOTDEV -> b_dev (bufs c j) = ROOTDEV ->
    blockno (bufs c i) = blockno (bufs c j) -> i = j;
  cr_cached : forall no r, a_refs a !! no = Some r ->
    exists i, (i < NBUFn)%nat /\ b_dev (bufs c i) = ROOTDEV /\ blockno (bufs c i) = no;
  cr_disk : forall no, 0 <= no < 2 ^ 31 -> dev_read (disk c) (sector no) = a_disk a no;
  cr_hist : hist c = a_hist a;
}.

Lemma cr_buf_dev a c i :
  cache_rel a c -> (i < NBUFn)%nat -> b_dev (bufs c i) = ROOTDEV ->
  buf_of a (blockno (bufs c i)) (bufs c i).
Proof. intros R Hi Hd. destruct (cr_buf _ _ R i Hi) as [[? _]|]; done. Qed.

(** The fields of a buffer other than its links. *)
Definition core (b : buf) := (valid b, b_dev b, blockno b, b_lock b, refcnt b, data b).

Lemma buf_of_core a no x y : core x = core y -> buf_of a no x -> buf_of a no y.
Proof. intros [=] []. split; congruence. Qed.

Lemma buf_unused_core x y : core x = core y -> buf_unused x -> buf_unused y.
Proof. intros [=]. unfold buf_unused. intros (?&?&?). repeat split; congruence. Qed.

(** What is known of another block is kept by a change to [no]. *)
Definition same_but (no : Z) (a a' : abio) : Prop :=
  forall n, n <> no ->
    a_refs a' !! n = a_refs a !! n /\ a_view a' n = a_view a n /\ (n ∈ a_held a' <-> n ∈ a_held a).

Lemma buf_of_same no a a' n x : same_but no a a' -> n <> no -> buf_of a n x -> buf_of a' n x.
Proof.
  intros Hs Hn [? ? ? ? ? Hl ?]. destruct (Hs n Hn) as (Hr & Hv & Hh).
  split; try done; [by rewrite Hr| |by rewrite Hv].
  destruct Hl as [Hl ?]. split; [|done]. rewrite Hl. by apply bool_decide_ext.
Qed.

(** One buffer changes, and with it the state of the block it now holds. *)
Lemma cache_rel_upd a c a' c' i no :
  cache_rel a c -> (i < NBUFn)%nat ->
  (exists l, lru_list (bufs c') l) ->
  (forall j, (j < NBUFn)%nat -> j <> i -> core (bufs c' j) = core (bufs c j)) ->
  disk c' = disk c -> a_disk a' = a_disk a -> hist c' = hist c -> a_hist a' = a_hist a ->
  same_but no a a' -> abio_wf a' -> buf_of a' no (bufs c' i) ->
  (forall j, (j < NBUFn)%nat -> j <> i -> b_dev (bufs c j) = ROOTDEV -> blockno (bufs c j) <> no) ->
  (b_dev (bufs c i) = ROOTDEV -> blockno (bufs c i) <> no ->
     a_refs a !! blockno (bufs c i) = None) ->
  cache_rel a' c'.
Proof.
  intros R Hi Hl Hc Hd Hd' Hh Hh' Hs Hwf Hb Hno Hold.
  assert (Hcore : forall j, (j < NBUFn)%nat -> j <> i ->
    b_dev (bufs c' j) = b_dev (bufs c j) /\ blockno (bufs c' j) = blockno (bufs c j)).
  { intros j Hj Hji. specialize (Hc j Hj Hji). by injection Hc. }
  split; try done.
  - intros j Hj. destruct (decide (j = i)) as [->|Hji].
    { right. by rewrite (bo_no _ _ _ Hb). }
    destruct (Hcore j Hj Hji) as [Hdev Hbno]. specialize (Hc j Hj Hji).
    destruct (cr_buf _ _ R j Hj) as [Hu|Hu].
    + left. by eapply buf_unused_core.
    + right. eapply buf_of_core; [done|]. rewrite Hbno.
      eapply buf_of_same; [done| |done]. apply Hno; [done..|apply Hu].
  - intros j k Hj Hk Hdj Hdk E.
    destruct (decide (j = i)) as [->|Hji], (decide (k = i)) as [->|Hki]; [done|..].
    + destruct (Hcore k Hk Hki) as [E1 E2].
      rewrite (bo_no _ _ _ Hb), E2 in E. rewrite E1 in Hdk. by destruct (Hno k Hk Hki Hdk).
    + destruct (Hcore j Hj Hji) as [E1 E2].
      rewrite (bo_no _ _ _ Hb), E2 in E. rewrite E1 in Hdj. by destruct (Hno j Hj Hji Hdj).
    + destruct (Hcore j Hj Hji) as [E1 E2], (Hcore k Hk Hki) as [E3 E4].
      rewrite E1 in Hdj. rewrite E3 in Hdk. rewrite E2, E4 in E. by apply (cr_uniq _ _ R).
  - intros n r Hr. destruct (decide (n = no)) as [->|Hn].
    { exists i. split; [done|]. split; apply Hb. }
    destruct (Hs n Hn) as (E & _). rewrite E in Hr.
    destruct (cr_cached _ _ R n r Hr) as (j & Hj & Hdj & Hnj).
    assert (Hji : j <> i).
    { intros ->. rewrite Hnj in Hold. rewrite Hold in Hr; done. }
    destruct (Hcore j Hj Hji) as [E1 E2]. exists j. rewrite E1, E2. done.
  - intros n Hn. rewrite Hd, Hd'. by apply R.
  - rewrite Hh, Hh'. apply R.
Qed.

Lemma find_buf_spec a c no :
  cache_rel a c -> is_Some (a_refs a !! no) ->
  exists i, find_buf (bufs c) (BufId ROOTDEV no) = Some i /\ (i < NBUFn)%nat /\
    buf_of a no (bufs c i) /\
    (forall j, (j < NBUFn)%nat -> j <> i -> b_dev (bufs c j) = ROOTDEV -> blockno (bufs c j) <> no).
Proof.
  intros R [r Hr]. destruct (cr_cached _ _ R no r Hr) as (i & Hi & Hd & Hn).
  assert (Huniq : forall j, (j < NBUFn)%nat -> j <> i -> b_dev (bufs c j) = ROOTDEV -> blockno (bufs c j) <> no).
  { intros j Hj Hji Hdj E. apply Hji. apply (cr_uniq _ _ R); congruence. }
  exists i. split; [|split; [done|split; [|done]]].
  2: { rewrite <- Hn at 1. by apply cr_buf_dev. }
  unfold find_buf.
  destruct (list_find_none_or (fun j => is_buf (BufId ROOTDEV no) (bufs c j)) (seq 0 NBUFn))
    as [(j & Hj & Hp & ->)|[Hnone _]].
  - apply elem_of_seq in Hj. unfold is_buf in Hp. simpl in Hp. bool2prop.
    destruct (decide (j = i)) as [->|Hji]; [done|]. by destruct (Huniq j ltac:(lia) Hji).
  - specialize (Hnone i). rewrite elem_of_seq in Hnone. specialize (Hnone ltac:(lia)).
    unfold is_buf in Hnone. simpl in Hnone. rewrite Hd, Hn, !Z.eqb_refl in Hnone. done.
Qed.

(** The blocks with references are exactly those of the busy buffers. *)
Lemma refs_busy a c :
  cache_rel a c -> size (a_refs a) = length (filter (fun i => refcnt (bufs c i) <> 0) (seq 0 NBUFn)).
Proof.
  intros R. rewrite <- size_dom.
  set (l := filter _ _).
  assert (E : dom (a_refs a) = list_to_set ((fun i => blockno (bufs c i)) <$> l)).
  { apply set_eq. intros no. rewrite elem_of_dom, elem_of_list_to_set, list_elem_of_fmap. split.
    - intros [r Hr]. destruct (cr_cached _ _ R no r Hr) as (i & Hi & Hd & Hn).
      exists i. split; [done|]. unfold l. rewrite list_elem_of_filter, elem_of_seq. split; [|lia].
      rewrite (bo_ref _ _ _ (cr_buf_dev _ _ _ R Hi Hd)), Hn, Hr. simpl.
      destruct R as [(_&Hwf&_) _ _ _ _ _ _]. specialize (Hwf no r Hr). lia.
    - intros (i & -> & Hi). unfold l in Hi. rewrite list_elem_of_filter, elem_of_seq in Hi.
      destruct Hi as [Hr Hi]. destruct (cr_buf _ _ R i ltac:(lia)) as [(_&?&_)|Hb]; [done|].
      rewrite (bo_ref _ _ _ Hb) in Hr. destruct (a_refs a !! _); [done|]. simpl in Hr. lia. }
  rewrite E, size_list_to_set; [apply length_fmap|].
  apply NoDup_fmap_2_strong; [|apply NoDup_filter, NoDup_seq].
  intros i j Hi Hj E'. unfold l in *. rewrite list_elem_of_filter, elem_of_seq in *.
  destruct Hi as [Hi Hi'], Hj as [Hj Hj'].
  destruct (cr_buf _ _ R i ltac:(lia)) as [(_&?&_)|Hb]; [done|].
  destruct (cr_buf _ _ R j ltac:(lia)) as [(_&?&_)|Hb']; [done|].
  apply (cr_uniq _ _ R); [lia|lia|apply Hb|apply Hb'|done].
Qed.

Lemma free_buffer a c :
  cache_rel a c ->
  (size (a_refs a) < NBUFn)%nat <-> exists i, (i < NBUFn)%nat /\ refcnt (bufs c i) = 0.
Proof.
  intros R. rewrite (refs_busy a c R). split.
  - intros Hs. destruct (decide (Exists (fun i => refcnt (bufs c i) = 0) (seq 0 NBUFn))) as [He|Hn].
    + apply Exists_exists in He as (i & Hi & ?). apply elem_of_seq in Hi. exists i. split; [lia|done].
    + exfalso. apply not_Exists_Forall in Hn; [|intros i; apply _].
      rewrite filter_all in Hs; [rewrite length_seq in Hs; lia|].
      eapply Forall_impl; [done|]. by intros.
  - intros (i & Hi & Hr).
    assert (Hlt : (length (filter (fun i => refcnt (bufs c i) <> 0)%Z (seq 0 NBUFn)) < length (seq 0 NBUFn))%nat).
    { apply length_filter_lt with i; [apply elem_of_seq; lia|by intros ?]. }
    by rewrite length_seq in Hlt.
Qed.

(** An outcome of the specification, and what the implementation then does. *)
Definition outcome_rel {X} (o : outcome (X * abio)) (o' : outcome (X * bcache D)) : Prop :=
  match o with
  | Done (x, a') => exists c', o' = Done (x, c') /\ cache_rel a' c'
  | Panicked msg => o' = Panicked msg
  | Asleep => o' = Asleep
  | OutOfFuel => o' = OutOfFuel
  | Unspec => True
  end.

Lemma blk_ok_spec dev no : blk_ok dev no = true -> dev = ROOTDEV /\ 0 <= no < 2 ^ 31.
Proof. unfold blk_ok. intros. bool2prop. lia. Qed.

Lemma lru_upd_ex (f : nat -> buf) i g :
  keeps_links g -> (exists l, lru_list f l) -> exists l, lru_list (upd f i g) l.
Proof. intros Hg [l Hl]. exists l. by apply lru_upd. Qed.

Lemma abio_wf_set a refs held no :
  abio_wf a ->
  (forall n, n <> no -> refs !! n = a_refs a !! n) ->
  (forall n, n <> no -> n ∈ held <-> n ∈ a_held a) ->
  (forall r, refs !! no = Some r -> (0 < r)%nat /\ Z.of_nat r <= 2 ^ 31) ->
  (no ∈ held -> is_Some (refs !! no)) ->
  (refs !! no = None -> a_view a no = a_disk a no) ->
  abio_wf (a_set_refs refs held a).
Proof.
  intros (W1 & W2 & W3 & W4) Hr Hh H1 H2 H3. split; [|split; [|split; [|done]]]; simpl.
  - intros n. destruct (decide (n = no)) as [->|Hn]; [done|]. rewrite Hr by done. apply W1.
  - intros n r. destruct (decide (n = no)) as [->|Hn]; [apply H1|]. rewrite Hr by done. apply W2.
  - intros n. destruct (decide (n = no)) as [->|Hn]; [done|]. rewrite Hr, Hh by done. apply W3.
Qed.

Lemma same_but_set a refs held no :
  (forall n, n <> no -> refs !! n = a_refs a !! n) ->
  (forall n, n <> no -> n ∈ held <-> n ∈ a_held a) ->
  same_but no a (a_set_refs refs held a).
Proof. intros Hr Hh n Hn. simpl. rewrite Hr, Hh by done. done. Qed.

(** A table that differs from another in one buffer, not in its links. *)
Definition one_changed (f f' : nat -> buf) (i : nat) : Prop :=
  (forall j, j <> i -> f' j = f j) /\
  b_next (f' i) = b_next (f i) /\ b_prev (f' i) = b_prev (f i).

Lemma one_changed_refl f i : one_changed f f i.
Proof. done. Qed.

Lemma one_changed_upd f f' i g :
  one_changed f f' i -> keeps_links g -> one_changed f (upd f' i g) i.
Proof.
  intros (Hf & Hn & Hp) Hg. split.
  - intros j Hj. rewrite upd_ne by done. by apply Hf.
  - rewrite upd_eq. destruct (Hg (f' i)) as [-> ->]. done.
Qed.

Lemma one_changed_lru f f' i :
  one_changed f f' i -> (exists l, lru_list f l) -> exists l, lru_list f' l.
Proof.
  intros (Hf & Hn & Hp) (l & Hs & Hl). exists l. split; [|done].
  eapply seg_ext, Hs; intros j _; (destruct (decide (j = i)) as [->|]; [done|by rewrite Hf]).
Qed.

(** A change to one buffer's reference count and lock. *)
Lemma cache_rel_set a c i no refs held f' :
  cache_rel a c -> (i < NBUFn)%nat -> buf_of a no (bufs c i) ->
  (forall j, (j < NBUFn)%nat -> j <> i -> b_dev (bufs c j) = ROOTDEV -> blockno (bufs c j) <> no) ->
  one_changed (bufs c) f' i ->
  (forall n, n <> no -> refs !! n = a_refs a !! n) ->
  (forall n, n <> no -> n ∈ held <-> n ∈ a_held a) ->
  abio_wf (a_set_refs refs held a) ->
  buf_of (a_set_refs refs held a) no (f' i) ->
  cache_rel (a_set_refs refs held a) (BCache f' (disk c) (hist c)).
Proof.
  intros R Hi Hb Hu Hf Hr Hh Hwf Hb'.
  eapply (cache_rel_upd a c _ _ i no); try done; simpl.
  - by eapply one_changed_lru, (cr_lru _ _ R).
  - intros j _ Hji. destruct Hf as [Hf _]. by rewrite Hf.
  - by apply same_but_set.
  - intros _ E. by destruct E; apply Hb.
Qed.

Ltac links := intros ?; done.

#[local] Arguments find_next : simpl never.
#[local] Arguments find_prev : simpl never.

(** [bread] of a block that has a buffer. *)
Lemma bread_hit a c i no r :
  cache_rel a c -> (i < NBUFn)%nat -> buf_of a no (bufs c i) ->
  (forall j, (j < NBUFn)%nat -> j <> i -> b_dev (bufs c j) = ROOTDEV -> blockno (bufs c j) <> no) ->
  r = default O (a_refs a !! no) -> (no ∉ a_held a -> Z.of_nat r < 2 ^ 31) ->
  outcome_rel
    (if decide (no ∈ a_held a) then Asleep
     else Done (i, a_set_refs (<[no := S r]> (a_refs a)) ({[no]} ∪ a_held a) a))
    (bread pid ROOTDEV no c).
Proof.
  intros R Hi Hb Hu Hr Hr'. destruct (cr_lru _ _ R) as [l Hl].
  assert (Hfind : find_next (S NBUFn) (bufs c)
     (fun b => (b_dev b =? ROOTDEV) && (blockno b =? no)) (b_next (bufs c HEAD)) = Done (Some i)).
  { rewrite (lru_find_next _ l) by done. f_equal.
    destruct (list_find_none_or (fun j => (b_dev (bufs c j) =? ROOTDEV) && (blockno (bufs c j) =? no)) l)
      as [(j & Hj & Hp & ->)|[Hnone _]].
    - bool2prop. rewrite (lru_elem _ _ _ Hl) in Hj.
      destruct (decide (j = i)) as [->|Hji]; [done|]. by destruct (Hu j Hj Hji).
    - specialize (Hnone i). rewrite (lru_elem _ _ _ Hl) in Hnone. specialize (Hnone Hi).
      by rewrite (bo_dev _ _ _ Hb), (bo_no _ _ _ Hb), !Z.eqb_refl in Hnone. }
  unfold bread, bget, lift, mbind, CM_bind, acquiresleep, get_buf, mod_buf, mbind, CM_bind.
  rewrite Hfind. simpl. rewrite !upd_eq. simpl.
  destruct (bo_lock _ _ _ Hb) as [Hlk _]. rewrite Hlk. unfold csleep.
  destruct (decide (no ∈ a_held a)) as [Hh|Hh]; [by rewrite bool_decide_true|].
  specialize (Hr' Hh). rewrite bool_decide_false by done. simpl. rewrite !upd_eq. simpl. rewrite (bo_valid _ _ _ Hb).
  eexists. split; [done|].
  eapply cache_rel_set; try done.
  - apply one_changed_upd; [|links]. apply one_changed_upd; [|links]. apply one_changed_refl.
  - intros n Hn. by rewrite lookup_insert_ne.
  - set_solver.
  - eapply abio_wf_set; [apply R|intros; by rewrite lookup_insert_ne|set_solver|..];
      rewrite lookup_insert_eq; [intros ? [=<-]; lia|done|done].
  - rewrite !upd_eq. split; simpl; try apply Hb.
    + rewrite lookup_insert_eq. simpl. rewrite (bo_ref _ _ _ Hb), <- Hr, u32_small by lia. lia.
    + split; [|done]. simpl. rewrite bool_decide_true by set_solver. done.
Qed.

(** [bread] of a block that has none: the least recently used free buffer is
    recycled and read from the disk. *)
Lemma bread_miss a c no :
  cache_rel a c -> 0 <= no < 2 ^ 31 -> a_refs a !! no = None ->
  (forall j, (j < NBUFn)%nat -> b_dev (bufs c j) = ROOTDEV -> blockno (bufs c j) <> no) ->
  match bread pid ROOTDEV no c with
  | Done (_, c') => (size (a_refs a) < NBUFn)%nat /\
      cache_rel (a_set_refs (<[no := 1%nat]> (a_refs a)) ({[no]} ∪ a_held a) a) c'
  | Panicked msg => ~ (size (a_refs a) < NBUFn)%nat /\ msg = "bget: no buffers"
  | _ => False
  end.
Proof.
  intros R Hno Hr Hu. destruct (cr_lru _ _ R) as [l Hl].
  assert (Hfind : find_next (S NBUFn) (bufs c)
     (fun b => (b_dev b =? ROOTDEV) && (blockno b =? no)) (b_next (bufs c HEAD)) = Done None).
  { rewrite (lru_find_next _ l) by done. f_equal.
    destruct (list_find_none_or (fun j => (b_dev (bufs c j) =? ROOTDEV) && (blockno (bufs c j) =? no)) l)
      as [(j & Hj & Hp & _)|[_ ->]]; [|done].
    bool2prop. rewrite (lru_elem _ _ _ Hl) in Hj. by destruct (Hu j Hj). }
  unfold bread, bget, lift, mbind, CM_bind. rewrite Hfind. simpl.
  rewrite (lru_find_prev _ l) by done. simpl.
  destruct (list_find_none_or (fun j => refcnt (bufs c j) =? 0) (reverse l))
    as [(i & Hi & Hp & ->)|[Hnone ->]].
  2: { simpl. split; [|done]. rewrite (free_buffer a c R). intros (i & Hi & Hri).
       specialize (Hnone i). rewrite elem_of_reverse, (lru_elem _ _ _ Hl) in Hnone.
       specialize (Hnone Hi). bool2prop. done. }
  rewrite elem_of_reverse, (lru_elem _ _ _ Hl) in Hi. bool2prop.
  assert (Hlk : locked (b_lock (bufs c i)) = false).
  { destruct (cr_buf _ _ R i Hi) as [(_&_&?)|Hb]; [done|].
    destruct (bo_lock _ _ _ Hb) as [-> _]. apply bool_decide_false. intros Hh.
    destruct R as [(_&Hw2&Hw&_) _ _ _ _ _ _]. destruct (Hw _ Hh) as [r Hr'].
    specialize (Hw2 _ _ Hr'). rewrite (bo_ref _ _ _ Hb), Hr' in Hp. simpl in Hp. lia. }
  unfold acquiresleep, get_buf, mod_buf, virtio_disk_rw, mod_buf, mbind, CM_bind.
  simpl. rewrite !upd_eq. simpl. rewrite Hlk. simpl. rewrite !upd_eq. simpl. rewrite ?upd_eq. simpl.
  split; [apply (free_buffer a c R); eauto|].
  eapply (cache_rel_upd a c _ _ i no); try done; simpl.
  - eapply one_changed_lru, (cr_lru _ _ R).
    do 6 (apply one_changed_upd; [|links]). apply one_changed_refl.
  - intros j _ Hji. by rewrite !upd_ne.
  - apply same_but_set; [intros; by rewrite lookup_insert_ne|set_solver].
  - eapply abio_wf_set; [apply R|intros; by rewrite lookup_insert_ne|set_solver|..];
      rewrite lookup_insert_eq; [intros ? [=<-]; lia|done|done].
  - rewrite !upd_eq. split; simpl; try done.
    + by rewrite lookup_insert_eq.
    + split; [|done]. simpl. by rewrite bool_decide_true by set_solver.
    + rewrite (cr_disk _ _ R) by done. symmetry. by apply (cr_wf _ _ R).
  - intros j Hj Hji. by apply Hu.
  - intros Hd Hn. rewrite (bo_ref _ _ _ (cr_buf_dev _ _ _ R Hi Hd)) in Hp.
    apply eq_None_not_Some. intros [r E]. rewrite E in Hp. simpl in Hp.
    destruct R as [(_&Hw2&_) _ _ _ _ _ _]. specialize (Hw2 _ _ E). lia.
Qed.

Lemma outcome_rel_bread a c dev no :
  cache_rel a c -> outcome_rel (abs_bread dev no a) (cache_handler pid _ (Bread dev no) c).
Proof.
  intros R. unfold abs_bread. destruct (blk_ok dev no) eqn:Hok; simpl; [|done].
  apply blk_ok_spec in Hok as [-> Hno].
  assert (Hc : forall o, outcome_rel o (bread pid ROOTDEV no c) ->
    outcome_rel ('(_, a') ← o; Done (BufId ROOTDEV no, a')) (cache_handler pid _ (Bread ROOTDEV no) c)).
  { intros o. simpl. unfold mbind, CM_bind, outcome_bind.
    destruct o as [[x a']| | | |]; simpl; [intros (c' & -> & ?); by eexists|by intros ->..|done]. }
  destruct (a_refs a !! no) as [r|] eqn:Hr.
  - destruct (find_buf_spec a c no R) as (i & _ & Hi & Hb & Hu); [by rewrite Hr|].
    assert (Hr0 : r = default O (a_refs a !! no)) by (by rewrite Hr).
    pose proof (bread_hit a c i no r R Hi Hb Hu Hr0) as H.
    destruct (decide (no ∈ a_held a)); [by apply (Hc Asleep), H|].
    case_decide; [|done]. by refine (Hc (Done (i, _)) (H _)).
  - assert (Hnh : no ∉ a_held a).
    { intros Hh. destruct R as [(_&_&Hw&_) _ _ _ _ _ _]. destruct (Hw _ Hh). congruence. }
    rewrite decide_False by done.
    destruct (decide (Exists (fun i => b_dev (bufs c i) = ROOTDEV /\ blockno (bufs c i) = no)
                             (seq 0 NBUFn))) as [He|Hno'].
    + apply Exists_exists in He as (i & Hi & Hd & Hn). apply elem_of_seq in Hi as [_ Hi].
      simpl in Hi.
      assert (Hb : buf_of a no (bufs c i)) by (rewrite <- Hn at 1; by apply cr_buf_dev).
      rewrite decide_True.
      2: { apply (free_buffer a c R). exists i. split; [done|]. by rewrite (bo_ref _ _ _ Hb), Hr. }
      refine (Hc _ (_ : outcome_rel (Done (i, _)) _)).
      pose proof (bread_hit a c i no 0 R Hi Hb) as H. rewrite decide_False in H by done.
      apply H; [|by rewrite Hr|lia].
      intros j Hj Hji Hdj E. apply Hji. apply (cr_uniq _ _ R); congruence.
    + pose proof (bread_miss a c no R Hno Hr) as H.
      rewrite Exists_exists in Hno'.
      specialize (H ltac:(intros j Hj Hd E; apply Hno'; exists j; rewrite elem_of_seq; auto with lia)).
      simpl. unfold mbind, CM_bind.
      destruct (bread pid ROOTDEV no c) as [[i c']|msg| | |];
        destruct H as [Hs H] || destruct H; try naive_solver.
      all: rewrite ?decide_True, ?decide_False by done; naive_solver.
Qed.

(** The buffer behind a name the client holds. *)
Lemma held_buf a c b {X} (o : outcome (X * abio)) (m : nat -> CM D X) :
  cache_rel a c ->
  (forall i, b = BufId ROOTDEV (bi_no b) -> bi_no b ∈ a_held a -> 0 <= bi_no b < 2 ^ 31 ->
     (i < NBUFn)%nat -> buf_of a (bi_no b) (bufs c i) ->
     (forall j, (j < NBUFn)%nat -> j <> i -> b_dev (bufs c j) = ROOTDEV ->
        blockno (bufs c j) <> bi_no b) ->
     outcome_rel o (m i c)) ->
  outcome_rel (abs_held b a o) (with_buf b m c).
Proof.
  intros R H. unfold abs_held. destruct (_ && _) eqn:E; [|done].
  apply andb_true_iff in E as [Hok Hh]. apply blk_ok_spec in Hok as [Hd Hno].
  apply bool_decide_eq_true in Hh.
  assert (Hb : b = BufId ROOTDEV (bi_no b)) by (destruct b; simpl in *; by subst).
  destruct (find_buf_spec a c (bi_no b) R) as (i & Hf & Hi & Hbo & Hu).
  { destruct R as [(_&_&Hw&_) _ _ _ _ _ _]. by apply Hw. }
  unfold with_buf. rewrite Hb at 1. rewrite Hf. by apply H.
Qed.

Lemma holdingsleep_held a (c : bcache D) i no :
  buf_of a no (bufs c i) -> no ∈ a_held a -> holdingsleep pid i c = Done (true, c).
Proof.
  intros Hb Hh. unfold holdingsleep, get_buf, mbind, CM_bind.
  destruct (bo_lock _ _ _ Hb) as [Hl Hp]. rewrite bool_decide_true in Hl by done.
  rewrite Hl, (Hp Hl), Z.eqb_refl. done.
Qed.

Lemma outcome_rel_set a c b d :
  cache_rel a c ->
  outcome_rel (spec_handler _ (SetData b d) a) (cache_handler pid _ (SetData b d) c).
Proof.
  intros R. simpl. case_decide as Hlen; [|done].
  apply held_buf; [done|]. intros i Hb Hh Hno Hi Hbo Hu. eexists. split; [done|].
  assert (Hsame : same_but (bi_no b) a
    (ABio (<[bi_no b := d]> (a_view a)) (a_disk a) (a_refs a) (a_held a) (a_hist a))).
  { intros n Hn. simpl. by rewrite fn_lookup_insert_ne. }
  eapply (cache_rel_upd a c _ _ i (bi_no b)); try done; simpl.
  - apply lru_upd_ex; [links|apply R].
  - intros j _ Hj. by rewrite upd_ne.
  - destruct R as [(W1 & W2 & W3 & W4) _ _ _ _ _ _]. split; [|split; [done|split; [done|]]]; simpl.
    + intros n Hn. rewrite fn_lookup_insert_ne; [by apply W1|].
      intros <-. destruct (W3 _ Hh). congruence.
    + intros n. destruct (decide (n = bi_no b)) as [->|];
        [by rewrite fn_lookup_insert|by rewrite fn_lookup_insert_ne].
  - rewrite upd_eq. split; simpl; try apply Hbo. by rewrite fn_lookup_insert.
  - intros _ E. destruct E. apply Hbo.
Qed.

Lemma sector_small no : 0 <= no < 2 ^ 31 -> sector no = 2 * no.
Proof. intros. unfold sector. rewrite u32_small; change (BSIZE / 512) with 2; lia. Qed.

Lemma outcome_rel_bwrite a c b :
  cache_rel a c ->
  outcome_rel (spec_handler _ (Bwrite b) a) (cache_handler pid _ (Bwrite b) c).
Proof.
  intros R. simpl. apply held_buf; [done|]. intros i Hb Hh Hno Hi Hbo Hu.
  unfold bwrite, mbind, CM_bind. rewrite (holdingsleep_held a c i (bi_no b)) by done. simpl.
  eexists. split; [done|]. rewrite (bo_no _ _ _ Hbo), (bo_data _ _ _ Hbo).
  destruct R as [(W1 & W2 & W3 & W4) Hl Hbuf Huniq Hcached Hdisk Hhist]. split; simpl; try done.
  - split; [|done]. simpl. intros n Hn. rewrite fn_lookup_insert_ne; [by apply W1|].
    intros <-. destruct (W3 _ Hh). congruence.
  - intros j Hj. destruct (Hbuf j Hj) as [|[]]; [by left|right]. by split.
  - intros n Hn. destruct (decide (n = bi_no b)) as [->|Hne].
    + rewrite fn_lookup_insert. apply dev_read_write_eq, W4.
    + rewrite fn_lookup_insert_ne by done. rewrite dev_read_write_ne; [by apply Hdisk|].
      rewrite !sector_small by done. change (BSIZE / 512) with 2. lia.
  - by rewrite Hhist.
Qed.

Lemma outcome_rel_pin a c b :
  cache_rel a c ->
  outcome_rel (spec_handler _ (Bpin b) a) (cache_handler pid _ (Bpin b) c).
Proof.
  intros R. simpl. destruct (a_refs a !! bi_no b) as [r|] eqn:Hr; [|done].
  case_decide as Hr'; [|done]. apply held_buf; [done|]. intros i Hb Hh Hno Hi Hbo Hu.
  eexists. split; [done|]. eapply cache_rel_set; try done.
  - apply one_changed_upd; [apply one_changed_refl|links].
  - intros n Hn. by rewrite lookup_insert_ne.
  - eapply abio_wf_set; [apply R|intros; by rewrite lookup_insert_ne|done|..];
      rewrite lookup_insert_eq; [intros ? [=<-]; lia|done|done].
  - rewrite upd_eq. split; simpl; try apply Hbo.
    rewrite lookup_insert_eq, (bo_ref _ _ _ Hbo), Hr. simpl. rewrite u32_small; lia.
Qed.

Lemma outcome_rel_unpin a c b :
  cache_rel a c ->
  outcome_rel (spec_handler _ (Bunpin b) a) (cache_handler pid _ (Bunpin b) c).
Proof.
  intros R. simpl. destruct (a_refs a !! bi_no b) as [[|[|r]]|] eqn:Hr; try done.
  apply held_buf; [done|]. intros i Hb Hh Hno Hi Hbo Hu.
  assert (Hr' : Z.of_nat (S (S r)) <= 2 ^ 31) by (destruct R as [(_&W&_) _ _ _ _ _ _]; by eapply W).
  eexists. split; [done|]. eapply cache_rel_set; try done.
  - apply one_changed_upd; [apply one_changed_refl|links].
  - intros n Hn. by rewrite lookup_insert_ne.
  - eapply abio_wf_set; [apply R|intros; by rewrite lookup_insert_ne|done|..];
      rewrite lookup_insert_eq; [intros ? [=<-]; lia|done|done].
  - rewrite upd_eq. split; simpl; try apply Hbo.
    rewrite lookup_insert_eq, (bo_ref _ _ _ Hbo), Hr. simpl. rewrite u32_small; lia.
Qed.

Lemma core_upd f i g j : (forall x, core (g x) = core x) -> core (upd f i g j) = core (f j).
Proof.
  intros Hg. destruct (decide (i = j)) as [->|]; [by rewrite upd_eq|by rewrite upd_ne].
Qed.

Lemma core_move f b j : core (relink (unlink f b) b j) = core (f j).
Proof. unfold relink, unlink. rewrite !core_upd; done. Qed.

(** The table after [brelse]'s lock release and decrement. *)
Definition dropped (f : nat -> buf) (i : nat) : nat -> buf :=
  upd (upd f i (set_lock (SleepLock false 0))) i (fun x => set_ref (u32 (refcnt x - 1)) x).

Lemma brelse_run a (c : bcache D) i no :
  buf_of a no (bufs c i) -> no ∈ a_held a ->
  brelse pid i c =
    Done (tt, BCache (if refcnt (dropped (bufs c) i i) =? 0
                      then relink (unlink (dropped (bufs c) i) i) i
                      else dropped (bufs c) i) (disk c) (hist c)).
Proof.
  intros Hb Hh. unfold brelse, mbind, CM_bind.
  rewrite (holdingsleep_held a c i no) by done. unfold get_buf, releasesleep, mod_buf. simpl.
  fold (dropped (bufs c) i). by destruct (refcnt _ =? 0).
Qed.

Lemma dropped_buf_of a c i no r refs held :
  buf_of a no (bufs c i) -> a_refs a !! no = Some (S r) -> Z.of_nat (S r) <= 2 ^ 31 ->
  default O (refs !! no) = r -> no ∉ held ->
  buf_of (a_set_refs refs held a) no (dropped (bufs (c : bcache D)) i i).
Proof.
  intros Hb Hr Hr' Hd Hh. unfold dropped. rewrite !upd_eq.
  split; simpl; try apply Hb.
  - rewrite (bo_ref _ _ _ Hb), Hr, Hd. simpl. rewrite u32_small; lia.
  - split; [|done]. simpl. by rewrite bool_decide_false.
Qed.

Lemma outcome_rel_brelse a c b :
  cache_rel a c ->
  outcome_rel (spec_handler _ (Brelse b) a) (cache_handler pid _ (Brelse b) c).
Proof.
  intros R. simpl. apply held_buf; [done|]. intros i Hb Hh Hno Hi Hbo Hu.
  rewrite (brelse_run a c i (bi_no b)) by done. unfold abs_brelse.
  destruct (a_refs a !! bi_no b) as [[|r]|] eqn:Hr; [done| |done].
  assert (Hr' : Z.of_nat (S r) <= 2 ^ 31) by (destruct R as [(_&W&_) _ _ _ _ _ _]; by eapply W).
  assert (Hone : one_changed (bufs c) (dropped (bufs c) i) i).
  { unfold dropped. do 2 (apply one_changed_upd; [|links]). apply one_changed_refl. }
  assert (Hrc : refcnt (dropped (bufs c) i i) = Z.of_nat r).
  { unfold dropped. rewrite !upd_eq. simpl. rewrite (bo_ref _ _ _ Hbo), Hr. simpl.
    rewrite u32_small; lia. }
  rewrite Hrc. destruct r as [|r].
  - case_decide as Hclean; [|done]. simpl. eexists. split; [done|].
    eapply (cache_rel_upd a c _ _ i (bi_no b)); try done; simpl.
    + destruct (one_changed_lru _ _ _ Hone (cr_lru _ _ R)) as [l Hl].
      destruct (lru_move_front _ _ _ Hl Hi) as [l' Hl']. by eexists.
    + intros j _ Hj. rewrite core_move. destruct Hone as [Hone _]. by rewrite Hone.
    + apply same_but_set; [intros; by rewrite lookup_delete_ne|set_solver].
    + eapply abio_wf_set; [apply R|intros; by rewrite lookup_delete_ne|set_solver|..];
        rewrite lookup_delete_eq; [done|set_solver|done].
    + eapply buf_of_core; [symmetry; apply core_move|].
      eapply dropped_buf_of; [done..| |set_solver]. by rewrite lookup_delete_eq.
    + intros _ E. destruct E. apply Hbo.
  - rewrite (proj2 (Z.eqb_neq _ 0)) by lia. simpl. eexists. split; [done|].
    eapply cache_rel_set; try done.
    + intros n Hn. by rewrite lookup_insert_ne.
    + set_solver.
    + eapply abio_wf_set; [apply R|intros; by rewrite lookup_insert_ne|set_solver|..];
        rewrite lookup_insert_eq; [intros ? [=<-]; lia|done|done].
    + eapply dropped_buf_of; [done..| |set_solver]. by rewrite lookup_insert_eq.
Qed.

Lemma handler_refines X (e : bioE X) a c :
  cache_rel a c -> outcome_rel (spec_handler X e a) (cache_handler pid X e c).
Proof.
  intros R. destruct e.
  - by apply outcome_rel_bread.
  - simpl. apply held_buf; [done|]. intros i _ _ _ _ Hbo _. eexists. split; [|done].
    unfold get_buf, mbind, CM_bind. by rewrite (bo_data _ _ _ Hbo).
  - by apply outcome_rel_set.
  - by apply outcome_rel_bwrite.
  - by apply outcome_rel_brelse.
  - by apply outcome_rel_pin.
  - by apply outcome_rel_unpin.
Qed.

Lemma run_refines A (p : prog A) a c :
  cache_rel a c -> outcome_rel (run spec_handler p a) (run (cache_handler pid) p c).
Proof.
  revert a c. induction p as [x|st|X e k IH]; intros a c R; simpl.
  - by eexists.
  - by destruct st.
  - pose proof (handler_refines X e a c R) as H.
    destruct (spec_handler X e a) as [[x a']|msg| | |]; simpl in H.
    + destruct H as (c' & -> & R'). by apply IH.
    + by rewrite H.
    + by rewrite H.
    + by rewrite H.
    + done.
Qed.

(** ** The initial state *)

(** Static storage: every field zero. *)
Definition zero_buf : buf := Buf false 0 0 (SleepLock false 0) 0 0 0 [].

(** The cache before [binit] has run, the abstract cache of a disk. *)
Definition boot_bcache (d : D) : bcache D := BCache (fun _ => zero_buf) d [].
Definition boot_abio (v : Z -> bytes) : abio := ABio v v ∅ ∅ [].

(** The blocks of a disk, by block number. *)
Definition disk_view (d : D) (no : Z) : bytes := dev_read d (sector no).

(** One iteration of [binit]: the links are those of [relink]. *)
Definition binit_step (f : nat -> buf) (b : nat) : nat -> buf :=
  let f := upd f b (set_next (b_next (f HEAD))) in
  let f := upd f b (set_prev HEAD) in
  let f := upd f b (set_lock (SleepLock false 0)) in
  let f := upd f (b_next (f HEAD)) (set_prev b) in
  upd f HEAD (set_next b).

Lemma binit_step_links f b j :
  b <> HEAD ->
  b_next (binit_step f b j) = b_next (relink f b j) /\
  b_prev (binit_step f b j) = b_prev (relink f b j).
Proof.
  intros Hb. unfold binit_step, relink. rewrite !(upd_ne _ b HEAD) by done.
  generalize (b_next (f HEAD)) as n. intros n. unfold upd, insert, fn_insert.
  repeat case_decide; simplify_eq/=; done.
Qed.

Lemma upd_unused f i g j :
  (forall x, buf_unused x -> buf_unused (g x)) -> buf_unused (f j) -> buf_unused (upd f i g j).
Proof.
  intros Hg Hu. destruct (decide (i = j)) as [->|]; [rewrite upd_eq; auto|by rewrite upd_ne].
Qed.

Lemma binit_step_unused f b j :
  buf_unused (f j) -> buf_unused (binit_step f b j).
Proof.
  intros Hu. unfold binit_step.
  repeat (apply upd_unused; [intros x (?&?&?); by repeat split|]). done.
Qed.

Lemma binit_loop_spec n b (c : bcache D) l :
  seg (bufs c) HEAD l HEAD -> l ≡ₚ seq 0 b -> (b + n = NBUFn)%nat ->
  (forall i, buf_unused (bufs c i)) ->
  exists f l', binit_loop n b c = Done (tt, BCache f (disk c) (hist c)) /\
    lru_list f l' /\ (forall i, buf_unused (f i)).
Proof.
  revert b c l. induction n as [|n IH]; intros b c l Hs Hp Hn Hu; simpl.
  - exists (bufs c), l. destruct c. split; [done|]. split; [|done]. split; [done|].
    rewrite Hp. by replace b with NBUFn by lia.
  - unfold mbind, CM_bind, initsleeplock, get_buf, mod_buf. simpl.
    fold (binit_step (bufs c) b).
    assert (Hb : b <> HEAD) by (unfold HEAD; lia).
    eapply (IH (S b) (BCache (binit_step (bufs c) b) (disk c) (hist c)) (b :: l)).
    + eapply seg_ext, relink_seg; [intros; by apply binit_step_links..|done|].
      rewrite Hp. apply NoDup_cons. rewrite elem_of_app, elem_of_seq, list_elem_of_singleton.
      split; [lia|]. apply NoDup_app. split; [apply NoDup_seq|]. split; [|apply NoDup_singleton].
      intros x. rewrite elem_of_seq, list_elem_of_singleton. unfold HEAD. lia.
    + rewrite Hp, seq_S. by rewrite <- Permutation_cons_append.
    + lia.
    + intros i. apply binit_step_unused, Hu.
Qed.

#[local] Arguments binit_loop : simpl never.

Lemma boot_rel (d : D) :
  exists c, binit (boot_bcache d) = Done (tt, c) /\ cache_rel (boot_abio (disk_view d)) c.
Proof.
  unfold binit, mbind, CM_bind, mod_buf. simpl.
  set (f := upd (upd (fun _ => zero_buf) HEAD (set_prev HEAD)) HEAD (set_next HEAD)).
  destruct (binit_loop_spec NBUFn 0 (BCache f d []) []) as (g & l & -> & Hl & Hu).
  - unfold f. simpl. unfold linked. by rewrite !upd_eq.
  - done.
  - done.
  - intros i. simpl. unfold f, upd, insert, fn_insert.
    repeat case_decide; done.
  - eexists. split; [done|]. split; simpl; try done.
    + split; [done|]. split; [done|]. split; [set_solver|]. intros no. apply dev_read_length.
    + by eexists.
    + intros i Hi. left. apply Hu.
    + intros i j Hi _ Hd. by destruct (Hu i).
Qed.

End refinement.

(** * A disk to run on *)

(** A disk held in memory, blocks never written reading as zeros. *)
Definition ram_read (d : gmap Z bytes) (s : Z) : bytes :=
  resize (Z.to_nat BSIZE) 0 (default [] (d !! s)).

#[export] Program Instance ram_disk : BlockDevice (gmap Z bytes) := {|
  dev_read := ram_read;
  dev_write d s b := <[s := b]> d;
|}.
Next Obligation. intros. unfold ram_read. by rewrite length_resize. Qed.
Next Obligation.
  intros d s b Hb. unfold ram_read. rewrite lookup_insert_eq. simpl.
  apply resize_all_alt. unfold BSIZE in *. lia.
Qed.
Next Obligation.
  intros d s s' b Hs. unfold ram_read. rewrite lookup_insert_ne; [done|].
  change (BSIZE / 512) with 2 in Hs. lia.
Qed.

(** * Properties *)

(** C13: for every program over the buffer cache, every process and every disk,
    the pointer-level cache of bio.c (after [binit]) does what the abstract
    cache does: same result, same panic, same sleep, and related final states
    (each referenced block cached exactly once with the right data, reference
    count and lock, the buffers on one LRU list, the disk and its write
    history equal). *)
Theorem bio_refines {D : Type} `{!BlockDevice D} (pid : Z) (A : Type) (p : prog A) (d : D) :
  outcome_rel pid (run spec_handler p (boot_abio (disk_view d)))
    ((_ ← binit; run (cache_handler pid) p : CM D A) (boot_bcache d)).
Proof.
  destruct (boot_rel pid d) as (c & Hc & R). unfold mbind, CM_bind. rewrite Hc.
  by apply run_refines.
Qed.

(** Two blocks are read, one is changed, written and read back. *)
Definition sample_prog : prog (bytes * bytes) :=
  b ← Vis (Bread ROOTDEV 5) Ret;
  c ← Vis (Bread ROOTDEV 7) Ret;
  d ← Vis (GetData c) Ret;
  Vis (SetData b (put (zeros BSIZE) 0 [1; 2; 3])) Ret;;
  Vis (Bwrite b) Ret;;
  Vis (Brelse b) Ret;;
  Vis (Brelse c) Ret;;
  b ← Vis (Bread ROOTDEV 5) Ret;
  d' ← Vis (GetData b) Ret;
  Ret (d, d').

Lemma bio_refines_witness :
  exists c, (_ ← binit; run (cache_handler 3) sample_prog : CM (gmap Z bytes) _)
              (boot_bcache ∅) = Done ((zeros BSIZE, put (zeros BSIZE) 0 [1; 2; 3]), c).
Proof.
  pose proof (bio_refines 3 _ sample_prog (∅ : gmap Z bytes)) as H.
  match type of H with outcome_rel _ ?o _ => assert (E : match o with
    | Done (x, _) => x = (zeros BSIZE, put (zeros BSIZE) 0 [1; 2; 3]) | _ => False end) by (vm_compute; reflexivity);
    destruct o as [[x a]| | | |]; [|destruct E..] end.
  destruct H as (c & H & _). exists c. by rewrite <- E.
Defined.
