(* ===== verification/KState.v ===== *)
(** The kernel's in-memory state and the monad its code is written in.

    [kst] gathers the static data of kernel/fs.c, kernel/log.c, kernel/file.c
    and the part of [struct proc] the file system uses.  [K] threads it through
    programs over the buffer cache.  [wp] is the total-correctness reading of
    such code on the specification of the cache: the code returns, and the
    result satisfies the postcondition. *)

From S2P Require Import Prelude BufCache BufSpec.
Local Open Scope Z_scope.

(** * User memory *)

(** What the file system needs of kernel/vm.c.  [copyin] gives the bytes it
    stored in the kernel buffer and whether all were copied; [copyout] writes
    as many pages as it can reach; [copyinstr] gives the string before its NUL,
    if it finds one among the first [max] bytes. *)
Class UserMem (U : Type) := {
  copyin : U -> Z -> Z -> bytes * bool;
  copyout : U -> Z -> bytes -> U * bool;
  copyinstr : U -> Z -> Z -> option bytes;
  copyin_bytes u src n : Forall is_byte (copyin u src n).1;
  copyin_ok u src n : 0 <= n -> (copyin u src n).2 = true ->
    Z.of_nat (length (copyin u src n).1) = n;
  copyin_fail u src n : 0 <= n -> (copyin u src n).2 = false ->
    Z.of_nat (length (copyin u src n).1) < n;
  copyinstr_ok u src max s : copyinstr u src max = Some s ->
    Z.of_nat (length s) < max /\ Forall (fun c => 0 < c < 256) s;
}.

(** * Data structures *)

Record superblock := Superblock {
  sb_magic : Z; sb_size : Z; sb_nblocks : Z; sb_ninodes : Z;
  sb_nlog : Z; sb_logstart : Z; sb_inodestart : Z; sb_bmapstart : Z;
}.

(** [struct log]; [lh_n] and [lh_block] are the in-memory [struct logheader]. *)
Record log := Log {
  log_start : Z; log_size : Z; log_outstanding : Z; log_committing : Z; log_dev : Z;
  lh_n : Z; lh_block : Z -> Z;
}.

(** In-memory inode, kernel/file.h. *)
Record inode := Inode {
  i_dev : Z; i_inum : Z; i_ref : Z;
  i_lock : sleeplock; i_valid : bool;
  i_type : Z; i_major : Z; i_minor : Z; i_nlink : Z; i_size : Z;
  i_addrs : list Z;
}.

Inductive fdtype := FD_NONE | FD_PIPE | FD_INODE | FD_DEVICE.
#[export] Instance fdtype_eq_dec : EqDecision fdtype.
Proof. solve_decision. Defined.

(** [struct file], kernel/file.h; inode pointers are table indices, a pipe is
    the address of its page. *)
Record file := File {
  f_type : fdtype; f_ref : Z; f_readable : bool; f_writable : bool;
  f_pipe : Z; f_ip : nat; f_off : Z; f_major : Z;
}.

(** [struct pipe], kernel/pipe.c. *)
Record pipe := Pipe {
  p_data : Z -> Z; p_nread : Z; p_nwrite : Z; p_readopen : bool; p_writeopen : bool;
}.

(** The rest of the state the system calls use: the pipes by the address of
    their page, the pages on [kmem.freelist] (kernel/kalloc.c), the killed flag
    of the current process and its argument registers. *)
Record kext := KExt {
  x_pipes : gmap Z pipe; x_freelist : list Z; x_killed : bool; x_args : Z -> Z;
}.

(** [k_out] is what the kernel's printf has put on the console. *)
Record kst (U : Type) := Kst {
  k_sb : superblock;
  k_log : log;
  k_itable : nat -> inode;
  k_ftable : nat -> file;
  k_pid : Z;
  k_ofile : list (option nat);
  k_cwd : nat;
  k_mem : U;
  k_out : list string;
  k_ext : kext;
}.
Arguments Kst {U}.
Arguments k_sb {U}. Arguments k_log {U}. Arguments k_itable {U}. Arguments k_ftable {U}.
Arguments k_pid {U}. Arguments k_ofile {U}. Arguments k_cwd {U}. Arguments k_mem {U}.
Arguments k_out {U}. Arguments k_ext {U}.

Definition set_k_sb {U} v (k : kst U) : kst U := Kst v (k_log k) (k_itable k) (k_ftable k) (k_pid k) (k_ofile k) (k_cwd k) (k_mem k) (k_out k) (k_ext k).
Definition set_k_log {U} v (k : kst U) : kst U := Kst (k_sb k) v (k_itable k) (k_ftable k) (k_pid k) (k_ofile k) (k_cwd k) (k_mem k) (k_out k) (k_ext k).
Definition set_k_itable {U} v (k : kst U) : kst U := Kst (k_sb k) (k_log k) v (k_ftable k) (k_pid k) (k_ofile k) (k_cwd k) (k_mem k) (k_out k) (k_ext k).
Definition set_k_ftable {U} v (k : kst U) : kst U := Kst (k_sb k) (k_log k) (k_itable k) v (k_pid k) (k_ofile k) (k_cwd k) (k_mem k) (k_out k) (k_ext k).
Definition set_k_ofile {U} v (k : kst U) : kst U := Kst (k_sb k) (k_log k) (k_itable k) (k_ftable k) (k_pid k) v (k_cwd k) (k_mem k) (k_out k) (k_ext k).
Definition set_k_cwd {U} v (k : kst U) : kst U := Kst (k_sb k) (k_log k) (k_itable k) (k_ftable k) (k_pid k) (k_ofile k) v (k_mem k) (k_out k) (k_ext k).
Definition set_k_mem {U} v (k : kst U) : kst U := Kst (k_sb k) (k_log k) (k_itable k) (k_ftable k) (k_pid k) (k_ofile k) (k_cwd k) v (k_out k) (k_ext k).
Definition set_k_out {U} v (k : kst U) : kst U := Kst (k_sb k) (k_log k) (k_itable k) (k_ftable k) (k_pid k) (k_ofile k) (k_cwd k) (k_mem k) v (k_ext k).
Definition set_k_ext {U} v (k : kst U) : kst U := Kst (k_sb k) (k_log k) (k_itable k) (k_ftable k) (k_pid k) (k_ofile k) (k_cwd k) (k_mem k) (k_out k) v.

(** * The kernel monad *)

Definition K (U A : Type) : Type := kst U -> prog (A * kst U).
#[export] Instance K_ret U : MRet (K U) := fun _ a k => Ret (a, k).
#[export] Instance K_bind U : MBind (K U) := fun _ _ f m k => '(a, k') ← m k; f a k'.

Section monad.
Context {U : Type}.

Definition kpanic {A} (msg : string) : K U A := fun _ => Stop (SPanic msg).
(** [sleep]: nobody else runs, so nobody wakes the sleeper up. *)
Definition ksleep {A} : K U A := fun _ => Stop SSleep.
Definition kfuel {A} : K U A := fun _ => Stop SFuel.
(** Behaviour C leaves undefined. *)
Definition kundef {A} : K U A := fun _ => Stop SUndef.
Definition kget {A} (f : kst U -> A) : K U A := fun k => Ret (f k, k).
Definition kmod (f : kst U -> kst U) : K U unit := fun k => Ret (tt, f k).
Definition klift {A} (p : prog A) : K U A := fun k => a ← p; Ret (a, k).
Definition kprintf (msg : string) : K U unit := kmod (fun k => set_k_out (k_out k ++ [msg]) k).

(** Calls into the buffer cache. *)
Definition kbread (dev no : Z) : K U bufid := klift (Vis (Bread dev no) Ret).
Definition kdata (b : bufid) : K U bytes := klift (Vis (GetData b) Ret).
Definition kset_data (b : bufid) (d : bytes) : K U unit := klift (Vis (SetData b d) Ret).
Definition kbwrite (b : bufid) : K U unit := klift (Vis (Bwrite b) Ret).
Definition kbrelse (b : bufid) : K U unit := klift (Vis (Brelse b) Ret).
Definition kbpin (b : bufid) : K U unit := klift (Vis (Bpin b) Ret).
Definition kbunpin (b : bufid) : K U unit := klift (Vis (Bunpin b) Ret).

(** [for(i = lo; ...; i += step)] with [n] iterations, each of which may leave
    the loop with a value. *)
Fixpoint kfor {R} (n : nat) (i step : Z) (body : Z -> K U (option R)) : K U (option R) :=
  match n with
  | O => mret None
  | S n =>
      r ← body i;
      match r with
      | Some v => mret (Some v)
      | None => kfor n (i + step) step body
      end
  end.

(** The same without early exit. *)
Fixpoint kiter (n : nat) (i : Z) (body : Z -> K U unit) : K U unit :=
  match n with
  | O => mret tt
  | S n => body i;; kiter n (i + 1) body
  end.

(** * Reasoning *)

Definition krun {A} (m : K U A) (k : kst U) (a : abio) : outcome ((A * kst U) * abio) :=
  run spec_handler (m k) a.

Definition wp {A} (m : K U A) (Q : A -> kst U -> abio -> Prop) (k : kst U) (a : abio) : Prop :=
  match krun m k a with
  | Done ((x, k'), a') => Q x k' a'
  | _ => False
  end.

Lemma krun_bind {A B} (m : K U A) (f : A -> K U B) k a :
  krun (m ≫= f) k a = ('((x, k'), a') ← krun m k a; krun (f x) k' a').
Proof.
  unfold krun. unfold mbind at 1, K_bind. rewrite run_bind.
  by destruct (run spec_handler (m k) a) as [[[x k'] a']| | | |].
Qed.

Lemma wp_ret {A} (x : A) Q k a : Q x k a -> wp (mret x) Q k a.
Proof. done. Qed.

Lemma wp_bind {A B} (m : K U A) (f : A -> K U B) Q k a :
  wp m (fun x k' a' => wp (f x) Q k' a') k a -> wp (m ≫= f) Q k a.
Proof.
  unfold wp. rewrite krun_bind. by destruct (krun m k a) as [[[x k'] a']| | | |].
Qed.

Lemma wp_mono {A} (m : K U A) (Q Q' : A -> kst U -> abio -> Prop) k a :
  wp m Q k a -> (forall x k' a', Q x k' a' -> Q' x k' a') -> wp m Q' k a.
Proof. unfold wp. destruct (krun m k a) as [[[x k'] a']| | | |]; naive_solver. Qed.

Lemma wp_get {A} (f : kst U -> A) Q k a : Q (f k) k a -> wp (kget f) Q k a.
Proof. done. Qed.

Lemma wp_mod f (Q : unit -> kst U -> abio -> Prop) k a : Q tt (f k) a -> wp (kmod f) Q k a.
Proof. done. Qed.

Lemma wp_event {X} (e : bioE X) (Q : X -> kst U -> abio -> Prop) k a x a' :
  spec_handler X e a = Done (x, a') -> Q x k a' -> wp (klift (Vis e Ret)) Q k a.
Proof. intros H HQ. unfold wp, krun. simpl. by rewrite H. Qed.

Lemma wp_krun {A} (m : K U A) Q k a :
  wp m Q k a -> exists x k' a', krun m k a = Done ((x, k'), a') /\ Q x k' a'.
Proof. unfold wp. destruct (krun m k a) as [[[x k'] a']| | | |]; naive_solver. Qed.

Lemma krun_wp {A} (m : K U A) (Q : A -> kst U -> abio -> Prop) k a x k' a' :
  krun m k a = Done ((x, k'), a') -> Q x k' a' -> wp m Q k a.
Proof. unfold wp. by intros ->. Qed.

(** Loop rule: [I] is kept while the body continues, [Q] holds when it leaves. *)
Lemma wp_kfor {R} (I : Z -> kst U -> abio -> Prop) (Q : option R -> kst U -> abio -> Prop)
    (body : Z -> K U (option R)) n i step k a :
  (forall j k a, i <= j < i + Z.of_nat n * Z.abs step \/ step <= 0 -> I j k a ->
     wp (body j) (fun r k' a' => match r with Some v => Q (Some v) k' a' | None => I (j + step) k' a' end) k a) ->
  (forall k a, I (i + Z.of_nat n * step) k a -> Q None k a) ->
  I i k a -> wp (kfor n i step body) Q k a.
Proof.
  revert i k a. induction n as [|n IH]; intros i k a Hb Hq Hi; simpl.
  - apply wp_ret, Hq. by replace (i + Z.of_nat 0 * step) with i by lia.
  - apply wp_bind. eapply wp_mono; [apply Hb; [|done]|].
    + destruct (decide (step <= 0)); [by right|left]. nia.
    + intros [v|] k' a' H; [by apply wp_ret|]. apply IH; [..|done].
      * intros j k0 a0 Hj HI. apply Hb; [|done].
        destruct Hj as [Hj|]; [|by right]. destruct (decide (step <= 0)); [by right|left]. nia.
      * intros k0 a0 HI. apply Hq. by replace (i + Z.of_nat (S n) * step)
          with (i + step + Z.of_nat n * step) by lia.
Qed.

Lemma wp_kiter (I : Z -> kst U -> abio -> Prop) (Q : unit -> kst U -> abio -> Prop)
    (body : Z -> K U unit) n i k a :
  (forall j k a, i <= j < i + Z.of_nat n -> I j k a ->
     wp (body j) (fun _ k' a' => I (j + 1) k' a') k a) ->
  (forall k a, I (i + Z.of_nat n) k a -> Q tt k a) ->
  I i k a -> wp (kiter n i body) Q k a.
Proof.
  revert i k a. induction n as [|n IH]; intros i k a Hb Hq Hi; simpl.
  - apply wp_ret, Hq. by replace (i + Z.of_nat 0) with i by lia.
  - apply wp_bind. eapply wp_mono; [apply Hb; [lia|done]|].
    intros [] k' a' H. apply IH; [..|done].
    + intros j k0 a0 Hj HI. apply Hb; [lia|done].
    + intros k0 a0 HI. apply Hq. by replace (i + Z.of_nat (S n)) with (i + 1 + Z.of_nat n) by lia.
Qed.

End monad.

#[global] Typeclasses Opaque K.

(** Step through straight-line code. *)
Ltac wp_step :=
  lazymatch goal with
  | |- wp (mret _) _ _ _ => apply wp_ret
  | |- wp (_ ≫= _) _ _ _ => apply wp_bind
  | |- wp (kget _) _ _ _ => apply wp_get
  | |- wp (kmod _) _ _ _ => apply wp_mod
  end.
Ltac wp_steps := repeat (wp_step; simpl).
