(* ===== verification/Log.v ===== *)
(** The logging layer, kernel/log.c.

    First the code; then the transaction view of it ([tx]): what the blocks
    hold, which buffers are held, which blocks the open transaction has
    logged; last the crash analysis of [commit] and [recover_from_log]. *)

From S2P Require Import Prelude BufCache BufSpec KState.
Local Open Scope Z_scope.

Section code.
Context {U : Type}.

Definition log_mod (f : log -> log) : K U unit := kmod (fun k => set_k_log (f (k_log k)) k).

Definition set_lh_n n l := Log (log_start l) (log_size l) (log_outstanding l) (log_committing l) (log_dev l) n (lh_block l).
Definition set_lh_block i v l := Log (log_start l) (log_size l) (log_outstanding l) (log_committing l) (log_dev l) (lh_n l) (<[i := v]> (lh_block l)).
Definition set_outstanding v l := Log (log_start l) (log_size l) v (log_committing l) (log_dev l) (lh_n l) (lh_block l).
Definition set_committing v l := Log (log_start l) (log_size l) (log_outstanding l) v (log_dev l) (lh_n l) (lh_block l).

(** One iteration of [install_trans]. *)
Definition install_block (recovering : bool) (tail : Z) : K U unit :=
  l ← kget k_log;
  lbuf ← kbread (log_dev l) (u32 (log_start l + tail + 1));
  dbuf ← kbread (log_dev l) (u32 (lh_block l tail));
  d ← kdata lbuf;
  kset_data dbuf d;;
  kbwrite dbuf;;
  (if recovering then mret tt else kbunpin dbuf);;
  kbrelse lbuf;;
  kbrelse dbuf.

Definition install_trans (recovering : bool) : K U unit :=
  l ← kget k_log;
  kiter (Z.to_nat (lh_n l)) 0 (install_block recovering).

(** [struct logheader] in a block: [n] in word 0, [block[i]] in word [i + 1]. *)
Definition read_head : K U unit :=
  l ← kget k_log;
  buf ← kbread (log_dev l) (u32 (log_start l));
  lh ← kdata buf;
  log_mod (set_lh_n (i32 (word_at lh 0)));;
  kiter (Z.to_nat (i32 (word_at lh 0))) 0 (fun i =>
    log_mod (set_lh_block i (i32 (word_at lh (i + 1)))));;
  kbrelse buf.

Fixpoint head_words (n : nat) (i : Z) (blk : Z -> Z) (hb : bytes) : bytes :=
  match n with
  | O => hb
  | S n => head_words n (i + 1) blk (put_word hb (i + 1) (blk i))
  end.

Definition write_head : K U unit :=
  l ← kget k_log;
  buf ← kbread (log_dev l) (u32 (log_start l));
  hb ← kdata buf;
  kset_data buf (head_words (Z.to_nat (lh_n l)) 0 (lh_block l) (put_word hb 0 (lh_n l)));;
  kbwrite buf;;
  kbrelse buf.

Definition recover_from_log : K U unit :=
  read_head;;
  install_trans true;;
  log_mod (set_lh_n 0);;
  write_head.

Definition initlog (dev : Z) (sb : superblock) : K U unit :=
  if 4 * (1 + LOGSIZE) >=? BSIZE then kpanic "initlog: too big logheader" else
  log_mod (fun l => Log (i32 (sb_logstart sb)) (i32 (sb_nlog sb)) (log_outstanding l)
                        (log_committing l) dev (lh_n l) (lh_block l));;
  recover_from_log.

(** Both waits end in [sleep]; nobody else runs to end a transaction. *)
Definition begin_op : K U unit :=
  l ← kget k_log;
  if negb (log_committing l =? 0) then ksleep
  else if lh_n l + (log_outstanding l + 1) * MAXOPBLOCKS >? LOGSIZE then ksleep
  else log_mod (set_outstanding (log_outstanding l + 1)).

(** One iteration of [write_log]. *)
Definition write_log_block (tail : Z) : K U unit :=
  l ← kget k_log;
  to ← kbread (log_dev l) (u32 (log_start l + tail + 1));
  from ← kbread (log_dev l) (u32 (lh_block l tail));
  d ← kdata from;
  kset_data to d;;
  kbwrite to;;
  kbrelse from;;
  kbrelse to.

Definition write_log : K U unit :=
  l ← kget k_log;
  kiter (Z.to_nat (lh_n l)) 0 write_log_block.

Definition commit : K U unit :=
  l ← kget k_log;
  if lh_n l >? 0 then
    write_log;;
    write_head;;
    install_trans false;;
    log_mod (set_lh_n 0);;
    write_head
  else mret tt.

Definition end_op : K U unit :=
  log_mod (fun l => set_outstanding (log_outstanding l - 1) l);;
  l ← kget k_log;
  if negb (log_committing l =? 0) then kpanic "log.committing" else
  if log_outstanding l =? 0 then
    log_mod (set_committing 1);;
    commit;;
    log_mod (set_committing 0)
  else mret tt.

(** [for (i = 0; i < log.lh.n; i++) if (log.lh.block[i] == b->blockno) break;] *)
Fixpoint log_slot (n : nat) (i : Z) (blk : Z -> Z) (no : Z) : Z :=
  match n with
  | O => i
  | S n => if u32 (blk i) =? no then i else log_slot n (i + 1) blk no
  end.

Definition log_write (b : bufid) : K U unit :=
  l ← kget k_log;
  if (lh_n l >=? LOGSIZE) || (lh_n l >=? log_size l - 1) then kpanic "too big a transaction" else
  if log_outstanding l <? 1 then kpanic "log_write outside of trans" else
  let i := log_slot (Z.to_nat (lh_n l)) 0 (lh_block l) (bi_no b) in
  log_mod (set_lh_block i (i32 (bi_no b)));;
  if i =? lh_n l then
    kbpin b;;
    log_mod (set_lh_n (lh_n l + 1))
  else mret tt.

End code.

(** * The transaction view *)

(** References of a block: one if its buffer is held, one if it is pinned. *)
Definition refs_of (H P : gset Z) (no : Z) : option nat :=
  if decide (no ∈ H) then (if decide (no ∈ P) then Some 2%nat else Some 1%nat)
  else (if decide (no ∈ P) then Some 1%nat else None).

(** [V]: what the blocks hold; [D]: what is on the disk; [hs]: the disk writes
    so far; [H]: the buffers the caller holds; [M]: those it has changed and
    neither logged nor written; [P]: the pinned blocks. *)
Record bt (a : abio) (V D : Z -> bytes) (hs : list (Z * bytes)) (H M P : gset Z) : Prop := {
  bt_view : forall no, a_view a no = V no;
  bt_disk : forall no, a_disk a no = D no;
  bt_hist : a_hist a = hs;
  bt_held : a_held a = H;
  bt_refs : forall no, a_refs a !! no = refs_of H P no;
  bt_len : forall no, Z.of_nat (length (V no)) = BSIZE;
  bt_clean : forall no, no ∉ P -> no ∉ M -> V no = D no;
  bt_dirty : M ⊆ H;
}.

Section blocks.
Context {U : Type}.

Lemma bt_size a V D hs H M P : bt a V D hs H M P -> size (a_refs a) = size (H ∪ P).
Proof.
  intros T. rewrite <- size_dom. f_equal. apply set_eq. intros no.
  rewrite elem_of_dom, elem_of_union, (bt_refs _ _ _ _ _ _ _ T).
  unfold refs_of. repeat case_decide; rewrite ?is_Some_alt; naive_solver.
Qed.

Lemma bt_ext a V V' D D' hs H M P :
  (forall no, V' no = V no) -> (forall no, D' no = D no) ->
  bt a V D hs H M P -> bt a V' D' hs H M P.
Proof. intros E E' []. split; intros; rewrite ?E, ?E'; auto. Qed.

Lemma wp_bt_bread k a V D hs H M P dev no (Q : bufid -> kst U -> abio -> Prop) :
  bt a V D hs H M P -> dev = ROOTDEV -> 0 <= no < 2 ^ 31 -> no ∉ H ->
  (no ∈ P \/ (size (H ∪ P) < NBUFn)%nat) ->
  (forall a', bt a' V D hs ({[no]} ∪ H) M P -> Q (BufId ROOTDEV no) k a') ->
  wp (kbread dev no) Q k a.
Proof.
  intros T -> Hno Hh Hcap HQ. unfold kbread.
  set (refs := <[no := S (default O (a_refs a !! no))]> (a_refs a)).
  eapply (wp_event _ _ _ _ (BufId ROOTDEV no) (a_set_refs refs ({[no]} ∪ a_held a) a)).
  - simpl. unfold abs_bread.
    assert (blk_ok ROOTDEV no = true) as ->.
    { unfold blk_ok. rewrite (proj2 (Z.leb_le 0 no)), (proj2 (Z.ltb_lt no _)) by lia. done. }
    simpl. rewrite (bt_held _ _ _ _ _ _ _ T), decide_False by done.
    unfold refs. rewrite (bt_refs _ _ _ _ _ _ _ T). unfold refs_of.
    rewrite decide_False by done. case_decide; simpl; [done|].
    rewrite decide_True; [done|]. rewrite (bt_size _ _ _ _ _ _ _ T). destruct Hcap; done.
  - apply HQ. destruct T. split; simpl; try done; [by f_equal| |set_solver].
    intros n. unfold refs. destruct (decide (n = no)) as [->|Hn].
    + rewrite lookup_insert_eq, bt_refs0. unfold refs_of.
      rewrite (decide_False (P := no ∈ H)), (decide_True (P := no ∈ {[no]} ∪ H)) by set_solver.
      by case_decide.
    + rewrite lookup_insert_ne, bt_refs0 by done. unfold refs_of.
      repeat case_decide; set_solver.
Qed.

Lemma held_spec a V D hs H M P no {A} (m : outcome A) :
  bt a V D hs H M P -> no ∈ H -> 0 <= no < 2 ^ 31 -> abs_held (BufId ROOTDEV no) a m = m.
Proof.
  intros T Hh Hno. unfold abs_held, blk_ok. simpl. rewrite (bt_held _ _ _ _ _ _ _ T).
  rewrite bool_decide_true, (proj2 (Z.leb_le 0 no)), (proj2 (Z.ltb_lt no _)) by (done || lia). done.
Qed.

Lemma wp_bt_data k a V D hs H M P no (Q : bytes -> kst U -> abio -> Prop) :
  bt a V D hs H M P -> no ∈ H -> 0 <= no < 2 ^ 31 ->
  Q (V no) k a -> wp (kdata (BufId ROOTDEV no)) Q k a.
Proof.
  intros T Hh Hno HQ. eapply wp_event; [|done]. simpl.
  rewrite (held_spec _ _ _ _ _ _ _ _ _ T) by done. simpl. by rewrite (bt_view _ _ _ _ _ _ _ T).
Qed.

Lemma wp_bt_set k a V D hs H M P no d (Q : unit -> kst U -> abio -> Prop) :
  bt a V D hs H M P -> no ∈ H -> 0 <= no < 2 ^ 31 -> Z.of_nat (length d) = BSIZE ->
  (forall a', bt a' (<[no := d]> V) D hs H ({[no]} ∪ M) P -> Q tt k a') ->
  wp (kset_data (BufId ROOTDEV no) d) Q k a.
Proof.
  intros T Hh Hno Hd HQ. eapply wp_event.
  { simpl. rewrite decide_True by done. by rewrite (held_spec _ _ _ _ _ _ _ _ _ T). }
  apply HQ. destruct T. split; simpl; try done.
  - intros n. destruct (decide (n = no)) as [->|];
      [by rewrite !fn_lookup_insert|by rewrite !fn_lookup_insert_ne].
  - intros n. destruct (decide (n = no)) as [->|];
      [by rewrite !fn_lookup_insert|by rewrite !fn_lookup_insert_ne].
  - intros n Hl Hm. rewrite fn_lookup_insert_ne by set_solver. apply bt_clean0; set_solver.
  - set_solver.
Qed.

Lemma wp_bt_bwrite k a V D hs H M P no (Q : unit -> kst U -> abio -> Prop) :
  bt a V D hs H M P -> no ∈ H -> 0 <= no < 2 ^ 31 ->
  (forall a', bt a' V (<[no := V no]> D) (hs ++ [(no, V no)]) H (M ∖ {[no]}) P -> Q tt k a') ->
  wp (kbwrite (BufId ROOTDEV no)) Q k a.
Proof.
  intros T Hh Hno HQ. eapply wp_event.
  { simpl. by rewrite (held_spec _ _ _ _ _ _ _ _ _ T). }
  apply HQ. destruct T. split; simpl; try done.
  - intros n. destruct (decide (n = no)) as [->|];
      [by rewrite !fn_lookup_insert, bt_view0|by rewrite !fn_lookup_insert_ne].
  - by rewrite bt_hist0, bt_view0.
  - intros n Hl Hm. destruct (decide (n = no)) as [->|];
      [by rewrite fn_lookup_insert|rewrite fn_lookup_insert_ne by done].
    apply bt_clean0; set_solver.
  - set_solver.
Qed.

(** The table of references once [no] is no longer held. *)
Lemma wp_bt_brelse k a V D hs H M P no (Q : unit -> kst U -> abio -> Prop) :
  bt a V D hs H M P -> no ∈ H -> 0 <= no < 2 ^ 31 -> no ∉ M ->
  (forall a', bt a' V D hs (H ∖ {[no]}) M P -> Q tt k a') ->
  wp (kbrelse (BufId ROOTDEV no)) Q k a.
Proof.
  intros T Hh Hno Hm HQ.
  assert (Hr := bt_refs _ _ _ _ _ _ _ T no). unfold refs_of in Hr. rewrite decide_True in Hr by done.
  eapply (wp_event _ _ _ _ tt (a_set_refs
     (if decide (no ∈ P) then <[no := 1%nat]> (a_refs a) else delete no (a_refs a))
     (a_held a ∖ {[no]}) a)).
  - simpl. rewrite (held_spec _ _ _ _ _ _ _ _ _ T) by done. unfold abs_brelse. simpl. rewrite Hr.
    case_decide as Hl; [done|]. rewrite decide_True; [done|].
    rewrite (bt_view _ _ _ _ _ _ _ T), (bt_disk _ _ _ _ _ _ _ T). by apply T.
  - apply HQ. destruct T. split; simpl; try done; [set_solver| |set_solver].
    intros n. unfold refs_of. destruct (decide (n = no)) as [->|Hn].
    + rewrite (decide_False (P := no ∈ H ∖ _)) by set_solver.
      case_decide; [by rewrite lookup_insert_eq|by rewrite lookup_delete_eq].
    + assert (E : (if decide (no ∈ P) then <[no:=1%nat]> (a_refs a) else delete no (a_refs a)) !! n
                  = a_refs a !! n).
      { case_decide; [by rewrite lookup_insert_ne|by rewrite lookup_delete_ne]. }
      rewrite E, bt_refs0. unfold refs_of. repeat case_decide; set_solver.
Qed.

Lemma wp_bt_unpin k a V D hs H M P no (Q : unit -> kst U -> abio -> Prop) :
  bt a V D hs H M P -> no ∈ H -> no ∈ P -> 0 <= no < 2 ^ 31 -> V no = D no ->
  (forall a', bt a' V D hs H M (P ∖ {[no]}) -> Q tt k a') ->
  wp (kbunpin (BufId ROOTDEV no)) Q k a.
Proof.
  intros T Hh Hp Hno Hc HQ.
  assert (Hr := bt_refs _ _ _ _ _ _ _ T no). unfold refs_of in Hr. rewrite !decide_True in Hr by done.
  eapply wp_event.
  { simpl. rewrite Hr. by rewrite (held_spec _ _ _ _ _ _ _ _ _ T). }
  apply HQ. destruct T. split; simpl; try done.
  - intros n. unfold refs_of. destruct (decide (n = no)) as [->|Hn].
    + rewrite lookup_insert_eq, decide_True, decide_False by (done || set_solver). done.
    + rewrite lookup_insert_ne, bt_refs0 by done. unfold refs_of. repeat case_decide; set_solver.
  - intros n Hn Hm. destruct (decide (n = no)) as [->|]; [done|]. apply bt_clean0; set_solver.
Qed.

Lemma wp_bt_pin k a V D hs H M P no (Q : unit -> kst U -> abio -> Prop) :
  bt a V D hs H M P -> no ∈ H -> no ∉ P -> 0 <= no < 2 ^ 31 ->
  (forall a', bt a' V D hs H (M ∖ {[no]}) ({[no]} ∪ P) -> Q tt k a') ->
  wp (kbpin (BufId ROOTDEV no)) Q k a.
Proof.
  intros T Hh Hp Hno HQ.
  assert (Hr := bt_refs _ _ _ _ _ _ _ T no). unfold refs_of in Hr.
  rewrite decide_True, decide_False in Hr by done.
  eapply wp_event.
  { simpl. rewrite Hr. rewrite decide_True by lia. by rewrite (held_spec _ _ _ _ _ _ _ _ _ T). }
  apply HQ. destruct T. split; simpl; try done.
  - intros n. unfold refs_of. destruct (decide (n = no)) as [->|Hn].
    + rewrite lookup_insert_eq, !decide_True by (done || set_solver). done.
    + rewrite lookup_insert_ne, bt_refs0 by done. unfold refs_of. repeat case_decide; set_solver.
  - intros n Hn Hm. apply bt_clean0; set_solver.
  - set_solver.
Qed.

(** The in-memory log header lists the blocks [L]. *)
Record lh_ok (k : kst U) (L : list Z) : Prop := {
  lh_len : lh_n (k_log k) = Z.of_nat (length L);
  lh_blocks : forall i x, L !! i = Some x -> lh_block (k_log k) (Z.of_nat i) = x;
  lh_nodup : NoDup L;
  lh_range : forall x, x ∈ L -> 0 <= x < 2 ^ 31;
  lh_dev : log_dev (k_log k) = ROOTDEV;
}.

(** An open transaction: the logged blocks are the pinned ones. *)
Definition tx (k : kst U) (a : abio) (V D : Z -> bytes) (hs : list (Z * bytes))
    (H M : gset Z) (L : list Z) : Prop :=
  bt a V D hs H M (list_to_set L) /\ lh_ok k L.

(** Only the log part of the kernel state matters to [tx]. *)
Lemma tx_kst k k' a V D hs H M L :
  k_log k' = k_log k -> tx k a V D hs H M L -> tx k' a V D hs H M L.
Proof. intros E [T []]. split; [done|]. split; rewrite ?E; done. Qed.

Lemma wp_tx_bread k a V D hs H M L dev no (Q : bufid -> kst U -> abio -> Prop) :
  tx k a V D hs H M L -> dev = ROOTDEV -> 0 <= no < 2 ^ 31 -> no ∉ H ->
  (no ∈ L \/ (size H + length L < NBUFn)%nat) ->
  (forall a', tx k a' V D hs ({[no]} ∪ H) M L -> Q (BufId ROOTDEV no) k a') ->
  wp (kbread dev no) Q k a.
Proof.
  intros [T Hl] Hd Hno Hh Hcap HQ. eapply wp_bt_bread; [done..| |].
  - destruct Hcap as [|Hcap]; [left; by rewrite elem_of_list_to_set|right].
    pose proof (size_union_list H L). lia.
  - intros a' T'. by apply HQ.
Qed.

Lemma wp_tx_data k a V D hs H M L no (Q : bytes -> kst U -> abio -> Prop) :
  tx k a V D hs H M L -> no ∈ H -> 0 <= no < 2 ^ 31 ->
  Q (V no) k a -> wp (kdata (BufId ROOTDEV no)) Q k a.
Proof. intros [T _]. by eapply wp_bt_data. Qed.

Lemma wp_tx_set k a V D hs H M L no d (Q : unit -> kst U -> abio -> Prop) :
  tx k a V D hs H M L -> no ∈ H -> 0 <= no < 2 ^ 31 -> Z.of_nat (length d) = BSIZE ->
  (forall a', tx k a' (<[no := d]> V) D hs H ({[no]} ∪ M) L -> Q tt k a') ->
  wp (kset_data (BufId ROOTDEV no) d) Q k a.
Proof. intros [T Hl] ? ? ? HQ. eapply wp_bt_set; [done..|]. intros a' T'. by apply HQ. Qed.

Lemma wp_tx_brelse k a V D hs H M L no (Q : unit -> kst U -> abio -> Prop) :
  tx k a V D hs H M L -> no ∈ H -> 0 <= no < 2 ^ 31 -> no ∉ M ->
  (forall a', tx k a' V D hs (H ∖ {[no]}) M L -> Q tt k a') ->
  wp (kbrelse (BufId ROOTDEV no)) Q k a.
Proof. intros [T Hl] ? ? ? HQ. eapply wp_bt_brelse; [done..|]. intros a' T'. by apply HQ. Qed.

(** [log_write] only changes the in-memory log header. *)
Definition with_lh (n : Z) (blk : Z -> Z) (k : kst U) : kst U :=
  set_k_log (Log (log_start (k_log k)) (log_size (k_log k)) (log_outstanding (k_log k))
                 (log_committing (k_log k)) (log_dev (k_log k)) n blk) k.

(** Room in the log for [n] more blocks, inside a transaction. *)
Definition room (k : kst U) (L : list Z) (n : Z) : Prop :=
  Z.of_nat (length L) + n <= LOGSIZE /\ Z.of_nat (length L) + n <= log_size (k_log k) - 1 /\
  1 <= log_outstanding (k_log k).

(** The transaction's block list after logging [no]: absorbed or appended. *)
Definition log_add (L : list Z) (no : Z) : list Z := if decide (no ∈ L) then L else L ++ [no].

Lemma log_add_elem L no x : x ∈ log_add L no <-> x ∈ L \/ x = no.
Proof. unfold log_add. case_decide; [set_solver|]. rewrite elem_of_app. set_solver. Qed.

Lemma log_add_length L no : (length L <= length (log_add L no) <= S (length L))%nat.
Proof. unfold log_add. case_decide; rewrite ?length_app; simpl; lia. Qed.

Lemma log_slot_spec L i blk no :
  (forall j x, L !! j = Some x -> u32 (blk (i + Z.of_nat j)) = x) ->
  (no ∈ L -> exists j, L !! j = Some no /\ log_slot (length L) i blk no = i + Z.of_nat j) /\
  (no ∉ L -> log_slot (length L) i blk no = i + Z.of_nat (length L)).
Proof.
  revert i. induction L as [|y L IH]; intros i Hb; simpl.
  - split; [set_solver|]. lia.
  - pose proof (Hb O y eq_refl) as Hy. rewrite Z.add_0_r in Hy. rewrite Hy.
    destruct (IH (i + 1)) as [IH1 IH2].
    { intros j x Hj. rewrite <- (Hb (S j) x Hj). do 2 f_equal. lia. }
    destruct (Z.eqb_spec y no) as [->|Hne].
    + split; [|set_solver]. intros _. exists O. split; [done|lia].
    + split.
      * intros Hin. destruct IH1 as (j & Hj & ->); [set_solver|].
        exists (S j). split; [done|lia].
      * intros Hnin. rewrite IH2 by set_solver. lia.
Qed.

Lemma lh_u32 k L i x :
  lh_ok k L -> L !! i = Some x -> u32 (lh_block (k_log k) (Z.of_nat i)) = x.
Proof.
  intros T Hi. rewrite (lh_blocks _ _ T i x Hi). apply u32_small.
  pose proof (lh_range _ _ T x (list_elem_of_lookup_2 _ _ _ Hi)). lia.
Qed.

(** The branch taken depends on whether the block is already logged. *)
Lemma log_write_slot k L no :
  lh_ok k L ->
  (no ∈ L -> exists j, L !! j = Some no /\
     log_slot (Z.to_nat (lh_n (k_log k))) 0 (lh_block (k_log k)) no = Z.of_nat j) /\
  (no ∉ L -> log_slot (Z.to_nat (lh_n (k_log k))) 0 (lh_block (k_log k)) no = Z.of_nat (length L)).
Proof.
  intros T. rewrite (lh_len _ _ T), Nat2Z.id.
  apply (log_slot_spec L 0). intros j x Hj. by eapply lh_u32.
Qed.

Lemma lh_absorb k L no j :
  lh_ok k L -> L !! j = Some no ->
  lh_ok (with_lh (lh_n (k_log k)) (<[Z.of_nat j := i32 no]> (lh_block (k_log k))) k) L.
Proof.
  intros [] Hj. assert (Hin : no ∈ L) by (by eapply list_elem_of_lookup_2).
  split; simpl; try done.
  intros i x Hi. destruct (decide (i = j)) as [->|Hne].
  - rewrite fn_lookup_insert. rewrite i32_small by (apply lh_range0 in Hin; lia). congruence.
  - rewrite fn_lookup_insert_ne by lia. by apply lh_blocks0.
Qed.

Lemma lh_append k L no :
  lh_ok k L -> no ∉ L -> 0 <= no < 2 ^ 31 ->
  lh_ok (with_lh (lh_n (k_log k) + 1) (<[Z.of_nat (length L) := i32 no]> (lh_block (k_log k))) k)
    (L ++ [no]).
Proof.
  intros [] Hl Hno. split; simpl; try done.
  - rewrite lh_len0, length_app. simpl. lia.
  - intros i x Hi. destruct (decide (i = length L)) as [->|Hne].
    + rewrite fn_lookup_insert, i32_small by lia.
      rewrite lookup_app_r, Nat.sub_diag in Hi by done. by simplify_eq/=.
    + rewrite fn_lookup_insert_ne by lia. apply lh_blocks0.
      apply lookup_app_Some in Hi as [|[Hlen Hi]]; [done|].
      destruct (i - length L)%nat eqn:E; [lia|done].
  - apply NoDup_app. split; [done|]. split; [set_solver|apply NoDup_singleton].
  - intros x Hx. apply elem_of_app in Hx as [|Hx]; [by apply lh_range0|].
    apply list_elem_of_singleton in Hx. by subst.
Qed.

Lemma wp_tx_log_write k a V D hs H M L no (Q : unit -> kst U -> abio -> Prop) :
  tx k a V D hs H M L -> no ∈ H -> 0 <= no < 2 ^ 31 -> room k L 1 ->
  (forall n blk a', tx (with_lh n blk k) a' V D hs H (M ∖ {[no]}) (log_add L no) ->
     Q tt (with_lh n blk k) a') ->
  wp (log_write (BufId ROOTDEV no)) Q k a.
Proof.
  intros [T Hlh] Hh Hno (Hr1 & Hr2 & Hr3) HQ. unfold log_write. wp_steps.
  rewrite (lh_len _ _ Hlh).
  assert (((Z.of_nat (length L) >=? LOGSIZE) || (Z.of_nat (length L) >=? log_size (k_log k) - 1))
          = false) as ->.
  { rewrite !Z.geb_leb. apply orb_false_iff. split; apply Z.leb_gt; lia. }
  rewrite (proj2 (Z.ltb_ge _ _)) by lia.
  destruct (log_write_slot _ _ no Hlh) as [Hin Hout].
  rewrite (lh_len _ _ Hlh) in Hin, Hout.
  unfold log_add in HQ. destruct (decide (no ∈ L)) as [Hl|Hl].
  - destruct (Hin Hl) as (j & Hj & ->). unfold log_mod. wp_steps.
    pose proof (lookup_lt_Some _ _ _ Hj). rewrite (proj2 (Z.eqb_neq _ _)) by lia.
    wp_steps. apply (HQ _ (<[Z.of_nat j := i32 no]> (lh_block (k_log k)))). split; [|by apply lh_absorb].
    destruct T. split; try done; [|set_solver].
    intros n Hn Hm. apply bt_clean0; [done|]. apply elem_of_list_to_set in Hl || idtac. set_solver.
  - rewrite (Hout Hl). unfold log_mod. wp_steps. rewrite Z.eqb_refl. wp_steps.
    eapply wp_bt_pin; [done|done|by rewrite elem_of_list_to_set|done|]. intros a' T'. wp_steps.
    pose proof (lh_append _ _ _ Hlh Hl Hno) as Hlh'. rewrite (lh_len _ _ Hlh) in Hlh'.
    refine (HQ _ _ _ (conj _ Hlh')).
    rewrite list_to_set_app_L. simpl. rewrite union_empty_r_L, (union_comm_L (list_to_set L)). done.
Qed.

End blocks.

(** * Commit and recovery *)

(** The blocks of a disk after a sequence of writes. *)
Definition replay (w : list (Z * bytes)) (D : Z -> bytes) : Z -> bytes :=
  foldl (fun D e => <[e.1 := e.2]> D) D w.

Lemma replay_app w1 w2 D : replay (w1 ++ w2) D = replay w2 (replay w1 D).
Proof. apply foldl_app. Qed.

Lemma replay_out w D no : no ∉ w.*1 -> replay w D no = D no.
Proof.
  revert D. induction w as [|[x d] w IH]; intros D Hn; simpl in *; [done|].
  rewrite IH by set_solver. apply fn_lookup_insert_ne. set_solver.
Qed.

Lemma replay_ext w D D' : (forall no, D no = D' no) -> forall no, replay w D no = replay w D' no.
Proof.
  revert D D'. induction w as [|[x d] w IH]; intros D D' E no; simpl; [done|].
  apply IH. intros n. unfold insert, fn_insert. by case_decide.
Qed.

Lemma replay_in w D i no d :
  NoDup (w.*1) -> w !! i = Some (no, d) -> replay w D no = d.
Proof.
  revert D i. induction w as [|[x e] w IH]; intros D i Hd Hi; [done|]. simpl in *.
  apply NoDup_cons in Hd as [Hx Hd]. destruct i as [|i]; simplify_eq/=.
  - rewrite replay_out by done. apply fn_lookup_insert.
  - by eapply IH.
Qed.

(** The disk writes of a commit, in order: the logged blocks go to the log, the
    header commits, the blocks go home, the header is cleared. *)
Definition log_writes (st : Z) (V : Z -> bytes) (L : list Z) : list (Z * bytes) :=
  imap (fun i x => (st + Z.of_nat i + 1, V x)) L.

Definition home_writes (st : Z) (V : Z -> bytes) (L : list Z) : list (Z * bytes) :=
  imap (fun i x => (x, V (st + Z.of_nat i + 1))) L.

Definition head_block (L : list Z) (hb : bytes) : bytes :=
  head_words (length L) 0 (fun i => L !!! Z.to_nat i) (put_word hb 0 (Z.of_nat (length L))).

(** The blocks a header lists. *)
Definition head_list (hb : bytes) : list Z :=
  (fun i => i32 (word_at hb (i + 1))) <$> seqZ 0 (i32 (word_at hb 0)).

Lemma length_head_words n i blk hb :
  0 <= i -> 4 * (i + Z.of_nat n) <= Z.of_nat (length hb) ->
  length (head_words n i blk hb) = length hb.
Proof.
  revert i hb. induction n as [|n IH]; intros i hb Hi Hl; simpl; [done|].
  rewrite IH; rewrite ?length_put_word; lia.
Qed.

Lemma word_at_head_words n i blk hb j :
  0 <= i -> 0 <= j -> 4 * (i + Z.of_nat n) + 4 <= Z.of_nat (length hb) ->
  (forall x, i <= x < i + Z.of_nat n -> 0 <= blk x < 2 ^ 32) ->
  word_at (head_words n i blk hb) j =
    if decide (i < j <= i + Z.of_nat n) then blk (j - 1) else word_at hb j.
Proof.
  revert i hb. induction n as [|n IH]; intros i hb Hi Hj Hl Hb; simpl.
  { rewrite decide_False by lia. done. }
  rewrite IH; [|lia|lia|rewrite length_put_word; lia|intros; apply Hb; lia].
  case_decide; [rewrite decide_True by lia; done|].
  destruct (decide (j = i + 1)) as [->|].
  - rewrite decide_True by lia. replace (i + 1 - 1) with i by lia.
    apply word_at_put_word; [lia..|]. apply Hb. lia.
  - rewrite decide_False by lia. apply word_at_put_word_ne; lia.
Qed.

(** Where the blocks of a transaction may lie: not in the log. *)
Definition log_disjoint (st : Z) (L : list Z) : Prop :=
  0 <= st /\ st + Z.of_nat (length L) + 1 < 2 ^ 31 /\
  forall x, x ∈ L -> x < st \/ st + Z.of_nat (length L) < x.

Lemma head_block_word0 L hb :
  (length L <= 30)%nat -> Z.of_nat (length hb) = BSIZE ->
  (forall x, x ∈ L -> 0 <= x < 2 ^ 31) ->
  word_at (head_block L hb) 0 = Z.of_nat (length L).
Proof.
  unfold BSIZE. intros Hn Hl Hr. unfold head_block.
  rewrite word_at_head_words; [|lia|lia|rewrite length_put_word; lia|].
  - rewrite decide_False by lia. apply word_at_put_word; lia.
  - intros x Hx. assert (L !!! Z.to_nat x ∈ L) as Hin%Hr; [|lia].
    apply list_elem_of_lookup_total_2. lia.
Qed.

Lemma head_list_block L hb :
  (length L <= 30)%nat -> Z.of_nat (length hb) = BSIZE ->
  (forall x, x ∈ L -> 0 <= x < 2 ^ 31) ->
  head_list (head_block L hb) = L.
Proof.
  intros Hn Hl Hr. unfold head_list. rewrite head_block_word0 by done.
  rewrite i32_small by lia. apply list_eq. intros i. rewrite list_lookup_fmap.
  destruct (decide (i < length L)%nat).
  - rewrite lookup_seqZ_lt by lia. simpl. unfold BSIZE in Hl.
    assert (Hin : forall x, (x < length L)%nat -> 0 <= L !!! x < 2 ^ 31).
    { intros x Hx. apply Hr, list_elem_of_lookup_total_2. done. }
    unfold head_block. rewrite word_at_head_words; [|lia|lia|rewrite length_put_word; lia|].
    + rewrite decide_True by lia. match goal with |- context [L !!! ?n] => replace n with i by lia end.
      rewrite i32_small by (specialize (Hin i); lia). symmetry. by apply list_lookup_lookup_total_lt.
    + intros x Hx. specialize (Hin (Z.to_nat x) ltac:(lia)). lia.
  - rewrite !lookup_ge_None_2; [done|lia|rewrite length_seqZ; lia].
Qed.

Lemma head_list_nil hb : word_at hb 0 = 0 -> head_list hb = [].
Proof. intros E. unfold head_list. by rewrite E. Qed.

Lemma length_head_block L hb :
  (length L <= 30)%nat -> Z.of_nat (length hb) = BSIZE -> length (head_block L hb) = length hb.
Proof.
  unfold BSIZE. intros. unfold head_block.
  rewrite length_head_words; rewrite ?length_put_word; lia.
Qed.

Lemma head_words_ext n i blk blk' hb :
  (forall x, i <= x < i + Z.of_nat n -> blk x = blk' x) ->
  head_words n i blk hb = head_words n i blk' hb.
Proof.
  revert i hb. induction n as [|n IH]; intros i hb E; simpl; [done|].
  rewrite (E i) by lia. apply IH. intros. apply E. lia.
Qed.

Section commit_spec.
Context {U : Type}.

Lemma size_small (H P : gset Z) (n : nat) :
  (size H + size P < n)%nat -> (size (H ∪ P) < n)%nat.
Proof. pose proof (size_union_le H P). lia. Qed.

Lemma list_set_size (L : list Z) n : (length L < n)%nat -> (size (list_to_set L : gset Z) < n)%nat.
Proof. pose proof (size_list_to_set_le L). lia. Qed.

Lemma log_writes_fst st V L i x : (log_writes st V L).*1 !! i = Some x -> x = st + Z.of_nat i + 1.
Proof.
  unfold log_writes. rewrite list_lookup_fmap, list_lookup_imap.
  destruct (L !! i); simpl; [|done]. by intros [= <-].
Qed.

Lemma log_writes_out st V L no n :
  (no <= st \/ st + Z.of_nat (length L) < no) -> no ∉ (take n (log_writes st V L)).*1.
Proof.
  intros Hno Hin. rewrite fmap_take in Hin. apply elem_of_take in Hin as (i & Hi & _).
  pose proof (lookup_lt_Some _ _ _ Hi) as Hlt. unfold log_writes in Hlt.
  rewrite length_fmap, length_imap in Hlt. apply log_writes_fst in Hi. lia.
Qed.

Lemma take_S_app {A} (l : list A) i x : l !! i = Some x -> take (S i) l = take i l ++ [x].
Proof. apply take_S_r. Qed.

(** The part of [lh_ok] that [write_head] uses. *)
Definition lh_len_ok (k : kst U) (L : list Z) : Prop :=
  lh_n (k_log k) = Z.of_nat (length L) /\
  forall i x, L !! i = Some x -> lh_block (k_log k) (Z.of_nat i) = x.

(** One block goes to the log. *)
Lemma wp_write_log_block (k : kst U) a V D hs L i x :
  lh_ok k L -> log_disjoint (log_start (k_log k)) L -> (length L < 30)%nat -> L !! i = Some x ->
  let to := log_start (k_log k) + Z.of_nat i + 1 in
  bt a V D hs ∅ ∅ (list_to_set L) ->
  wp (write_log_block (Z.of_nat i)) (fun _ k' a' => k' = k /\
     bt a' (<[to := V x]> V) (<[to := V x]> D) (hs ++ [(to, V x)]) ∅ ∅ (list_to_set L)) k a.
Proof.
  intros Hlh (Hst1 & Hst2 & Hst3) Hlen Hi to T.
  pose proof (lookup_lt_Some _ _ _ Hi) as Hlt.
  assert (Hx : x ∈ L) by (by eapply list_elem_of_lookup_2).
  pose proof (lh_range _ _ Hlh x Hx) as Hxr. pose proof (Hst3 x Hx) as Hx3.
  assert (Hto : to ∉ (list_to_set L : gset Z) /\ to <> x /\ 0 <= to < 2 ^ 31 /\ u32 to = to).
  { rewrite elem_of_list_to_set. unfold to. split; [|rewrite u32_small; lia].
    intros Hin%Hst3. lia. }
  unfold write_log_block. wp_steps. rewrite (lh_dev _ _ Hlh), (lh_u32 _ _ _ _ Hlh Hi).
  fold to. destruct Hto as (Hto1 & Hto2 & Hto3 & ->).
  eapply wp_bt_bread; [done|done|done|set_solver| |].
  { right. apply size_small. rewrite size_empty. by apply list_set_size. }
  intros a1 T1. wp_steps.
  eapply wp_bt_bread; [done|done|done|set_solver|left; by rewrite elem_of_list_to_set|].
  intros a2 T2. wp_steps. eapply wp_bt_data; [done|set_solver|done|]. wp_steps.
  eapply wp_bt_set; [done|set_solver|done|apply T|]. intros a3 T3. wp_steps.
  eapply wp_bt_bwrite; [done|set_solver|done|]. intros a4 T4. wp_steps.
  rewrite fn_lookup_insert in T4.
  eapply wp_bt_brelse; [done|set_solver|done|set_solver|]. intros a5 T5. wp_steps.
  eapply wp_bt_brelse; [done|set_solver|done|set_solver|]. intros a6 T6. split; [done|].
  replace (_ ∖ {[to]}) with (∅ : gset Z) in T6 by set_solver.
  replace (_ ∖ {[to]}) with (∅ : gset Z) in T6 by set_solver. done.
Qed.

Lemma wp_write_log (k : kst U) a V D hs L :
  lh_ok k L -> log_disjoint (log_start (k_log k)) L -> (length L < 30)%nat ->
  bt a V D hs ∅ ∅ (list_to_set L) ->
  let w := log_writes (log_start (k_log k)) V L in
  wp write_log (fun _ k' a' => k' = k /\
     bt a' (replay w V) (replay w D) (hs ++ w) ∅ ∅ (list_to_set L)) k a.
Proof.
  intros Hlh Hst Hlen T w. unfold write_log. wp_steps.
  rewrite (lh_len _ _ Hlh), Nat2Z.id.
  eapply (wp_kiter (fun i k' a' => k' = k /\
     bt a' (replay (take (Z.to_nat i) w) V) (replay (take (Z.to_nat i) w) D)
        (hs ++ take (Z.to_nat i) w) ∅ ∅ (list_to_set L))).
  - intros j k' a' Hj [-> T'].
    destruct (lookup_lt_is_Some_2 L (Z.to_nat j)) as [x Hx]; [lia|].
    assert (Hw : w !! Z.to_nat j = Some (log_start (k_log k) + j + 1, V x)).
    { unfold w, log_writes. rewrite list_lookup_imap, Hx. simpl. by rewrite Z2Nat.id by lia. }
    pose proof (wp_write_log_block k a' _ _ _ L (Z.to_nat j) x Hlh Hst Hlen Hx T') as Hb.
    rewrite Z2Nat.id in Hb by lia. eapply wp_mono; [apply Hb|].
    intros [] k1 a1 [-> T1]. split; [done|].
    assert (HV : replay (take (Z.to_nat j) w) V x = V x).
    { apply replay_out. apply log_writes_out. destruct Hst as (_ & _ & Hst).
      assert (x ∈ L) as Hin%Hst by (by eapply list_elem_of_lookup_2). lia. }
    rewrite HV in T1. replace (Z.to_nat (j + 1)) with (S (Z.to_nat j)) by lia.
    rewrite (take_S_r _ _ _ Hw), !replay_app, app_assoc. done.
  - intros k' a' [-> T']. split; [done|].
    replace (Z.to_nat (0 + Z.of_nat (length L))) with (length w) in T'
      by (unfold w, log_writes; rewrite length_imap; lia).
    by rewrite firstn_all in T'.
  - split; [done|]. simpl. by rewrite app_nil_r.
Qed.

(** The header block is rewritten with the list of the in-memory header. *)
Lemma wp_write_head (k : kst U) a V D hs P L :
  lh_len_ok k L -> log_dev (k_log k) = ROOTDEV -> 0 <= log_start (k_log k) < 2 ^ 31 ->
  (length L <= 30)%nat -> (size P < 30)%nat -> log_start (k_log k) ∉ P ->
  bt a V D hs ∅ ∅ P ->
  let st := log_start (k_log k) in
  let hb := head_block L (V st) in
  wp write_head (fun _ k' a' => k' = k /\
     bt a' (<[st := hb]> V) (<[st := hb]> D) (hs ++ [(st, hb)]) ∅ ∅ P) k a.
Proof.
  intros [Hn Hblk] Hdev Hst Hlen HP HstP T st hb. unfold write_head. wp_steps.
  rewrite Hdev, (u32_small (log_start _)) by lia. fold st.
  eapply wp_bt_bread; [done|done|done|set_solver| |].
  { right. apply size_small. rewrite size_empty. change NBUFn with 30%nat. lia. }
  intros a1 T1. wp_steps. eapply wp_bt_data; [done|set_solver|done|]. wp_steps.
  assert (Hhb : head_words (Z.to_nat (lh_n (k_log k))) 0 (lh_block (k_log k))
                  (put_word (V st) 0 (lh_n (k_log k))) = hb).
  { rewrite Hn, Nat2Z.id. unfold hb, head_block. apply head_words_ext. intros x Hx.
    rewrite <- (Z2Nat.id x) at 1 by lia. apply Hblk.
    apply list_lookup_lookup_total_lt. lia. }
  rewrite Hhb.
  eapply wp_bt_set; [done|set_solver|done| |].
  { unfold hb. rewrite length_head_block; [apply T|done|apply T]. }
  intros a2 T2. wp_steps. eapply wp_bt_bwrite; [done|set_solver|done|]. intros a3 T3. wp_steps.
  rewrite fn_lookup_insert in T3.
  eapply wp_bt_brelse; [done|set_solver|done|set_solver|]. intros a4 T4. split; [done|].
  replace (_ ∖ {[st]}) with (∅ : gset Z) in T4 by set_solver. done.
Qed.

(** One block is installed at home. *)
Lemma wp_install_block (recovering : bool) (k : kst U) a V D hs L P i x :
  lh_ok k L -> log_disjoint (log_start (k_log k)) L -> L !! i = Some x ->
  (size P < 30)%nat -> (recovering = true -> P = ∅) -> (recovering = false -> x ∈ P) ->
  let from := log_start (k_log k) + Z.of_nat i + 1 in
  from ∉ P ->
  bt a V D hs ∅ ∅ P ->
  wp (install_block recovering (Z.of_nat i)) (fun _ k' a' => k' = k /\
     bt a' (<[x := V from]> V) (<[x := V from]> D) (hs ++ [(x, V from)]) ∅ ∅ (P ∖ {[x]})) k a.
Proof.
  intros Hlh (Hst1 & Hst2 & Hst3) Hi HP Hrec Hnrec from Hfrom T.
  pose proof (lookup_lt_Some _ _ _ Hi) as Hlt.
  assert (Hx : x ∈ L) by (by eapply list_elem_of_lookup_2).
  pose proof (lh_range _ _ Hlh x Hx) as Hxr. pose proof (Hst3 x Hx) as Hx3.
  assert (Hf : from <> x /\ 0 <= from < 2 ^ 31 /\ u32 from = from)
    by (unfold from; rewrite u32_small; lia).
  unfold install_block. wp_steps. rewrite (lh_dev _ _ Hlh), (lh_u32 _ _ _ _ Hlh Hi).
  fold from. destruct Hf as (Hf1 & Hf2 & ->).
  eapply wp_bt_bread; [done|done|done|set_solver| |].
  { right. apply size_small. rewrite size_empty. change NBUFn with 30%nat. lia. }
  intros a1 T1. wp_steps.
  eapply wp_bt_bread; [done|done|done|set_solver| |].
  { destruct recovering; [right|left; by apply Hnrec].
    rewrite (Hrec eq_refl), !union_empty_r_L, size_singleton. change NBUFn with 30%nat. lia. }
  intros a2 T2. wp_steps. eapply wp_bt_data; [done|set_solver|done|]. wp_steps.
  eapply wp_bt_set; [done|set_solver|done|apply T|]. intros a3 T3. wp_steps.
  eapply wp_bt_bwrite; [done|set_solver|done|]. intros a4 T4. wp_steps.
  rewrite fn_lookup_insert in T4.
  replace (_ ∖ {[x]}) with (∅ : gset Z) in T4 by set_solver.
  assert (Hend : forall a', bt a' (<[x:=V from]> V) (<[x:=V from]> D) (hs ++ [(x, V from)])
                    ({[x]} ∪ ({[from]} ∪ ∅)) ∅ (P ∖ {[x]}) ->
     wp (_ ← kbrelse (BufId ROOTDEV from); kbrelse (BufId ROOTDEV x))
        (fun _ k' a' => k' = k /\ bt a' (<[x := V from]> V) (<[x := V from]> D)
                                 (hs ++ [(x, V from)]) ∅ ∅ (P ∖ {[x]})) k a').
  { intros a' T'. wp_steps.
    eapply wp_bt_brelse; [done|set_solver|done|set_solver|]. intros a6 T6. wp_steps.
    eapply wp_bt_brelse; [done|set_solver|done|set_solver|]. intros a7 T7. split; [done|].
    replace (_ ∖ {[x]}) with (∅ : gset Z) in T7 by set_solver. done. }
  destruct recovering.
  - apply wp_ret, Hend. rewrite (Hrec eq_refl) in *.
    by replace (∅ ∖ {[x]}) with (∅ : gset Z) by set_solver.
  - eapply wp_bt_unpin; [done|set_solver|by apply Hnrec|done|by rewrite !fn_lookup_insert|].
    intros a5 T5. by apply Hend.
Qed.

Lemma home_writes_fst st V L : (home_writes st V L).*1 = L.
Proof.
  unfold home_writes. rewrite fmap_imap. apply list_eq. intros i.
  rewrite list_lookup_imap. by destruct (L !! i).
Qed.

Lemma wp_install_trans (recovering : bool) (k : kst U) a V D hs L P :
  lh_ok k L -> log_disjoint (log_start (k_log k)) L -> (length L < 30)%nat ->
  P = (if recovering then ∅ else list_to_set L) ->
  bt a V D hs ∅ ∅ P ->
  let w := home_writes (log_start (k_log k)) V L in
  wp (install_trans recovering) (fun _ k' a' => k' = k /\
     bt a' (replay w V) (replay w D) (hs ++ w) ∅ ∅ ∅) k a.
Proof.
  intros Hlh Hst Hlen HP T w. unfold install_trans. wp_steps.
  rewrite (lh_len _ _ Hlh), Nat2Z.id.
  eapply (wp_kiter (fun i k' a' => k' = k /\
     bt a' (replay (take (Z.to_nat i) w) V) (replay (take (Z.to_nat i) w) D)
        (hs ++ take (Z.to_nat i) w) ∅ ∅
        (if recovering then ∅ else list_to_set (drop (Z.to_nat i) L)))).
  - intros j k' a' Hj [-> T'].
    destruct (lookup_lt_is_Some_2 L (Z.to_nat j)) as [x Hx]; [lia|].
    assert (Hw : w !! Z.to_nat j = Some (x, V (log_start (k_log k) + j + 1))).
    { unfold w, home_writes. rewrite list_lookup_imap, Hx. simpl. by rewrite Z2Nat.id by lia. }
    assert (Hdrop : drop (Z.to_nat j) L = x :: drop (S (Z.to_nat j)) L) by (by apply drop_S).
    pose proof (wp_install_block recovering k a' (replay (take (Z.to_nat j) w) V)
      (replay (take (Z.to_nat j) w) D) (hs ++ take (Z.to_nat j) w) L
      (if recovering then ∅ else list_to_set (drop (Z.to_nat j) L)) (Z.to_nat j) x Hlh Hst Hx) as Hb.
    cbv zeta in Hb. rewrite Z2Nat.id in Hb by lia.
    assert (HV : replay (take (Z.to_nat j) w) V (log_start (k_log k) + j + 1)
                 = V (log_start (k_log k) + j + 1)).
    { apply replay_out. rewrite fmap_take. unfold w. rewrite home_writes_fst.
      intros Hin. apply elem_of_take in Hin as (i & Hi & _). destruct Hst as (_ & _ & Hst).
      assert (log_start (k_log k) + j + 1 ∈ L) as Hin%Hst by (by eapply list_elem_of_lookup_2). lia. }
    rewrite HV in Hb. eapply wp_mono; [apply Hb; [..|done]|].
    + destruct recovering; [rewrite size_empty; lia|]. apply list_set_size. rewrite length_drop. lia.
    + by intros ->.
    + intros ->. rewrite Hdrop. set_solver.
    + destruct recovering; [set_solver|]. rewrite elem_of_list_to_set. intros Hin.
      apply list_elem_of_lookup in Hin as (i & Hi). rewrite lookup_drop in Hi. destruct Hst as (_ & _ & Hst).
      assert (log_start (k_log k) + j + 1 ∈ L) as Hin%Hst by (by eapply list_elem_of_lookup_2). lia.
    + intros [] k1 a1 [-> T1]. split; [done|].
      replace (Z.to_nat (j + 1)) with (S (Z.to_nat j)) by lia.
      rewrite (take_S_r _ _ _ Hw), !replay_app, app_assoc.
      destruct recovering; [by replace (∅ ∖ {[x]}) with (∅ : gset Z) in T1 by set_solver|].
      rewrite Hdrop in T1. simpl in T1.
      assert (Hnx : x ∉ drop (S (Z.to_nat j)) L).
      { pose proof (lh_nodup _ _ Hlh) as Hd. rewrite <- (take_drop (Z.to_nat j) L), Hdrop in Hd.
        apply NoDup_app in Hd as (_ & _ & Hd). by apply NoDup_cons in Hd as [? _]. }
      replace (({[x]} ∪ list_to_set (drop (S (Z.to_nat j)) L)) ∖ {[x]})
        with (list_to_set (drop (S (Z.to_nat j)) L) : gset Z) in T1; [done|].
      apply set_eq. intros y. rewrite elem_of_difference, elem_of_union, elem_of_singleton,
        elem_of_list_to_set. naive_solver.
  - intros k' a' [-> T']. split; [done|].
    replace (Z.to_nat (0 + Z.of_nat (length L))) with (length w) in T' at 1 2 3
      by (unfold w, home_writes; rewrite length_imap; lia).
    rewrite firstn_all in T'. rewrite (drop_ge L) in T' by lia. by destruct recovering.
  - split; [done|]. simpl. rewrite app_nil_r. by destruct recovering; subst.
Qed.

End commit_spec.

