(* ===== verification/LogCrash.v ===== *)
(** Commit and recovery of kernel/log.c as sequences of disk writes, and what a
    crash in the middle of either leaves behind. *)

From S2P Require Import Prelude BufCache BufSpec KState Log.
Local Open Scope Z_scope.

(** The disk writes of a commit of the blocks [L], in order. *)
Definition commit_writes (st : Z) (V : Z -> bytes) (L : list Z) : list (Z * bytes) :=
  log_writes st V L ++ (st, head_block L (V st)) ::
  ((fun x => (x, V x)) <$> L) ++ [(st, head_block [] (head_block L (V st)))].

(** The disk writes of a recovery. *)
Definition recovery_writes (st : Z) (D : Z -> bytes) : list (Z * bytes) :=
  home_writes st D (head_list (D st)) ++ [(st, head_block [] (D st))].

(** A header [recover_from_log] can act on. *)
Definition head_wf (st : Z) (hb : bytes) : Prop :=
  0 <= i32 (word_at hb 0) < 30 /\ NoDup (head_list hb) /\
  (forall x, x ∈ head_list hb -> 0 <= x < 2 ^ 31) /\ log_disjoint st (head_list hb).

Lemma length_head_list hb : 0 <= i32 (word_at hb 0) ->
  Z.of_nat (length (head_list hb)) = i32 (word_at hb 0).
Proof. intros. unfold head_list. rewrite length_fmap, length_seqZ. lia. Qed.

Lemma log_writes_nodup st V L : NoDup (log_writes st V L).*1.
Proof.
  apply NoDup_alt. intros i j x Hi Hj. apply log_writes_fst in Hi, Hj. lia.
Qed.

Lemma log_writes_lookup st V L i x D :
  L !! i = Some x -> replay (log_writes st V L) D (st + Z.of_nat i + 1) = V x.
Proof.
  intros Hi. eapply (replay_in _ _ i); [apply log_writes_nodup|].
  unfold log_writes. by rewrite list_lookup_imap, Hi.
Qed.

(** After the log is written the home writes are those of the blocks. *)
Lemma home_writes_logged st V L hb :
  home_writes st (<[st := hb]> (replay (log_writes st V L) V)) L = (fun x => (x, V x)) <$> L.
Proof.
  apply list_eq. intros i. unfold home_writes. rewrite list_lookup_imap, list_lookup_fmap.
  destruct (L !! i) as [x|] eqn:Hi; simpl; [|done].
  rewrite fn_lookup_insert_ne by lia. by rewrite (log_writes_lookup _ _ _ _ x).
Qed.

Section commit_spec2.
Context {U : Type}.

Lemma wp_commit (k : kst U) a V D hs L :
  lh_ok k L -> log_disjoint (log_start (k_log k)) L -> (length L < 30)%nat -> L <> [] ->
  bt a V D hs ∅ ∅ (list_to_set L) ->
  let w := commit_writes (log_start (k_log k)) V L in
  wp commit (fun _ k' a' => k' = set_k_log (set_lh_n 0 (k_log k)) k /\
     bt a' (replay w V) (replay w D) (hs ++ w) ∅ ∅ ∅) k a.
Proof.
  intros Hlh Hst Hlen Hne T w. unfold commit. wp_steps.
  rewrite (lh_len _ _ Hlh). destruct (Z.gtb_spec (Z.of_nat (length L)) 0) as [_|Hle].
  2: { destruct L; [done|]. simpl in Hle. lia. }
  set (st := log_start (k_log k)) in *.
  pose proof Hst as (Hst1 & Hst2 & Hst3).
  wp_steps. eapply wp_mono; [by apply wp_write_log|]. fold st. intros [] k1 a1 [-> T1].
  assert (Hst4 : forall n (V' : Z -> bytes), replay (take n (log_writes st V L)) V' st = V' st).
  { intros n V'. apply replay_out, log_writes_out. lia. }
  assert (Hst5 : forall V' : Z -> bytes, replay (log_writes st V L) V' st = V' st).
  { intros V'. rewrite <- (firstn_all (log_writes st V L)). apply Hst4. }
  assert (HstL : st ∉ (list_to_set L : gset Z)).
  { rewrite elem_of_list_to_set. intros Hin%Hst3. lia. }
  wp_steps. eapply wp_mono.
  { refine (wp_write_head k a1 _ _ _ (list_to_set L) L _ _ _ _ _ _ T1); [|apply Hlh|fold st; lia|lia| |done].
    - split; apply Hlh.
    - by apply list_set_size. }
  fold st. rewrite Hst5. intros [] k2 a2 [-> T2].
  wp_steps. eapply wp_mono; [by refine (wp_install_trans false _ _ _ _ _ L (list_to_set L) Hlh Hst Hlen eq_refl T2)|].
  fold st. rewrite home_writes_logged. intros [] k3 a3 [-> T3].
  unfold log_mod. wp_steps. eapply wp_mono.
  { refine (wp_write_head _ _ _ _ _ _ [] _ _ _ _ _ _ T3); [done|apply Hlh|simpl; fold st; lia|simpl; lia| |set_solver].
    rewrite size_empty. lia. }
  intros [] k4 a4 [-> T4]. split; [done|]. simpl in T4. fold st in T4.
  assert (E : replay ((fun x => (x, V x)) <$> L)
     (<[st:=head_block L (V st)]> (replay (log_writes st V L) V)) st = head_block L (V st)).
  { rewrite replay_out; [apply fn_lookup_insert|].
    rewrite <- list_fmap_compose. rewrite elem_of_list_to_set in HstL.
    intros (y & -> & Hy)%list_elem_of_fmap. done. }
  rewrite E in T4. unfold w, commit_writes.
  replace (hs ++ _) with (((hs ++ log_writes st V L) ++ [(st, head_block L (V st))]) ++
    ((fun x => (x, V x)) <$> L) ++ [(st, head_block [] (head_block L (V st)))])
    by (by rewrite <- !app_assoc).
  rewrite !replay_app. simpl. rewrite !replay_app. simpl. rewrite app_assoc. exact T4.
Qed.

Lemma wp_read_head (k : kst U) a V D hs P :
  let st := log_start (k_log k) in
  log_dev (k_log k) = ROOTDEV -> 0 <= st < 2 ^ 31 -> st ∉ P -> (size P < 30)%nat ->
  0 <= i32 (word_at (V st) 0) ->
  bt a V D hs ∅ ∅ P ->
  wp read_head (fun _ k' a' => (exists n blk, k' = with_lh n blk k) /\
     lh_len_ok k' (head_list (V st)) /\ bt a' V D hs ∅ ∅ P) k a.
Proof.
  intros st Hdev Hst HstP HP Hn T. unfold read_head. wp_steps.
  rewrite Hdev, (u32_small (log_start _)) by (fold st; lia). fold st.
  eapply wp_bt_bread; [done|done|done|set_solver| |].
  { right. apply size_small. rewrite size_empty. change NBUFn with 30%nat. lia. }
  intros a1 T1. wp_steps. eapply wp_bt_data; [done|set_solver|done|].
  set (hb := V st) in *. unfold log_mod. wp_steps.
  eapply (wp_kiter (fun i k' a' => a' = a1 /\ exists blk, k' = with_lh (i32 (word_at hb 0)) blk k /\
      forall j, 0 <= j < i -> blk j = i32 (word_at hb (j + 1)))).
  - intros j k' a' Hj [-> (blk & -> & Hblk)]. unfold log_mod. wp_steps. split; [done|].
    eexists. split; [reflexivity|]. simpl. intros i Hi. destruct (decide (i = j)) as [->|].
    + by rewrite fn_lookup_insert.
    + rewrite fn_lookup_insert_ne by done. apply Hblk. lia.
  - intros k' a' [-> (blk & -> & Hblk)]. wp_steps.
    eapply wp_bt_brelse; [done|set_solver|done|set_solver|]. intros a2 T2.
    split; [by do 2 eexists|]. split.
    + split; simpl; [by rewrite length_head_list|]. intros i x Hi. unfold head_list in Hi.
      rewrite list_lookup_fmap in Hi. destruct (seqZ 0 _ !! i) as [y|] eqn:Hy; simplify_eq/=.
      apply lookup_seqZ in Hy as [-> Hy]. apply Hblk. lia.
    + by replace (_ ∖ {[st]}) with (∅ : gset Z) in T2 by set_solver.
  - split; [done|]. eexists. split; [reflexivity|]. intros j Hj. lia.
Qed.

Lemma wp_recover (k : kst U) a D hs :
  let st := log_start (k_log k) in
  log_dev (k_log k) = ROOTDEV -> 0 <= st < 2 ^ 31 -> head_wf st (D st) ->
  bt a D D hs ∅ ∅ ∅ ->
  let w := recovery_writes st D in
  wp recover_from_log (fun _ k' a' => (exists blk, k' = with_lh 0 blk k) /\
     bt a' (replay w D) (replay w D) (hs ++ w) ∅ ∅ ∅) k a.
Proof.
  intros st Hdev Hst (Hn & Hnd & Hr & Hdis) T w. unfold recover_from_log. wp_steps.
  eapply wp_mono; [refine (wp_read_head k a D D hs ∅ Hdev Hst _ _ _ T); [apply not_elem_of_empty|rewrite size_empty; lia|fold st; lia]|].
  fold st. intros [] k1 a1 ((n & blk & ->) & Hlh & T1).
  assert (Hlh' : lh_ok (with_lh n blk k) (head_list (D st))).
  { destruct Hlh. by split. }
  pose proof (length_head_list (D st) ltac:(lia)) as Hlen.
  wp_steps. eapply wp_mono.
  { refine (wp_install_trans true _ _ _ _ _ _ ∅ Hlh' _ _ eq_refl T1); [done|lia]. }
  simpl. fold st. intros [] k2 a2 [-> T2]. unfold log_mod. wp_steps.
  eapply wp_mono.
  { refine (wp_write_head _ _ _ _ _ _ [] _ _ _ _ _ _ T2); [done|done|simpl; fold st; lia|simpl; lia| |set_solver].
    rewrite size_empty. lia. }
  simpl. fold st. intros [] k3 a3 [-> T3]. split; [by eexists|].
  assert (E : replay (home_writes st D (head_list (D st))) D st = D st).
  { apply replay_out. rewrite home_writes_fst. intros Hin. apply Hdis in Hin. lia. }
  rewrite E in T3. unfold w, recovery_writes. rewrite !replay_app, app_assoc. exact T3.
Qed.

End commit_spec2.

(** * Crashes *)

(** Blocks outside a log of [n] slots whose header is block [st]. *)
Definition outside (st : Z) (n : nat) (no : Z) : Prop := no < st \/ st + Z.of_nat n < no.

(** The disk once recovery has run on [D]. *)
Definition recovered (st : Z) (D : Z -> bytes) : Z -> bytes := replay (recovery_writes st D) D.

Definition disk_ok (D : Z -> bytes) : Prop := forall no, Z.of_nat (length (D no)) = BSIZE.

Lemma replay_disk_ok w D :
  disk_ok D -> Forall (fun e => Z.of_nat (length e.2) = BSIZE) w -> disk_ok (replay w D).
Proof.
  intros HD Hw. revert D HD. induction Hw as [|[x d] w Hd _ IH]; intros D HD; simpl; [done|].
  apply IH. intros no. unfold insert, fn_insert. case_decide; [done|apply HD].
Qed.

Lemma log_writes_len st V L :
  disk_ok V -> Forall (fun e => Z.of_nat (length e.2) = BSIZE) (log_writes st V L).
Proof.
  intros HV. apply Forall_lookup_2. intros i [no d] Hi. unfold log_writes in Hi.
  rewrite list_lookup_imap in Hi. destruct (L !! i); simplify_eq/=. apply HV.
Qed.

Lemma home_writes_len st V L :
  disk_ok V -> Forall (fun e => Z.of_nat (length e.2) = BSIZE) (home_writes st V L).
Proof.
  intros HV. apply Forall_lookup_2. intros i [no d] Hi. unfold home_writes in Hi.
  rewrite list_lookup_imap in Hi. destruct (L !! i); simplify_eq/=. apply HV.
Qed.

Lemma recovery_writes_len st D :
  disk_ok D -> Forall (fun e => Z.of_nat (length e.2) = BSIZE) (recovery_writes st D).
Proof.
  intros HD. apply Forall_app. split; [by apply home_writes_len|].
  constructor; [|done]. simpl. rewrite length_head_block; [apply HD|simpl; lia|apply HD].
Qed.

Lemma commit_writes_len st V L :
  disk_ok V -> (length L <= 30)%nat ->
  Forall (fun e => Z.of_nat (length e.2) = BSIZE) (commit_writes st V L).
Proof.
  intros HV HL.
  assert (Hb : Z.of_nat (length (head_block L (V st))) = BSIZE)
    by (rewrite length_head_block; [apply HV|done|apply HV]).
  unfold commit_writes. apply Forall_app. split; [by apply log_writes_len|].
  constructor; [done|]. apply Forall_app. split.
  - apply Forall_fmap, Forall_true. intros x. apply HV.
  - constructor; [|done]. simpl. rewrite length_head_block; [done|simpl; lia|done].
Qed.

Lemma head_block_nil hb : Z.of_nat (length hb) = BSIZE -> word_at (head_block [] hb) 0 = 0.
Proof.
  intros Hl. apply (head_block_word0 []); [simpl; lia|done|]. intros x Hx. by apply not_elem_of_nil in Hx.
Qed.

Lemma recovered_clean st D no :
  word_at (D st) 0 = 0 -> no <> st -> recovered st D no = D no.
Proof.
  intros H0 Hno. unfold recovered, recovery_writes. rewrite head_list_nil by done. simpl.
  by apply fn_lookup_insert_ne.
Qed.

Lemma recovered_logged st D V L no :
  head_list (D st) = L -> log_disjoint st L -> NoDup L ->
  (forall i x, L !! i = Some x -> D (st + Z.of_nat i + 1) = V x) ->
  (no ∉ L -> D no = V no) -> outside st (length L) no ->
  recovered st D no = V no.
Proof.
  intros HL (Hst1 & Hst2 & Hst3) Hnd Hs Hc Ho. unfold recovered, recovery_writes.
  rewrite replay_app, HL. simpl. unfold outside in Ho. rewrite fn_lookup_insert_ne by lia.
  destruct (decide (no ∈ L)) as [Hin|Hin].
  - apply list_elem_of_lookup in Hin as (i & Hi). eapply (replay_in _ _ i).
    + by rewrite home_writes_fst.
    + unfold home_writes. rewrite list_lookup_imap, Hi. simpl. by rewrite (Hs i no Hi).
  - rewrite replay_out; [by apply Hc|]. by rewrite home_writes_fst.
Qed.

(** The writes of a recovery only depend on the log. *)
Lemma recovery_writes_ext st D D' :
  D' st = D st -> (forall i, (i < length (head_list (D st)))%nat ->
     D' (st + Z.of_nat i + 1) = D (st + Z.of_nat i + 1)) ->
  recovery_writes st D' = recovery_writes st D.
Proof.
  intros E Es. unfold recovery_writes. rewrite E. f_equal.
  unfold home_writes. apply imap_ext. intros i x Hi. f_equal. apply Es. by eapply lookup_lt_Some.
Qed.

Lemma prefix_snoc {A} (w1 w2 w : list A) x :
  w1 ++ w2 = w ++ [x] -> w1 = w ++ [x] \/ exists n, w1 = take n w.
Proof.
  intros E. destruct w2 as [|y w2 _] using rev_ind.
  - left. by rewrite app_nil_r in E.
  - right. rewrite app_assoc in E. apply app_inj_tail in E as [<- _].
    exists (length w1). by rewrite take_app_length.
Qed.

(** Whatever prefix of its writes a recovery has done, recovering again gives
    the disk the first recovery was about to give. *)
Lemma recovered_prefix st D w1 w2 :
  disk_ok D -> head_wf st (D st) -> w1 ++ w2 = recovery_writes st D ->
  let D1 := replay w1 D in
  head_wf st (D1 st) /\ (length (head_list (D1 st)) <= length (head_list (D st)))%nat /\
  forall no, outside st (length (head_list (D st))) no -> recovered st D1 no = recovered st D no.
Proof.
  intros HD Hwf E D1. pose proof Hwf as (Hn & Hnd & Hr & Hst1 & Hst2 & Hst3).
  unfold recovery_writes in E. apply prefix_snoc in E as [E|[n E]]; unfold D1; clear D1; subst w1.
  - fold (recovery_writes st D). fold (recovered st D).
    assert (H0 : word_at (recovered st D st) 0 = 0).
    { unfold recovered, recovery_writes. rewrite replay_app. simpl.
      rewrite fn_lookup_insert. apply head_block_nil, HD. }
    split; [|split].
    + unfold head_wf. rewrite (head_list_nil _ H0), H0. split; [done|]. split; [constructor|].
      split; [intros ? []%not_elem_of_nil|]. unfold log_disjoint. simpl.
      split; [lia|]. split; [lia|]. intros ? []%not_elem_of_nil.
    + rewrite (head_list_nil _ H0). simpl. lia.
    + intros no Ho. apply recovered_clean; [done|]. unfold outside in Ho. lia.
  - set (w := take n _).
    assert (Hw : forall no, no ∈ w.*1 -> no ∈ head_list (D st)).
    { intros no Hin. unfold w in Hin. rewrite fmap_take, home_writes_fst in Hin.
      by apply elem_of_take in Hin as (i & Hi%list_elem_of_lookup_2 & _). }
    assert (Est : replay w D st = D st).
    { apply replay_out. intros Hin%Hw%Hst3. lia. }
    assert (Erw : recovery_writes st (replay w D) = recovery_writes st D).
    { apply recovery_writes_ext; [done|]. intros i Hi. apply replay_out.
      intros Hin%Hw%Hst3. lia. }
    rewrite Est. split; [done|]. split; [done|]. intros no Ho. unfold recovered. rewrite Erw.
    unfold recovery_writes. rewrite !replay_app. simpl. unfold outside in Ho.
    rewrite !fn_lookup_insert_ne by lia.
    destruct (decide (no ∈ head_list (D st))) as [Hin|Hin].
    + apply list_elem_of_lookup in Hin as (i & Hi).
      rewrite !(replay_in _ _ i no (D (st + Z.of_nat i + 1))); rewrite ?home_writes_fst; try done;
        unfold home_writes; by rewrite list_lookup_imap, Hi.
    + rewrite !(replay_out (home_writes _ _ _)) by (by rewrite home_writes_fst).
      apply replay_out. intros Hin'. by apply Hin, Hw.
Qed.

Lemma head_wf_nil st hb : 0 <= st -> st + 1 < 2 ^ 31 -> word_at hb 0 = 0 -> head_wf st hb.
Proof.
  intros Hst1 Hst2 Hb. unfold head_wf. rewrite (head_list_nil _ Hb), Hb. split; [done|].
  split; [constructor|]. split; [intros ? []%not_elem_of_nil|].
  split; [lia|]. simpl. split; [lia|]. intros ? []%not_elem_of_nil.
Qed.

Lemma home_keys (V : Z -> bytes) L : ((fun x => (x, V x)) <$> L).*1 = L.
Proof. induction L as [|x L IH]; simpl; [done|]. by f_equal. Qed.

(** A prefix of the writes of a commit ends before or after the header write. *)
Lemma commit_split st V L w1 w2 :
  w1 ++ w2 = commit_writes st V L ->
  ((length w1 <= length L)%nat /\ exists n, w1 = take n (log_writes st V L)) \/
  ((length L < length w1)%nat /\ exists w,
     w1 = (log_writes st V L ++ [(st, head_block L (V st))]) ++ w /\
     w ++ w2 = ((fun x => (x, V x)) <$> L) ++ [(st, head_block [] (head_block L (V st)))]).
Proof.
  intros E. assert (Hl : length (log_writes st V L) = length L) by apply length_imap.
  destruct (decide (length w1 <= length L)%nat) as [Hw|Hw]; [left|right]; (split; [lia|]).
  - exists (length w1). rewrite <- (take_app_length w1 w2), E at 1. unfold commit_writes.
    by rewrite take_app_le by lia.
  - unfold commit_writes in E. change (?x :: ?l) with ([x] ++ l) in E. rewrite app_assoc in E.
    assert (El : length (log_writes st V L ++ [(st, head_block L (V st))]) = S (length L))
      by (rewrite length_app, Hl; simpl; lia).
    exists (drop (S (length L)) w1). split.
    + rewrite <- (take_drop (S (length L)) w1) at 1. f_equal.
      rewrite <- (take_app_le w1 w2) by lia. rewrite E, <- El. apply take_app_length.
    + rewrite <- (drop_app_le w1 w2) by lia. rewrite E, <- El. apply drop_app_length.
Qed.

Section commit_crash.
Context (st : Z) (V D : Z -> bytes) (L : list Z).
Context (HV : disk_ok V) (HD : disk_ok D) (Hnd : NoDup L).
Context (Hr : forall x, x ∈ L -> 0 <= x < 2 ^ 31) (Hlen : (length L < 30)%nat).
Context (Hdis : log_disjoint st L) (H0 : word_at (D st) 0 = 0).
Context (Hc : forall no, no ∉ L -> V no = D no).

(** Before the header write the log is empty and the blocks are the old ones. *)
Lemma commit_before n :
  let D1 := replay (take n (log_writes st V L)) D in
  head_wf st (D1 st) /\ (length (head_list (D1 st)) <= length L)%nat /\
  forall no, outside st (length L) no -> recovered st D1 no = D no.
Proof using All.
  pose proof Hdis as (Hst1 & Hst2 & Hst3). set (w := take n _).
  assert (Eo : forall no, (no <= st \/ st + Z.of_nat (length L) < no) -> replay w D no = D no).
  { intros no Ho. by apply replay_out, log_writes_out. }
  cbv zeta. rewrite (Eo st) by lia. split; [apply head_wf_nil; [lia..|done]|].
  split; [rewrite head_list_nil by done; simpl; lia|].
  intros no Ho. unfold outside in Ho. rewrite recovered_clean; [apply Eo; lia| |lia].
  rewrite Eo by lia. done.
Qed.

(** The disk right after the header write. *)
Definition committed : Z -> bytes := <[st := head_block L (V st)]> (replay (log_writes st V L) D).

Lemma committed_head : head_list (committed st) = L.
Proof using All.
  unfold committed. rewrite fn_lookup_insert. apply head_list_block; [lia|apply HV|done].
Qed.

Lemma committed_slot i x : L !! i = Some x -> committed (st + Z.of_nat i + 1) = V x.
Proof. intros Hi. unfold committed. rewrite fn_lookup_insert_ne by lia. by apply log_writes_lookup. Qed.

Lemma committed_out no : outside st (length L) no -> no ∉ L -> committed no = V no.
Proof using All.
  intros Ho Hin. unfold outside in Ho. unfold committed. rewrite fn_lookup_insert_ne by lia.
  rewrite replay_out; [by rewrite Hc|].
  rewrite <- (firstn_all (log_writes st V L)). apply log_writes_out. lia.
Qed.

(** After the header write recovery gives the new blocks. *)
Lemma commit_after w w2 :
  w ++ w2 = ((fun x => (x, V x)) <$> L) ++ [(st, head_block [] (head_block L (V st)))] ->
  let D1 := replay w committed in
  head_wf st (D1 st) /\ (length (head_list (D1 st)) <= length L)%nat /\
  forall no, outside st (length L) no -> recovered st D1 no = V no.
Proof using All.
  intros E. pose proof Hdis as (Hst1 & Hst2 & Hst3).
  assert (HstL : st ∉ L) by (intros Hin%Hst3; lia).
  apply prefix_snoc in E as [->|[n ->]]; cbv zeta.
  - assert (Hz : word_at (head_block [] (head_block L (V st))) 0 = 0).
    { apply head_block_nil. rewrite length_head_block; [apply HV|lia|apply HV]. }
    rewrite replay_app. simpl. rewrite fn_lookup_insert. split; [apply head_wf_nil; [lia..|done]|].
    split; [rewrite head_list_nil by done; simpl; lia|].
    intros no Ho. assert (no <> st) by (unfold outside in Ho; lia).
    rewrite recovered_clean, fn_lookup_insert_ne; [|lia|by rewrite fn_lookup_insert|done].
    destruct (decide (no ∈ L)) as [Hin|Hin].
    + apply list_elem_of_lookup in Hin as (i & Hi). eapply (replay_in _ _ i); [by rewrite home_keys|].
      by rewrite list_lookup_fmap, Hi.
    + rewrite replay_out by (by rewrite home_keys). by apply committed_out.
  - set (w := take n _).
    assert (Hw : forall y, y ∈ w.*1 -> y ∈ L).
    { intros y Hy. unfold w in Hy. rewrite fmap_take, home_keys in Hy.
      by apply elem_of_take in Hy as (i & Hi%list_elem_of_lookup_2 & _). }
    assert (Est : replay w committed st = committed st) by (apply replay_out; auto).
    rewrite Est, committed_head. split; [|split; [done|]].
    + unfold head_wf. rewrite committed_head. split; [|done]. unfold committed.
      rewrite fn_lookup_insert, head_block_word0 by (done || lia || apply HV). rewrite i32_small; lia.
    + intros no Ho. eapply recovered_logged; [rewrite Est; apply committed_head|done|done|..|done].
      * intros i x Hi. rewrite replay_out; [by apply committed_slot|].
        intros Hin%Hw%Hst3. apply lookup_lt_Some in Hi. lia.
      * intros Hin. rewrite replay_out; [by apply committed_out|auto].
Qed.

Lemma commit_prefix w1 w2 :
  w1 ++ w2 = commit_writes st V L ->
  let D1 := replay w1 D in
  head_wf st (D1 st) /\ (length (head_list (D1 st)) <= length L)%nat /\
  forall no, outside st (length L) no ->
    recovered st D1 no = if decide (length w1 <= length L)%nat then D no else V no.
Proof using All.
  intros [[Hw [n ->]]|[Hw (w & -> & E)]]%commit_split; cbv zeta.
  - destruct (commit_before n) as (H1 & H2 & H3). split; [done|]. split; [done|].
    intros no Ho. rewrite decide_True by done. by apply H3.
  - rewrite replay_app, (replay_app (log_writes _ _ _)). simpl.
    destruct (commit_after w w2 E) as (H1 & H2 & H3). split; [done|]. split; [done|].
    intros no Ho. rewrite decide_False by lia. by apply H3.
Qed.

End commit_crash.

(** * Reboots *)

Section reboot.
Context {U : Type} (k0 : kst U) (sb : superblock).

(** [reboots D D']: starting from the disk [D] the machine boots and runs
    [initlog]; it crashes any number of times between two disk writes; the boot
    that succeeds leaves the disk [D']. *)
Inductive reboots : (Z -> bytes) -> (Z -> bytes) -> Prop :=
| reboot_up D k a :
    krun (initlog ROOTDEV sb) k0 (boot_abio D) = Done ((tt, k), a) ->
    reboots D (a_disk a)
| reboot_crash D k a w1 w2 D' :
    krun (initlog ROOTDEV sb) k0 (boot_abio D) = Done ((tt, k), a) ->
    a_hist a = w1 ++ w2 ->
    reboots (replay w1 D) D' ->
    reboots D D'.

Lemma boot_bt D : disk_ok D -> bt (boot_abio D) D D [] ∅ ∅ ∅.
Proof.
  intros HD. by split.
Qed.

Lemma wp_initlog D :
  0 <= sb_logstart sb < 2 ^ 31 -> disk_ok D -> head_wf (sb_logstart sb) (D (sb_logstart sb)) ->
  let w := recovery_writes (sb_logstart sb) D in
  wp (initlog ROOTDEV sb) (fun _ k' a' =>
     (lh_n (k_log k') = 0 /\ log_start (k_log k') = sb_logstart sb /\
      log_size (k_log k') = i32 (sb_nlog sb) /\ log_dev (k_log k') = ROOTDEV /\
      log_outstanding (k_log k') = log_outstanding (k_log k0) /\
      log_committing (k_log k') = log_committing (k_log k0)) /\
     bt a' (replay w D) (replay w D) w ∅ ∅ ∅) k0 (boot_abio D).
Proof.
  intros Hst HD Hwf w. unfold initlog, log_mod.
  change (4 * (1 + LOGSIZE) >=? BSIZE) with false. cbv match. wp_steps.
  set (k1 := set_k_log _ _).
  assert (E : log_start (k_log k1) = sb_logstart sb) by (simpl; apply i32_small; lia).
  eapply wp_mono.
  { refine (wp_recover k1 _ D [] _ _ _ (boot_bt D HD)); rewrite ?E; done. }
  rewrite E. intros [] k' a' [[blk ->] T]. by split.
Qed.

(** Crashing during recovery loses nothing and adds nothing. *)
Lemma reboots_recovered D D' :
  0 <= sb_logstart sb < 2 ^ 31 -> disk_ok D -> head_wf (sb_logstart sb) (D (sb_logstart sb)) ->
  reboots D D' ->
  forall no, outside (sb_logstart sb) (length (head_list (D (sb_logstart sb)))) no ->
  D' no = recovered (sb_logstart sb) D no.
Proof.
  intros Hst HD Hwf R. induction R as [D k a E|D k a w1 w2 D' E Eh R IH].
  - pose proof (wp_initlog D Hst HD Hwf) as W. unfold wp in W. rewrite E in W.
    destruct W as [_ T]. intros no _. apply T.
  - pose proof (wp_initlog D Hst HD Hwf) as W. unfold wp in W. rewrite E in W.
    destruct W as [_ T]. rewrite (bt_hist _ _ _ _ _ _ _ T) in Eh.
    destruct (recovered_prefix _ D w1 w2 HD Hwf (eq_sym Eh)) as (H1 & H2 & H3).
    assert (HD1 : disk_ok (replay w1 D)).
    { apply replay_disk_ok; [done|]. pose proof (recovery_writes_len (sb_logstart sb) D HD) as Hf.
      rewrite Eh in Hf. by apply Forall_app in Hf as [? _]. }
    intros no Ho. rewrite IH; [by apply H3|done|done|]. unfold outside in *. lia.
Qed.

Lemma reboots_exist D :
  0 <= sb_logstart sb < 2 ^ 31 -> disk_ok D -> head_wf (sb_logstart sb) (D (sb_logstart sb)) ->
  exists D', reboots D D'.
Proof.
  intros Hst HD Hwf. destruct (wp_krun _ _ _ _ (wp_initlog D Hst HD Hwf)) as ([] & k & a & E & _).
  eexists. by eapply reboot_up.
Qed.

End reboot.
