(* ===== verification/LogSystem.v ===== *)
(** kernel/log.c as a system of concurrent transactions: what [begin_op],
    [log_write] and [end_op] guarantee whatever the interleaving of calls, and
    the properties of the log. *)

From S2P Require Import Prelude BufCache BufSpec KState Log LogCrash.
Local Open Scope Z_scope.

(** * The log as a system of transactions *)

Section system.
Context {U : Type}.

Lemma bt_tx0 (k : kst U) a V D hs :
  lh_n (k_log k) = 0 -> log_dev (k_log k) = ROOTDEV -> bt a V D hs ∅ ∅ ∅ -> tx k a V D hs ∅ ∅ [].
Proof.
  intros Hn Hd T. split; [done|]. split; simpl; try done; [constructor|].
  intros ? []%not_elem_of_nil.
Qed.

(** The writes a commit of [L] does: none when nothing was logged. *)
Definition commits (st : Z) (V : Z -> bytes) (L : list Z) : list (Z * bytes) :=
  match L with [] => [] | _ => commit_writes st V L end.

Lemma wp_commit_any (k : kst U) a V D hs L :
  tx k a V D hs ∅ ∅ L -> log_disjoint (log_start (k_log k)) L -> (length L < 30)%nat ->
  let w := commits (log_start (k_log k)) V L in
  wp commit (fun _ k' a' => (k' = k \/ k' = set_k_log (set_lh_n 0 (k_log k)) k) /\
     tx k' a' (replay w V) (replay w D) (hs ++ w) ∅ ∅ []) k a.
Proof.
  intros [T Hlh] Hdis Hlen. destruct L as [|x L].
  - simpl. unfold commit. wp_steps. rewrite (lh_len _ _ Hlh). simpl.
    apply wp_ret. rewrite app_nil_r. split; [by left|done].
  - eapply wp_mono; [by apply (wp_commit k a V D hs (x :: L))|].
    intros [] k' a' [-> T']. split; [by right|]. apply bt_tx0; [done|apply Hlh|done].
Qed.

(** The last [end_op] commits. *)
Lemma wp_end_op_last (k : kst U) a V D hs L :
  tx k a V D hs ∅ ∅ L -> log_disjoint (log_start (k_log k)) L -> (length L < 30)%nat ->
  log_outstanding (k_log k) = 1 -> log_committing (k_log k) = 0 ->
  let w := commits (log_start (k_log k)) V L in
  wp end_op (fun _ k' a' =>
     (log_outstanding (k_log k') = 0 /\ log_committing (k_log k') = 0 /\
      log_start (k_log k') = log_start (k_log k) /\ log_size (k_log k') = log_size (k_log k)) /\
     tx k' a' (replay w V) (replay w D) (hs ++ w) ∅ ∅ []) k a.
Proof.
  intros [T Hlh] Hdis Hlen Ho Hc w. unfold end_op, log_mod. wp_steps. rewrite Hc, Ho. simpl. wp_steps.
  eapply wp_mono.
  { apply (wp_commit_any _ a V D hs L); [|done|done]. split; [done|]. destruct Hlh. by split. }
  intros [] k' a' [Hk T']. wp_steps. destruct T' as [T' []]. by destruct Hk as [-> | ->].
Qed.

(** Another [end_op] leaves the transaction open. *)
Lemma wp_end_op_more (k : kst U) a (Q : unit -> kst U -> abio -> Prop) :
  log_outstanding (k_log k) <> 1 -> log_committing (k_log k) = 0 ->
  Q tt (set_k_log (set_outstanding (log_outstanding (k_log k) - 1) (k_log k)) k) a ->
  wp end_op Q k a.
Proof.
  intros Ho Hc HQ. unfold end_op, log_mod. wp_steps. rewrite Hc. simpl.
  rewrite (proj2 (Z.eqb_neq _ _)) by lia. by apply wp_ret.
Qed.

(** Log one block: what a file-system call does to each block it changes. *)
Definition log_block (no : Z) (d : bytes) : K U unit :=
  b ← kbread ROOTDEV no; kset_data b d;; log_write b;; kbrelse b.

(** Outstanding operations, each with the number of blocks it has logged. *)
Record lsys := LSys { s_k : kst U; s_a : abio; s_ops : list nat }.

(** Blocks of the file system proper: not the log area. *)
Definition home_block (l : log) (no : Z) : Prop :=
  0 <= no < 2 ^ 31 /\ (no < log_start l \/ log_start l + LOGSIZE < no).

(** Processes interleave whole calls; each stays within [MAXOPBLOCKS] writes. *)
Inductive lstep : lsys -> lsys -> Prop :=
| lstep_begin k a ops k' a' :
    krun begin_op k a = Done ((tt, k'), a') ->
    lstep (LSys k a ops) (LSys k' a' (ops ++ [0%nat]))
| lstep_log k a ops i n no d k' a' :
    ops !! i = Some n -> Z.of_nat n < MAXOPBLOCKS -> home_block (k_log k) no ->
    Z.of_nat (length d) = BSIZE ->
    krun (log_block no d) k a = Done ((tt, k'), a') ->
    lstep (LSys k a ops) (LSys k' a' (<[i := S n]> ops))
| lstep_end k a ops i n k' a' :
    ops !! i = Some n -> krun end_op k a = Done ((tt, k'), a') ->
    lstep (LSys k a ops) (LSys k' a' (delete i ops)).

(** What [initlog] leaves. *)
Definition lsys_init (s : lsys) : Prop :=
  exists D hs, bt (s_a s) D D hs ∅ ∅ ∅ /\ s_ops s = [] /\
  lh_n (k_log (s_k s)) = 0 /\ log_outstanding (k_log (s_k s)) = 0 /\
  log_committing (k_log (s_k s)) = 0 /\ log_dev (k_log (s_k s)) = ROOTDEV /\
  0 <= log_start (k_log (s_k s)) < 2 ^ 30 /\ 2 <= log_size (k_log (s_k s)) <= LOGSIZE.

(** Blocks the outstanding operations may still log. *)
Fixpoint budget (ops : list nat) : Z :=
  match ops with
  | [] => 0
  | n :: ops => (MAXOPBLOCKS - Z.of_nat n) + budget ops
  end.

Lemma budget_app ops ops' : budget (ops ++ ops') = budget ops + budget ops'.
Proof. induction ops as [|n ops IH]; simpl; lia. Qed.

Lemma budget_insert ops i n :
  ops !! i = Some n -> budget (<[i := S n]> ops) = budget ops - 1.
Proof.
  revert i. induction ops as [|m ops IH]; intros [|i] Hi; simplify_eq/=; [lia|].
  rewrite (IH i) by done. lia.
Qed.

Lemma budget_delete ops i n :
  ops !! i = Some n -> budget (delete i ops) = budget ops - (MAXOPBLOCKS - Z.of_nat n).
Proof.
  revert i. induction ops as [|m ops IH]; intros [|i] Hi; simplify_eq/=; [lia|].
  rewrite (IH i) by done. lia.
Qed.

Definition in_budget (n : nat) : Prop := Z.of_nat n <= MAXOPBLOCKS.

Lemma budget_pos ops : Forall in_budget ops -> 0 <= budget ops.
Proof. unfold in_budget. induction 1; simpl; lia. Qed.

Lemma in_budget_delete ops i : Forall in_budget ops -> Forall in_budget (delete i ops).
Proof.
  rewrite !Forall_forall. intros Hf n Hn. by apply Hf, list_elem_of_delete_inv with i.
Qed.

Record linv (s : lsys) (V D : Z -> bytes) (hs : list (Z * bytes)) (L : list Z) : Prop := {
  li_tx : tx (s_k s) (s_a s) V D hs ∅ ∅ L;
  li_out : log_outstanding (k_log (s_k s)) = Z.of_nat (length (s_ops s));
  li_com : log_committing (k_log (s_k s)) = 0;
  li_home : forall x, x ∈ L -> home_block (k_log (s_k s)) x;
  li_room : Z.of_nat (length L) + budget (s_ops s) <= LOGSIZE;
  li_ops : Forall in_budget (s_ops s);
  li_len : (length L < 30)%nat;
  li_start : 0 <= log_start (k_log (s_k s)) < 2 ^ 30;
  li_size : 2 <= log_size (k_log (s_k s)) <= LOGSIZE;
}.


Lemma linv_disjoint s V D hs L :
  linv s V D hs L -> log_disjoint (log_start (k_log (s_k s))) L.
Proof.
  intros I. pose proof (li_start _ _ _ _ _ I). pose proof (li_len _ _ _ _ _ I).
  split; [lia|]. split; [lia|]. intros x Hx%(li_home _ _ _ _ _ I).
  unfold home_block, LOGSIZE, MAXOPBLOCKS in Hx. lia.
Qed.

Lemma wp_done {A} (m : K U A) Q k a x k' a' :
  wp m Q k a -> krun m k a = Done ((x, k'), a') -> Q x k' a'.
Proof. unfold wp. by intros H E; rewrite E in H. Qed.

(** [begin_op] reserves room, or waits. *)
Lemma begin_op_run (k : kst U) a :
  log_committing (k_log k) = 0 ->
  krun begin_op k a =
    if lh_n (k_log k) + (log_outstanding (k_log k) + 1) * MAXOPBLOCKS >? LOGSIZE then Asleep
    else Done ((tt, set_k_log (set_outstanding (log_outstanding (k_log k) + 1) (k_log k)) k), a).
Proof.
  intros Hc. unfold krun, begin_op. unfold mbind, K_bind, kget. simpl. rewrite Hc. simpl.
  by destruct (_ >? _).
Qed.

Lemma wp_log_block (k : kst U) a V D hs L no d :
  tx k a V D hs ∅ ∅ L -> room k L 1 -> (length L < 30)%nat ->
  0 <= no < 2 ^ 31 -> Z.of_nat (length d) = BSIZE ->
  wp (log_block no d) (fun _ k' a' => (exists n blk, k' = with_lh n blk k) /\
     tx k' a' (<[no := d]> V) D hs ∅ ∅ (log_add L no)) k a.
Proof.
  intros T Hr Hlen Hno Hd. unfold log_block. wp_steps.
  eapply wp_tx_bread; [done|done|done|set_solver| |].
  { right. rewrite size_empty. change NBUFn with 30%nat. lia. }
  intros a1 T1. wp_steps. eapply wp_tx_set; [done|set_solver|done|done|]. intros a2 T2. wp_steps.
  eapply wp_tx_log_write; [done|set_solver|done|done|]. intros n blk a3 T3. wp_steps.
  eapply wp_tx_brelse; [done|set_solver|done|set_solver|]. intros a4 T4.
  split; [by do 2 eexists|].
  replace (({[no]} ∪ ∅) ∖ {[no]}) with (∅ : gset Z) in T4 by set_solver.
  by replace (({[no]} ∪ ∅) ∖ {[no]}) with (∅ : gset Z) in T4 by set_solver.
Qed.

(** Without room [log_write] panics, even if the block is already logged. *)
Lemma log_block_full (k : kst U) a V D hs L no d :
  tx k a V D hs ∅ ∅ L -> (length L < 30)%nat -> 0 <= no < 2 ^ 31 -> Z.of_nat (length d) = BSIZE ->
  log_size (k_log k) - 1 <= Z.of_nat (length L) ->
  krun (log_block no d) k a = Panicked "too big a transaction".
Proof.
  intros T Hlen Hno Hd Hfull. unfold log_block. rewrite krun_bind.
  assert (W : wp (kbread ROOTDEV no) (fun b k' a' => k' = k /\ b = BufId ROOTDEV no /\
                  tx k a' V D hs ({[no]} ∪ ∅) ∅ L) k a).
  { eapply wp_tx_bread; [done|done|done|set_solver| |done].
    right. rewrite size_empty. change NBUFn with 30%nat. lia. }
  apply wp_krun in W as (b & k1 & a1 & -> & -> & -> & T1). simpl. rewrite krun_bind.
  assert (W : wp (kset_data (BufId ROOTDEV no) d) (fun _ k' a' => k' = k) k a1)
    by (eapply wp_tx_set; [done|set_solver|done..]).
  apply wp_krun in W as ([] & k2 & a2 & -> & ->). simpl. rewrite krun_bind.
  unfold log_write at 1. rewrite krun_bind. simpl.
  rewrite (lh_len k L) by apply T. rewrite (Z.geb_leb _ (log_size _ - 1)), (proj2 (Z.leb_le _ _)) by lia.
  by rewrite orb_true_r.
Qed.

Lemma linv_begin k a ops V D hs L k' a' :
  linv (LSys k a ops) V D hs L -> krun begin_op k a = Done ((tt, k'), a') ->
  linv (LSys k' a' (ops ++ [0%nat])) V D hs L.
Proof.
  intros [T Ho Hc Hh Hr Hf Hl Hst Hsz] E. simpl in *. rewrite begin_op_run in E by done.
  destruct (Z.gtb_spec (lh_n (k_log k) + (log_outstanding (k_log k) + 1) * MAXOPBLOCKS) LOGSIZE)
    as [|Hroom]; simplify_eq/=.
  rewrite (lh_len k L) in Hroom by apply T. destruct T as [T []].
  split; simpl; try done.
  - rewrite length_app. simpl. lia.
  - rewrite budget_app. simpl. rewrite Ho in Hroom.
    assert (budget ops <= MAXOPBLOCKS * Z.of_nat (length ops)); [|unfold MAXOPBLOCKS in *; lia].
    clear. induction ops; simpl; lia.
  - apply Forall_app. split; [done|]. constructor; [|done]. unfold in_budget, MAXOPBLOCKS. lia.
Qed.

Lemma linv_log k a ops i n no d V D hs L k' a' :
  linv (LSys k a ops) V D hs L -> ops !! i = Some n -> Z.of_nat n < MAXOPBLOCKS ->
  home_block (k_log k) no -> Z.of_nat (length d) = BSIZE ->
  krun (log_block no d) k a = Done ((tt, k'), a') ->
  linv (LSys k' a' (<[i := S n]> ops)) (<[no := d]> V) D hs (log_add L no).
Proof.
  intros [T Ho Hc Hh Hr Hf Hl Hst Hsz] Hi Hn Hno Hd E. simpl in *.
  assert (Hfit : Z.of_nat (length L) < log_size (k_log k) - 1).
  { destruct (decide (log_size (k_log k) - 1 <= Z.of_nat (length L))); [|lia].
    by rewrite (log_block_full k a V D hs L no d) in E by (done || apply Hno). }
  pose proof (lookup_lt_Some _ _ _ Hi) as Hlt.
  assert (Hroom : room k L 1) by (unfold room; rewrite Ho; lia).
  destruct (wp_done _ _ _ _ _ _ _ (wp_log_block k a V D hs L no d T Hroom Hl (proj1 Hno) Hd) E)
    as ((n' & blk & ->) & T'). pose proof (log_add_length L no) as Hla.
  assert (Hop : Forall in_budget (<[i:=S n]> ops)).
  { apply Forall_insert; [done|]. unfold in_budget. lia. }
  pose proof (budget_insert _ _ _ Hi).
  split; simpl; try done.
  - by rewrite length_insert.
  - intros x [Hx|Hx]%log_add_elem; subst; [by apply Hh|done].
  - lia.
  - unfold LOGSIZE, MAXOPBLOCKS in *. lia.
Qed.

Lemma linv_end k a ops i n V D hs L :
  linv (LSys k a ops) V D hs L -> ops !! i = Some n ->
  wp end_op (fun _ k' a' => exists V' D' hs' L', linv (LSys k' a' (delete i ops)) V' D' hs' L') k a.
Proof.
  intros I Hi. pose proof (linv_disjoint _ _ _ _ _ I) as Hdis.
  destruct I as [T Ho Hc Hh Hr Hf Hl Hst Hsz]. simpl in *.
  pose proof (lookup_lt_Some _ _ _ Hi) as Hlt.
  assert (Hin : in_budget n) by (by eapply Forall_lookup_1 in Hf).
  assert (Hlen : length (delete i ops) = (length ops - 1)%nat) by (by rewrite length_delete).
  pose proof (budget_delete _ _ _ Hi) as Hbud. unfold in_budget in Hin.
  pose proof (in_budget_delete ops i Hf) as Hf'.
  destruct (decide (log_outstanding (k_log k) = 1)) as [H1|H1].
  - eapply wp_mono; [by apply (wp_end_op_last k a V D hs L)|].
    intros [] k' a' [(Ho' & Hc' & Hst' & Hsz') T']. do 3 eexists. exists [].
    split; simpl; [exact T'|rewrite Ho'; lia|done|intros ? []%not_elem_of_nil|lia|done|lia|lia|lia].
  - apply wp_end_op_more; [done|done|]. exists V, D, hs, L. destruct T as [T []].
    split; simpl; try done; [rewrite Hlen; lia|lia].
Qed.

Lemma linv_init s : lsys_init s -> exists V D hs L, linv s V D hs L.
Proof.
  intros (D & hs & T & Hops & Hn & Ho & Hc & Hd & Hst & Hsz). exists D, D, hs, [].
  split; rewrite ?Hops; simpl; try done; [by apply bt_tx0|intros ? []%not_elem_of_nil|lia].
Qed.

Lemma linv_reach s s' : lsys_init s -> rtc lstep s s' -> exists V D hs L, linv s' V D hs L.
Proof.
  intros Hi R. apply linv_init in Hi. induction R as [|s s1 s' Hstep _ IH]; [done|]. apply IH. clear IH.
  destruct Hi as (V & D & hs & L & I). destruct Hstep.
  - do 4 eexists. by eapply linv_begin.
  - do 4 eexists. by eapply linv_log.
  - eapply (wp_done _ _ _ _ _ _ _ (linv_end _ _ _ _ _ _ _ _ _ I H) H0).
Qed.

End system.

(** * Properties *)

(** C1: commits are crash-atomic.  Run [commit] on a transaction that logged the
    blocks [L] (values [V], disk [D], empty header on disk); cut the disk writes
    it does at any point, and let the machine reboot, crashing any number of
    times during recovery: [initlog] always returns, and every block outside the
    log holds its old value if the crash came before the header write, its new
    value if it came after. *)
Theorem commit_crash_atomic {U : Type} (k k0 : kst U) (sb : superblock) a V D hs L :
  tx k a V D hs ∅ ∅ L -> disk_ok D -> sb_logstart sb = log_start (k_log k) ->
  log_disjoint (sb_logstart sb) L -> (length L < 30)%nat ->
  word_at (D (sb_logstart sb)) 0 = 0 ->
  exists w, wp commit (fun _ _ a' => a_hist a' = hs ++ w) k a /\
    forall w1 w2, w1 ++ w2 = w ->
      (exists D', reboots k0 sb (replay w1 D) D') /\
      forall D' no, reboots k0 sb (replay w1 D) D' -> outside (sb_logstart sb) (length L) no ->
        D' no = if decide (length w1 <= length L)%nat then D no else V no.
Proof.
  intros T HD Hst Hdis Hlen H0. pose proof T as [Tb Hlh]. rewrite Hst in *.
  set (st := log_start (k_log k)) in *. pose proof Hdis as (Hst1 & Hst2 & _).
  exists (commits st V L). split.
  { eapply wp_mono; [by apply (wp_commit_any k a V D hs L)|].
    intros [] k' a' [_ [T' _]]. by rewrite (bt_hist _ _ _ _ _ _ _ T'). }
  intros w1 w2 E.
  assert (HV : disk_ok V) by exact (bt_len _ _ _ _ _ _ _ Tb).
  assert (Hc : forall no, no ∉ L -> V no = D no).
  { intros no Hno. apply Tb; [by rewrite elem_of_list_to_set|apply not_elem_of_empty]. }
  assert (P : disk_ok (replay w1 D) /\ head_wf st (replay w1 D st) /\
     (length (head_list (replay w1 D st)) <= length L)%nat /\
     forall no, outside st (length L) no ->
       recovered st (replay w1 D) no = if decide (length w1 <= length L)%nat then D no else V no).
  { destruct L as [|x L].
    - apply app_nil in E as [-> ->]. simpl. split; [done|]. split; [apply head_wf_nil; lia|].
      split; [by rewrite head_list_nil|]. intros no Ho. apply recovered_clean; [done|].
      unfold outside in Ho. lia.
    - split.
      + apply replay_disk_ok; [done|].
        pose proof (commit_writes_len st V (x :: L) HV ltac:(lia)) as Hf.
        simpl in E. rewrite <- E in Hf. by apply Forall_app in Hf as [? _].
      + eapply (commit_prefix st V D (x :: L)); try done; apply Hlh. }
  destruct P as (HD1 & Hwf & Hle & Hrec). split.
  - apply reboots_exist; rewrite ?Hst; done || lia.
  - intros D' no R Ho. rewrite (reboots_recovered k0 sb _ D' ltac:(lia)) by
      (rewrite ?Hst; first [done|unfold outside in *; lia]).
    rewrite Hst. by apply Hrec.
Qed.

(** C2: the last [end_op] of a group makes it durable: it returns, the log is
    empty again and not committing, and every block outside the log is on disk
    with the value the transactions gave it. *)
Theorem end_op_durable {U : Type} (k : kst U) a V D hs L :
  tx k a V D hs ∅ ∅ L -> log_disjoint (log_start (k_log k)) L -> (length L < 30)%nat ->
  log_outstanding (k_log k) = 1 -> log_committing (k_log k) = 0 ->
  wp end_op (fun _ k' a' =>
    lh_n (k_log k') = 0 /\ log_outstanding (k_log k') = 0 /\ log_committing (k_log k') = 0 /\
    a_held a' = ∅ /\ a_refs a' = ∅ /\
    forall no, outside (log_start (k_log k)) (length L) no ->
      a_disk a' no = V no /\ a_view a' no = V no) k a.
Proof.
  intros T Hdis Hlen Ho Hc. pose proof T as [Tb Hlh]. pose proof Hdis as (Hst1 & Hst2 & Hst3).
  eapply wp_mono; [by apply (wp_end_op_last k a V D hs L)|].
  intros [] k' a' [(Ho' & Hc' & _) [T' Hlh']].
  split; [apply Hlh'|]. split; [done|]. split; [done|]. split; [apply T'|]. split.
  { apply map_eq. intros no. rewrite (bt_refs _ _ _ _ _ _ _ T'). by rewrite lookup_empty. }
  intros no Hno. rewrite (bt_view _ _ _ _ _ _ _ T'), (bt_disk _ _ _ _ _ _ _ T').
  set (w := commits _ _ _).
  assert (E : replay w D no = V no /\ replay w V no = V no); [|done].
  assert (HDV : no ∉ L -> D no = V no).
  { intros Hn. symmetry. apply Tb; [by rewrite elem_of_list_to_set|apply not_elem_of_empty]. }
  unfold w, commits. destruct L as [|x L]; [split; [apply HDV, not_elem_of_nil|done]|].
  set (L' := x :: L) in *. clearbody L'. unfold outside in Hno.
  assert (G : forall F : Z -> bytes, (no ∉ L' -> F no = V no) ->
     replay (commit_writes (log_start (k_log k)) V L') F no = V no); [|split; apply G; auto].
  intros F HF. unfold commit_writes. rewrite replay_app. simpl. rewrite replay_app. simpl.
  rewrite fn_lookup_insert_ne by lia. destruct (decide (no ∈ L')) as [Hin|Hin].
  - apply list_elem_of_lookup in Hin as (i & Hi). eapply (replay_in _ _ i).
    + rewrite home_keys. apply Hlh.
    + by rewrite list_lookup_fmap, Hi.
  - rewrite replay_out, fn_lookup_insert_ne by (rewrite ?home_keys; done || lia).
    rewrite <- (firstn_all (log_writes _ _ _)), replay_out; [by apply HF|apply log_writes_out; lia].
Qed.


(** Three processes begin; each then logs ten blocks of its own. *)
Definition three_ops {U : Type} : K U unit :=
  begin_op;; begin_op;; begin_op;;
  kiter 30 100 (fun no => log_block no (zeros BSIZE)).

(** A kernel state right after [initlog] on a file system whose superblock has
    [nlog = LOGSIZE] and [logstart = 2]. *)
Definition fresh_log : log := Log 2 LOGSIZE 0 0 ROOTDEV 0 (fun _ => 0).
Definition fresh_lock : sleeplock := SleepLock false 0.
Definition fresh_inode : inode := Inode 0 0 0 fresh_lock false 0 0 0 0 0 [].
Definition fresh_file : file := File FD_NONE 0 false false 0 0 0 0.
Definition fresh_ext : kext := KExt ∅ [] false (fun _ => 0).
Definition fresh_sb : superblock := Superblock FSMAGIC 2000 1954 200 LOGSIZE 2 32 45.
Definition fresh_kst {U : Type} (u : U) : kst U :=
  Kst fresh_sb fresh_log (fun _ => fresh_inode) (fun _ => fresh_file) 1 [] 0 u [] fresh_ext.
Definition fresh_disk : Z -> bytes := fun _ => zeros BSIZE.

(** With a log of [LOGSIZE] blocks, three concurrent operations that
    [begin_op] admitted and that each log ten blocks make [log_write] panic:
    [begin_op] lets the outstanding operations log [LOGSIZE] blocks, and
    [log_write] stops at [log.size - 1]. *)
Theorem log_overflow_panics :
  krun three_ops (fresh_kst tt) (boot_abio fresh_disk) = Panicked "too big a transaction".
Proof. vm_compute. reflexivity. Qed.

(** ** Concrete instances *)

Definition new_block : bytes := put (zeros BSIZE) 0 [1; 2; 3].
Definition sample_view : Z -> bytes := <[100 := new_block]> fresh_disk.

(** One operation is outstanding and has logged block 100. *)
Definition sample_k : kst unit :=
  set_k_log (Log 2 LOGSIZE 1 0 ROOTDEV 1 (fun _ => 100)) (fresh_kst tt).
Definition sample_a : abio := ABio sample_view fresh_disk {[100 := 1%nat]} ∅ [].

Lemma fresh_disk_ok : disk_ok fresh_disk.
Proof. intros no. unfold fresh_disk. by rewrite length_zeros. Qed.

Lemma sample_tx : tx sample_k sample_a sample_view fresh_disk [] ∅ ∅ [100].
Proof.
  split; split; simpl; try done.
  - intros no. unfold refs_of. rewrite decide_False by set_solver.
    destruct (decide (no = 100)) as [->|].
    + by rewrite lookup_singleton_eq, decide_True by set_solver.
    + by rewrite lookup_singleton_ne, decide_False by set_solver.
  - intros no. unfold sample_view. destruct (decide (no = 100)) as [->|].
    + by rewrite fn_lookup_insert.
    + rewrite fn_lookup_insert_ne by done. apply fresh_disk_ok.
  - intros no Hno _. apply fn_lookup_insert_ne. set_solver.
  - intros [|i] x Hi; simplify_eq/=; done.
  - apply NoDup_singleton.
  - intros x ->%list_elem_of_singleton. lia.
Qed.

Lemma sample_disjoint : log_disjoint 2 [100].
Proof. split; [done|]. split; [done|]. intros x ->%list_elem_of_singleton. simpl. lia. Qed.

(** The crash comes right after the header write: block 100 has its new value. *)
Lemma commit_crash_atomic_witness :
  exists w, wp commit (fun _ _ a' => a_hist a' = [] ++ w) sample_k sample_a /\
    forall w1 w2 D', w1 ++ w2 = w -> length w1 = 2%nat ->
      reboots (fresh_kst tt) fresh_sb (replay w1 fresh_disk) D' -> D' 100 = new_block.
Proof.
  destruct (commit_crash_atomic sample_k (fresh_kst tt) fresh_sb sample_a sample_view fresh_disk
              [] [100] sample_tx fresh_disk_ok eq_refl sample_disjoint) as (w & Hw & Hc).
  - simpl. lia.
  - reflexivity.
  - exists w. split; [exact Hw|]. intros w1 w2 D' E Hl R.
    destruct (Hc w1 w2 E) as [_ Hd]. rewrite (Hd D' 100 R).
    + rewrite Hl. simpl. unfold sample_view. by rewrite fn_lookup_insert.
    + right. simpl. lia.
Defined.

Lemma end_op_durable_witness :
  wp end_op (fun _ k' a' => lh_n (k_log k') = 0 /\ a_disk a' 100 = new_block) sample_k sample_a.
Proof.
  eapply wp_mono.
  - apply (end_op_durable sample_k sample_a sample_view fresh_disk [] [100] sample_tx sample_disjoint);
      [simpl; lia|reflexivity|reflexivity].
  - intros [] k' a' (Hn & _ & _ & _ & _ & Hd). split; [exact Hn|].
    destruct (Hd 100) as [Hd' _]; [right; simpl; lia|]. rewrite Hd'. apply fn_lookup_insert.
Defined.

Definition fresh_sys : lsys (U := unit) := LSys (fresh_kst tt) (boot_abio fresh_disk) [].

Lemma fresh_sys_init : lsys_init fresh_sys.
Proof.
  exists fresh_disk, []. split; [apply boot_bt, fresh_disk_ok|]. simpl.
  split; [done|]. split; [done|]. split; [done|]. split; [done|]. split; [done|].
  split; [lia|]. unfold LOGSIZE, MAXOPBLOCKS. lia.
Qed.

