(* ===== verification/CString.v ===== *)
(** kernel/string.c.

    Memory is a function from addresses to bytes; a string argument that is only
    read is the function from offsets to bytes that its pointer stands for. *)

From S2P Require Import Prelude.
Local Open Scope Z_scope.

Abbreviation mem := (Z -> Z) (only parsing).

(** * Code *)

(** [for(i = 0; i < n; i++) cdst[i] = c;] *)
Fixpoint memset_loop (n : nat) (m : mem) (cdst i c : Z) : mem :=
  match n with
  | O => m
  | S n => memset_loop n (<[cdst + i := u8 c]> m) cdst (i + 1) c
  end.
Definition memset (m : mem) (dst c n : Z) : mem := memset_loop (Z.to_nat n) m dst 0 c.

Fixpoint memcmp_loop (n : nat) (s1 s2 : Z -> Z) (i : Z) : Z :=
  match n with
  | O => 0
  | S n => if s1 i =? s2 i then memcmp_loop n s1 s2 (i + 1) else s1 i - s2 i
  end.
Definition memcmp (v1 v2 : Z -> Z) (n : Z) : Z := memcmp_loop (Z.to_nat n) v1 v2 0.

(** [while(n-- > 0) *--d = *--s;] *)
Fixpoint copy_down (n : nat) (m : mem) (d s : Z) : mem :=
  match n with
  | O => m
  | S n => copy_down n (<[d - 1 := m (s - 1)]> m) (d - 1) (s - 1)
  end.
(** [while(n-- > 0) *d++ = *s++;] *)
Fixpoint copy_up (n : nat) (m : mem) (d s : Z) : mem :=
  match n with
  | O => m
  | S n => copy_up n (<[d := m s]> m) (d + 1) (s + 1)
  end.

Definition memmove (m : mem) (dst src n : Z) : mem :=
  if n =? 0 then m
  else if (src <? dst) && (src + n >? dst)
       then copy_down (Z.to_nat n) m (dst + n) (src + n)
       else copy_up (Z.to_nat n) m dst src.

Definition memcpy := memmove.

Fixpoint strncmp_loop (n : nat) (p q : Z -> Z) (i : Z) : Z :=
  match n with
  | O => 0
  | S n' => if negb (p i =? 0) && (p i =? q i) then strncmp_loop n' p q (i + 1) else p i - q i
  end.
Definition strncmp (p q : Z -> Z) (n : Z) : Z := strncmp_loop (Z.to_nat n) p q 0.

(** [while(n-- > 0) *s++ = 0;] *)
Fixpoint pad_loop (n : nat) (m : mem) (s : Z) : mem :=
  match n with
  | O => m
  | S n => pad_loop n (<[s := 0]> m) (s + 1)
  end.
(** [while(n-- > 0 && ( *s++ = *t++) != 0);] and then the padding. *)
Fixpoint strncpy_loop (n : nat) (m : mem) (s t : Z) : mem :=
  match n with
  | O => m
  | S n =>
      let m' := <[s := m t]> m in
      if m t =? 0 then pad_loop n m' (s + 1) else strncpy_loop n m' (s + 1) (t + 1)
  end.
Definition strncpy (m : mem) (s t n : Z) : mem := strncpy_loop (Z.to_nat n) m s t.

(** [while(--n > 0 && ( *s++ = *t++) != 0); *s = 0;] with [n] already
    decremented. *)
Fixpoint safestrcpy_loop (n : nat) (m : mem) (s t : Z) : mem :=
  match n with
  | O => <[s := 0]> m
  | S n =>
      let m' := <[s := m t]> m in
      if m t =? 0 then <[s + 1 := 0]> m' else safestrcpy_loop n m' (s + 1) (t + 1)
  end.
Definition safestrcpy (m : mem) (s t n : Z) : mem :=
  if n <=? 0 then m else safestrcpy_loop (Z.to_nat (n - 1)) m s t.

Fixpoint strlen (fuel : nat) (s : Z -> Z) (n : Z) : outcome Z :=
  match fuel with
  | O => OutOfFuel
  | S fuel => if s n =? 0 then Done n else strlen fuel s (n + 1)
  end.

(** * Specifications *)

(** [len] bytes of [src] as they were land at [dst], nothing else changes. *)
Definition moved (m : mem) (dst src len : Z) (x : Z) : Z :=
  if decide (dst <= x < dst + len) then m (src + (x - dst)) else m x.

Lemma fn_insert_cases (m : mem) a v x :
  (<[a := v]> m) x = if decide (x = a) then v else m x.
Proof. unfold insert, fn_insert. repeat case_decide; congruence. Qed.

Lemma copy_down_spec n m d s x :
  s <= d -> copy_down n m d s x = moved m (d - Z.of_nat n) (s - Z.of_nat n) (Z.of_nat n) x.
Proof.
  revert m d s. induction n as [|n IH]; intros m d s Hlt; cbn [copy_down]; unfold moved.
  { by rewrite decide_False by lia. }
  rewrite IH by lia. unfold moved. rewrite !fn_insert_cases.
  repeat case_decide; try lia; try (f_equal; lia); done.
Qed.

Lemma copy_up_spec n m d s x :
  d <= s \/ s + Z.of_nat n <= d -> copy_up n m d s x = moved m d s (Z.of_nat n) x.
Proof.
  revert m d s. induction n as [|n IH]; intros m d s Hlt; cbn [copy_up]; unfold moved.
  { by rewrite decide_False by lia. }
  rewrite IH by lia. unfold moved. rewrite !fn_insert_cases.
  repeat case_decide; try lia; try (f_equal; lia); done.
Qed.

Lemma memmove_moved m dst src n x : 0 <= n -> memmove m dst src n x = moved m dst src n x.
Proof.
  intros Hn. unfold memmove. destruct (Z.eqb_spec n 0) as [->|].
  { unfold moved. by rewrite decide_False by lia. }
  destruct (Z.ltb_spec src dst); simpl; [destruct (Z.gtb_spec (src + n) dst)|].
  - rewrite copy_down_spec by lia. rewrite Z2Nat.id by lia.
    by replace (dst + n - n) with dst by lia; replace (src + n - n) with src by lia.
  - rewrite copy_up_spec by lia. by rewrite Z2Nat.id by lia.
  - rewrite copy_up_spec by lia. by rewrite Z2Nat.id by lia.
Qed.

Lemma memset_loop_spec n m dst i c x :
  memset_loop n m dst i c x =
    if decide (dst + i <= x < dst + i + Z.of_nat n) then u8 c else m x.
Proof.
  revert m i. induction n as [|n IH]; intros m i; cbn [memset_loop].
  { by rewrite decide_False by lia. }
  rewrite IH, fn_insert_cases. repeat case_decide; done || lia.
Qed.

(** The prefixes of two strings agree up to [n] bytes or their common NUL. *)
Definition str_agree (p q : Z -> Z) (i n : Z) : Prop :=
  forall j, i <= j < n -> (forall h, i <= h < j -> p h <> 0) -> p j = q j.

Lemma strncmp_loop_spec n p q i :
  (strncmp_loop n p q i = 0 <-> str_agree p q i (i + Z.of_nat n)).
Proof.
  revert i. induction n as [|n IH]; intros i; cbn [strncmp_loop].
  { split; [|done]. intros _ j Hj. lia. }
  destruct (Z.eqb_spec (p i) 0) as [H0|H0]; simpl; [|destruct (Z.eqb_spec (p i) (q i)) as [Hq|Hq]].
  - split.
    + intros E j Hj Hh. destruct (decide (j = i)) as [->|]; [lia|].
      exfalso. apply (Hh i); [lia|done].
    + intros Ha. rewrite (Ha i) by lia. lia.
  - rewrite IH. split; intros Ha j Hj Hh.
    + destruct (decide (j = i)) as [->|]; [done|]. apply Ha; [lia|]. intros h Hl. apply Hh. lia.
    + apply Ha; [lia|]. intros h Hl. destruct (decide (h = i)) as [->|]; [done|]. apply Hh. lia.
  - split; [lia|]. intros Ha. rewrite (Ha i) by lia. lia.
Qed.

(** What a bounded copy of the string at [t] puts [i] bytes after the start:
    the byte, or zero once a NUL has been met. *)
Definition str_byte (m : mem) (t i : Z) : Z :=
  if decide (Forall (fun j => m (t + j) <> 0) (seqZ 0 i)) then m (t + i) else 0.

Lemma str_byte_0 m t : str_byte m t 0 = m t.
Proof.
  unfold str_byte. case_decide as H; [f_equal; lia|]. exfalso. apply H. constructor.
Qed.

Lemma Forall_seqZ (P : Z -> Prop) n : Forall P (seqZ 0 n) <-> forall j, 0 <= j < n -> P j.
Proof. rewrite Forall_forall. setoid_rewrite elem_of_seqZ. by setoid_rewrite Z.add_0_l. Qed.

Lemma str_byte_S m t i :
  0 <= i -> str_byte m t (i + 1) = if decide (m t = 0) then 0 else str_byte m (t + 1) i.
Proof.
  intros Hi. unfold str_byte.
  case_decide as H1; case_decide as H2; try case_decide as H3; try done;
    rewrite Forall_seqZ in H1; try rewrite Forall_seqZ in H3.
  - specialize (H1 0 ltac:(lia)). rewrite Z.add_0_r in H1. done.
  - f_equal. lia.
  - exfalso. apply H3. intros j Hj. replace (t + 1 + j) with (t + (j + 1)) by lia. apply H1. lia.
  - exfalso. apply H1. intros j Hj. destruct (decide (j = 0)) as [->|]; [by rewrite Z.add_0_r|].
    replace (t + j) with (t + 1 + (j - 1)) by lia. apply H3. lia.
Qed.

Lemma str_byte_ext m m' t i :
  (forall j, 0 <= j <= i -> m' (t + j) = m (t + j)) -> 0 <= i -> str_byte m' t i = str_byte m t i.
Proof.
  intros E Hi. unfold str_byte.
  assert (HF : Forall (fun j => m' (t + j) <> 0) (seqZ 0 i) <-> Forall (fun j => m (t + j) <> 0) (seqZ 0 i)).
  { rewrite !Forall_forall. setoid_rewrite elem_of_seqZ. split; intros H j Hj;
      specialize (H j Hj); rewrite E in * by lia; done. }
  repeat case_decide; try tauto. apply E. lia.
Qed.

Lemma pad_loop_spec n m s x :
  pad_loop n m s x = if decide (s <= x < s + Z.of_nat n) then 0 else m x.
Proof.
  revert m s. induction n as [|n IH]; intros m s; cbn [pad_loop].
  { by rewrite decide_False by lia. }
  rewrite IH, fn_insert_cases. repeat case_decide; done || lia.
Qed.

(** Source and destination do not overlap. *)
Definition apart (s t n : Z) : Prop := s + n <= t \/ t + n <= s.

Lemma strncpy_loop_spec n m s t x :
  apart s t (Z.of_nat n) ->
  strncpy_loop n m s t x =
    if decide (s <= x < s + Z.of_nat n) then str_byte m t (x - s) else m x.
Proof.
  unfold apart. revert m s t. induction n as [|n IH]; intros m s t Ha; cbn [strncpy_loop].
  { by rewrite decide_False by lia. }
  destruct (Z.eqb_spec (m t) 0) as [H0|H0].
  - rewrite pad_loop_spec, fn_insert_cases. destruct (decide (x = s)) as [->|Hx].
    + rewrite decide_False, decide_True by lia. by rewrite Z.sub_diag, str_byte_0.
    + repeat case_decide; try lia; try done.
      replace (x - s) with (x - s - 1 + 1) by lia. by rewrite str_byte_S, decide_True by lia.
  - rewrite IH by lia. destruct (decide (x = s)) as [->|Hx].
    + rewrite decide_False, decide_True by lia. by rewrite fn_lookup_insert, Z.sub_diag, str_byte_0.
    + rewrite fn_lookup_insert_ne by done. repeat case_decide; try lia; try done.
      replace (x - s) with (x - (s + 1) + 1) by lia. rewrite str_byte_S, decide_False by (done || lia).
      apply str_byte_ext; [|lia]. intros j Hj. apply fn_lookup_insert_ne. lia.
Qed.

Lemma safestrcpy_loop_spec n m s t x :
  apart s t (Z.of_nat n + 1) ->
  (s <= x < s + Z.of_nat n -> (forall j, s <= j < x -> str_byte m t (j - s) <> 0) ->
     safestrcpy_loop n m s t x = str_byte m t (x - s)) /\
  (safestrcpy_loop n m s t (s + Z.of_nat n) = 0 \/
   exists j, s <= j < s + Z.of_nat n /\ safestrcpy_loop n m s t j = 0) /\
  (x < s \/ s + Z.of_nat n < x -> safestrcpy_loop n m s t x = m x).
Proof.
  unfold apart. revert m s t x. induction n as [|n IH]; intros m s t x Ha; cbn [safestrcpy_loop].
  { split; [lia|]. split; [left|].
    - replace (s + Z.of_nat 0) with s by lia. apply fn_lookup_insert.
    - intros Hx. apply fn_lookup_insert_ne. lia. }
  destruct (Z.eqb_spec (m t) 0) as [H0|H0].
  - split; [|split].
    + intros Hx Hj. destruct (decide (x = s)) as [->|].
      * rewrite fn_lookup_insert_ne, fn_lookup_insert by lia. by rewrite Z.sub_diag, str_byte_0.
      * exfalso. apply (Hj s); [lia|]. by rewrite Z.sub_diag, str_byte_0.
    + right. exists s. split; [lia|]. by rewrite fn_lookup_insert_ne, fn_lookup_insert by lia.
    + intros Hx. by rewrite !fn_lookup_insert_ne by lia.
  - set (m' := <[s := m t]> m).
    assert (Es : forall i, 0 <= i <= Z.of_nat n -> str_byte m' (t + 1) i = str_byte m t (i + 1)).
    { intros i Hi. rewrite str_byte_S, decide_False by (done || lia).
      apply str_byte_ext; [|lia]. intros j Hj. apply fn_lookup_insert_ne. lia. }
    destruct (IH m' (s + 1) (t + 1) x ltac:(lia)) as (IH1 & IH2 & IH3). split; [|split].
    + intros Hx Hj. destruct (decide (x = s)) as [->|].
      * destruct (IH m' (s + 1) (t + 1) s ltac:(lia)) as (_ & _ & IH3'). rewrite IH3' by lia.
        unfold m'. by rewrite fn_lookup_insert, Z.sub_diag, str_byte_0.
      * rewrite IH1; [|lia|].
        -- rewrite Es by lia. f_equal. lia.
        -- intros j Hj'. rewrite Es by lia. replace (j - (s + 1) + 1) with (j - s) by lia.
           apply Hj. lia.
    + replace (s + Z.of_nat (S n)) with (s + 1 + Z.of_nat n) by lia.
      destruct IH2 as [IH2|(j & Hj & IH2)]; [by left|right; exists j; split; [lia|done]].
    + intros Hx. rewrite IH3 by lia. unfold m'. apply fn_lookup_insert_ne. lia.
Qed.

(** * Properties *)

(** [memmove] copies the [n] bytes at [src] as they were before the call,
    however source and destination overlap, and changes nothing else. *)
Theorem memmove_spec (m : mem) (dst src n x : Z) :
  0 <= n -> memmove m dst src n x = moved m dst src n x.
Proof. apply memmove_moved. Qed.

(** Overlapping move by one, upwards. *)
Lemma memmove_spec_witness :
  memmove (fun x => x) 11 10 3 13 = 12 /\ moved (fun x => x) 11 10 3 13 = 12.
Proof.
  split; [|reflexivity].
  rewrite (memmove_spec (fun x => x) 11 10 3 13) by lia. reflexivity.
Defined.

(** [strncpy] and [safestrcpy] of a string that does not overlap its
    destination: [strncpy] writes exactly [n] bytes, the string and then NULs,
    without a terminator when the string is longer; [safestrcpy] leaves a NUL
    in the first [n] bytes, copies the string up to it and writes nothing past
    them. *)
Theorem strcpy_specs (m : mem) (s t n : Z) :
  0 < n -> apart s t n ->
  (forall x, strncpy m s t n x = if decide (s <= x < s + n) then str_byte m t (x - s) else m x) /\
  (exists e, s <= e < s + n /\ safestrcpy m s t n e = 0) /\
  (forall x, s <= x < s + n - 1 -> (forall j, 0 <= j < x - s -> str_byte m t j <> 0) ->
     safestrcpy m s t n x = str_byte m t (x - s)) /\
  (forall x, x < s \/ s + n <= x -> safestrcpy m s t n x = m x).
Proof.
  intros Hn Ha. unfold apart in Ha. split; [|split; [|split]].
  - intros x. unfold strncpy. rewrite strncpy_loop_spec by (unfold apart; lia).
    by rewrite Z2Nat.id by lia.
  - unfold safestrcpy. rewrite (proj2 (Z.leb_gt _ _)) by lia.
    destruct (safestrcpy_loop_spec (Z.to_nat (n - 1)) m s t 0) as (_ & H2 & _); [unfold apart; lia|].
    destruct H2 as [H2|(j & Hj & H2)]; [eexists|exists j]; (split; [|exact H2]); lia.
  - intros x Hx Hj. unfold safestrcpy. rewrite (proj2 (Z.leb_gt _ _)) by lia.
    destruct (safestrcpy_loop_spec (Z.to_nat (n - 1)) m s t x) as (H1 & _ & _); [unfold apart; lia|].
    apply H1; [lia|]. intros j Hj'. apply Hj. lia.
  - intros x Hx. unfold safestrcpy. rewrite (proj2 (Z.leb_gt _ _)) by lia.
    destruct (safestrcpy_loop_spec (Z.to_nat (n - 1)) m s t x) as (_ & _ & H3);
      [unfold apart; lia|]. apply H3. lia.
Qed.

(** The string "hi" at 100 into eight bytes at 0. *)
Lemma strcpy_specs_witness :
  let m := <[100 := 104]> (<[101 := 105]> (fun _ => 0)) in
  strncpy m 0 100 8 1 = 105 /\ safestrcpy m 0 100 8 9 = 0.
Proof.
  intros m. destruct (strcpy_specs m 0 100 8) as (H1 & _ & _ & H3); [lia|left; lia|].
  split; [rewrite H1; vm_compute; reflexivity|rewrite H3; [vm_compute; reflexivity|lia]].
Defined.
