(* ===== verification/Fs.v ===== *)
(** The file system proper, kernel/fs.c: block allocator, inodes, file content,
    directories and path names, as programs over the buffer cache and the log.

    An in-memory inode pointer is its index in [itable]; a null pointer is
    [None].  [itable.lock] is a spin lock and is not represented. *)

From S2P Require Import Prelude BufCache BufSpec KState Log CString.
Local Open Scope Z_scope.

Section code.
Context {U : Type} `{!UserMem U}.

(** * Super block *)

(** [memmove(sb, bp->data, sizeof( *sb))] *)
Definition sb_decode (d : bytes) : superblock :=
  Superblock (word_at d 0) (word_at d 1) (word_at d 2) (word_at d 3)
             (word_at d 4) (word_at d 5) (word_at d 6) (word_at d 7).

Definition readsb (dev : Z) : K U unit :=
  bp ← kbread dev 1;
  d ← kdata bp;
  kmod (set_k_sb (sb_decode d));;
  kbrelse bp.

Definition fsinit (dev : Z) : K U unit :=
  readsb dev;;
  sb ← kget k_sb;
  if negb (sb_magic sb =? FSMAGIC) then kpanic "invalid file system"
  else initlog dev sb.

(** * Blocks *)

Definition BBLOCK (b : Z) (sb : superblock) : Z := u32 (b / BPB + sb_bmapstart sb).
Definition IBLOCK (i : Z) (sb : superblock) : Z := u32 (i / IPB + sb_inodestart sb).

Definition bzero (dev bno : Z) : K U unit :=
  bp ← kbread dev (u32 bno);
  kset_data bp (zeros BSIZE);;
  log_write bp;;
  kbrelse bp.

(** The bit of a bitmap block, and the block with it set or cleared. *)
Definition bit_mask (bi : Z) : Z := Z.shiftl 1 (bi mod 8).
Definition bit_free (d : bytes) (bi : Z) : bool := Z.land (byte_at d (bi / 8)) (bit_mask bi) =? 0.
Definition bit_set (d : bytes) (bi : Z) : bytes :=
  put d (bi / 8) [u8 (Z.lor (byte_at d (bi / 8)) (bit_mask bi))].
Definition bit_clear (d : bytes) (bi : Z) : bytes :=
  put d (bi / 8) [u8 (Z.land (byte_at d (bi / 8)) (Z.lnot (bit_mask bi)))].

(** [for(bi = ..; bi < BPB && b + bi < sb.size; bi++)], [n] iterations left. *)
Fixpoint find_free (n : nat) (d : bytes) (bi : Z) : option Z :=
  match n with
  | O => None
  | S n => if bit_free d bi then Some bi else find_free n d (bi + 1)
  end.

Definition balloc_step (dev b : Z) : K U (option Z) :=
  sb ← kget k_sb;
  bp ← kbread dev (BBLOCK b sb);
  d ← kdata bp;
  match find_free (Z.to_nat (Z.min BPB (sb_size sb - b))) d 0 with
  | Some bi =>
      kset_data bp (bit_set d bi);;
      log_write bp;;
      kbrelse bp;;
      bzero dev (b + bi);;
      mret (Some (b + bi))
  | None =>
      kbrelse bp;;
      mret None
  end.

(** [for(b = 0; b < sb.size; b += BPB)]: one iteration per bitmap block. *)
Definition balloc (dev : Z) : K U Z :=
  sb ← kget k_sb;
  r ← kfor (Z.to_nat ((sb_size sb + BPB - 1) / BPB)) 0 BPB (balloc_step dev);
  match r with
  | Some a => mret a
  | None => kprintf "balloc: out of blocks";; mret 0
  end.

Definition bfree (dev b : Z) : K U unit :=
  sb ← kget k_sb;
  bp ← kbread dev (BBLOCK b sb);
  d ← kdata bp;
  if bit_free d (b mod BPB) then kpanic "freeing free block" else
  kset_data bp (bit_clear d (b mod BPB));;
  log_write bp;;
  kbrelse bp.

(** * Inodes *)

Definition set_i_id dev inum ref valid x := Inode dev inum ref (i_lock x) valid (i_type x) (i_major x) (i_minor x) (i_nlink x) (i_size x) (i_addrs x).
Definition set_i_ref r x := Inode (i_dev x) (i_inum x) r (i_lock x) (i_valid x) (i_type x) (i_major x) (i_minor x) (i_nlink x) (i_size x) (i_addrs x).
Definition set_i_lock l x := Inode (i_dev x) (i_inum x) (i_ref x) l (i_valid x) (i_type x) (i_major x) (i_minor x) (i_nlink x) (i_size x) (i_addrs x).
Definition set_i_valid v x := Inode (i_dev x) (i_inum x) (i_ref x) (i_lock x) v (i_type x) (i_major x) (i_minor x) (i_nlink x) (i_size x) (i_addrs x).
Definition set_i_type v x := Inode (i_dev x) (i_inum x) (i_ref x) (i_lock x) (i_valid x) v (i_major x) (i_minor x) (i_nlink x) (i_size x) (i_addrs x).
Definition set_i_major v x := Inode (i_dev x) (i_inum x) (i_ref x) (i_lock x) (i_valid x) (i_type x) v (i_minor x) (i_nlink x) (i_size x) (i_addrs x).
Definition set_i_minor v x := Inode (i_dev x) (i_inum x) (i_ref x) (i_lock x) (i_valid x) (i_type x) (i_major x) v (i_nlink x) (i_size x) (i_addrs x).
Definition set_i_nlink v x := Inode (i_dev x) (i_inum x) (i_ref x) (i_lock x) (i_valid x) (i_type x) (i_major x) (i_minor x) v (i_size x) (i_addrs x).
Definition set_i_size v x := Inode (i_dev x) (i_inum x) (i_ref x) (i_lock x) (i_valid x) (i_type x) (i_major x) (i_minor x) (i_nlink x) v (i_addrs x).
Definition set_i_addrs v x := Inode (i_dev x) (i_inum x) (i_ref x) (i_lock x) (i_valid x) (i_type x) (i_major x) (i_minor x) (i_nlink x) (i_size x) v.
Definition set_i_addr (i : Z) v x := set_i_addrs (<[Z.to_nat i := v]> (i_addrs x)) x.
Definition i_addr (x : inode) (i : Z) : Z := i_addrs x !!! Z.to_nat i.

(** [ip->field] and an update of the entry [ip] points to. *)
Definition kinode (ip : nat) : K U inode := kget (fun k => k_itable k ip).
Definition imod (ip : nat) (f : inode -> inode) : K U unit :=
  kmod (fun k => set_k_itable (<[ip := f (k_itable k ip)]> (k_itable k)) k).

(** kernel/sleeplock.c on the lock of an inode. *)
Definition ilk_acquire (ip : nat) : K U unit :=
  x ← kinode ip;
  pid ← kget k_pid;
  if locked (i_lock x) then ksleep else imod ip (set_i_lock (SleepLock true pid)).
Definition ilk_release (ip : nat) : K U unit := imod ip (set_i_lock (SleepLock false 0)).
Definition ilk_holding (ip : nat) : K U bool :=
  x ← kinode ip;
  pid ← kget k_pid;
  mret (locked (i_lock x) && (lk_pid (i_lock x) =? pid)).

Definition NINODEn : nat := Z.to_nat NINODE.

Fixpoint iinit_loop (n i : nat) : K U unit :=
  match n with
  | O => mret tt
  | S n => imod i (set_i_lock (SleepLock false 0));; iinit_loop n (S i)
  end.
Definition iinit : K U unit := iinit_loop NINODEn 0.

(** [struct dinode] as bytes. *)
Definition dinode_enc (x : inode) : bytes :=
  le_bytes 2 (i_type x) ++ le_bytes 2 (i_major x) ++ le_bytes 2 (i_minor x) ++
  le_bytes 2 (i_nlink x) ++ le_bytes 4 (i_size x) ++ mjoin (le_bytes 4 <$> i_addrs x).
Definition short_at (d : bytes) (off : Z) : Z := i16 (le_val (sub_bytes d off 2)).
Definition dinode_dec (d : bytes) (off : Z) (x : inode) : inode :=
  Inode (i_dev x) (i_inum x) (i_ref x) (i_lock x) (i_valid x)
    (short_at d off) (short_at d (off + 2)) (short_at d (off + 4)) (short_at d (off + 6))
    (le_val (sub_bytes d (off + 8) 4))
    ((fun i => le_val (sub_bytes d (off + 12 + 4 * i) 4)) <$> seqZ 0 (NDIRECT + 2)).
(** [(struct dinode* )bp->data + inum % IPB] *)
Definition dinode_off (inum : Z) : Z := DINODE_SIZE * (inum mod IPB).

(** The table scan of [iget]: the first referenced entry of [(dev, inum)] and
    the first free one met before it. *)
Fixpoint iget_scan (n i : nat) (t : nat -> inode) (dev inum : Z) (empty : option nat)
    : option nat * option nat :=
  match n with
  | O => (None, empty)
  | S n =>
      if (i_ref (t i) >? 0) && (i_dev (t i) =? dev) && (i_inum (t i) =? inum) then (Some i, empty)
      else iget_scan n (S i) t dev inum
             (match empty with
              | Some _ => empty
              | None => if i_ref (t i) =? 0 then Some i else None
              end)
  end.

Definition iget (dev inum : Z) : K U nat :=
  t ← kget k_itable;
  match iget_scan NINODEn 0 t dev inum None with
  | (Some ip, _) => imod ip (fun x => set_i_ref (i_ref x + 1) x);; mret ip
  | (None, None) => kpanic "iget: no inodes"
  | (None, Some ip) => imod ip (set_i_id dev inum 1 false);; mret ip
  end.

Definition idup (ip : nat) : K U nat :=
  imod ip (fun x => set_i_ref (i_ref x + 1) x);; mret ip.

Definition ialloc_step (dev type inum : Z) : K U (option nat) :=
  sb ← kget k_sb;
  bp ← kbread dev (IBLOCK inum sb);
  d ← kdata bp;
  if short_at d (dinode_off inum) =? 0 then
    kset_data bp (put (put d (dinode_off inum) (zeros DINODE_SIZE)) (dinode_off inum) (le_bytes 2 type));;
    log_write bp;;
    kbrelse bp;;
    ip ← iget dev inum;
    mret (Some ip)
  else kbrelse bp;; mret None.

Definition ialloc (dev type : Z) : K U (option nat) :=
  sb ← kget k_sb;
  r ← kfor (Z.to_nat (sb_ninodes sb - 1)) 1 1 (ialloc_step dev type);
  match r with
  | Some ip => mret (Some ip)
  | None => kprintf "ialloc: no inodes";; mret None
  end.

Definition iupdate (ip : nat) : K U unit :=
  x ← kinode ip;
  sb ← kget k_sb;
  bp ← kbread (i_dev x) (IBLOCK (i_inum x) sb);
  d ← kdata bp;
  kset_data bp (put d (dinode_off (i_inum x)) (dinode_enc x));;
  log_write bp;;
  kbrelse bp.

Definition ilock (p : option nat) : K U unit :=
  match p with
  | None => kpanic "ilock"
  | Some ip =>
      x ← kinode ip;
      if i_ref x <? 1 then kpanic "ilock" else
      ilk_acquire ip;;
      if i_valid x then mret tt else
      sb ← kget k_sb;
      bp ← kbread (i_dev x) (IBLOCK (i_inum x) sb);
      d ← kdata bp;
      imod ip (dinode_dec d (dinode_off (i_inum x)));;
      kbrelse bp;;
      imod ip (set_i_valid true);;
      x ← kinode ip;
      if i_type x =? 0 then kpanic "ilock: no type" else mret tt
  end.

Definition iunlock (p : option nat) : K U unit :=
  match p with
  | None => kpanic "iunlock"
  | Some ip =>
      h ← ilk_holding ip;
      x ← kinode ip;
      if negb h || (i_ref x <? 1) then kpanic "iunlock" else ilk_release ip
  end.

(** * Inode content *)

(** Entry [i] of the table of block addresses in block [addr], filled by
    [balloc] if it is zero. *)
Definition bmap_entry (dev addr i : Z) : K U Z :=
  bp ← kbread dev addr;
  a ← kdata bp;
  r ← (if word_at a i =? 0 then
         b ← balloc dev;
         (if negb (b =? 0) then
            a ← kdata bp;
            kset_data bp (put_word a i b);;
            log_write bp
          else mret tt);;
         mret b
       else mret (word_at a i));
  kbrelse bp;;
  mret r.

(** [ip->addrs[i]], filled by [balloc] if it is zero. *)
Definition bmap_addr (ip : nat) (i : Z) : K U Z :=
  x ← kinode ip;
  if i_addr x i =? 0 then
    addr ← balloc (i_dev x);
    if addr =? 0 then mret 0 else
    imod ip (set_i_addr i addr);;
    mret addr
  else mret (i_addr x i).

Definition bmap (ip : nat) (bn : Z) : K U Z :=
  if bn <? NDIRECT then bmap_addr ip bn
  else
    let bn := bn - NDIRECT in
    if bn <? NINDIRECT then
      addr ← bmap_addr ip NDIRECT;
      if addr =? 0 then mret 0 else
      x ← kinode ip;
      bmap_entry (i_dev x) addr bn
    else
      let bn := bn - NINDIRECT in
      if bn <? DOUBLEINDIRECT then
        addr ← bmap_addr ip (NDIRECT + 1);
        if addr =? 0 then mret 0 else
        x ← kinode ip;
        addr ← bmap_entry (i_dev x) addr (bn / NINDIRECT);
        bmap_entry (i_dev x) addr (bn mod NINDIRECT)
      else kpanic "bmap: out of range".

(** [if(a[j]) bfree(ip->dev, a[j]);] for every entry of the table in [bp]. *)
Definition free_entries (dev : Z) (bp : bufid) : K U unit :=
  kiter (Z.to_nat NINDIRECT) 0 (fun j =>
    a ← kdata bp;
    if negb (word_at a j =? 0) then bfree dev (word_at a j) else mret tt).

Definition itrunc_direct (ip : nat) (i : Z) : K U unit :=
  x ← kinode ip;
  if negb (i_addr x i =? 0) then
    bfree (i_dev x) (i_addr x i);;
    imod ip (set_i_addr i 0)
  else mret tt.

Definition itrunc_indirect (ip : nat) : K U unit :=
  x ← kinode ip;
  if negb (i_addr x NDIRECT =? 0) then
    bp ← kbread (i_dev x) (i_addr x NDIRECT);
    free_entries (i_dev x) bp;;
    kbrelse bp;;
    bfree (i_dev x) (i_addr x NDIRECT);;
    imod ip (set_i_addr NDIRECT 0)
  else mret tt.

(** The second-level table [a[j]] is read and freed whether or not it is
    there. *)
Definition itrunc_double (ip : nat) : K U unit :=
  x ← kinode ip;
  if negb (i_addr x (NDIRECT + 1) =? 0) then
    bp ← kbread (i_dev x) (i_addr x (NDIRECT + 1));
    kiter (Z.to_nat NINDIRECT) 0 (fun j =>
      a ← kdata bp;
      bpj ← kbread (i_dev x) (word_at a j);
      free_entries (i_dev x) bpj;;
      kbrelse bpj;;
      a ← kdata bp;
      bfree (i_dev x) (word_at a j));;
    kbrelse bp;;
    bfree (i_dev x) (i_addr x (NDIRECT + 1));;
    imod ip (set_i_addr (NDIRECT + 1) 0)
  else mret tt.

Definition itrunc (ip : nat) : K U unit :=
  kiter (Z.to_nat NDIRECT) 0 (itrunc_direct ip);;
  itrunc_indirect ip;;
  itrunc_double ip;;
  imod ip (set_i_size 0);;
  iupdate ip.

Definition iput (ip : nat) : K U unit :=
  x ← kinode ip;
  (if (i_ref x =? 1) && i_valid x && (i_nlink x =? 0) then
     ilk_acquire ip;;
     itrunc ip;;
     imod ip (set_i_type 0);;
     iupdate ip;;
     imod ip (set_i_valid false);;
     ilk_release ip
   else mret tt);;
  imod ip (fun x => set_i_ref (i_ref x - 1) x).

Definition iunlockput (ip : nat) : K U unit := iunlock (Some ip);; iput ip.

(** [struct stat], kernel/stat.h. *)
Record stat := Stat { st_dev : Z; st_ino : Z; st_type : Z; st_nlink : Z; st_size : Z }.
Definition stati (ip : nat) : K U stat :=
  x ← kinode ip;
  mret (Stat (i32 (i_dev x)) (i_inum x) (i_type x) (i_nlink x) (i_size x)).

(** Where [readi] puts the bytes: a user address, or a kernel buffer whose
    content is given back. *)
Inductive dest := UserDst (va : Z) | KernelDst.
(** Where [writei] takes them from. *)
Inductive source := UserSrc (va : Z) | KernelSrc (d : bytes).

(** [either_copyout(user_dst, dst + tot, src, len)], kernel/proc.c. *)
Definition either_copyout (dst : dest) (tot : Z) (src : bytes) : K U bool :=
  match dst with
  | KernelDst => mret true
  | UserDst va =>
      m ← kget k_mem;
      let (m', ok) := copyout m (u64 (va + tot)) src in
      kmod (set_k_mem m');;
      mret ok
  end.

(** [either_copyin(dst, user_src, src + tot, len)]: the bytes stored. *)
Definition either_copyin (src : source) (tot len : Z) : K U (bytes * bool) :=
  match src with
  | KernelSrc d => mret (sub_bytes d tot len, true)
  | UserSrc va =>
      m ← kget k_mem;
      mret (copyin m (u64 (va + tot)) len)
  end.

(** The loop of [readi]; [acc] is what a kernel destination has received.  The
    result is the returned [int]. *)
Fixpoint readi_loop (fuel : nat) (ip : nat) (dst : dest) (tot off n : Z) (acc : bytes)
    : K U (Z * bytes) :=
  match fuel with
  | O => kfuel
  | S fuel =>
      if tot <? n then
        addr ← bmap ip (off / BSIZE);
        if addr =? 0 then mret (tot, acc) else
        x ← kinode ip;
        bp ← kbread (i_dev x) addr;
        let m := Z.min (n - tot) (BSIZE - off mod BSIZE) in
        d ← kdata bp;
        let chunk := sub_bytes d (off mod BSIZE) m in
        ok ← either_copyout dst tot chunk;
        if negb ok then kbrelse bp;; mret (-1, acc)
        else
          kbrelse bp;;
          readi_loop fuel ip dst (tot + m) (off + m) n (acc ++ chunk)
      else mret (tot, acc)
  end.

(** Iterations of a loop over [n] bytes in chunks of at most a block, plus the
    final test. *)
Definition chunks (n : Z) : nat := Z.to_nat (n / BSIZE) + 3.

Definition readi (ip : nat) (dst : dest) (off n : Z) : K U (Z * bytes) :=
  x ← kinode ip;
  if (off >? i_size x) || (u32 (off + n) <? off) then mret (0, [])
  else
    let n := if u32 (off + n) >? i_size x then i_size x - off else n in
    readi_loop (chunks n) ip dst 0 off n [].

(** The loop of [writei]: the returned count and the final offset. *)
Fixpoint writei_loop (fuel : nat) (ip : nat) (src : source) (tot off n : Z) : K U (Z * Z) :=
  match fuel with
  | O => kfuel
  | S fuel =>
      if tot <? n then
        addr ← bmap ip (off / BSIZE);
        if addr =? 0 then mret (tot, off) else
        x ← kinode ip;
        bp ← kbread (i_dev x) addr;
        let m := Z.min (n - tot) (BSIZE - off mod BSIZE) in
        c ← either_copyin src tot m;
        d ← kdata bp;
        kset_data bp (put d (off mod BSIZE) c.1);;
        if negb c.2 then kbrelse bp;; mret (tot, off)
        else
          log_write bp;;
          kbrelse bp;;
          writei_loop fuel ip src (tot + m) (off + m) n
      else mret (tot, off)
  end.

Definition writei (ip : nat) (src : source) (off n : Z) : K U Z :=
  x ← kinode ip;
  if (off >? i_size x) || (u32 (off + n) <? off) then mret (-1)
  else if u32 (off + n) >? MAXFILE * BSIZE then mret (-1)
  else
    r ← writei_loop (chunks n) ip src 0 off n;
    x ← kinode ip;
    (if r.2 >? i_size x then imod ip (set_i_size r.2) else mret tt);;
    iupdate ip;;
    mret r.1.

(** * Directories *)

(** A name in memory, read past its end as NULs. *)
Definition chars (s : bytes) (i : Z) : Z := default 0 (s !! Z.to_nat i).

Definition namecmp (s t : bytes) : Z := strncmp (chars s) (chars t) DIRSIZ.

(** [struct dirent]: the inode number and the name. *)
Definition DIRENT_SIZE : Z := 2 + DIRSIZ.
Definition de_inum (de : bytes) : Z := le_val (sub_bytes de 0 2).
Definition de_name (de : bytes) : bytes := sub_bytes de 2 DIRSIZ.

Definition dirents (size : Z) : nat := Z.to_nat ((size + DIRENT_SIZE - 1) / DIRENT_SIZE).

Definition dirlookup_step (dp : nat) (name : bytes) (off : Z) : K U (option (nat * Z)) :=
  r ← readi dp KernelDst off DIRENT_SIZE;
  if negb (r.1 =? DIRENT_SIZE) then kpanic "dirlookup read" else
  if de_inum r.2 =? 0 then mret None else
  if namecmp name (de_name r.2) =? 0 then
    x ← kinode dp;
    ip ← iget (i_dev x) (de_inum r.2);
    mret (Some (ip, off))
  else mret None.

(** The inode and the offset of its entry ([*poff]). *)
Definition dirlookup (dp : nat) (name : bytes) : K U (option (nat * Z)) :=
  x ← kinode dp;
  if negb (i_type x =? T_DIR) then kpanic "dirlookup not DIR" else
  kfor (dirents (i_size x)) 0 DIRENT_SIZE (dirlookup_step dp name).

(** [strncpy(de.name, name, DIRSIZ)] and [de.inum = inum]. *)
Definition dirent_enc (inum : Z) (name : bytes) : bytes :=
  le_bytes 2 inum ++ (str_byte (chars name) 0 <$> seqZ 0 DIRSIZ).

Definition dirlink_step (dp : nat) (off : Z) : K U (option Z) :=
  r ← readi dp KernelDst off DIRENT_SIZE;
  if negb (r.1 =? DIRENT_SIZE) then kpanic "dirlink read" else
  if de_inum r.2 =? 0 then mret (Some off) else mret None.

Definition dirlink (dp : nat) (name : bytes) (inum : Z) : K U Z :=
  r ← dirlookup dp name;
  match r with
  | Some (ip, _) => iput ip;; mret (-1)
  | None =>
      x ← kinode dp;
      r ← kfor (dirents (i_size x)) 0 DIRENT_SIZE (dirlink_step dp);
      let off := default (Z.of_nat (dirents (i_size x)) * DIRENT_SIZE) r in
      w ← writei dp (KernelSrc (dirent_enc inum name)) off DIRENT_SIZE;
      if negb (w =? DIRENT_SIZE) then mret (-1) else mret 0
  end.

(** * Paths: strings without their NUL *)

Definition SLASH : Z := 47.

(** [while( *path == '/') path++;] *)
Fixpoint skip_slashes (path : bytes) : bytes :=
  match path with
  | c :: rest => if c =? SLASH then skip_slashes rest else path
  | [] => []
  end.

(** [while( *path != '/' && *path != 0) path++;]: the element and the rest. *)
Fixpoint split_elem (path : bytes) : bytes * bytes :=
  match path with
  | c :: rest =>
      if c =? SLASH then ([], path)
      else let (e, r) := split_elem rest in (c :: e, r)
  | [] => ([], [])
  end.

(** [name] is the caller's buffer of [DIRSIZ] bytes. *)
Definition skipelem (path name : bytes) : option (bytes * bytes) :=
  let path := skip_slashes path in
  match path with
  | [] => None
  | _ =>
      let (s, rest) := split_elem path in
      let name :=
        if Z.of_nat (length s) >=? DIRSIZ then put name 0 (take (Z.to_nat DIRSIZ) s)
        else put name 0 (s ++ [0]) in
      Some (skip_slashes rest, name)
  end.

(** The loop of [namex]; the result is the inode and the [name] buffer. *)
Fixpoint namex_loop (fuel : nat) (ip : nat) (path : bytes) (nameiparent : bool) (name : bytes)
    : K U (option nat * bytes) :=
  match fuel with
  | O => kfuel
  | S fuel =>
      match skipelem path name with
      | None =>
          if nameiparent then iput ip;; mret (None, name) else mret (Some ip, name)
      | Some (path, name) =>
          ilock (Some ip);;
          x ← kinode ip;
          if negb (i_type x =? T_DIR) then iunlockput ip;; mret (None, name) else
          if nameiparent && bool_decide (path = []) then
            iunlock (Some ip);; mret (Some ip, name)
          else
            next ← dirlookup ip name;
            match next with
            | None => iunlockput ip;; mret (None, name)
            | Some (next, _) => iunlockput ip;; namex_loop fuel next path nameiparent name
            end
      end
  end.

Definition namex (path : bytes) (nameiparent : bool) (name : bytes) : K U (option nat * bytes) :=
  ip ← (match path with
        | c :: _ => if c =? SLASH then iget ROOTDEV ROOTINO else cwd ← kget k_cwd; idup cwd
        | [] => cwd ← kget k_cwd; idup cwd
        end);
  namex_loop (S (length path)) ip path nameiparent name.

(** [namei]'s own [name] buffer is uninitialised memory. *)
Definition namei (name : bytes) (path : bytes) : K U (option nat) :=
  r ← namex path false name; mret r.1.

Definition nameiparent (path name : bytes) : K U (option nat * bytes) := namex path true name.

Lemma wp_kinode ip (Q : inode -> kst U -> abio -> Prop) k a : Q (k_itable k ip) k a -> wp (kinode ip) Q k a.
Proof. done. Qed.
Lemma wp_imod ip f (Q : unit -> kst U -> abio -> Prop) k a :
  Q tt (set_k_itable (<[ip := f (k_itable k ip)]> (k_itable k)) k) a -> wp (imod ip f) Q k a.
Proof. done. Qed.

End code.

Ltac fs_step :=
  lazymatch goal with
  | |- wp (kinode _) _ _ _ => apply wp_kinode
  | |- wp (imod _ _) _ _ _ => apply wp_imod
  | _ => wp_step
  end.
Ltac fs_steps := repeat (fs_step; simpl).
