(* ===== verification/FsAlloc.v ===== *)
(** The block allocator of kernel/fs.c: [balloc], [bfree] and [bzero] meet a
    specification over the free bitmap. *)

From S2P Require Import Prelude BufCache BufSpec KState Log CString Fs.
Local Open Scope Z_scope.

(** * Bits *)

Lemma bit_free_testbit d bi :
  0 <= bi -> bit_free d bi = negb (Z.testbit (byte_at d (bi / 8)) (bi mod 8)).
Proof.
  intros Hbi. unfold bit_free, bit_mask. pose proof (Z.mod_pos_bound bi 8 ltac:(lia)).
  set (x := byte_at _ _). set (n := bi mod 8) in *.
  rewrite Z.shiftl_1_l. destruct (Z.testbit x n) eqn:E; simpl.
  - apply Z.eqb_neq. intros H0. apply (f_equal (fun z => Z.testbit z n)) in H0.
    rewrite Z.land_spec, E, Z.pow2_bits_true, Z.bits_0 in H0 by lia. done.
  - apply Z.eqb_eq. apply Z.bits_inj'. intros m Hm. rewrite Z.land_spec, Z.bits_0.
    destruct (decide (m = n)) as [->|]; [by rewrite E|].
    rewrite Z.pow2_bits_false by lia. apply andb_false_r.
Qed.

Lemma byte_at_put d i v j :
  0 <= i < Z.of_nat (length d) -> 0 <= j ->
  byte_at (put d i [v]) j = if decide (i = j) then v else byte_at d j.
Proof.
  intros Hi Hj. unfold byte_at. rewrite !list_lookup_total_alt. case_decide as E; [subst j|].
  - rewrite put_lookup_in by (simpl; lia). by rewrite Nat.sub_diag.
  - by rewrite put_lookup_out by (simpl; lia).
Qed.

Lemma testbit_u8 x n : 0 <= n < 8 -> Z.testbit (u8 x) n = Z.testbit x n.
Proof. intros. unfold u8. by rewrite Z.mod_pow2_bits_low by lia. Qed.

Lemma bit_free_upd d bi bj f v :
  0 <= bi < 8 * Z.of_nat (length d) -> 0 <= bj ->
  (forall n, 0 <= n < 8 -> Z.testbit (f (byte_at d (bi / 8))) n =
     if decide (n = bi mod 8) then negb v else Z.testbit (byte_at d (bi / 8)) n) ->
  bit_free (put d (bi / 8) [u8 (f (byte_at d (bi / 8)))]) bj =
    if decide (bi = bj) then v else bit_free d bj.
Proof.
  intros Hi Hj Hf. rewrite !bit_free_testbit by done.
  pose proof (Z.mod_pos_bound bj 8 ltac:(lia)). pose proof (Z.div_mod bi 8 ltac:(lia)).
  pose proof (Z.div_mod bj 8 ltac:(lia)).
  assert (0 <= bi / 8 < Z.of_nat (length d)).
  { split; [apply Z.div_pos; lia|apply Z.div_lt_upper_bound; lia]. }
  rewrite byte_at_put by (done || apply Z.div_pos; lia).
  destruct (decide (bi / 8 = bj / 8)) as [E|E].
  - rewrite testbit_u8, Hf by lia. rewrite <- E. repeat case_decide; try lia; try done.
    apply negb_involutive.
  - rewrite decide_False by congruence. done.
Qed.

Lemma bit_free_set d bi bj :
  0 <= bi < 8 * Z.of_nat (length d) -> 0 <= bj ->
  bit_free (bit_set d bi) bj = if decide (bi = bj) then false else bit_free d bj.
Proof.
  intros Hi Hj. unfold bit_set, bit_mask. rewrite Z.shiftl_1_l.
  apply (bit_free_upd d bi bj (fun x => Z.lor x (2 ^ (bi mod 8))) false); [done|done|].
  intros n Hn. pose proof (Z.mod_pos_bound bi 8 ltac:(lia)). rewrite Z.lor_spec. case_decide as E.
  - subst n. rewrite Z.pow2_bits_true by lia. apply orb_true_r.
  - rewrite Z.pow2_bits_false by lia. apply orb_false_r.
Qed.

Lemma bit_free_clear d bi bj :
  0 <= bi < 8 * Z.of_nat (length d) -> 0 <= bj ->
  bit_free (bit_clear d bi) bj = if decide (bi = bj) then true else bit_free d bj.
Proof.
  intros Hi Hj. unfold bit_clear, bit_mask. rewrite Z.shiftl_1_l.
  apply (bit_free_upd d bi bj (fun x => Z.land x (Z.lnot (2 ^ (bi mod 8)))) true); [done|done|].
  intros n Hn. pose proof (Z.mod_pos_bound bi 8 ltac:(lia)).
  rewrite Z.land_spec, Z.lnot_spec by lia. case_decide as E.
  - subst n. rewrite Z.pow2_bits_true by lia. apply andb_false_r.
  - rewrite Z.pow2_bits_false by lia. apply andb_true_r.
Qed.

Lemma length_bit_set d bi :
  0 <= bi < 8 * Z.of_nat (length d) -> length (bit_set d bi) = length d.
Proof.
  intros. apply length_put. assert (bi / 8 < Z.of_nat (length d)) by (apply Z.div_lt_upper_bound; lia). lia.
Qed.

Lemma length_bit_clear d bi :
  0 <= bi < 8 * Z.of_nat (length d) -> length (bit_clear d bi) = length d.
Proof.
  intros. apply length_put. assert (bi / 8 < Z.of_nat (length d)) by (apply Z.div_lt_upper_bound; lia). lia.
Qed.

(** The scan finds the first free bit. *)
Lemma find_free_spec n d bi :
  match find_free n d bi with
  | Some r => bi <= r < bi + Z.of_nat n /\ bit_free d r = true /\
              forall j, bi <= j < r -> bit_free d j = false
  | None => forall j, bi <= j < bi + Z.of_nat n -> bit_free d j = false
  end.
Proof.
  revert bi. induction n as [|n IH]; intros bi; cbn [find_free]; [lia|].
  destruct (bit_free d bi) eqn:E.
  - split; [lia|]. split; [done|]. lia.
  - specialize (IH (bi + 1)). destruct (find_free n d (bi + 1)) as [r|].
    + destruct IH as (H1 & H2 & H3). split; [lia|]. split; [done|]. intros j Hj.
      destruct (decide (j = bi)) as [->|]; [done|]. apply H3. lia.
    + intros j Hj. destruct (decide (j = bi)) as [->|]; [done|]. apply IH. lia.
Qed.

(** * The allocator *)

(** Block [b] is marked in use in the bitmap. *)
Definition allocated (V : Z -> bytes) (sb : superblock) (b : Z) : bool :=
  negb (bit_free (V (BBLOCK b sb)) (b mod BPB)).

Definition mark (V : Z -> bytes) (sb : superblock) (b : Z) : Z -> bytes :=
  <[BBLOCK b sb := bit_set (V (BBLOCK b sb)) (b mod BPB)]> V.
Definition unmark (V : Z -> bytes) (sb : superblock) (b : Z) : Z -> bytes :=
  <[BBLOCK b sb := bit_clear (V (BBLOCK b sb)) (b mod BPB)]> V.

(** The area of the bitmap lies inside the device, above block 0. *)
Definition bitmap_ok (sb : superblock) : Prop :=
  0 < sb_size sb < 2 ^ 30 /\ 0 < sb_bmapstart sb /\ sb_bmapstart sb + sb_size sb / BPB < 2 ^ 30.

Definition bitmap_block (sb : superblock) (x : Z) : Prop :=
  sb_bmapstart sb <= x <= sb_bmapstart sb + (sb_size sb - 1) / BPB.

Lemma BBLOCK_range sb b : bitmap_ok sb -> 0 <= b < sb_size sb ->
  BBLOCK b sb = b / BPB + sb_bmapstart sb /\ 0 < BBLOCK b sb < 2 ^ 31 /\ bitmap_block sb (BBLOCK b sb).
Proof.
  unfold bitmap_ok, bitmap_block, BBLOCK, BPB, BSIZE. intros (Hs & Hb & He) Hbr.
  pose proof (Z.div_le_mono b (sb_size sb - 1) (1024 * 8) ltac:(lia) ltac:(lia)).
  pose proof (Z.div_le_mono (sb_size sb - 1) (sb_size sb) (1024 * 8) ltac:(lia) ltac:(lia)).
  pose proof (Z.div_pos b (1024 * 8) ltac:(lia) ltac:(lia)).
  rewrite u32_small by lia. lia.
Qed.

Lemma allocated_mark V sb b b' :
  bitmap_ok sb -> 0 <= b < sb_size sb -> 0 <= b' < sb_size sb ->
  (forall no, Z.of_nat (length (V no)) = BSIZE) ->
  allocated (mark V sb b) sb b' = if decide (b = b') then true else allocated V sb b'.
Proof.
  intros Hok Hb Hb' HV. unfold allocated, mark.
  destruct (BBLOCK_range sb b Hok Hb) as (E1 & _), (BBLOCK_range sb b' Hok Hb') as (E2 & _).
  pose proof (Z.mod_pos_bound b BPB ltac:(done)). pose proof (Z.mod_pos_bound b' BPB ltac:(done)).
  destruct (decide (BBLOCK b sb = BBLOCK b' sb)) as [E|E].
  - rewrite <- E, fn_lookup_insert.
    rewrite bit_free_set by (rewrite ?HV; unfold BPB in *; lia).
    pose proof (Z.div_mod b BPB ltac:(done)). pose proof (Z.div_mod b' BPB ltac:(done)).
    repeat case_decide; subst; try done; exfalso; nia.
  - rewrite fn_lookup_insert_ne by congruence. by rewrite decide_False by congruence.
Qed.

Lemma allocated_unmark V sb b b' :
  bitmap_ok sb -> 0 <= b < sb_size sb -> 0 <= b' < sb_size sb ->
  (forall no, Z.of_nat (length (V no)) = BSIZE) ->
  allocated (unmark V sb b) sb b' = if decide (b = b') then false else allocated V sb b'.
Proof.
  intros Hok Hb Hb' HV. unfold allocated, unmark.
  destruct (BBLOCK_range sb b Hok Hb) as (E1 & _), (BBLOCK_range sb b' Hok Hb') as (E2 & _).
  pose proof (Z.mod_pos_bound b BPB ltac:(done)). pose proof (Z.mod_pos_bound b' BPB ltac:(done)).
  destruct (decide (BBLOCK b sb = BBLOCK b' sb)) as [E|E].
  - rewrite <- E, fn_lookup_insert.
    rewrite bit_free_clear by (rewrite ?HV; unfold BPB in *; lia).
    pose proof (Z.div_mod b BPB ltac:(done)). pose proof (Z.div_mod b' BPB ltac:(done)).
    repeat case_decide; subst; try done; exfalso; nia.
  - rewrite fn_lookup_insert_ne by congruence. by rewrite decide_False by congruence.
Qed.

Lemma set_add_remove (no : Z) (H : gset Z) : no ∉ H -> ({[no]} ∪ H) ∖ {[no]} = H.
Proof. set_solver. Qed.

Section alloc.
Context {U : Type}.
Implicit Types k : kst U.

(** Only the log header and the console output differ. *)
Definition klog_only (k k' : kst U) : Prop :=
  exists n blk out, k' = set_k_out out (with_lh n blk k).

Lemma klog_only_refl k : klog_only k k.
Proof. destruct k as [? [] ]. by do 3 eexists. Qed.
Lemma klog_only_lh k n blk : klog_only k (with_lh n blk k).
Proof. exists n, blk, (k_out k). done. Qed.
Lemma klog_only_trans k k1 k2 : klog_only k k1 -> klog_only k1 k2 -> klog_only k k2.
Proof. intros (? & ? & ? & ->) (? & ? & ? & ->). by do 3 eexists. Qed.
Lemma klog_only_sb k k' : klog_only k k' -> k_sb k' = k_sb k.
Proof. by intros (? & ? & ? & ->). Qed.
Lemma klog_only_itable k k' : klog_only k k' -> k_itable k' = k_itable k.
Proof. by intros (? & ? & ? & ->). Qed.
Lemma klog_only_mem k k' : klog_only k k' -> k_mem k' = k_mem k.
Proof. by intros (? & ? & ? & ->). Qed.
Lemma klog_only_pid k k' : klog_only k k' -> k_pid k' = k_pid k.
Proof. by intros (? & ? & ? & ->). Qed.
Lemma klog_only_room k k' L n : klog_only k k' -> room k L n -> room k' L n.
Proof. by intros (? & ? & ? & ->). Qed.

Lemma tx_dirty k a V D hs H M L : tx k a V D hs H M L -> M ⊆ H.
Proof. intros [T _]. apply T. Qed.
Lemma tx_len k a V D hs H M L : tx k a V D hs H M L -> forall no, Z.of_nat (length (V no)) = BSIZE.
Proof. intros [T _]. apply T. Qed.

Lemma room_S k L no n : room k L (n + 1) -> 0 <= n -> room k (log_add L no) n.
Proof. unfold room. pose proof (log_add_length L no). lia. Qed.

(** Room in the cache for [n] more logged blocks, one of them held. *)
Definition cap (H : gset Z) (L : list Z) (n : nat) : Prop := (size H + length L + n <= NBUFn)%nat.

Lemma cap_S H L no n : cap H L (S n) -> cap H (log_add L no) n.
Proof. unfold cap. pose proof (log_add_length L no). lia. Qed.

(** Overwrite and log one block. *)
Lemma wp_tx_write_block k V D hs H M L no d (Q : unit -> kst U -> abio -> Prop) :
  0 <= no < 2 ^ 31 -> no ∉ H -> no ∉ M ->
  room k L 1 -> Z.of_nat (length d) = BSIZE ->
  (forall n blk a', tx (with_lh n blk k) a' (<[no := d]> V) D hs H M (log_add L no) ->
     Q tt (with_lh n blk k) a') ->
  forall a1, tx k a1 V D hs ({[no]} ∪ H) M L ->
  wp (_ ← kset_data (BufId ROOTDEV no) d; _ ← log_write (BufId ROOTDEV no); kbrelse (BufId ROOTDEV no)) Q k a1.
Proof.
  intros Hno Hh Hm Hr Hd HQ a1 T1. wp_steps.
  eapply wp_tx_set; [done|set_solver|done|done|]. intros a2 T2. wp_steps.
  eapply wp_tx_log_write; [done|set_solver|done|done|]. intros n blk a3 T3. wp_steps.
  eapply wp_tx_brelse; [done|set_solver|done|set_solver|]. intros a4 T4.
  rewrite !set_add_remove in T4 by done. by apply HQ.
Qed.

Lemma wp_bzero k a V D hs H M L no (Q : unit -> kst U -> abio -> Prop) :
  tx k a V D hs H M L -> 0 <= no < 2 ^ 31 -> no ∉ H -> room k L 1 -> cap H L 1 ->
  (forall n blk a', tx (with_lh n blk k) a' (<[no := zeros BSIZE]> V) D hs H M (log_add L no) ->
     Q tt (with_lh n blk k) a') ->
  wp (bzero ROOTDEV no) Q k a.
Proof.
  intros T Hno Hh Hr Hc HQ. unfold bzero. wp_steps. rewrite u32_small by lia.
  eapply wp_tx_bread; [done|done|done|done|right; unfold cap in Hc; lia|]. intros a1 T1.
  pose proof (tx_dirty _ _ _ _ _ _ _ _ T).
  eapply (wp_tx_write_block k V D hs H M L no); try done; set_solver.
Qed.

(** [balloc]: the block numbers it may look at or hand out. *)
Record alloc_pre (k : kst U) (V : Z -> bytes) (H : gset Z) : Prop := {
  ap_ok : bitmap_ok (k_sb k);
  ap_zero : allocated V (k_sb k) 0 = true;
  ap_bitmap : forall x, bitmap_block (k_sb k) x -> x ∉ H;
  ap_held : forall b, 0 <= b < sb_size (k_sb k) -> allocated V (k_sb k) b = false ->
              b ∉ H /\ ~ bitmap_block (k_sb k) b;
}.

(** What [balloc] does when it finds a block. *)
Definition took (V : Z -> bytes) (sb : superblock) (b : Z) : Z -> bytes :=
  <[b := zeros BSIZE]> (mark V sb b).

Definition first_free (V : Z -> bytes) (sb : superblock) (b : Z) : Prop :=
  0 < b < sb_size sb /\ allocated V sb b = false /\
  forall j, 0 <= j < b -> allocated V sb j = true.

Lemma wp_balloc_step k a V D hs H M L b :
  tx k a V D hs H M L -> alloc_pre k V H -> room k L 2 -> cap H L 2 ->
  0 <= b < sb_size (k_sb k) -> b mod BPB = 0 ->
  (forall j, 0 <= j < b -> allocated V (k_sb k) j = true) ->
  wp (balloc_step ROOTDEV b) (fun r k' a' =>
    match r with
    | Some x => first_free V (k_sb k) x /\ klog_only k k' /\
        tx k' a' (took V (k_sb k) x) D hs H M (log_add (log_add L (BBLOCK x (k_sb k))) x)
    | None => k' = k /\ tx k a' V D hs H M L /\
        forall j, 0 <= j < Z.min (b + BPB) (sb_size (k_sb k)) -> allocated V (k_sb k) j = true
    end) k a.
Proof.
  intros T [Hok H0 Hbm Hfree] Hr Hc Hb Hmod Hbelow. unfold balloc_step. wp_steps.
  set (sb := k_sb k) in *. destruct (BBLOCK_range sb b Hok Hb) as (E & Hbb & Hbmb).
  assert (Hnh : BBLOCK b sb ∉ H) by (by apply Hbm).
  pose proof (tx_dirty _ _ _ _ _ _ _ _ T) as HM. pose proof (tx_len _ _ _ _ _ _ _ _ T) as HV.
  eapply wp_tx_bread; [done|done|lia|done|right; unfold cap in Hc; lia|]. intros a1 T1. wp_steps.
  eapply wp_tx_data; [done|set_solver|lia|]. wp_steps.
  assert (Hsame : forall bi, 0 <= bi < BPB -> b + bi < sb_size sb ->
     BBLOCK (b + bi) sb = BBLOCK b sb /\ (b + bi) mod BPB = bi).
  { intros bi Hbi Hlt. destruct (BBLOCK_range sb (b + bi) Hok ltac:(lia)) as (E' & _).
    pose proof (Z.div_mod b BPB ltac:(done)) as Hdm. rewrite Hmod in Hdm.
    assert ((b + bi) / BPB = b / BPB).
    { symmetry. apply (Z.div_unique _ _ _ bi); [left; lia|lia]. }
    split; [lia|]. symmetry. apply (Z.mod_unique _ _ (b / BPB)); [left; lia|lia]. }
  pose proof (find_free_spec (Z.to_nat (Z.min BPB (sb_size sb - b))) (V (BBLOCK b sb)) 0) as Hs.
  destruct (find_free _ _ _) as [bi|].
  - destruct Hs as (Hbi & Hbit & Hbefore). destruct (Hsame bi ltac:(lia) ltac:(lia)) as [Hbl Hbm'].
    assert (Hff : first_free V sb (b + bi)).
    { assert (Hall : forall j, 0 <= j < b + bi -> allocated V sb j = true).
      { intros j Hj. destruct (decide (j < b)); [apply Hbelow; lia|].
        destruct (Hsame (j - b) ltac:(lia) ltac:(lia)) as [H1 H2].
        replace (b + (j - b)) with j in * by lia. unfold allocated. rewrite H1, H2.
        by rewrite Hbefore by lia. }
      assert (Hfr : allocated V sb (b + bi) = false) by (unfold allocated; by rewrite Hbl, Hbm', Hbit).
      split; [|done]. destruct (decide (b + bi = 0)) as [E0|]; [|lia]. rewrite E0 in Hfr. congruence. }
    destruct (Hfree (b + bi) ltac:(lia) ltac:(apply Hff)) as [Hbh Hbb'].
    assert (HL : Z.of_nat (length (V (BBLOCK b sb))) = 1024) by apply HV.
    wp_steps. eapply wp_tx_set; [done|set_solver|lia| |].
    { rewrite length_bit_set; [done|]. unfold BPB, BSIZE in *. lia. }
    intros a2 T2. wp_steps.
    eapply wp_tx_log_write; [done|set_solver|lia|destruct Hr as (?&?&?); split; [lia|split; lia]|].
    intros n blk a3 T3. wp_steps.
    eapply wp_tx_brelse; [done|set_solver|lia|set_solver|]. intros a4 T4.
    rewrite !set_add_remove in T4 by set_solver. wp_steps.
    eapply wp_bzero; [exact T4|unfold bitmap_ok in Hok; lia|done| |by apply cap_S|].
    { eapply klog_only_room; [apply klog_only_lh|]. by apply room_S. }
    intros n' blk' a5 T5. wp_steps. split; [done|]. split.
    { eapply klog_only_trans; apply klog_only_lh. }
    unfold took, mark. by rewrite Hbl, Hbm'.
  - wp_steps. eapply wp_tx_brelse; [done|set_solver|lia|set_solver|]. intros a2 T2.
    rewrite set_add_remove in T2 by set_solver. wp_steps. split; [done|]. split; [done|].
    intros j Hj. destruct (decide (j < b)); [apply Hbelow; lia|].
    destruct (Hsame (j - b) ltac:(lia) ltac:(lia)) as [H1 H2].
    replace (b + (j - b)) with j in * by lia. unfold allocated. rewrite H1, H2.
    by rewrite Hs by lia.
Qed.

Lemma wp_balloc k a V D hs H M L :
  tx k a V D hs H M L -> alloc_pre k V H -> room k L 2 -> cap H L 2 ->
  wp (balloc ROOTDEV) (fun r k' a' => klog_only k k' /\
    ((r = 0 /\ (forall j, 0 <= j < sb_size (k_sb k) -> allocated V (k_sb k) j = true) /\
      tx k' a' V D hs H M L) \/
     (first_free V (k_sb k) r /\
      tx k' a' (took V (k_sb k) r) D hs H M (log_add (log_add L (BBLOCK r (k_sb k))) r)))) k a.
Proof.
  intros T Hp Hr Hc. unfold balloc. wp_steps. set (sb := k_sb k) in *.
  pose proof (ap_ok _ _ _ Hp) as Hok. fold sb in Hok. pose proof Hok as (Hsz & _).
  set (n := (sb_size sb + BPB - 1) / BPB).
  assert (Hn : sb_size sb <= n * BPB < sb_size sb + BPB).
  { unfold n. pose proof (Z.div_mod (sb_size sb + BPB - 1) BPB ltac:(done)).
    pose proof (Z.mod_pos_bound (sb_size sb + BPB - 1) BPB ltac:(done)). lia. }
  assert (HB : BPB = 8192) by done. clearbody n.
  eapply (wp_kfor (fun b k' a' => k' = k /\ tx k a' V D hs H M L /\ b mod BPB = 0 /\ 0 <= b /\
     forall j, 0 <= j < Z.min b (sb_size sb) -> allocated V sb j = true)).
  - intros j k' a' Hj (-> & T' & Hmod & Hj0 & Hall).
    assert (Hjs : j < sb_size sb).
    { pose proof (Z.div_mod j BPB ltac:(done)). rewrite Hmod in *.
      assert (j / BPB < n) by (apply Z.div_lt_upper_bound; lia). nia. }
    eapply wp_mono; [apply (wp_balloc_step k a' V D hs H M L j); try done|].
    + intros i Hi. apply Hall. lia.
    + fold sb. intros [x|] k1 a1.
      * intros (Hff & Hk & T1). wp_steps. split; [done|]. right. done.
      * intros (-> & T1 & Hall'). split; [done|]. split; [done|]. split; [|split; [lia|done]].
        rewrite <- Z.add_mod_idemp_l, Hmod by done. done.
  - intros k' a' (-> & T' & _ & _ & Hall). wp_steps. split.
    { destruct k as [? [] ]. by do 3 eexists. }
    left. split; [done|]. split; [intros j Hj; apply Hall; lia|].
    eapply tx_kst; [|done]. done.
  - split; [done|]. split; [done|]. split; [done|]. split; [lia|]. intros j Hj. lia.
Qed.

Lemma wp_bfree k a V D hs H M L b (Q : unit -> kst U -> abio -> Prop) :
  tx k a V D hs H M L -> bitmap_ok (k_sb k) -> 0 <= b < sb_size (k_sb k) ->
  BBLOCK b (k_sb k) ∉ H -> room k L 1 -> cap H L 1 ->
  allocated V (k_sb k) b = true ->
  (forall n blk a', tx (with_lh n blk k) a' (unmark V (k_sb k) b) D hs H M
                       (log_add L (BBLOCK b (k_sb k))) -> Q tt (with_lh n blk k) a') ->
  wp (bfree ROOTDEV b) Q k a.
Proof.
  intros T Hok Hb Hh Hr Hc Ha HQ. unfold bfree. wp_steps. set (sb := k_sb k) in *.
  destruct (BBLOCK_range sb b Hok Hb) as (E & Hbb & _).
  pose proof (tx_dirty _ _ _ _ _ _ _ _ T) as HM. pose proof (tx_len _ _ _ _ _ _ _ _ T) as HV.
  eapply wp_tx_bread; [done|done|lia|done|right; unfold cap in Hc; lia|]. intros a1 T1. wp_steps.
  eapply wp_tx_data; [done|set_solver|lia|].
  unfold allocated in Ha. apply negb_true_iff in Ha. rewrite Ha.
  pose proof (Z.mod_pos_bound b BPB ltac:(done)).
  assert (HL : Z.of_nat (length (V (BBLOCK b sb))) = 1024) by apply HV.
  eapply (wp_tx_write_block k V D hs H M L); [lia|done|set_solver|done| |done|done].
  rewrite length_bit_clear; [done|]. unfold BPB, BSIZE in *. lia.
Qed.

(** Freeing a free block stops the kernel. *)
Lemma bfree_free k a V D hs H M L b :
  tx k a V D hs H M L -> bitmap_ok (k_sb k) -> 0 <= b < sb_size (k_sb k) ->
  BBLOCK b (k_sb k) ∉ H -> cap H L 1 -> allocated V (k_sb k) b = false ->
  krun (bfree ROOTDEV b) k a = Panicked "freeing free block".
Proof.
  intros T Hok Hb Hh Hc Ha. destruct (BBLOCK_range _ b Hok Hb) as (E & Hbb & _).
  unfold bfree. rewrite krun_bind. simpl. rewrite krun_bind.
  assert (W : wp (kbread ROOTDEV (BBLOCK b (k_sb k))) (fun r k' a' => k' = k /\
      r = BufId ROOTDEV (BBLOCK b (k_sb k)) /\
      tx k a' V D hs ({[BBLOCK b (k_sb k)]} ∪ H) M L) k a).
  { eapply wp_tx_bread; [done|done|lia|done|right; unfold cap in Hc; lia|done]. }
  apply wp_krun in W as (r & k1 & a1 & -> & -> & -> & T1). simpl. rewrite krun_bind.
  assert (W : wp (kdata (BufId ROOTDEV (BBLOCK b (k_sb k)))) (fun d k' a' => k' = k /\
      d = V (BBLOCK b (k_sb k))) k a1) by (eapply wp_tx_data; [done|set_solver|lia|done]).
  apply wp_krun in W as (d & k2 & a2 & -> & -> & ->). simpl.
  unfold allocated in Ha. apply negb_false_iff in Ha. by rewrite Ha.
Qed.

End alloc.
