(* ===== verification/FsTree.v ===== *)
(** The block tree of an inode: direct, indirect and double-indirect slots,
    and what filling a slot with a fresh block does to it (fs.c, [bmap]). *)

From S2P Require Import Prelude BufCache BufSpec KState Log CString Fs FsAlloc.
Local Open Scope Z_scope.

(** * Layout *)

(** kernel/fs.h: boot block, super block, log, inode blocks, bitmap, data. *)
Definition fs_geom (sb : superblock) : Prop :=
  bitmap_ok sb /\ 1 < sb_logstart sb /\
  sb_logstart sb + LOGSIZE < sb_inodestart sb /\
  0 < sb_ninodes sb < 2 ^ 30 /\
  sb_inodestart sb + sb_ninodes sb / IPB < sb_bmapstart sb /\
  sb_bmapstart sb + (sb_size sb - 1) / BPB < sb_size sb.

Definition data_block (sb : superblock) (b : Z) : Prop :=
  sb_bmapstart sb + (sb_size sb - 1) / BPB < b < sb_size sb.

(** A free block is a data block. *)
Definition fs_ok (sb : superblock) (V : Z -> bytes) : Prop :=
  fs_geom sb /\ (forall no, Z.of_nat (length (V no)) = BSIZE) /\
  forall b, 0 <= b < sb_size sb -> allocated V sb b = false -> data_block sb b.

(** * Slots *)

Inductive slot :=
| SDir (i : Z)          (* ip->addrs[i] *)
| SInd                  (* ip->addrs[NDIRECT] *)
| SDbl                  (* ip->addrs[NDIRECT+1] *)
| SIndE (j : Z)         (* entry of the indirect block *)
| SDblT (j : Z)         (* entry of the double-indirect block *)
| SDblE (j k : Z).      (* entry of a second-level table *)
#[export] Instance slot_eq_dec : EqDecision slot.
Proof. solve_decision. Defined.

Definition slot_ok (s : slot) : Prop :=
  match s with
  | SDir i => 0 <= i < NDIRECT
  | SInd | SDbl => True
  | SIndE j | SDblT j => 0 <= j < NINDIRECT
  | SDblE j k => 0 <= j < NINDIRECT /\ 0 <= k < NINDIRECT
  end.

(** The slot of data block [bn] of the file. *)
Definition slot_of (bn : Z) : slot :=
  if bn <? NDIRECT then SDir bn
  else if bn - NDIRECT <? NINDIRECT then SIndE (bn - NDIRECT)
  else SDblE ((bn - NDIRECT - NINDIRECT) / NINDIRECT) ((bn - NDIRECT - NINDIRECT) mod NINDIRECT).

Definition leaf (s : slot) : Prop :=
  match s with SDir _ | SIndE _ | SDblE _ _ => True | _ => False end.

Lemma slot_of_ok bn : 0 <= bn < MAXFILE -> slot_ok (slot_of bn) /\ leaf (slot_of bn).
Proof.
  unfold slot_of, MAXFILE, DOUBLEINDIRECT. change NINDIRECT with 256. change NDIRECT with 11. intros H.
  destruct (Z.ltb_spec bn 11); simpl; [unfold NDIRECT; lia|].
  destruct (Z.ltb_spec (bn - 11) 256); simpl; change NINDIRECT with 256; [lia|].
  split; [|done]. split; [|apply Z.mod_pos_bound; lia].
  split; [apply Z.div_pos; lia|apply Z.div_lt_upper_bound; lia].
Qed.

Lemma block_index i : 0 <= i < MAXFILE * BSIZE -> 0 <= i / BSIZE < MAXFILE.
Proof.
  intros Hi. split; [apply Z.div_pos; unfold BSIZE; lia|apply Z.div_lt_upper_bound; [done|]]. lia.
Qed.

Lemma slot_of_inj bn bn' :
  0 <= bn < MAXFILE -> 0 <= bn' < MAXFILE -> slot_of bn = slot_of bn' -> bn = bn'.
Proof.
  unfold slot_of. change NINDIRECT with 256. change NDIRECT with 11. intros H H' E.
  destruct (Z.ltb_spec bn 11), (Z.ltb_spec bn' 11); simplify_eq; try done;
    destruct (Z.ltb_spec (bn - 11) 256); simplify_eq; try done;
    destruct (Z.ltb_spec (bn' - 11) 256); simplify_eq; try lia.
  pose proof (Z.div_mod (bn - 11 - 256) 256). pose proof (Z.div_mod (bn' - 11 - 256) 256). lia.
Qed.

(** The table of a slot that does not lie in the inode: the slot that holds the
    table's address, and the index in it. *)
Definition parent (s : slot) : option (slot * Z) :=
  match s with
  | SDir _ | SInd | SDbl => None
  | SIndE j => Some (SInd, j)
  | SDblT j => Some (SDbl, j)
  | SDblE j k => Some (SDblT j, k)
  end.

Definition root_index (s : slot) : Z :=
  match s with SDir i => i | SInd => NDIRECT | _ => NDIRECT + 1 end.

Section addr.
Context (V : Z -> bytes) (x : inode).

Definition entry (t j : Z) : Z := if t =? 0 then 0 else word_at (V t) j.

(** The block address in a slot, 0 if there is none. *)
Definition slot_addr (s : slot) : Z :=
  match s with
  | SDir i => i_addr x i
  | SInd => i_addr x NDIRECT
  | SDbl => i_addr x (NDIRECT + 1)
  | SIndE j => entry (i_addr x NDIRECT) j
  | SDblT j => entry (i_addr x (NDIRECT + 1)) j
  | SDblE j k => entry (entry (i_addr x (NDIRECT + 1)) j) k
  end.

Lemma slot_addr_root s : parent s = None -> slot_addr s = i_addr x (root_index s).
Proof. by destruct s. Qed.
Lemma slot_addr_entry s p j : parent s = Some (p, j) -> slot_addr s = entry (slot_addr p) j.
Proof. by destruct s; intros [= <- <-]. Qed.
Lemma slot_addr_parent s p j : parent s = Some (p, j) -> slot_addr s <> 0 -> slot_addr p <> 0.
Proof. intros Hp. rewrite (slot_addr_entry s p j Hp). unfold entry. by destruct (Z.eqb_spec (slot_addr p) 0). Qed.

(** A byte of the file; holes read as zeros. *)
Definition content (i : Z) : Z :=
  let a := slot_addr (slot_of (i / BSIZE)) in
  if a =? 0 then 0 else byte_at (V a) (i mod BSIZE).
End addr.

Lemma parent_ok s p j : slot_ok s -> parent s = Some (p, j) -> slot_ok p /\ 0 <= j < NINDIRECT.
Proof. destruct s; simpl; intros H [= <- <-]; simpl; tauto. Qed.

Lemma parent_inj s s' p j : parent s = Some (p, j) -> parent s' = Some (p, j) -> s = s'.
Proof. destruct s, s'; simpl; congruence. Qed.

Lemma parent_neq s p j : parent s = Some (p, j) -> p <> s.
Proof. by destruct s; intros [= <- <-]. Qed.

Lemma root_index_ok s : slot_ok s -> 0 <= root_index s < NDIRECT + 2.
Proof. unfold NDIRECT. destruct s; simpl; unfold NDIRECT; lia. Qed.

Lemma root_index_inj s s' :
  slot_ok s -> slot_ok s' -> parent s = None -> parent s' = None ->
  root_index s = root_index s' -> s = s'.
Proof. destruct s, s'; simpl; unfold NDIRECT; intros; try done; try lia. f_equal. lia. Qed.

(** * Well-formed trees *)

Record tree_ok (sb : superblock) (V : Z -> bytes) (x : inode) : Prop := {
  to_len : length (i_addrs x) = Z.to_nat (NDIRECT + 2);
  to_data : forall s, slot_ok s -> slot_addr V x s <> 0 ->
              data_block sb (slot_addr V x s) /\ allocated V sb (slot_addr V x s) = true;
  to_inj : forall s s', slot_ok s -> slot_ok s' -> slot_addr V x s <> 0 ->
              slot_addr V x s = slot_addr V x s' -> s = s';
}.

(** What may change when blocks are added to a file. *)
Record grow (sb : superblock) (V : Z -> bytes) (x : inode) (V' : Z -> bytes) (x' : inode) : Prop := {
  g_inode : exists l, x' = set_i_addrs l x;
  g_slots : forall s, slot_ok s -> slot_addr V x s <> 0 -> slot_addr V' x' s = slot_addr V x s;
  g_fresh : forall s, slot_ok s -> slot_addr V x s = 0 ->
      slot_addr V' x' s = 0 \/
      (0 <= slot_addr V' x' s < sb_size sb /\ allocated V sb (slot_addr V' x' s) = false /\
       (leaf s -> V' (slot_addr V' x' s) = zeros BSIZE));
  g_leaf : forall s, slot_ok s -> leaf s -> slot_addr V x s <> 0 ->
      V' (slot_addr V x s) = V (slot_addr V x s);
  g_frame : forall b, ~ bitmap_block sb b -> (0 <= b < sb_size sb -> allocated V sb b = true) ->
      (forall s, slot_ok s -> ~ leaf s -> slot_addr V x s = b -> b = 0) -> V' b = V b;
  g_alloc : forall b, 0 <= b < sb_size sb -> allocated V sb b = true -> allocated V' sb b = true;
}.

Lemma grow_refl sb V x : grow sb V x V x.
Proof.
  split; auto. exists (i_addrs x). by destruct x.
Qed.

Lemma grow_trans sb V x V1 x1 V2 x2 :
  tree_ok sb V x -> grow sb V x V1 x1 -> grow sb V1 x1 V2 x2 -> grow sb V x V2 x2.
Proof.
  intros Hok G1 G2. split.
  - destruct (g_inode _ _ _ _ _ G1) as [l ->], (g_inode _ _ _ _ _ G2) as [l' ->]. by eexists.
  - intros s Hs Hn. rewrite (g_slots _ _ _ _ _ G2), (g_slots _ _ _ _ _ G1); try done.
    by rewrite (g_slots _ _ _ _ _ G1).
  - intros s Hs H0. destruct (decide (slot_addr V1 x1 s = 0)) as [E|E].
    + destruct (g_fresh _ _ _ _ _ G2 s Hs E) as [|(Hr & Ha & Hz)]; [by left|right].
      split; [done|]. split; [|done]. destruct (allocated V sb (slot_addr V2 x2 s)) eqn:Ea; [|done].
      apply (g_alloc _ _ _ _ _ G1) in Ea; [congruence|done].
    + destruct (g_fresh _ _ _ _ _ G1 s Hs H0) as [|(Hr & Ha & Hz)]; [done|right].
      rewrite (g_slots _ _ _ _ _ G2) by done. split; [done|]. split; [done|]. intros Hl.
      rewrite (g_leaf _ _ _ _ _ G2) by done. auto.
  - intros s Hs Hl Hn. pose proof (g_slots _ _ _ _ _ G1 s Hs Hn) as E.
    rewrite <- E at 1. rewrite (g_leaf _ _ _ _ _ G2) by (try done; by rewrite E).
    rewrite E. by apply (g_leaf _ _ _ _ _ G1).
  - intros b Hb Ha Hn. rewrite (g_frame _ _ _ _ _ G2).
    + by apply (g_frame _ _ _ _ _ G1).
    + done.
    + intros Hr. apply (g_alloc _ _ _ _ _ G1); auto.
    + intros s Hs Hl E. destruct (decide (slot_addr V x s = 0)) as [E0|E0].
      * destruct (g_fresh _ _ _ _ _ G1 s Hs E0) as [|(Hr & Hf & _)]; [congruence|].
        rewrite E in *. rewrite (Ha Hr) in Hf. done.
      * apply (Hn s Hs Hl). by rewrite <- (g_slots _ _ _ _ _ G1).
  - intros b Hb Ha. apply (g_alloc _ _ _ _ _ G2), (g_alloc _ _ _ _ _ G1); auto.
Qed.

(** Adding blocks to a file does not change what it holds. *)
Lemma grow_content sb V x V' x' i :
  0 <= i < MAXFILE * BSIZE -> grow sb V x V' x' -> content V' x' i = content V x i.
Proof.
  intros Hi G.
  assert (Hbn : 0 <= i / BSIZE < MAXFILE) by (apply block_index; lia).
  destruct (slot_of_ok _ Hbn) as [Hs Hl]. unfold content. set (s := slot_of _) in *.
  destruct (Z.eqb_spec (slot_addr V x s) 0) as [E|E].
  - destruct (g_fresh _ _ _ _ _ G s Hs E) as [->|(Hr & _ & Hz)]; [done|].
    destruct (Z.eqb_spec (slot_addr V' x' s) 0); [done|]. rewrite Hz by done.
    unfold byte_at, zeros. rewrite list_lookup_total_alt.
    rewrite lookup_replicate_2; [done|]. pose proof (Z.mod_pos_bound i BSIZE ltac:(done)). lia.
  - rewrite (g_slots _ _ _ _ _ G s Hs E). destruct (Z.eqb_spec (slot_addr V x s) 0); [done|].
    by rewrite (g_leaf _ _ _ _ _ G).
Qed.

(** * Taking a fresh block *)

Lemma bitmap_not_data sb b : bitmap_block sb b -> data_block sb b -> False.
Proof. unfold bitmap_block, data_block. lia. Qed.

Lemma took_at V sb b : took V sb b b = zeros BSIZE.
Proof. apply fn_lookup_insert. Qed.

Lemma took_other V sb b c :
  bitmap_ok sb -> 0 <= b < sb_size sb -> c <> b -> ~ bitmap_block sb c -> took V sb b c = V c.
Proof.
  intros Hok Hb Hc Hn. unfold took, mark. destruct (BBLOCK_range sb b Hok Hb) as (_ & _ & Hbm).
  rewrite !fn_lookup_insert_ne; congruence.
Qed.

Lemma allocated_took V sb b b' :
  fs_ok sb V -> data_block sb b -> 0 <= b < sb_size sb -> 0 <= b' < sb_size sb ->
  allocated (took V sb b) sb b' = if decide (b = b') then true else allocated V sb b'.
Proof.
  intros (Hg & HV & _) Hd Hb Hb'. destruct Hg as (Hok & _).
  rewrite <- (allocated_mark V sb b b') by done. unfold allocated. do 2 f_equal.
  apply fn_lookup_insert_ne. intros E. apply (bitmap_not_data sb b); [|done].
  destruct (BBLOCK_range sb b' Hok Hb') as (_ & _ & Hbm). congruence.
Qed.

Lemma took_len V sb b : fs_ok sb V -> 0 <= b < sb_size sb ->
  forall no, Z.of_nat (length (took V sb b no)) = BSIZE.
Proof.
  intros (Hg & HV & _) Hb no. unfold took, mark. destruct (decide (no = b)) as [->|].
  { rewrite fn_lookup_insert. by rewrite length_zeros. }
  rewrite fn_lookup_insert_ne by done. destruct (decide (no = BBLOCK b sb)) as [->|].
  - rewrite fn_lookup_insert, length_bit_set; [done|]. rewrite HV.
    pose proof (Z.mod_pos_bound b BPB ltac:(done)). unfold BPB in *. lia.
  - by rewrite fn_lookup_insert_ne.
Qed.

(** * Filling a slot *)

(** [V'], [x'] is [V], [x] with the fresh block [b] in the empty slot [s]. *)
Record filled (sb : superblock) (V : Z -> bytes) (x : inode) (s : slot) (b : Z)
    (V' : Z -> bytes) (x' : inode) : Prop := {
  fl_inode : exists l, x' = set_i_addrs l x /\ length l = length (i_addrs x);
  fl_root : forall s', slot_ok s' -> parent s' = None ->
      i_addr x' (root_index s') = if decide (s' = s) then b else i_addr x (root_index s');
  fl_word : forall p j, slot_ok p -> ~ leaf p -> slot_addr V x p <> 0 -> 0 <= j < NINDIRECT ->
      word_at (V' (slot_addr V x p)) j =
        if decide (parent s = Some (p, j)) then b else word_at (V (slot_addr V x p)) j;
  fl_new : V' b = zeros BSIZE;
  fl_other : forall c, c <> b -> ~ bitmap_block sb c ->
      (forall p j, parent s = Some (p, j) -> c <> slot_addr V x p) -> V' c = V c;
  fl_alloc : forall c, 0 <= c < sb_size sb ->
      allocated V' sb c = if decide (b = c) then true else allocated V sb c;
  fl_len : forall no, Z.of_nat (length (V' no)) = BSIZE;
  fl_empty : slot_addr V x s = 0 /\ slot_ok s /\
      forall p j, parent s = Some (p, j) -> slot_addr V x p <> 0;
  fl_free : data_block sb b /\ 0 < b < sb_size sb /\ allocated V sb b = false;
}.

Section fill.
Context (sb : superblock) (V : Z -> bytes) (x : inode) (s : slot) (b : Z).
Context (V' : Z -> bytes) (x' : inode).
Context (Hfs : fs_ok sb V) (Hok : tree_ok sb V x) (F : filled sb V x s b V' x').

Lemma parent_not_leaf s' p j : parent s' = Some (p, j) -> ~ leaf p.
Proof using. destruct s'; intros [= <- <-]; simpl; tauto. Qed.

Lemma filled_step s' p j :
  slot_ok s' -> parent s' = Some (p, j) ->
  slot_addr V' x' p = (if decide (p = s) then b else slot_addr V x p) ->
  slot_addr V' x' s' = if decide (s' = s) then b else slot_addr V x s'.
Proof using Hfs Hok F.
  intros Hs Hp Ep. destruct (parent_ok _ _ _ Hs Hp) as [Hpo Hj].
  destruct (fl_empty _ _ _ _ _ _ _ F) as (H0 & Hso & Hpar).
  destruct (fl_free _ _ _ _ _ _ _ F) as (Hd & Hb & Hfree).
  rewrite !(slot_addr_entry _ _ s' p j Hp), Ep. unfold entry. destruct (decide (p = s)) as [->|Hps].
  - rewrite (proj2 (Z.eqb_neq b 0)) by lia. rewrite (fl_new _ _ _ _ _ _ _ F), word_at_zeros.
    rewrite H0, decide_False; [done|]. intros ->. by eapply parent_neq.
  - destruct (Z.eqb_spec (slot_addr V x p) 0) as [E|E].
    + rewrite decide_False; [done|]. intros ->. by eapply Hpar.
    + rewrite (fl_word _ _ _ _ _ _ _ F) by (eauto using parent_not_leaf).
      destruct (decide (s' = s)) as [->|Hn]; [by rewrite decide_True|].
      rewrite decide_False; [done|]. intros E'. by apply Hn, (parent_inj _ _ p j).
Qed.

Lemma filled_addr s' :
  slot_ok s' -> slot_addr V' x' s' = if decide (s' = s) then b else slot_addr V x s'.
Proof using Hfs Hok F.
  assert (Hr : forall s', slot_ok s' -> parent s' = None ->
    slot_addr V' x' s' = if decide (s' = s) then b else slot_addr V x s').
  { intros r Hro Hrp. rewrite !slot_addr_root by done. by apply (fl_root _ _ _ _ _ _ _ F). }
  intros Hs. destruct (parent s') as [[p j]|] eqn:Ep; [|by apply Hr].
  destruct (parent_ok _ _ _ Hs Ep) as [Hpo _]. eapply filled_step; [done..|].
  destruct (parent p) as [[q i]|] eqn:Eq; [|by apply Hr].
  destruct (parent_ok _ _ _ Hpo Eq) as [Hqo _]. eapply filled_step; [done..|].
  apply Hr; [done|]. destruct s'; simplify_eq/=; done.
Qed.

Lemma used_not_fresh s' : slot_ok s' -> slot_addr V x s' <> 0 -> slot_addr V x s' <> b.
Proof using Hok F.
  intros Hs Hn E. destruct (to_data _ _ _ Hok s' Hs Hn) as [_ Ha].
  destruct (fl_free _ _ _ _ _ _ _ F) as (_ & _ & Hf). congruence.
Qed.

Lemma filled_tree : tree_ok sb V' x'.
Proof using Hfs Hok F.
  destruct (fl_empty _ _ _ _ _ _ _ F) as (H0 & Hso & Hpar).
  destruct (fl_free _ _ _ _ _ _ _ F) as (Hd & Hb & Hfree). split.
  - destruct (fl_inode _ _ _ _ _ _ _ F) as (l & -> & Hl). simpl. rewrite Hl. apply Hok.
  - intros s' Hs'. rewrite filled_addr by done. case_decide; intros Hn.
    + split; [done|]. by rewrite (fl_alloc _ _ _ _ _ _ _ F), decide_True by lia.
    + destruct (to_data _ _ _ Hok s' Hs' Hn) as [Hd' Ha]. split; [done|].
      rewrite (fl_alloc _ _ _ _ _ _ _ F); [by case_decide|].
      destruct Hfs as ((Hbo & Hg) & _). unfold data_block, bitmap_ok, BPB, BSIZE in *.
      assert (0 <= (sb_size sb - 1) / (1024 * 8)) by (apply Z.div_pos; lia). lia.
  - intros s1 s2 Hs1 Hs2. rewrite !filled_addr by done. repeat case_decide; subst; try done.
    + intros _ E. exfalso. apply (used_not_fresh s2 Hs2); [|done]. lia.
    + intros Hn E. exfalso. by apply (used_not_fresh s1 Hs1).
    + by apply Hok.
Qed.

Lemma filled_fs : fs_ok sb V'.
Proof using Hfs F.
  destruct Hfs as (Hg & HV & Hfr). split; [done|]. split; [apply F|]. intros c Hc.
  rewrite (fl_alloc _ _ _ _ _ _ _ F) by done. case_decide; [done|]. by apply Hfr.
Qed.

Lemma filled_grow : grow sb V x V' x'.
Proof using Hfs Hok F.
  destruct (fl_empty _ _ _ _ _ _ _ F) as (H0 & Hso & Hpar).
  destruct (fl_free _ _ _ _ _ _ _ F) as (Hd & Hb & Hfree). split.
  - destruct (fl_inode _ _ _ _ _ _ _ F) as (l & -> & Hl). by eexists.
  - intros s' Hs' Hn. rewrite filled_addr by done. case_decide; [by subst|done].
  - intros s' Hs' Hz. rewrite filled_addr by done. case_decide; [right|by left].
    split; [lia|]. split; [done|]. intros _. apply F.
  - intros s' Hs' Hl Hn. apply (fl_other _ _ _ _ _ _ _ F); [by apply used_not_fresh| |].
    + intros Hbm. eapply bitmap_not_data; [exact Hbm|]. by apply (to_data _ _ _ Hok).
    + intros p j Hp E. destruct (parent_ok _ _ _ Hso Hp) as [Hpo _].
      pose proof (to_inj _ _ _ Hok s' p Hs' Hpo Hn E) as ->. by eapply parent_not_leaf.
  - intros c Hc Ha Ht. apply (fl_other _ _ _ _ _ _ _ F); [|done|].
    + intros ->. rewrite Ha in Hfree by lia. done.
    + intros p j Hp E. destruct (parent_ok _ _ _ Hso Hp) as [Hpo _].
      apply (Hpar p j Hp). rewrite <- E. apply (Ht p Hpo); [by eapply parent_not_leaf|done].
  - intros c Hc Ha. rewrite (fl_alloc _ _ _ _ _ _ _ F) by done. by case_decide.
Qed.

End fill.

Lemma first_free_data sb V b : fs_ok sb V -> first_free V sb b ->
  data_block sb b /\ 0 < b < sb_size sb /\ allocated V sb b = false.
Proof. intros (_ & _ & Hf) (Hr & Ha & _). split; [|done]. apply Hf; [lia|done]. Qed.

Lemma data_block_range sb b : bitmap_ok sb -> data_block sb b -> 0 <= b < sb_size sb.
Proof.
  unfold bitmap_ok, data_block, BPB, BSIZE. intros Hb Hd.
  assert (0 <= (sb_size sb - 1) / (1024 * 8)) by (apply Z.div_pos; lia). lia.
Qed.

Lemma tree_table sb V x p :
  tree_ok sb V x -> slot_ok p -> slot_addr V x p <> 0 -> ~ bitmap_block sb (slot_addr V x p).
Proof. intros Hok Hp Hn Hb. by eapply bitmap_not_data; [|apply (to_data _ _ _ Hok)]. Qed.

Lemma fill_root sb V x s b :
  fs_ok sb V -> tree_ok sb V x -> slot_ok s -> parent s = None -> slot_addr V x s = 0 ->
  first_free V sb b -> filled sb V x s b (took V sb b) (set_i_addr (root_index s) b x).
Proof.
  intros Hfs Hok Hs Hp H0 Hff. pose proof (first_free_data _ _ _ Hfs Hff) as (Hd & Hb & Ha).
  pose proof Hfs as ((Hbo & _) & _). pose proof (to_len _ _ _ Hok) as Hlen.
  split; try done.
  - eexists. split; [reflexivity|]. by rewrite length_insert.
  - intros s' Hs' Hp'. unfold i_addr. simpl. pose proof (root_index_ok s Hs) as Hi.
    pose proof (root_index_ok s' Hs') as Hi'. case_decide as E; [subst s'|].
    + apply list_lookup_total_insert_eq. rewrite Hlen. unfold NDIRECT in *. lia.
    + apply list_lookup_total_insert_ne. intros E'. apply E.
      apply root_index_inj; [done..|]. lia.
  - intros p j Hpo Hl Hn Hj. rewrite Hp. rewrite decide_False by done.
    rewrite took_other; [done|done|lia| |by eapply tree_table].
    intros E. destruct (to_data _ _ _ Hok p Hpo Hn) as [_ Ha']. congruence.
  - apply took_at.
  - intros c Hc Hn _. apply took_other; [done|lia|done|done].
  - intros c Hc. apply allocated_took; [done|done|lia|done].
  - apply took_len; [done|lia].
  - split; [done|]. split; [done|]. by rewrite Hp.
Qed.

Lemma fill_table sb V x s p j b :
  fs_ok sb V -> tree_ok sb V x -> slot_ok s -> parent s = Some (p, j) ->
  slot_addr V x p <> 0 -> slot_addr V x s = 0 -> first_free V sb b ->
  filled sb V x s b
    (<[slot_addr V x p := put_word (took V sb b (slot_addr V x p)) j b]> (took V sb b)) x.
Proof.
  intros Hfs Hok Hs Hp Hpn H0 Hff. pose proof (first_free_data _ _ _ Hfs Hff) as (Hd & Hb & Ha).
  pose proof Hfs as ((Hbo & _) & HV & _). destruct (parent_ok _ _ _ Hs Hp) as [Hpo Hj].
  set (t := slot_addr V x p) in *.
  assert (Htb : forall q, slot_ok q -> slot_addr V x q <> 0 -> slot_addr V x q <> b).
  { intros q Hq Hn E. destruct (to_data _ _ _ Hok q Hq Hn) as [_ Ha']. congruence. }
  assert (Etook : forall q, slot_ok q -> slot_addr V x q <> 0 ->
     took V sb b (slot_addr V x q) = V (slot_addr V x q)).
  { intros q Hq Hn. apply took_other; [done|lia|by apply Htb|by eapply tree_table]. }
  change NINDIRECT with 256 in Hj. assert (Hlt : Z.of_nat (length (V t)) = 1024) by apply HV.
  split; try done.
  - exists (i_addrs x). split; [by destruct x|done].
  - intros s' Hs' Hp'. rewrite decide_False; [done|]. intros ->. congruence.
  - intros q i Hq Hl Hn Hi. change NINDIRECT with 256 in Hi. destruct (decide (q = p)) as [->|Hqp].
    + fold t. rewrite fn_lookup_insert. unfold t. rewrite Etook by done. fold t.
      case_decide as E.
      * rewrite Hp in E. injection E as ->. apply word_at_put_word; [lia|lia|].
        unfold bitmap_ok in Hbo. lia.
      * apply word_at_put_word_ne; [lia|lia| |lia]. intros ->. apply E. congruence.
    + rewrite decide_False by congruence. rewrite fn_lookup_insert_ne; [by rewrite Etook|].
      intros E. apply Hqp. by apply (to_inj _ _ _ Hok).
  - rewrite fn_lookup_insert_ne; [apply took_at|]. intros E. by apply (Htb p Hpo Hpn).
  - intros c Hc Hn Ht. rewrite fn_lookup_insert_ne by (intros E; by apply (Ht p j Hp)).
    apply took_other; [done|lia|done|done].
  - intros c Hc. rewrite <- (allocated_took V sb b c) by (done || lia).
    unfold allocated. do 2 f_equal. apply fn_lookup_insert_ne. intros E.
    apply (tree_table sb V x p Hok Hpo Hpn). fold t.
    destruct (BBLOCK_range sb c Hbo Hc) as (_ & _ & Hbm). congruence.
  - intros no. destruct (decide (no = t)) as [->|].
    + rewrite fn_lookup_insert, length_put_word; [apply took_len; [done|lia]|].
      rewrite took_len by (done || lia). unfold BSIZE. lia.
    + rewrite fn_lookup_insert_ne by done. apply took_len; [done|lia].
  - split; [done|]. split; [done|]. intros p' j' E. rewrite Hp in E. by injection E as <- <-.
Qed.

(** * Counting free blocks *)

Definition nfree (V : Z -> bytes) (sb : superblock) : nat :=
  length (filter (fun b => allocated V sb b = false) (seqZ 0 (sb_size sb))).

Lemma filter_length_same {A} (P Q : A -> Prop) `{!forall x, Decision (P x)}
    `{!forall x, Decision (Q x)} (l : list A) :
  (forall c, c ∈ l -> Q c <-> P c) -> length (filter P l) = length (filter Q l).
Proof.
  induction l as [|c l IH]; intros E; [done|].
  assert (IH' := IH ltac:(intros; apply E; set_solver)).
  destruct (decide (P c)) as [Hp|Hp].
  - rewrite !filter_cons_True; [simpl; by f_equal|by apply E; [set_solver|]|done].
  - rewrite !filter_cons_False; [done| |done]. intros Hq. apply Hp, E; [set_solver|done].
Qed.

Lemma filter_length_one {A} `{!EqDecision A} (P Q : A -> Prop) `{!forall x, Decision (P x)}
    `{!forall x, Decision (Q x)} (l : list A) (b : A) :
  NoDup l -> b ∈ l -> P b -> ~ Q b -> (forall c, c ∈ l -> c <> b -> Q c <-> P c) ->
  length (filter P l) = S (length (filter Q l)).
Proof.
  induction 1 as [|c l Hc Hd IH]; intros Hb Hp Hq E; [by apply not_elem_of_nil in Hb|].
  destruct (decide (c = b)) as [->|Hn].
  - rewrite filter_cons_True, filter_cons_False by done. simpl. f_equal.
    apply filter_length_same. intros c Hin. apply E; [set_solver|]. by intros ->.
  - assert (Hb' : b ∈ l) by set_solver.
    assert (IH' := IH Hb' Hp Hq ltac:(intros; apply E; [set_solver|done])).
    destruct (decide (P c)) as [Hpc|Hpc].
    + rewrite !filter_cons_True; [simpl; by f_equal|by apply E; [set_solver|..]|done].
    + rewrite !filter_cons_False; [done| |done]. intros Hqc. apply Hpc, E; [set_solver|done|done].
Qed.

Lemma nfree_filled sb V x s b V' x' :
  filled sb V x s b V' x' -> nfree V sb = S (nfree V' sb).
Proof.
  intros F. destruct (fl_free _ _ _ _ _ _ _ F) as (Hd & Hb & Hfree). unfold nfree.
  apply filter_length_one with b.
  - apply NoDup_seqZ.
  - apply elem_of_seqZ. lia.
  - done.
  - rewrite (fl_alloc _ _ _ _ _ _ _ F), decide_True by (done || lia). done.
  - intros c Hc Hn. apply elem_of_seqZ in Hc. rewrite (fl_alloc _ _ _ _ _ _ _ F) by lia.
    by rewrite decide_False.
Qed.

Lemma nfree_none sb V :
  (forall j, 0 <= j < sb_size sb -> allocated V sb j = true) -> nfree V sb = O.
Proof.
  intros Hall. unfold nfree. rewrite (filter_length_same _ (fun _ => False)).
  - induction (seqZ 0 (sb_size sb)) as [|y l IH]; [done|]. rewrite filter_cons_False by tauto. exact IH.
  - intros c Hc. apply elem_of_seqZ in Hc. rewrite Hall by lia. naive_solver.
Qed.
