(* ===== verification/FsFile.v ===== *)
(** Inode content of kernel/fs.c: [bmap], [readi] and [writei] against the
    content of a file, a function from offsets to bytes. *)

From S2P Require Import Prelude BufCache BufSpec KState Log CString Fs FsAlloc FsTree.
Local Open Scope Z_scope.

Section file.
Context {U : Type}.
Implicit Types k : kst U.

(** Everything but the log header, the console and inode [ip] is the same. *)
Record kip (ip : nat) (k k' : kst U) : Prop := {
  kip_sb : k_sb k' = k_sb k;
  kip_it : forall j, j <> ip -> k_itable k' j = k_itable k j;
  kip_ft : k_ftable k' = k_ftable k;
  kip_pid : k_pid k' = k_pid k;
  kip_of : k_ofile k' = k_ofile k;
  kip_cwd : k_cwd k' = k_cwd k;
  kip_mem : k_mem k' = k_mem k;
  kip_ext : k_ext k' = k_ext k;
  kip_log : log_start (k_log k') = log_start (k_log k) /\ log_size (k_log k') = log_size (k_log k) /\
    log_outstanding (k_log k') = log_outstanding (k_log k) /\
    log_committing (k_log k') = log_committing (k_log k);
}.

Lemma kip_refl ip k : kip ip k k.
Proof. by split. Qed.
Lemma kip_trans ip k k1 k2 : kip ip k k1 -> kip ip k1 k2 -> kip ip k k2.
Proof.
  intros [] []. split; try congruence.
  - intros j Hj. rewrite kip_it1, kip_it0; done.
  - destruct kip_log0 as (?&?&?&?), kip_log1 as (?&?&?&?). repeat split; congruence.
Qed.
Lemma kip_klog ip k k' : klog_only k k' -> kip ip k k'.
Proof. intros (? & ? & ? & ->). by split. Qed.
Lemma kip_imod ip k f : kip ip k (set_k_itable (<[ip := f (k_itable k ip)]> (k_itable k)) k).
Proof. split; try done. intros j Hj. simpl. by apply fn_lookup_insert_ne. Qed.
Lemma kip_room ip k k' L n : kip ip k k' -> room k L n -> room k' L n.
Proof. intros [] . unfold room. destruct kip_log0 as (_ & -> & -> & _). done. Qed.

(** A locked inode and the transaction around it. *)
Record fstate (ip : nat) (k : kst U) (a : abio) (V D : Z -> bytes) (hs : list (Z * bytes))
    (L : list Z) (x : inode) : Prop := {
  fs_tx : tx k a V D hs ∅ ∅ L;
  fs_it : k_itable k ip = x;
  fs_dev : i_dev x = ROOTDEV;
  fs_fs : fs_ok (k_sb k) V;
  fs_tree : tree_ok (k_sb k) V x;
}.

(** At most [nl] more blocks are logged and [nf] more are in use. *)
Record stepped (ip : nat) (k : kst U) (V : Z -> bytes) (x : inode) (L : list Z)
    (k' : kst U) (V' : Z -> bytes) (x' : inode) (L' : list Z) (nl nf : nat) : Prop := {
  st_kip : kip ip k k';
  st_grow : grow (k_sb k) V x V' x';
  st_len : (length L' <= length L + nl)%nat;
  st_free : (nfree V (k_sb k) <= nfree V' (k_sb k) + nf)%nat;
  st_log : forall y, y ∈ L' -> y ∈ L \/ sb_bmapstart (k_sb k) <= y < sb_size (k_sb k);
}.

Lemma stepped_refl ip k V x L : stepped ip k V x L k V x L 0 0.
Proof. split; [apply kip_refl|apply grow_refl|lia|lia|auto]. Qed.

Lemma stepped_trans ip k V x L k1 V1 x1 L1 k2 V2 x2 L2 n1 f1 n2 f2 :
  tree_ok (k_sb k) V x ->
  stepped ip k V x L k1 V1 x1 L1 n1 f1 -> stepped ip k1 V1 x1 L1 k2 V2 x2 L2 n2 f2 ->
  stepped ip k V x L k2 V2 x2 L2 (n1 + n2) (f1 + f2).
Proof.
  intros Hok [] []. rewrite (kip_sb _ _ _ st_kip0) in *. split.
  - by eapply kip_trans.
  - by eapply grow_trans.
  - lia.
  - lia.
  - intros y [Hy|Hy]%st_log1; [by apply st_log0|by right].
Qed.

Lemma stepped_weaken ip k V x L k' V' x' L' n f n' f' :
  stepped ip k V x L k' V' x' L' n f -> (n <= n')%nat -> (f <= f')%nat ->
  stepped ip k V x L k' V' x' L' n' f'.
Proof. intros [] ? ?. split; try done; lia. Qed.

(** Held tables are allocated data blocks: [balloc] may run. *)
Lemma alloc_pre_tree k V x (H : gset Z) :
  fs_ok (k_sb k) V -> tree_ok (k_sb k) V x ->
  (forall t, t ∈ H -> exists s, slot_ok s /\ slot_addr V x s = t /\ t <> 0) -> alloc_pre k V H.
Proof.
  intros Hfs Hok HH. pose proof Hfs as ((Hbo & Hg) & HV & Hfree). split.
  - done.
  - destruct (allocated V (k_sb k) 0) eqn:E; [done|]. apply Hfree in E; [|unfold bitmap_ok in Hbo; lia].
    unfold data_block, bitmap_ok, BPB, BSIZE in *.
    assert (0 <= (sb_size (k_sb k) - 1) / (1024 * 8)) by (apply Z.div_pos; lia). lia.
  - intros y Hy Hin. destruct (HH y Hin) as (s & Hs & <- & Hn). by eapply tree_table.
  - intros b Hb Ha. split.
    + intros Hin. destruct (HH b Hin) as (s & Hs & <- & Hn).
      destruct (to_data _ _ _ Hok s Hs Hn). congruence.
    + intros Hbm. by eapply bitmap_not_data, Hfree.
Qed.

(** Post-condition of filling or finding a slot. *)
Definition slot_post ip k V D hs L x (s : slot) (nl nf : nat) : Z -> kst U -> abio -> Prop :=
  fun r k' a' => exists V' x' L',
    fstate ip k' a' V' D hs L' x' /\ stepped ip k V x L k' V' x' L' nl nf /\
    r = slot_addr V' x' s /\ r <> 0.

Lemma filled_stepped ip k V x s b V' x' L k' L' nl :
  fs_ok (k_sb k) V -> tree_ok (k_sb k) V x -> filled (k_sb k) V x s b V' x' ->
  kip ip k k' -> (length L' <= length L + nl)%nat ->
  (forall y, y ∈ L' -> y ∈ L \/ sb_bmapstart (k_sb k) <= y < sb_size (k_sb k)) ->
  stepped ip k V x L k' V' x' L' nl 1.
Proof.
  intros Hfs Hok F Hk Hlen HL. split; [done|by eapply filled_grow|done| |done].
  rewrite (nfree_filled _ _ _ _ _ _ _ F). lia.
Qed.

Lemma bb_range k V b :
  fs_ok (k_sb k) V -> first_free V (k_sb k) b ->
  (sb_bmapstart (k_sb k) <= BBLOCK b (k_sb k) < sb_size (k_sb k)) /\
  (sb_bmapstart (k_sb k) <= b < sb_size (k_sb k)).
Proof.
  intros Hfs Hff. pose proof (first_free_data _ _ _ Hfs Hff) as (Hd & Hb & _).
  destruct Hfs as ((Hbo & Hg) & _).
  destruct (BBLOCK_range (k_sb k) b Hbo ltac:(lia)) as (_ & _ & Hbm).
  unfold bitmap_block, data_block, bitmap_ok, BPB, BSIZE in *.
  assert (0 <= (sb_size (k_sb k) - 1) / (1024 * 8)) by (apply Z.div_pos; lia). lia.
Qed.

Lemma wp_bmap_addr ip k a V D hs L x s :
  fstate ip k a V D hs L x -> slot_ok s -> parent s = None -> (1 <= nfree V (k_sb k))%nat ->
  room k L 2 -> cap ∅ L 2 ->
  wp (bmap_addr ip (root_index s)) (slot_post ip k V D hs L x s 2 1) k a.
Proof.
  intros FS Hs Hp Hnf Hr Hc. pose proof FS as [T Hit Hdev Hfs Hok]. unfold bmap_addr. fs_steps.
  rewrite Hit. destruct (Z.eqb_spec (i_addr x (root_index s)) 0) as [E|E].
  2: { apply wp_ret. exists V, x, L. split; [done|].
       split; [by eapply stepped_weaken; [apply stepped_refl|lia|lia]|].
       by rewrite slot_addr_root. }
  fs_steps. rewrite Hdev. eapply wp_mono.
  { apply (wp_balloc k a V D hs ∅ ∅ L T); [|done|done].
    eapply alloc_pre_tree; [done|done|]. intros t []%not_elem_of_empty. }
  intros b k1 a1 [Hk [(-> & Hall & _)|(Hff & T1)]]; [rewrite nfree_none in Hnf by done; lia|].
  pose proof (first_free_data _ _ _ Hfs Hff) as (Hd & Hb & _).
  rewrite (proj2 (Z.eqb_neq b 0)) by lia. fs_steps.
  rewrite <- slot_addr_root with (V := V) in E by done.
  pose proof (fill_root _ _ _ _ _ Hfs Hok Hs Hp E Hff) as F.
  destruct (bb_range k V b Hfs Hff) as [Hbb1 Hbb2].
  set (k2 := set_k_itable _ _). set (x2 := set_i_addr (root_index s) b x) in *.
  assert (Hit1 : k_itable k1 ip = x) by (by rewrite (klog_only_itable _ _ Hk)).
  assert (Hkip : kip ip k k2) by (eapply kip_trans; [by apply kip_klog|apply kip_imod]).
  exists (took V (k_sb k) b), x2, (log_add (log_add L (BBLOCK b (k_sb k))) b).
  split; [|split; [|split]].
  - rewrite <- (kip_sb _ _ _ Hkip) in *. split.
    + eapply tx_kst; [|exact T1]. done.
    + simpl. rewrite fn_lookup_insert. by rewrite Hit1.
    + done.
    + by eapply filled_fs.
    + by eapply filled_tree.
  - eapply filled_stepped; [done..| |].
    + pose proof (log_add_length L (BBLOCK b (k_sb k))).
      pose proof (log_add_length (log_add L (BBLOCK b (k_sb k))) b). lia.
    + intros y [[Hy| ->]%log_add_elem| ->]%log_add_elem; auto.
  - rewrite (filled_addr _ _ _ _ _ _ _ Hfs Hok F s Hs), decide_True by done. done.
  - lia.
Qed.

Lemma tree_addr_range k V x s :
  fs_ok (k_sb k) V -> tree_ok (k_sb k) V x -> slot_ok s -> slot_addr V x s <> 0 ->
  0 <= slot_addr V x s < 2 ^ 31 /\ sb_bmapstart (k_sb k) <= slot_addr V x s < sb_size (k_sb k).
Proof.
  intros ((Hbo & Hg) & _) Hok Hs Hn. destruct (to_data _ _ _ Hok s Hs Hn) as [Hd _].
  unfold data_block, bitmap_ok, BPB, BSIZE in *.
  assert (0 <= (sb_size (k_sb k) - 1) / (1024 * 8)) by (apply Z.div_pos; lia). lia.
Qed.

Lemma wp_bmap_entry ip k a V D hs L x s p j :
  fstate ip k a V D hs L x -> slot_ok s -> parent s = Some (p, j) -> slot_addr V x p <> 0 ->
  (1 <= nfree V (k_sb k))%nat -> room k L 3 -> cap ∅ L 4 ->
  wp (bmap_entry ROOTDEV (slot_addr V x p) j) (slot_post ip k V D hs L x s 3 1) k a.
Proof.
  intros FS Hs Hp Hpn Hnf Hr Hc. pose proof FS as [T Hit Hdev Hfs Hok].
  destruct (parent_ok _ _ _ Hs Hp) as [Hpo Hj]. change NINDIRECT with 256 in Hj.
  destruct (tree_addr_range k V x p Hfs Hok Hpo Hpn) as [Ht Ht'].
  pose proof (slot_addr_entry V x s p j Hp) as Es. unfold entry in Es.
  rewrite (proj2 (Z.eqb_neq _ 0)) in Es by done.
  set (t := slot_addr V x p) in *. unfold bmap_entry. fs_steps.
  eapply wp_tx_bread; [exact T|done|done|set_solver|right; unfold cap in Hc; lia|].
  intros a1 T1. fs_steps. eapply wp_tx_data; [done|set_solver|done|]. fs_steps. rewrite <- Es.
  destruct (Z.eqb_spec (slot_addr V x s) 0) as [E|E].
  2: { fs_steps. eapply wp_tx_brelse; [done|set_solver|done|set_solver|]. intros a2 T2. fs_steps.
       rewrite set_add_remove in T2 by set_solver. exists V, x, L.
       split; [by split|]. split; [by eapply stepped_weaken; [apply stepped_refl|lia|lia]|done]. }
  fs_steps. eapply wp_mono.
  { apply (wp_balloc k a1 V D hs _ ∅ L T1).
    - eapply alloc_pre_tree; [done|done|]. intros y [Hy|Hy]%elem_of_union; [|by apply not_elem_of_empty in Hy].
      apply elem_of_singleton in Hy as ->. by exists p.
    - destruct Hr as (?&?&?). split; [lia|split; lia].
    - unfold cap in *. rewrite union_empty_r_L, size_singleton. rewrite size_empty in Hc. lia. }
  intros b k1 a2 [Hk [(-> & Hall & _)|(Hff & T2)]]; [rewrite nfree_none in Hnf by done; lia|].
  pose proof (first_free_data _ _ _ Hfs Hff) as (Hd & Hb & _).
  rewrite (proj2 (Z.eqb_neq b 0)) by lia. simpl.
  destruct (bb_range k V b Hfs Hff) as [Hbb1 Hbb2].
  set (L1 := log_add (log_add L (BBLOCK b (k_sb k))) b) in *.
  assert (HL1 : (length L1 <= length L + 2)%nat).
  { unfold L1. pose proof (log_add_length L (BBLOCK b (k_sb k))).
    pose proof (log_add_length (log_add L (BBLOCK b (k_sb k))) b). lia. }
  fs_steps. eapply wp_tx_data; [done|set_solver|done|]. fs_steps.
  pose proof (tx_len _ _ _ _ _ _ _ _ T2 t) as Hlen. unfold BSIZE in Hlen.
  eapply wp_tx_set; [done|set_solver|done|rewrite length_put_word; unfold BSIZE; lia|].
  intros a3 T3. fs_steps.
  eapply wp_tx_log_write; [done|set_solver|done| |].
  { eapply klog_only_room; [exact Hk|]. destruct Hr as (?&?&?). split; [lia|split; lia]. }
  intros n blk a4 T4. fs_steps. eapply wp_tx_brelse; [done|set_solver|done|set_solver|].
  intros a5 T5. fs_steps. rewrite set_add_remove in T5 by set_solver.
  replace (({[t]} ∪ ∅) ∖ {[t]}) with (∅ : gset Z) in T5 by set_solver.
  pose proof (fill_table _ _ _ _ _ _ _ Hfs Hok Hs Hp Hpn E Hff) as F. fold t in F.
  assert (Hkip : kip ip k (with_lh n blk k1)).
  { eapply kip_trans; apply kip_klog; [exact Hk|apply klog_only_lh]. }
  do 3 eexists. split; [|split; [|split]].
  - split; [exact T5|simpl; by rewrite (klog_only_itable _ _ Hk)|done| |];
      rewrite (kip_sb _ _ _ Hkip); [by eapply filled_fs|by eapply filled_tree].
  - eapply filled_stepped; [done..| |].
    + pose proof (log_add_length L1 t). lia.
    + intros y [[[Hy| ->]%log_add_elem| ->]%log_add_elem| ->]%log_add_elem; auto.
  - by rewrite (filled_addr _ _ _ _ _ _ _ Hfs Hok F s Hs), decide_True by done.
  - lia.
Qed.

Lemma slot_post_trans ip k V D hs L x k1 V1 L1 x1 s n1 f1 n2 f2 r k' a' :
  tree_ok (k_sb k) V x -> stepped ip k V x L k1 V1 x1 L1 n1 f1 ->
  slot_post ip k1 V1 D hs L1 x1 s n2 f2 r k' a' ->
  slot_post ip k V D hs L x s (n1 + n2) (f1 + f2) r k' a'.
Proof.
  intros Hok S1 (V' & x' & L' & FS & S2 & Hr). exists V', x', L'.
  split; [done|]. split; [by eapply stepped_trans|done].
Qed.

Lemma slot_post_weaken ip k V D hs L x s n f n' f' r k' a' :
  slot_post ip k V D hs L x s n f r k' a' -> (n <= n')%nat -> (f <= f')%nat ->
  slot_post ip k V D hs L x s n' f' r k' a'.
Proof.
  intros (V' & x' & L' & FS & S & Hr) ? ?. exists V', x', L'.
  split; [done|]. split; [by eapply stepped_weaken|done].
Qed.

(** Find or fill the table [p], then the slot [s] in it. *)
Lemma wp_bmap_below {A} ip k a V D hs L x p n1 f1 (m : K U Z) (f : Z -> K U A)
    (Q : A -> kst U -> abio -> Prop) :
  fstate ip k a V D hs L x -> wp m (slot_post ip k V D hs L x p n1 f1) k a ->
  (forall k1 a1 V1 L1 x1, fstate ip k1 a1 V1 D hs L1 x1 ->
     stepped ip k V x L k1 V1 x1 L1 n1 f1 -> slot_addr V1 x1 p <> 0 ->
     wp (f (slot_addr V1 x1 p)) Q k1 a1) ->
  wp (m ≫= f) Q k a.
Proof.
  intros FS Hm Hf. apply wp_bind. eapply wp_mono; [exact Hm|].
  intros r k1 a1 (V1 & x1 & L1 & FS1 & S1 & -> & Hn). by eapply Hf.
Qed.

Lemma stepped_room ip k V x L k' V' x' L' (n f : nat) m :
  stepped ip k V x L k' V' x' L' n f -> room k L (Z.of_nat n + m) -> 0 <= m -> room k' L' m.
Proof.
  intros [Hk _ Hl _] Hr Hm. eapply kip_room; [exact Hk|]. destruct Hr as (?&?&?).
  split; [lia|]. split; [lia|done].
Qed.

Lemma stepped_cap ip k V x L k' V' x' L' (n f m : nat) :
  stepped ip k V x L k' V' x' L' n f -> cap ∅ L (n + m) -> cap ∅ L' m.
Proof. intros [_ _ Hl _]. unfold cap. lia. Qed.

Lemma room_le k L n m : room k L n -> m <= n -> room k L m.
Proof. intros (?&?&?) ?. split; [lia|split; [lia|done]]. Qed.
Lemma cap_le H L n m : cap H L n -> (m <= n)%nat -> cap H L m.
Proof. unfold cap. lia. Qed.

(** Room and capacity follow from what is at hand. *)
Ltac fits :=
  first
    [ done
    | lia
    | eapply room_le; [eassumption|lia]
    | eapply cap_le; [eassumption|lia]
    | eapply stepped_room; [eassumption|eapply room_le; [eassumption|lia]|lia]
    | eapply stepped_cap; [eassumption|eapply cap_le; [eassumption|lia]] ].

Lemma wp_bmap ip k a V D hs L x bn :
  fstate ip k a V D hs L x -> 0 <= bn < MAXFILE -> (3 <= nfree V (k_sb k))%nat ->
  room k L 8 -> cap ∅ L 9 ->
  wp (bmap ip bn) (slot_post ip k V D hs L x (slot_of bn) 8 3) k a.
Proof.
  intros FS Hbn Hnf Hr Hc. pose proof (fs_tree _ _ _ _ _ _ _ _ FS) as Hok.
  destruct (slot_of_ok bn Hbn) as [Hso _]. unfold bmap, slot_of in *.
  destruct (Z.ltb_spec bn NDIRECT) as [Hd|Hd].
  { eapply wp_mono; [eapply (wp_bmap_addr ip k a V D hs L x (SDir bn) FS Hso eq_refl);
      fits|].
    intros r k' a' P. eapply slot_post_weaken; [exact P|lia|lia]. }
  destruct (Z.ltb_spec (bn - NDIRECT) NINDIRECT) as [Hi|Hi].
  { eapply (wp_bmap_below ip k a V D hs L x SInd 2 1); [done| |].
    - apply (wp_bmap_addr ip k a V D hs L x SInd); fits.
    - intros k1 a1 V1 L1 x1 FS1 S1 Hn. rewrite (proj2 (Z.eqb_neq _ 0)) by done. fs_steps.
      rewrite (fs_it _ _ _ _ _ _ _ _ FS1), (fs_dev _ _ _ _ _ _ _ _ FS1).
      pose proof (st_free _ _ _ _ _ _ _ _ _ _ _ S1) as Hf1.
      rewrite <- (kip_sb _ _ _ (st_kip _ _ _ _ _ _ _ _ _ _ _ S1)) in Hf1 at 2.
      eapply wp_mono.
      { eapply (wp_bmap_entry ip k1 a1 V1 D hs L1 x1 (SIndE (bn - NDIRECT)) SInd); fits. }
      intros r k' a' P. eapply slot_post_weaken; [by eapply slot_post_trans|lia|lia]. }
  rewrite (proj2 (Z.ltb_lt _ DOUBLEINDIRECT)) by (unfold MAXFILE in Hbn; lia).
  set (j := (bn - NDIRECT - NINDIRECT) / NINDIRECT) in *.
  set (e := (bn - NDIRECT - NINDIRECT) mod NINDIRECT) in *.
  eapply (wp_bmap_below ip k a V D hs L x SDbl 2 1); [done| |].
  { apply (wp_bmap_addr ip k a V D hs L x SDbl); fits. }
  intros k1 a1 V1 L1 x1 FS1 S1 Hn1. rewrite (proj2 (Z.eqb_neq _ 0)) by done.
  apply wp_bind, wp_kinode.
  rewrite (fs_it _ _ _ _ _ _ _ _ FS1), (fs_dev _ _ _ _ _ _ _ _ FS1).
  pose proof (st_free _ _ _ _ _ _ _ _ _ _ _ S1) as Hf1.
  rewrite <- (kip_sb _ _ _ (st_kip _ _ _ _ _ _ _ _ _ _ _ S1)) in Hf1 at 2.
  assert (Hr1 : room k1 L1 6) by fits.
  assert (Hc1 : cap ∅ L1 7) by fits.
  apply wp_bind. eapply wp_mono.
  { eapply (wp_bmap_entry ip k1 a1 V1 D hs L1 x1 (SDblT j) SDbl j); [done|apply Hso|fits..]. }
  intros r2 k2 a2 (V2 & x2 & L2 & FS2 & S2 & -> & Hn2).
  pose proof (st_free _ _ _ _ _ _ _ _ _ _ _ S2) as Hf2.
  rewrite <- (kip_sb _ _ _ (st_kip _ _ _ _ _ _ _ _ _ _ _ S2)) in Hf2 at 2.
  eapply wp_mono.
  { eapply (wp_bmap_entry ip k2 a2 V2 D hs L2 x2 (SDblE j e) (SDblT j) e); [done|apply Hso|fits..]. }
  intros r k' a' P. eapply slot_post_weaken.
  - eapply slot_post_trans; [done|exact S1|]. eapply slot_post_trans; [|exact S2|exact P].
    apply FS1.
  - lia.
  - lia.
Qed.

End file.
