(* ===== verification/FsWrite.v ===== *)
(** [writei] and [readi] of kernel/fs.c: reading and writing a file is reading
    and writing its content. *)

From S2P Require Import Prelude BufCache BufSpec KState Log CString Fs FsAlloc FsTree FsFile.
Local Open Scope Z_scope.

(** * Changing a data block *)

Section leaf_write.
Context (sb : superblock) (V : Z -> bytes) (x : inode) (s : slot) (d : bytes).
Context (Hfs : fs_ok sb V) (Hok : tree_ok sb V x).
Context (Hs : slot_ok s) (Hl : leaf s) (Hn : slot_addr V x s <> 0) (Hd : Z.of_nat (length d) = BSIZE).
Let V' := <[slot_addr V x s := d]> V.

Lemma leaf_word p j : slot_ok p -> ~ leaf p -> entry V' (slot_addr V x p) j = entry V (slot_addr V x p) j.
Proof using Hok Hs Hl Hn.
  intros Hp Hpl. unfold entry, V'. destruct (Z.eqb_spec (slot_addr V x p) 0); [done|].
  rewrite fn_lookup_insert_ne; [done|]. intros E.
  pose proof (to_inj _ _ _ Hok s p Hs Hp Hn E). by subst.
Qed.

Lemma leaf_addr s' : slot_ok s' -> slot_addr V' x s' = slot_addr V x s'.
Proof using Hok Hs Hl Hn.
  destruct s' as [i| | |j|j|j e]; intros Hs'; try done.
  - apply (leaf_word SInd); simpl; tauto.
  - apply (leaf_word SDbl); simpl; tauto.
  - change (entry V' (entry V' (slot_addr V x SDbl) j) e = slot_addr V x (SDblE j e)).
    rewrite (leaf_word SDbl) by (simpl; tauto). destruct Hs'.
    apply (leaf_word (SDblT j)); simpl; tauto.
Qed.

Lemma leaf_alloc b : 0 <= b < sb_size sb -> allocated V' sb b = allocated V sb b.
Proof using Hfs Hok Hs Hn.
  intros Hb. unfold allocated, V'. do 2 f_equal. apply fn_lookup_insert_ne. intros E.
  apply (tree_table sb V x s Hok Hs Hn). rewrite E. apply BBLOCK_range; [apply Hfs|done].
Qed.

Lemma leaf_tree : tree_ok sb V' x.
Proof using Hfs Hok Hs Hl Hn.
  split.
  - apply Hok.
  - intros s' Hs'. rewrite leaf_addr by done. intros Hn'.
    destruct (to_data _ _ _ Hok s' Hs' Hn') as [Hd' Ha]. split; [done|].
    rewrite leaf_alloc; [done|]. eapply data_block_range; [apply Hfs|done].
  - intros s1 s2 H1 H2. rewrite !leaf_addr by done. by apply Hok.
Qed.

Lemma leaf_fs : fs_ok sb V'.
Proof using Hfs Hok Hs Hn Hd.
  pose proof Hfs as (Hg & HV & Hf). split; [done|]. split.
  - intros no. unfold V'. destruct (decide (no = slot_addr V x s)) as [->|].
    + by rewrite fn_lookup_insert.
    + by rewrite fn_lookup_insert_ne.
  - intros b Hb. rewrite leaf_alloc by done. by apply Hf.
Qed.

Lemma leaf_nfree : nfree V' sb = nfree V sb.
Proof using Hfs Hok Hs Hn.
  unfold nfree. apply filter_length_same. intros c Hc. apply elem_of_seqZ in Hc.
  by rewrite leaf_alloc by lia.
Qed.

Lemma leaf_content i bn :
  s = slot_of bn -> 0 <= bn < MAXFILE -> 0 <= i < MAXFILE * BSIZE ->
  content V' x i = if decide (i / BSIZE = bn) then byte_at d (i mod BSIZE) else content V x i.
Proof using Hok Hs Hl Hn.
  intros Es Hbn Hi. unfold content.
  assert (Hib : 0 <= i / BSIZE < MAXFILE) by (apply block_index; lia).
  destruct (slot_of_ok _ Hib) as [Hso _]. rewrite leaf_addr by done.
  case_decide as E.
  - rewrite E, <- Es. rewrite (proj2 (Z.eqb_neq _ 0)) by done. unfold V'. by rewrite fn_lookup_insert.
  - destruct (Z.eqb_spec (slot_addr V x (slot_of (i / BSIZE))) 0); [done|].
    unfold V'. rewrite fn_lookup_insert_ne; [done|]. intros E'. apply E.
    apply slot_of_inj; [done|done|]. rewrite <- Es. symmetry. by apply (to_inj _ _ _ Hok).
Qed.
End leaf_write.

(** * What writing a file may change *)

Record frames (sb : superblock) (V : Z -> bytes) (x : inode) (V' : Z -> bytes) (x' : inode) : Prop := {
  fr_inode : exists l, x' = set_i_addrs l x;
  fr_block : forall b, ~ bitmap_block sb b -> (0 <= b < sb_size sb -> allocated V sb b = true) ->
      (forall s, slot_ok s -> slot_addr V x s = b -> b = 0) -> V' b = V b;
  fr_owned : forall s, slot_ok s -> slot_addr V' x' s = 0 \/ slot_addr V' x' s = slot_addr V x s \/
      (0 <= slot_addr V' x' s < sb_size sb /\ allocated V sb (slot_addr V' x' s) = false);
  fr_alloc : forall b, 0 <= b < sb_size sb -> allocated V sb b = true -> allocated V' sb b = true;
}.

Lemma frames_refl sb V x : frames sb V x V x.
Proof. split; auto. exists (i_addrs x). by destruct x. Qed.

Lemma frames_trans sb V x V1 x1 V2 x2 :
  frames sb V x V1 x1 -> frames sb V1 x1 V2 x2 -> frames sb V x V2 x2.
Proof.
  intros F1 F2. split.
  - destruct (fr_inode _ _ _ _ _ F1) as [l ->], (fr_inode _ _ _ _ _ F2) as [l' ->]. by eexists.
  - intros b Hb Ha Ho. transitivity (V1 b); [|by apply (fr_block _ _ _ _ _ F1)].
    apply (fr_block _ _ _ _ _ F2); [done| |].
    + intros Hr. apply (fr_alloc _ _ _ _ _ F1); auto.
    + intros s Hs E. destruct (fr_owned _ _ _ _ _ F1 s Hs) as [E0|[E0|[Hr Hf]]].
      * congruence.
      * apply (Ho s Hs). congruence.
      * exfalso. rewrite E in Hr, Hf. by rewrite (Ha Hr) in Hf.
  - intros s Hs. destruct (fr_owned _ _ _ _ _ F2 s Hs) as [E0|[E0|[Hr Hf]]]; [by left| |].
    + rewrite E0. by apply (fr_owned _ _ _ _ _ F1).
    + right. right. split; [done|]. destruct (allocated V sb (slot_addr V2 x2 s)) eqn:E; [|done].
      apply (fr_alloc _ _ _ _ _ F1) in E; [congruence|done].
  - intros b Hb Ha. apply (fr_alloc _ _ _ _ _ F2), (fr_alloc _ _ _ _ _ F1); auto.
Qed.

Lemma grow_frames sb V x V' x' : grow sb V x V' x' -> frames sb V x V' x'.
Proof.
  intros G. split; [apply G| | |apply G].
  - intros b Hb Ha Ho. apply (g_frame _ _ _ _ _ G); [done|done|]. intros s Hs _. by apply Ho.
  - intros s Hs. destruct (decide (slot_addr V x s = 0)) as [E|E].
    + destruct (g_fresh _ _ _ _ _ G s Hs E) as [?|(?&?&?)]; auto.
    + right. left. by apply (g_slots _ _ _ _ _ G).
Qed.

Lemma leaf_frames sb V x s d :
  fs_ok sb V -> tree_ok sb V x -> slot_ok s -> leaf s -> slot_addr V x s <> 0 ->
  frames sb V x (<[slot_addr V x s := d]> V) x.
Proof.
  intros Hfs Hok Hs Hl Hn. split.
  - exists (i_addrs x). by destruct x.
  - intros b Hb Ha Ho. apply fn_lookup_insert_ne. intros E. apply Hn. rewrite E. by apply (Ho s).
  - intros s' Hs'. right. left. by apply (leaf_addr sb).
  - intros b Hb Ha. by rewrite (leaf_alloc sb).
Qed.

Lemma byte_at_put_bytes d off c j :
  0 <= off -> off + Z.of_nat (length c) <= Z.of_nat (length d) -> 0 <= j ->
  byte_at (put d off c) j =
    if decide (off <= j < off + Z.of_nat (length c)) then byte_at c (j - off) else byte_at d j.
Proof.
  intros Ho Hl Hj. unfold byte_at. rewrite !list_lookup_total_alt. case_decide.
  - rewrite put_lookup_in by lia. do 2 f_equal. lia.
  - by rewrite put_lookup_out by lia.
Qed.

Lemma byte_at_sub d off len j :
  0 <= off -> 0 <= j < len -> byte_at (sub_bytes d off len) j = byte_at d (off + j).
Proof.
  intros Ho Hj. unfold byte_at, sub_bytes. rewrite !list_lookup_total_alt.
  rewrite lookup_take_lt by lia. rewrite lookup_drop. do 2 f_equal. lia.
Qed.

(** * Writing *)

Section write.
Context {U : Type} `{!UserMem U}.
Implicit Types k : kst U.

(** The source holds [dat]: every part of it can be copied in. *)
Definition src_is (u : U) (src : source) (dat : bytes) : Prop :=
  match src with
  | KernelSrc d => d = dat
  | UserSrc va => forall tot m, 0 <= tot -> 0 <= m -> tot + m <= Z.of_nat (length dat) ->
      copyin u (u64 (va + tot)) m = (sub_bytes dat tot m, true)
  end.

Lemma wp_either_copyin src tot m dat (Q : bytes * bool -> kst U -> abio -> Prop) k a :
  src_is (k_mem k) src dat -> 0 <= tot -> 0 <= m -> tot + m <= Z.of_nat (length dat) ->
  Q (sub_bytes dat tot m, true) k a -> wp (either_copyin src tot m) Q k a.
Proof.
  intros Hs H1 H2 H3 HQ. unfold either_copyin. destruct src as [va|d]; simpl in Hs.
  - fs_steps. by rewrite Hs.
  - subst. by apply wp_ret.
Qed.

(** The effect of writing [dat] at [off]. *)
Record written ip k (V : Z -> bytes) (x : inode) (L : list Z) (off : Z) (dat : bytes)
    (k' : kst U) (V' : Z -> bytes) (x' : inode) (L' : list Z) (nl nf : nat) : Prop := {
  wr_kip : kip ip k k';
  wr_frames : frames (k_sb k) V x V' x';
  wr_len : (length L' <= length L + nl)%nat;
  wr_free : (nfree V (k_sb k) <= nfree V' (k_sb k) + nf)%nat;
  wr_log : forall y, y ∈ L' -> y ∈ L \/ sb_bmapstart (k_sb k) <= y < sb_size (k_sb k);
  wr_content : forall i, 0 <= i < MAXFILE * BSIZE -> content V' x' i =
      if decide (off <= i < off + Z.of_nat (length dat)) then byte_at dat (i - off) else content V x i;
  wr_keep : forall s, slot_ok s -> slot_addr V x s <> 0 -> slot_addr V' x' s = slot_addr V x s;
  wr_have : forall i, 0 <= i < MAXFILE * BSIZE -> off <= i < off + Z.of_nat (length dat) ->
      slot_addr V' x' (slot_of (i / BSIZE)) <> 0;
}.

Lemma written_nil ip k V x L off : written ip k V x L off [] k V x L 0 0.
Proof.
  split; [apply kip_refl|apply frames_refl|lia|lia|auto| |auto|simpl; lia].
  intros i Hi. simpl. by rewrite decide_False by lia.
Qed.

Lemma written_trans ip k V x L off d1 k1 V1 x1 L1 n1 f1 d2 k2 V2 x2 L2 n2 f2 :
  written ip k V x L off d1 k1 V1 x1 L1 n1 f1 ->
  written ip k1 V1 x1 L1 (off + Z.of_nat (length d1)) d2 k2 V2 x2 L2 n2 f2 ->
  written ip k V x L off (d1 ++ d2) k2 V2 x2 L2 (n1 + n2) (f1 + f2).
Proof.
  intros [] []. rewrite (kip_sb _ _ _ wr_kip0) in *. split.
  - by eapply kip_trans.
  - by eapply frames_trans.
  - lia.
  - lia.
  - intros y [Hy|Hy]%wr_log1; [by apply wr_log0|by right].
  - intros i Hi. rewrite wr_content1, wr_content0 by done. rewrite length_app. unfold byte_at.
    repeat case_decide; try lia; try done; rewrite !list_lookup_total_alt.
    + rewrite lookup_app_r by lia. do 2 f_equal. lia.
    + by rewrite lookup_app_l by lia.
  - intros s Hs Hn. rewrite wr_keep1, wr_keep0; [done|done|done|done|by rewrite wr_keep0].
  - intros i Hi Hin. rewrite length_app in Hin.
    destruct (decide (i < off + Z.of_nat (length d1))).
    + pose proof (wr_have0 i Hi ltac:(lia)) as Hn.
      by rewrite wr_keep1 by (done || by apply slot_of_ok, block_index).
    + apply wr_have1; [done|lia].
Qed.

(** One iteration: find the block, store the chunk, log the block. *)
Lemma wp_write_chunk ip k a V D hs L x src dat tot off m (Q : Z * Z -> kst U -> abio -> Prop)
    (rest : K U (Z * Z)) :
  fstate ip k a V D hs L x -> src_is (k_mem k) src dat ->
  0 <= off -> 0 <= tot -> 0 < m -> off mod BSIZE + m <= BSIZE -> off + m <= MAXFILE * BSIZE ->
  tot + m <= Z.of_nat (length dat) ->
  (3 <= nfree V (k_sb k))%nat -> room k L 9 -> cap ∅ L 9 ->
  (forall k' a' V' L' x', fstate ip k' a' V' D hs L' x' ->
     written ip k V x L off (sub_bytes dat tot m) k' V' x' L' 9 3 -> wp rest Q k' a') ->
  wp (addr ← bmap ip (off / BSIZE);
      if addr =? 0 then mret (tot, off) else
      y ← kinode ip;
      bp ← kbread (i_dev y) addr;
      c ← either_copyin src tot m;
      d ← kdata bp;
      kset_data bp (put d (off mod BSIZE) c.1);;
      if negb c.2 then kbrelse bp;; mret (tot, off)
      else log_write bp;; kbrelse bp;; rest) Q k a.
Proof.
  intros FS Hsrc Hoff Htot Hm Hfit Hmax Hdat Hnf Hr Hc HQ.
  pose proof (Z.mod_pos_bound off BSIZE ltac:(done)) as Hmod.
  assert (Hbn : 0 <= off / BSIZE < MAXFILE) by (apply block_index; lia).
  eapply (wp_bmap_below ip k a V D hs L x (slot_of (off / BSIZE)) 8 3); [done| |].
  { apply wp_bmap; try done. eapply room_le; [exact Hr|lia]. }
  intros k1 a1 V1 L1 x1 FS1 S1 Hn. rewrite (proj2 (Z.eqb_neq _ 0)) by done.
  destruct (slot_of_ok _ Hbn) as [Hs Hl]. set (s := slot_of (off / BSIZE)) in *.
  pose proof FS1 as [T1 Hit1 Hdev1 Hfs1 Hok1].
  destruct (tree_addr_range k1 V1 x1 s Hfs1 Hok1 Hs Hn) as [Ha1 Ha2]. set (t := slot_addr V1 x1 s) in *.
  apply wp_bind, wp_kinode. rewrite Hit1, Hdev1. fs_steps.
  assert (Hc1 : cap ∅ L1 1) by (eapply stepped_cap; [exact S1|done]).
  eapply wp_tx_bread; [exact T1|done|done|set_solver|right; unfold cap in Hc1; lia|].
  intros a2 T2. fs_steps. apply (wp_either_copyin src tot m dat).
  { by rewrite (kip_mem _ _ _ (st_kip _ _ _ _ _ _ _ _ _ _ _ S1)). }
  1-3: lia.
  fs_steps. eapply wp_tx_data; [done|set_solver|done|]. fs_steps.
  pose proof (tx_len _ _ _ _ _ _ _ _ T2 t) as Hlen.
  assert (Hsub : Z.of_nat (length (sub_bytes dat tot m)) = m) by (rewrite length_sub_bytes; lia).
  set (d := put (V1 t) (off mod BSIZE) (sub_bytes dat tot m)).
  assert (Hd : Z.of_nat (length d) = BSIZE) by (unfold d; rewrite length_put; lia).
  eapply wp_tx_set; [done|set_solver|done|done|]. intros a3 T3. fs_steps.
  eapply wp_tx_log_write; [done|set_solver|done| |].
  { eapply stepped_room; [exact S1|eapply room_le; [exact Hr|lia]|lia]. }
  intros n blk a4 T4. fs_steps. eapply wp_tx_brelse; [done|set_solver|done|set_solver|].
  intros a5 T5. fs_steps. rewrite !set_add_remove in T5 by set_solver.
  assert (Hk2 : kip ip k1 (with_lh n blk k1)) by apply kip_klog, klog_only_lh.
  pose proof (kip_sb _ _ _ (st_kip _ _ _ _ _ _ _ _ _ _ _ S1)) as Esb.
  eapply HQ.
  - split; [exact T5|done|done|by apply (leaf_fs (k_sb k1))|by apply (leaf_tree (k_sb k1))].
  - destruct S1 as [Hk1 G1 Hlen1 Hfree1 Hlog1].  split.
    + by eapply kip_trans.
    + eapply frames_trans; [by apply grow_frames|]. rewrite <- Esb. by apply leaf_frames.
    + pose proof (log_add_length L1 t). lia.
    + rewrite <- Esb. unfold t. rewrite (leaf_nfree (k_sb k1)) by done. rewrite Esb. lia.
    + intros y [Hy| ->]%log_add_elem; [by apply Hlog1|right]. by rewrite <- Esb.
    + intros i Hi. unfold t. rewrite (leaf_content (k_sb k1) V1 x1 s d Hok1 Hs Hl Hn i (off / BSIZE)) by done.
      rewrite <- (grow_content (k_sb k) V x V1 x1 i Hi G1). rewrite Hsub.
      pose proof (Z.div_mod i BSIZE ltac:(done)) as Edm. pose proof (Z.mod_pos_bound i BSIZE ltac:(done)).
      pose proof (Z.div_mod off BSIZE ltac:(done)) as Edo.
      case_decide as E.
      * unfold d. rewrite byte_at_put_bytes by lia. rewrite Hsub. rewrite E in Edm.
        repeat case_decide; try lia.
        -- f_equal. lia.
        -- unfold content. rewrite E. fold s. fold t. by rewrite (proj2 (Z.eqb_neq _ 0)).
      * rewrite decide_False; [done|]. intros Hin. apply E. unfold BSIZE in *.
        symmetry. apply (Z.div_unique _ _ _ (i - 1024 * (off / 1024))); [left; lia|lia].
    + intros s' Hs' Hn'. unfold t. rewrite (leaf_addr (k_sb k1)) by done. by apply (g_slots _ _ _ _ _ G1).
    + intros i Hi Hin. rewrite Hsub in Hin.
      assert (i / BSIZE = off / BSIZE) as ->.
      { pose proof (Z.div_mod off BSIZE ltac:(done)). unfold BSIZE in *.
        symmetry. apply (Z.div_unique _ _ _ (i - 1024 * (off / 1024))); [left; lia|lia]. }
      unfold t. by rewrite (leaf_addr (k_sb k1)) by done.
Qed.

(** [c] blocks are enough for the rest of the transfer. *)
Definition spans (off len : Z) (c : nat) : Prop := off + len <= (off / BSIZE + Z.of_nat c) * BSIZE.

Lemma spans_step off len c m :
  m = Z.min len (BSIZE - off mod BSIZE) -> m < len -> spans off len (S c) ->
  spans (off + m) (len - m) c.
Proof.
  unfold spans. intros Hm Hlt Hs. pose proof (Z.div_mod off BSIZE ltac:(done)).
  pose proof (Z.mod_pos_bound off BSIZE ltac:(done)).
  assert ((off + m) / BSIZE = off / BSIZE + 1).
  { symmetry. apply (Z.div_unique _ _ _ 0); unfold BSIZE in *; lia. }
  unfold BSIZE in *. lia.
Qed.

Lemma spans_all off n : 0 <= n -> spans off n (Z.to_nat (n / BSIZE) + 2).
Proof.
  intros Hn. unfold spans. pose proof (Z.div_mod off BSIZE ltac:(done)).
  pose proof (Z.mod_pos_bound off BSIZE ltac:(done)). pose proof (Z.div_mod n BSIZE ltac:(done)).
  pose proof (Z.mod_pos_bound n BSIZE ltac:(done)).
  assert (0 <= n / BSIZE) by (apply Z.div_pos; unfold BSIZE; lia). unfold BSIZE in *. lia.
Qed.

Lemma spans_0 off n : 0 <= n -> spans off n 0 -> n = 0.
Proof.
  unfold spans. pose proof (Z.div_mod off BSIZE ltac:(done)).
  pose proof (Z.mod_pos_bound off BSIZE ltac:(done)). lia.
Qed.

Lemma sub_bytes_app (d : bytes) off m n :
  0 <= off -> 0 <= m -> 0 <= n -> sub_bytes d off m ++ sub_bytes d (off + m) n = sub_bytes d off (m + n).
Proof.
  intros. unfold sub_bytes. rewrite !Z2Nat.inj_add by lia. rewrite <- drop_drop. apply take_take_drop.
Qed.

Lemma wp_writei_loop ip D hs src dat n c fuel k a V L x tot off :
  fstate ip k a V D hs L x -> src_is (k_mem k) src dat -> Z.of_nat (length dat) = n ->
  0 <= off -> 0 <= tot <= n -> off + (n - tot) <= MAXFILE * BSIZE ->
  spans off (n - tot) c -> (c < fuel)%nat ->
  (3 * c <= nfree V (k_sb k))%nat -> room k L (9 * Z.of_nat c) -> cap ∅ L (9 * c) ->
  wp (writei_loop fuel ip src tot off n) (fun r k' a' => exists V' L' x',
     r = (n, off + (n - tot)) /\ fstate ip k' a' V' D hs L' x' /\
     written ip k V x L off (sub_bytes dat tot (n - tot)) k' V' x' L' (9 * c) (3 * c)) k a.
Proof.
  revert fuel k a V L x tot off. induction c as [|c IH];
    intros fuel k a V L x tot off FS Hsrc Hdat Hoff Htot Hmax Hsp Hfuel Hnf Hr Hc;
    (destruct fuel as [|fuel]; [lia|]); cbn [writei_loop].
  { assert (tot = n) as -> by (apply spans_0 in Hsp; lia).
    rewrite Z.ltb_irrefl. apply wp_ret. exists V, L, x. split; [f_equal; lia|]. split; [done|].
    rewrite Z.sub_diag. apply written_nil. }
  destruct (Z.ltb_spec tot n) as [Hlt|Hge].
  2: { apply wp_ret. exists V, L, x. assert (tot = n) as -> by lia. split; [f_equal; lia|].
       split; [done|]. rewrite Z.sub_diag.
       destruct (written_nil ip k V x L off). split; try done; lia. }
  pose proof (Z.mod_pos_bound off BSIZE ltac:(done)).
  set (m := Z.min (n - tot) (BSIZE - off mod BSIZE)).
  eapply (wp_write_chunk ip k a V D hs L x src dat tot off m); try done; try lia.
  { eapply room_le; [exact Hr|lia]. }
  { eapply cap_le; [exact Hc|lia]. }
  intros k1 a1 V1 L1 x1 FS1 W1. pose proof W1 as [Hk1 _ Hlen1 Hfree1 _ _].
  assert (Hsub : Z.of_nat (length (sub_bytes dat tot m)) = m) by (rewrite length_sub_bytes; lia).
  destruct (decide (m = n - tot)) as [Em|Em].
  - (* last chunk *)
    replace (tot + m) with n by lia. destruct fuel as [|fuel]; [lia|]. cbn [writei_loop].
    rewrite Z.ltb_irrefl. apply wp_ret. exists V1, L1, x1. split; [f_equal; lia|]. split; [done|].
    rewrite <- Em. destruct W1. split; try done; lia.
  - eapply wp_mono.
    { apply (IH fuel k1 a1 V1 L1 x1 (tot + m) (off + m)); try done; try lia.
      - by rewrite (kip_mem _ _ _ Hk1).
      - replace (n - (tot + m)) with (n - tot - m) by lia. apply spans_step; [done|lia|done].
      - rewrite (kip_sb _ _ _ Hk1). lia.
      - eapply kip_room; [exact Hk1|]. destruct Hr as (?&?&?). split; [lia|split; [lia|done]].
      - unfold cap in *. lia. }
    intros r k2 a2 (V2 & L2 & x2 & -> & FS2 & W2). exists V2, L2, x2.
    split; [f_equal; lia|]. split; [done|].
    rewrite <- Hsub in W2 at 1.
    pose proof (written_trans _ _ _ _ _ _ _ _ _ _ _ _ _ _ _ _ _ _ _ _ W1 W2) as W.
    rewrite sub_bytes_app in W by lia. replace (m + (n - (tot + m))) with (n - tot) in W by lia.
    destruct W. split; try done; lia.
Qed.
End write.
