(* ===== verification/FsInode.v ===== *)
(** The inode of a file on disk and in memory (fs.c, [iupdate], [ilock]), and
    the properties of [writei] and [readi]. *)

From S2P Require Import Prelude BufCache BufSpec KState Log CString Fs FsAlloc FsTree FsFile FsWrite.
Local Open Scope Z_scope.

(** * The on-disk inode *)

Lemma sub_bytes_put_inside d off e i l :
  0 <= off -> 0 <= i -> 0 <= l -> i + l <= Z.of_nat (length e) ->
  off + Z.of_nat (length e) <= Z.of_nat (length d) ->
  sub_bytes (put d off e) (off + i) l = sub_bytes e i l.
Proof.
  intros. apply list_eq. intros n. unfold sub_bytes. destruct (decide (n < Z.to_nat l)%nat).
  - rewrite !lookup_take_lt, !lookup_drop by lia. rewrite put_lookup_in by lia. f_equal. lia.
  - by rewrite !lookup_take_ge by lia.
Qed.

Lemma sub_bytes_app_r (a b : bytes) i l :
  Z.of_nat (length a) <= i -> sub_bytes (a ++ b) i l = sub_bytes b (i - Z.of_nat (length a)) l.
Proof.
  intros. unfold sub_bytes. f_equal. rewrite drop_app_ge by lia. f_equal. lia.
Qed.

Lemma sub_bytes_app_l (a b : bytes) l :
  Z.of_nat (length a) = l -> sub_bytes (a ++ b) 0 l = a.
Proof. intros <-. unfold sub_bytes. simpl. rewrite Nat2Z.id. apply take_app_length. Qed.

Lemma sub_bytes_words (l : list Z) i :
  0 <= i < Z.of_nat (length l) ->
  sub_bytes (mjoin (le_bytes 4 <$> l)) (4 * i) 4 = le_bytes 4 (l !!! Z.to_nat i).
Proof.
  revert i. induction l as [|v l IH]; intros i Hi; simpl in Hi; [lia|].
  change (mjoin (le_bytes 4 <$> v :: l)) with (le_bytes 4 v ++ mjoin (le_bytes 4 <$> l)).
  destruct (decide (i = 0)) as [->|].
  - rewrite Z.mul_0_r, sub_bytes_app_l by (by rewrite length_le_bytes). done.
  - rewrite sub_bytes_app_r by (rewrite length_le_bytes; lia). rewrite length_le_bytes.
    replace (4 * i - Z.of_nat 4) with (4 * (i - 1)) by lia. rewrite IH by lia.
    replace (Z.to_nat i) with (S (Z.to_nat (i - 1))) by lia. done.
Qed.

Lemma length_words (l : list Z) : length (mjoin (le_bytes 4 <$> l)) = (4 * length l)%nat.
Proof.
  induction l as [|v l IH]; [done|].
  change (mjoin (le_bytes 4 <$> v :: l)) with (le_bytes 4 v ++ mjoin (le_bytes 4 <$> l)).
  rewrite length_app, length_le_bytes, IH. simpl length. lia.
Qed.

Definition short (z : Z) : Prop := - 2 ^ 15 <= z < 2 ^ 15.
Definition word (z : Z) : Prop := 0 <= z < 2 ^ 32.

(** The fields of an inode fit the types of [struct dinode]. *)
Record inode_ok (x : inode) : Prop := {
  io_type : short (i_type x); io_major : short (i_major x); io_minor : short (i_minor x);
  io_nlink : short (i_nlink x); io_size : word (i_size x);
  io_addrs : Forall word (i_addrs x);
  io_len : length (i_addrs x) = Z.to_nat (NDIRECT + 2);
}.

Lemma short_le z : short z -> i16 (le_val (le_bytes 2 z)) = z.
Proof.
  intros. rewrite le_val_bytes. change (2 ^ (8 * Z.of_nat 2)) with (2 ^ 16). fold (u16 z).
  rewrite i16_u16. by apply i16_small.
Qed.

Lemma length_dinode_enc x : inode_ok x -> Z.of_nat (length (dinode_enc x)) = DINODE_SIZE.
Proof.
  intros []. unfold dinode_enc. rewrite !length_app, !length_le_bytes, length_words, io_len0.
  unfold DINODE_SIZE, NDIRECT. lia.
Qed.

(** The fields on disk, the rest of the entry from [y]. *)
Definition with_dinode (x y : inode) : inode :=
  Inode (i_dev y) (i_inum y) (i_ref y) (i_lock y) (i_valid y)
    (i_type x) (i_major x) (i_minor x) (i_nlink x) (i_size x) (i_addrs x).

Lemma dinode_dec_enc d off x y :
  inode_ok x -> 0 <= off -> off + DINODE_SIZE <= Z.of_nat (length d) ->
  dinode_dec (put d off (dinode_enc x)) off y = with_dinode x y.
Proof.
  intros Hx Ho Hl. pose proof (length_dinode_enc x Hx) as He. unfold DINODE_SIZE, NDIRECT in *.
  assert (Hin : forall i l, 0 <= i -> 0 <= l -> i + l <= 64 ->
     sub_bytes (put d off (dinode_enc x)) (off + i) l = sub_bytes (dinode_enc x) i l).
  { intros. apply sub_bytes_put_inside; lia. }
  destruct Hx. unfold dinode_dec, with_dinode, short_at. f_equal.
  - rewrite <- (Z.add_0_r off) at 2. rewrite Hin by lia. unfold dinode_enc.
    rewrite sub_bytes_app_l by (by rewrite length_le_bytes). by apply short_le.
  - rewrite Hin by lia. unfold dinode_enc. rewrite sub_bytes_app_r by (by rewrite length_le_bytes).
    rewrite !length_le_bytes. simpl (_ - _). rewrite sub_bytes_app_l by (by rewrite length_le_bytes).
    by apply short_le.
  - rewrite Hin by lia. unfold dinode_enc. do 2 rewrite sub_bytes_app_r by (rewrite ?length_le_bytes; lia).
    rewrite !length_le_bytes. simpl (_ - _). rewrite sub_bytes_app_l by (by rewrite length_le_bytes).
    by apply short_le.
  - rewrite Hin by lia. unfold dinode_enc. do 3 rewrite sub_bytes_app_r by (rewrite ?length_le_bytes; lia).
    rewrite !length_le_bytes. simpl (_ - _). rewrite sub_bytes_app_l by (by rewrite length_le_bytes).
    by apply short_le.
  - rewrite Hin by lia. unfold dinode_enc. do 4 rewrite sub_bytes_app_r by (rewrite ?length_le_bytes; lia).
    rewrite !length_le_bytes. simpl (_ - _). rewrite sub_bytes_app_l by (by rewrite length_le_bytes).
    rewrite le_val_bytes. apply Z.mod_small. done.
  - apply list_eq. intros i. rewrite list_lookup_fmap. unfold NDIRECT in *.
    destruct (decide (i < 13)%nat).
    + rewrite lookup_seqZ_lt by lia. simpl. rewrite <- Z.add_assoc, Hin by lia.
      unfold dinode_enc. do 5 rewrite sub_bytes_app_r by (rewrite ?length_le_bytes; lia).
      rewrite !length_le_bytes.
      match goal with |- context [sub_bytes _ ?o 4] => replace o with (4 * Z.of_nat i) by lia end.
      rewrite sub_bytes_words by lia. rewrite Nat2Z.id.
      destruct (lookup_lt_is_Some_2 (i_addrs x) i) as [v Hv]; [lia|].
      rewrite Hv. f_equal. rewrite (list_lookup_total_correct _ _ _ Hv), le_val_bytes.
      apply Z.mod_small. exact (Forall_lookup_1 word _ i v io_addrs0 Hv).
    + rewrite !lookup_ge_None_2; [done|lia|rewrite length_seqZ; lia].
Qed.

(** * Writing a block outside the bitmap and the data area *)

Section meta_write.
Context (sb : superblock) (V : Z -> bytes) (x : inode) (t : Z) (d : bytes).
Context (Hfs : fs_ok sb V) (Hok : tree_ok sb V x).
Context (Ht : t < sb_bmapstart sb) (Hd : Z.of_nat (length d) = BSIZE).
Let V' := <[t := d]> V.

Lemma meta_block b : data_block sb b \/ bitmap_block sb b -> V' b = V b.
Proof using Hfs Ht.
  intros Hb. apply fn_lookup_insert_ne. destruct Hfs as ((Hbo & _) & _).
  unfold data_block, bitmap_block, bitmap_ok, BPB, BSIZE in *.
  assert (0 <= (sb_size sb - 1) / (1024 * 8)) by (apply Z.div_pos; lia). lia.
Qed.

Lemma meta_entry p j : slot_ok p -> entry V' (slot_addr V x p) j = entry V (slot_addr V x p) j.
Proof using Hfs Hok Ht.
  intros Hp. unfold entry. destruct (Z.eqb_spec (slot_addr V x p) 0) as [|Hn]; [done|].
  rewrite meta_block; [done|]. left. by apply (to_data _ _ _ Hok).
Qed.

Lemma meta_addr s : slot_ok s -> slot_addr V' x s = slot_addr V x s.
Proof using Hfs Hok Ht.
  destruct s as [i| | |j|j|j e]; intros Hs; try done.
  - by apply (meta_entry SInd).
  - by apply (meta_entry SDbl).
  - change (entry V' (entry V' (slot_addr V x SDbl) j) e = slot_addr V x (SDblE j e)).
    rewrite (meta_entry SDbl) by done. destruct Hs. by apply (meta_entry (SDblT j)).
Qed.

Lemma meta_alloc b : 0 <= b < sb_size sb -> allocated V' sb b = allocated V sb b.
Proof using Hfs Ht.
  intros Hb. unfold allocated. rewrite meta_block; [done|]. right.
  apply BBLOCK_range; [apply Hfs|done].
Qed.

Lemma meta_tree : tree_ok sb V' x.
Proof using Hfs Hok Ht.
  split.
  - apply Hok.
  - intros s Hs. rewrite meta_addr by done. intros Hn. destruct (to_data _ _ _ Hok s Hs Hn) as [Hd' Ha].
    split; [done|]. rewrite meta_alloc; [done|]. eapply data_block_range; [apply Hfs|done].
  - intros s1 s2 H1 H2. rewrite !meta_addr by done. by apply Hok.
Qed.

Lemma meta_fs : fs_ok sb V'.
Proof using Hfs Ht Hd.
  pose proof Hfs as (Hg & HV & Hf). split; [done|]. split.
  - intros no. unfold V'. destruct (decide (no = t)) as [->|];
      [by rewrite fn_lookup_insert|by rewrite fn_lookup_insert_ne].
  - intros b Hb. rewrite meta_alloc by done. by apply Hf.
Qed.

Lemma meta_content i : 0 <= i < MAXFILE * BSIZE -> content V' x i = content V x i.
Proof using Hfs Hok Ht.
  intros Hi. unfold content.
  assert (Hib : 0 <= i / BSIZE < MAXFILE) by (apply block_index; lia).
  destruct (slot_of_ok _ Hib) as [Hso _]. rewrite meta_addr by done.
  destruct (Z.eqb_spec (slot_addr V x (slot_of (i / BSIZE))) 0); [done|].
  rewrite meta_block; [done|]. left. by apply (to_data _ _ _ Hok).
Qed.
End meta_write.

Lemma tree_words sb V x : fs_ok sb V -> tree_ok sb V x -> Forall word (i_addrs x).
Proof.
  intros ((Hbo & _) & _) Hok. apply Forall_lookup_2. intros i v Hi.
  pose proof (lookup_lt_Some _ _ _ Hi) as Hlt. rewrite (to_len _ _ _ Hok) in Hlt.
  assert (Hs : exists s, slot_ok s /\ parent s = None /\ root_index s = Z.of_nat i).
  { unfold NDIRECT in *. destruct (decide (i < 11)%nat); [exists (SDir (Z.of_nat i)); simpl; unfold NDIRECT; repeat split; lia|].
    destruct (decide (i = 11)%nat) as [->|]; [by exists SInd|exists SDbl].
    split; [done|]. split; [done|]. simpl. unfold NDIRECT. lia. }
  destruct Hs as (s & Hs & Hp & Hri). pose proof (slot_addr_root V x s Hp) as E.
  unfold i_addr in E. rewrite Hri, Nat2Z.id in E. apply list_lookup_total_correct in Hi.
  unfold word. destruct (decide (slot_addr V x s = 0)) as [E0|E0]; [lia|].
  destruct (to_data _ _ _ Hok s Hs E0) as [Hd _]. pose proof (data_block_range _ _ Hbo Hd).
  unfold bitmap_ok in Hbo. lia.
Qed.

Section inode_ops.
Context {U : Type} `{!UserMem U}.
Implicit Types k : kst U.

Lemma IBLOCK_range sb i : fs_geom sb -> 0 <= i < sb_ninodes sb ->
  sb_inodestart sb <= IBLOCK i sb < sb_bmapstart sb /\ 0 <= IBLOCK i sb < 2 ^ 31 /\
  0 <= dinode_off i /\ dinode_off i + DINODE_SIZE <= BSIZE.
Proof.
  intros (Hb & Hl & Hls & Hn & Hi & _) Hr. unfold IBLOCK, dinode_off, bitmap_ok in *.
  unfold IPB, DINODE_SIZE, NDIRECT, BSIZE, LOGSIZE, MAXOPBLOCKS in *.
  change (1024 / (4 * 2 + 4 + 4 * (11 + 2))) with 16 in *.
  pose proof (Z.div_le_mono i (sb_ninodes sb) 16 ltac:(lia) ltac:(lia)).
  pose proof (Z.div_pos i 16 ltac:(lia) ltac:(lia)).
  pose proof (Z.mod_pos_bound i 16 ltac:(lia)).
  assert (0 <= sb_size sb / BPB) by (apply Z.div_pos; [lia|done]).
  rewrite u32_small by lia. lia.
Qed.

(** The inode's slot in its block holds [x]. *)
Definition on_disk (sb : superblock) (V : Z -> bytes) (x : inode) : Prop :=
  forall y, dinode_dec (V (IBLOCK (i_inum x) sb)) (dinode_off (i_inum x)) y = with_dinode x y.

(** The block of inodes with the entry of [x] replaced. *)
Definition inode_block (sb : superblock) (V : Z -> bytes) (x : inode) : bytes :=
  put (V (IBLOCK (i_inum x) sb)) (dinode_off (i_inum x)) (dinode_enc x).

Lemma wp_iupdate ip k a V D hs L x (Q : unit -> kst U -> abio -> Prop) :
  fstate ip k a V D hs L x -> inode_ok x -> 0 <= i_inum x < sb_ninodes (k_sb k) ->
  room k L 1 -> cap ∅ L 1 ->
  (forall n blk a', let V' := <[IBLOCK (i_inum x) (k_sb k) := inode_block (k_sb k) V x]> V in
     fstate ip (with_lh n blk k) a' V' D hs (log_add L (IBLOCK (i_inum x) (k_sb k))) x ->
     on_disk (k_sb k) V' x -> Q tt (with_lh n blk k) a') ->
  wp (iupdate ip) Q k a.
Proof.
  intros [T Hit Hdev Hfs Hok] Hio Hin Hr Hc HQ. pose proof Hfs as (Hg & HV & _).
  destruct (IBLOCK_range _ _ Hg Hin) as (Hib1 & Hib2 & Hoff1 & Hoff2).
  unfold iupdate. fs_steps. rewrite Hit, Hdev.
  eapply wp_tx_bread; [exact T|done|done|set_solver|right; unfold cap in Hc; lia|].
  intros a1 T1. fs_steps. eapply wp_tx_data; [done|set_solver|done|].
  pose proof (HV (IBLOCK (i_inum x) (k_sb k))) as Hlen.
  pose proof (length_dinode_enc x Hio) as Henc.
  assert (Hd : Z.of_nat (length (inode_block (k_sb k) V x)) = BSIZE).
  { unfold inode_block. rewrite length_put; [done|]. lia. }
  eapply (wp_tx_write_block k V D hs ∅ ∅ L); [done|set_solver|set_solver|done|exact Hd| |exact T1].
  intros n blk a2 T2. apply HQ.
  - split; [exact T2|done|done|exact (meta_fs (k_sb k) V _ _ Hfs (proj2 Hib1) Hd)|].
    exact (meta_tree (k_sb k) V x _ _ Hfs Hok (proj2 Hib1)).
  - intros y. rewrite fn_lookup_insert. apply dinode_dec_enc; [done|done|]. lia.
Qed.

(** Every block below the size is there. *)
Definition dense (V : Z -> bytes) (x : inode) : Prop :=
  forall bn, 0 <= bn -> bn * BSIZE < i_size x -> slot_addr V x (slot_of bn) <> 0.

Lemma dense_meta sb V x t d :
  fs_ok sb V -> tree_ok sb V x -> t < sb_bmapstart sb -> i_size x <= MAXFILE * BSIZE ->
  dense V x -> dense (<[t := d]> V) x.
Proof.
  intros Hfs Hok Ht Hsz Hde bn Hbn Hlt. rewrite (meta_addr sb); [by apply Hde|done|done|done|].
  apply slot_of_ok. unfold BSIZE in *. lia.
Qed.

Lemma dense_write V x V' x' off n :
  (forall s, slot_ok s -> slot_addr V x s <> 0 -> slot_addr V' x' s = slot_addr V x s) ->
  (forall i, 0 <= i < MAXFILE * BSIZE -> off <= i < off + n -> slot_addr V' x' (slot_of (i / BSIZE)) <> 0) ->
  0 <= off <= i_size x -> off + n <= MAXFILE * BSIZE -> i_size x <= MAXFILE * BSIZE ->
  dense V x -> dense V' (set_i_size (Z.max (i_size x) (off + n)) x').
Proof.
  intros Hkeep Hhave Hoff Hmax Hsz Hde bn Hbn Hlt. cbn [set_i_size i_size] in Hlt.
  change (slot_addr V' x' (slot_of bn) <> 0).
  destruct (decide (bn * BSIZE < i_size x)) as [Hin|Hout].
  - rewrite Hkeep; [by apply Hde|apply slot_of_ok; unfold BSIZE in *; lia|by apply Hde].
  - pose proof (Hhave (bn * BSIZE) ltac:(unfold BSIZE in *; lia) ltac:(lia)) as H.
    by rewrite Z.div_mul in H by done.
Qed.

(** The result of writing [dat] at [off]: the bytes are in the content, the size
    covers them, the inode is on disk, no other file's blocks have changed. *)
Definition writei_post ip k V D hs (L : list Z) x off dat (c : nat) : Z -> kst U -> abio -> Prop :=
  fun r k' a' => r = Z.of_nat (length dat) /\
    exists V' L' x', fstate ip k' a' V' D hs L' x' /\ kip ip k k' /\ on_disk (k_sb k) V' x' /\
      (exists l, x' = set_i_size (Z.max (i_size x) (off + Z.of_nat (length dat))) (set_i_addrs l x)) /\
      (dense V x -> dense V' x') /\ (length L' <= length L + (9 * c + 1))%nat /\
      (forall i, 0 <= i < MAXFILE * BSIZE -> content V' x' i =
         if decide (off <= i < off + Z.of_nat (length dat)) then byte_at dat (i - off)
         else content V x i) /\
      (forall b, ~ bitmap_block (k_sb k) b -> b <> IBLOCK (i_inum x) (k_sb k) ->
         (0 <= b < sb_size (k_sb k) -> allocated V (k_sb k) b = true) ->
         (forall s, slot_ok s -> slot_addr V x s = b -> b = 0) -> V' b = V b).

(** The end of [writei], once the blocks are written and the size is set. *)
Lemma wp_writei_tail ip k V D hs L x off dat k1 V1 l L1 (c : nat) k2 a :
  fs_ok (k_sb k) V -> inode_ok x -> 0 <= i_inum x < sb_ninodes (k_sb k) -> 0 <= off <= i_size x ->
  i_size x <= MAXFILE * BSIZE -> off + Z.of_nat (length dat) <= MAXFILE * BSIZE ->
  room k L (9 * Z.of_nat c + 1) -> cap ∅ L (9 * c + 1) ->
  written ip k V x L off dat k1 V1 (set_i_addrs l x) L1 (9 * c) (3 * c) ->
  fstate ip k1 a V1 D hs L1 (set_i_addrs l x) ->
  kip ip k1 k2 -> k_log k2 = k_log k1 ->
  k_itable k2 ip = set_i_size (Z.max (i_size x) (off + Z.of_nat (length dat))) (set_i_addrs l x) ->
  wp (_ ← iupdate ip; mret (Z.of_nat (length dat))) (writei_post ip k V D hs L x off dat c) k2 a.
Proof.
  intros Hfs Hio Hin Hoff Hsz Hmax Hr Hc [Hk1 Hfr1 Hlen1 Hfree1 _ Hcont1 Hkeep1 Hhave1] [T1 Hit1 Hdev1 Hfs1 Hok1]
    Hk2 Hl2 Hi2. assert (HM : MAXFILE * BSIZE < 2 ^ 32) by done.
  set (n := Z.of_nat (length dat)) in *. set (x2 := set_i_size _ _) in *.
  pose proof (kip_sb _ _ _ Hk1) as Esb. pose proof (kip_sb _ _ _ Hk2) as Esb2. rewrite Esb in *.
  assert (Hio2 : inode_ok x2).
  { destruct Hio. split; try done; [simpl; unfold word in *; lia| |apply Hok1].
    apply (tree_words (k_sb k) V1 _ Hfs1 Hok1). }
  assert (FS2 : fstate ip k2 a V1 D hs L1 x2).
  { split; [by eapply tx_kst|done|done| |]; rewrite Esb2; [done|]. by destruct Hok1. }
  fs_steps. eapply (wp_iupdate ip k2 a V1 D hs L1 x2); [done|done|by rewrite Esb2| | |].
  - eapply (kip_room ip k); [exact (kip_trans _ _ _ _ Hk1 Hk2)|]. destruct Hr as (?&?&?).
    split; [lia|split; [lia|done]].
  - unfold cap in *. lia.
  - rewrite Esb2. intros m blk a3 V3 FS3 Hod. fs_steps. split; [done|].
    exists V3, (log_add L1 (IBLOCK (i_inum x2) (k_sb k))), x2. split; [done|].
    split; [eapply kip_trans; [exact (kip_trans _ _ _ _ Hk1 Hk2)|apply kip_klog, klog_only_lh]|].
    split; [done|]. split; [by exists l|].
    destruct (IBLOCK_range _ _ (proj1 Hfs) Hin) as (Hib1 & _). split.
    { intros Hde. apply (dense_meta (k_sb k)); [done|by destruct Hok1|simpl; lia|simpl; lia|].
      apply (dense_write V x V1 (set_i_addrs l x) off n); done || lia. }
    split; [pose proof (log_add_length L1 (IBLOCK (i_inum x2) (k_sb k))); lia|].
    split.
    + intros i Hi. unfold V3. rewrite (meta_content (k_sb k)); [|done|by destruct Hok1|simpl; lia|done].
      rewrite <- Hcont1 by done. done.
    + intros b Hb1 Hb2 Hb3 Hb4. unfold V3. rewrite fn_lookup_insert_ne by done.
      by apply (fr_block _ _ _ _ _ Hfr1).
Qed.

Lemma wp_writei ip k a V D hs L x src dat off c :
  fstate ip k a V D hs L x -> inode_ok x -> 0 <= i_inum x < sb_ninodes (k_sb k) ->
  src_is (k_mem k) src dat -> 0 <= off <= i_size x -> i_size x <= MAXFILE * BSIZE ->
  off + Z.of_nat (length dat) <= MAXFILE * BSIZE ->
  spans off (Z.of_nat (length dat)) c -> (c <= Z.to_nat (Z.of_nat (length dat) / BSIZE) + 2)%nat ->
  (3 * c <= nfree V (k_sb k))%nat -> room k L (9 * Z.of_nat c + 1) -> cap ∅ L (9 * c + 1) ->
  wp (writei ip src off (Z.of_nat (length dat))) (writei_post ip k V D hs L x off dat c) k a.
Proof.
  intros FS Hio Hin Hsrc Hoff Hsz Hmax Hsp Hcb Hnf Hr Hc. set (n := Z.of_nat (length dat)) in *.
  pose proof FS as [T Hit Hdev Hfs Hok]. unfold writei. fs_steps. rewrite Hit.
  assert (HM : MAXFILE * BSIZE < 2 ^ 32) by done.
  rewrite (Z.gtb_ltb off), (proj2 (Z.ltb_ge _ _)) by lia. rewrite u32_small by lia.
  rewrite (proj2 (Z.ltb_ge _ off)) by lia. simpl.
  rewrite (Z.gtb_ltb (off + n)), (proj2 (Z.ltb_ge _ (off + n))) by lia. fs_steps.
  eapply wp_mono.
  { apply (wp_writei_loop ip D hs src dat n c (chunks n) k a V L x 0 off); try done; try lia.
    - by rewrite Z.sub_0_r.
    - unfold chunks. lia.
    - eapply room_le; [exact Hr|lia].
    - eapply cap_le; [exact Hc|lia]. }
  intros r k1 a1 (V1 & L1 & x1 & -> & FS1 & W). rewrite Z.sub_0_r in *.
  assert (Hall : sub_bytes dat 0 n = dat).
  { unfold sub_bytes, n. simpl. rewrite Nat2Z.id. apply firstn_all. }
  rewrite Hall in W. destruct (fr_inode _ _ _ _ _ (wr_frames _ _ _ _ _ _ _ _ _ _ _ _ _ W)) as [l ->].
  pose proof (fs_it _ _ _ _ _ _ _ _ FS1) as Hit1. fs_steps. rewrite Hit1. simpl.
  assert (Htail := fun k2 => wp_writei_tail ip k V D hs L x off dat k1 V1 l L1 c k2 a1 Hfs Hio Hin
    Hoff Hsz Hmax Hr Hc W FS1).
  destruct (Z.gtb_spec (off + n) (i_size x)) as [Hgt|Hle].
  - apply wp_imod, (Htail _ (kip_imod ip k1 (set_i_size (off + n)))); [done|].
    simpl. rewrite fn_lookup_insert, Hit1. fold n. f_equal. lia.
  - apply wp_ret, (Htail k1 (kip_refl _ _)); [done|]. rewrite Hit1. fold n.
    rewrite Z.max_l by lia. by destruct x.
Qed.

(** * Reading *)

(** A table entry that is there is only read. *)
Lemma wp_entry_found ip k a V D hs L x s p j (Q : Z -> kst U -> abio -> Prop) :
  fstate ip k a V D hs L x -> slot_ok s -> parent s = Some (p, j) -> slot_addr V x s <> 0 ->
  cap ∅ L 1 -> (forall a', fstate ip k a' V D hs L x -> Q (slot_addr V x s) k a') ->
  wp (bmap_entry ROOTDEV (slot_addr V x p) j) Q k a.
Proof.
  intros FS Hs Hp Hn Hc HQ. pose proof FS as [T Hit Hdev Hfs Hok].
  destruct (parent_ok _ _ _ Hs Hp) as [Hpo Hj].
  pose proof (slot_addr_parent V x s p j Hp Hn) as Hpn.
  destruct (tree_addr_range k V x p Hfs Hok Hpo Hpn) as [Ht _].
  pose proof (slot_addr_entry V x s p j Hp) as Es. unfold entry in Es.
  rewrite (proj2 (Z.eqb_neq _ 0)) in Es by done. set (t := slot_addr V x p) in *.
  unfold bmap_entry. fs_steps.
  eapply wp_tx_bread; [exact T|done|done|set_solver|right; unfold cap in Hc; lia|].
  intros a1 T1. fs_steps. eapply wp_tx_data; [done|set_solver|done|]. fs_steps. rewrite <- Es.
  rewrite (proj2 (Z.eqb_neq _ 0)) by done. fs_steps.
  eapply wp_tx_brelse; [done|set_solver|done|set_solver|]. intros a2 T2. fs_steps.
  rewrite set_add_remove in T2 by set_solver. apply HQ. by split.
Qed.

Lemma wp_bmap_found ip k a V D hs L x bn (Q : Z -> kst U -> abio -> Prop) :
  fstate ip k a V D hs L x -> 0 <= bn < MAXFILE -> slot_addr V x (slot_of bn) <> 0 -> cap ∅ L 1 ->
  (forall a', fstate ip k a' V D hs L x -> Q (slot_addr V x (slot_of bn)) k a') ->
  wp (bmap ip bn) Q k a.
Proof.
  intros FS Hbn Hn Hc HQ. pose proof (fs_it _ _ _ _ _ _ _ _ FS) as Hit.
  destruct (slot_of_ok bn Hbn) as [Hso _]. unfold bmap, slot_of in *.
  assert (Haddr : forall i (P : Z -> kst U -> abio -> Prop), i_addr x i <> 0 -> P (i_addr x i) k a -> wp (bmap_addr ip i) P k a).
  { intros i P Hi HP. unfold bmap_addr. fs_steps. rewrite Hit, (proj2 (Z.eqb_neq _ 0)) by done. by fs_steps. }
  destruct (Z.ltb_spec bn NDIRECT) as [Hd|Hd]; [apply Haddr; [done|by apply HQ]|].
  destruct (Z.ltb_spec (bn - NDIRECT) NINDIRECT) as [Hi|Hi].
  - pose proof (slot_addr_parent V x (SIndE (bn - NDIRECT)) _ _ eq_refl Hn) as Hp.
    apply wp_bind, Haddr; [done|]. rewrite (proj2 (Z.eqb_neq _ 0)) by done.
    apply wp_bind, wp_kinode. rewrite Hit, (fs_dev _ _ _ _ _ _ _ _ FS).
    by apply (wp_entry_found ip k a V D hs L x (SIndE (bn - NDIRECT)) SInd).
  - rewrite (proj2 (Z.ltb_lt _ DOUBLEINDIRECT)) by (unfold MAXFILE in Hbn; lia).
    set (j := (bn - NDIRECT - NINDIRECT) / NINDIRECT) in *.
    set (e := (bn - NDIRECT - NINDIRECT) mod NINDIRECT) in *.
    pose proof (slot_addr_parent V x (SDblE j e) _ _ eq_refl Hn) as Hp.
    pose proof (slot_addr_parent V x (SDblT j) _ _ eq_refl Hp) as Hp'.
    apply wp_bind, Haddr; [done|]. rewrite (proj2 (Z.eqb_neq _ 0)) by done.
    apply wp_bind, wp_kinode. rewrite Hit, (fs_dev _ _ _ _ _ _ _ _ FS). apply wp_bind.
    apply (wp_entry_found ip k a V D hs L x (SDblT j) SDbl j); [done|apply Hso|done..|].
    intros a1 FS1. by apply (wp_entry_found ip k a1 V D hs L x (SDblE j e) (SDblT j) e).
Qed.

(** The bytes of the file from [off] on. *)
Definition content_bytes (V : Z -> bytes) (x : inode) (off n : Z) : bytes :=
  content V x <$> seqZ off n.

Lemma block_content V x off m :
  0 <= off -> 0 <= m -> off mod BSIZE + m <= BSIZE -> slot_addr V x (slot_of (off / BSIZE)) <> 0 ->
  (forall no, Z.of_nat (length (V no)) = BSIZE) ->
  sub_bytes (V (slot_addr V x (slot_of (off / BSIZE)))) (off mod BSIZE) m = content_bytes V x off m.
Proof.
  intros Ho Hm Hfit Hn HV. pose proof (Z.mod_pos_bound off BSIZE ltac:(done)).
  pose proof (Z.div_mod off BSIZE ltac:(done)). set (t := slot_addr _ _ _) in *.
  pose proof (HV t) as Hlen. apply list_eq. intros i. unfold content_bytes, sub_bytes.
  rewrite list_lookup_fmap. destruct (decide (i < Z.to_nat m)%nat).
  - rewrite lookup_take_lt, lookup_drop, lookup_seqZ_lt by lia. simpl. unfold content.
    assert (E : (off + Z.of_nat i) / BSIZE = off / BSIZE /\
                (off + Z.of_nat i) mod BSIZE = off mod BSIZE + Z.of_nat i).
    { split; symmetry; [apply (Z.div_unique _ _ _ (off mod BSIZE + Z.of_nat i))
                       |apply (Z.mod_unique _ _ (off / BSIZE))]; try lia; left; lia. }
    destruct E as [-> ->]. fold t. rewrite (proj2 (Z.eqb_neq _ 0)) by done.
    unfold byte_at. rewrite <- list_lookup_lookup_total_lt by lia. f_equal. lia.
  - rewrite lookup_take_ge by lia. rewrite lookup_seqZ_ge by lia. done.
Qed.

Lemma content_bytes_app V x off m n :
  0 <= m -> 0 <= n -> content_bytes V x off m ++ content_bytes V x (off + m) n = content_bytes V x off (m + n).
Proof. intros. unfold content_bytes. rewrite <- fmap_app, <- seqZ_app by lia. done. Qed.

Lemma wp_readi_loop ip D hs n c fuel k a V L x tot off acc :
  fstate ip k a V D hs L x -> dense V x -> i_size x <= MAXFILE * BSIZE ->
  0 <= off -> 0 <= tot <= n -> off + (n - tot) <= i_size x ->
  spans off (n - tot) c -> (c < fuel)%nat -> cap ∅ L 1 ->
  wp (readi_loop fuel ip KernelDst tot off n acc) (fun r k' a' =>
     r = (n, acc ++ content_bytes V x off (n - tot)) /\ k' = k /\ fstate ip k a' V D hs L x) k a.
Proof.
  revert fuel a tot off acc. induction c as [|c IH];
    intros fuel a tot off acc FS Hde Hsz Hoff Htot Hmax Hsp Hfuel Hc;
    (destruct fuel as [|fuel]; [lia|]); cbn [readi_loop].
  { assert (tot = n) as -> by (apply spans_0 in Hsp; lia).
    rewrite Z.ltb_irrefl. apply wp_ret. rewrite Z.sub_diag. by rewrite app_nil_r. }
  destruct (Z.ltb_spec tot n) as [Hlt|Hge].
  2: { apply wp_ret. assert (tot = n) as -> by lia. rewrite Z.sub_diag. by rewrite app_nil_r. }
  pose proof (Z.mod_pos_bound off BSIZE ltac:(done)) as Hmod. pose proof (Z.div_mod off BSIZE ltac:(done)).
  assert (Hbn : 0 <= off / BSIZE < MAXFILE) by (apply block_index; lia).
  assert (Hn : slot_addr V x (slot_of (off / BSIZE)) <> 0) by (apply Hde; lia).
  set (m := Z.min (n - tot) (BSIZE - off mod BSIZE)).
  apply wp_bind, (wp_bmap_found ip k a V D hs L x); [done..|]. intros a1 FS1.
  rewrite (proj2 (Z.eqb_neq _ 0)) by done. pose proof FS1 as [T1 Hit1 Hdev1 Hfs1 Hok1].
  destruct (slot_of_ok _ Hbn) as [Hs _]. destruct (tree_addr_range k V x _ Hfs1 Hok1 Hs Hn) as [Ht _].
  apply wp_bind, wp_kinode. rewrite Hit1, Hdev1. apply wp_bind.
  eapply wp_tx_bread; [exact T1|done|done|set_solver|right; unfold cap in Hc; lia|].
  intros a2 T2. apply wp_bind. eapply wp_tx_data; [done|set_solver|done|].
  rewrite block_content by (done || lia || apply Hfs1). apply wp_bind, wp_ret. simpl. apply wp_bind.
  eapply wp_tx_brelse; [done|set_solver|done|set_solver|]. intros a3 T3.
  rewrite set_add_remove in T3 by set_solver. fold m.
  assert (FS3 : fstate ip k a3 V D hs L x) by (by split).
  destruct (decide (m = n - tot)) as [Em|Em].
  - replace (tot + m) with n by lia. destruct fuel as [|fuel]; [lia|]. cbn [readi_loop].
    rewrite Z.ltb_irrefl. apply wp_ret. by rewrite <- Em.
  - eapply wp_mono.
    { apply (IH fuel a3 (tot + m) (off + m) (acc ++ content_bytes V x off m)); try done; try lia.
      replace (n - (tot + m)) with (n - tot - m) by lia. apply spans_step; [done|lia|done]. }
    intros r k2 a4 (-> & -> & FS4). split; [|done]. f_equal. rewrite <- app_assoc.
    rewrite content_bytes_app by lia. do 2 f_equal. lia.
Qed.

Lemma wp_readi ip k a V D hs L x off n :
  fstate ip k a V D hs L x -> dense V x -> i_size x <= MAXFILE * BSIZE ->
  0 <= off -> 0 <= n -> off + n < 2 ^ 32 -> cap ∅ L 1 ->
  let m := if decide (i_size x < off) then 0 else Z.min n (i_size x - off) in
  wp (readi ip KernelDst off n) (fun r k' a' =>
    r = (m, content_bytes V x off m) /\ k' = k /\ fstate ip k a' V D hs L x) k a.
Proof.
  intros FS Hde Hsz Hoff Hn Hov Hc m. unfold readi. apply wp_bind, wp_kinode.
  rewrite (fs_it _ _ _ _ _ _ _ _ FS), u32_small by lia. rewrite (proj2 (Z.ltb_ge (off + n) off)) by lia.
  rewrite orb_false_r, Z.gtb_ltb. unfold m. clear m. case_decide as Hlt.
  { rewrite (proj2 (Z.ltb_lt _ _)) by lia. by apply wp_ret. }
  rewrite (proj2 (Z.ltb_ge _ off)) by lia. cbv zeta.
  set (n' := if off + n >? i_size x then _ else _).
  assert (En : n' = Z.min n (i_size x - off)) by (unfold n'; destruct (Z.gtb_spec (off + n) (i_size x)); lia).
  rewrite En. set (l := Z.min n (i_size x - off)). eapply wp_mono.
  { apply (wp_readi_loop ip D hs l (Z.to_nat (l / BSIZE) + 2) (chunks l) k a V L x 0 off []); try done; try lia.
    - rewrite Z.sub_0_r. apply spans_all. lia.
    - unfold chunks. lia. }
  intros r k' a' (-> & -> & FS'). by rewrite Z.sub_0_r.
Qed.

End inode_ops.
