(* ===== verification/FsProps.v ===== *)
(** Properties of the block allocator and of inode content, on every well-formed
    file system, with a concrete file system as their instance. *)

From S2P Require Import Prelude BufCache BufSpec KState Log LogCrash LogSystem CString.
From S2P Require Import Fs FsAlloc FsTree FsFile FsWrite FsInode.
Local Open Scope Z_scope.

(** * A small file system: 200 blocks, blocks 0 to 35 in use *)

(** A process without memory. *)
#[export] Program Instance unit_mem : UserMem unit := {|
  copyin _ _ n := ([], n =? 0);
  copyout _ _ d := (tt, bool_decide (d = []));
  copyinstr _ _ _ := None;
|}.
Next Obligation. constructor. Qed.
Next Obligation. simpl. intros _ _ n _ E%Z.eqb_eq. done. Qed.
Next Obligation. simpl. intros _ _ n Hn E%Z.eqb_neq. lia. Qed.
Next Obligation. done. Qed.

Definition small_sb : superblock := Superblock FSMAGIC 200 164 16 LOGSIZE 2 33 35.
Definition small_bitmap : bytes := put (zeros BSIZE) 0 [255; 255; 255; 255; 15].
Definition small_disk : Z -> bytes := <[35 := small_bitmap]> (fun _ => zeros BSIZE).
Definition empty_inode : inode :=
  Inode ROOTDEV 1 1 (SleepLock true 1) true T_FILE 0 0 1 0 (replicate 13 0).
(** One operation is outstanding, nothing is logged yet. *)
Definition small_k : kst unit :=
  Kst small_sb (Log 2 LOGSIZE 1 0 ROOTDEV 0 (fun _ => 0)) (fun _ => empty_inode)
      (fun _ => fresh_file) 1 [] 0 tt [] fresh_ext.

Lemma small_disk_ok : disk_ok small_disk.
Proof.
  intros no. unfold small_disk. destruct (decide (no = 35)) as [->|].
  - by rewrite fn_lookup_insert.
  - rewrite fn_lookup_insert_ne by done. by rewrite length_zeros.
Qed.

Lemma small_tx : tx small_k (boot_abio small_disk) small_disk small_disk [] ∅ ∅ [].
Proof. apply bt_tx0; [done|done|]. apply boot_bt, small_disk_ok. Qed.

Lemma small_geom : fs_geom small_sb.
Proof. unfold fs_geom, bitmap_ok. vm_compute. repeat split; done || (intros; discriminate). Qed.

Lemma small_fs : fs_ok small_sb small_disk.
Proof.
  split; [apply small_geom|]. split; [apply small_disk_ok|].
  assert (Hall : Forall (fun b => allocated small_disk small_sb b = false -> 35 < b < 200) (seqZ 0 200)).
  { apply Forall_forall. intros b Hb Ha.
    assert (Hc : forallb (fun b => allocated small_disk small_sb b || ((35 <? b) && (b <? 200))) (seqZ 0 200) = true)
      by (vm_compute; reflexivity).
    rewrite forallb_forall in Hc. specialize (Hc b ltac:(by apply list_elem_of_In)).
    rewrite Ha in Hc. simpl in Hc. apply andb_true_iff in Hc as [H1 H2]. bool2prop. lia. }
  intros b Hb Ha. rewrite Forall_forall in Hall.
  apply (Hall b); [apply elem_of_seqZ; simpl in Hb; lia|done].
Qed.

Lemma empty_slot V s : slot_ok s -> slot_addr V empty_inode s = 0.
Proof.
  assert (Hz : forall i, 0 <= i < 13 -> i_addr empty_inode i = 0).
  { intros i Hi. unfold i_addr, empty_inode. cbn [i_addrs].
    apply list_lookup_total_correct, lookup_replicate_2. lia. }
  unfold NDIRECT. destruct s; simpl; unfold NDIRECT; intros Hs; rewrite !Hz by lia; done.
Qed.

Lemma small_tree : tree_ok small_sb small_disk empty_inode.
Proof.
  split; [done| |].
  - intros s Hs Hn. by rewrite empty_slot in Hn.
  - intros s s' Hs Hs' Hn. by rewrite empty_slot in Hn.
Qed.

Lemma small_fstate : fstate 0 small_k (boot_abio small_disk) small_disk small_disk [] [] empty_inode.
Proof. split; [apply small_tx|done|done|apply small_fs|apply small_tree]. Qed.

Lemma empty_inode_ok : inode_ok empty_inode.
Proof.
  split; try done. simpl i_addrs. apply (Forall_replicate word 13 0). unfold word. lia.
Qed.

Lemma small_nfree : nfree small_disk small_sb = 164%nat.
Proof. vm_compute. reflexivity. Qed.

Lemma small_pre : alloc_pre small_k small_disk ∅.
Proof.
  eapply alloc_pre_tree; [apply small_fs|apply small_tree|]. intros t []%not_elem_of_empty.
Qed.

(** * The allocator *)

(** C23: [balloc] returns, and gives the lowest-numbered free block, now marked in
    use and zeroed, every other block of the disk as it was except the bitmap
    block that was marked; it returns 0 exactly when no block is free, and
    then nothing has changed. *)
Theorem balloc_spec {U : Type} (k : kst U) a V D hs H M L :
  tx k a V D hs H M L -> alloc_pre k V H -> room k L 2 -> cap H L 2 ->
  wp (balloc ROOTDEV) (fun r k' a' => klog_only k k' /\
    ((r = 0 /\ (forall j, 0 <= j < sb_size (k_sb k) -> allocated V (k_sb k) j = true) /\
      tx k' a' V D hs H M L) \/
     (first_free V (k_sb k) r /\ exists V', tx k' a' V' D hs H M (log_add (log_add L (BBLOCK r (k_sb k))) r) /\
        V' r = zeros BSIZE /\
        (forall b, 0 <= b < sb_size (k_sb k) ->
           allocated V' (k_sb k) b = if decide (r = b) then true else allocated V (k_sb k) b) /\
        (forall b, b <> r -> b <> BBLOCK r (k_sb k) -> V' b = V b)))) k a.
Proof.
  intros T Hp Hr Hc. eapply wp_mono; [by apply wp_balloc|].
  intros r k' a' [Hk [Hfull|[Hff T']]]; (split; [done|]); [by left|right]. split; [done|].
  pose proof Hff as (Hr1 & Hr2 & _). pose proof (ap_ok _ _ _ Hp) as Hok.
  destruct (ap_held _ _ _ Hp r ltac:(lia) Hr2) as [_ Hnb].
  eexists. split; [exact T'|]. split; [apply took_at|]. split.
  - intros b Hb. rewrite <- (allocated_mark V (k_sb k) r b) by (done || lia || by eapply tx_len).
    unfold allocated. do 2 f_equal. apply fn_lookup_insert_ne. intros E. apply Hnb.
    destruct (BBLOCK_range (k_sb k) b Hok Hb) as (_ & _ & Hbm). congruence.
  - intros b Hb1 Hb2. unfold took, mark. by rewrite !fn_lookup_insert_ne by done.
Qed.

(** On the small file system the block is 36. *)
Lemma balloc_spec_witness :
  wp (balloc ROOTDEV) (fun r k' a' => first_free small_disk small_sb r) small_k (boot_abio small_disk).
Proof.
  eapply wp_mono.
  - apply (balloc_spec small_k _ small_disk small_disk [] ∅ ∅ [] small_tx small_pre).
    + unfold room. simpl. unfold LOGSIZE, MAXOPBLOCKS. lia.
    + unfold cap. rewrite size_empty. change NBUFn with 30%nat. simpl. lia.
  - intros r k' a' [_ [(_ & Hall & _)|[Hff _]]]; [|exact Hff].
    specialize (Hall 36 ltac:(simpl; lia)). vm_compute in Hall. discriminate.
Defined.

(** [bfree] frees what [balloc] took: the block is marked free, the other
    marks are unchanged and only its bitmap block changes; a block that is
    already free makes the kernel panic. *)
Theorem bfree_spec {U : Type} (k : kst U) a V D hs H M L b :
  tx k a V D hs H M L -> bitmap_ok (k_sb k) -> 0 <= b < sb_size (k_sb k) ->
  BBLOCK b (k_sb k) ∉ H -> room k L 1 -> cap H L 1 ->
  if allocated V (k_sb k) b then
    wp (bfree ROOTDEV b) (fun _ k' a' => klog_only k k' /\
      exists V', tx k' a' V' D hs H M (log_add L (BBLOCK b (k_sb k))) /\
        (forall c, 0 <= c < sb_size (k_sb k) -> allocated V' (k_sb k) c =
           if decide (b = c) then false else allocated V (k_sb k) c) /\
        (forall c, c <> BBLOCK b (k_sb k) -> V' c = V c)) k a
  else krun (bfree ROOTDEV b) k a = Panicked "freeing free block".
Proof.
  intros T Hok Hb Hh Hr Hc. destruct (allocated V (k_sb k) b) eqn:Ha.
  - eapply wp_bfree; [exact T|done..|]. intros n blk a' T'. split; [apply klog_only_lh|].
    eexists. split; [exact T'|]. split.
    + intros c Hc'. apply allocated_unmark; [done..|by eapply tx_len].
    + intros c Hc'. unfold unmark. by rewrite fn_lookup_insert_ne.
  - by eapply bfree_free.
Qed.

(** Block 3 of the small file system is in use, block 100 is free. *)
Lemma bfree_spec_witness :
  krun (bfree ROOTDEV 100) small_k (boot_abio small_disk) = Panicked "freeing free block".
Proof.
  assert (W := bfree_spec small_k (boot_abio small_disk) small_disk small_disk [] ∅ ∅ [] 100 small_tx
    (proj1 small_geom) ltac:(simpl; lia)).
  change (allocated small_disk (k_sb small_k) 100) with false in W. apply W.
  - apply not_elem_of_empty.
  - unfold room. simpl. unfold LOGSIZE, MAXOPBLOCKS. lia.
  - unfold cap. rewrite size_empty. change NBUFn with 30%nat. simpl. lia.
Defined.

(** * File content *)

(** C20: [writei] on a well-formed file, with room in the log and on the disk for
    the [c] blocks it spans: it returns [n]; the content of the file is the old
    one with the bytes of the source (user or kernel memory) at [off]; the size
    covers them; no hole appears; the inode on disk is the one in memory; the
    tree of blocks is still well formed, its blocks distinct and marked in use;
    no block of another file has changed. *)
Theorem writei_spec {U : Type} `{!UserMem U} ip (k : kst U) a V D hs L x src dat off c :
  fstate ip k a V D hs L x -> inode_ok x -> 0 <= i_inum x < sb_ninodes (k_sb k) ->
  src_is (k_mem k) src dat -> 0 <= off <= i_size x -> i_size x <= MAXFILE * BSIZE ->
  off + Z.of_nat (length dat) <= MAXFILE * BSIZE ->
  spans off (Z.of_nat (length dat)) c -> (c <= Z.to_nat (Z.of_nat (length dat) / BSIZE) + 2)%nat ->
  (3 * c <= nfree V (k_sb k))%nat -> room k L (9 * Z.of_nat c + 1) -> cap ∅ L (9 * c + 1) ->
  wp (writei ip src off (Z.of_nat (length dat))) (fun r k' a' => r = Z.of_nat (length dat) /\
    exists V' L' x', fstate ip k' a' V' D hs L' x' /\ kip ip k k' /\ on_disk (k_sb k) V' x' /\
      (exists l, x' = set_i_size (Z.max (i_size x) (off + Z.of_nat (length dat))) (set_i_addrs l x)) /\
      (dense V x -> dense V' x') /\
      (forall i, 0 <= i < MAXFILE * BSIZE -> content V' x' i =
         if decide (off <= i < off + Z.of_nat (length dat)) then byte_at dat (i - off)
         else content V x i) /\
      (forall b, ~ bitmap_block (k_sb k) b -> b <> IBLOCK (i_inum x) (k_sb k) ->
         (0 <= b < sb_size (k_sb k) -> allocated V (k_sb k) b = true) ->
         (forall s, slot_ok s -> slot_addr V x s = b -> b = 0) -> V' b = V b)) k a.
Proof.
  intros. eapply wp_mono; [by apply (wp_writei ip k a V D hs L x src dat off c)|].
  intros r k' a' (-> & V' & L' & x' & FS & Hk & Hod & Hsz & Hde & _ & Hc & Hf).
  split; [done|]. by exists V', L', x'.
Qed.

Lemma small_room n : n <= 29 -> room small_k [] n.
Proof. intros. unfold room. simpl. unfold LOGSIZE, MAXOPBLOCKS. lia. Qed.
Lemma small_cap n : (n <= 30)%nat -> cap ∅ [] n.
Proof. intros. unfold cap. rewrite size_empty. change NBUFn with 30%nat. simpl. lia. Qed.

Lemma small_content V i : 0 <= i < MAXFILE * BSIZE -> content V empty_inode i = 0.
Proof. intros Hi. unfold content. by rewrite empty_slot by (by apply slot_of_ok, block_index). Qed.

(** Three bytes are written to an empty file. *)
Lemma writei_spec_witness :
  wp (writei 0 (KernelSrc [7; 8; 9]) 0 3) (fun r k' a' => r = 3 /\
    exists V' x', i_size x' = 3 /\ content V' x' 1 = 8 /\ content V' x' 3 = 0) small_k (boot_abio small_disk).
Proof.
  eapply wp_mono.
  - apply (writei_spec 0 small_k _ small_disk small_disk [] [] empty_inode (KernelSrc [7; 8; 9]) [7; 8; 9] 0 1
      small_fstate empty_inode_ok); change (MAXFILE * BSIZE) with 67382272; simpl; try lia.
    + reflexivity.
    + vm_compute. discriminate.
    + change (k_sb small_k) with small_sb. rewrite small_nfree. lia.
    + apply small_room. lia.
    + apply small_cap. lia.
  - intros r k' a' (-> & V' & L' & x' & _ & _ & _ & Hsz & _ & Hc & _). split; [reflexivity|].
    exists V', x'. split; [destruct Hsz as [l ->]; reflexivity|].
    rewrite !Hc by (change (MAXFILE * BSIZE) with 67382272; lia). split; [reflexivity|].
    simpl. apply small_content. change (MAXFILE * BSIZE) with 67382272. lia.
Defined.

(** C21: what is written is read back: after [writei] of [dat] at [off], [readi]
    from [off'] returns the bytes up to the end of the file, [dat] where it was
    written and the old content elsewhere. *)
Theorem write_read {U : Type} `{!UserMem U} ip (k : kst U) a V D hs L x src dat off c off' n' :
  fstate ip k a V D hs L x -> dense V x -> inode_ok x -> 0 <= i_inum x < sb_ninodes (k_sb k) ->
  src_is (k_mem k) src dat -> 0 <= off <= i_size x -> i_size x <= MAXFILE * BSIZE ->
  off + Z.of_nat (length dat) <= MAXFILE * BSIZE ->
  spans off (Z.of_nat (length dat)) c -> (c <= Z.to_nat (Z.of_nat (length dat) / BSIZE) + 2)%nat ->
  (3 * c <= nfree V (k_sb k))%nat -> room k L (9 * Z.of_nat c + 1) -> cap ∅ L (9 * c + 2) ->
  let sz := Z.max (i_size x) (off + Z.of_nat (length dat)) in
  0 <= off' <= sz -> 0 <= n' -> off' + n' < 2 ^ 32 ->
  wp (_ ← writei ip src off (Z.of_nat (length dat)); readi ip KernelDst off' n') (fun r _ _ =>
    r.1 = Z.min n' (sz - off') /\ Z.of_nat (length r.2) = r.1 /\
    forall i, 0 <= i < r.1 -> byte_at r.2 i =
      if decide (off <= off' + i < off + Z.of_nat (length dat)) then byte_at dat (off' + i - off)
      else content V x (off' + i)) k a.
Proof.
  intros FS Hde Hio Hin Hsrc Hoff Hsz Hmax Hsp Hc Hnf Hr Hcap sz Hoff' Hn' Hov.
  apply wp_bind. eapply wp_mono.
  { apply (wp_writei ip k a V D hs L x src dat off c); try done. unfold cap in *. lia. }
  intros r k1 a1 (_ & V1 & L1 & x1 & FS1 & _ & _ & [l Hx1] & Hde1 & Hl1 & Hc1 & _).
  assert (Hsz1 : i_size x1 = sz) by (by rewrite Hx1).
  eapply wp_mono.
  { apply (wp_readi ip k1 a1 V1 D hs L1 x1 off' n'); try done; [by apply Hde1|lia|lia|].
    unfold cap in *. lia. }
  intros r' k2 a2 (-> & _). rewrite Hsz1, decide_False by lia. cbn [fst snd].
  set (m := Z.min n' (sz - off')). split; [done|].
  assert (Hlen : Z.of_nat (length (content_bytes V1 x1 off' m)) = m).
  { unfold content_bytes. rewrite length_fmap, length_seqZ. lia. }
  split; [done|]. intros i Hi. rewrite <- Hc1 by (unfold sz in *; lia). unfold byte_at, content_bytes.
  apply list_lookup_total_correct. rewrite list_lookup_fmap, lookup_seqZ_lt by lia. simpl.
  do 2 f_equal. lia.
Qed.

Lemma write_read_witness :
  wp (_ ← writei 0 (KernelSrc [7; 8; 9]) 0 3; readi 0 KernelDst 1 10)
    (fun r _ _ => r.1 = 2 /\ byte_at r.2 0 = 8 /\ byte_at r.2 1 = 9) small_k (boot_abio small_disk).
Proof.
  eapply wp_mono.
  - apply (write_read 0 small_k _ small_disk small_disk [] [] empty_inode (KernelSrc [7; 8; 9]) [7; 8; 9] 0 1 1 10
      small_fstate); change (MAXFILE * BSIZE) with 67382272; simpl; try lia.
    + intros bn H1 H2. simpl in H2. unfold BSIZE in H2. lia.
    + apply empty_inode_ok.
    + reflexivity.
    + vm_compute. discriminate.
    + change (k_sb small_k) with small_sb. rewrite small_nfree. lia.
    + apply small_room. lia.
    + apply small_cap. lia.
  - simpl. intros [m d] k' a' (Hm & Hl & Hb). simpl in *. split; [exact Hm|].
    rewrite !Hb by lia. split; reflexivity.
Defined.

(** C22: [bmap] below the maximum file size, with three free blocks: it returns
    the address of the block, a data block marked in use and different from
    every other block of the file, and leaves every byte of the file and every
    block of other files as they were, addresses already there included. *)
Theorem bmap_spec {U : Type} ip (k : kst U) a V D hs L x bn :
  fstate ip k a V D hs L x -> 0 <= bn < MAXFILE -> (3 <= nfree V (k_sb k))%nat ->
  room k L 8 -> cap ∅ L 9 ->
  wp (bmap ip bn) (fun r k' a' => exists V' x' L',
    fstate ip k' a' V' D hs L' x' /\ kip ip k k' /\
    r = slot_addr V' x' (slot_of bn) /\ data_block (k_sb k) r /\ allocated V' (k_sb k) r = true /\
    (forall s, slot_ok s -> slot_addr V' x' s = r -> s = slot_of bn) /\
    (forall s, slot_ok s -> slot_addr V x s <> 0 -> slot_addr V' x' s = slot_addr V x s) /\
    (forall i, 0 <= i < MAXFILE * BSIZE -> content V' x' i = content V x i) /\
    (forall b, ~ bitmap_block (k_sb k) b -> (0 <= b < sb_size (k_sb k) -> allocated V (k_sb k) b = true) ->
       (forall s, slot_ok s -> slot_addr V x s = b -> b = 0) -> V' b = V b)) k a.
Proof.
  intros FS Hbn Hnf Hr Hc. eapply wp_mono; [by apply wp_bmap|].
  intros r k' a' (V' & x' & L' & FS' & [Hk G _ _ _] & -> & Hn).
  destruct (slot_of_ok bn Hbn) as [Hs _]. pose proof (fs_tree _ _ _ _ _ _ _ _ FS') as Hok'.
  rewrite (kip_sb _ _ _ Hk) in Hok'. destruct (to_data _ _ _ Hok' _ Hs Hn) as [Hd Ha].
  exists V', x', L'. split; [done|]. split; [done|]. split; [done|]. split; [done|]. split; [done|].
  split; [|split; [|split]].
  - intros s Hs' E. symmetry. by apply (to_inj _ _ _ Hok').
  - apply G.
  - intros i Hi. by eapply grow_content.
  - intros b H1 H2 H3. apply (fr_block _ _ _ _ _ (grow_frames _ _ _ _ _ G)); done.
Qed.

(** The first double-indirect block of an empty file. *)
Lemma bmap_spec_witness :
  wp (bmap 0 (NDIRECT + NINDIRECT)) (fun r k' a' => data_block small_sb r) small_k (boot_abio small_disk).
Proof.
  eapply wp_mono.
  - apply (bmap_spec 0 small_k _ small_disk small_disk [] [] empty_inode (NDIRECT + NINDIRECT) small_fstate).
    + vm_compute. split; congruence.
    + change (k_sb small_k) with small_sb. rewrite small_nfree. lia.
    + apply small_room. lia.
    + apply small_cap. lia.
  - intros r k' a' (V' & x' & L' & _ & _ & _ & Hd & _). exact Hd.
Defined.

(** * Deviations *)

(** A file with one block in its double-indirect area: blocks 36, 37 and 38. *)
Definition dbl_inode : inode :=
  Inode ROOTDEV 1 1 (SleepLock true 1) true T_FILE 0 0 0 1024 (<[12%nat := 36]> (replicate 13 0)).
Definition dbl_disk : Z -> bytes :=
  <[35 := put (zeros BSIZE) 0 [255; 255; 255; 255; 127]]>
  (<[36 := put_word (zeros BSIZE) 0 37]> (<[37 := put_word (zeros BSIZE) 0 38]> (fun _ => zeros BSIZE))).
Definition dbl_k : kst unit :=
  Kst small_sb (Log 2 LOGSIZE 1 0 ROOTDEV 0 (fun _ => 0)) (fun _ => dbl_inode)
      (fun _ => fresh_file) 1 [] 0 tt [] fresh_ext.


(** The same disk with no free block, and the file's only second-level table
    not yet allocated: block 36 is an empty double-indirect block, and block 0
    starts with the word 7. *)
Definition full_disk : Z -> bytes :=
  <[35 := replicate (Z.to_nat BSIZE) 255]> (<[0 := put_word (zeros BSIZE) 0 7]> (fun _ => zeros BSIZE)).

(** When the disk is full and the second-level table is missing, [bmap] does
    not return 0 but the first word of block 0 taken as a block address. *)
Theorem bmap_full_reads_boot_block :
  exists k' a', krun (bmap 0 (NDIRECT + NINDIRECT)) dbl_k (boot_abio full_disk) = Done ((7, k'), a').
Proof. do 2 eexists. vm_compute. reflexivity. Qed.
