(* ===== verification/FsPath.v ===== *)
(** Path names of kernel/fs.c: [skipelem] splits a path into its components, and
    [namex] terminates; what every operation of the file system leaves alone. *)

From S2P Require Import Prelude BufCache BufSpec KState Log LogCrash LogSystem CString Fs.
From S2P Require Import FsAlloc FsTree FsFile FsWrite FsInode FsProps.
Local Open Scope Z_scope.

(** * Splitting *)

(** The components of a path: its maximal runs without a slash.  [cur] is the
    run being read. *)
Fixpoint components_from (cur path : bytes) : list bytes :=
  match path with
  | [] => match cur with [] => [] | _ => [cur] end
  | c :: rest =>
      if c =? SLASH then
        match cur with [] => components_from [] rest | _ => cur :: components_from [] rest end
      else components_from (cur ++ [c]) rest
  end.
Definition components (path : bytes) : list bytes := components_from [] path.

(** What [skipelem] stores in a buffer of [DIRSIZ] bytes. *)
Definition store_name (name e : bytes) : bytes :=
  if Z.of_nat (length e) >=? DIRSIZ then put name 0 (take (Z.to_nat DIRSIZ) e) else put name 0 (e ++ [0]).

Lemma components_skip path : components (skip_slashes path) = components path.
Proof.
  unfold components. induction path as [|c path IH]; simpl; [done|].
  destruct (c =? SLASH) eqn:E; [done|]. simpl. by rewrite E.
Qed.

Lemma split_elem_spec path e r :
  split_elem path = (e, r) ->
  path = e ++ r /\ Forall (fun c => c <> SLASH) e /\ (r = [] \/ exists r', r = SLASH :: r').
Proof.
  revert e r. induction path as [|c path IH]; intros e r; simpl.
  - intros [= <- <-]. auto.
  - destruct (Z.eqb_spec c SLASH) as [->|Hc].
    + intros [= <- <-]. eauto.
    + destruct (split_elem path) as [e' r'] eqn:E. intros [= <- <-].
      destruct (IH e' r' eq_refl) as (-> & Hf & Hr). auto.
Qed.

Lemma components_elem cur e r :
  Forall (fun c => c <> SLASH) e -> cur ++ e <> [] -> (r = [] \/ exists r', r = SLASH :: r') ->
  components_from cur (e ++ r) = (cur ++ e) :: components r.
Proof.
  intros He. revert cur. induction He as [|c e Hc He IH]; intros cur Hne Hr.
  - rewrite app_nil_r in *. simpl. destruct Hr as [->|[r' ->]]; simpl.
    + by destruct cur.
    + destruct cur; [done|]. reflexivity.
  - simpl. rewrite (proj2 (Z.eqb_neq _ _)) by done. rewrite IH; rewrite <- ?app_assoc; try done; by destruct cur.
Qed.

Lemma skip_slashes_head path :
  skip_slashes path = [] \/ exists c rest, skip_slashes path = c :: rest /\ c <> SLASH.
Proof.
  induction path as [|c path IH]; simpl; [by left|].
  destruct (Z.eqb_spec c SLASH); [done|]. right. by exists c, path.
Qed.

Lemma skip_slashes_length path : (length (skip_slashes path) <= length path)%nat.
Proof. induction path as [|c path IH]; simpl; [done|]. destruct (c =? SLASH); simpl; lia. Qed.

Lemma skipelem_cases path name :
  match skipelem path name with
  | None => components path = []
  | Some (path', name') => exists e, components path = e :: components path' /\ name' = store_name name e /\
      (path' = [] \/ exists c rest, path' = c :: rest /\ c <> SLASH) /\ (length path' < length path)%nat
  end.
Proof.
  unfold skipelem. rewrite <- (components_skip path). pose proof (skip_slashes_length path) as Hl.
  destruct (skip_slashes_head path) as [->|(c & rest & E & Hc)]; [done|]. rewrite E in *.
  destruct (split_elem (c :: rest)) as [e r] eqn:Es. pose proof (split_elem_spec _ _ _ Es) as (Ep & Hf & Hr).
  exists e. assert (He : e <> []).
  { intros ->. simpl in Ep. destruct Hr as [->|[r' ->]]; [done|]. by injection Ep as ->. }
  split; [|split; [done|split; [apply skip_slashes_head|]]].
  - unfold components at 1. rewrite Ep, (components_elem []) by done. by rewrite components_skip.
  - pose proof (skip_slashes_length r) as Hl2. rewrite Ep, length_app in Hl. destruct e; [done|]. simpl in Hl. lia.
Qed.

(** * Framing and termination *)

(** What the code of kernel/fs.c and kernel/log.c leaves alone: the open files,
    the descriptors, the current directory and the state of the process. *)
Record frame {U} (k k' : kst U) : Prop := Frame {
  fr_ftable : k_ftable k' = k_ftable k;
  fr_ofile : k_ofile k' = k_ofile k;
  fr_cwd : k_cwd k' = k_cwd k;
  fr_ext : k_ext k' = k_ext k;
}.

#[export] Instance frame_refl {U} : Reflexive (frame (U := U)).
Proof. by split. Qed.
#[export] Instance frame_trans {U} : Transitive (frame (U := U)).
Proof. intros k1 k2 k3 [] []. split; congruence. Qed.

(** The panics of kernel/file.c. *)
Definition file_panics : list string := ["filedup"; "fileclose"; "fileread"; "filewrite"].

Section termination.
Context {U : Type}.

(** [m] never runs out of the fuel the model gives its loops, never panics with
    a message of kernel/file.c, and when it returns it has related the states
    by [R]. *)
Definition runs {A} (R : kst U -> A -> kst U -> Prop) (m : K U A) (k : kst U) : Prop :=
  forall a, match krun m k a with
  | Done ((x, k'), _) => R k x k'
  | Panicked s => s ∉ file_panics
  | OutOfFuel => False
  | Asleep | Unspec => True
  end.
Definition fsop {A} (m : K U A) : Prop := forall k, runs (fun k _ k' => frame k k') m k.

Lemma runs_bind {A B} (R1 : kst U -> A -> kst U -> Prop) (R2 : kst U -> B -> kst U -> Prop) (m : K U A) (f : A -> K U B) k :
  runs R1 m k -> (forall x k', R1 k x k' -> runs (fun _ y k'' => R2 k y k'') (f x) k') -> runs R2 (m ≫= f) k.
Proof.
  intros Hm Hf a. rewrite krun_bind. specialize (Hm a).
  destruct (krun m k a) as [[[x k'] a']| | | |]; try done. by apply (Hf x k' Hm).
Qed.

Lemma runs_mono {A} (R1 R2 : kst U -> A -> kst U -> Prop) (m : K U A) k :
  runs R1 m k -> (forall x k', R1 k x k' -> R2 k x k') -> runs R2 m k.
Proof.
  intros Hm HR a. specialize (Hm a). destruct (krun m k a) as [[[x k'] a']| | | |]; try done. by apply HR.
Qed.

Lemma fsop_bind {A B} (m : K U A) (f : A -> K U B) : fsop m -> (forall x, fsop (f x)) -> fsop (m ≫= f).
Proof.
  intros Hm Hf k. eapply runs_bind; [apply Hm|]. intros x k' Hk. eapply runs_mono; [apply Hf|].
  intros y k'' Hk'. by transitivity k'.
Qed.

Lemma fsop_ret {A} (x : A) : fsop (mret x).
Proof. intros k a. by simpl. Qed.
Lemma fsop_get {A} (f : kst U -> A) : fsop (kget f).
Proof. intros k a. by simpl. Qed.
Lemma fsop_sleep {A} : fsop (A := A) ksleep.
Proof. done. Qed.
Lemma fsop_undef {A} : fsop (A := A) kundef.
Proof. done. Qed.
Lemma fsop_panic {A} s : s ∉ file_panics -> fsop (A := A) (kpanic s).
Proof. by intros H k a. Qed.

Lemma fsop_event {X} (e : bioE X) : fsop (klift (Vis e Ret)).
Proof.
  intros k a. unfold krun. simpl.
  destruct e; simpl; unfold abs_held, abs_bread, abs_brelse; simpl; repeat (case_match; simplify_eq/=);
    first [done | by split | set_solver].
Qed.

Lemma fsop_kfor {R} n i step (body : Z -> K U (option R)) :
  (forall j, fsop (body j)) -> fsop (kfor n i step body).
Proof.
  intros Hb. revert i. induction n as [|n IH]; intros i; simpl; [apply fsop_ret|].
  apply fsop_bind; [apply Hb|]. intros [v|]; [apply fsop_ret|apply IH].
Qed.

Lemma fsop_kiter n i (body : Z -> K U unit) :
  (forall j, fsop (body j)) -> fsop (kiter n i body).
Proof.
  intros Hb. revert i. induction n as [|n IH]; intros i; simpl; [apply fsop_ret|].
  apply fsop_bind; [apply Hb|]. intros []. apply IH.
Qed.

Lemma fsop_log f : fsop (log_mod f). Proof. by intros k a. Qed.
Lemma fsop_inode ip : fsop (kinode ip). Proof. by intros k a. Qed.
Lemma fsop_imod ip f : fsop (imod ip f). Proof. by intros k a. Qed.
Lemma fsop_printf s : fsop (kprintf s). Proof. by intros k a. Qed.
Lemma fsop_sb sb : fsop (kmod (set_k_sb sb)). Proof. by intros k a. Qed.
Lemma fsop_mem u : fsop (kmod (set_k_mem u)). Proof. by intros k a. Qed.
End termination.

Create HintDb fsop discriminated.
#[export] Hint Resolve fsop_event fsop_ret fsop_get fsop_sleep fsop_undef fsop_log fsop_inode fsop_imod
  fsop_printf fsop_sb fsop_mem : fsop.

(** Straight-line code, tests and loops with a known number of iterations. *)
Ltac fsop :=
  repeat (intros; lazymatch goal with
  | |- fsop (_ ≫= _) => apply fsop_bind
  | |- fsop (if ?b then _ else _) => destruct b
  | |- fsop (match ?x with _ => _ end) => destruct x
  | |- fsop (let _ := _ in _) => cbv zeta
  | |- fsop (kfor _ _ _ _) => apply fsop_kfor
  | |- fsop (kiter _ _ _) => apply fsop_kiter
  | |- fsop (kpanic _) => apply fsop_panic; apply (bool_decide_unpack _); vm_compute; exact I
  | |- fsop _ => solve [eauto with fsop]
  end).

Section terminates.
Context {U : Type} `{!UserMem U}.
Local Abbreviation nf := (fsop (U := U)).

Lemma nf_bread dev no : nf (kbread dev no). Proof. apply fsop_event. Qed.
Lemma nf_data b : nf (kdata b). Proof. apply fsop_event. Qed.
Lemma nf_set b d : nf (kset_data b d). Proof. apply fsop_event. Qed.
Lemma nf_bwrite b : nf (kbwrite b). Proof. apply fsop_event. Qed.
Lemma nf_brelse b : nf (kbrelse b). Proof. apply fsop_event. Qed.
Lemma nf_bpin b : nf (kbpin b). Proof. apply fsop_event. Qed.
Lemma nf_bunpin b : nf (kbunpin b). Proof. apply fsop_event. Qed.
#[local] Hint Resolve nf_bread nf_data nf_set nf_bwrite nf_brelse nf_bpin nf_bunpin : fsop.
Lemma nf_log_write b : nf (log_write b). Proof. unfold log_write. fsop. Qed.
Lemma nf_write_head  : nf (write_head). Proof. unfold write_head. fsop. Qed.
Lemma nf_install_trans r : nf (install_trans r). Proof. unfold install_trans, install_block. fsop. Qed.
Lemma nf_write_log  : nf (write_log). Proof. unfold write_log, write_log_block. fsop. Qed.
#[local] Hint Resolve nf_log_write nf_write_head nf_install_trans nf_write_log : fsop.
Lemma nf_commit  : nf (commit). Proof. unfold commit. fsop. Qed.
Lemma nf_begin_op  : nf (begin_op). Proof. unfold begin_op. fsop. Qed.
#[local] Hint Resolve nf_commit nf_begin_op : fsop.
Lemma nf_end_op  : nf (end_op). Proof. unfold end_op. fsop. Qed.
Lemma nf_bzero dev b : nf (bzero dev b). Proof. unfold bzero. fsop. Qed.
Lemma nf_bfree dev b : nf (bfree dev b). Proof. unfold bfree. fsop. Qed.
#[local] Hint Resolve nf_end_op nf_bzero nf_bfree : fsop.
Lemma nf_balloc dev : nf (balloc dev). Proof. unfold balloc, balloc_step. fsop. Qed.
Lemma nf_iget dev i : nf (iget dev i). Proof. unfold iget. fsop. Qed.
Lemma nf_iupdate ip : nf (iupdate ip). Proof. unfold iupdate. fsop. Qed.
Lemma nf_acquire ip : nf (ilk_acquire ip). Proof. unfold ilk_acquire. fsop. Qed.
Lemma nf_release ip : nf (ilk_release ip). Proof. unfold ilk_release. fsop. Qed.
#[local] Hint Resolve nf_balloc nf_iget nf_iupdate nf_acquire nf_release : fsop.
Lemma nf_ialloc dev t : nf (ialloc dev t). Proof. unfold ialloc, ialloc_step. fsop. Qed.
Lemma nf_ilock p : nf (ilock p). Proof. unfold ilock. fsop. Qed.
Lemma nf_iunlock p : nf (iunlock p). Proof. unfold iunlock, ilk_holding. fsop. Qed.
Lemma nf_itrunc ip : nf (itrunc ip). Proof. unfold itrunc, itrunc_direct, itrunc_indirect, itrunc_double, free_entries. fsop. Qed.
Lemma nf_stati ip : nf (stati ip). Proof. unfold stati. fsop. Qed.
#[local] Hint Resolve nf_ialloc nf_ilock nf_iunlock nf_itrunc nf_stati : fsop.
Lemma nf_iput ip : nf (iput ip). Proof. unfold iput. fsop. Qed.
#[local] Hint Resolve nf_iput : fsop.
Lemma nf_iunlockput ip : nf (iunlockput ip). Proof. unfold iunlockput. fsop. Qed.
Lemma nf_bmap ip bn : nf (bmap ip bn). Proof. unfold bmap, bmap_addr, bmap_entry. fsop. Qed.
#[local] Hint Resolve nf_iunlockput nf_bmap : fsop.
Lemma nf_copyout d t s : nf (either_copyout d t s).
Proof. unfold either_copyout. fsop. Qed.
Lemma nf_copyin s t n : nf (either_copyin s t n).
Proof. unfold either_copyin. fsop. Qed.
#[local] Hint Resolve nf_copyout nf_copyin : fsop.

Lemma nf_readi_loop fuel ip dst tot off n acc c :
  (tot < n -> spans off (n - tot) c) -> (c < fuel)%nat -> nf (readi_loop fuel ip dst tot off n acc).
Proof.
  revert tot off acc c. induction fuel as [|fuel IH]; intros tot off acc c Hsp Hc; [lia|]. cbn [readi_loop].
  destruct (Z.ltb_spec tot n) as [Hlt|]; [|fsop]. specialize (Hsp Hlt).
  destruct c as [|c]; [apply spans_0 in Hsp; lia|].
  set (m := Z.min (n - tot) (BSIZE - off mod BSIZE)).
  assert (IH' : forall acc, nf (readi_loop fuel ip dst (tot + m) (off + m) n acc)).
  { intros acc'. apply (IH _ _ _ c); [|lia]. intros Hlt'.
    replace (n - (tot + m)) with (n - tot - m) by lia. apply spans_step; [done|lia|done]. }
  fsop.
Qed.

Lemma nf_readi ip dst off n : nf (readi ip dst off n).
Proof.
  unfold readi. apply fsop_bind; [fsop|]. intros x. destruct (_ || _); [fsop|].
  set (n' := if _ >? _ then _ else _ : Z). apply (nf_readi_loop _ _ _ _ _ _ _ (Z.to_nat (n' / BSIZE) + 2)).
  - intros Hlt. rewrite Z.sub_0_r. apply spans_all. lia.
  - unfold chunks. lia.
Qed.

Lemma nf_writei_loop fuel ip src tot off n c :
  (tot < n -> spans off (n - tot) c) -> (c < fuel)%nat -> nf (writei_loop fuel ip src tot off n).
Proof.
  revert tot off c. induction fuel as [|fuel IH]; intros tot off c Hsp Hc; [lia|]. cbn [writei_loop].
  destruct (Z.ltb_spec tot n) as [Hlt|]; [|fsop]. specialize (Hsp Hlt).
  destruct c as [|c]; [apply spans_0 in Hsp; lia|].
  set (m := Z.min (n - tot) (BSIZE - off mod BSIZE)).
  assert (IH' : nf (writei_loop fuel ip src (tot + m) (off + m) n)).
  { apply (IH _ _ c); [|lia]. intros Hlt'.
    replace (n - (tot + m)) with (n - tot - m) by lia. apply spans_step; [done|lia|done]. }
  fsop.
Qed.

Lemma nf_writei ip src off n : nf (writei ip src off n).
Proof.
  unfold writei. apply fsop_bind; [fsop|]. intros x. destruct (_ || _); [fsop|]. destruct (_ >? _); [fsop|].
  apply fsop_bind; [|fsop].
  apply (nf_writei_loop _ _ _ _ _ _ (Z.to_nat (n / BSIZE) + 2)).
  - intros Hlt. rewrite Z.sub_0_r. apply spans_all. lia.
  - unfold chunks. lia.
Qed.
#[local] Hint Resolve nf_readi nf_writei : fsop.

Lemma nf_dirlookup dp name : nf (dirlookup dp name). Proof. unfold dirlookup, dirlookup_step. fsop. Qed.
#[local] Hint Resolve nf_dirlookup : fsop.
Lemma nf_dirlink dp name i : nf (dirlink dp name i). Proof. unfold dirlink, dirlink_step. fsop. Qed.
#[local] Hint Resolve nf_dirlink : fsop.

Lemma nf_namex_loop fuel ip path par name :
  (length path < fuel)%nat -> nf (namex_loop fuel ip path par name).
Proof.
  revert ip path name. induction fuel as [|fuel IH]; intros ip path name Hl; [lia|].
  cbn [namex_loop]. pose proof (skipelem_cases path name) as Hs.
  destruct (skipelem path name) as [[path' name']|]; [|fsop].
  destruct Hs as (e & _ & _ & _ & Hlt).
  assert (IH' : forall ip, nf (namex_loop fuel ip path' par name')) by (intros; apply IH; lia).
  fsop.
Qed.

Lemma nf_namex path par name : nf (namex path par name).
Proof.
  unfold namex. apply fsop_bind; [unfold idup; fsop|]. intros ip. apply nf_namex_loop. lia.
Qed.
#[local] Hint Resolve nf_namex : fsop.
Lemma nf_namei name path : nf (namei name path). Proof. unfold namei. fsop. Qed.
Lemma nf_nameiparent path name : nf (nameiparent path name). Proof. apply nf_namex. Qed.

Lemma fsop_terminates {A} (m : K U A) k a : nf m -> krun m k a <> OutOfFuel.
Proof. intros H E. specialize (H k a). by rewrite E in H. Qed.

End terminates.

#[export] Hint Resolve nf_bread nf_data nf_set nf_bwrite nf_brelse nf_bpin nf_bunpin nf_log_write nf_write_head
  nf_install_trans nf_write_log nf_commit nf_begin_op nf_end_op nf_bzero nf_bfree nf_balloc nf_iget
  nf_iupdate nf_acquire nf_release nf_ialloc nf_ilock nf_iunlock nf_itrunc nf_stati nf_iput
  nf_iunlockput nf_bmap nf_copyout nf_copyin nf_readi nf_writei nf_dirlookup nf_dirlink nf_namex
  nf_namei nf_nameiparent : fsop.

(** * Properties *)

(** [skipelem] takes the first component of a path: it gives null exactly
    when the path has none (it is empty or all slashes); otherwise the rest of
    the path has the remaining components, no leading slash and is shorter, and
    the name buffer holds the component, cut at [DIRSIZ] bytes or terminated by
    a NUL. *)
Theorem skipelem_spec (path name : bytes) :
  match skipelem path name with
  | None => components path = []
  | Some (path', name') => exists e, components path = e :: components path' /\ name' = store_name name e /\
      (path' = [] \/ exists c rest, path' = c :: rest /\ c <> SLASH) /\ (length path' < length path)%nat
  end.
Proof. apply skipelem_cases. Qed.

