(* ===== verification/FsTable.v ===== *)
(** The in-memory inode table of kernel/fs.c: [iget], [idup], [ilock], [iunlock]
    and [iupdate]. *)

From S2P Require Import Prelude BufCache BufSpec KState Log LogCrash LogSystem CString Fs.
From S2P Require Import FsAlloc FsTree FsFile FsWrite FsInode FsProps.
Local Open Scope Z_scope.

(** * The table *)

Definition refers (x : inode) (dev inum : Z) : Prop := 0 < i_ref x /\ i_dev x = dev /\ i_inum x = inum.

(** At most one referenced entry per inode. *)
Definition itable_ok (t : nat -> inode) : Prop :=
  (forall i, (i < NINODEn)%nat -> 0 <= i_ref (t i)) /\
  forall i j, (i < NINODEn)%nat -> (j < NINODEn)%nat -> 0 < i_ref (t i) -> 0 < i_ref (t j) ->
    i_dev (t i) = i_dev (t j) -> i_inum (t i) = i_inum (t j) -> i = j.

Lemma iget_scan_spec n i t dev inum empty :
  (forall e, empty = Some e -> (e < i)%nat /\ i_ref (t e) = 0) ->
  (empty = None -> forall j, (j < i)%nat -> i_ref (t j) <> 0) ->
  (forall j, (j < i)%nat -> ~ refers (t j) dev inum) ->
  match iget_scan n i t dev inum empty with
  | (Some ip, _) => (i <= ip < i + n)%nat /\ refers (t ip) dev inum
  | (None, e) => (forall j, (j < i + n)%nat -> ~ refers (t j) dev inum) /\
      match e with
      | Some ip => (ip < i + n)%nat /\ i_ref (t ip) = 0
      | None => forall j, (j < i + n)%nat -> i_ref (t j) <> 0
      end
  end.
Proof.
  revert i empty. induction n as [|n IH]; intros i empty He Hn Hr; cbn [iget_scan].
  { rewrite Nat.add_0_r. split; [done|]. destruct empty as [e|]; [by apply He|by apply Hn]. }
  destruct ((i_ref (t i) >? 0) && (i_dev (t i) =? dev) && (i_inum (t i) =? inum)) eqn:E.
  - split; [lia|]. unfold refers. rewrite Z.gtb_ltb in E. bool2prop. split; [lia|done].
  - assert (Hi : ~ refers (t i) dev inum).
    { intros (H1 & H2 & H3). rewrite Z.gtb_ltb, (proj2 (Z.ltb_lt _ _)), H2, H3, !Z.eqb_refl in E by done. done. }
    set (empty' := match empty with Some _ => empty | None => if i_ref (t i) =? 0 then Some i else None end).
    opose proof* (IH (S i) empty') as H.
    + intros e Ee. unfold empty' in Ee. destruct empty as [e0|].
      * destruct (He e0 eq_refl). simplify_eq. split; [lia|done].
      * destruct (Z.eqb_spec (i_ref (t i)) 0); simplify_eq. split; [lia|done].
    + intros Ee j Hj. unfold empty' in Ee. destruct empty as [e0|]; [done|].
      destruct (Z.eqb_spec (i_ref (t i)) 0); [done|].
      destruct (decide (j = i)) as [->|]; [done|apply Hn; [done|lia]].
    + intros j Hj. destruct (decide (j = i)) as [->|]; [done|apply Hr; lia].
    + replace (S i + n)%nat with (i + S n)%nat in H by lia.
      destruct (iget_scan n (S i) t dev inum empty') as [[ip|] e]; [|done].
      destruct H. split; [lia|done].
Qed.

Section table.
Context {U : Type} `{!UserMem U}.
Implicit Types k : kst U.

#[local] Opaque NINODEn.

Lemma iget_run k a dev inum :
  krun (iget dev inum) k a =
    match iget_scan NINODEn 0 (k_itable k) dev inum None with
    | (Some ip, _) => Done ((ip, set_k_itable (<[ip := set_i_ref (i_ref (k_itable k ip) + 1) (k_itable k ip)]>
                                                 (k_itable k)) k), a)
    | (None, None) => Panicked "iget: no inodes"
    | (None, Some ip) => Done ((ip, set_k_itable (<[ip := set_i_id dev inum 1 false (k_itable k ip)]>
                                                    (k_itable k)) k), a)
    end.
Proof.
  unfold iget. rewrite krun_bind. simpl. by destruct (iget_scan _ _ _ _ _ _) as [[ip|] [e|]].
Qed.

(** Changing one entry keeps the table well formed if its new identity is free. *)
Lemma itable_ok_upd t ip x :
  itable_ok t -> 0 <= i_ref x ->
  (forall j, j <> ip -> (j < NINODEn)%nat -> ~ refers (t j) (i_dev x) (i_inum x)) ->
  itable_ok (<[ip := x]> t).
Proof.
  intros [Hpos Huniq] Hx Hno. split.
  - intros i Hi. destruct (decide (i = ip)) as [->|];
      [by rewrite fn_lookup_insert|rewrite fn_lookup_insert_ne by done; by apply Hpos].
  - intros i j Hi Hj. destruct (decide (i = ip)) as [->|Hne], (decide (j = ip)) as [->|Hne'];
      rewrite ?fn_lookup_insert, ?fn_lookup_insert_ne by done; intros Hri Hrj Ed Ei.
    + done.
    + exfalso. apply (Hno j Hne' Hj). by split.
    + exfalso. apply (Hno i Hne Hi). by split.
    + by apply Huniq.
Qed.

Lemma iget_ok k a dev inum :
  itable_ok (k_itable k) ->
  let t := k_itable k in
  match krun (iget dev inum) k a with
  | Done ((ip, k'), a') => a' = a /\ (ip < NINODEn)%nat /\ itable_ok (k_itable k') /\
      refers (k_itable k' ip) dev inum /\ (forall j, j <> ip -> k_itable k' j = t j) /\
      ((refers (t ip) dev inum /\ k_itable k' ip = set_i_ref (i_ref (t ip) + 1) (t ip)) \/
       ((forall j, (j < NINODEn)%nat -> ~ refers (t j) dev inum) /\
        i_ref (t ip) = 0 /\ k_itable k' ip = set_i_id dev inum 1 false (t ip)))
  | Panicked msg => msg = "iget: no inodes"%string /\
      forall j, (j < NINODEn)%nat -> i_ref (t j) <> 0 /\ ~ refers (t j) dev inum
  | _ => False
  end.
Proof.
  intros Hok t. rewrite iget_run. fold t.
  opose proof* (iget_scan_spec NINODEn 0 t dev inum None) as H; [done|intros; lia|intros; lia|].
  assert (Hother : forall ip x j, j <> ip -> k_itable (set_k_itable (<[ip := x]> t) k) j = t j)
    by (intros ip x j Hj; by apply fn_lookup_insert_ne).
  destruct (iget_scan NINODEn 0 t dev inum None) as [[ip|] e]; [|destruct e as [ip|]].
  - destruct H as [Hr Href]. pose proof Href as (H1 & <- & <-).
    split; [done|]. split; [lia|]. split.
    { apply itable_ok_upd; [done|simpl; lia|]. simpl. intros j Hj Hlt (Hj1 & Hj2 & Hj3).
      apply Hj. apply Hok; done || lia. }
    simpl. rewrite fn_lookup_insert. split; [by split; simpl; [lia|]|].
    split; [by apply Hother|by left].
  - destruct H as [Hno [He Hz]]. split; [done|]. split; [lia|]. split.
    { apply itable_ok_upd; [done|simpl; lia|]. simpl. intros j Hj Hlt. by apply Hno. }
    simpl. rewrite fn_lookup_insert. split; [by split; simpl; [lia|]|].
    split; [by apply Hother|by right].
  - destruct H as [Hno Hz]. split; [done|]. intros j Hj. split; [by apply Hz|by apply Hno].
Qed.

(** [iget] on a table with at most one entry per inode: it panics exactly
    when no entry is free and none is for this inode; otherwise it returns an
    entry for the inode, counted once more (or freshly set up, not valid), the
    other entries are unchanged and the table still has at most one entry per
    inode. *)
Theorem iget_spec k a dev inum :
  itable_ok (k_itable k) ->
  let t := k_itable k in
  match krun (iget dev inum) k a with
  | Done ((ip, k'), a') => a' = a /\ (ip < NINODEn)%nat /\ itable_ok (k_itable k') /\
      refers (k_itable k' ip) dev inum /\ (forall j, j <> ip -> k_itable k' j = t j) /\
      ((refers (t ip) dev inum /\ k_itable k' ip = set_i_ref (i_ref (t ip) + 1) (t ip)) \/
       ((forall j, (j < NINODEn)%nat -> ~ refers (t j) dev inum) /\
        i_ref (t ip) = 0 /\ k_itable k' ip = set_i_id dev inum 1 false (t ip)))
  | Panicked msg => msg = "iget: no inodes"%string /\
      forall j, (j < NINODEn)%nat -> i_ref (t j) <> 0 /\ ~ refers (t j) dev inum
  | _ => False
  end.
Proof. apply iget_ok. Qed.

(** [ilock] of an entry that is not valid reads the inode block. *)
Lemma wp_ilock_load jp k a V D hs L (Q : unit -> kst U -> abio -> Prop) :
  tx k a V D hs ∅ ∅ L -> fs_geom (k_sb k) -> cap ∅ L 1 ->
  let y := k_itable k jp in
  i_dev y = ROOTDEV -> 0 <= i_inum y < sb_ninodes (k_sb k) -> 0 < i_ref y ->
  locked (i_lock y) = false -> i_valid y = false ->
  let z := set_i_valid true (dinode_dec (V (IBLOCK (i_inum y) (k_sb k))) (dinode_off (i_inum y))
             (set_i_lock (SleepLock true (k_pid k)) y)) in
  i_type z <> 0 ->
  (forall k' a', kip jp k k' -> k_log k' = k_log k -> k_itable k' jp = z -> tx k' a' V D hs ∅ ∅ L ->
     Q tt k' a') ->
  wp (ilock (Some jp)) Q k a.
Proof.
  intros T Hg Hc y Hdev Hin Href Hlk Hv z Hty HQ.
  destruct (IBLOCK_range _ _ Hg Hin) as (_ & Hib & _ & _).
  unfold ilock, ilk_acquire. fs_steps. fold y. rewrite (proj2 (Z.ltb_ge _ _)) by lia. fs_steps.
  fold y. rewrite Hlk, Hv. fs_steps. rewrite Hdev.
  eapply wp_tx_bread; [eapply tx_kst; [|exact T]; done|done|done|set_solver|right; unfold cap in Hc; lia|].
  intros a1 T1. fs_steps. eapply wp_tx_data; [done|set_solver|done|]. fs_steps.
  eapply wp_tx_brelse; [eapply tx_kst; [|exact T1]; done|set_solver|done|set_solver|]. intros a2 T2.
  rewrite set_add_remove in T2 by set_solver. fs_steps. rewrite !fn_lookup_insert.
  change (i_type _) with (i_type z). rewrite (proj2 (Z.eqb_neq _ 0)) by done. apply wp_ret.
  apply HQ; [|done|simpl; by rewrite !fn_lookup_insert|eapply tx_kst; [|exact T2]; done].
  split; try done. intros j Hj. simpl. by rewrite !fn_lookup_insert_ne.
Qed.

(** An inode written with [iupdate] and then locked through another,
    not yet valid, entry of the table for the same inode has the same type,
    device numbers, link count, size and block addresses; the entry is now
    valid and locked by the caller. *)
Theorem iupdate_ilock ip jp k a V D hs L x :
  fstate ip k a V D hs L x -> inode_ok x -> i_type x <> 0 ->
  0 <= i_inum x < sb_ninodes (k_sb k) -> room k L 1 -> cap ∅ L 2 -> jp <> ip ->
  let y := k_itable k jp in
  i_dev y = ROOTDEV -> i_inum y = i_inum x -> 0 < i_ref y -> locked (i_lock y) = false ->
  i_valid y = false ->
  wp (_ ← iupdate ip; ilock (Some jp)) (fun _ k' a' =>
    k_itable k' jp = set_i_valid true (with_dinode x (set_i_lock (SleepLock true (k_pid k)) y)) /\
    k_itable k' ip = x) k a.
Proof.
  intros FS Hio Hty Hin Hr Hc Hne y Hdev Hinum Href Hlk Hv. apply wp_bind.
  eapply wp_iupdate; [exact FS|done|done|done|by eapply cap_le; [exact Hc|lia]|].
  intros n blk a1 V' FS1 Hod.
  set (k1 := with_lh n blk k) in *. assert (Ey : k_itable k1 jp = y) by done.
  pose proof (Hod (set_i_lock (SleepLock true (k_pid k)) y)) as Hdec.
  eapply (wp_ilock_load jp k1 a1 V' D hs); rewrite ?Ey, ?Hinum; try done.
  - apply FS1.
  - apply FS.
  - by apply cap_S.
  - change (k_sb k1) with (k_sb k). change (k_pid k1) with (k_pid k). by rewrite Hdec.
  - intros k' a' Hk _ Hz _. split; [|by rewrite (kip_it _ _ _ Hk), <- (fs_it _ _ _ _ _ _ _ _ FS)].
    rewrite Hz. change (k_sb k1) with (k_sb k). change (k_pid k1) with (k_pid k). by rewrite Hdec.
Qed.
End table.

(** The first entry of an empty table is used. *)
Lemma iget_spec_witness :
  match krun (iget ROOTDEV 5) (fresh_kst tt) (boot_abio fresh_disk) with
  | Done ((ip, k'), _) => refers (k_itable k' ip) ROOTDEV 5
  | _ => False
  end.
Proof.
  assert (H := iget_spec (fresh_kst tt) (boot_abio fresh_disk) ROOTDEV 5).
  assert (Hok : itable_ok (k_itable (fresh_kst tt))).
  { split; simpl; intros; lia. }
  specialize (H Hok). cbv zeta in H. destruct (krun _ _ _) as [[[ip k'] a']|msg| | |].
  - apply H.
  - destruct H as [_ H]. destruct (H 0%nat) as [H0 _]; [vm_compute; lia|]. exfalso. apply H0. reflexivity.
  - exact H.
  - exact H.
  - exact H.
Defined.

(** Entry 1 of the small file system's table is recycled for inode 1. *)
Definition two_entries : kst unit :=
  set_k_itable (<[1%nat := Inode ROOTDEV 1 1 (SleepLock false 0) false 9 9 9 9 9 []]> (k_itable small_k)) small_k.

Lemma iupdate_ilock_witness :
  wp (_ ← iupdate 0; ilock (Some 1%nat)) (fun _ k' a' => i_type (k_itable k' 1%nat) = T_FILE)
    two_entries (boot_abio small_disk).
Proof.
  eapply wp_mono.
  - apply (iupdate_ilock 0 1 two_entries (boot_abio small_disk) small_disk small_disk [] [] empty_inode);
      try reflexivity; try discriminate.
    + destruct small_fstate as [T Hi Hd Hf Ht]. split; [|exact Hi|exact Hd|exact Hf|exact Ht].
      eapply tx_kst; [|exact T]. reflexivity.
    + apply empty_inode_ok.
    + vm_compute. split; congruence.
    + eapply small_room. lia.
    + apply small_cap. lia.
  - intros [] k' a' [-> _]. reflexivity.
Defined.
