(* ===== verification/FsDir.v ===== *)
(** Directories of kernel/fs.c: [dirlookup] finds the first entry of a name,
    [dirlink] adds one. *)

From S2P Require Import Prelude BufCache BufSpec KState Log LogCrash LogSystem CString Fs.
From S2P Require Import FsAlloc FsTree FsFile FsWrite FsInode FsProps FsTable.
Local Open Scope Z_scope.

(** * A directory as a list of entries *)

Definition dirent_at (V : Z -> bytes) (x : inode) (j : Z) : bytes :=
  content_bytes V x (DIRENT_SIZE * j) DIRENT_SIZE.

(** The entry is in use and its name is [name]. *)
Definition matches (name de : bytes) : Prop := de_inum de <> 0 /\ namecmp name (de_name de) = 0.
#[export] Instance matches_dec name de : Decision (matches name de).
Proof. unfold matches. apply _. Defined.

(** The directory maps [name] to [inum], at entry [j]. *)
Definition dir_has (V : Z -> bytes) (x : inode) (name : bytes) (j inum : Z) : Prop :=
  0 <= j /\ DIRENT_SIZE * j < i_size x /\ matches name (dirent_at V x j) /\
  de_inum (dirent_at V x j) = inum /\
  forall i, 0 <= i < j -> ~ matches name (dirent_at V x i).

Definition dir_lacks (V : Z -> bytes) (x : inode) (name : bytes) : Prop :=
  forall j, 0 <= j -> DIRENT_SIZE * j < i_size x -> ~ matches name (dirent_at V x j).

(** A locked directory. *)
Record dir_ok (V : Z -> bytes) (x : inode) : Prop := {
  do_type : i_type x = T_DIR;
  do_dense : dense V x;
  do_size : 0 <= i_size x <= MAXFILE * BSIZE;
  do_whole : i_size x mod DIRENT_SIZE = 0;
}.

Section dir.
Context {U : Type} `{!UserMem U}.
Implicit Types k : kst U.

(** Reading one entry. *)
Lemma wp_read_dirent dp k a V D hs L x j (Q : Z * bytes -> kst U -> abio -> Prop) :
  fstate dp k a V D hs L x -> dir_ok V x -> cap ∅ L 1 -> 0 <= j -> DIRENT_SIZE * j < i_size x ->
  (forall a', fstate dp k a' V D hs L x -> Q (DIRENT_SIZE, dirent_at V x j) k a') ->
  wp (readi dp KernelDst (DIRENT_SIZE * j) DIRENT_SIZE) Q k a.
Proof.
  intros FS [Hty Hde Hsz Hwh] Hc Hj Hlt HQ. change (MAXFILE * BSIZE) with 67382272 in Hsz.
  change DIRENT_SIZE with 16 in *.
  assert (Hfit : 16 * j + 16 <= i_size x).
  { pose proof (Z.div_mod (i_size x) 16 ltac:(lia)). lia. }
  eapply wp_mono.
  { apply (wp_readi dp k a V D hs L x (16 * j) 16); try done; try lia.
    change (MAXFILE * BSIZE) with 67382272. lia. }
  intros r k' a' (-> & -> & FS'). rewrite decide_False by lia. rewrite Z.min_l by lia. by apply HQ.
Qed.

Lemma dirents_count x : 0 <= i_size x -> i_size x mod DIRENT_SIZE = 0 ->
  i_size x = DIRENT_SIZE * Z.of_nat (dirents (i_size x)).
Proof.
  intros Hs Hm. unfold dirents. change DIRENT_SIZE with 16 in *.
  pose proof (Z.div_mod (i_size x) 16 ltac:(lia)).
  assert ((i_size x + 16 - 1) / 16 = i_size x / 16).
  { symmetry. apply (Z.div_unique _ _ _ 15); lia. }
  assert (0 <= i_size x / 16) by (apply Z.div_pos; lia). lia.
Qed.

Lemma wp_dirlookup dp k a V D hs L x name (Q : option (nat * Z) -> kst U -> abio -> Prop) :
  fstate dp k a V D hs L x -> dir_ok V x -> cap ∅ L 1 ->
  (dir_lacks V x name -> forall a', fstate dp k a' V D hs L x -> Q None k a') ->
  (forall j inum, dir_has V x name j inum -> forall a', fstate dp k a' V D hs L x ->
     wp (iget ROOTDEV inum) (fun ip => Q (Some (ip, DIRENT_SIZE * j))) k a') ->
  wp (dirlookup dp name) Q k a.
Proof.
  intros FS Hok Hc Hnone Hsome. pose proof Hok as [Hty Hde Hsz Hwh].
  pose proof (dirents_count x (proj1 Hsz) Hwh) as Hn.
  unfold dirlookup. apply wp_bind, wp_kinode. rewrite (fs_it _ _ _ _ _ _ _ _ FS), Hty.
  change (negb (T_DIR =? T_DIR)) with false. cbv match. set (n := dirents (i_size x)) in *.
  eapply (wp_kfor (fun off k' a' => exists j, off = DIRENT_SIZE * j /\ 0 <= j /\ k' = k /\
     fstate dp k a' V D hs L x /\ forall i, 0 <= i < j -> ~ matches name (dirent_at V x i))).
  - intros off k' a' Hoff (j & -> & Hj & -> & FS' & Hbefore).
    change DIRENT_SIZE with 16 in *. assert (Hlt : 16 * j < i_size x) by lia.
    unfold dirlookup_step. apply wp_bind. change 16 with DIRENT_SIZE.
    apply (wp_read_dirent dp k a' V D hs L x j); [done..|]. intros a1 FS1. cbn [fst snd].
    rewrite Z.eqb_refl. cbv [negb].
    destruct (Z.eqb_spec (de_inum (dirent_at V x j)) 0) as [E|E]; [|destruct (Z.eqb_spec
      (namecmp name (de_name (dirent_at V x j))) 0) as [En|En]].
    1, 3: apply wp_ret; exists (j + 1); split; [lia|]; split; [lia|]; split; [done|]; split; [done|];
      intros i Hi; destruct (decide (i = j)) as [->|]; [intros []; done|apply Hbefore; lia].
    apply wp_bind, wp_kinode. rewrite (fs_it _ _ _ _ _ _ _ _ FS1), (fs_dev _ _ _ _ _ _ _ _ FS1).
    apply wp_bind. eapply wp_mono; [apply (Hsome j (de_inum (dirent_at V x j))); [|done]|].
    + split; [done|]. split; [done|]. split; [by split|]. done.
    + intros ip k2 a2 HQ. by apply wp_ret.
  - intros k' a' (j & Ej & Hj & -> & FS' & Hbefore). apply Hnone; [|done].
    intros i Hi Hlt. apply Hbefore. change DIRENT_SIZE with 16 in *. lia.
  - exists 0. split; [done|]. split; [lia|]. split; [done|]. split; [done|]. intros i Hi. lia.
Qed.

Lemma wp_find_slot dp k a V D hs L x (Q : option Z -> kst U -> abio -> Prop) :
  fstate dp k a V D hs L x -> dir_ok V x -> cap ∅ L 1 ->
  (forall r j a', fstate dp k a' V D hs L x -> 0 <= j -> DIRENT_SIZE * j <= i_size x ->
     default (Z.of_nat (dirents (i_size x)) * DIRENT_SIZE) r = DIRENT_SIZE * j ->
     (forall i, 0 <= i < j -> de_inum (dirent_at V x i) <> 0) -> Q r k a') ->
  wp (kfor (dirents (i_size x)) 0 DIRENT_SIZE (dirlink_step dp)) Q k a.
Proof.
  intros FS Hok Hc HQ. pose proof Hok as [Hty Hde Hsz Hwh].
  pose proof (dirents_count x (proj1 Hsz) Hwh) as Hn. set (n := dirents (i_size x)) in *.
  change DIRENT_SIZE with 16 in *.
  eapply (wp_kfor (fun off k' a' => exists j, off = 16 * j /\ 0 <= j /\ k' = k /\
     fstate dp k a' V D hs L x /\ forall i, 0 <= i < j -> de_inum (dirent_at V x i) <> 0)).
  - intros off k' a' Hoff (j & -> & Hj & -> & FS' & Hbefore).
    assert (Hlt : 16 * j < i_size x) by lia. unfold dirlink_step. apply wp_bind.
    change 16 with DIRENT_SIZE. apply (wp_read_dirent dp k a' V D hs L x j); [done..|].
    intros a1 FS1. cbn [fst snd]. rewrite Z.eqb_refl. cbv [negb].
    destruct (Z.eqb_spec (de_inum (dirent_at V x j)) 0) as [E|E]; apply wp_ret.
    + by apply (HQ (Some (DIRENT_SIZE * j)) j); try done; change DIRENT_SIZE with 16; lia.
    + exists (j + 1). change DIRENT_SIZE with 16. split; [lia|]. split; [lia|]. split; [done|]. split; [done|].
      intros i Hi. destruct (decide (i = j)) as [->|]; [done|apply Hbefore; lia].
  - intros k' a' (j & Ej & Hj & -> & FS' & Hbefore). apply (HQ None j); try done; simpl; lia.
  - exists 0. split; [done|]. split; [lia|]. split; [done|]. split; [done|]. intros i Hi. lia.
Qed.

(** ** The encoded entry *)

Lemma length_dirent_enc inum name : Z.of_nat (length (dirent_enc inum name)) = DIRENT_SIZE.
Proof. unfold dirent_enc. by rewrite length_app, length_le_bytes, length_fmap, length_seqZ. Qed.

Lemma de_inum_enc inum name : 0 <= inum < 2 ^ 16 -> de_inum (dirent_enc inum name) = inum.
Proof.
  intros. unfold de_inum, dirent_enc. rewrite sub_bytes_app_l by (by rewrite length_le_bytes).
  rewrite le_val_bytes. by apply Z.mod_small.
Qed.

Lemma namecmp_enc inum name : namecmp name (de_name (dirent_enc inum name)) = 0.
Proof.
  unfold namecmp, strncmp. apply strncmp_loop_spec. intros j Hj Hnz.
  assert (Hj' : 0 <= j < 14) by (unfold DIRSIZ in Hj; lia).
  assert (E : chars (de_name (dirent_enc inum name)) j = str_byte (chars name) 0 j).
  { unfold chars at 1, de_name, dirent_enc.
    rewrite sub_bytes_app_r by (by rewrite length_le_bytes). rewrite length_le_bytes.
    change (2 - Z.of_nat 2) with 0. unfold sub_bytes. rewrite lookup_take_lt by (unfold DIRSIZ; lia).
    rewrite lookup_drop, list_lookup_fmap, lookup_seqZ_lt by (unfold DIRSIZ; lia).
    by replace (0 + Z.of_nat (Z.to_nat 0 + Z.to_nat j)) with j by lia. }
  rewrite E. unfold str_byte. rewrite decide_True; [f_equal; lia|].
  apply Forall_seqZ. intros h Hh. rewrite Z.add_0_l. apply Hnz. lia.
Qed.

Lemma dirent_spans j : 0 <= j -> spans (DIRENT_SIZE * j) DIRENT_SIZE 1.
Proof.
  intros Hj. unfold spans. change DIRENT_SIZE with 16. unfold BSIZE.
  assert (16 * j / 1024 = j / 64).
  { change 1024 with (16 * 64). by rewrite Z.div_mul_cancel_l. }
  pose proof (Z.div_mod j 64 ltac:(lia)). pose proof (Z.mod_pos_bound j 64 ltac:(lia)). lia.
Qed.

Lemma content_bytes_eq V x off n d :
  0 <= n -> Z.of_nat (length d) = n -> (forall i, 0 <= i < n -> content V x (off + i) = byte_at d i) ->
  content_bytes V x off n = d.
Proof.
  intros Hn Hl H. apply list_eq. intros i. unfold content_bytes. rewrite list_lookup_fmap.
  destruct (decide (i < length d)%nat).
  - rewrite lookup_seqZ_lt by lia. simpl. rewrite H by lia. unfold byte_at. rewrite Nat2Z.id.
    symmetry. by apply list_lookup_lookup_total_lt.
  - rewrite lookup_seqZ_ge by lia. symmetry. apply lookup_ge_None_2. lia.
Qed.

(** The entry [j] of a directory is overwritten. *)
Lemma dir_write V x V' x' l name inum j :
  dir_ok V x -> dir_lacks V x name -> 0 < inum < 2 ^ 16 ->
  i_size x + DIRENT_SIZE <= MAXFILE * BSIZE -> 0 <= j -> DIRENT_SIZE * j <= i_size x ->
  x' = set_i_size (Z.max (i_size x) (DIRENT_SIZE * j + DIRENT_SIZE)) (set_i_addrs l x) ->
  (dense V x -> dense V' x') ->
  (forall i, 0 <= i < MAXFILE * BSIZE -> content V' x' i =
     if decide (DIRENT_SIZE * j <= i < DIRENT_SIZE * j + DIRENT_SIZE)
     then byte_at (dirent_enc inum name) (i - DIRENT_SIZE * j) else content V x i) ->
  dir_ok V' x' /\ dir_has V' x' name j inum /\
  forall i, 0 <= i -> DIRENT_SIZE * i < i_size x -> i <> j -> dirent_at V' x' i = dirent_at V x i.
Proof.
  intros Hok Hlack Hinum Hmax Hj Hjs Hx' Hde' Hcont. pose proof Hok as [Hty Hde Hsz Hwh].
  pose proof (length_dirent_enc inum name) as Hlen.
  change (MAXFILE * BSIZE) with 67382272 in *. change DIRENT_SIZE with 16 in *.
  assert (Hentry : forall i, 0 <= i -> 16 * i < Z.max (i_size x) (16 * j + 16) -> dirent_at V' x' i =
     if decide (i = j) then dirent_enc inum name else dirent_at V x i).
  { intros i Hi Hlt. unfold dirent_at. change DIRENT_SIZE with 16. apply content_bytes_eq; [lia| |].
    - case_decide; [done|]. unfold content_bytes. by rewrite length_fmap, length_seqZ.
    - intros e He. rewrite Hcont by lia. case_decide as E1; case_decide as E2; subst; try lia.
      + f_equal. lia.
      + unfold byte_at, content_bytes. symmetry. apply list_lookup_total_correct.
        rewrite list_lookup_fmap, lookup_seqZ_lt by lia. simpl. do 2 f_equal. lia. }
  assert (Hsize : i_size x' = Z.max (i_size x) (16 * j + 16)) by (by rewrite Hx').
  split; [|split].
  - split; [by rewrite Hx'|by apply Hde'|rewrite Hsize; change (MAXFILE * BSIZE) with 67382272; lia|].
    rewrite Hsize. change DIRENT_SIZE with 16. destruct (decide (i_size x <= 16 * j + 16)).
    + rewrite Z.max_r by lia. replace (16 * j + 16) with ((j + 1) * 16) by lia. by apply Z.mod_mul.
    + by rewrite Z.max_l by lia.
  - assert (Hm : forall i, 0 <= i < j -> ~ matches name (dirent_at V' x' i)).
    { intros i Hi. rewrite Hentry, decide_False by lia. apply Hlack; [lia|].
      change DIRENT_SIZE with 16. lia. }
    split; [done|]. split; [rewrite Hsize; change DIRENT_SIZE with 16; lia|].
    rewrite Hentry, decide_True by (done || lia). unfold matches.
    rewrite de_inum_enc, namecmp_enc by lia. split; [split; [lia|done]|done].
  - intros i Hi Hlt Hne. by rewrite Hentry, decide_False by lia.
Qed.


(** [dirlookup] in a well-formed directory, with an entry of the inode table
    free: it gives null exactly when no used entry has the name; otherwise the
    inode of the first such entry, referenced, and the entry's offset. *)
Theorem dirlookup_spec dp k a V D hs L x name :
  fstate dp k a V D hs L x -> dir_ok V x -> cap ∅ L 1 -> itable_ok (k_itable k) ->
  (exists e, (e < NINODEn)%nat /\ i_ref (k_itable k e) = 0) ->
  wp (dirlookup dp name) (fun r k' a' =>
    match r with
    | None => dir_lacks V x name /\ k' = k
    | Some (ip, off) => exists j inum, dir_has V x name j inum /\ off = DIRENT_SIZE * j /\
        (ip < NINODEn)%nat /\ refers (k_itable k' ip) ROOTDEV inum /\ itable_ok (k_itable k') /\
        forall i, i <> ip -> k_itable k' i = k_itable k i
    end) k a.
Proof.
  intros FS Hok Hc Hit (e & He & Hz).
  apply (wp_dirlookup dp k a V D hs L x name); [done|done|done|by intros Hl a' _|].
  intros j inum Hhas a' FS'. pose proof (iget_ok k a' ROOTDEV inum Hit) as H. unfold wp.
  destruct (krun (iget ROOTDEV inum) k a') as [[[ip k'] a'']|msg| | |]; try done.
  - destruct H as (_ & Hip & Hit' & Href & Ho & _). by exists j, inum.
  - destruct H as [_ H]. by destruct (H e He).
Qed.
End dir.

(** ** Concrete instances: an empty directory *)

Definition dir_inode : inode :=
  Inode ROOTDEV 1 1 (SleepLock true 1) true T_DIR 0 0 1 0 (replicate 13 0).
Definition dir_k : kst unit :=
  set_k_itable (<[0%nat := dir_inode]> (fun _ => fresh_inode)) small_k.

Lemma dir_fstate : fstate 0 dir_k (boot_abio small_disk) small_disk small_disk [] [] dir_inode.
Proof.
  destruct small_fstate as [T _ _ Hf Ht]. split; [|done|done|exact Hf|].
  - eapply tx_kst; [|exact T]. reflexivity.
  - destruct Ht as [H1 H2 H3]. split; [done|exact H2|exact H3].
Qed.

Lemma dir_empty_ok : dir_ok small_disk dir_inode.
Proof. split; [done| |done|done]. intros bn H1 H2. simpl in H2. unfold BSIZE in H2. lia. Qed.


Lemma dirlookup_spec_witness :
  wp (dirlookup 0 [97]) (fun r k' a' => r = None) dir_k (boot_abio small_disk).
Proof.
  eapply wp_mono.
  - apply (dirlookup_spec 0 dir_k (boot_abio small_disk) small_disk small_disk [] [] dir_inode [97]
      dir_fstate dir_empty_ok).
    + apply small_cap. lia.
    + split.
      * intros i _. simpl. destruct (decide (i = 0%nat)) as [->|];
          [rewrite fn_lookup_insert|rewrite fn_lookup_insert_ne by done]; simpl; lia.
      * intros i j _ _. simpl. destruct (decide (i = 0%nat)) as [->|], (decide (j = 0%nat)) as [->|];
          rewrite ?fn_lookup_insert, ?fn_lookup_insert_ne by done; simpl; try done; intros; lia.
    + exists 1%nat. split; [vm_compute; lia|reflexivity].
  - intros [[ip off]|] k' a' H; [|reflexivity]. exfalso.
    destruct H as (j & inum & (Hj & Hlt & _) & _).
    change (i_size dir_inode) with 0 in Hlt. change DIRENT_SIZE with 16 in Hlt. lia.
Defined.
