(* ===== verification/Kalloc.v ===== *)
(** The physical page allocator, kernel/kalloc.c: a linked list threaded through
    the free pages themselves, against a list of page addresses. *)

From S2P Require Import Prelude CString.
Local Open Scope Z_scope.

Definition PGSIZE : Z := 4096.
Definition KERNBASE : Z := 0x80000000.
Definition PHYSTOP : Z := KERNBASE + 128 * 1024 * 1024.
Definition PGROUNDUP (sz : Z) : Z := Z.land (sz + PGSIZE - 1) (Z.lnot (PGSIZE - 1)).
Definition PGROUNDDOWN (a : Z) : Z := Z.land a (Z.lnot (PGSIZE - 1)).

(** * Code *)

(** A 64-bit pointer in byte-addressed memory. *)
Definition load64 (m : mem) (a : Z) : Z := le_val ((fun i => m (a + i)) <$> seqZ 0 8).
Definition store64 (m : mem) (a v : Z) : mem := fun x =>
  if decide (a <= x < a + 8) then byte_at (le_bytes 8 v) (x - a) else m x.

(** [kmem.freelist] and the memory it points into. *)
Record kmem := KMem { km_mem : mem; km_freelist : Z }.

Section code.
(** [end], the first address after the kernel: a linker symbol. *)
Variable kend : Z.

Definition kfree (pa : Z) (s : kmem) : outcome kmem :=
  if negb (pa mod PGSIZE =? 0) || (pa <? kend) || (pa >=? PHYSTOP) then Panicked "kfree" else
  let m := memset (km_mem s) pa 1 PGSIZE in
  Done (KMem (store64 m pa (km_freelist s)) pa).

Definition kalloc (s : kmem) : Z * kmem :=
  let r := km_freelist s in
  let freelist := if negb (r =? 0) then load64 (km_mem s) r else r in
  let m := if negb (r =? 0) then memset (km_mem s) r 5 PGSIZE else km_mem s in
  (r, KMem m freelist).

(** [for(; p + PGSIZE <= pa_end; p += PGSIZE) kfree(p);], [n] iterations left. *)
Fixpoint freerange_loop (n : nat) (p : Z) (s : kmem) : outcome kmem :=
  match n with
  | O => Done s
  | S n => s ← kfree p s; freerange_loop n (p + PGSIZE) s
  end.
Definition freerange (pa_start pa_end : Z) (s : kmem) : outcome kmem :=
  let p := PGROUNDUP pa_start in
  freerange_loop (Z.to_nat ((pa_end - p) / PGSIZE)) p s.

Definition kinit (s : kmem) : outcome kmem := freerange kend PHYSTOP s.

(** * Specification *)

Definition page (p : Z) : Prop := p mod PGSIZE = 0 /\ 0 < p /\ kend <= p < PHYSTOP.

(** From pointer [r] the chain of [next] pointers runs through the pages [l]. *)
Fixpoint chain (m : mem) (r : Z) (l : list Z) : Prop :=
  match l with
  | [] => r = 0
  | p :: l => r = p /\ chain m (load64 m p) l
  end.

Definition freelist_ok (s : kmem) (l : list Z) : Prop :=
  chain (km_mem s) (km_freelist s) l /\ NoDup l /\ Forall page l.

(** Bytes of the page at [p]. *)
Definition in_page (p x : Z) : Prop := p <= x < p + PGSIZE.

(** ** Lemmas *)

Lemma load_store m a v : 0 <= v < 2 ^ 64 -> load64 (store64 m a v) a = v.
Proof.
  intros Hv. unfold load64.
  assert (E : (fun i => store64 m a v (a + i)) <$> seqZ 0 8 = le_bytes 8 v).
  { apply list_eq. intros i. rewrite list_lookup_fmap. destruct (decide (i < 8)%nat).
    - rewrite lookup_seqZ_lt by lia. cbn [fmap option_fmap option_map]. unfold store64.
      rewrite decide_True by lia.
      unfold byte_at. replace (Z.to_nat (a + (0 + Z.of_nat i) - a)) with i by lia.
      symmetry. apply list_lookup_lookup_total_lt. rewrite length_le_bytes. lia.
    - rewrite lookup_seqZ_ge by lia. symmetry. apply lookup_ge_None_2. rewrite length_le_bytes. lia. }
  rewrite E, le_val_bytes. by apply Z.mod_small.
Qed.

Lemma load_ext m m' a : (forall x, a <= x < a + 8 -> m' x = m x) -> load64 m' a = load64 m a.
Proof.
  intros H. unfold load64. f_equal. apply list_fmap_ext. intros i x Hx.
  apply lookup_seqZ in Hx. apply H. lia.
Qed.

Lemma pages_apart p q x : page p -> page q -> p <> q -> in_page p x -> ~ in_page q x.
Proof.
  unfold page, in_page, PGSIZE. intros (H1 & _) (H2 & _) Hne Hx Hy.
  pose proof (Z.div_mod p 4096 ltac:(lia)). pose proof (Z.div_mod q 4096 ltac:(lia)). lia.
Qed.

Lemma chain_ext m m' r l :
  (forall p x, p ∈ l -> in_page p x -> m' x = m x) -> chain m r l -> chain m' r l.
Proof.
  revert r. induction l as [|p l IH]; intros r H; simpl; [done|].
  intros [-> Hc]. split; [done|]. rewrite (load_ext m); [apply IH; [|done]; intros; eapply H; set_solver|].
  intros x Hx. apply (H p); [set_solver|]. unfold in_page, PGSIZE. lia.
Qed.

Lemma chain_range m r l : Forall page l -> chain m r l -> 0 <= r < 2 ^ 64.
Proof.
  destruct l as [|p l]; simpl; [lia|]. intros (Hp & _)%Forall_cons [-> _].
  unfold page, PHYSTOP, KERNBASE in Hp. lia.
Qed.

Lemma memset_spec m dst c n x :
  0 <= n -> memset m dst c n x = if decide (dst <= x < dst + n) then u8 c else m x.
Proof.
  intros. unfold memset. rewrite memset_loop_spec. rewrite Z2Nat.id, Z.add_0_r by lia. done.
Qed.

Lemma kfree_ok s l pa :
  freelist_ok s l -> page pa -> pa ∉ l ->
  exists s', kfree pa s = Done s' /\ freelist_ok s' (pa :: l) /\
    forall x, ~ in_page pa x -> km_mem s' x = km_mem s x.
Proof.
  intros (Hc & Hnd & Hf) Hp Hn. unfold kfree. pose proof Hp as (Hp1 & Hp2 & Hp3).
  rewrite Hp1, Z.geb_leb, (proj2 (Z.ltb_ge _ _)), (proj2 (Z.leb_gt _ _)) by lia. simpl.
  eexists. split; [done|].
  assert (Hfr : forall x, ~ in_page pa x ->
    store64 (memset (km_mem s) pa 1 PGSIZE) pa (km_freelist s) x = km_mem s x).
  { intros x Hx. unfold in_page in Hx. unfold store64. rewrite decide_False by (unfold PGSIZE in Hx; lia).
    rewrite memset_spec by done. by rewrite decide_False. }
  split; [|done]. split; [|split; [by constructor|by constructor]]. simpl. split; [done|].
  rewrite load_store by (by eapply chain_range). eapply chain_ext; [|done].
  intros q x Hq Hx. apply Hfr. rewrite Forall_forall in Hf.
  eapply (pages_apart q); [by apply Hf|done|set_solver|done].
Qed.

Lemma kalloc_nil s : freelist_ok s [] -> kalloc s = (0, s).
Proof. intros (Hc & _). simpl in Hc. unfold kalloc. rewrite Hc. simpl. f_equal. destruct s. simpl in *. by subst. Qed.

Lemma kalloc_ok s p l :
  freelist_ok s (p :: l) ->
  exists s', kalloc s = (p, s') /\ page p /\ p ∉ l /\ freelist_ok s' l /\
    forall x, km_mem s' x = if decide (in_page p x) then 5 else km_mem s x.
Proof.
  intros (Hc & Hnd & Hf). unfold kalloc. simpl in Hc.
  destruct Hc as [Hr Hc]. apply Forall_cons in Hf as [Hp Hf]. apply NoDup_cons in Hnd as [Hn Hnd].
  rewrite Hr, (proj2 (Z.eqb_neq p 0)) by (unfold page in Hp; lia). simpl.
  eexists. split; [done|]. split; [done|]. split; [done|]. split.
  - split; [|done]. simpl. eapply chain_ext; [|done]. intros q x Hq Hx.
    rewrite memset_spec by done. rewrite decide_False; [done|].
    rewrite Forall_forall in Hf. eapply (pages_apart q); [by apply Hf|done|by intros ->|done].
  - intros x. simpl. by rewrite memset_spec by done.
Qed.

(** The pages of a range, as [freerange] pushes them: the last one first. *)
Fixpoint page_run (p : Z) (n : nat) : list Z :=
  match n with
  | O => []
  | S n => page_run (p + PGSIZE) n ++ [p]
  end.

Lemma page_run_elem p n q : q ∈ page_run p n <-> exists i, 0 <= i < Z.of_nat n /\ q = p + PGSIZE * i.
Proof.
  revert p. induction n as [|n IH]; intros p; simpl.
  { split; [by intros ?%not_elem_of_nil|]. intros (i & Hi & _). lia. }
  rewrite elem_of_app, IH, list_elem_of_singleton. split.
  - intros [(i & Hi & ->)| ->]; [exists (i + 1)|exists 0]; lia.
  - intros (i & Hi & ->). destruct (decide (i = 0)) as [->|]; [right; lia|left]. exists (i - 1). lia.
Qed.

Lemma freerange_loop_ok n p s l :
  freelist_ok s l -> (forall q, q ∈ page_run p n -> page q /\ q ∉ l) ->
  exists s', freerange_loop n p s = Done s' /\ freelist_ok s' (page_run p n ++ l).
Proof.
  revert p s l. induction n as [|n IH]; intros p s l Hok Hq; simpl; [by eexists|].
  destruct (Hq p) as [Hp Hn]; [rewrite page_run_elem; exists 0; lia|].
  destruct (kfree_ok s l p Hok Hp Hn) as (s1 & -> & Hok1 & _). simpl.
  destruct (IH (p + PGSIZE) s1 (p :: l) Hok1) as (s' & E & Hok').
  { intros q Hin. destruct (Hq q) as [Hpq Hnq].
    - simpl. rewrite elem_of_app. by left.
    - split; [done|]. intros [->|]%elem_of_cons; [|done]. apply page_run_elem in Hin as (i & Hi & Ei).
      unfold PGSIZE in *. lia. }
  exists s'. split; [done|]. by rewrite <- app_assoc.
Qed.

Lemma land_pages a : Z.land a (Z.lnot (PGSIZE - 1)) = a / PGSIZE * PGSIZE.
Proof.
  change (PGSIZE - 1) with (Z.ones 12). rewrite <- Z.ldiff_land, Z.ldiff_ones_r by lia.
  rewrite Z.shiftl_mul_pow2, Z.shiftr_div_pow2 by lia. done.
Qed.

Lemma PGROUNDUP_spec a : PGROUNDUP a mod PGSIZE = 0 /\ a <= PGROUNDUP a < a + PGSIZE.
Proof.
  unfold PGROUNDUP. rewrite land_pages. split; [by apply Z.mod_mul|].
  pose proof (Z.div_mod (a + PGSIZE - 1) PGSIZE ltac:(done)).
  pose proof (Z.mod_pos_bound (a + PGSIZE - 1) PGSIZE ltac:(done)). lia.
Qed.

(** * Properties *)

(** [kinit] puts every whole page between the end of the kernel and the top
    of memory on the free list, each once, and returns. *)
Theorem kinit_spec (m : mem) :
  0 < kend <= PHYSTOP ->
  exists s l, kinit (KMem m 0) = Done s /\ freelist_ok s l /\
    (forall p, p ∈ l <-> page p).
Proof.
  intros Hk. destruct (PGROUNDUP_spec kend) as [Hm Hr]. unfold kinit, freerange.
  set (p0 := PGROUNDUP kend) in *. set (n := Z.to_nat ((PHYSTOP - p0) / PGSIZE)).
  assert (Hrun : forall q, q ∈ page_run p0 n <-> page q).
  { intros q. rewrite page_run_elem. unfold page. change PHYSTOP with (557056 * PGSIZE) in *.
    unfold n. pose proof (Z.div_mod p0 PGSIZE ltac:(done)) as Hd. rewrite Hm in Hd.
    assert (En : (557056 * PGSIZE - p0) / PGSIZE = 557056 - p0 / PGSIZE).
    { symmetry. apply (Z.div_unique _ _ _ 0); unfold PGSIZE in *; lia. }
    rewrite En. split.
    - intros (i & Hi & ->). split; [|unfold PGSIZE in *; lia].
      rewrite (Z.mul_comm PGSIZE i), Z.mod_add by done. done.
    - intros (Hq1 & Hq2 & Hq3). pose proof (Z.div_mod q PGSIZE ltac:(done)) as Hdq. rewrite Hq1 in Hdq.
      exists (q / PGSIZE - p0 / PGSIZE). unfold PGSIZE in *. lia. }
  destruct (freerange_loop_ok n p0 (KMem m 0) []) as (s & E & Hok).
  { split; [done|]. split; constructor. }
  { intros q Hq. split; [by apply Hrun|apply not_elem_of_nil]. }
  exists s, (page_run p0 n). rewrite app_nil_r in Hok. done.
Qed.

(** C28: [kalloc] and [kfree] implement a stack of free pages.  [kalloc] returns 0
    exactly when no page is free; otherwise the page freed last, filled with
    junk, no longer on the list.  [kfree] of an allocated page puts it back and
    panics on an address that is not a page of the range.  Neither touches
    another page. *)
Theorem kalloc_kfree_spec (s : kmem) (l : list Z) :
  freelist_ok s l ->
  (match l with
   | [] => kalloc s = (0, s)
   | p :: l' => exists s', kalloc s = (p, s') /\ page p /\ p ∉ l' /\ freelist_ok s' l' /\
       forall x, km_mem s' x = if decide (in_page p x) then 5 else km_mem s x
   end) /\
  (forall pa, 0 < pa -> (page pa /\ (pa ∉ l -> exists s', kfree pa s = Done s' /\ freelist_ok s' (pa :: l) /\
       forall x, ~ in_page pa x -> km_mem s' x = km_mem s x)) \/
     (~ page pa /\ kfree pa s = Panicked "kfree")).
Proof.
  intros Hok. split.
  - destruct l as [|p l]; [by apply kalloc_nil|by apply kalloc_ok].
  - intros pa Hpa. destruct (decide (pa mod PGSIZE = 0 /\ kend <= pa < PHYSTOP)) as [Hd|Hd].
    + left. assert (Hp : page pa) by (unfold page; tauto). split; [done|]. intros Hn. by apply kfree_ok.
    + right. split; [unfold page; tauto|]. unfold kfree.
      destruct (Z.eqb_spec (pa mod PGSIZE) 0); [|done].
      destruct (Z.ltb_spec pa kend); [done|]. rewrite Z.geb_leb.
      destruct (Z.leb_spec PHYSTOP pa); [done|]. lia.
Qed.
End code.

(** A kernel that ends three pages below the top of memory. *)
Lemma kinit_spec_witness :
  exists s l, kinit (PHYSTOP - 3 * PGSIZE) (KMem (fun _ => 0) 0) = Done s /\
    freelist_ok (PHYSTOP - 3 * PGSIZE) s l /\ (PHYSTOP - PGSIZE) ∈ l.
Proof.
  destruct (kinit_spec (PHYSTOP - 3 * PGSIZE) (fun _ => 0)) as (s & l & E & Hok & Hl).
  - vm_compute. split; congruence.
  - exists s, l. split; [exact E|]. split; [exact Hok|]. apply Hl. unfold page. vm_compute.
    repeat split; congruence.
Defined.

Lemma kalloc_kfree_spec_witness :
  kalloc (KMem (fun _ => 0) 0) = (0, KMem (fun _ => 0) 0) /\
  kfree PGSIZE 3 (KMem (fun _ => 0) 0) = Panicked "kfree".
Proof.
  destruct (kalloc_kfree_spec PGSIZE (KMem (fun _ => 0) 0) []) as [H1 H2].
  - split; [reflexivity|]. split; constructor.
  - split; [exact H1|]. destruct (H2 3) as [[(H & _) _]|[_ H]]; [lia| |exact H].
    vm_compute in H. discriminate.
Defined.
