(* ===== verification/PipeRing.v ===== *)
(** Pipes, kernel/pipe.c: a ring buffer with 32-bit read and write counters
    implements a bounded queue of bytes.

    [pipewrite] and [piperead] are cut where they sleep: a run ends by
    returning or by going to sleep at byte [i], with the lock released; the
    process resumes the same loop at the same [i] after a [wakeup]. *)

From S2P Require Import Prelude BufCache BufSpec KState.
Local Open Scope Z_scope.

Definition PIPESIZE : Z := 512.

(** * Code *)

Definition set_p_data d p := Pipe d (p_nread p) (p_nwrite p) (p_readopen p) (p_writeopen p).
Definition set_p_nread n p := Pipe (p_data p) n (p_nwrite p) (p_readopen p) (p_writeopen p).
Definition set_p_nwrite n p := Pipe (p_data p) (p_nread p) n (p_readopen p) (p_writeopen p).

(** How a run of the loop ends. *)
Inductive pipe_end := PRet (r : Z) | PSleep (i : Z).

(** What [pipealloc] puts in the page. *)
Definition pipe_init (junk : Z -> Z) : pipe := Pipe junk 0 0 true true.

(** [pipeclose]: the pipe, and whether its page is freed. *)
Definition pipeclose_pipe (writable : bool) (p : pipe) : pipe * bool :=
  let p := if writable then Pipe (p_data p) (p_nread p) (p_nwrite p) (p_readopen p) false
           else Pipe (p_data p) (p_nread p) (p_nwrite p) false (p_writeopen p) in
  (p, negb (p_readopen p) && negb (p_writeopen p)).

(** The loop of [pipewrite] from byte [i], at most [fuel] bytes left to write;
    [src i] is the byte [copyin] reads at [addr + i]. *)
Fixpoint pipewrite_loop (fuel : nat) (killed : bool) (src : Z -> option Z) (n i : Z) (p : pipe)
    : pipe * pipe_end :=
  match fuel with
  | O => (p, PRet i)
  | S fuel =>
      if i <? n then
        if negb (p_readopen p) || killed then (p, PRet (-1))
        else if p_nwrite p =? u32 (p_nread p + PIPESIZE) then (p, PSleep i)
        else match src i with
             | None => (p, PRet i)
             | Some ch =>
                 pipewrite_loop fuel killed src n (i + 1)
                   (set_p_nwrite (u32 (p_nwrite p + 1))
                     (set_p_data (<[p_nwrite p mod PIPESIZE := ch]> (p_data p)) p))
             end
      else (p, PRet i)
  end.
Definition pipewrite_run (killed : bool) (src : Z -> option Z) (n i : Z) (p : pipe) : pipe * pipe_end :=
  pipewrite_loop (Z.to_nat (n - i)) killed src n i p.

(** The copy loop of [piperead]; [dst i] tells whether [copyout] to [addr + i]
    succeeds.  The byte taken when it fails is lost.  The bytes copied are
    given back, last first. *)
Fixpoint piperead_loop (fuel : nat) (dst : Z -> bool) (i : Z) (p : pipe) (acc : list Z)
    : pipe * Z * list Z :=
  match fuel with
  | O => (p, i, acc)
  | S fuel =>
      if p_nread p =? p_nwrite p then (p, i, acc)
      else
        let ch := p_data p (p_nread p mod PIPESIZE) in
        let p := set_p_nread (u32 (p_nread p + 1)) p in
        if dst i then piperead_loop fuel dst (i + 1) p (ch :: acc) else (p, i, acc)
  end.
Definition piperead_run (killed : bool) (dst : Z -> bool) (n : Z) (p : pipe) : pipe * pipe_end * list Z :=
  if (p_nread p =? p_nwrite p) && p_writeopen p then
    (p, if killed then PRet (-1) else PSleep 0, [])
  else
    let '(p, i, acc) := piperead_loop (Z.to_nat n) dst 0 p [] in (p, PRet i, rev acc).

(** * The queue a pipe holds *)

Definition queue_len (p : pipe) : Z := u32 (p_nwrite p - p_nread p).
Definition pipe_ok (p : pipe) : Prop :=
  0 <= p_nread p < 2 ^ 32 /\ 0 <= p_nwrite p < 2 ^ 32 /\ queue_len p <= PIPESIZE.
Definition queue (p : pipe) : list Z :=
  (fun i => p_data p (u32 (p_nread p + i) mod PIPESIZE)) <$> seqZ 0 (queue_len p).

Lemma u32_mod_pipe z : u32 z mod PIPESIZE = z mod PIPESIZE.
Proof.
  unfold u32, PIPESIZE. change (2 ^ 32) with (512 * 8388608).
  rewrite Z.rem_mul_r by lia. rewrite (Z.mul_comm 512), Z.mod_add by lia. apply Z.mod_mod. lia.
Qed.

Lemma u32_idem_l a b : u32 (u32 a + b) = u32 (a + b).
Proof. unfold u32. by rewrite Zplus_mod_idemp_l. Qed.

Lemma queue_len_bounds p : 0 <= queue_len p < 2 ^ 32.
Proof. apply u32_range. Qed.

(** The write counter is the read counter plus the length. *)
Lemma nwrite_len p : pipe_ok p -> p_nwrite p = u32 (p_nread p + queue_len p).
Proof.
  intros (Hr & Hw & _). unfold queue_len. rewrite Z.add_comm, u32_idem_l.
  replace (p_nwrite p - p_nread p + p_nread p) with (p_nwrite p) by lia. by rewrite u32_small.
Qed.

Lemma queue_full p : pipe_ok p -> (p_nwrite p =? u32 (p_nread p + PIPESIZE)) = (queue_len p =? PIPESIZE).
Proof.
  intros Hok. pose proof Hok as (Hr & Hw & Hl). rewrite (nwrite_len p Hok).
  pose proof (queue_len_bounds p) as Hb. unfold PIPESIZE in *.
  assert (E : u32 (p_nread p + queue_len p) = u32 (p_nread p + 512) <-> queue_len p = 512).
  { split; [|by intros ->]. unfold u32. intros E.
    apply (f_equal (fun z => (z - p_nread p) mod 2 ^ 32)) in E. rewrite !Zminus_mod_idemp_l in E.
    replace (p_nread p + queue_len p - p_nread p) with (queue_len p) in E by lia.
    replace (p_nread p + 512 - p_nread p) with 512 in E by lia.
    rewrite !Z.mod_small in E; lia. }
  destruct (Z.eqb_spec (queue_len p) 512), (Z.eqb_spec (u32 (p_nread p + queue_len p)) (u32 (p_nread p + 512))); tauto.
Qed.

Lemma queue_empty p : pipe_ok p -> (p_nread p =? p_nwrite p) = (queue_len p =? 0).
Proof.
  intros (Hr & Hw & Hl). unfold queue_len, u32.
  destruct (Z.eqb_spec (p_nread p) (p_nwrite p)) as [E|E].
  - rewrite E, Z.sub_diag. done.
  - symmetry. apply Z.eqb_neq. intros H. apply E.
    apply Z.mod_divide in H as [c Hc]; [|done]. assert (c = 0) by lia. lia.
Qed.

Lemma length_queue p : Z.of_nat (length (queue p)) = queue_len p.
Proof. unfold queue. rewrite length_fmap, length_seqZ. pose proof (queue_len_bounds p). lia. Qed.

(** Writing a byte appends it. *)
Lemma queue_push p ch :
  pipe_ok p -> queue_len p <> PIPESIZE ->
  let p' := set_p_nwrite (u32 (p_nwrite p + 1)) (set_p_data (<[p_nwrite p mod PIPESIZE := ch]> (p_data p)) p) in
  pipe_ok p' /\ queue p' = queue p ++ [ch].
Proof.
  intros Hok Hne p'. pose proof Hok as (Hr & Hw & Hl). pose proof (queue_len_bounds p) as Hb.
  assert (El : queue_len p' = queue_len p + 1).
  { unfold queue_len at 1, p'. simpl.
    replace (u32 (p_nwrite p + 1) - p_nread p) with (u32 (p_nwrite p + 1) + - p_nread p) by lia.
    rewrite u32_idem_l.
    replace (p_nwrite p + 1 + - p_nread p) with (p_nwrite p - p_nread p + 1) by lia.
    rewrite <- u32_idem_l. fold (queue_len p). apply u32_small. unfold PIPESIZE in *. lia. }
  split.
  - split; [done|]. split; [apply u32_range|]. rewrite El. lia.
  - unfold queue. rewrite El, seqZ_app, fmap_app by lia. f_equal.
    + apply list_fmap_ext. intros i x Hx. apply lookup_seqZ in Hx as [-> Hx]. simpl.
      apply fn_lookup_insert_ne. rewrite (nwrite_len p Hok), !u32_mod_pipe. intros E.
      assert (H0 : (queue_len p - Z.of_nat i) mod PIPESIZE = 0).
      { replace (queue_len p - Z.of_nat i) with ((p_nread p + queue_len p) - (p_nread p + (0 + Z.of_nat i))) by lia.
        rewrite Zminus_mod, E, Z.sub_diag. done. }
      rewrite Z.mod_small in H0; unfold PIPESIZE in *; lia.
    + simpl. f_equal. rewrite (nwrite_len p Hok) at 1. rewrite Z.add_0_l.
      apply fn_lookup_insert.
Qed.

(** Reading a byte takes the oldest one. *)
Lemma queue_pop p :
  pipe_ok p -> queue_len p <> 0 ->
  let p' := set_p_nread (u32 (p_nread p + 1)) p in
  pipe_ok p' /\ queue p = p_data p (p_nread p mod PIPESIZE) :: queue p'.
Proof.
  intros Hok Hne p'. pose proof Hok as (Hr & Hw & Hl). pose proof (queue_len_bounds p) as Hb.
  assert (El : queue_len p' = queue_len p - 1).
  { unfold queue_len at 1, p'. simpl. unfold u32. rewrite Zminus_mod_idemp_r.
    replace (p_nwrite p - (p_nread p + 1)) with (p_nwrite p - p_nread p + -1) by lia.
    fold (u32 (p_nwrite p - p_nread p + -1)). rewrite <- u32_idem_l. fold (queue_len p).
    apply u32_small. lia. }
  split.
  - split; [apply u32_range|]. split; [done|]. rewrite El. lia.
  - unfold queue. rewrite El, (seqZ_cons 0) by lia. cbn [fmap list_fmap]. f_equal.
    + by rewrite Z.add_0_r, u32_mod_pipe.
    + replace (Z.pred (queue_len p)) with (queue_len p - 1) by lia.
      apply list_eq. intros i. rewrite !list_lookup_fmap. destruct (decide (i < Z.to_nat (queue_len p - 1))%nat).
      * rewrite !lookup_seqZ_lt by lia. cbn [fmap option_fmap option_map]. f_equal.
        unfold p'. simpl. rewrite u32_idem_l. do 3 f_equal. lia.
      * by rewrite !lookup_seqZ_ge by lia.
Qed.

(** * Runs of the loops *)

(** The bytes [i] to [j] of a source. *)
Definition sent (src : Z -> option Z) (i j : Z) : list Z := default 0 ∘ src <$> seqZ i (j - i).

(** The byte at which a run of [pipewrite] that started at [i] stopped. *)
Definition stopped_at (e : pipe_end) (i : Z) : Z :=
  match e with PSleep j => j | PRet r => if r <? 0 then i else r end.

Lemma sent_S src i j : i < j -> sent src i j = default 0 (src i) :: sent src (i + 1) j.
Proof.
  intros H. unfold sent. rewrite (seqZ_cons i) by lia. cbn [fmap list_fmap compose].
  replace (Z.pred (j - i)) with (j - (i + 1)) by lia. f_equal.
Qed.

Lemma pipewrite_loop_spec fuel killed src n i p p' e :
  pipe_ok p -> 0 <= i -> Z.of_nat fuel = n - i ->
  pipewrite_loop fuel killed src n i p = (p', e) ->
  let j := stopped_at e i in
  pipe_ok p' /\ i <= j <= n /\ queue p' = queue p ++ sent src i j /\
  p_readopen p' = p_readopen p /\ p_writeopen p' = p_writeopen p /\
  match e with
  | PSleep _ => queue_len p' = PIPESIZE /\ j < n
  | PRet r => (r = -1 /\ (p_readopen p = false \/ killed = true)) \/ r = n \/ (r = j /\ src j = None)
  end.
Proof.
  revert i p. induction fuel as [|fuel IH]; intros i p Hok Hi Hf; cbn [pipewrite_loop].
  { intros [= <- <-]. simpl. rewrite (proj2 (Z.ltb_ge i 0)) by lia.
    unfold sent. rewrite Z.sub_diag. simpl. rewrite app_nil_r. split; [done|]. split; [lia|].
    split; [done|]. split; [done|]. split; [done|]. right. left. lia. }
  rewrite (proj2 (Z.ltb_lt i n)) by lia.
  assert (Hnil : forall q : list Z, q ++ sent src i i = q).
  { intros q. unfold sent. rewrite Z.sub_diag. apply app_nil_r. }
  destruct (negb (p_readopen p) || killed) eqn:Ek.
  { intros [= <- <-]. simpl. rewrite Hnil. split; [done|]. split; [lia|].
    split; [done|]. split; [done|]. split; [done|]. left. split; [done|].
    apply orb_true_iff in Ek as [Ek%negb_true_iff|Ek]; auto. }
  rewrite queue_full by done. destruct (Z.eqb_spec (queue_len p) PIPESIZE) as [El|El].
  { intros [= <- <-]. simpl. rewrite Hnil. split; [done|]. split; [lia|]. done || (repeat split; done || lia). }
  destruct (src i) as [ch|] eqn:Es.
  2: { intros [= <- <-]. simpl. rewrite (proj2 (Z.ltb_ge i 0)), Hnil by lia. split; [done|]. split; [lia|].
       split; [done|]. split; [done|]. split; [done|]. right. right. done. }
  destruct (queue_push p ch Hok El) as [Hok1 Hq1]. intros E.
  destruct (IH (i + 1) _ Hok1 ltac:(lia) ltac:(lia) E) as (H1 & H2 & H3 & H4 & H5 & H6).
  clear IH. assert (Hj : stopped_at e (i + 1) = stopped_at e i \/ e = PRet (-1)).
  { destruct e as [r|r]; simpl; [|by left]. destruct (Z.ltb_spec r 0); [|by left].
    destruct H6 as [[-> _]|[->|[E' _]]]; [by right|lia|].
    simpl in E'. rewrite (proj2 (Z.ltb_lt r 0)) in E' by done. lia. }
  destruct Hj as [Hj|Hj].
  - rewrite Hj in *. split; [done|]. split; [lia|]. split; [|done].
    rewrite H3, Hq1, <- app_assoc, (sent_S src i) by lia. by rewrite Es.
  - subst e. destruct H6 as [[_ [H6|H6]]|[H6|[H6 _]]]; simpl in *.
    + rewrite H6 in Ek. done.
    + rewrite H6, orb_true_r in Ek. done.
    + lia.
    + lia.
Qed.

Lemma piperead_loop_spec fuel dst i p acc p' j acc' :
  pipe_ok p -> (forall x, dst x = true) ->
  piperead_loop fuel dst i p acc = (p', j, acc') ->
  exists l, acc' = rev l ++ acc /\ queue p = l ++ queue p' /\ pipe_ok p' /\
    j = i + Z.of_nat (length l) /\ (length l <= fuel)%nat /\
    ((length l < fuel)%nat -> queue p' = []) /\
    p_readopen p' = p_readopen p /\ p_writeopen p' = p_writeopen p.
Proof.
  intros Hok Hdst. revert i p acc Hok. induction fuel as [|fuel IH]; intros i p acc Hok; cbn [piperead_loop].
  { intros [= <- <- <-]. exists []. simpl. split; [done|]. split; [done|]. split; [done|].
    split; [lia|]. split; [lia|]. split; [lia|done]. }
  rewrite queue_empty by done. destruct (Z.eqb_spec (queue_len p) 0) as [El|El].
  { intros [= <- <- <-]. exists []. simpl. split; [done|]. split; [done|]. split; [done|].
    split; [lia|]. split; [lia|]. split; [|done]. intros _. unfold queue. by rewrite El. }
  destruct (queue_pop p Hok El) as [Hok1 Hq1]. rewrite Hdst. intros E.
  destruct (IH _ _ _ Hok1 E) as (l & H1 & H2 & H3 & H4 & H5 & H6 & H7 & H8).
  exists (p_data p (p_nread p mod PIPESIZE) :: l). simpl length.
  split; [cbn [rev]; by rewrite <- app_assoc|]. split; [rewrite Hq1; simpl; by f_equal|].
  split; [done|]. split; [lia|]. split; [lia|]. split; [|done]. intros Hlt. apply H6. lia.
Qed.

(** * Writers and readers *)

(** The pipe, the bytes written to it and the bytes read from it so far. *)
Record psys := PSys { ps_pipe : pipe; ps_written : list Z; ps_read : list Z }.

(** Any number of processes write and read; each step is one stretch of code
    between taking the pipe's lock and giving it up, by returning or sleeping. *)
Inductive pstep : psys -> psys -> Prop :=
| pstep_write p w r killed src n i p' e :
    0 <= i <= n -> pipewrite_run killed src n i p = (p', e) ->
    pstep (PSys p w r) (PSys p' (w ++ sent src i (stopped_at e i)) r)
| pstep_read p w r killed n p' e l :
    0 <= n -> piperead_run killed (fun _ => true) n p = (p', e, l) ->
    pstep (PSys p w r) (PSys p' w (r ++ l))
| pstep_close p w r writable :
    pstep (PSys p w r) (PSys (pipeclose_pipe writable p).1 w r).

Definition psys_ok (s : psys) : Prop := pipe_ok (ps_pipe s) /\ ps_written s = ps_read s ++ queue (ps_pipe s).

Lemma psys_step s s' : psys_ok s -> pstep s s' -> psys_ok s'.
Proof.
  intros [Hok Hq] Hst. destruct Hst as [p w r killed src n i p' e Hi E|p w r killed n p' e l Hn E|p w r b];
    simpl in *.
  - unfold pipewrite_run in E.
    destruct (pipewrite_loop_spec (Z.to_nat (n - i)) killed src n i p p' e Hok ltac:(lia) ltac:(lia) E) as (H1 & _ & H3 & _).
    split; [done|]. simpl. by rewrite H3, Hq, app_assoc.
  - unfold piperead_run in E. destruct (_ && _).
    + injection E as <- _ <-. split; [done|]. simpl. by rewrite app_nil_r.
    + destruct (piperead_loop _ _ _ _ _) as [[p1 i1] acc1] eqn:El. injection E as <- _ <-.
      destruct (piperead_loop_spec _ _ _ _ _ _ _ _ Hok (fun _ => eq_refl) El) as (l' & -> & H2 & H3 & _).
      split; [done|]. simpl. rewrite Hq, H2, app_nil_r, rev_involutive. by rewrite app_assoc.
  - destruct b; (split; [exact Hok|exact Hq]).
Qed.

(** * Properties *)



(** One run of [pipewrite] or [piperead] on a pipe holding a queue.
    [pipewrite] appends the bytes it copies in and stops at the end of the
    data, with a full buffer (it sleeps), at an unreadable byte, or with -1
    if the reading end is closed or the process killed; [piperead] sleeps
    exactly on an empty pipe whose writing end is open, and otherwise takes
    from the front what is there, at most [n] bytes. *)
Theorem pipe_run_spec (p : pipe) (killed : bool) (src : Z -> option Z) (n i : Z) :
  pipe_ok p -> 0 <= i <= n ->
  (let '(p', e) := pipewrite_run killed src n i p in
   let j := stopped_at e i in
   i <= j <= n /\ queue p' = queue p ++ sent src i j /\
   match e with
   | PSleep _ => Z.of_nat (length (queue p')) = PIPESIZE /\ j < n
   | PRet r => (r = -1 /\ (p_readopen p = false \/ killed = true)) \/ r = n \/ (r = j /\ src j = None)
   end) /\
  (let '(p', e, l) := piperead_run killed (fun _ => true) n p in
   queue p = l ++ queue p' /\
   match e with
   | PSleep _ => queue p = [] /\ p_writeopen p = true /\ killed = false
   | PRet r => (r = -1 /\ queue p = [] /\ killed = true) \/
       (r = Z.of_nat (length l) /\ r <= n /\ (r < n -> queue p' = []))
   end).
Proof.
  intros Hok Hi. split.
  - unfold pipewrite_run. destruct (pipewrite_loop _ _ _ _ _ _) as [p' e] eqn:E.
    destruct (pipewrite_loop_spec (Z.to_nat (n - i)) killed src n i p p' e Hok ltac:(lia) ltac:(lia) E) as (H1 & H2 & H3 & _ & _ & H6).
    split; [done|]. split; [done|]. destruct e; [done|]. by rewrite length_queue.
  - unfold piperead_run. rewrite queue_empty by done.
    assert (Hz : queue_len p = 0 -> queue p = []) by (intros E; unfold queue; by rewrite E).
    destruct (Z.eqb_spec (queue_len p) 0) as [El|El]; [destruct (p_writeopen p) eqn:Ew|]; simpl.
    { split; [done|]. destruct killed; [left|]; auto. }
    all: destruct (piperead_loop _ _ _ _ _) as [[p1 i1] acc1] eqn:E;
      destruct (piperead_loop_spec _ _ _ _ _ _ _ _ Hok (fun _ => eq_refl) E) as (l & -> & H2 & _ & -> & H5 & H6 & _);
      rewrite app_nil_r, rev_involutive; (split; [done|]); right; (split; [lia|]); split; [lia|];
      intros Hlt; apply H6; lia.
Qed.

Lemma pipe_run_spec_witness :
  exists p' e, pipewrite_run false (fun i => Some (7 + i)) 3 0 (pipe_init (fun _ => 0)) = (p', e) /\
    queue p' = sent (fun i => Some (7 + i)) 0 (stopped_at e 0).
Proof.
  destruct (pipe_run_spec (pipe_init (fun _ => 0)) false (fun i => Some (7 + i)) 3 0) as [H _].
  - split; [simpl; lia|]. split; [simpl; lia|]. vm_compute. discriminate.
  - lia.
  - destruct (pipewrite_run _ _ _ _ _) as [p' e]. exists p', e. split; [reflexivity|].
    destruct H as (_ & Hq & _). exact Hq.
Defined.
