(* ===== verification/File.v ===== *)
(** Open files, kernel/file.c, with the kernel side of kernel/pipe.c.

    Devices are reached through the function pointers of [devsw]: parameters.
    A page taken from [kalloc] for a pipe is one of [x_freelist]. *)

From S2P Require Import Prelude BufCache BufSpec KState Log CString Fs PipeRing.
Local Open Scope Z_scope.

Section code.
Context {U : Type} `{!UserMem U}.
(** [devsw[major].read] and [.write]: null, or a function of the user address
    and the count. *)
Context (dev_rd dev_wr : Z -> option (Z -> Z -> K U Z)).
(** What a fresh page holds, and the bytes of padding in [struct stat]. *)
Context (junk : Z -> Z) (pad : bytes).

Definition set_f_ref r f := File (f_type f) r (f_readable f) (f_writable f) (f_pipe f) (f_ip f) (f_off f) (f_major f).
Definition set_f_type t f := File t (f_ref f) (f_readable f) (f_writable f) (f_pipe f) (f_ip f) (f_off f) (f_major f).
Definition set_f_mode r w f := File (f_type f) (f_ref f) r w (f_pipe f) (f_ip f) (f_off f) (f_major f).
Definition set_f_pipe p f := File (f_type f) (f_ref f) (f_readable f) (f_writable f) p (f_ip f) (f_off f) (f_major f).
Definition set_f_ip i f := File (f_type f) (f_ref f) (f_readable f) (f_writable f) (f_pipe f) i (f_off f) (f_major f).
Definition set_f_off o f := File (f_type f) (f_ref f) (f_readable f) (f_writable f) (f_pipe f) (f_ip f) o (f_major f).
Definition set_f_major m f := File (f_type f) (f_ref f) (f_readable f) (f_writable f) (f_pipe f) (f_ip f) (f_off f) m.

Definition kfile (f : nat) : K U file := kget (fun k => k_ftable k f).
Definition fmod (f : nat) (g : file -> file) : K U unit :=
  kmod (fun k => set_k_ftable (<[f := g (k_ftable k f)]> (k_ftable k)) k).
Definition xmod (g : kext -> kext) : K U unit := kmod (fun k => set_k_ext (g (k_ext k)) k).
Definition set_x_pipes p x := KExt p (x_freelist x) (x_killed x) (x_args x).
Definition set_x_freelist l x := KExt (x_pipes x) l (x_killed x) (x_args x).

(** [kalloc] and [kfree] on the list of free pages. *)
Definition page_alloc : K U (option Z) :=
  x ← kget k_ext;
  match x_freelist x with
  | [] => mret None
  | p :: l => xmod (set_x_freelist l);; mret (Some p)
  end.
Definition page_free (p : Z) : K U unit := xmod (fun x => set_x_freelist (p :: x_freelist x) x).

(** [pi->...]: the page must hold a pipe. *)
Definition kpipe (pi : Z) : K U pipe :=
  x ← kget k_ext;
  match x_pipes x !! pi with Some p => mret p | None => kundef end.
Definition set_pipe (pi : Z) (p : pipe) : K U unit :=
  xmod (fun x => set_x_pipes (<[pi := p]> (x_pipes x)) x).

(** * kernel/pipe.c *)

Definition pipeclose (pi : Z) (writable : bool) : K U unit :=
  p ← kpipe pi;
  let (p', free) := pipeclose_pipe writable p in
  set_pipe pi p';;
  if free then xmod (fun x => set_x_pipes (delete pi (x_pipes x)) x);; page_free pi else mret tt.

(** [copyin(pr->pagetable, &ch, addr + i, 1)] *)
Definition user_byte (u : U) (addr i : Z) : option Z :=
  match copyin u (u64 (addr + i)) 1 with
  | (b :: _, true) => Some b
  | _ => None
  end.

Definition pipewrite (pi addr n : Z) : K U Z :=
  p ← kpipe pi;
  x ← kget k_ext;
  u ← kget k_mem;
  let (p', e) := pipewrite_run (x_killed x) (user_byte u addr) n 0 p in
  set_pipe pi p';;
  match e with PRet r => mret r | PSleep _ => ksleep end.

(** The copy loop, with [copyout] on user memory. *)
Fixpoint piperead_copy (fuel : nat) (pi addr i : Z) : K U Z :=
  match fuel with
  | O => mret i
  | S fuel =>
      p ← kpipe pi;
      if p_nread p =? p_nwrite p then mret i
      else
        let ch := p_data p (p_nread p mod PIPESIZE) in
        set_pipe pi (set_p_nread (u32 (p_nread p + 1)) p);;
        u ← kget k_mem;
        let (u', ok) := copyout u (u64 (addr + i)) [ch] in
        kmod (set_k_mem u');;
        if ok then piperead_copy fuel pi addr (i + 1) else mret i
  end.

Definition piperead (pi addr n : Z) : K U Z :=
  p ← kpipe pi;
  x ← kget k_ext;
  if (p_nread p =? p_nwrite p) && p_writeopen p then
    if x_killed x then mret (-1) else ksleep
  else piperead_copy (Z.to_nat n) pi addr 0.

(** * kernel/file.c *)

(** [for(f = ftable.file; f < ftable.file + NFILE; f++) if(f->ref == 0)] *)
Fixpoint find_file (n i : nat) (t : nat -> file) : option nat :=
  match n with
  | O => None
  | S n => if f_ref (t i) =? 0 then Some i else find_file n (S i) t
  end.

Definition NFILEn : nat := Z.to_nat NFILE.

Definition filealloc : K U (option nat) :=
  t ← kget k_ftable;
  match find_file NFILEn 0 t with
  | Some f => fmod f (set_f_ref 1);; mret (Some f)
  | None => mret None
  end.

Definition filedup (f : nat) : K U nat :=
  x ← kfile f;
  if f_ref x <? 1 then kpanic "filedup" else
  fmod f (set_f_ref (f_ref x + 1));; mret f.

Definition fileclose (f : nat) : K U unit :=
  x ← kfile f;
  if f_ref x <? 1 then kpanic "fileclose" else
  fmod f (set_f_ref (f_ref x - 1));;
  if f_ref x - 1 >? 0 then mret tt else
  ff ← kfile f;
  fmod f (set_f_ref 0);;
  fmod f (set_f_type FD_NONE);;
  match f_type ff with
  | FD_PIPE => pipeclose (f_pipe ff) (f_writable ff)
  | FD_INODE | FD_DEVICE => begin_op;; iput (f_ip ff);; end_op
  | FD_NONE => mret tt
  end.

(** [struct stat] as bytes: four bytes of padding before the size. *)
Definition stat_enc (st : stat) : bytes :=
  le_bytes 4 (st_dev st) ++ le_bytes 4 (st_ino st) ++ le_bytes 2 (st_type st) ++
  le_bytes 2 (st_nlink st) ++ pad ++ le_bytes 8 (st_size st).

Definition filestat (f : nat) (addr : Z) : K U Z :=
  x ← kfile f;
  match f_type x with
  | FD_INODE | FD_DEVICE =>
      ilock (Some (f_ip x));;
      st ← stati (f_ip x);
      iunlock (Some (f_ip x));;
      u ← kget k_mem;
      let (u', ok) := copyout u addr (stat_enc st) in
      kmod (set_k_mem u');;
      if ok then mret 0 else mret (-1)
  | _ => mret (-1)
  end.

Definition device_ok (major : Z) : bool := negb ((major <? 0) || (major >=? NDEV)).

Definition fileread (f : nat) (addr n : Z) : K U Z :=
  x ← kfile f;
  if negb (f_readable x) then mret (-1) else
  match f_type x with
  | FD_PIPE => piperead (f_pipe x) addr n
  | FD_DEVICE =>
      if negb (device_ok (f_major x)) then mret (-1) else
      match dev_rd (f_major x) with
      | Some rd => rd addr n
      | None => mret (-1)
      end
  | FD_INODE =>
      ilock (Some (f_ip x));;
      r ← readi (f_ip x) (UserDst addr) (f_off x) (u32 n);
      (if r.1 >? 0 then fmod f (fun x => set_f_off (u32 (f_off x + r.1)) x) else mret tt);;
      iunlock (Some (f_ip x));;
      mret r.1
  | FD_NONE => kpanic "fileread"
  end.

(** Bytes per transaction. *)
Definition WRITE_MAX : Z := (MAXOPBLOCKS - 1 - 1 - 2) / 2 * BSIZE.

(** The loop of [filewrite] on an inode; the result is [i]. *)
Fixpoint filewrite_loop (fuel : nat) (f : nat) (addr n i : Z) : K U Z :=
  match fuel with
  | O => kfuel
  | S fuel =>
      if i <? n then
        let n1 := Z.min (n - i) WRITE_MAX in
        begin_op;;
        x ← kfile f;
        ilock (Some (f_ip x));;
        r ← writei (f_ip x) (UserSrc (u64 (addr + i))) (f_off x) n1;
        (if r >? 0 then fmod f (fun x => set_f_off (u32 (f_off x + r)) x) else mret tt);;
        iunlock (Some (f_ip x));;
        end_op;;
        if negb (r =? n1) then mret i else filewrite_loop fuel f addr n (i + r)
      else mret i
  end.

Definition filewrite (f : nat) (addr n : Z) : K U Z :=
  x ← kfile f;
  if negb (f_writable x) then mret (-1) else
  match f_type x with
  | FD_PIPE => pipewrite (f_pipe x) addr n
  | FD_DEVICE =>
      if negb (device_ok (f_major x)) then mret (-1) else
      match dev_wr (f_major x) with
      | Some wr => wr addr n
      | None => mret (-1)
      end
  | FD_INODE =>
      i ← filewrite_loop (Z.to_nat (n / WRITE_MAX) + 2) f addr n 0;
      mret (if i =? n then n else -1)
  | FD_NONE => kpanic "filewrite"
  end.

(** [pipealloc]: the two files, or -1. *)
Definition pipealloc : K U (option (nat * nat)) :=
  f0 ← filealloc;
  match f0 with
  | None => mret None
  | Some a =>
      f1 ← filealloc;
      match f1 with
      | None => fileclose a;; mret None
      | Some b =>
          pg ← page_alloc;
          match pg with
          | None => fileclose a;; fileclose b;; mret None
          | Some pi =>
              set_pipe pi (pipe_init junk);;
              fmod a (fun f => set_f_pipe pi (set_f_mode true false (set_f_type FD_PIPE f)));;
              fmod b (fun f => set_f_pipe pi (set_f_mode false true (set_f_type FD_PIPE f)));;
              mret (Some (a, b))
          end
      end
  end.

End code.
