(* ===== verification/Sysfile.v ===== *)
(** The file system calls, kernel/sysfile.c, and the argument fetching of
    kernel/syscall.c they use.  [sys_exec] is in Exec.v.

    [name] stands for the uninitialised [char name[DIRSIZ]] buffers, [pad] and
    [stk] for other uninitialised bytes of the kernel stack. *)

From S2P Require Import Prelude BufCache BufSpec KState Log CString Fs PipeRing File.
Local Open Scope Z_scope.

Definition O_RDONLY : Z := 0x000.
Definition O_WRONLY : Z := 0x001.
Definition O_RDWR : Z := 0x002.
Definition O_CREATE : Z := 0x200.
Definition O_TRUNC : Z := 0x400.
Definition O_NOFOLLOW : Z := 0x800.

(** [omode & flag] *)
Definition flag (omode f : Z) : bool := negb (Z.land omode f =? 0).

(** The string at the start of a buffer, if it has a NUL. *)
Fixpoint cstring (b : bytes) : option bytes :=
  match b with
  | [] => None
  | c :: b => if c =? 0 then Some [] else s ← cstring b; Some (c :: s)
  end.

Section code.
Context {U : Type} `{!UserMem U}.
Context (dev_rd dev_wr : Z -> option (Z -> Z -> K U Z)).
Context (junk : Z -> Z) (pad name stk : bytes).

(** * kernel/syscall.c: arguments *)

(** The six argument registers hold 64-bit values. *)
Definition argraw (n : Z) : K U Z :=
  if (0 <=? n) && (n <=? 5) then kget (fun k => u64 (x_args (k_ext k) n)) else kpanic "argraw".
Definition argint (n : Z) : K U Z := a ← argraw n; mret (i32 a).
Definition argaddr (n : Z) : K U Z := argraw n.

(** The string without its NUL. *)
Definition fetchstr (addr max : Z) : K U (option bytes) :=
  u ← kget k_mem; mret (copyinstr u addr max).
Definition argstr (n max : Z) : K U (option bytes) :=
  addr ← argaddr n; fetchstr addr max.

(** * kernel/sysfile.c *)

(** The descriptor and its file. *)
Definition argfd (n : Z) : K U (option (Z * nat)) :=
  fd ← argint n;
  if (fd <? 0) || (fd >=? NOFILE) then mret None else
  ofile ← kget k_ofile;
  match ofile !! Z.to_nat fd with
  | Some (Some f) => mret (Some (fd, f))
  | _ => mret None
  end.

(** [for(fd = 0; fd < NOFILE; fd++) if(p->ofile[fd] == 0)] *)
Fixpoint find_fd (l : list (option nat)) (fd : Z) : option Z :=
  match l with
  | [] => None
  | None :: _ => Some fd
  | Some _ :: l => find_fd l (fd + 1)
  end.

Definition fdalloc (f : nat) : K U Z :=
  ofile ← kget k_ofile;
  match find_fd ofile 0 with
  | Some fd => kmod (fun k => set_k_ofile (<[Z.to_nat fd := Some f]> (k_ofile k)) k);; mret fd
  | None => mret (-1)
  end.

Definition fdclear (fd : Z) : K U unit :=
  kmod (fun k => set_k_ofile (<[Z.to_nat fd := None]> (k_ofile k)) k).

Definition sys_dup : K U Z :=
  r ← argfd 0;
  match r with
  | None => mret (-1)
  | Some (_, f) =>
      fd ← fdalloc f;
      if fd <? 0 then mret (-1) else filedup f;; mret fd
  end.

Definition sys_read : K U Z :=
  p ← argaddr 1;
  n ← argint 2;
  r ← argfd 0;
  match r with None => mret (-1) | Some (_, f) => fileread dev_rd f p n end.

Definition sys_write : K U Z :=
  p ← argaddr 1;
  n ← argint 2;
  r ← argfd 0;
  match r with None => mret (-1) | Some (_, f) => filewrite dev_wr f p n end.

Definition sys_close : K U Z :=
  r ← argfd 0;
  match r with
  | None => mret (-1)
  | Some (fd, f) => fdclear fd;; fileclose f;; mret 0
  end.

Definition sys_fstat : K U Z :=
  st ← argaddr 1;
  r ← argfd 0;
  match r with None => mret (-1) | Some (_, f) => filestat pad f st end.

(** [end_op(); return -1;] and the common clean-ups. *)
Definition fail_op : K U Z := end_op;; mret (-1).
Definition fail_put (ip : nat) : K U Z := iunlockput ip;; fail_op.

(** The [bad:] label of [sys_link]. *)
Definition link_bad (ip : nat) : K U Z :=
  ilock (Some ip);;
  imod ip (fun x => set_i_nlink (i16 (i_nlink x - 1)) x);;
  iupdate ip;;
  fail_put ip.

Definition sys_link : K U Z :=
  old ← argstr 0 MAXPATH;
  match old with None => mret (-1) | Some old =>
  new ← argstr 1 MAXPATH;
  match new with None => mret (-1) | Some new =>
  begin_op;;
  r ← namei name old;
  match r with None => fail_op | Some ip =>
  ilock (Some ip);;
  x ← kinode ip;
  if i_type x =? T_DIR then fail_put ip else
  imod ip (fun x => set_i_nlink (i16 (i_nlink x + 1)) x);;
  iupdate ip;;
  iunlock (Some ip);;
  r ← nameiparent new name;
  match r.1 with None => link_bad ip | Some dp =>
  ilock (Some dp);;
  d ← kinode dp;
  x ← kinode ip;
  bad ← (if negb (i_dev d =? i_dev x) then mret true
         else w ← dirlink dp r.2 (i_inum x); mret (w <? 0));
  if (bad : bool) then iunlockput dp;; link_bad ip else
  iunlockput dp;;
  iput ip;;
  end_op;;
  mret 0
  end end end end.

Definition isdirempty_step (dp : nat) (off : Z) : K U (option unit) :=
  r ← readi dp KernelDst off DIRENT_SIZE;
  if negb (r.1 =? DIRENT_SIZE) then kpanic "isdirempty: readi" else
  if negb (de_inum r.2 =? 0) then mret (Some tt) else mret None.

Definition isdirempty (dp : nat) : K U bool :=
  x ← kinode dp;
  r ← kfor (dirents (i_size x) - 2) (2 * DIRENT_SIZE) DIRENT_SIZE (isdirempty_step dp);
  match r with Some _ => mret false | None => mret true end.

Definition DOT : bytes := [46].
Definition DOTDOT : bytes := [46; 46].

Definition sys_unlink : K U Z :=
  path ← argstr 0 MAXPATH;
  match path with None => mret (-1) | Some path =>
  begin_op;;
  r ← nameiparent path name;
  match r.1 with None => fail_op | Some dp =>
  ilock (Some dp);;
  if (namecmp r.2 DOT =? 0) || (namecmp r.2 DOTDOT =? 0) then fail_put dp else
  e ← dirlookup dp r.2;
  match e with None => fail_put dp | Some (ip, off) =>
  ilock (Some ip);;
  x ← kinode ip;
  if i_nlink x <? 1 then kpanic "unlink: nlink < 1" else
  nonempty ← (if i_type x =? T_DIR then e ← isdirempty ip; mret (negb e) else mret false);
  if (nonempty : bool) then iunlockput ip;; fail_put dp else
  w ← writei dp (KernelSrc (zeros DIRENT_SIZE)) off DIRENT_SIZE;
  if negb (w =? DIRENT_SIZE) then kpanic "unlink: writei" else
  (if i_type x =? T_DIR then
     imod dp (fun d => set_i_nlink (i16 (i_nlink d - 1)) d);; iupdate dp
   else mret tt);;
  iunlockput dp;;
  imod ip (fun x => set_i_nlink (i16 (i_nlink x - 1)) x);;
  iupdate ip;;
  iunlockput ip;;
  end_op;;
  mret 0
  end end end.

(** The [fail:] label of [create]. *)
Definition create_fail (ip dp : nat) : K U (option nat) :=
  imod ip (set_i_nlink 0);;
  iupdate ip;;
  iunlockput ip;;
  iunlockput dp;;
  mret None.

Definition create (path : bytes) (type major minor : Z) : K U (option nat) :=
  r ← nameiparent path name;
  match r.1 with None => mret None | Some dp =>
  ilock (Some dp);;
  e ← dirlookup dp r.2;
  match e with
  | Some (ip, _) =>
      iunlockput dp;;
      ilock (Some ip);;
      x ← kinode ip;
      if (type =? T_FILE) && ((i_type x =? T_FILE) || (i_type x =? T_DEVICE)) then mret (Some ip)
      else if type =? T_SYMLINK then mret (Some ip)
      else iunlockput ip;; mret None
  | None =>
      d ← kinode dp;
      r' ← ialloc (i_dev d) type;
      match r' with
      | None => iunlockput dp;; mret None
      | Some ip =>
          ilock (Some ip);;
          imod ip (fun x => set_i_nlink 1 (set_i_minor minor (set_i_major major x)));;
          iupdate ip;;
          x ← kinode ip;
          bad ← (if type =? T_DIR then
                   w ← dirlink ip DOT (i_inum x);
                   if w <? 0 then mret true
                   else w ← dirlink ip DOTDOT (i_inum d); mret (w <? 0)
                 else mret false);
          if (bad : bool) then create_fail ip dp else
          w ← dirlink dp r.2 (i_inum x);
          if w <? 0 then create_fail ip dp else
          (if type =? T_DIR then
             imod dp (fun d => set_i_nlink (i16 (i_nlink d + 1)) d);; iupdate dp
           else mret tt);;
          iunlockput dp;;
          mret (Some ip)
      end
  end end.

(** What a read into an uninitialised object of [n] bytes leaves in it. *)
Definition fill (n : Z) (d : bytes) : bytes := put (take (Z.to_nat n) (stk ++ zeros n)) 0 d.

(** The loop of [sys_open] that follows symbolic links, from the locked inode
    [ip]: the locked inode it ends at, or null after the failure clean-up. *)
Fixpoint follow (fuel : nat) (omode depth : Z) (ip : nat) : K U (option nat) :=
  match fuel with
  | O => kfuel
  | S fuel =>
      x ← kinode ip;
      if negb (i_type x =? T_SYMLINK) then mret (Some ip) else
      if depth >=? 9 then kprintf "symbolic link is a loop";; fail_put ip;; mret None else
      if flag omode O_NOFOLLOW then mret (Some ip) else
      r ← readi ip KernelDst 0 4;
      let length := i32 (le_val (fill 4 r.2)) in
      if (length <? 0) || (length >=? 2 ^ 31 - 1) then kundef else
      r ← readi ip KernelDst 4 (length + 1);
      iunlockput ip;;
      match cstring (fill (length + 1) r.2) with
      | None => kundef
      | Some target =>
          n ← namei name target;
          match n with
          | None => fail_op;; mret None
          | Some ip => ilock (Some ip);; follow fuel omode (depth + 1) ip
          end
      end
  end.

(** The first part of [sys_open]: the locked inode, or null after clean-up. *)
Definition open_inode (path : bytes) (omode : Z) : K U (option nat) :=
  if flag omode O_CREATE then
    r ← create path T_FILE 0 0;
    match r with None => fail_op;; mret None | Some ip => mret (Some ip) end
  else
    r ← namei name path;
    match r with
    | None => fail_op;; mret None
    | Some ip =>
        ilock (Some ip);;
        x ← kinode ip;
        if (i_type x =? T_DIR) && negb (omode =? O_RDONLY) then fail_put ip;; mret None
        else mret (Some ip)
    end.

Definition sys_open : K U Z :=
  omode ← argint 1;
  path ← argstr 0 MAXPATH;
  match path with None => mret (-1) | Some path =>
  begin_op;;
  r ← open_inode path omode;
  match r with None => mret (-1) | Some ip =>
  r ← follow 11 omode 0 ip;
  match r with None => mret (-1) | Some ip =>
  x ← kinode ip;
  if (i_type x =? T_DEVICE) && negb (device_ok (i_major x)) then fail_put ip else
  fa ← filealloc;
  match fa with
  | None => fail_put ip
  | Some f =>
      fd ← fdalloc f;
      if fd <? 0 then fileclose f;; fail_put ip else
      (if i_type x =? T_DEVICE then
         fmod f (fun y => set_f_major (i_major x) (set_f_type FD_DEVICE y))
       else fmod f (fun y => set_f_off 0 (set_f_type FD_INODE y)));;
      fmod f (set_f_ip ip);;
      fmod f (set_f_mode (negb (flag omode O_WRONLY)) (flag omode O_WRONLY || flag omode O_RDWR));;
      (if flag omode O_TRUNC && (i_type x =? T_FILE) then itrunc ip else mret tt);;
      iunlock (Some ip);;
      end_op;;
      mret fd
  end end end end.

Definition sys_mkdir : K U Z :=
  begin_op;;
  path ← argstr 0 MAXPATH;
  match path with None => fail_op | Some path =>
  r ← create path T_DIR 0 0;
  match r with
  | None => fail_op
  | Some ip => iunlockput ip;; end_op;; mret 0
  end end.

Definition sys_mknod : K U Z :=
  begin_op;;
  major ← argint 1;
  minor ← argint 2;
  path ← argstr 0 MAXPATH;
  match path with None => fail_op | Some path =>
  r ← create path T_DEVICE (i16 major) (i16 minor);
  match r with
  | None => fail_op
  | Some ip => iunlockput ip;; end_op;; mret 0
  end end.

Definition sys_chdir : K U Z :=
  begin_op;;
  path ← argstr 0 MAXPATH;
  match path with None => fail_op | Some path =>
  r ← namei name path;
  match r with
  | None => fail_op
  | Some ip =>
      ilock (Some ip);;
      x ← kinode ip;
      if negb (i_type x =? T_DIR) then fail_put ip else
      iunlock (Some ip);;
      cwd ← kget k_cwd;
      iput cwd;;
      end_op;;
      kmod (set_k_cwd ip);;
      mret 0
  end end.

Definition sys_pipe : K U Z :=
  fdarray ← argaddr 0;
  r ← pipealloc junk;
  match r with
  | None => mret (-1)
  | Some (rf, wf) =>
      let bad : K U Z := fileclose rf;; fileclose wf;; mret (-1) in
      fd0 ← fdalloc rf;
      if fd0 <? 0 then bad else
      fd1 ← fdalloc wf;
      if fd1 <? 0 then fdclear fd0;; bad else
      u ← kget k_mem;
      let (u, ok) := copyout u fdarray (le_bytes 4 fd0) in
      kmod (set_k_mem u);;
      ok ← (if ok then
              let (u, ok) := copyout u (u64 (fdarray + 4)) (le_bytes 4 fd1) in
              kmod (set_k_mem u);; mret ok
            else mret false);
      if (ok : bool) then mret 0 else fdclear fd0;; fdclear fd1;; bad
  end.

Definition sys_symlink : K U Z :=
  target ← argstr 0 MAXPATH;
  match target with None => mret (-1) | Some target =>
  path ← argstr 1 MAXPATH;
  match path with None => mret (-1) | Some path =>
  begin_op;;
  r ← create path T_SYMLINK 0 0;
  match r with None => fail_op | Some ip =>
  let length := Z.of_nat (length target) in
  w ← writei ip (KernelSrc (le_bytes 4 length)) 0 4;
  if negb (w =? 4) then fail_put ip else
  w ← writei ip (KernelSrc (target ++ [0])) 4 (length + 1);
  if negb (w =? length + 1) then fail_put ip else
  iupdate ip;;
  iunlockput ip;;
  end_op;;
  mret 0
  end end end.

End code.
