(* ===== verification/FileProps.v ===== *)
(** Open files and descriptors, kernel/file.c and kernel/sysfile.c: reference
    counts, pipe ends, and what each system call leaves intact. *)

From S2P Require Import Prelude BufCache BufSpec KState Log LogCrash LogSystem CString Fs PipeRing File Sysfile.
From S2P Require Import FsAlloc FsTree FsFile FsWrite FsInode FsProps FsPath.
Local Open Scope Z_scope.

(** * The invariant *)

(** Descriptors of the current process that refer to file [f]. *)
Definition fd_count (l : list (option nat)) (f : nat) : Z :=
  Z.of_nat (length (filter (fun o => o = Some f) l)).

(** [others f] counts the references held elsewhere: other processes, code
    between taking a reference and storing it. *)
Record fds_ok (others : nat -> Z) (t : nat -> file) (l : list (option nat)) : Prop := FdsOk {
  ok_len : length l = Z.to_nat NOFILE;
  ok_range : forall fd f, l !! fd = Some (Some f) -> (f < NFILEn)%nat;
  ok_refs : forall f, (f < NFILEn)%nat -> f_ref (t f) = fd_count l f + others f;
  ok_free : forall f, (f < NFILEn)%nat -> f_ref (t f) = 0 -> f_type (t f) = FD_NONE;
  ok_typed : forall fd f, l !! fd = Some (Some f) -> f_type (t f) <> FD_NONE;
}.

(** An end of a pipe in use. *)
Definition pipe_end_of (t : nat -> file) (f : nat) (pi : Z) (w : bool) : Prop :=
  (f < NFILEn)%nat /\ f_ref (t f) <> 0 /\ f_type (t f) = FD_PIPE /\ f_pipe (t f) = pi /\ f_writable (t f) = w.
Definition p_open (w : bool) (p : pipe) : bool := if w then p_writeopen p else p_readopen p.

(** Every end in use belongs to a pipe that has it open, each pipe has at most
    one file per end and exactly one per open end, no pipe has both ends
    closed, and the pages of the pipes are not free. *)
Record pipes_ok (t : nat -> file) (pipes : gmap Z pipe) (free : list Z) : Prop := PipesOk {
  ok_end : forall f pi w, pipe_end_of t f pi w -> exists p, pipes !! pi = Some p /\ p_open w p = true;
  ok_one : forall f g pi w, pipe_end_of t f pi w -> pipe_end_of t g pi w -> f = g;
  ok_held : forall pi p w, pipes !! pi = Some p -> p_open w p = true -> exists f, pipe_end_of t f pi w;
  ok_some : forall pi p, pipes !! pi = Some p -> p_open false p || p_open true p = true;
  ok_page : forall pi, pi ∈ free -> pipes !! pi = None;
  ok_nodup : NoDup free;
}.

Definition files_ok {U} (others : nat -> Z) (k : kst U) : Prop :=
  fds_ok others (k_ftable k) (k_ofile k) /\
  pipes_ok (k_ftable k) (x_pipes (k_ext k)) (x_freelist (k_ext k)).

(** [d] references more to [f]. *)
Definition bump (f : nat) (d : Z) (g : nat) : Z := if decide (g = f) then d else 0.
Definition more (others : nat -> Z) (f : nat) (d : Z) (g : nat) : Z := others g + bump f d g.

Lemma bump_eq f d : bump f d f = d.
Proof. unfold bump. by rewrite decide_True. Qed.
Lemma bump_ne f d g : g <> f -> bump f d g = 0.
Proof. unfold bump. intros. by rewrite decide_False. Qed.

Lemma fd_count_insert l fd o o' g :
  l !! fd = Some o ->
  fd_count (<[fd := o']> l) g = fd_count l g - (if decide (o = Some g) then 1 else 0) + (if decide (o' = Some g) then 1 else 0).
Proof.
  unfold fd_count. revert fd. induction l as [|x l IH]; intros [|fd] Hl; simplify_eq/=.
  - rewrite !filter_cons. repeat case_decide; simpl; lia.
  - specialize (IH fd Hl). rewrite !filter_cons. repeat case_decide; simpl in *; lia.
Qed.

Lemma fd_count_pos l fd f : l !! fd = Some (Some f) -> 1 <= fd_count l f.
Proof.
  intros Hl. pose proof (fd_count_insert l fd (Some f) None f Hl) as H. rewrite decide_True, decide_False in H by done.
  unfold fd_count in *. lia.
Qed.

Lemma fd_count_nonneg l f : 0 <= fd_count l f.
Proof. unfold fd_count. lia. Qed.

Section fds.
Context (t : nat -> file) (l : list (option nat)).

(** The count of [f] changes by [d]. *)
Lemma fds_ref others f x d :
  fds_ok others t l -> f_ref x = f_ref (t f) + d -> (f_ref x = 0 -> f_type x = FD_NONE) ->
  (f_type x = FD_NONE -> f_type (t f) = FD_NONE \/ fd_count l f = 0) ->
  fds_ok (more others f d) (<[f := x]> t) l.
Proof.
  intros [Hl Hr Hc Hf Ht] Ex Hx Hn. split; try done.
  - intros g Hg. unfold more. destruct (decide (g = f)) as [->|].
    + rewrite fn_lookup_insert, bump_eq, Ex, (Hc f Hg). lia.
    + rewrite fn_lookup_insert_ne, bump_ne, (Hc g Hg) by done. lia.
  - intros g Hg. destruct (decide (g = f)) as [->|]; [by rewrite fn_lookup_insert|].
    rewrite fn_lookup_insert_ne by done. by apply Hf.
  - intros fd g Hfd. destruct (decide (g = f)) as [->|]; [|rewrite fn_lookup_insert_ne by done; by eapply Ht].
    rewrite fn_lookup_insert. intros Ex'. destruct (Hn Ex') as [H|H]; [by apply (Ht fd f)|].
    pose proof (fd_count_pos _ _ _ Hfd). lia.
Qed.

(** Descriptor [fd] changes. *)
Lemma fds_insert others fd o o' :
  fds_ok others t l -> l !! fd = Some o -> (forall f, o' = Some f -> (f < NFILEn)%nat /\ f_type (t f) <> FD_NONE) ->
  fds_ok (fun g => others g + (if decide (o = Some g) then 1 else 0) - (if decide (o' = Some g) then 1 else 0))
         t (<[fd := o']> l).
Proof.
  intros [Hl Hr Hc Hf Ht] Ho Hb. split; try done.
  - by rewrite length_insert.
  - intros fd' f Hfd. apply list_lookup_insert_Some in Hfd as [(<- & -> & _)|[_ H]]; [by apply Hb|by eapply Hr].
  - intros f Hlt. rewrite (fd_count_insert _ _ _ _ _ Ho), (Hc f Hlt). lia.
  - intros fd' f Hfd. apply list_lookup_insert_Some in Hfd as [(<- & -> & _)|[_ H]]; [by apply Hb|by eapply Ht].
Qed.

Lemma fds_others others others' :
  fds_ok others t l -> (forall f, others f = others' f) -> fds_ok others' t l.
Proof. intros [Hl Hr Hc Hf Ht] He. split; try done. intros f Hlt. rewrite <- He. by apply Hc. Qed.

(** A file changes, not its count and type. *)
Lemma fds_same others f x :
  fds_ok others t l -> f_ref x = f_ref (t f) -> f_type x = f_type (t f) -> fds_ok others (<[f := x]> t) l.
Proof.
  intros [Hl Hr Hc Hf Ht] E1 E2.
  assert (E : forall g, f_ref (<[f := x]> t g) = f_ref (t g) /\ f_type (<[f := x]> t g) = f_type (t g)).
  { intros g. destruct (decide (g = f)) as [->|]; [by rewrite fn_lookup_insert|by rewrite fn_lookup_insert_ne]. }
  split; try done.
  - intros g Hg. destruct (E g) as [-> _]. by apply Hc.
  - intros g Hg. destruct (E g) as [-> ->]. by apply Hf.
  - intros fd g Hfd. destruct (E g) as [_ ->]. by eapply Ht.
Qed.

Lemma fds_used others fd f :
  fds_ok others t l -> 0 <= others f -> l !! fd = Some (Some f) -> (f < NFILEn)%nat /\ 1 <= f_ref (t f).
Proof.
  intros [Hl Hr Hc Hf Ht] Ho Hfd. pose proof (Hr _ _ Hfd). split; [done|].
  rewrite Hc by done. pose proof (fd_count_pos _ _ _ Hfd). lia.
Qed.
End fds.

(** * Ends of pipes *)

Lemma pipe_end_insert_ne t f x g pi w : g <> f -> pipe_end_of (<[f := x]> t) g pi w <-> pipe_end_of t g pi w.
Proof. intros. unfold pipe_end_of. by rewrite !fn_lookup_insert_ne. Qed.

(** A file that is no end before and after. *)
Lemma pipe_end_other t f x g pi w :
  f_type (t f) <> FD_PIPE -> f_type x <> FD_PIPE ->
  pipe_end_of (<[f := x]> t) g pi w <-> pipe_end_of t g pi w.
Proof.
  intros H1 H2. destruct (decide (g = f)) as [->|]; [|by apply pipe_end_insert_ne].
  unfold pipe_end_of. rewrite !fn_lookup_insert. naive_solver.
Qed.

(** Another count, still not zero. *)
Lemma pipe_end_ref t f r g pi w :
  f_ref (t f) <> 0 -> r <> 0 ->
  pipe_end_of (<[f := set_f_ref r (t f)]> t) g pi w <-> pipe_end_of t g pi w.
Proof.
  intros H1 H2. destruct (decide (g = f)) as [->|]; [|by apply pipe_end_insert_ne].
  unfold pipe_end_of. rewrite !fn_lookup_insert. simpl. naive_solver.
Qed.

Lemma pipes_ok_ext t t' pipes free :
  (forall f pi w, pipe_end_of t' f pi w <-> pipe_end_of t f pi w) -> pipes_ok t pipes free -> pipes_ok t' pipes free.
Proof.
  intros E [H1 H2 H3 H4 H5 H6]. split; try done.
  - intros f pi w. rewrite E. apply H1.
  - intros f g pi w. rewrite !E. apply H2.
  - intros pi p w Hp Ho. destruct (H3 pi p w Hp Ho) as [f Hf]. exists f. by apply E.
Qed.

(** The content of a pipe changes. *)
Lemma pipes_ok_data t pipes free pi p p' :
  pipes_ok t pipes free -> pipes !! pi = Some p -> (forall w, p_open w p' = p_open w p) ->
  pipes_ok t (<[pi := p']> pipes) free.
Proof.
  intros [H1 H2 H3 H4 H5 H6] Hp Ho. split; try done.
  - intros f pj w He. destruct (H1 f pj w He) as (q & Hq & Hw). destruct (decide (pj = pi)) as [->|].
    + exists p'. rewrite lookup_insert_eq, Ho. naive_solver.
    + exists q. by rewrite lookup_insert_ne.
  - intros pj q w. destruct (decide (pj = pi)) as [->|].
    + rewrite lookup_insert_eq. intros [= <-]. rewrite Ho. by apply H3.
    + rewrite lookup_insert_ne by done. apply H3.
  - intros pj q. destruct (decide (pj = pi)) as [->|].
    + rewrite lookup_insert_eq. intros [= <-]. rewrite !Ho. by apply (H4 pi).
    + rewrite lookup_insert_ne by done. apply H4.
  - intros pj Hj. rewrite lookup_insert_None. split; [by apply H5|]. intros ->. by rewrite (H5 pj Hj) in Hp.
Qed.

Lemma p_open_close w w' p : p_open w' (pipeclose_pipe w p).1 = if decide (w' = w) then false else p_open w' p.
Proof. by destruct w, w'. Qed.
Lemma close_free w p : (pipeclose_pipe w p).2 = negb (p_open (negb w) p).
Proof. destruct w, p as [? ? ? [] []]; done. Qed.

(** The file of end [w] of [pi] goes away. *)
Lemma pipes_ok_close t pipes free f pi w p x :
  pipes_ok t pipes free -> pipe_end_of t f pi w -> pipes !! pi = Some p -> f_type x <> FD_PIPE ->
  let pipes' := <[pi := (pipeclose_pipe w p).1]> pipes in
  if (pipeclose_pipe w p).2 then pipes_ok (<[f := x]> t) (delete pi pipes') (pi :: free)
  else pipes_ok (<[f := x]> t) pipes' free.
Proof.
  intros [H1 H2 H3 H4 H5 H6] Hf Hp Hx pipes'. rewrite close_free.
  assert (Hgone : forall pj w', ~ pipe_end_of (<[f := x]> t) f pj w').
  { intros pj w' He. unfold pipe_end_of in He. rewrite fn_lookup_insert in He. naive_solver. }
  assert (Hends : forall g pj w', pipe_end_of (<[f := x]> t) g pj w' -> pipe_end_of t g pj w' /\ (pj = pi -> w' <> w)).
  { intros g pj w' He. assert (g <> f) by (intros ->; by eapply Hgone). apply pipe_end_insert_ne in He; [|done].
    split; [done|]. intros -> ->. by apply (H2 g f) in He. }
  assert (Hback : forall g pj w', pipe_end_of t g pj w' -> (pj = pi -> w' <> w) -> pipe_end_of (<[f := x]> t) g pj w').
  { intros g pj w' He Hne. apply pipe_end_insert_ne; [|done]. intros ->. unfold pipe_end_of in *. naive_solver. }
  assert (Hone : forall g h pj w', pipe_end_of (<[f := x]> t) g pj w' -> pipe_end_of (<[f := x]> t) h pj w' -> g = h).
  { intros g h pj w' [Hg _]%Hends [Hh _]%Hends. by eapply H2. }
  assert (Hpg : pi ∉ free) by (intros H%H5; congruence).
  destruct (p_open (negb w) p) eqn:Eo; simpl.
  - split; try done.
    + intros g pj w' [He Hne]%Hends. destruct (H1 _ _ _ He) as (q & Hq & Hw). destruct (decide (pj = pi)) as [->|].
      * eexists. unfold pipes'. split; [apply lookup_insert_eq|]. rewrite p_open_close, decide_False by auto. congruence.
      * exists q. unfold pipes'. by rewrite lookup_insert_ne.
    + intros pj q w'. unfold pipes'. destruct (decide (pj = pi)) as [->|].
      * rewrite lookup_insert_eq. intros <-%(inj Some). rewrite p_open_close. case_decide; [done|]. intros Ho.
        destruct (H3 pi p w' Hp Ho) as [g Hg]. exists g. by apply Hback.
      * rewrite lookup_insert_ne by done. intros Hq Ho. destruct (H3 pj q w' Hq Ho) as [g Hg]. exists g. by apply Hback.
    + intros pj q. unfold pipes'. destruct (decide (pj = pi)) as [->|].
      * rewrite lookup_insert_eq. intros [= <-]. by destruct w, p as [? ? ? [] []].
      * rewrite lookup_insert_ne by done. apply H4.
    + intros pj Hj. unfold pipes'. rewrite lookup_insert_ne; [by apply H5|]. by intros ->.
  - unfold pipes'. rewrite delete_insert_eq. split; try done.
    + intros g pj w' [He Hne]%Hends. destruct (H1 _ _ _ He) as (q & Hq & Hw). exists q. split; [|done].
      apply lookup_delete_Some. split; [|done]. intros <-. specialize (Hne eq_refl). destruct w, w'; simpl in *; congruence.
    + intros pj q w' [Hj Hq]%lookup_delete_Some Ho. destruct (H3 pj q w' Hq Ho) as [g Hg]. exists g. apply Hback; [done|]. by intros ->.
    + intros pj q [Hj Hq]%lookup_delete_Some. by eapply H4.
    + intros pj [->|Hj]%elem_of_cons; [by rewrite lookup_delete_eq|]. apply lookup_delete_None. right. by apply H5.
    + by constructor.
Qed.

(** A pipe and the files of its two ends are made. *)
Lemma pipes_ok_new t pipes free a b xa xb pi p :
  pipes_ok t pipes (pi :: free) -> a <> b -> (a < NFILEn)%nat -> (b < NFILEn)%nat ->
  f_type (t a) <> FD_PIPE -> f_type (t b) <> FD_PIPE -> p_open false p = true -> p_open true p = true ->
  f_type xa = FD_PIPE /\ f_ref xa <> 0 /\ f_pipe xa = pi /\ f_writable xa = false ->
  f_type xb = FD_PIPE /\ f_ref xb <> 0 /\ f_pipe xb = pi /\ f_writable xb = true ->
  pipes_ok (<[b := xb]> (<[a := xa]> t)) (<[pi := p]> pipes) free.
Proof.
  intros [H1 H2 H3 H4 H5 H6] Hab Ha Hb Ta Tb Pr Pw Xa Xb.
  assert (Hfree : pipes !! pi = None) by (apply H5; constructor).
  apply NoDup_cons in H6 as [Hpi H6].
  assert (E : forall f pj w, pipe_end_of (<[b := xb]> (<[a := xa]> t)) f pj w <->
    (pj = pi /\ f = (if w then b else a)) \/ (pj <> pi /\ pipe_end_of t f pj w)).
  { intros f pj w. assert (Hn : pipe_end_of t f pj w -> pj <> pi /\ f <> a /\ f <> b).
    { intros He. split; [intros ->; destruct (H1 _ _ _ He) as (? & ? & ?); congruence|].
      destruct He as (_ & _ & Ht & _). split; intros ->; congruence. }
    destruct Xa as (Xa1 & Xa2 & Xa3 & Xa4), Xb as (Xb1 & Xb2 & Xb3 & Xb4).
    destruct (decide (f = b)) as [->|Hfb]; [|rewrite pipe_end_insert_ne by done; destruct (decide (f = a)) as [->|Hfa]].
    3: { rewrite pipe_end_insert_ne by done. split; [|intros [[_ ->]|[_ He]]; [by destruct w|done]].
         intros He. right. by destruct (Hn He). }
    all: split; [intros (_ & _ & _ & Ep & Ew); rewrite fn_lookup_insert in Ep, Ew; left; split; [congruence|]; by rewrite <- Ew, ?Xa4, ?Xb4|].
    all: intros [[-> Ef]|[Hj He]]; [|by destruct (Hn He) as (_ & ? & ?)].
    all: unfold pipe_end_of; rewrite !fn_lookup_insert; destruct w; first [by auto | congruence]. }
  split; try done.
  - intros f pj w [[-> ->]|[Hj He]]%E; [exists p; rewrite lookup_insert_eq; by destruct w|].
    rewrite lookup_insert_ne by done. by eapply H1.
  - intros f g pj w [[-> ->]|[Hj He]]%E [[? ->]|[Hj' He']]%E; try done. by eapply H2.
  - intros pj q w Hq Ho. destruct (decide (pj = pi)) as [->|Hj].
    + exists (if w then b else a). apply E. by left.
    + rewrite lookup_insert_ne in Hq by done. destruct (H3 pj q w Hq Ho) as [f Hf]. exists f. apply E. by right.
  - intros pj q. destruct (decide (pj = pi)) as [->|Hj].
    + rewrite lookup_insert_eq. intros [= <-]. by rewrite Pr.
    + rewrite lookup_insert_ne by done. apply H4.
  - intros pj Hj. rewrite lookup_insert_ne by (by intros ->). apply H5. by right.
Qed.

(** * Operations on open files *)

Section ops.
Context {U : Type} `{!UserMem U}.
Context (dev_rd dev_wr : Z -> option (Z -> Z -> K U Z)).
(** The device functions leave open files alone. *)
Context (dev_rd_ok : forall m f a n, dev_rd m = Some f -> fsop (f a n))
        (dev_wr_ok : forall m f a n, dev_wr m = Some f -> fsop (f a n)).
Context (junk : Z -> Z) (pad name stk : bytes).

Implicit Types (others : nat -> Z) (k : kst U).

(** [m] keeps [Q]-states: total but for the stops of the file system below. *)
Definition post {A} (Q : A -> kst U -> Prop) (m : K U A) (k : kst U) : Prop := runs (fun _ x k' => Q x k') m k.

Lemma post_bind {A B} (P : A -> kst U -> Prop) (Q : B -> kst U -> Prop) (m : K U A) (f : A -> K U B) k :
  post P m k -> (forall x k', P x k' -> post Q (f x) k') -> post Q (m ≫= f) k.
Proof. intros Hm Hf. by eapply runs_bind; [apply Hm|]. Qed.
Lemma post_mono {A} (P Q : A -> kst U -> Prop) (m : K U A) k :
  post P m k -> (forall x k', P x k' -> Q x k') -> post Q m k.
Proof. intros Hm HPQ. eapply runs_mono; [apply Hm|]. naive_solver. Qed.
Lemma post_ret {A} (Q : A -> kst U -> Prop) x k : Q x k -> post Q (mret x) k.
Proof. by intros H a. Qed.
Lemma post_pure {A B} (Q : B -> kst U -> Prop) x (f : A -> K U B) k : post Q (f x) k -> post Q (mret x ≫= f) k.
Proof. intros H a. rewrite krun_bind. apply H. Qed.
Lemma post_get {A B} (Q : B -> kst U -> Prop) (g : kst U -> A) (f : A -> K U B) k :
  post Q (f (g k)) k -> post Q (kget g ≫= f) k.
Proof. intros H a. rewrite krun_bind. apply H. Qed.
Lemma post_mod {B} (Q : B -> kst U -> Prop) (g : kst U -> kst U) (f : unit -> K U B) k :
  post Q (f tt) (g k) -> post Q (kmod g ≫= f) k.
Proof. intros H a. rewrite krun_bind. apply H. Qed.
Lemma post_assoc {A B C} (Q : C -> kst U -> Prop) (m : K U A) (f : A -> K U B) (g : B -> K U C) k :
  post Q (m ≫= (fun x => f x ≫= g)) k -> post Q ((m ≫= f) ≫= g) k.
Proof.
  intros H a. unfold post, runs in H. specialize (H a). rewrite krun_bind in H. rewrite !krun_bind.
  destruct (krun m k a) as [[[x k'] a']| | | |]; try done.
  simpl in *. by rewrite krun_bind in H.
Qed.

(** The invariant only reads what the file system leaves alone. *)
Lemma files_ok_frame others k k' : frame k k' -> files_ok others k -> files_ok others k'.
Proof. intros [E1 E2 _ E4]. unfold files_ok. by rewrite E1, E2, E4. Qed.

Lemma post_fsop {A} others (m : K U A) k :
  fsop m -> files_ok others k -> post (fun _ => files_ok others) m k.
Proof. intros Hm Hk. eapply runs_mono; [apply Hm|]. intros x k'. simpl. intros. by eapply files_ok_frame. Qed.

Lemma files_ok_others others others' k :
  files_ok others k -> (forall f, others f = others' f) -> files_ok others' k.
Proof. intros [H1 H2] He. split; [by eapply fds_others|done]. Qed.

Lemma find_file_Some n i t f :
  find_file n i t = Some f -> (i <= f < i + n)%nat /\ f_ref (t f) = 0 /\ forall g, (i <= g < f)%nat -> f_ref (t g) <> 0.
Proof.
  revert i. induction n as [|n IH]; intros i; simpl; [done|].
  destruct (Z.eqb_spec (f_ref (t i)) 0) as [E|E].
  - intros [= <-]. repeat split; auto; lia.
  - intros H. apply IH in H as (Hb & H0 & Hg). split; [lia|]. split; [done|].
    intros g Hgf. destruct (decide (g = i)) as [->|]; [done|]. apply Hg. lia.
Qed.

Lemma find_file_None n i t : find_file n i t = None -> forall g, (i <= g < i + n)%nat -> f_ref (t g) <> 0.
Proof.
  revert i. induction n as [|n IH]; intros i; simpl; [lia|].
  destruct (Z.eqb_spec (f_ref (t i)) 0); [done|]. intros H g Hg.
  destruct (decide (g = i)) as [->|]; [done|]. apply (IH _ H). lia.
Qed.

(** What [filealloc] leaves when it finds a slot. *)
Definition with_file (f : nat) (x : file) (k : kst U) : kst U := set_k_ftable (<[f := x]> (k_ftable k)) k.

Lemma post_filealloc {B} others (f : option nat -> K U B) Q k :
  files_ok others k ->
  (forall i, (i < NFILEn)%nat -> f_ref (k_ftable k i) = 0 -> f_type (k_ftable k i) = FD_NONE ->
     files_ok (more others i 1) (with_file i (set_f_ref 1 (k_ftable k i)) k) ->
     post Q (f (Some i)) (with_file i (set_f_ref 1 (k_ftable k i)) k)) ->
  post Q (f None) k ->
  post Q (filealloc ≫= f) k.
Proof.
  intros [H1 H2] Hs Hn. unfold filealloc. apply post_assoc, post_get.
  destruct (find_file NFILEn 0 (k_ftable k)) as [i|] eqn:E.
  - apply find_file_Some in E as (Hi & H0 & _). apply post_assoc, post_mod.
    assert (Ht : f_type (k_ftable k i) = FD_NONE) by (apply (ok_free _ _ _ H1); [lia|done]).
    apply (post_bind (fun x k' => x = Some i /\ k' = with_file i (set_f_ref 1 (k_ftable k i)) k));
      [by apply post_ret|]. intros x k' [-> ->]. apply Hs; [lia|done..|]. split; simpl.
    + apply (fds_ref _ _ _ _ _ 1 H1); simpl; [lia|done|by left].
    + eapply pipes_ok_ext; [|exact H2]. intros g pi w. apply pipe_end_other; simpl; by rewrite Ht.
  - by apply (post_bind (fun x k' => x = None /\ k' = k)); [apply post_ret|intros x k' [-> ->]].
Qed.

Lemma files_ok_ref others k f d :
  files_ok others k -> 1 <= f_ref (k_ftable k f) -> 1 <= f_ref (k_ftable k f) + d ->
  files_ok (more others f d) (with_file f (set_f_ref (f_ref (k_ftable k f) + d) (k_ftable k f)) k).
Proof.
  intros [H1 H2] Hr Hd. split; simpl.
  - apply fds_ref; simpl; [done|done|lia|by left].
  - eapply pipes_ok_ext; [|exact H2]. intros g pi w. apply pipe_end_ref; lia.
Qed.

Lemma post_filedup others k f :
  files_ok others k -> 1 <= f_ref (k_ftable k f) -> post (fun _ => files_ok (more others f 1)) (filedup f) k.
Proof.
  intros Hk Hr. unfold filedup. apply post_get. rewrite (proj2 (Z.ltb_ge _ _)) by done.
  apply post_mod, post_ret. apply (files_ok_ref _ _ _ 1); [done|done|lia].
Qed.

(** Only the values of the table count. *)
Lemma files_ok_table others k t t' :
  files_ok others (set_k_ftable t k) -> (forall g, t' g = t g) -> files_ok others (set_k_ftable t' k).
Proof.
  intros [[H1 H2 H3 H4 Ht] H5] He. split; simpl in *.
  - split; try done; try (intros g Hg; rewrite He; by auto). intros fd g Hfd. rewrite He. by eapply Ht.
  - eapply pipes_ok_ext; [|exact H5]. intros g pi w. unfold pipe_end_of. by rewrite He.
Qed.

Lemma fn_insert_twice (t : nat -> file) f x y g : <[f := x]> (<[f := y]> t) g = <[f := x]> t g.
Proof. destruct (decide (g = f)) as [->|]; [by rewrite !fn_lookup_insert|by rewrite !fn_lookup_insert_ne]. Qed.

(** The last reference goes away. *)
Definition closed_file (x : file) : file := set_f_type FD_NONE (set_f_ref 0 x).

Lemma fds_close others k f :
  fds_ok others (k_ftable k) (k_ofile k) -> (f < NFILEn)%nat -> 1 <= others f -> f_ref (k_ftable k f) = 1 ->
  fds_ok (more others f (-1)) (<[f := closed_file (k_ftable k f)]> (k_ftable k)) (k_ofile k).
Proof.
  intros H Hf Ho Hr. apply fds_ref; [done|simpl; lia|done|]. intros _. right.
  pose proof (ok_refs _ _ _ H f Hf). pose proof (fd_count_nonneg (k_ofile k) f). lia.
Qed.

Lemma files_ok_close others k f :
  files_ok others k -> (f < NFILEn)%nat -> 1 <= others f -> f_ref (k_ftable k f) = 1 ->
  f_type (k_ftable k f) <> FD_PIPE ->
  files_ok (more others f (-1)) (with_file f (closed_file (k_ftable k f)) k).
Proof.
  intros [H1 H2] Hf Ho Hr Ht. split; simpl; [by apply fds_close|].
  eapply pipes_ok_ext; [|exact H2]. intros g pi w. by apply pipe_end_other.
Qed.

Lemma post_kpipe {B} (Q : B -> kst U -> Prop) pi p (f : pipe -> K U B) k :
  x_pipes (k_ext k) !! pi = Some p -> post Q (f p) k -> post Q (kpipe pi ≫= f) k.
Proof. intros Hp H. unfold kpipe. apply post_assoc, post_get. rewrite Hp. intros a. apply H. Qed.

(** Closing the last reference to an end of a pipe; [k1] is the state
    [fileclose] has reached when it calls [pipeclose]. *)
Lemma post_pipeclose others k t f :
  files_ok others k -> (f < NFILEn)%nat -> 1 <= others f -> f_ref (k_ftable k f) = 1 ->
  f_type (k_ftable k f) = FD_PIPE ->
  (forall g, t g = <[f := closed_file (k_ftable k f)]> (k_ftable k) g) ->
  post (fun _ => files_ok (more others f (-1))) (pipeclose (f_pipe (k_ftable k f)) (f_writable (k_ftable k f)))
    (set_k_ftable t k).
Proof.
  intros [H1 H2] Hf Hoth Hr Ht Hg. set (pi := f_pipe (k_ftable k f)). set (w := f_writable (k_ftable k f)).
  assert (He : pipe_end_of (k_ftable k) f pi w) by (unfold pipe_end_of; rewrite Hr; auto).
  destruct (ok_end _ _ _ H2 _ _ _ He) as (p & Hp & Hw).
  pose proof (pipes_ok_close _ _ _ f pi w p (closed_file (k_ftable k f)) H2 He Hp ltac:(done)) as H3. cbv zeta in H3.
  unfold pipeclose. apply (post_kpipe _ _ p); [done|].
  destruct (pipeclose_pipe w p) as [p' fr]. apply post_mod. simpl in H3.
  assert (Hfds : forall x, files_ok (more others f (-1)) (set_k_ext x (with_file f (closed_file (k_ftable k f)) k)) ->
    files_ok (more others f (-1)) (set_k_ext x (set_k_ftable t k))).
  { intros x Hx. by apply (files_ok_table _ (set_k_ext x k) _ t Hx). }
  destruct fr; [apply post_mod, (post_mono (fun _ => files_ok (more others f (-1)))); [|done]; intros a; simpl|apply post_ret].
  all: apply Hfds; split; [exact (fds_close _ _ _ H1 Hf Hoth Hr)|exact H3].
Qed.

Lemma post_fileclose others k f :
  files_ok others k -> (f < NFILEn)%nat -> 1 <= others f ->
  post (fun _ => files_ok (more others f (-1))) (fileclose f) k.
Proof.
  intros Hk Hf Ho. assert (Hr : 1 <= f_ref (k_ftable k f)).
  { destruct Hk as [Hk _]. rewrite (ok_refs _ _ _ Hk f Hf). pose proof (fd_count_nonneg (k_ofile k) f). lia. } unfold fileclose. apply post_get. rewrite (proj2 (Z.ltb_ge _ _)) by done.
  apply post_mod. destruct (Z.gtb_spec (f_ref (k_ftable k f) - 1) 0) as [Hgt|Hle].
  { apply post_ret. apply (files_ok_ref _ _ _ (-1)); [done|done|lia]. }
  assert (E1 : f_ref (k_ftable k f) = 1) by lia.
  apply post_get, post_mod, post_mod. simpl.
  set (t := <[f := set_f_type FD_NONE _]> _).
  assert (Ht : forall g, t g = <[f := closed_file (k_ftable k f)]> (k_ftable k) g).
  { intros g. unfold t. rewrite !fn_lookup_insert, !fn_insert_twice. done. }
  rewrite !fn_lookup_insert. simpl.
  destruct (f_type (k_ftable k f)) eqn:Et.
  - apply post_ret. eapply (files_ok_table _ k); [|exact Ht]. apply files_ok_close; [done..|by rewrite Et].
  - by apply (post_pipeclose others k t f).
  - apply post_fsop; [fsop|]. eapply (files_ok_table _ k); [|exact Ht]. apply files_ok_close; [done..|by rewrite Et].
  - apply post_fsop; [fsop|]. eapply (files_ok_table _ k); [|exact Ht]. apply files_ok_close; [done..|by rewrite Et].
Qed.

(** ** Pipes and inodes: reading and writing keep the invariant *)

Lemma pipewrite_loop_open fuel killed src n i p w : p_open w (pipewrite_loop fuel killed src n i p).1 = p_open w p.
Proof.
  revert i p. induction fuel as [|fuel IH]; intros i p; simpl; [done|].
  repeat (case_match; simpl; try done). rewrite IH. by destruct w.
Qed.

Lemma files_ok_pipe others k pi p p' :
  files_ok others k -> x_pipes (k_ext k) !! pi = Some p -> (forall w, p_open w p' = p_open w p) ->
  files_ok others (set_k_ext (set_x_pipes (<[pi := p']> (x_pipes (k_ext k))) (k_ext k)) k).
Proof. intros [H1 H2] Hp Ho. split; simpl; [done|]. by eapply pipes_ok_data. Qed.

Lemma post_undef {A} (Q : A -> kst U -> Prop) k : post Q kundef k.
Proof. done. Qed.

Lemma post_pipewrite others k pi addr n : files_ok others k -> post (fun _ => files_ok others) (pipewrite pi addr n) k.
Proof.
  intros Hk. unfold pipewrite. destruct (x_pipes (k_ext k) !! pi) as [p|] eqn:Hp.
  - apply (post_kpipe _ _ p); [done|]. apply post_get, post_get.
    pose proof (pipewrite_loop_open (Z.to_nat (n - 0)) (x_killed (k_ext k)) (user_byte (k_mem k) addr) n 0 p) as Ho.
    unfold pipewrite_run. destruct (pipewrite_loop _ _ _ _ _ _) as [p' e]. apply post_mod.
    destruct e; [|done]. apply post_ret. by eapply files_ok_pipe.
  - unfold kpipe. apply post_assoc, post_get. by rewrite Hp.
Qed.

Lemma post_piperead_copy others fuel pi addr i k :
  files_ok others k -> post (fun _ => files_ok others) (piperead_copy fuel pi addr i) k.
Proof.
  revert i k. induction fuel as [|fuel IH]; intros i k Hk; simpl; [by apply post_ret|].
  destruct (x_pipes (k_ext k) !! pi) as [p|] eqn:Hp.
  - apply (post_kpipe _ _ p); [done|]. destruct (_ =? _); [by apply post_ret|]. apply post_mod, post_get.
    destruct (copyout _ _ _) as [u ok]. apply post_mod.
    assert (files_ok others (set_k_mem u (set_k_ext (set_x_pipes (<[pi := set_p_nread (u32 (p_nread p + 1)) p]>
      (x_pipes (k_ext k))) (k_ext k)) k))).
    { apply (files_ok_pipe _ _ _ p); [done..|]. by intros []. }
    destruct ok; [by apply IH|by apply post_ret].
  - unfold kpipe. apply post_assoc, post_get. by rewrite Hp.
Qed.

Lemma post_piperead others k pi addr n : files_ok others k -> post (fun _ => files_ok others) (piperead pi addr n) k.
Proof.
  intros Hk. unfold piperead. destruct (x_pipes (k_ext k) !! pi) as [p|] eqn:Hp.
  - apply (post_kpipe _ _ p); [done|]. apply post_get. destruct (_ && _).
    + destruct (x_killed _); [by apply post_ret|done].
    + by apply post_piperead_copy.
  - unfold kpipe. apply post_assoc, post_get. by rewrite Hp.
Qed.

(** The offset of a file is not part of the invariant. *)
Lemma files_ok_off others k f g :
  files_ok others k -> files_ok others (with_file f (set_f_off g (k_ftable k f)) k).
Proof.
  intros [H1 H2]. split; simpl.
  - by apply fds_same.
  - eapply pipes_ok_ext; [|exact H2]. intros h pi w. unfold pipe_end_of.
    destruct (decide (h = f)) as [->|]; [by rewrite !fn_lookup_insert|by rewrite !fn_lookup_insert_ne].
Qed.

Lemma post_fsop_bind {A B} others (Q : B -> kst U -> Prop) (m : K U A) (f : A -> K U B) k :
  fsop m -> files_ok others k -> (forall x k', frame k k' -> files_ok others k' -> post Q (f x) k') ->
  post Q (m ≫= f) k.
Proof.
  intros Hm Hk Hf. eapply runs_bind; [apply Hm|]. intros x k' Hfr. exact (Hf x k' Hfr (files_ok_frame _ _ _ Hfr Hk)).
Qed.

Lemma post_off {B} others (Q : B -> kst U -> Prop) (b : bool) f g (h : unit -> K U B) k :
  files_ok others k -> (forall k', k_ofile k' = k_ofile k -> files_ok others k' -> post Q (h tt) k') ->
  post Q ((if b then fmod f (fun x => set_f_off (g x) x) else mret tt) ≫= h) k.
Proof.
  intros Hk Hh. destruct b; [apply post_mod, Hh; [done|by apply files_ok_off]|].
  apply (post_bind (fun _ k' => k' = k)); [by apply post_ret|]. intros [] k' ->. by apply Hh.
Qed.

Lemma post_fileread others k f addr n :
  files_ok others k -> f_type (k_ftable k f) <> FD_NONE ->
  post (fun _ => files_ok others) (fileread dev_rd f addr n) k.
Proof using All.
  intros Hk Ht. unfold fileread. apply post_get. destruct (negb _); [by apply post_ret|].
  destruct (f_type _) eqn:Et; [done|..].
  - by apply post_piperead.
  - apply (post_fsop_bind others); [fsop|done|]. intros _ k1 _ Hk1.
    apply (post_fsop_bind others); [fsop|done|]. intros r k2 _ Hk2.
    apply (post_off others); [done|]. intros k3 _ Hk3.
    apply post_fsop; [fsop|done].
  - destruct (negb _); [by apply post_ret|].
    destruct (dev_rd _) eqn:Ed; [|by apply post_ret]. apply post_fsop; [by apply (dev_rd_ok _ _ _ _ Ed)|done].
Qed.

Lemma post_filewrite_loop others f addr n fuel i k :
  files_ok others k -> n - i <= WRITE_MAX * (Z.of_nat fuel - 1) -> (0 < fuel)%nat ->
  post (fun _ => files_ok others) (filewrite_loop fuel f addr n i) k.
Proof.
  revert i k. induction fuel as [|fuel IH]; intros i k Hk Hn Hf; [lia|]. cbn [filewrite_loop].
  destruct (Z.ltb_spec i n) as [Hlt|]; [|by apply post_ret]. cbv zeta.
  apply (post_fsop_bind others); [fsop|done|]. intros _ k1 _ Hk1. apply post_get.
  apply (post_fsop_bind others); [fsop|done|]. intros _ k2 _ Hk2.
  apply (post_fsop_bind others); [fsop|done|]. intros r k3 _ Hk3.
  apply (post_off others); [done|]. intros k4 _ Hk4.
  apply (post_fsop_bind others); [fsop|done|]. intros _ k5 _ Hk5.
  apply (post_fsop_bind others); [fsop|done|]. intros _ k6 _ Hk6.
  destruct (Z.eqb_spec r (Z.min (n - i) WRITE_MAX)) as [->|]; [|by apply post_ret]. simpl.
  change WRITE_MAX with 3072 in *. apply IH; [done|lia|]. destruct fuel; [lia|lia].
Qed.

Lemma post_filewrite others k f addr n :
  files_ok others k -> f_type (k_ftable k f) <> FD_NONE ->
  post (fun _ => files_ok others) (filewrite dev_wr f addr n) k.
Proof using All.
  intros Hk Ht. unfold filewrite. apply post_get. destruct (negb _); [by apply post_ret|].
  destruct (f_type _) eqn:Et; [done|..].
  - by apply post_pipewrite.
  - eapply post_bind; [apply (post_filewrite_loop others); [done| |lia]|].
    + change WRITE_MAX with 3072. pose proof (Z.div_mod n 3072 ltac:(lia)). pose proof (Z.mod_pos_bound n 3072 ltac:(lia)). lia.
    + intros r k' Hk'. by apply post_ret.
  - destruct (negb _); [by apply post_ret|].
    destruct (dev_wr _) eqn:Ed; [|by apply post_ret]. apply post_fsop; [by apply (dev_wr_ok _ _ _ _ Ed)|done].
Qed.

Lemma post_filestat others k f addr :
  files_ok others k -> post (fun _ => files_ok others) (filestat pad f addr) k.
Proof. intros Hk. unfold filestat. apply post_get. destruct (f_type _); apply post_fsop; fsop; done. Qed.

(** ** Code that only calls the file system *)

Local Abbreviation nf := (fsop (U := U)).
Lemma nf_argraw n : nf (argraw n). Proof. unfold argraw. fsop. Qed.
#[local] Hint Resolve nf_argraw : fsop.
Lemma nf_argint n : nf (argint n). Proof. unfold argint. fsop. Qed.
Lemma nf_argstr n max : nf (argstr n max). Proof. unfold argstr, argaddr, fetchstr. fsop. Qed.
Lemma nf_fail_op : nf fail_op. Proof. unfold fail_op. fsop. Qed.
#[local] Hint Resolve nf_argint nf_argstr nf_fail_op : fsop.
Lemma nf_fail_put ip : nf (fail_put ip). Proof. unfold fail_put. fsop. Qed.
#[local] Hint Resolve nf_fail_put : fsop.
Lemma nf_link_bad ip : nf (link_bad ip). Proof. unfold link_bad. fsop. Qed.
Lemma nf_isdirempty dp : nf (isdirempty dp). Proof. unfold isdirempty, isdirempty_step. fsop. Qed.
Lemma nf_create_fail ip dp : nf (create_fail ip dp). Proof. unfold create_fail. fsop. Qed.
#[local] Hint Resolve nf_link_bad nf_isdirempty nf_create_fail : fsop.
Lemma nf_create path t ma mi : nf (create name path t ma mi). Proof. unfold create. fsop. Qed.
#[local] Hint Resolve nf_create : fsop.

Lemma nf_follow fuel omode depth ip :
  0 <= depth <= 9 -> 9 - depth < Z.of_nat fuel -> nf (follow name stk fuel omode depth ip).
Proof.
  revert depth ip. induction fuel as [|fuel IH]; intros depth ip Hd Hf; [lia|]. cbn [follow].
  apply fsop_bind; [fsop|]. intros x. destruct (negb _); [fsop|].
  destruct (Z.geb_spec depth 9); [fsop|].
  assert (IH' : forall ip, nf (follow name stk fuel omode (depth + 1) ip)) by (intros; apply IH; lia).
  fsop.
Qed.

Lemma nf_open_inode path omode : nf (open_inode name path omode). Proof. unfold open_inode. fsop. Qed.
Lemma nf_sys_link : nf (sys_link name). Proof. unfold sys_link. fsop. Qed.
Lemma nf_sys_unlink : nf (sys_unlink name). Proof. unfold sys_unlink. fsop. Qed.
Lemma nf_sys_mkdir : nf (sys_mkdir name). Proof. unfold sys_mkdir. fsop. Qed.
Lemma nf_sys_mknod : nf (sys_mknod name). Proof. unfold sys_mknod. fsop. Qed.
Lemma nf_sys_symlink : nf (sys_symlink name). Proof. unfold sys_symlink. fsop. Qed.
#[local] Hint Resolve nf_open_inode nf_sys_link nf_sys_unlink nf_sys_mkdir nf_sys_mknod nf_sys_symlink : fsop.

(** ** Descriptors *)

Lemma find_fd_Some l i fd :
  find_fd l i = Some fd ->
  i <= fd /\ l !! Z.to_nat (fd - i) = Some None /\ forall j, i <= j < fd -> exists f, l !! Z.to_nat (j - i) = Some (Some f).
Proof.
  revert i. induction l as [|[f|] l IH]; intros i; simpl; [done| |].
  - intros H. apply IH in H as (Hi & Hl & Hj). split; [lia|]. split.
    + by replace (Z.to_nat (fd - i)) with (S (Z.to_nat (fd - (i + 1)))) by lia.
    + intros j Hjf. destruct (decide (j = i)) as [->|]; [rewrite Z.sub_diag; by exists f|].
      destruct (Hj j ltac:(lia)) as [g Hg]. exists g. by replace (Z.to_nat (j - i)) with (S (Z.to_nat (j - (i + 1)))) by lia.
  - intros [= <-]. rewrite Z.sub_diag. repeat split; [lia|]. intros j Hj. lia.
Qed.

Lemma find_fd_None l i : find_fd l i = None -> forall o, o ∈ l -> o <> None.
Proof.
  revert i. induction l as [|[f|] l IH]; intros i; simpl; [by intros _ ? ?%elem_of_nil| |done].
  intros H o [->|Ho]%elem_of_cons; [done|]. by eapply IH.
Qed.

Lemma post_argfd {B} (Q : B -> kst U -> Prop) n (g : option (Z * nat) -> K U B) k :
  (forall fd f, 0 <= fd < NOFILE -> k_ofile k !! Z.to_nat fd = Some (Some f) -> post Q (g (Some (fd, f))) k) ->
  post Q (g None) k -> 0 <= n <= 5 -> post Q (argfd n ≫= g) k.
Proof.
  intros Hs Hn Hb. unfold argfd, argint, argraw.
  rewrite (proj2 (Z.leb_le 0 n)), (proj2 (Z.leb_le n 5)) by lia. simpl.
  apply post_assoc, post_assoc, post_get.
  set (fd := i32 _). apply post_pure.
  destruct ((fd <? 0) || (fd >=? NOFILE)) eqn:E; [exact (post_pure _ _ _ _ Hn)|]. apply post_assoc, post_get.
  destruct (k_ofile k !! Z.to_nat fd) as [[f|]|] eqn:El; [|apply post_pure, Hn..]. apply post_pure, Hs; [lia|done].
Qed.

Definition with_fd (fd : Z) (o : option nat) (k : kst U) : kst U :=
  set_k_ofile (<[Z.to_nat fd := o]> (k_ofile k)) k.

Lemma post_fdalloc {B} (Q : B -> kst U -> Prop) f (g : Z -> K U B) k :
  (forall fd, 0 <= fd -> k_ofile k !! Z.to_nat fd = Some None -> post Q (g fd) (with_fd fd (Some f) k)) ->
  post Q (g (-1)) k -> post Q (fdalloc f ≫= g) k.
Proof.
  intros Hs Hn. unfold fdalloc. apply post_assoc, post_get.
  destruct (find_fd (k_ofile k) 0) as [fd|] eqn:E; [|apply post_pure, Hn].
  apply find_fd_Some in E as (Hfd & Hl & _). rewrite Z.sub_0_r in Hl.
  apply post_assoc, post_mod, post_pure. by apply Hs.
Qed.

(** A descriptor is made for a file, or removed. *)
Lemma files_ok_set others k fd f :
  files_ok others k -> k_ofile k !! Z.to_nat fd = Some None -> (f < NFILEn)%nat -> f_type (k_ftable k f) <> FD_NONE ->
  files_ok (more others f (-1)) (with_fd fd (Some f) k).
Proof.
  intros [H1 H2] Hl Hf Ht. split; [|done]. simpl. eapply fds_others; [eapply fds_insert; [exact H1|exact Hl|]|].
  - by intros g [= <-].
  - intros g. unfold more, bump. simpl. repeat case_decide; simplify_eq; lia.
Qed.

Lemma files_ok_unset others k fd f :
  files_ok others k -> k_ofile k !! Z.to_nat fd = Some (Some f) ->
  files_ok (more others f 1) (with_fd fd None k).
Proof.
  intros [H1 H2] Hl. split; [|done]. simpl. eapply fds_others; [eapply fds_insert; [exact H1|exact Hl|]|].
  - done.
  - intros g. unfold more, bump. simpl. repeat case_decide; simplify_eq; lia.
Qed.

Lemma more_at others f d : more others f d f = others f + d.
Proof. unfold more. by rewrite bump_eq. Qed.
Lemma more_back others f d g : more (more others f d) f (- d) g = others g.
Proof. unfold more, bump. case_decide; lia. Qed.

(** ** System calls on descriptors *)

Lemma post_sys_dup others k : files_ok others k -> (forall f, 0 <= others f) -> post (fun _ => files_ok others) sys_dup k.
Proof.
  intros Hk Ho. apply post_argfd; [|by apply post_ret|lia]. intros fd f _ Hfd.
  destruct (fds_used _ _ _ _ _ (proj1 Hk) (Ho f) Hfd) as [Hf Hr].
  apply post_fdalloc; [|by apply post_ret]. intros fd' Hfd' Hl. rewrite (proj2 (Z.ltb_ge _ _)) by done.
  apply (post_bind (fun _ => files_ok others)); [|intros; by apply post_ret].
  eapply post_mono; [apply (post_filedup (more others f (-1)))|].
  - apply files_ok_set; try done. by apply (ok_typed _ _ _ (proj1 Hk) _ _ Hfd).
  - done.
  - intros x k' H. eapply files_ok_others; [exact H|]. apply (more_back _ _ (-1)).
Qed.

Lemma post_sys_close others k : files_ok others k -> (forall f, 0 <= others f) -> post (fun _ => files_ok others) sys_close k.
Proof.
  intros Hk Ho. apply post_argfd; [|by apply post_ret|lia]. intros fd f _ Hfd.
  destruct (fds_used _ _ _ _ _ (proj1 Hk) (Ho f) Hfd) as [Hf Hr]. specialize (Ho f).
  apply post_mod, (post_bind (fun _ => files_ok others)); [|intros; by apply post_ret].
  eapply post_mono; [apply (post_fileclose (more others f 1)); [by apply (files_ok_unset _ _ fd)|done|rewrite more_at; lia]|].
  intros x k' H. eapply files_ok_others; [exact H|]. apply (more_back _ _ 1).
Qed.

Lemma post_sys_rw others k : files_ok others k -> (forall f, 0 <= others f) ->
  post (fun _ => files_ok others) (sys_read dev_rd) k /\ post (fun _ => files_ok others) (sys_write dev_wr) k /\
  post (fun _ => files_ok others) (sys_fstat pad) k.
Proof using All.
  intros Hk Ho. unfold sys_read, sys_write, sys_fstat.
  split; [|split]; (eapply post_fsop_bind; [unfold argaddr; fsop|exact Hk|]; intros x k1 _ Hk1).
  3: { apply post_argfd; [|by apply post_ret|lia]. intros. by apply post_filestat. }
  all: eapply post_fsop_bind; [fsop|exact Hk1|]; intros n k2 _ Hk2.
  all: apply post_argfd; [|by apply post_ret|lia]; intros fd f _ Hfd; pose proof (ok_typed _ _ _ (proj1 Hk2) _ _ Hfd).
  - by apply post_fileread.
  - by apply post_filewrite.
Qed.

Lemma post_sys_open others k :
  files_ok others k -> (forall f, 0 <= others f) -> post (fun _ => files_ok others) (sys_open name stk) k.
Proof.
  intros Hk Ho. unfold sys_open.
  eapply post_fsop_bind; [fsop|exact Hk|]; intros omode k1 _ Hk1.
  eapply post_fsop_bind; [fsop|exact Hk1|]; intros [path|] k2 _ Hk2; [|by apply post_ret].
  eapply post_fsop_bind; [fsop|exact Hk2|]; intros [] k3 _ Hk3.
  eapply post_fsop_bind; [fsop|exact Hk3|]; intros [ip|] k4 _ Hk4; [|by apply post_ret].
  eapply post_fsop_bind; [by apply nf_follow|exact Hk4|]; intros [jp|] k5 _ Hk5; [|by apply post_ret].
  eapply post_fsop_bind; [fsop|exact Hk5|]; intros x k6 _ Hk6.
  destruct (_ && negb (device_ok _)); [apply post_fsop; [fsop|done]|].
  apply (post_filealloc others); [done| |apply post_fsop; [fsop|done]].
  intros f Hf Hr Ht Hk7. apply post_fdalloc.
  - intros fd Hfd Hl. rewrite (proj2 (Z.ltb_ge _ _)) by done.
    assert (Hend : forall (b : bool) y k8, f_ref y = 1 -> f_type y <> FD_NONE -> f_type y <> FD_PIPE ->
      k8 = set_k_ftable (k_ftable k8) (with_fd fd (Some f) (with_file f y k6)) ->
      (forall g, k_ftable k8 g = <[f := y]> (k_ftable k6) g) ->
      post (fun _ => files_ok others)
        ((if b then itrunc jp else mret tt);; iunlock (Some jp);; end_op;; mret fd) k8).
    { intros b y k8 Hry Hty Hpy Ek8 Ht8. apply post_fsop; [fsop|]. rewrite Ek8. eapply files_ok_table; [|exact Ht8].
      destruct Hk6 as [H1 H2]. split; simpl.
      - eapply (fds_others _ _ (fun g => more others f 1 g + _ - _)); [apply (fds_insert _ _ _ _ None (Some f)); [|exact Hl|]|].
        + apply (fds_ref _ _ _ _ _ 1 H1); [lia|lia|done].
        + intros g [= <-]. by rewrite fn_lookup_insert.
        + intros g. unfold more, bump. simpl. repeat case_decide; simplify_eq; lia.
      - eapply pipes_ok_ext; [|exact H2]. intros g pi w. apply pipe_end_other; [by rewrite Ht|done]. }
    destruct (i_type x =? T_DEVICE); apply post_mod; (apply post_mod, post_mod; simpl; rewrite !fn_lookup_insert; simpl).
    all: eapply Hend; [..|intros g; simpl; rewrite !fn_insert_twice; reflexivity]; done.
  - apply (post_bind (fun _ => files_ok others)); [|intros; apply post_fsop; [fsop|done]].
    eapply post_mono; [apply (post_fileclose (more others f 1)); [done|done|rewrite more_at; specialize (Ho f); lia]|].
    intros y k' H. eapply files_ok_others; [exact H|]. apply (more_back _ _ 1).
Qed.

Lemma post_close_back others f k :
  files_ok (more others f 1) k -> (f < NFILEn)%nat -> 0 <= others f -> post (fun _ => files_ok others) (fileclose f) k.
Proof.
  intros Hk Hf Ho. eapply post_mono; [apply (post_fileclose (more others f 1)); [done|done|rewrite more_at; lia]|].
  intros x k' H. eapply files_ok_others; [exact H|]. apply (more_back _ _ 1).
Qed.

(** Closing the two files a call has made. *)
Lemma post_close_two {B} others a b (Q : B -> kst U -> Prop) (m : K U B) k :
  files_ok (more (more others a 1) b 1) k -> (a < NFILEn)%nat -> (b < NFILEn)%nat -> a <> b -> (forall f, 0 <= others f) ->
  (forall k', files_ok others k' -> post Q m k') ->
  post Q (fileclose a;; fileclose b;; m) k.
Proof.
  intros Hk Ha Hb Hab Ho Hm.
  apply (post_bind (fun _ => files_ok (more others b 1))).
  - apply post_close_back; [|done|unfold more, bump; specialize (Ho a); case_decide; lia].
    eapply files_ok_others; [exact Hk|]. intros g. unfold more. lia.
  - intros _ k1 Hk1. apply (post_bind (fun _ => files_ok others)); [by apply post_close_back|]. auto.
Qed.

Lemma post_pipealloc {B} others (Q : B -> kst U -> Prop) (g : option (nat * nat) -> K U B) k :
  files_ok others k -> (forall f, 0 <= others f) ->
  (forall a b k', a <> b -> (a < NFILEn)%nat -> (b < NFILEn)%nat -> files_ok (more (more others a 1) b 1) k' ->
     f_type (k_ftable k' a) <> FD_NONE -> f_type (k_ftable k' b) <> FD_NONE ->
     post Q (g (Some (a, b))) k') ->
  (forall k', files_ok others k' -> post Q (g None) k') ->
  post Q (pipealloc junk ≫= g) k.
Proof.
  intros Hk Ho Hs Hn. unfold pipealloc. apply post_assoc.
  apply (post_filealloc others); [done| |apply post_pure, Hn, Hk].
  intros a Ha Hra Hta Hk1. apply post_assoc.
  apply (post_filealloc (more others a 1)); [done| |].
  2: { apply (post_bind (fun x k' => x = None /\ files_ok others k')); [|intros x k' [-> H]; by apply Hn].
       apply (post_bind (fun _ => files_ok others)); [by apply post_close_back|]. intros. by apply post_ret. }
  intros b Hb Hrb Htb Hk2.
  assert (Hab : a <> b) by (intros ->; simpl in Hrb; by rewrite fn_lookup_insert in Hrb).
  set (k2 := with_file b _ _) in *. apply post_assoc. unfold page_alloc. apply post_assoc, post_get.
  destruct (x_freelist (k_ext k2)) as [|pi l] eqn:El.
  - apply post_pure. apply (post_bind (fun x k' => x = None /\ files_ok others k')); [|intros x k' [-> H]; by apply Hn].
    by apply (post_close_two others).
  - apply post_assoc, post_mod, post_pure. apply post_assoc, post_mod. apply post_assoc, post_mod. apply post_assoc, post_mod.
    apply post_pure.
    destruct Hk2 as [H1 H2]. rewrite El in H2.
    assert (Ta : k_ftable k2 a = set_f_ref 1 (k_ftable k a)).
    { simpl. by rewrite fn_lookup_insert_ne, fn_lookup_insert by done. }
    assert (Tb : k_ftable k2 b = set_f_ref 1 (k_ftable k b)).
    { simpl. by rewrite fn_lookup_insert, fn_lookup_insert_ne by done. }
    clearbody k2. simpl.
    apply Hs; [done..| | |]; cbn [set_k_ftable set_k_ext k_ftable k_ofile k_ext];
      rewrite ?fn_lookup_insert, ?(fn_lookup_insert_ne _ b a), ?(fn_lookup_insert_ne _ a b), ?fn_lookup_insert by done; [|done..].
    split; cbn [set_k_ftable set_k_ext k_ftable k_ofile k_ext].
    + eapply (fds_others _ _ (more (more (more (more others a 1) b 1) a 0) b 0)).
      * apply fds_ref; [apply fds_ref; [exact H1|..]|..].
        all: simpl; rewrite ?Ta, ?fn_lookup_insert_ne, ?Tb by done; done.
      * intros h. unfold more, bump. repeat case_decide; lia.
    + simpl in Htb. rewrite fn_lookup_insert_ne in Htb by done.
      apply pipes_ok_new; try done; rewrite ?Ta, ?Tb; simpl; [congruence..|done|done].
Qed.

Lemma post_sys_pipe others k :
  files_ok others k -> (forall f, 0 <= others f) -> post (fun _ => files_ok others) (sys_pipe junk) k.
Proof.
  intros Hk Ho. unfold sys_pipe.
  eapply post_fsop_bind; [unfold argaddr; fsop|exact Hk|]. intros fdarray k0 _ Hk0.
  apply (post_pipealloc others); [done..| |intros; by apply post_ret].
  intros a b k1 Hab Ha Hb Hk1 Hta Htb. cbv zeta.
  assert (Hbad : forall k, files_ok (more (more others a 1) b 1) k ->
    post (fun _ => files_ok others) (fileclose a;; fileclose b;; mret (-1)) k).
  { intros k' Hk'. apply (post_close_two others); try done. intros. by apply post_ret. }
  apply post_fdalloc; [|simpl; by apply Hbad]. intros fd0 Hfd0 Hl0. rewrite (proj2 (Z.ltb_ge _ _)) by done.
  set (k2 := with_fd fd0 (Some a) k1).
  assert (Hk2 : files_ok (more (more (more others a 1) b 1) a (-1)) k2) by by apply files_ok_set.
  assert (Hunset : forall k, files_ok (more (more (more others a 1) b 1) a (-1)) k ->
    k_ofile k !! Z.to_nat fd0 = Some (Some a) -> files_ok (more (more others a 1) b 1) (with_fd fd0 None k)).
  { intros k' Hk' Hl'. eapply files_ok_others; [by apply files_ok_unset|]. apply (more_back _ _ (-1)). }
  assert (Hl2 : k_ofile k2 !! Z.to_nat fd0 = Some (Some a)).
  { simpl. apply list_lookup_insert_eq. by eapply lookup_lt_Some. }
  apply post_fdalloc; [|simpl; apply post_mod; apply Hbad; by apply Hunset].
  intros fd1 Hfd1 Hl1. rewrite (proj2 (Z.ltb_ge _ _)) by done.
  set (k3 := with_fd fd1 (Some b) k2).
  assert (Hk3 : files_ok (more (more (more (more others a 1) b 1) a (-1)) b (-1)) k3) by by apply files_ok_set.
  assert (Hne : Z.to_nat fd0 <> Z.to_nat fd1) by (intros E; rewrite E in Hl2; congruence).
  assert (Hl3 : k_ofile k3 !! Z.to_nat fd1 = Some (Some b)).
  { simpl. apply list_lookup_insert_eq. by eapply lookup_lt_Some. }
  assert (Hfail : forall u, post (fun _ => files_ok others) (fdclear fd0;; fdclear fd1;; fileclose a;; fileclose b;; mret (-1)) (set_k_mem u k3)).
  { intros u. apply post_mod, post_mod, Hbad.
    eapply files_ok_others; [apply (files_ok_unset (more (more (more (more others a 1) b 1) a (-1 + 1)) b (-1)) _ fd1 b)|].
    - eapply files_ok_others; [apply (files_ok_unset (more (more (more (more others a 1) b 1) a (-1)) b (-1)) (set_k_mem u k3) fd0 a); [done|]|].
      + simpl. rewrite list_lookup_insert_ne by done. done.
      + intros g. unfold more, bump. repeat case_decide; lia.
    - simpl. rewrite list_lookup_insert_ne by done. done.
    - intros g. unfold more, bump. repeat case_decide; lia. }
  assert (Hgood : forall u, files_ok others (set_k_mem u k3)).
  { intros u. eapply (files_ok_others _ _ (set_k_mem u k3)); [exact Hk3|].
    intros g. unfold more, bump. repeat case_decide; lia. }
  apply post_get. destruct (copyout _ _ _) as [u ok]. apply post_mod. destruct ok.
  - destruct (copyout _ _ _) as [u2 ok2]. apply post_assoc, post_mod, post_pure. destruct ok2; [apply post_ret, Hgood|apply Hfail].
  - apply post_pure, Hfail.
Qed.

Lemma post_sys_chdir others k : files_ok others k -> post (fun _ => files_ok others) (sys_chdir name) k.
Proof.
  intros Hk. unfold sys_chdir.
  eapply post_fsop_bind; [fsop|exact Hk|]; intros [] k1 _ Hk1.
  eapply post_fsop_bind; [fsop|exact Hk1|]; intros [path|] k2 _ Hk2; [|apply post_fsop; [fsop|done]].
  eapply post_fsop_bind; [fsop|exact Hk2|]; intros [ip|] k3 _ Hk3; [|apply post_fsop; [fsop|done]].
  eapply post_fsop_bind; [fsop|exact Hk3|]; intros [] k4 _ Hk4.
  eapply post_fsop_bind; [fsop|exact Hk4|]; intros x k5 _ Hk5.
  destruct (negb _); [apply post_fsop; [fsop|done]|].
  eapply post_fsop_bind; [fsop|exact Hk5|]; intros [] k6 _ Hk6.
  eapply post_fsop_bind; [fsop|exact Hk6|]; intros cwd k7 _ Hk7.
  eapply post_fsop_bind; [fsop|exact Hk7|]; intros [] k8 _ Hk8.
  eapply post_fsop_bind; [fsop|exact Hk8|]; intros [] k9 _ Hk9.
  apply post_mod, post_ret. exact Hk9.
Qed.

(** The system calls of kernel/sysfile.c other than exec. *)
Inductive file_call :=
  CDup | CRead | CWrite | CClose | CFstat | CLink | CUnlink | COpen | CMkdir | CMknod | CChdir | CPipe | CSymlink.

Definition file_syscall (c : file_call) : K U Z :=
  match c with
  | CDup => sys_dup | CRead => sys_read dev_rd | CWrite => sys_write dev_wr | CClose => sys_close
  | CFstat => sys_fstat pad | CLink => sys_link name | CUnlink => sys_unlink name | COpen => sys_open name stk
  | CMkdir => sys_mkdir name | CMknod => sys_mknod name | CChdir => sys_chdir name | CPipe => sys_pipe junk
  | CSymlink => sys_symlink name
  end.

Lemma post_syscall others k c :
  files_ok others k -> (forall f, 0 <= others f) -> post (fun _ => files_ok others) (file_syscall c) k.
Proof using All.
  intros Hk Ho. pose proof (post_sys_rw others k Hk Ho) as (Hr & Hw & Hs).
  destruct c; simpl; try done; first
    [by apply post_sys_dup|by apply post_sys_close|by apply post_sys_open|by apply post_sys_chdir|by apply post_sys_pipe|apply post_fsop; [fsop|done]].
Qed.

End ops.

(** * Properties *)


(** A process with a pipe on descriptors 0 and 1. *)
Definition pipe_k : kst unit :=
  Kst small_sb (Log 2 LOGSIZE 0 0 ROOTDEV 0 (fun _ => 0)) (fun _ => empty_inode)
      (<[1%nat := File FD_PIPE 1 false true 4096 0 0 0]> (<[0%nat := File FD_PIPE 1 true false 4096 0 0 0]> (fun _ => fresh_file)))
      1 ([Some 0%nat; Some 1%nat] ++ replicate 14 None) 0 tt [] (KExt {[4096 := pipe_init (fun _ => 0)]} [8192] false (fun _ => 0)).

Lemma pipe_k_ends f pi w : pipe_end_of (k_ftable pipe_k) f pi w -> pi = 4096 /\ f = if w then 1%nat else 0%nat.
Proof.
  intros (_ & Hr & Ht & Hp & Hw). revert Hr Ht Hp Hw. unfold pipe_k. cbn [k_ftable].
  destruct (decide (f = 1%nat)) as [->|]; [rewrite fn_lookup_insert; by intros _ _ <- <-|].
  rewrite fn_lookup_insert_ne by done.
  destruct (decide (f = 0%nat)) as [->|]; [rewrite fn_lookup_insert; by intros _ _ <- <-|].
  rewrite fn_lookup_insert_ne by done. done.
Qed.

Lemma pipe_k_ok : files_ok (fun _ => 0) pipe_k.
Proof.
  split.
  - split; [done|..].
    + intros [|[|fd]] f H; simplify_eq/=; try (unfold NFILEn, NFILE; lia).
      apply (lookup_replicate_1 14 None) in H as [? _]. done.
    + intros [|[|f]] Hf; [vm_compute; reflexivity..|]. unfold pipe_k. cbn [k_ftable k_ofile].
      rewrite !fn_lookup_insert_ne by done. done.
    + intros [|[|f]] Hf; [done..|]. unfold pipe_k. cbn [k_ftable]. by rewrite !fn_lookup_insert_ne by done.
    + intros [|[|fd]] f H; simplify_eq/=; [done..|]. apply (lookup_replicate_1 14 None) in H as [? _]. done.
  - change (x_pipes (k_ext pipe_k)) with ({[4096 := pipe_init (fun _ => 0)]} : gmap Z pipe).
    change (x_freelist (k_ext pipe_k)) with [8192]. split.
    + intros f pi w [-> _]%pipe_k_ends. exists (pipe_init (fun _ => 0)). split; [done|]. by destruct w.
    + intros f g pi w [_ ->]%pipe_k_ends [_ ->]%pipe_k_ends. done.
    + intros pi p w [<- <-]%lookup_singleton_Some Ho. exists (if w then 1%nat else 0%nat).
      unfold pipe_end_of, NFILEn, NFILE. destruct w; repeat split; simpl; done || lia.
    + intros pi p [<- <-]%lookup_singleton_Some. done.
    + intros pi ->%list_elem_of_singleton. done.
    + apply NoDup_singleton.
Qed.

