(* ===== verification/SysProps.v ===== *)
(** What dup does, and system calls on a concrete file system: symbolic links. *)

From S2P Require Import Prelude BufCache BufSpec KState Log LogCrash LogSystem CString Fs PipeRing File Sysfile.
From S2P Require Import FsAlloc FsTree FsFile FsWrite FsInode FsProps FsPath FileProps.
Local Open Scope Z_scope.

(** * A file system with a root directory and the file /f *)

(** User memory that holds strings at small addresses. *)
Definition str_ok (max : Z) (s : bytes) : Prop := Z.of_nat (length s) < max /\ Forall (fun c => 0 < c < 256) s.
#[export] Program Instance strings_mem : UserMem (list bytes) := {|
  copyin _ _ n := ([], n =? 0);
  copyout u _ d := (u, bool_decide (d = []));
  copyinstr u va max := s ← u !! Z.to_nat va; if decide (str_ok max s) then Some s else None;
|}.
Next Obligation. constructor. Qed.
Next Obligation. simpl. intros _ _ n _ E%Z.eqb_eq. done. Qed.
Next Obligation. simpl. intros _ _ n Hn E%Z.eqb_neq. lia. Qed.
Next Obligation.
  simpl. intros u va max s. destruct (u !! Z.to_nat va) as [s'|]; simpl; [|done].
  case_decide; [|done]. intros [= <-]. done.
Qed.

Definition demo_inode (t size addr : Z) : inode :=
  Inode ROOTDEV 0 0 (SleepLock false 0) false t 0 0 1 size (addr :: replicate 12 0).
Definition demo_inodes : bytes :=
  put (put (zeros BSIZE) 64 (dinode_enc (demo_inode T_DIR 48 36))) 128 (dinode_enc (demo_inode T_FILE 5 37)).
Definition demo_dir : bytes :=
  put (zeros BSIZE) 0 (dirent_enc 1 DOT ++ dirent_enc 1 DOTDOT ++ dirent_enc 2 [102]).
Definition demo_disk : Z -> bytes :=
  <[33 := demo_inodes]> (<[35 := put (zeros BSIZE) 0 [255; 255; 255; 255; 63]]>
  (<[36 := demo_dir]> (<[37 := put (zeros BSIZE) 0 [104; 101; 108; 108; 111]]> (fun _ => zeros BSIZE)))).
(** A process with no open file, whose arguments are [args] and whose memory
    holds the strings [mem]; slot 0 of the inode table is its directory. *)
Definition demo_k (args : Z -> Z) (mem : list bytes) : kst (list bytes) :=
  Kst small_sb (Log 2 LOGSIZE 0 0 ROOTDEV 0 (fun _ => 0))
      (<[0%nat := set_i_id ROOTDEV 1 1 false (demo_inode 0 0 0)]> (fun _ => demo_inode 0 0 0))
      (fun _ => fresh_file) 1 (replicate 16 None) 0 mem [] (KExt ∅ [] false args).

(** Run a call; its result and the two states. *)
Definition result {A B} (o : outcome ((A * kst B) * abio)) : option A :=
  match o with Done ((x, _), _) => Some x | _ => None end.

(** One call after another, the arguments of the second set first. *)
Definition demo_seq (m1 m2 : K (list bytes) Z) (args : Z -> Z) : K (list bytes) (Z * Z) :=
  x ← m1; xmod (fun x => KExt (x_pipes x) (x_freelist x) (x_killed x) args);; y ← m2; mret (x, y).

Definition demo_args (a b : Z) : Z -> Z := fun i => if i =? 0 then a else b.
Definition demo_name : bytes := zeros DIRSIZ.

(** symlink("f", "l"); open("l", O_RDONLY) *)
Example demo_follow :
  match krun (x ← demo_seq (sys_symlink demo_name) (sys_open demo_name []) (demo_args 1 0); k ← kget (fun k => k); mret (x, k))
    (demo_k (demo_args 0 1) [[102]; [108]]) (boot_abio demo_disk) with
  | Done ((((r1, r2), k), _), _) =>
      (r1, r2, i_inum (k_itable k (f_ip (k_ftable k 0%nat))), f_type (k_ftable k 0%nat)) = (0, 0, 2, FD_INODE)
  | _ => False
  end.
Proof. vm_compute. reflexivity. Qed.

(** * Properties *)

(** A symbolic link to itself does not hang open: the call returns -1 after
    nine links, having printed its message, the transaction closed and the
    inode's lock released. *)
Theorem open_link_loop :
  match krun (x ← demo_seq (sys_symlink demo_name) (sys_open demo_name []) (demo_args 0 0); k ← kget (fun k => k); mret (x, k))
    (demo_k (demo_args 0 0) [[108]]) (boot_abio demo_disk) with
  | Done ((((r1, r2), k), _), _) =>
      r1 = 0 /\ r2 = -1 /\ k_out k = ["symbolic link is a loop"] /\
      log_outstanding (k_log k) = 0 /\ locked (i_lock (k_itable k 1%nat)) = false /\ i_ref (k_itable k 1%nat) = 0
  | _ => False
  end.
Proof. vm_compute. repeat split. Qed.


(** Open refuses a directory that is not opened read-only, but looks at the
    type before it follows symbolic links: through a link it gives a writable
    descriptor for the root directory. *)
Theorem open_writes_directory :
  result (krun (sys_open demo_name []) (demo_k (demo_args 0 O_RDWR) [[SLASH]]) (boot_abio demo_disk)) = Some (-1) /\
  match krun (x ← demo_seq (sys_symlink demo_name) (sys_open demo_name []) (demo_args 1 O_RDWR); k ← kget (fun k => k); mret (x, k))
    (demo_k (demo_args 0 1) [[SLASH]; [108]]) (boot_abio demo_disk) with
  | Done ((((r1, r2), k), _), _) => r1 = 0 /\ r2 = 0 /\ f_writable (k_ftable k 0%nat) = true /\
      i_type (k_itable k (f_ip (k_ftable k 0%nat))) = T_DIR
  | _ => False
  end.
Proof. vm_compute. repeat split. Qed.

(** ** dup *)

(** Dup returns.  It gives -1 and changes nothing when its argument is not an
    open descriptor or all descriptors are in use; otherwise it gives the
    lowest unused descriptor, which now refers to the same file, whose count
    has gone up by one, and nothing else has changed. *)
Theorem sys_dup_spec {U : Type} `{!UserMem U} (others : nat -> Z) (k : kst U) (a : abio) :
  files_ok others k -> (forall f, 0 <= others f) ->
  let fd := i32 (u64 (x_args (k_ext k) 0)) in
  exists r k', krun sys_dup k a = Done ((r, k'), a) /\
  ((r = -1 /\ k' = k /\
    ((forall f, 0 <= fd < NOFILE -> k_ofile k !! Z.to_nat fd <> Some (Some f)) \/ (forall o, o ∈ k_ofile k -> o <> None))) \/
   (exists f, 0 <= fd < NOFILE /\ k_ofile k !! Z.to_nat fd = Some (Some f) /\
     0 <= r < NOFILE /\ k_ofile k !! Z.to_nat r = Some None /\
     (forall j, 0 <= j < r -> exists g, k_ofile k !! Z.to_nat j = Some (Some g)) /\
     k' = with_file f (set_f_ref (f_ref (k_ftable k f) + 1) (k_ftable k f)) (with_fd r (Some f) k))).
Proof.
  intros [Hk _] Ho fd.
  assert (Eargs : krun (argfd 0) k a =
    if (fd <? 0) || (fd >=? NOFILE) then Done (None, k, a)
    else match k_ofile k !! Z.to_nat fd with Some (Some f) => Done (Some (fd, f), k, a) | _ => Done (None, k, a) end).
  { unfold argfd. rewrite krun_bind. unfold argint. rewrite krun_bind. simpl. fold fd.
    destruct (_ || _); [done|]. rewrite krun_bind. simpl. by destruct (k_ofile k !! Z.to_nat fd) as [[f|]|]. }
  unfold sys_dup. rewrite krun_bind, Eargs.
  destruct ((fd <? 0) || (fd >=? NOFILE)) eqn:Eb.
  { exists (-1), k. split; [done|left]. split; [done|split; [done|left]]. intros f Hfd. bool2prop. lia. }
  apply orb_false_iff in Eb as [Eb1 Eb2]. apply Z.ltb_ge in Eb1. rewrite Z.geb_leb in Eb2. apply Z.leb_gt in Eb2.
  destruct (k_ofile k !! Z.to_nat fd) as [[f|]|] eqn:El.
  2,3: exists (-1), k; split; [done|left]; split; [done|split; [done|left]]; by intros f _.
  destruct (fds_used _ _ _ _ _ Hk (Ho f) El) as [Hf Hr]. simpl. rewrite krun_bind.
  unfold fdalloc. rewrite krun_bind. simpl. destruct (find_fd (k_ofile k) 0) as [r|] eqn:Er.
  - apply find_fd_Some in Er as (H0 & Hl & Hlow). rewrite Z.sub_0_r in Hl.
    assert (Hrn : r < NOFILE).
    { apply lookup_lt_Some in Hl. rewrite (ok_len _ _ _ Hk) in Hl. lia. }
    eexists r, _. split; [|right; exists f].
    + rewrite krun_bind. simpl. rewrite (proj2 (Z.ltb_ge _ _)) by done. rewrite krun_bind. unfold filedup.
      rewrite krun_bind. simpl. rewrite (proj2 (Z.ltb_ge _ _)) by done. reflexivity.
    + repeat (split; [done || lia|]). split; [|done]. intros j Hj. destruct (Hlow j Hj) as [g Hg].
      exists g. by rewrite Z.sub_0_r in Hg.
  - exists (-1), k. split; [done|left]. split; [done|split; [done|right]]. by eapply find_fd_None.
Qed.

Lemma sys_dup_spec_witness :
  exists k', krun sys_dup pipe_k (boot_abio small_disk) = Done ((2, k'), boot_abio small_disk) /\
    k_ofile k' !! 2%nat = Some (Some 0%nat) /\ f_ref (k_ftable k' 0%nat) = 2.
Proof.
  destruct (sys_dup_spec (fun _ => 0) pipe_k (boot_abio small_disk) pipe_k_ok ltac:(done)) as (r & k' & E & H).
  destruct H as [(_ & _ & [H|H])|(f & _ & Hf & _ & Hr & Hlow & ->)].
  - exfalso. by apply (H 0%nat).
  - exfalso. apply (H None); [|done]. apply list_elem_of_lookup. by exists 2%nat.
  - assert (r = 2) as ->.
    { revert E. vm_compute krun. congruence. }
    injection Hf as <-. eexists. split; [exact E|]. done.
Defined.
