(* ===== verification/Vm.v ===== *)
(** Page tables and user memory, kernel/vm.c, on the memory and the free list of
    the page allocator.

    A page table is the address of its page; [None]-like null results are 0 as
    in the code.  Kernel buffers that are only read or only written ([src],
    [dst]) are byte lists.  The MMU registers ([kvminithart]) are not
    represented. *)

From S2P Require Import Prelude CString Kalloc.
Local Open Scope Z_scope.

(** * Page table entries, kernel/riscv.h *)

Definition PTE_V : Z := 1.
Definition PTE_R : Z := 2.
Definition PTE_W : Z := 4.
Definition PTE_X : Z := 8.
Definition PTE_U : Z := 16.
Definition PA2PTE (pa : Z) : Z := u64 (Z.shiftl (Z.shiftr pa 12) 10).
Definition PTE2PA (pte : Z) : Z := u64 (Z.shiftl (Z.shiftr pte 10) 12).
Definition PTE_FLAGS (pte : Z) : Z := Z.land pte 0x3FF.
Definition PXSHIFT (level : Z) : Z := 12 + 9 * level.
Definition PX (level va : Z) : Z := Z.land (Z.shiftr va (PXSHIFT level)) 0x1FF.
Definition MAXVA : Z := Z.shiftl 1 (9 + 9 + 9 + 12 - 1).

(** kernel/memlayout.h *)
Definition UART0 : Z := 0x10000000.
Definition VIRTIO0 : Z := 0x10001000.
Definition PLIC : Z := 0x0c000000.
Definition TRAMPOLINE : Z := MAXVA - PGSIZE.
Definition KSTACK (p : Z) : Z := TRAMPOLINE - (p + 1) * 2 * PGSIZE.
Definition TRAPFRAME : Z := TRAMPOLINE - PGSIZE.

(** [pte & flag] *)
Definition has (pte f : Z) : bool := negb (Z.land pte f =? 0).

(** [PGROUNDUP] and [PGROUNDDOWN] of a [uint64]. *)
Definition pgroundup (sz : Z) : Z := Z.land (u64 (sz + PGSIZE - 1)) (Z.lnot (PGSIZE - 1)).
Definition pgrounddown (a : Z) : Z := Z.land a (Z.lnot (PGSIZE - 1)).

(** * The monad: physical memory and the free list *)

Definition VM (A : Type) : Type := kmem -> outcome (A * kmem).
#[export] Instance VM_ret : MRet VM := fun _ a s => Done (a, s).
#[export] Instance VM_bind : MBind VM := fun _ _ f m s => '(a, s') ← m s; f a s'.
#[global] Typeclasses Opaque VM.

Definition vpanic {A} (msg : string) : VM A := fun _ => Panicked msg.
Definition vfuel {A} : VM A := fun _ => OutOfFuel.
Definition vload (a : Z) : VM Z := fun s => Done (load64 (km_mem s) a, s).
Definition vmod (f : mem -> mem) : VM unit := fun s => Done (tt, KMem (f (km_mem s)) (km_freelist s)).
Definition vstore (a v : Z) : VM unit := vmod (fun m => store64 m a v).
Definition vmemset (dst c n : Z) : VM unit := vmod (fun m => memset m dst c n).
Definition vmemmove (dst src n : Z) : VM unit := vmod (fun m => memmove m dst src n).
Definition vkalloc : VM Z := fun s => Done (kalloc s).
(** The bytes of [d] stored at [a], and [n] bytes read there. *)
Definition store_bytes (m : mem) (a : Z) (d : bytes) : mem := fun x =>
  if decide (a <= x < a + Z.of_nat (length d)) then byte_at d (x - a) else m x.
Definition load_bytes (m : mem) (a n : Z) : bytes := (fun i => m (a + i)) <$> seqZ 0 n.
Definition vget (a n : Z) : VM bytes := fun s => Done (load_bytes (km_mem s) a n, s).
Definition vput (a : Z) (d : bytes) : VM unit := vmod (fun m => store_bytes m a d).

Section code.
(** [end], [etext] and [trampoline]: linker symbols. *)
Variable kend etext trampoline : Z.

Definition vkfree (pa : Z) : VM unit := fun s => s' ← kfree kend pa s; Done (tt, s').

(** * Page tables *)

(** [for(int level = 2; level > 0; level--)] *)
Fixpoint walk_loop (level : nat) (pagetable va : Z) (alloc : bool) : VM Z :=
  match level with
  | O => mret (pagetable + 8 * PX 0 va)
  | S l =>
      let pte := pagetable + 8 * PX (Z.of_nat level) va in
      e ← vload pte;
      if has e PTE_V then walk_loop l (PTE2PA e) va alloc
      else if negb alloc then mret 0
      else
        p ← vkalloc;
        if p =? 0 then mret 0
        else
          vmemset p 0 PGSIZE;;
          vstore pte (Z.lor (PA2PTE p) PTE_V);;
          walk_loop l p va alloc
  end.

Definition walk (pagetable va : Z) (alloc : bool) : VM Z :=
  if va >=? MAXVA then vpanic "walk" else walk_loop 2 pagetable va alloc.

Definition walkaddr (pagetable va : Z) : VM Z :=
  if va >=? MAXVA then mret 0 else
  pte ← walk pagetable va false;
  if pte =? 0 then mret 0 else
  e ← vload pte;
  if negb (has e PTE_V) then mret 0 else
  if negb (has e PTE_U) then mret 0 else
  mret (PTE2PA e).

(** [for(;;)]: page [a], up to page [last]. *)
Fixpoint mappages_loop (fuel : nat) (pagetable a last pa perm : Z) : VM Z :=
  match fuel with
  | O => vfuel
  | S fuel =>
      pte ← walk pagetable a true;
      if pte =? 0 then mret (-1) else
      e ← vload pte;
      if has e PTE_V then vpanic "mappages: remap" else
      vstore pte (Z.lor (Z.lor (PA2PTE pa) perm) PTE_V);;
      if a =? last then mret 0
      else mappages_loop fuel pagetable (u64 (a + PGSIZE)) last (u64 (pa + PGSIZE)) perm
  end.

Definition mappages (pagetable va size pa perm : Z) : VM Z :=
  if negb (va mod PGSIZE =? 0) then vpanic "mappages: va not aligned" else
  if negb (size mod PGSIZE =? 0) then vpanic "mappages: size not aligned" else
  if size =? 0 then vpanic "mappages: size" else
  mappages_loop (Z.to_nat (size / PGSIZE)) pagetable va (u64 (va + size - PGSIZE)) pa perm.

Definition kvmmap (kpgtbl va pa sz perm : Z) : VM unit :=
  r ← mappages kpgtbl va sz pa perm;
  if negb (r =? 0) then vpanic "kvmmap" else mret tt.

(** kernel/proc.c: a stack for each process slot. *)
Fixpoint mapstacks_loop (n : nat) (p kpgtbl : Z) : VM unit :=
  match n with
  | O => mret tt
  | S n =>
      pa ← vkalloc;
      if pa =? 0 then vpanic "kalloc" else
      kvmmap kpgtbl (KSTACK p) pa PGSIZE (Z.lor PTE_R PTE_W);;
      mapstacks_loop n (p + 1) kpgtbl
  end.
Definition proc_mapstacks (kpgtbl : Z) : VM unit := mapstacks_loop (Z.to_nat NPROC) 0 kpgtbl.

Definition kvmmake : VM Z :=
  kpgtbl ← vkalloc;
  vmemset kpgtbl 0 PGSIZE;;
  kvmmap kpgtbl UART0 UART0 PGSIZE (Z.lor PTE_R PTE_W);;
  kvmmap kpgtbl VIRTIO0 VIRTIO0 PGSIZE (Z.lor PTE_R PTE_W);;
  kvmmap kpgtbl PLIC PLIC 0x4000000 (Z.lor PTE_R PTE_W);;
  kvmmap kpgtbl KERNBASE KERNBASE (u64 (etext - KERNBASE)) (Z.lor PTE_R PTE_X);;
  kvmmap kpgtbl etext etext (u64 (PHYSTOP - etext)) (Z.lor PTE_R PTE_W);;
  kvmmap kpgtbl TRAMPOLINE trampoline PGSIZE (Z.lor PTE_R PTE_X);;
  proc_mapstacks kpgtbl;;
  mret kpgtbl.

(** [for(a = va; a < va + npages*PGSIZE; a += PGSIZE)], up to [lim]. *)
Fixpoint uvmunmap_loop (fuel : nat) (pagetable a lim : Z) (do_free : bool) : VM unit :=
  match fuel with
  | O => vfuel
  | S fuel =>
      if a <? lim then
        pte ← walk pagetable a false;
        if pte =? 0 then vpanic "uvmunmap: walk" else
        e ← vload pte;
        if negb (has e PTE_V) then vpanic "uvmunmap: not mapped" else
        if PTE_FLAGS e =? PTE_V then vpanic "uvmunmap: not a leaf" else
        (if do_free then vkfree (PTE2PA e) else mret tt);;
        vstore pte 0;;
        uvmunmap_loop fuel pagetable (u64 (a + PGSIZE)) lim do_free
      else mret tt
  end.

Definition uvmunmap (pagetable va npages : Z) (do_free : bool) : VM unit :=
  if negb (va mod PGSIZE =? 0) then vpanic "uvmunmap: not aligned" else
  uvmunmap_loop (S (Z.to_nat npages)) pagetable va (u64 (va + npages * PGSIZE)) do_free.

Definition uvmcreate : VM Z :=
  pagetable ← vkalloc;
  if pagetable =? 0 then mret 0 else
  vmemset pagetable 0 PGSIZE;;
  mret pagetable.

(** [sz] is the length of [src]. *)
Definition uvmfirst (pagetable : Z) (src : bytes) : VM unit :=
  if Z.of_nat (length src) >=? PGSIZE then vpanic "uvmfirst: more than a page" else
  mem ← vkalloc;
  vmemset mem 0 PGSIZE;;
  mappages pagetable 0 PGSIZE mem (Z.lor (Z.lor (Z.lor PTE_W PTE_R) PTE_X) PTE_U);;
  vput mem src.

Definition uvmdealloc (pagetable oldsz newsz : Z) : VM Z :=
  if newsz >=? oldsz then mret oldsz else
  (if pgroundup newsz <? pgroundup oldsz then
     let npages := i32 ((pgroundup oldsz - pgroundup newsz) / PGSIZE) in
     uvmunmap pagetable (pgroundup newsz) (u64 npages) true
   else mret tt);;
  mret newsz.

(** [for(a = oldsz; a < newsz; a += PGSIZE)] *)
Fixpoint uvmalloc_loop (fuel : nat) (pagetable a oldsz newsz xperm : Z) : VM Z :=
  match fuel with
  | O => vfuel
  | S fuel =>
      if a <? newsz then
        mem ← vkalloc;
        if mem =? 0 then uvmdealloc pagetable a oldsz;; mret 0
        else
          vmemset mem 0 PGSIZE;;
          r ← mappages pagetable a PGSIZE mem (Z.lor (Z.lor PTE_R PTE_U) xperm);
          if negb (r =? 0) then
            vkfree mem;;
            uvmdealloc pagetable a oldsz;;
            mret 0
          else uvmalloc_loop fuel pagetable (u64 (a + PGSIZE)) oldsz newsz xperm
      else mret newsz
  end.

Definition uvmalloc (pagetable oldsz newsz xperm : Z) : VM Z :=
  if newsz <? oldsz then mret oldsz else
  let oldsz := pgroundup oldsz in
  uvmalloc_loop (S (Z.to_nat ((newsz - oldsz + PGSIZE - 1) / PGSIZE))) pagetable oldsz oldsz newsz xperm.

(** [for(int i = 0; i < 512; i++)] of [freewalk], [n] iterations left; [rec]
    frees a child. *)
Fixpoint freewalk_loop (rec : Z -> VM unit) (n : nat) (i pagetable : Z) : VM unit :=
  match n with
  | O => mret tt
  | S n =>
      pte ← vload (pagetable + 8 * i);
      (if has pte PTE_V && negb (has pte (Z.lor (Z.lor PTE_R PTE_W) PTE_X)) then
         rec (PTE2PA pte);;
         vstore (pagetable + 8 * i) 0
       else if has pte PTE_V then vpanic "freewalk: leaf"
       else mret tt);;
      freewalk_loop rec n (i + 1) pagetable
  end.

(** The depth of the tree bounds the recursion. *)
Fixpoint freewalk (depth : nat) (pagetable : Z) : VM unit :=
  match depth with
  | O => vfuel
  | S depth => freewalk_loop (freewalk depth) 512 0 pagetable;; vkfree pagetable
  end.

Definition uvmfree (pagetable sz : Z) : VM unit :=
  (if sz >? 0 then uvmunmap pagetable 0 (pgroundup sz / PGSIZE) true else mret tt);;
  freewalk 3 pagetable.

(** The loop of [uvmcopy] and its [err:] label. *)
Fixpoint uvmcopy_loop (fuel : nat) (old new i sz : Z) : VM Z :=
  match fuel with
  | O => vfuel
  | S fuel =>
      if i <? sz then
        let err : VM Z := uvmunmap new 0 (i / PGSIZE) true;; mret (-1) in
        pte ← walk old i false;
        if pte =? 0 then vpanic "uvmcopy: pte should exist" else
        e ← vload pte;
        if negb (has e PTE_V) then vpanic "uvmcopy: page not present" else
        mem ← vkalloc;
        if mem =? 0 then err else
        vmemmove mem (PTE2PA e) PGSIZE;;
        r ← mappages new i PGSIZE mem (PTE_FLAGS e);
        if negb (r =? 0) then vkfree mem;; err
        else uvmcopy_loop fuel old new (u64 (i + PGSIZE)) sz
      else mret 0
  end.

Definition uvmcopy (old new sz : Z) : VM Z :=
  uvmcopy_loop (S (Z.to_nat ((sz + PGSIZE - 1) / PGSIZE))) old new 0 sz.

Definition uvmclear (pagetable va : Z) : VM unit :=
  pte ← walk pagetable va false;
  if pte =? 0 then vpanic "uvmclear" else
  e ← vload pte;
  vstore pte (Z.land e (Z.lnot PTE_U)).

(** * Copies between kernel and user *)

(** Pages a copy of [len] bytes can touch, plus the final test. *)
Definition pages_of (len : Z) : nat := Z.to_nat (len / PGSIZE) + 3.

Fixpoint copyout_loop (fuel : nat) (pagetable dstva : Z) (src : bytes) : VM bool :=
  match fuel with
  | O => vfuel
  | S fuel =>
      let len := Z.of_nat (length src) in
      if len >? 0 then
        let va0 := pgrounddown dstva in
        if va0 >=? MAXVA then mret false else
        pte ← walk pagetable va0 false;
        if pte =? 0 then mret false else
        e ← vload pte;
        if negb (has e PTE_V) || negb (has e PTE_U) || negb (has e PTE_W) then mret false else
        let pa0 := PTE2PA e in
        let n := Z.min (PGSIZE - (dstva - va0)) len in
        vput (pa0 + (dstva - va0)) (take (Z.to_nat n) src);;
        copyout_loop fuel pagetable (va0 + PGSIZE) (drop (Z.to_nat n) src)
      else mret true
  end.
Definition copyout (pagetable dstva : Z) (src : bytes) : VM bool :=
  copyout_loop (pages_of (Z.of_nat (length src))) pagetable dstva src.

(** The bytes stored in [dst], and whether all were. *)
Fixpoint copyin_loop (fuel : nat) (pagetable srcva len : Z) (dst : bytes) : VM (bytes * bool) :=
  match fuel with
  | O => vfuel
  | S fuel =>
      if len >? 0 then
        let va0 := pgrounddown srcva in
        pa0 ← walkaddr pagetable va0;
        if pa0 =? 0 then mret (dst, false) else
        let n := Z.min (PGSIZE - (srcva - va0)) len in
        d ← vget (pa0 + (srcva - va0)) n;
        copyin_loop fuel pagetable (va0 + PGSIZE) (len - n) (dst ++ d)
      else mret (dst, true)
  end.
Definition copyin (pagetable srcva len : Z) : VM (bytes * bool) :=
  copyin_loop (pages_of len) pagetable srcva len [].

(** The inner loop of [copyinstr]: [n] bytes at [p] left; the bytes copied and
    whether a NUL was met. *)
Fixpoint scan_nul (n : nat) (m : mem) (p : Z) : bytes * bool :=
  match n with
  | O => ([], false)
  | S n => if m p =? 0 then ([], true) else let (s, b) := scan_nul n m (p + 1) in (m p :: s, b)
  end.

(** The string without its NUL. *)
Fixpoint copyinstr_loop (fuel : nat) (pagetable srcva max : Z) (dst : bytes) : VM (option bytes) :=
  match fuel with
  | O => vfuel
  | S fuel =>
      if max >? 0 then
        let va0 := pgrounddown srcva in
        pa0 ← walkaddr pagetable va0;
        if pa0 =? 0 then mret None else
        let n := Z.min (PGSIZE - (srcva - va0)) max in
        m ← (fun s => Done (km_mem s, s));
        let (d, got_null) := scan_nul (Z.to_nat n) m (pa0 + (srcva - va0)) in
        if (got_null : bool) then mret (Some (dst ++ d))
        else copyinstr_loop fuel pagetable (va0 + PGSIZE) (max - n) (dst ++ d)
      else mret None
  end.
Definition copyinstr (pagetable srcva max : Z) : VM (option bytes) :=
  copyinstr_loop (pages_of max) pagetable srcva max [].

End code.
