(* ===== verification/VmTable.v ===== *)
(** Page tables of kernel/vm.c: three levels of pages implement a map from
    virtual pages to entries. *)

From S2P Require Import Prelude CString Kalloc Vm.
Local Open Scope Z_scope.

(** * Arithmetic of entries and indices *)

Lemma lor_flags a f : 0 <= f < 1024 -> Z.lor (a * 1024) f = a * 1024 + f.
Proof.
  intros Hf. apply Z.bits_inj'. intros n Hn. rewrite Z.lor_spec. change 1024 with (2 ^ 10) in *.
  destruct (Z.ltb_spec n 10).
  - rewrite Z.mul_pow2_bits_low by lia. simpl.
    rewrite <- (Z.mod_pow2_bits_low (a * 2 ^ 10 + f) 10) by lia.
    rewrite Z.add_comm, Z.mod_add, Z.mod_small by lia. done.
  - assert (Z.testbit f n = false) as ->.
    { destruct (decide (f = 0)) as [->|]; [apply Z.bits_0|]. apply Z.bits_above_log2; [lia|].
      apply Z.log2_lt_pow2; [lia|]. pose proof (Z.pow_le_mono_r 2 10 n ltac:(lia) ltac:(lia)). lia. }
    rewrite orb_false_r. replace n with (n - 10 + 10) by lia.
    rewrite <- !Z.div_pow2_bits by lia.
    rewrite (Z.add_comm _ f), Z.div_add, Z.div_mul, Z.div_small by lia. done.
Qed.

(** A page of memory below [2^56], as an entry with flags. *)
Definition ppage (p : Z) : Prop := p mod PGSIZE = 0 /\ 0 <= p < 2 ^ 56.

Lemma PA2PTE_page p : ppage p -> PA2PTE p = p / PGSIZE * 1024.
Proof.
  intros [Hm Hr]. unfold PA2PTE. rewrite Z.shiftl_mul_pow2, Z.shiftr_div_pow2 by lia.
  change (2 ^ 12) with PGSIZE. change (2 ^ 10) with 1024. apply u64_small.
  unfold PGSIZE. pose proof (Z.div_le_upper_bound p 4096 (2 ^ 44) ltac:(lia) ltac:(lia)).
  pose proof (Z.div_pos p 4096). lia.
Qed.

(** The entry for page [p] with flags [f]. *)
Definition entry (p f : Z) : Z := p / PGSIZE * 1024 + f.

Lemma entry_pte p f : ppage p -> 0 <= f < 1024 -> Z.lor (PA2PTE p) f = entry p f.
Proof. intros Hp Hf. rewrite PA2PTE_page by done. by apply lor_flags. Qed.

Lemma entry_page p f : ppage p -> 0 <= f < 1024 -> PTE2PA (entry p f) = p.
Proof.
  intros [Hm Hr] Hf. unfold PTE2PA, entry. rewrite Z.shiftl_mul_pow2, Z.shiftr_div_pow2 by lia.
  change (2 ^ 10) with 1024. change (2 ^ 12) with PGSIZE.
  rewrite Z.add_comm, Z.div_add, Z.div_small by lia. simpl.
  pose proof (Z.div_mod p PGSIZE ltac:(done)) as Hd. rewrite Hm in Hd.
  rewrite u64_small; unfold PGSIZE in *; lia.
Qed.

Lemma entry_flags p f : 0 <= f < 1024 -> PTE_FLAGS (entry p f) = f.
Proof.
  intros Hf. unfold PTE_FLAGS. change 0x3FF with (Z.ones 10). rewrite Z.land_ones by lia. unfold entry.
  change (2 ^ 10) with 1024. rewrite Z.add_comm, Z.mod_add by lia. by apply Z.mod_small.
Qed.

Lemma entry_has p f b : 0 <= f < 1024 -> 0 <= b < 1024 -> has (entry p f) b = has f b.
Proof.
  intros Hf Hb. unfold has. f_equal. f_equal.
  assert (E : Z.land b (Z.ones 10) = b) by (rewrite Z.land_ones by lia; by apply Z.mod_small).
  rewrite <- E, (Z.land_comm b), !Z.land_assoc. f_equal. change (PTE_FLAGS (entry p f) = Z.land f (Z.ones 10)).
  rewrite entry_flags by done. rewrite Z.land_ones by lia. symmetry. by apply Z.mod_small.
Qed.

Lemma entry_range p f : ppage p -> 0 <= f < 1024 -> 0 <= entry p f < 2 ^ 64.
Proof.
  intros [Hm Hr] Hf. unfold entry, PGSIZE.
  pose proof (Z.div_le_upper_bound p 4096 (2 ^ 44) ltac:(lia) ltac:(lia)). pose proof (Z.div_pos p 4096). lia.
Qed.

Lemma page_ppage kend p : page kend p -> ppage p.
Proof. intros (Hm & Hp & Hr). split; [done|]. change PHYSTOP with 0x88000000 in Hr. lia. Qed.

Lemma PX_div level va : 0 <= level -> PX level va = va / 2 ^ (12 + 9 * level) mod 512.
Proof.
  intros. unfold PX, PXSHIFT. change 0x1FF with (Z.ones 9). rewrite Z.land_ones, Z.shiftr_div_pow2 by lia. done.
Qed.

Lemma PX_range level va : 0 <= level -> 0 <= PX level va < 512.
Proof. intros. rewrite PX_div by done. by apply Z.mod_pos_bound. Qed.

(** The indices determine the page. *)
Lemma vpn_split va : 0 <= va < MAXVA ->
  va / PGSIZE = (PX 2 va * 512 + PX 1 va) * 512 + PX 0 va.
Proof.
  intros Hv. change MAXVA with (2 ^ 38) in Hv. rewrite !PX_div by lia.
  replace (2 ^ (12 + 9 * 0)) with PGSIZE by done.
  replace (2 ^ (12 + 9 * 1)) with (PGSIZE * 512) by done.
  replace (2 ^ (12 + 9 * 2)) with (PGSIZE * 512 * 512) by done.
  rewrite <- !Z.div_div by done. set (q := va / PGSIZE).
  assert (Hq : 0 <= q < 512 * 512 * 512).
  { unfold q. split; [apply Z.div_pos; [lia|done]|]. apply Z.div_lt_upper_bound; unfold PGSIZE; lia. }
  rewrite (Z.mod_small (q / 512 / 512)).
  - pose proof (Z.div_mod q 512 ltac:(lia)). pose proof (Z.div_mod (q / 512) 512 ltac:(lia)). lia.
  - split; [apply Z.div_pos; [apply Z.div_pos; lia|lia]|]. apply Z.div_lt_upper_bound; [lia|]. apply Z.div_lt_upper_bound; lia.
Qed.

(** The path to the table that holds the entry of [va]. *)
Definition path (va : Z) : list Z := [PX 2 va; PX 1 va].

Lemma path_inj va va' : 0 <= va < MAXVA -> 0 <= va' < MAXVA ->
  path va = path va' -> PX 0 va = PX 0 va' -> va / PGSIZE = va' / PGSIZE.
Proof. intros Hv Hv' [= E2 E1] E0. rewrite !vpn_split by done. by rewrite E2, E1, E0. Qed.

Lemma path_page va va' : va / PGSIZE = va' / PGSIZE -> path va = path va' /\ PX 0 va = PX 0 va'.
Proof.
  intros E. unfold path. rewrite !PX_div by lia.
  replace (2 ^ (12 + 9 * 0)) with PGSIZE by done.
  replace (2 ^ (12 + 9 * 1)) with (PGSIZE * 512) by done.
  replace (2 ^ (12 + 9 * 2)) with (PGSIZE * (512 * 512)) by done.
  rewrite <- !Z.div_div by done. by rewrite E.
Qed.

(** * Memory *)

Lemma vbind_done {A B} (m : VM A) (f : A -> VM B) s x s' : m s = Done (x, s') -> (m ≫= f) s = f x s'.
Proof. unfold mbind, VM_bind. by intros ->. Qed.

(** The entries of a page are apart. *)
Lemma load_store_ne m a b v : (a + 8 <= b \/ b + 8 <= a) -> load64 (store64 m b v) a = load64 m a.
Proof. intros. apply load_ext. intros x Hx. unfold store64. rewrite decide_False; [done|lia]. Qed.

Lemma load_zeroed m p i : 0 <= i < 512 -> load64 (memset m p 0 PGSIZE) (p + 8 * i) = 0.
Proof.
  intros Hi. unfold load64.
  assert (E : (fun j => memset m p 0 PGSIZE (p + 8 * i + j)) <$> seqZ 0 8 = (fun _ => 0) <$> seqZ 0 8).
  { apply list_fmap_ext. intros j x Hx. apply lookup_seqZ in Hx. rewrite memset_spec by done.
    rewrite decide_True by (unfold PGSIZE; lia). done. }
  rewrite E. done.
Qed.

Section tables.
Variable kend : Z.
Implicit Types (T : gmap (list Z) Z) (s : kmem) (l : list Z).

Definition idx (i : Z) : Prop := 0 <= i < 512.

(** [T] lists the pages of the table at [root] by the indices that lead to
    them: a page per key, no page twice, interior entries point to the pages of
    the longer keys and are invalid where there is none. *)
Record ptbl (m : mem) (root : Z) T : Prop := Ptbl {
  pt_root : T !! [] = Some root;
  pt_key : forall k t, T !! k = Some t -> (length k <= 2)%nat /\ Forall idx k /\ page kend t;
  pt_closed : forall k i t, T !! (k ++ [i]) = Some t -> is_Some (T !! k);
  pt_inj : forall k k' t, T !! k = Some t -> T !! k' = Some t -> k = k';
  pt_child : forall k t i t', T !! k = Some t -> T !! (k ++ [i]) = Some t' -> load64 m (t + 8 * i) = entry t' PTE_V;
  pt_none : forall k t i, T !! k = Some t -> (length k < 2)%nat -> idx i -> T !! (k ++ [i]) = None ->
    has (load64 m (t + 8 * i)) PTE_V = false;
}.

(** The state of the allocator and of a table. *)
Definition vm_ok s l root T : Prop :=
  freelist_ok kend s l /\ ptbl (km_mem s) root T /\ forall k t, T !! k = Some t -> t ∉ l.

(** The entry of a virtual address; 0 where there is no table for it. *)
Definition pmap (m : mem) T (va : Z) : Z :=
  match T !! path va with Some t => load64 m (t + 8 * PX 0 va) | None => 0 end.

(** Memory that belongs neither to the table nor to the free list. *)
Definition other T l (x : Z) : Prop :=
  (forall k t, T !! k = Some t -> ~ in_page t x) /\ (forall p, p ∈ l -> ~ in_page p x).

Lemma entry_in_page t i x : idx i -> t + 8 * i <= x < t + 8 * i + 8 -> in_page t x.
Proof. unfold idx, in_page, PGSIZE. lia. Qed.

Lemma ptbl_ext m m' root T :
  ptbl m root T -> (forall k t x, T !! k = Some t -> in_page t x -> m' x = m x) -> ptbl m' root T.
Proof.
  intros [H1 H2 H3 H4 H5 H6] He.
  assert (El : forall k t i, T !! k = Some t -> idx i -> load64 m' (t + 8 * i) = load64 m (t + 8 * i)).
  { intros k t i Ht Hi. apply load_ext. intros x Hx. eapply He; [done|]. by eapply entry_in_page. }
  split; try done.
  - intros k t i t' Ht Ht'. destruct (H2 _ _ Ht') as (_ & [_ [Hi _]%Forall_cons]%Forall_app & _).
    rewrite (El k t i Ht Hi). by eapply H5.
  - intros k t i Ht Hk Hi Hn. rewrite (El k) by done. by eapply H6.
Qed.

Lemma pmap_ext m m' root T va :
  ptbl m root T -> (forall k t x, T !! k = Some t -> in_page t x -> m' x = m x) -> pmap m' T va = pmap m T va.
Proof.
  intros H He. unfold pmap. destruct (T !! path va) as [t|] eqn:Et; [|done]. apply load_ext.
  intros x Hx. eapply He; [done|]. eapply entry_in_page; [|done]. by apply PX_range.
Qed.

(** Pages of the table are apart from each other. *)
Lemma table_apart m root T k k' t t' x :
  ptbl m root T -> T !! k = Some t -> T !! k' = Some t' -> k <> k' -> in_page t x -> ~ in_page t' x.
Proof.
  intros H Ht Ht' Hne. apply (pages_apart kend); [by apply (pt_key _ _ _ H k)|by apply (pt_key _ _ _ H k')|].
  intros ->. apply Hne. by eapply (pt_inj _ _ _ H).
Qed.

(** ** Setting the entry of an address *)

Lemma ptbl_set m root T va t v :
  ptbl m root T -> T !! path va = Some t ->
  ptbl (store64 m (t + 8 * PX 0 va) v) root T.
Proof.
  intros H Ht. pose proof (PX_range 0 va ltac:(lia)) as Hi.
  assert (El : forall k t' i, T !! k = Some t' -> (length k < 2)%nat -> idx i ->
    load64 (store64 m (t + 8 * PX 0 va) v) (t' + 8 * i) = load64 m (t' + 8 * i)).
  { intros k t' i Ht' Hk Hi'. apply load_ext. intros x Hx. unfold store64. rewrite decide_False; [done|].
    intros Hx'. apply (table_apart m root T k (path va) t' t x); try done.
    - intros ->. simpl in Hk. lia.
    - by eapply entry_in_page.
    - by eapply (entry_in_page t (PX 0 va)). }
  destruct H as [H1 H2 H3 H4 H5 H6]. split; try done.
  - intros k t' i t'' Ht' Ht''. destruct (H2 _ _ Ht'') as (Hlen & [_ [Hidx _]%Forall_cons]%Forall_app & _).
    rewrite length_app in Hlen. simpl in Hlen. rewrite (El k) by (done || lia). by eapply H5.
  - intros k t' i Ht' Hk Hidx Hn. rewrite (El k) by done. by eapply H6.
Qed.

Lemma pmap_set m root T va t v va' :
  ptbl m root T -> T !! path va = Some t -> 0 <= v < 2 ^ 64 -> 0 <= va < MAXVA -> 0 <= va' < MAXVA ->
  pmap (store64 m (t + 8 * PX 0 va) v) T va' = if decide (va' / PGSIZE = va / PGSIZE) then v else pmap m T va'.
Proof.
  intros H Ht Hv Hva Hva'. unfold pmap. case_decide as Hp.
  - destruct (path_page _ _ Hp) as [-> ->]. rewrite Ht. by apply load_store.
  - destruct (T !! path va') as [t'|] eqn:Et'; [|done]. apply load_ext. intros x Hx. unfold store64.
    rewrite decide_False; [done|]. intros Hx'. destruct (decide (path va = path va')) as [Ep|Ep].
    + rewrite Ep, Et' in Ht. injection Ht as <-.
      assert (PX 0 va = PX 0 va') by lia. by apply Hp, eq_sym, path_inj.
    + apply (table_apart m root T (path va) (path va') t t' x); try done.
      * eapply (entry_in_page t (PX 0 va)); [by apply PX_range|lia].
      * eapply (entry_in_page t' (PX 0 va')); [by apply PX_range|lia].
Qed.

Lemma freelist_other s l m' :
  freelist_ok kend s l -> (forall p x, p ∈ l -> in_page p x -> m' x = km_mem s x) ->
  freelist_ok kend (KMem m' (km_freelist s)) l.
Proof. intros (Hc & Hn & Hf) He. split; [|done]. simpl. by eapply chain_ext. Qed.

(** Writing in the pages of the table, or outside everything. *)
Lemma free_table_apart s l root T k t p x :
  vm_ok s l root T -> T !! k = Some t -> p ∈ l -> in_page p x -> ~ in_page t x.
Proof.
  intros ((_ & _ & Hf) & H & Hn) Ht Hp. rewrite Forall_forall in Hf.
  apply (pages_apart kend); [by apply Hf|by apply (pt_key _ _ _ H k)|]. intros ->. by eapply Hn.
Qed.

Lemma vm_ok_set s l root T va t v :
  vm_ok s l root T -> T !! path va = Some t ->
  vm_ok (KMem (store64 (km_mem s) (t + 8 * PX 0 va) v) (km_freelist s)) l root T.
Proof.
  intros Hok Ht. pose proof Hok as (Hf & H & Hn). split; [|split; [by apply ptbl_set|done]].
  apply freelist_other; [done|]. intros p x Hp Hx. unfold store64. rewrite decide_False; [done|].
  intros Hx'. apply (free_table_apart s l root T (path va) t p x); try done.
  eapply (entry_in_page t (PX 0 va)); [by apply PX_range|done].
Qed.

(** ** Adding a table *)

Definition fresh_table (s : kmem) (p a : Z) : kmem :=
  KMem (store64 (memset (km_mem s) p 0 PGSIZE) a (Z.lor (PA2PTE p) PTE_V)) (km_freelist s).

Lemma path_keys k i va : path va = k ++ [i] -> k = [PX 2 va] /\ i = PX 1 va.
Proof. unfold path. destruct k as [|a [|b [|c k]]]; simpl; naive_solver. Qed.

(** The table that gets a new page: one entry changes, the page is empty. *)
Lemma ptbl_grow m m' root T k t i p :
  ptbl m root T -> T !! k = Some t -> (length k < 2)%nat -> idx i -> T !! (k ++ [i]) = None ->
  page kend p -> (forall k t, T !! k = Some t -> t <> p) ->
  load64 m' (t + 8 * i) = entry p PTE_V ->
  (forall k' t' j, T !! k' = Some t' -> idx j -> (k', j) <> (k, i) -> load64 m' (t' + 8 * j) = load64 m (t' + 8 * j)) ->
  (forall j, idx j -> load64 m' (p + 8 * j) = 0) ->
  ptbl m' root (<[k ++ [i] := p]> T).
Proof.
  intros H Ht Hk Hi Hnone Hp Hpt Hval Hold Hzero. pose proof H as [H1 H2 H3 H4 H5 H6].
  assert (Hnil : k ++ [i] <> []) by (by destruct k).
  assert (Hsub : forall j, T !! ((k ++ [i]) ++ [j]) = None).
  { intros j. destruct (T !! ((k ++ [i]) ++ [j])) as [t'|] eqn:E; [|done]. apply H3 in E as [? ?]. congruence. }
  split.
  - by rewrite lookup_insert_ne.
  - intros k' t' [[<- <-]|[_ Ht']]%lookup_insert_Some; [|by apply H2].
    destruct (H2 _ _ Ht) as (_ & Hfk & _). split; [rewrite length_app; simpl; lia|]. split; [|done].
    apply Forall_app. split; [done|by constructor].
  - intros k' j t' [[E _]|[_ Ht']]%lookup_insert_Some; apply lookup_insert_is_Some'.
    + apply app_inj_2 in E as [<- _]; [|done]. right. by rewrite Ht.
    + right. by apply H3 in Ht'.
  - intros k1 k2 t' [[<- <-]|[_ Ht1]]%lookup_insert_Some [[<- E]|[_ Ht2]]%lookup_insert_Some; try done.
    + by apply Hpt in Ht2.
    + subst. by apply Hpt in Ht1.
    + by eapply H4.
  - intros k' t' j t'' [[<- <-]|[Hne Ht']]%lookup_insert_Some [[E <-]|[_ Ht'']]%lookup_insert_Some.
    + apply (f_equal length) in E. rewrite !length_app in E. simpl in E. lia.
    + by rewrite Hsub in Ht''.
    + apply app_inj_2 in E as [<- [= <-]]; [|done]. assert (t' = t) as -> by congruence. done.
    + destruct (H2 _ _ Ht'') as (_ & [_ [Hj _]%Forall_cons]%Forall_app & _).
      rewrite (Hold k') by (done || (intros [= -> ->]; congruence)). by eapply H5.
  - intros k' t' j [[<- <-]|[Hne Ht']]%lookup_insert_Some Hk' Hj [Hn Hne']%lookup_insert_None.
    + by rewrite Hzero.
    + rewrite (Hold k') by (done || (intros [= -> ->]; congruence)). by eapply H6.
Qed.

Lemma new_table s s1 p l root T k t i :
  vm_ok s (p :: l) root T -> kalloc s = (p, s1) -> T !! k = Some t -> (length k < 2)%nat -> idx i ->
  T !! (k ++ [i]) = None ->
  let s2 := fresh_table s1 p (t + 8 * i) in
  vm_ok s2 l root (<[k ++ [i] := p]> T) /\
  (forall va, pmap (km_mem s2) (<[k ++ [i] := p]> T) va = pmap (km_mem s) T va) /\
  (forall x, other T (p :: l) x -> km_mem s2 x = km_mem s x).
Proof.
  intros Hok Ek Ht Hk Hi Hnone s2. pose proof Hok as (Hf & H & Hn).
  destruct (kalloc_ok _ _ _ _ Hf) as (s1' & E & Hp & Hpl & Hf1 & Hm1). rewrite Ek in E. injection E as <-.
  assert (Hpt : forall k t, T !! k = Some t -> t <> p) by (intros k' t' Ht' ->; eapply Hn; [done|left]).
  assert (Hin : in_page t (t + 8 * i) /\ forall x, t + 8 * i <= x < t + 8 * i + 8 -> in_page t x).
  { split; [unfold in_page, idx, PGSIZE in *; lia|]. intros x. by apply entry_in_page. }
  assert (Htp : page kend t) by by apply (pt_key _ _ _ H k).
  assert (Hp2 : forall x, ~ in_page p x -> ~ (t + 8 * i <= x < t + 8 * i + 8) -> km_mem s2 x = km_mem s x).
  { intros x Hx Hx'. unfold s2, fresh_table. simpl. unfold store64. rewrite decide_False by done.
    rewrite memset_spec by done. rewrite decide_False by done. rewrite Hm1. by rewrite decide_False. }
  assert (Hval : load64 (km_mem s2) (t + 8 * i) = entry p PTE_V).
  { unfold s2, fresh_table. simpl. rewrite entry_pte; [|by eapply page_ppage|done].
    apply load_store. apply entry_range; [by eapply page_ppage|done]. }
  assert (Hold : forall k' t' j, T !! k' = Some t' -> idx j -> (k', j) <> (k, i) ->
    load64 (km_mem s2) (t' + 8 * j) = load64 (km_mem s) (t' + 8 * j)).
  { intros k' t' j Ht' Hj Hne. apply load_ext. intros x Hx. apply Hp2.
    - eapply (pages_apart kend t'); [by apply (pt_key _ _ _ H k')|done|by eapply Hpt|by eapply entry_in_page].
    - intros Hx'. destruct (decide (k' = k)) as [->|].
      + assert (t' = t) as -> by congruence. apply Hne. f_equal. lia.
      + apply (table_apart (km_mem s) root T k' k t' t x); try done; [by eapply entry_in_page|by apply Hin]. }
  assert (Hzero : forall j, idx j -> load64 (km_mem s2) (p + 8 * j) = 0).
  { intros j Hj. rewrite <- (load_zeroed (km_mem s1) p j) by done. apply load_ext. intros x Hx.
    unfold s2, fresh_table. simpl. unfold store64. rewrite decide_False; [done|]. intros Hx'.
    apply (pages_apart kend t p x); [done|done|by eapply Hpt|by apply Hin|by eapply entry_in_page]. }
  split; [|split].
  - split; [|split].
    + unfold s2, fresh_table. eapply freelist_other; [exact Hf1|]. intros q x Hq Hx.
      assert (Hqp : page kend q) by (destruct Hf1 as (_ & _ & Hf1); rewrite Forall_forall in Hf1; by apply Hf1).
      unfold store64. rewrite decide_False.
      * rewrite memset_spec by done. rewrite decide_False; [done|]. by apply (pages_apart kend q p x); [..|intros ->|].
      * intros Hx'. apply (pages_apart kend q t x); try done; [|by apply Hin]. intros ->. eapply Hn; [done|by right].
    + by apply (ptbl_grow (km_mem s) _ root T k t i p).
    + intros k' t' Ht'. apply lookup_insert_Some in Ht' as [[_ <-]|[_ Ht']]; [done|].
      intros Hl. eapply Hn; [done|by right].
  - intros va. unfold pmap. destruct (decide (path va = k ++ [i])) as [Ep|Ep].
    + rewrite Ep, lookup_insert_eq, Hnone. apply Hzero. by apply PX_range.
    + rewrite lookup_insert_ne by done. destruct (T !! path va) as [t'|] eqn:Et'; [|done].
      apply (Hold (path va)); [done|by apply PX_range|]. intros [= E _]. rewrite <- E in Hk. simpl in Hk. lia.
  - intros x [Hx1 Hx2]. apply Hp2; [apply Hx2; by left|]. intros Hx. apply (Hx1 k t Ht). by apply Hin.
Qed.

(** ** Walking *)

(** Tables may have been added, from the free list; no translation changed. *)
Record grown root s l T s' l' T' : Prop := Grown {
  gr_ok : vm_ok s' l' root T';
  gr_sub : T ⊆ T';
  gr_free : exists u, l = u ++ l';
  gr_new : forall k t, T' !! k = Some t -> T !! k = Some t \/ t ∈ l;
  gr_pmap : forall va, pmap (km_mem s') T' va = pmap (km_mem s) T va;
  gr_other : forall x, other T l x -> km_mem s' x = km_mem s x;
}.

Lemma grown_refl root s l T : vm_ok s l root T -> grown root s l T s l T.
Proof. intros. split; try done; [by exists []|by left]. Qed.

Lemma other_mono T l T' l' x :
  (forall k t, T' !! k = Some t -> T !! k = Some t \/ t ∈ l) -> (forall p, p ∈ l' -> p ∈ l) ->
  other T l x -> other T' l' x.
Proof.
  intros HT Hl [H1 H2]. split; [|by auto]. intros k t Ht. destruct (HT k t Ht) as [?|?]; [by eapply H1|by apply H2].
Qed.

Lemma grown_trans root s l T s1 l1 T1 s2 l2 T2 :
  grown root s l T s1 l1 T1 -> grown root s1 l1 T1 s2 l2 T2 -> grown root s l T s2 l2 T2.
Proof.
  intros [A1 A2 [u A3] A4 A5 A6] [B1 B2 [v B3] B4 B5 B6].
  assert (Hl : forall p, p ∈ l1 -> p ∈ l) by (intros p Hp; rewrite A3; apply elem_of_app; by right).
  split; [done|by trans T1|..].
  - exists (u ++ v). by rewrite <- app_assoc, <- B3.
  - intros k t Ht. destruct (B4 k t Ht) as [Ht1|Ht1]; [by apply A4|right; by apply Hl].
  - intros va. by rewrite B5, A5.
  - intros x Hx. rewrite B6; [by apply A6|]. by eapply other_mono.
Qed.

(** The path down to a level. *)
Definition pre (va : Z) (level : nat) : list Z :=
  match level with 2%nat => [] | 1%nat => [PX 2 va] | _ => path va end.

Lemma walk_loop_ok root va alloc level t s l T :
  (level <= 2)%nat -> vm_ok s l root T -> T !! pre va level = Some t ->
  exists r s' l' T', walk_loop level t va alloc s = Done (r, s') /\ grown root s l T s' l' T' /\
    (alloc = false -> s' = s /\ l' = l /\ T' = T) /\
    ((r = 0 /\ T' !! path va = None /\ (alloc = true -> l' = [])) \/
     (exists t0, T' !! path va = Some t0 /\ r = t0 + 8 * PX 0 va)).
Proof.
  revert t s l T. induction level as [|level IH]; intros t s l T Hlv Hok Ht.
  { exists (t + 8 * PX 0 va), s, l, T. split; [done|]. split; [by apply grown_refl|]. split; [done|]. right. by exists t. }
  pose proof Hok as (Hf & H & Hn). cbn [walk_loop].
  set (i := PX (Z.of_nat (S level)) va). assert (Hi : idx i) by (apply PX_range; lia).
  assert (Epre : pre va level = pre va (S level) ++ [i]) by (destruct level as [|[|]]; [done..|lia]).
  assert (Hlen : (length (pre va (S level)) < 2)%nat) by (destruct level as [|[|]]; simpl; lia).
  rewrite (vbind_done _ _ s (load64 (km_mem s) (t + 8 * i)) s) by done.
  assert (Hnopath : T !! pre va level = None -> T !! path va = None).
  { intros Hx. destruct (T !! path va) as [t0|] eqn:E; [|done]. destruct level as [|[|]]; [..|lia].
    - simpl in Hx. congruence.
    - assert (is_Some (T !! [PX 2 va])) as [? ?] by (eapply (pt_closed _ _ _ H [PX 2 va] (PX 1 va)); exact E).
      simpl in Hx. congruence. }
  destruct (T !! pre va level) as [t'|] eqn:Et'.
  - assert (Ee : load64 (km_mem s) (t + 8 * i) = entry t' PTE_V).
    { eapply (pt_child _ _ _ H (pre va (S level))); [done|]. by rewrite <- Epre. }
    assert (Hpp : ppage t') by (eapply page_ppage, (pt_key _ _ _ H), Et').
    rewrite Ee, entry_has, entry_page by done. change (has PTE_V PTE_V) with true. cbv iota. apply IH; [lia|done|done].
  - rewrite (pt_none _ _ _ H (pre va (S level)) t i Ht Hlen Hi) by (by rewrite <- Epre).
    destruct alloc; simpl.
    + destruct l as [|p l].
      * rewrite (vbind_done _ _ s 0 s) by (unfold vkalloc; by rewrite (kalloc_nil kend)). simpl.
        exists 0, s, [], T. split; [done|]. split; [by apply grown_refl|]. split; [done|]. left. auto.
      * destruct (kalloc_ok _ _ _ _ Hf) as (s1 & Ek & Hp & _).
        rewrite (vbind_done _ _ s p s1) by (unfold vkalloc; by rewrite Ek).
        rewrite (proj2 (Z.eqb_neq p 0)) by (destruct Hp; lia).
        destruct (new_table s s1 p l root T (pre va (S level)) t i) as (Hok2 & Hpm & Hot); try done.
        { by rewrite <- Epre. }
        rewrite <- Epre in Hok2, Hpm.
        rewrite (vbind_done _ _ s1 tt (KMem (memset (km_mem s1) p 0 PGSIZE) (km_freelist s1))) by done.
        rewrite (vbind_done _ _ _ tt (fresh_table s1 p (t + 8 * i))) by done.
        destruct (IH p _ l _ ltac:(lia) Hok2) as (r & s' & l' & T' & E & Hg & _ & Hr); [apply lookup_insert_eq|].
        exists r, s', l', T'. split; [done|]. split; [|done]. eapply grown_trans; [|exact Hg].
        split; try done; [by apply insert_subseteq|by exists [p]|].
        intros k t0 [[_ <-]|[_ ?]]%lookup_insert_Some; [right; by left|by left].
    + exists 0, s, l, T. split; [done|]. split; [by apply grown_refl|]. split; [done|]. left. split; [done|]. by split; [apply Hnopath|].
Qed.

Lemma walk_ok root va alloc s l T :
  0 <= va < MAXVA -> vm_ok s l root T ->
  exists r s' l' T', walk root va alloc s = Done (r, s') /\ grown root s l T s' l' T' /\
    (alloc = false -> s' = s /\ l' = l /\ T' = T) /\
    ((r = 0 /\ T' !! path va = None /\ (alloc = true -> l' = [])) \/
     (exists t0, T' !! path va = Some t0 /\ r = t0 + 8 * PX 0 va /\ r <> 0)).
Proof.
  intros Hva Hok. unfold walk. rewrite Z.geb_leb, (proj2 (Z.leb_gt _ _)) by lia.
  destruct (walk_loop_ok root va alloc 2 root s l T) as (r & s' & l' & T' & E & Hg & Ha & Hr); [done|done| |].
  { apply Hok. }
  exists r, s', l', T'. split; [done|]. split; [done|]. split; [done|].
  destruct Hr as [Hr|(t0 & Ht0 & ->)]; [by left|right]. exists t0. split; [done|]. split; [done|].
  destruct (gr_ok _ _ _ _ _ _ _ Hg) as (_ & Hpt & _).
  destruct (pt_key _ _ _ Hpt _ _ Ht0) as (_ & _ & _ & H0 & _). pose proof (PX_range 0 va ltac:(lia)). lia.
Qed.
End tables.
