(* ===== verification/VmMap.v ===== *)
(** Mapping and unmapping ranges of pages: [mappages] and [uvmunmap] of
    kernel/vm.c on the abstract map of VmTable. *)

From S2P Require Import Prelude CString Kalloc Vm VmTable.
Local Open Scope Z_scope.

Section maps.
Variable kend : Z.
Implicit Types (T : gmap (list Z) Z) (s : kmem) (l : list Z).

(** What changes in memory when tables grow and entries are set. *)
Record ext root s l T s' l' T' : Prop := Ext {
  ex_ok : vm_ok kend s' l' root T';
  ex_sub : T ⊆ T';
  ex_free : exists u, l = u ++ l';
  ex_new : forall k t, T' !! k = Some t -> T !! k = Some t \/ t ∈ l;
  ex_other : forall x, other T l x -> km_mem s' x = km_mem s x;
}.

Lemma ext_refl root s l T : vm_ok kend s l root T -> ext root s l T s l T.
Proof. intros. split; try done; [by exists []|by left]. Qed.

Lemma ext_free_in root s l T s' l' T' p : ext root s l T s' l' T' -> p ∈ l' -> p ∈ l.
Proof. intros [_ _ [u ->] _ _] Hp. apply elem_of_app. by right. Qed.

Lemma ext_trans root s l T s1 l1 T1 s2 l2 T2 :
  ext root s l T s1 l1 T1 -> ext root s1 l1 T1 s2 l2 T2 -> ext root s l T s2 l2 T2.
Proof.
  intros A B. pose proof (fun p => ext_free_in _ _ _ _ _ _ _ p A) as Hl.
  destruct A as [A1 A2 [u A3] A4 A6], B as [B1 B2 [v B3] B4 B6].
  split; [done|by trans T1|..].
  - exists (u ++ v). by rewrite <- app_assoc, <- B3.
  - intros k t Ht. destruct (B4 k t Ht) as [Ht1|Ht1]; [by apply A4|right; by apply Hl].
  - intros x Hx. rewrite B6; [by apply A6|]. by eapply other_mono.
Qed.

Lemma grown_ext root s l T s' l' T' : grown kend root s l T s' l' T' -> ext root s l T s' l' T'.
Proof. by intros []. Qed.

(** The entry of [va] is set. *)
Lemma ext_set root s l T va t v :
  vm_ok kend s l root T -> T !! path va = Some t ->
  ext root s l T (KMem (store64 (km_mem s) (t + 8 * PX 0 va) v) (km_freelist s)) l T.
Proof.
  intros Hok Ht. split; [by apply vm_ok_set|done|by exists []|by left|].
  intros x [Hx _]. simpl. unfold store64. rewrite decide_False; [done|]. intros Hx'.
  apply (Hx _ _ Ht). eapply (entry_in_page t (PX 0 va)); [by apply PX_range|done].
Qed.

(** The map after [j] pages from [va] are mapped to the pages from [pa]. *)
Definition mapped (f : Z -> Z) (va pa perm j va' : Z) : Z :=
  if decide (va <= va' < va + j * PGSIZE) then entry (pa + (va' - va) / PGSIZE * PGSIZE) perm else f va'.

Lemma perm_or perm : 0 <= perm < 1024 -> 0 <= Z.lor perm PTE_V < 1024.
Proof.
  intros Hp. split; [apply Z.lor_nonneg; split; [lia|done]|].
  destruct (decide (Z.lor perm PTE_V = 0)) as [->|]; [lia|].
  assert (0 <= Z.lor perm PTE_V) by (apply Z.lor_nonneg; split; [lia|done]).
  change 1024 with (2 ^ 10). apply Z.log2_lt_pow2; [lia|]. rewrite Z.log2_lor by (lia || done).
  destruct (decide (perm = 0)) as [->|]; [done|]. apply Z.max_lub_lt; [|done].
  apply Z.log2_lt_pow2; lia.
Qed.

Lemma page_step a : a mod PGSIZE = 0 -> (a + PGSIZE) mod PGSIZE = 0.
Proof. intros H. rewrite <- (Z.mul_1_l PGSIZE) at 1. by rewrite Z.mod_add. Qed.

Lemma vpn_range a va' : a mod PGSIZE = 0 -> va' / PGSIZE = a / PGSIZE <-> a <= va' < a + PGSIZE.
Proof.
  intros Ha. pose proof (Z.div_mod a PGSIZE ltac:(done)). pose proof (Z.div_mod va' PGSIZE ltac:(done)).
  pose proof (Z.mod_pos_bound va' PGSIZE ltac:(done)). split; [unfold PGSIZE in *; lia|].
  intros Hr. unfold PGSIZE in *. nia.
Qed.

Lemma mapped_step f va pa perm j va' :
  0 <= j -> mapped (mapped f va pa perm 1) (va + PGSIZE) (pa + PGSIZE) perm j va' = mapped f va pa perm (j + 1) va'.
Proof.
  intros Hj. unfold mapped. destruct (decide (va <= va' < va + 1 * PGSIZE)).
  - rewrite decide_False by lia. rewrite !decide_True by (unfold PGSIZE in *; lia). done.
  - destruct (decide (va + PGSIZE <= va' < va + PGSIZE + j * PGSIZE)).
    + rewrite decide_True by (unfold PGSIZE in *; lia). f_equal.
      replace (va' - va) with (va' - (va + PGSIZE) + 1 * PGSIZE) by lia. rewrite Z.div_add by done. lia.
    + rewrite decide_False by (unfold PGSIZE in *; lia). done.
Qed.

(** One round of [mappages]. *)
Lemma map_one root va pa perm s l T :
  vm_ok kend s l root T -> va mod PGSIZE = 0 -> 0 <= va < MAXVA -> ppage pa -> 0 <= perm < 1024 ->
  has (pmap (km_mem s) T va) PTE_V = false ->
  exists r s1 l1 T1, walk root va true s = Done (r, s1) /\ ext root s l T s1 l1 T1 /\
    ((r = 0 /\ l1 = [] /\ forall va', pmap (km_mem s1) T1 va' = pmap (km_mem s) T va') \/
     (r <> 0 /\ has (load64 (km_mem s1) r) PTE_V = false /\
      let s2 := KMem (store64 (km_mem s1) r (Z.lor (Z.lor (PA2PTE pa) perm) PTE_V)) (km_freelist s1) in
      ext root s l T s2 l1 T1 /\
      forall va', 0 <= va' < MAXVA ->
        pmap (km_mem s2) T1 va' = mapped (pmap (km_mem s) T) va pa (Z.lor perm PTE_V) 1 va')).
Proof.
  intros Hok Ha Hva Hpa Hperm Hun.
  destruct (walk_ok kend root va true s l T Hva Hok) as (r & s1 & l1 & T1 & E & Hg & _ & Hr).
  exists r, s1, l1, T1. split; [done|]. split; [by apply grown_ext|].
  destruct Hr as [(-> & _ & Hl)|(t0 & Ht0 & -> & Hne)].
  - left. split; [done|]. split; [by apply Hl|]. apply Hg.
  - right. split; [done|]. pose proof (gr_ok _ _ _ _ _ _ _ _ Hg) as Hok1. split.
    + pose proof (gr_pmap _ _ _ _ _ _ _ _ Hg va) as Ep. unfold pmap at 1 in Ep. rewrite Ht0 in Ep. by rewrite Ep.
    + split; [eapply ext_trans; [by apply grown_ext|by apply ext_set]|]. simpl.
      intros va' Hva'. rewrite <- Z.lor_assoc, entry_pte by (done || by apply perm_or).
      rewrite (pmap_set kend _ root) by (done || apply Hok1 || (apply entry_range; [done|by apply perm_or])).
      unfold mapped. rewrite (gr_pmap _ _ _ _ _ _ _ _ Hg).
      destruct (decide (va' / PGSIZE = va / PGSIZE)) as [Ev|Ev].
      * apply vpn_range in Ev; [|done]. rewrite decide_True by lia.
        rewrite Z.div_small by lia. f_equal. lia.
      * rewrite decide_False; [done|]. intros Hx. apply Ev. apply vpn_range; [done|lia].
Qed.

Lemma mappages_loop_ok root perm n va pa s l T :
  vm_ok kend s l root T -> (0 < n)%nat -> va mod PGSIZE = 0 -> 0 <= va -> va + Z.of_nat n * PGSIZE <= MAXVA ->
  pa mod PGSIZE = 0 -> 0 <= pa -> pa + Z.of_nat n * PGSIZE <= 2 ^ 56 -> 0 <= perm < 1024 ->
  (forall va', va <= va' < va + Z.of_nat n * PGSIZE -> has (pmap (km_mem s) T va') PTE_V = false) ->
  exists r j s' l' T', mappages_loop n root va (va + (Z.of_nat n - 1) * PGSIZE) pa perm s = Done (r, s') /\
    ext root s l T s' l' T' /\
    (forall va', 0 <= va' < MAXVA ->
       pmap (km_mem s') T' va' = mapped (pmap (km_mem s) T) va pa (Z.lor perm PTE_V) j va') /\
    ((r = 0 /\ j = Z.of_nat n) \/ (r = -1 /\ 0 <= j < Z.of_nat n /\ l' = [])).
Proof.
  revert va pa s l T. induction n as [|n IH]; intros va pa s l T Hok Hn Ha Hva Hend Hpa Hpa0 Hpend Hperm Hun; [lia|].
  assert (HPG : PGSIZE = 4096) by done.
  destruct (map_one root va pa perm s l T) as (r & s1 & l1 & T1 & E & Hx & Hr); try done.
  { lia. } { split; [done|]. unfold PGSIZE in *. lia. } { apply Hun. lia. }
  cbn [mappages_loop]. rewrite (vbind_done _ _ _ _ _ E).
  destruct Hr as [(-> & -> & Hp)|(Hne & Hv & Hx2 & Hp)].
  { exists (-1), 0, s1, [], T1. split; [done|]. split; [done|]. split; [|right; split; [done|split; [lia|done]]].
    intros va' _. unfold mapped. rewrite decide_False by lia. apply Hp. }
  rewrite (proj2 (Z.eqb_neq r 0)) by done. rewrite (vbind_done _ _ s1 (load64 (km_mem s1) r) s1) by done.
  rewrite Hv. rewrite (vbind_done _ _ s1 tt (KMem (store64 (km_mem s1) r (Z.lor (Z.lor (PA2PTE pa) perm) PTE_V)) (km_freelist s1))) by done.
  set (s2 := KMem _ _) in *.
  destruct (Z.eqb_spec va (va + (Z.of_nat (S n) - 1) * PGSIZE)) as [Elast|Elast].
  { exists 0, 1, s2, l1, T1. split; [done|]. split; [done|]. split; [done|]. left. unfold PGSIZE in *. lia. }
  rewrite (u64_small (va + PGSIZE)) by (change MAXVA with (2 ^ 38) in *; unfold PGSIZE in *; lia).
  rewrite (u64_small (pa + PGSIZE)) by (unfold PGSIZE in *; lia).
  destruct (IH (va + PGSIZE) (pa + PGSIZE) s2 l1 T1) as (r' & j & s' & l' & T' & E' & Hx' & Hp' & Hr');
    try (done || by apply page_step || by apply Hx2 || (unfold PGSIZE in *; lia)).
  { intros va' Hva'. unfold PGSIZE in *. rewrite Hp by lia. unfold mapped. rewrite decide_False by (unfold PGSIZE; lia). apply Hun. lia. }
  exists r', (j + 1), s', l', T'.
  replace (va + PGSIZE + (Z.of_nat n - 1) * PGSIZE) with (va + (Z.of_nat (S n) - 1) * PGSIZE) in E' by lia.
  split; [done|]. split; [by eapply ext_trans|].
  split; [|destruct Hr' as [[-> ->]|(-> & Hj & ->)]; [left|right]; (split; [done|]); [lia|split; [lia|done]]].
  intros va' Hva'. rewrite Hp' by done. rewrite <- mapped_step by (destruct Hr'; lia). unfold mapped.
  case_decide; [done|]. apply Hp. lia.
Qed.

(** ** Unmapping *)

Definition apart_tables T (p : Z) : Prop := forall k t, T !! k = Some t -> t <> p.

(** A data page goes to the free list. *)
Lemma vm_ok_free root s l T p :
  vm_ok kend s l root T -> page kend p -> p ∉ l -> apart_tables T p ->
  exists s', kfree kend p s = Done s' /\ vm_ok kend s' (p :: l) root T /\
    (forall x, ~ in_page p x -> km_mem s' x = km_mem s x).
Proof.
  intros (Hf & H & Hn) Hp Hpl Hpt. destruct (kfree_ok kend s l p Hf Hp Hpl) as (s' & E & Hf' & Hm).
  exists s'. split; [done|]. split; [|done]. split; [done|]. split.
  - eapply ptbl_ext; [done|]. intros k t x Ht Hx. apply Hm.
    eapply (pages_apart kend t); [by apply (pt_key _ _ _ _ H k)|done|by eapply Hpt|done].
  - intros k t Ht [->|Hl]%elem_of_cons; [by eapply Hpt|by eapply Hn].
Qed.

Lemma table_free_pmap root s s' l T p va :
  vm_ok kend s l root T -> page kend p -> apart_tables T p ->
  (forall x, ~ in_page p x -> km_mem s' x = km_mem s x) -> pmap (km_mem s') T va = pmap (km_mem s) T va.
Proof.
  intros (_ & H & _) Hp Hpt Hm. eapply pmap_ext; [done|]. intros k t x Ht Hx. apply Hm.
  eapply (pages_apart kend t); [by apply (pt_key _ _ _ _ H k)|done|by eapply Hpt|done].
Qed.

(** Flags of a leaf. *)
Definition leaf_flags (f : Z) : Prop := 0 <= f < 1024 /\ has f PTE_V = true /\ f <> PTE_V.

(** The pages [pgs], each with its flags, are mapped one after the other from
    [va]. *)
Definition range_maps (f : Z -> Z) (va : Z) (pgs : list (Z * Z)) : Prop :=
  forall i p fl, pgs !! i = Some (p, fl) -> f (va + Z.of_nat i * PGSIZE) = entry p fl.

(** Pages that are in no list or table of the kernel. *)
Definition data_pages l T (pgs : list (Z * Z)) : Prop :=
  NoDup pgs.*1 /\ Forall (fun pf => page kend pf.1 /\ pf.1 ∉ l /\ apart_tables T pf.1 /\ leaf_flags pf.2) pgs.

Lemma data_pages_cons l T p f pgs :
  data_pages l T ((p, f) :: pgs) ->
  page kend p /\ p ∉ l /\ apart_tables T p /\ leaf_flags f /\ p ∉ pgs.*1 /\ data_pages (p :: l) T pgs /\ data_pages l T pgs.
Proof.
  intros [[Hn Hnd]%NoDup_cons [(H1 & H2 & H3 & H4) HF]%Forall_cons]. simpl in *. do 5 (split; [done|]). split; [|done].
  split; [done|]. rewrite Forall_forall in HF |- *. intros [q g] Hq. destruct (HF _ Hq) as (A & B & C & D).
  simpl in *. split; [done|]. split; [|done]. intros [->|]%elem_of_cons; [|done].
  apply Hn. apply list_elem_of_fmap. by exists (p, g).
Qed.

(** The map without the [n] pages from [va]. *)
Definition unmapped (f : Z -> Z) (va n va' : Z) : Z :=
  if decide (va <= va' < va + n * PGSIZE) then 0 else f va'.

Lemma unmap_loop_ok root free pgs va s l T fuel :
  vm_ok kend s l root T -> (length pgs < fuel)%nat -> va mod PGSIZE = 0 -> 0 <= va ->
  va + Z.of_nat (length pgs) * PGSIZE <= MAXVA ->
  range_maps (pmap (km_mem s) T) va pgs -> data_pages l T pgs ->
  exists s', uvmunmap_loop kend fuel root va (va + Z.of_nat (length pgs) * PGSIZE) free s = Done (tt, s') /\
    vm_ok kend s' ((if free then rev pgs.*1 else []) ++ l) root T /\
    (forall va', 0 <= va' < MAXVA ->
       pmap (km_mem s') T va' = unmapped (pmap (km_mem s) T) va (Z.of_nat (length pgs)) va') /\
    (forall x, (forall k t, T !! k = Some t -> ~ in_page t x) -> (forall p, p ∈ pgs.*1 -> ~ in_page p x) ->
       km_mem s' x = km_mem s x).
Proof.
  revert va s l fuel. induction pgs as [|[p f] pgs IH]; intros va s l fuel Hok Hfu Ha Hva Hend Hr Hd;
    (destruct fuel as [|fuel]; [simpl in Hfu; lia|]); cbn [uvmunmap_loop].
  { replace (va + Z.of_nat (length []) * PGSIZE) with va by (simpl; lia). rewrite (proj2 (Z.ltb_ge va va)) by lia.
    exists s. split; [done|]. split; [by destruct free|]. split; [|done].
    intros va' _. unfold unmapped. rewrite decide_False by (simpl; lia). done. }
  cbn [length] in *. assert (Hva2 : va < va + Z.of_nat (S (length pgs)) * PGSIZE) by (unfold PGSIZE; lia).
  rewrite (proj2 (Z.ltb_lt _ _)) by done.
  destruct (data_pages_cons _ _ _ _ _ Hd) as (Hp & Hpl & Hpt & (Hf & Hfv & Hfne) & Hpp & Hd1 & Hd2).
  destruct (walk_ok kend root va false s l T) as (r & s1 & l1 & T1 & E & _ & Hs & Hw); [lia|done|].
  destruct (Hs eq_refl) as (-> & -> & ->). rewrite (vbind_done _ _ _ _ _ E).
  pose proof (Hr 0%nat p f eq_refl) as Hr0. rewrite Z.mul_0_l, Z.add_0_r in Hr0.
  assert (Hpv : entry p f <> 0).
  { intros E0. pose proof (entry_flags p f Hf) as E1. rewrite E0 in E1. simpl in E1. subst f. done. }
  destruct Hw as [(_ & Hnone & _)|(t0 & Ht0 & -> & Hne)].
  { unfold pmap in Hr0. rewrite Hnone in Hr0. congruence. }
  rewrite (proj2 (Z.eqb_neq _ 0)) by done. rewrite (vbind_done _ _ s (entry p f) s).
  2: { unfold vload. unfold pmap in Hr0. rewrite Ht0 in Hr0. by rewrite Hr0. }
  rewrite entry_has, Hfv, entry_flags by done. cbn [negb]. rewrite (proj2 (Z.eqb_neq f PTE_V)) by done.
  rewrite entry_page by (done || by eapply page_ppage).
  assert (Hfree : exists s1, (if free then vkfree kend p else mret tt) s = Done (tt, s1) /\
    vm_ok kend s1 ((if free then [p] else []) ++ l) root T /\
    (forall x, ~ in_page p x -> km_mem s1 x = km_mem s x)).
  { destruct free; [|by exists s]. destruct (vm_ok_free root s l T p) as (s1 & E1 & Hok1 & Hm1); try done.
    exists s1. unfold vkfree. by rewrite E1. }
  destruct Hfree as (s1 & E1 & Hok1 & Hm1). rewrite (vbind_done _ _ _ _ _ E1).
  set (s2 := KMem (store64 (km_mem s1) (t0 + 8 * PX 0 va) 0) (km_freelist s1)).
  rewrite (vbind_done _ _ s1 tt s2) by done.
  assert (Hok2 : vm_ok kend s2 ((if free then [p] else []) ++ l) root T) by by apply vm_ok_set.
  assert (Hp2 : forall va', 0 <= va' < MAXVA -> pmap (km_mem s2) T va' = unmapped (pmap (km_mem s) T) va 1 va').
  { intros va' Hva'. unfold s2. cbn [km_mem]. rewrite (pmap_set kend _ root) by (done || lia || apply Hok1).
    rewrite (table_free_pmap root s s1 l T p) by done. unfold unmapped.
    destruct (decide (va' / PGSIZE = va / PGSIZE)) as [Ev|Ev].
    - apply vpn_range in Ev; [|done]. by rewrite decide_True by lia.
    - rewrite decide_False; [done|]. intros Hx. apply Ev, vpn_range; [done|lia]. }
  rewrite u64_small by (change MAXVA with (2 ^ 38) in *; unfold PGSIZE in *; lia).
  replace (va + Z.of_nat (S (length pgs)) * PGSIZE) with (va + PGSIZE + Z.of_nat (length pgs) * PGSIZE) in * by lia.
  destruct (IH (va + PGSIZE) s2 ((if free then [p] else []) ++ l) fuel) as (s' & E' & Hok' & Hp' & Hm');
    try (done || lia || by apply page_step).
  { unfold PGSIZE; lia. }
  { intros i q g Hi. specialize (Hr (S i) q g Hi).
    assert (Hi' : Z.of_nat i < Z.of_nat (length pgs)) by (apply lookup_lt_Some in Hi; lia).
    rewrite Hp2 by (unfold PGSIZE in *; lia). unfold unmapped. rewrite decide_False by (unfold PGSIZE in *; lia).
    rewrite <- Hr. f_equal. lia. }
  { by destruct free. }
  exists s'. split; [done|]. split; [|split].
  - destruct free; [|done]. cbn [fmap list_fmap fst rev]. by rewrite <- app_assoc.
  - intros va' Hva'. rewrite Hp' by done. unfold unmapped.
    destruct (decide (va + PGSIZE <= va' < va + PGSIZE + Z.of_nat (length pgs) * PGSIZE)).
    + by rewrite decide_True by (unfold PGSIZE in *; lia).
    + rewrite Hp2 by done. unfold unmapped. destruct (decide (va <= va' < va + 1 * PGSIZE)).
      * by rewrite decide_True by (unfold PGSIZE in *; lia).
      * by rewrite decide_False by (unfold PGSIZE in *; lia).
  - intros x Hx1 Hx2. rewrite Hm'; [|done|intros q Hq; apply Hx2; by right].
    unfold s2. cbn [km_mem]. unfold store64. rewrite decide_False.
    + apply Hm1, Hx2. by left.
    + intros Hx. apply (Hx1 _ _ Ht0). eapply (entry_in_page t0 (PX 0 va)); [by apply PX_range|done].
Qed.
End maps.
