(* ===== verification/VmUser.v ===== *)
(** User address spaces: growing and shrinking them, copying to and from them
    (kernel/vm.c), and the promise of these copies to the file system. *)

From S2P Require Import Prelude BufCache BufSpec KState CString Kalloc Vm VmTable VmMap.
Local Open Scope Z_scope.

Lemma pgrounddown_spec a : pgrounddown a = a / PGSIZE * PGSIZE.
Proof. apply land_pages. Qed.

Lemma pgrounddown_page a : pgrounddown a mod PGSIZE = 0 /\ pgrounddown a <= a < pgrounddown a + PGSIZE.
Proof.
  rewrite pgrounddown_spec. split; [by apply Z.mod_mul|].
  pose proof (Z.div_mod a PGSIZE ltac:(done)). pose proof (Z.mod_pos_bound a PGSIZE ltac:(done)). lia.
Qed.

Lemma pgroundup_spec a : 0 <= a -> a + PGSIZE <= 2 ^ 64 ->
  pgroundup a = (a + PGSIZE - 1) / PGSIZE * PGSIZE /\ a <= pgroundup a < a + PGSIZE.
Proof.
  intros. unfold pgroundup. rewrite u64_small by (unfold PGSIZE in *; lia). rewrite land_pages. split; [done|].
  pose proof (Z.div_mod (a + PGSIZE - 1) PGSIZE ltac:(done)).
  pose proof (Z.mod_pos_bound (a + PGSIZE - 1) PGSIZE ltac:(done)). lia.
Qed.

Section user.
Variable kend : Z.
Implicit Types (T : gmap (list Z) Z) (s : kmem) (l : list Z) (pgs : list (Z * Z)).

(** The pages [pgs], with their flags, are the address space from 0; above them
    nothing is mapped up to the trap frame, and the user cannot reach the pages
    from there on. *)
Record uspace s l root T pgs : Prop := USpace {
  us_ok : vm_ok kend s l root T;
  us_maps : range_maps (pmap (km_mem s) T) 0 pgs;
  us_data : data_pages kend l T pgs;
  us_size : Z.of_nat (length pgs) * PGSIZE <= TRAPFRAME;
  us_none : forall va, Z.of_nat (length pgs) * PGSIZE <= va < TRAPFRAME -> has (pmap (km_mem s) T va) PTE_V = false;
  us_kern : forall va, TRAPFRAME <= va < MAXVA -> has (pmap (km_mem s) T va) PTE_U = false;
}.

(** The page of an address and its flags. *)
Definition upage pgs (va : Z) : option (Z * Z) := if decide (0 <= va) then pgs !! Z.to_nat (va / PGSIZE) else None.

(** The physical address of a byte the user can reach with permission [f]. *)
Definition uaddr pgs (f va : Z) : option Z :=
  '(p, fl) ← upage pgs va; if has fl PTE_U && has fl f then Some (p + va mod PGSIZE) else None.

Lemma pmap_page m T va : pmap m T va = pmap m T (va / PGSIZE * PGSIZE).
Proof.
  unfold pmap. destruct (path_page va (va / PGSIZE * PGSIZE)) as [-> ->]; [|done].
  by rewrite Z.div_mul.
Qed.

(** The entry of an address in the space. *)
Lemma uspace_pmap s l root T pgs va :
  uspace s l root T pgs -> 0 <= va < MAXVA ->
  match upage pgs va with
  | Some (p, fl) => pmap (km_mem s) T va = entry p fl /\ page kend p /\ leaf_flags fl
  | None => has (pmap (km_mem s) T va) PTE_V && has (pmap (km_mem s) T va) PTE_U = false
  end.
Proof.
  intros [H1 H2 H3 H4 H5 H6] Hva. unfold upage. rewrite decide_True by lia.
  destruct (pgs !! Z.to_nat (va / PGSIZE)) as [[p fl]|] eqn:E.
  - specialize (H2 _ _ _ E). rewrite Z2Nat.id, Z.add_0_l in H2 by (apply Z.div_pos; [lia|done]).
    rewrite pmap_page. split; [done|].
    destruct H3 as [_ HF]. rewrite Forall_lookup in HF. by destruct (HF _ _ E) as (? & _ & _ & ?).
  - apply lookup_ge_None in E. destruct (decide (va < TRAPFRAME)).
    + rewrite H5; [done|]. split; [|done]. pose proof (Z.div_mod va PGSIZE ltac:(done)).
      pose proof (Z.mod_pos_bound va PGSIZE ltac:(done)). unfold PGSIZE in *. lia.
    + rewrite H6 by lia. apply andb_false_r.
Qed.

Lemma walk_pmap s l root T va :
  vm_ok kend s l root T -> 0 <= va < MAXVA ->
  exists r, walk root va false s = Done (r, s) /\
    ((r = 0 /\ pmap (km_mem s) T va = 0) \/ (r <> 0 /\ load64 (km_mem s) r = pmap (km_mem s) T va)).
Proof.
  intros Hok Hva. destruct (walk_ok kend root va false s l T Hva Hok) as (r & s1 & l1 & T1 & E & _ & Hs & Hw).
  destruct (Hs eq_refl) as (-> & -> & ->). exists r. split; [done|]. unfold pmap.
  destruct Hw as [(-> & -> & _)|(t0 & -> & -> & Hne)]; auto.
Qed.

(** What [walk] finds for an address of the space. *)
Lemma walk_entry s l root T pgs va :
  uspace s l root T pgs -> 0 <= va < MAXVA ->
  exists r, walk root va false s = Done (r, s) /\
    match upage pgs va with
    | Some (p, fl) => r <> 0 /\ load64 (km_mem s) r = entry p fl /\ page kend p /\ leaf_flags fl
    | None => r = 0 \/ r <> 0 /\ has (load64 (km_mem s) r) PTE_V && has (load64 (km_mem s) r) PTE_U = false
    end.
Proof.
  intros Hu Hva. destruct (walk_pmap s l root T va (us_ok _ _ _ _ _ Hu) Hva) as (r & E & Hr).
  exists r. split; [done|]. pose proof (uspace_pmap _ _ _ _ _ va Hu Hva) as Hp.
  destruct (upage pgs va) as [[p fl]|]; destruct Hr as [[-> Hz]|[Hne Hl]]; [| |by left|right; by rewrite Hl].
  - rewrite Hz in Hp. destruct Hp as (Hp & _ & (Hf & Hv & _)). pose proof (entry_has p fl PTE_V Hf ltac:(done)) as He.
    rewrite <- Hp in He. by rewrite Hv in He.
  - rewrite Hl. by destruct Hp.
Qed.

Lemma upage_high s l root T pgs va : uspace s l root T pgs -> MAXVA <= va -> upage pgs va = None.
Proof.
  intros Hu Hge. unfold upage. case_decide; [|done]. apply lookup_ge_None_2.
  pose proof (us_size _ _ _ _ _ Hu) as Hsz. assert (Z.of_nat (length pgs) <= va / PGSIZE); [|lia].
  apply Z.div_le_lower_bound; [done|]. change TRAPFRAME with (MAXVA - 2 * PGSIZE) in Hsz. unfold PGSIZE in *. lia.
Qed.

Lemma walkaddr_ok s l root T pgs va :
  uspace s l root T pgs -> 0 <= va ->
  walkaddr root va s = Done (match upage pgs va with Some (p, fl) => if has fl PTE_U then p else 0 | None => 0 end, s).
Proof.
  intros Hu Hva. unfold walkaddr. destruct (Z.geb_spec va MAXVA) as [Hge|Hlt].
  { by rewrite (upage_high s l root T). }
  destruct (walk_entry s l root T pgs va Hu ltac:(lia)) as (r & E & Hr). rewrite (vbind_done _ _ _ _ _ E).
  destruct (upage pgs va) as [[p fl]|].
  - destruct Hr as (Hne & Hl & Hpp & (Hf & Hv & _)). rewrite (proj2 (Z.eqb_neq r 0)) by done.
    rewrite (vbind_done _ _ s (entry p fl) s) by (unfold vload; by rewrite Hl).
    rewrite !entry_has, Hv by done. simpl. destruct (has fl PTE_U); [|done]. simpl.
    rewrite entry_page; [done|by eapply page_ppage|done].
  - destruct Hr as [->|[Hne Hr]]; [done|]. rewrite (proj2 (Z.eqb_neq r 0)) by done.
    rewrite (vbind_done _ _ s (load64 (km_mem s) r) s) by done.
    destruct (has _ PTE_V); [|done]. simpl in Hr |- *. by rewrite Hr.
Qed.

(** ** Copies *)

Lemma upage_round pgs va i :
  0 <= va -> 0 <= i -> va + i < pgrounddown va + PGSIZE ->
  upage pgs (va + i) = upage pgs (pgrounddown va) /\ (va + i) mod PGSIZE = va - pgrounddown va + i.
Proof.
  intros Hva Hi Hlt. destruct (pgrounddown_page va) as [Hm Hr]. pose proof (pgrounddown_spec va) as Es.
  assert (Hq : 0 <= va / PGSIZE) by (apply Z.div_pos; [lia|done]).
  assert (E : (va + i) / PGSIZE = va / PGSIZE).
  { symmetry. apply (Z.div_unique _ _ _ (va + i - pgrounddown va)); [left; lia|lia]. }
  split.
  - unfold upage. rewrite !decide_True by (unfold PGSIZE in *; lia). by rewrite E, Es, Z.div_mul.
  - pose proof (Z.div_mod (va + i) PGSIZE ltac:(done)) as Hd. rewrite E in Hd. lia.
Qed.

(** Reachable bytes of one page. *)
Lemma uaddr_chunk pgs f va i :
  0 <= va -> 0 <= i -> va + i < pgrounddown va + PGSIZE ->
  uaddr pgs f (va + i) =
    '(p, fl) ← upage pgs (pgrounddown va); if has fl PTE_U && has fl f then Some (p + (va - pgrounddown va + i)) else None.
Proof. intros Hva Hi Hlt. unfold uaddr. destruct (upage_round pgs va i Hva Hi Hlt) as [-> ->]. done. Qed.

(** Enough iterations for a copy. *)
Definition enough (fuel : nat) (va len : Z) : Prop :=
  (0 < fuel)%nat /\ (0 < len -> va - pgrounddown va + len <= (Z.of_nat fuel - 1) * PGSIZE).

Lemma enough_pages va len : 0 <= va -> enough (pages_of len) va len.
Proof.
  intros Hva. destruct (pgrounddown_page va) as [_ Hr]. unfold enough, pages_of. split; [lia|]. intros Hlen.
  pose proof (Z.div_mod len PGSIZE ltac:(done)). pose proof (Z.mod_pos_bound len PGSIZE ltac:(done)).
  pose proof (Z.div_pos len PGSIZE ltac:(lia) ltac:(done)). unfold PGSIZE in *. lia.
Qed.

(** The bytes of a round, and what is left. *)
Definition chunk (va len : Z) : Z := Z.min (PGSIZE - (va - pgrounddown va)) len.

Lemma chunk_pos va len : 0 < len -> 0 < chunk va len <= len.
Proof. intros. destruct (pgrounddown_page va) as [_ ?]. unfold chunk. lia. Qed.

Lemma enough_step fuel va len :
  0 <= va -> 0 < len -> enough (S fuel) va len -> enough fuel (pgrounddown va + PGSIZE) (len - chunk va len).
Proof.
  intros Hva Hlen [_ H]. specialize (H Hlen). destruct (pgrounddown_page va) as [Hm Hr].
  destruct (pgrounddown_page (pgrounddown va + PGSIZE)) as [Hm2 Hr2].
  assert (E : pgrounddown (pgrounddown va + PGSIZE) = pgrounddown va + PGSIZE).
  { rewrite pgrounddown_spec. pose proof (Z.div_mod (pgrounddown va + PGSIZE) PGSIZE ltac:(done)) as Hd.
    rewrite (page_step _ Hm) in Hd. lia. }
  unfold enough, chunk. rewrite E. unfold PGSIZE in *. split; [lia|]. intros Hl. lia.
Qed.

(** After a round that does not finish, the next one is at the next page. *)
Lemma chunk_next va len : 0 < len - chunk va len -> va + chunk va len = pgrounddown va + PGSIZE.
Proof. unfold chunk. lia. Qed.

Lemma pgrounddown_nonneg va : 0 <= va -> 0 <= pgrounddown va.
Proof. intros. rewrite pgrounddown_spec. pose proof (Z.div_pos va PGSIZE ltac:(lia) ltac:(done)). unfold PGSIZE in *. lia. Qed.

Lemma load_bytes_lookup m a n i : 0 <= i < n -> load_bytes m a n !! Z.to_nat i = Some (m (a + i)).
Proof.
  intros Hi. unfold load_bytes. rewrite list_lookup_fmap, lookup_seqZ_lt by lia. simpl. do 2 f_equal. lia.
Qed.
Lemma length_load_bytes m a n : length (load_bytes m a n) = Z.to_nat n.
Proof. unfold load_bytes. by rewrite length_fmap, length_seqZ. Qed.

(** [d] is what the user's memory holds from [va]. *)
Definition uholds s pgs (va : Z) (d : bytes) : Prop :=
  forall i x, d !! i = Some x -> exists a, uaddr pgs PTE_U (va + Z.of_nat i) = Some a /\ km_mem s a = x.

Lemma uholds_app s pgs va d d' :
  uholds s pgs va d -> uholds s pgs (va + Z.of_nat (length d)) d' -> uholds s pgs va (d ++ d').
Proof.
  intros H1 H2 i x Hi. destruct (decide (i < length d)%nat).
  - rewrite lookup_app_l in Hi by done. by apply H1.
  - rewrite lookup_app_r in Hi by lia. destruct (H2 _ _ Hi) as (a & Ha & Hx). exists a. split; [|done].
    rewrite <- Ha. f_equal. lia.
Qed.

Lemma uholds_chunk s pgs va n p fl :
  0 <= va -> 0 <= n <= PGSIZE - (va - pgrounddown va) -> upage pgs (pgrounddown va) = Some (p, fl) -> has fl PTE_U = true ->
  uholds s pgs va (load_bytes (km_mem s) (p + (va - pgrounddown va)) n).
Proof.
  intros Hva Hn Hp Hf i x Hi. assert (Hil : (i < Z.to_nat n)%nat).
  { apply lookup_lt_Some in Hi. by rewrite length_load_bytes in Hi. }
  replace i with (Z.to_nat (Z.of_nat i)) in Hi by lia. rewrite load_bytes_lookup in Hi by lia. injection Hi as <-.
  rewrite uaddr_chunk by lia. rewrite Hp. simpl. rewrite Hf. simpl. eexists. split; [done|]. f_equal. lia.
Qed.

Lemma copyin_loop_ok s l root T pgs fuel va len dst :
  uspace s l root T pgs -> 0 <= va -> enough fuel va len ->
  exists d (ok : bool), copyin_loop fuel root va len dst s = Done ((dst ++ d, ok), s) /\ uholds s pgs va d /\
    (if ok then Z.of_nat (length d) = Z.max 0 len
     else Z.of_nat (length d) < len /\ uaddr pgs PTE_U (va + Z.of_nat (length d)) = None).
Proof.
  intros Hu. revert va len dst. induction fuel as [|fuel IH]; intros va len dst Hva Hen; [by destruct Hen; lia|].
  cbn [copyin_loop]. destruct (Z.gtb_spec len 0) as [Hlen|Hlen].
  2: { exists [], true. rewrite app_nil_r. split; [done|]. split; [by intros i x Hi|]. simpl. lia. }
  pose proof (pgrounddown_nonneg va Hva) as Hr0. destruct (pgrounddown_page va) as [_ Hr].
  rewrite (vbind_done _ _ _ _ _ (walkaddr_ok _ _ _ _ _ _ Hu Hr0)). fold (chunk va len).
  assert (Hnone : forall p fl, upage pgs (pgrounddown va) = Some (p, fl) -> p <> 0).
  { intros p fl Hp. unfold upage in Hp. rewrite decide_True in Hp by done. destruct (us_data _ _ _ _ _ Hu) as [_ HF].
    rewrite Forall_lookup in HF. destruct (HF _ _ Hp) as ((_ & ? & _) & _). simpl in *. lia. }
  pose proof (uaddr_chunk pgs PTE_U va 0 Hva ltac:(lia) ltac:(lia)) as Hu0. rewrite Z.add_0_r in Hu0.
  destruct (upage pgs (pgrounddown va)) as [[p fl]|] eqn:Hp; simpl in Hu0.
  2: { exists [], false. rewrite app_nil_r. split; [done|]. split; [by intros i x Hi|]. simpl. split; [lia|]. by rewrite Z.add_0_r. }
  destruct (has fl PTE_U) eqn:Hf.
  2: { exists [], false. rewrite app_nil_r. split; [done|]. split; [by intros i x Hi|]. simpl. split; [lia|]. by rewrite Z.add_0_r. }
  rewrite (proj2 (Z.eqb_neq p 0)) by by eapply Hnone.
  rewrite (vbind_done _ _ s (load_bytes (km_mem s) (p + (va - pgrounddown va)) (chunk va len)) s) by done.
  pose proof (chunk_pos va len Hlen) as Hc.
  destruct (IH (pgrounddown va + PGSIZE) (len - chunk va len) (dst ++ load_bytes (km_mem s) (p + (va - pgrounddown va)) (chunk va len)))
    as (d & ok & E & Hd & Hok); [unfold PGSIZE; lia|by apply enough_step|].
  set (c := load_bytes _ _ _) in *. assert (Hlc : Z.of_nat (length c) = chunk va len).
  { unfold c. rewrite length_load_bytes. lia. }
  assert (Hc0 : uholds s pgs va c) by (apply (uholds_chunk _ _ _ _ p fl); [done|unfold chunk in *; lia|done|done]).
  exists (c ++ d), ok. rewrite app_assoc. split; [done|]. rewrite length_app, Nat2Z.inj_add, Hlc.
  destruct (decide (0 < len - chunk va len)) as [Hmore|Hlast].
  - rewrite <- (chunk_next va len Hmore) in *. split.
    + apply uholds_app; [done|]. by rewrite Hlc.
    + destruct ok; [lia|]. by rewrite Z.add_assoc; split; [lia|apply Hok].
  - assert (d = []) as ->.
    { destruct ok; [|lia]. destruct d; [done|]. simpl in Hok. lia. }
    rewrite app_nil_r. split; [done|]. destruct ok; simpl in *; lia.
Qed.

(** *** Writing *)

Lemma uspace_data s l root T pgs s' :
  uspace s l root T pgs -> km_freelist s' = km_freelist s ->
  (forall x, (forall p, p ∈ pgs.*1 -> ~ in_page p x) -> km_mem s' x = km_mem s x) ->
  uspace s' l root T pgs.
Proof.
  intros Hu Ef Hm. pose proof Hu as [((Hc & Hnd & Hfl) & H & Hn) H2 [Hd1 Hd2] H4 H5 H6].
  rewrite Forall_forall in Hd2.
  assert (Hd : forall q, q ∈ pgs.*1 -> page kend q /\ q ∉ l /\ apart_tables T q).
  { intros q Hq. apply list_elem_of_fmap in Hq as ([q' f'] & -> & Hq). by destruct (Hd2 _ Hq) as (? & ? & ? & _). }
  assert (Htab : forall k t x, T !! k = Some t -> in_page t x -> km_mem s' x = km_mem s x).
  { intros k t x Ht Hx. apply Hm. intros q Hq. destruct (Hd q Hq) as (Hp & _ & Ha).
    eapply (pages_apart kend t); [by apply (pt_key _ _ _ _ H k)|done|by eapply Ha|done]. }
  assert (Hpm : forall va, pmap (km_mem s') T va = pmap (km_mem s) T va).
  { intros va. by eapply pmap_ext. }
  split; try done.
  - split; [|split; [by eapply ptbl_ext|done]]. split; [|done]. rewrite Ef. eapply chain_ext; [|done].
    intros p x Hp Hx. apply Hm. intros q Hq. destruct (Hd q Hq) as (Hpq & Hql & _). rewrite Forall_forall in Hfl.
    eapply (pages_apart kend p); [by apply Hfl|done|intros ->; done|done].
  - intros i p fl Hi. rewrite Hpm. by apply H2.
  - by split; [|rewrite Forall_forall].
  - intros va Hva. rewrite Hpm. by apply H5.
  - intros va Hva. rewrite Hpm. by apply H6.
Qed.

(** Distinct pages of the space do not alias. *)
Lemma uaddr_in pgs f va a :
  uaddr pgs f va = Some a -> exists p fl, upage pgs va = Some (p, fl) /\ a = p + va mod PGSIZE /\ in_page p a.
Proof.
  unfold uaddr. destruct (upage pgs va) as [[p fl]|]; [|done]. simpl. destruct (_ && _); [|done]. intros [= <-].
  exists p, fl. split; [done|]. split; [done|]. unfold in_page. pose proof (Z.mod_pos_bound va PGSIZE ltac:(done)). lia.
Qed.

Lemma upage_same s l root T pgs va va' p fl p' fl' x :
  uspace s l root T pgs -> upage pgs va = Some (p, fl) -> upage pgs va' = Some (p', fl') ->
  in_page p x -> in_page p' x -> va / PGSIZE = va' / PGSIZE /\ p = p'.
Proof.
  intros Hu Hp Hp' Hx Hx'. destruct (us_data _ _ _ _ _ Hu) as [Hnd HF]. rewrite Forall_lookup in HF.
  unfold upage in *. destruct (decide (0 <= va)); [|done]. destruct (decide (0 <= va')); [|done].
  destruct (decide (p = p')) as [->|Hne].
  - split; [|done]. assert (E : Z.to_nat (va / PGSIZE) = Z.to_nat (va' / PGSIZE)).
    { eapply (NoDup_lookup pgs.*1); [done|rewrite list_lookup_fmap, Hp; done|rewrite list_lookup_fmap, Hp'; done]. }
    pose proof (Z.div_pos va PGSIZE ltac:(lia) ltac:(done)). pose proof (Z.div_pos va' PGSIZE ltac:(lia) ltac:(done)). lia.
  - exfalso. destruct (HF _ _ Hp) as (A & _). destruct (HF _ _ Hp') as (B & _).
    by apply (pages_apart kend p p' x).
Qed.

(** What the user sees after [k] bytes of [src] are written at [va]. *)
Definition uwritten s s' pgs (va k : Z) (src : bytes) : Prop :=
  forall va' a, uaddr pgs PTE_U va' = Some a ->
    km_mem s' a = if decide (va <= va' < va + k) then byte_at src (va' - va) else km_mem s a.

Lemma uwritten_step s s1 s' pgs va n k src :
  0 <= n -> 0 <= k -> uwritten s s1 pgs va n (take (Z.to_nat n) src) ->
  uwritten s1 s' pgs (va + n) k (drop (Z.to_nat n) src) -> uwritten s s' pgs va (n + k) src.
Proof.
  intros Hn Hk H1 H2 va' a Ha. rewrite (H2 va' a Ha). case_decide as D1.
  - rewrite decide_True by lia. unfold byte_at. rewrite !list_lookup_total_alt, lookup_drop. do 2 f_equal. lia.
  - rewrite (H1 va' a Ha). case_decide as D2; [|by rewrite decide_False by lia].
    rewrite decide_True by lia. unfold byte_at. rewrite !list_lookup_total_alt, lookup_take_lt by lia. done.
Qed.

Lemma write_chunk s l root T pgs va n p fl src :
  uspace s l root T pgs -> 0 <= va -> 0 <= n <= PGSIZE - (va - pgrounddown va) -> n = Z.of_nat (length src) ->
  upage pgs (pgrounddown va) = Some (p, fl) ->
  let s' := KMem (store_bytes (km_mem s) (p + (va - pgrounddown va)) src) (km_freelist s) in
  uspace s' l root T pgs /\ uwritten s s' pgs va n src /\
  (forall x, (forall q, q ∈ pgs.*1 -> ~ in_page q x) -> km_mem s' x = km_mem s x).
Proof.
  intros Hu Hva Hn Hlen Hp s'. destruct (pgrounddown_page va) as [_ Hr].
  assert (Hin : forall x, p + (va - pgrounddown va) <= x < p + (va - pgrounddown va) + n -> in_page p x)
    by (unfold in_page; lia).
  assert (Hpp : p ∈ pgs.*1).
  { unfold upage in Hp. rewrite decide_True in Hp by by apply pgrounddown_nonneg.
    apply list_elem_of_fmap. exists (p, fl). split; [done|]. by eapply list_elem_of_lookup_2. }
  assert (Hm : forall x, (forall q, q ∈ pgs.*1 -> ~ in_page q x) -> km_mem s' x = km_mem s x).
  { intros x Hx. simpl. unfold store_bytes. rewrite decide_False; [done|]. intros Hx'. apply (Hx p Hpp), Hin. lia. }
  split; [by apply (uspace_data s)|]. split; [|done].
  intros va' a Ha. destruct (uaddr_in _ _ _ _ Ha) as (q & g & Hq & -> & Hqa). simpl. unfold store_bytes. rewrite <- Hlen.
  pose proof (Z.div_mod va' PGSIZE ltac:(done)) as Hd'. pose proof (pgrounddown_spec va) as Es.
  case_decide as D.
  - destruct (upage_same s l root T pgs (pgrounddown va) va' p fl q g _ Hu Hp Hq (Hin _ D) Hqa) as [E ->].
    rewrite Es, Z.div_mul in E by done. rewrite decide_True by lia. f_equal. lia.
  - case_decide as D'; [|done]. exfalso. apply D.
    destruct (upage_round pgs va (va' - va) Hva ltac:(lia) ltac:(lia)) as [Hup Hmod].
    replace (va + (va' - va)) with va' in Hup, Hmod by lia.
    rewrite Hq, Hp in Hup. injection Hup as -> _. lia.
Qed.

Lemma copyout_loop_ok l root T pgs fuel va src s :
  uspace s l root T pgs -> 0 <= va -> enough fuel va (Z.of_nat (length src)) ->
  exists k (ok : bool) s', copyout_loop fuel root va src s = Done (ok, s') /\ uspace s' l root T pgs /\
    0 <= k <= Z.of_nat (length src) /\ uwritten s s' pgs va k src /\
    (forall i, 0 <= i < k -> is_Some (uaddr pgs PTE_W (va + i))) /\
    (if ok then k = Z.of_nat (length src) else k < Z.of_nat (length src) /\ uaddr pgs PTE_W (va + k) = None) /\
    (forall x, (forall p, p ∈ pgs.*1 -> ~ in_page p x) -> km_mem s' x = km_mem s x).
Proof.
  revert va src s. induction fuel as [|fuel IH]; intros va src s Hu Hva Hen; [by destruct Hen; lia|].
  cbn [copyout_loop]. set (len := Z.of_nat (length src)) in *.
  assert (Hno : 0 < len -> uaddr pgs PTE_W va = None -> exists k (ok : bool) s',
    Done (false, s) = Done (ok, s') /\ uspace s' l root T pgs /\ 0 <= k <= len /\ uwritten s s' pgs va k src /\
    (forall i, 0 <= i < k -> is_Some (uaddr pgs PTE_W (va + i))) /\
    (if ok then k = len else k < len /\ uaddr pgs PTE_W (va + k) = None) /\
    (forall x, (forall p, p ∈ pgs.*1 -> ~ in_page p x) -> km_mem s' x = km_mem s x)).
  { intros Hl Hn. exists 0, false, s. rewrite Z.add_0_r. do 2 (split; [done|]). split; [lia|].
    split; [intros va' a _; by rewrite decide_False by lia|]. split; [intros; lia|done]. }
  destruct (Z.gtb_spec len 0) as [Hlen|Hlen].
  2: { exists 0, true, s. do 2 (split; [done|]). split; [lia|]. split; [intros va' a _; by rewrite decide_False by lia|].
       split; [intros; lia|]. split; [lia|done]. }
  specialize (Hno ltac:(lia)). pose proof (pgrounddown_nonneg va Hva) as Hr0. destruct (pgrounddown_page va) as [_ Hr].
  pose proof (uaddr_chunk pgs PTE_W va 0 Hva ltac:(lia) ltac:(lia)) as Hu0. rewrite Z.add_0_r in Hu0.
  destruct (Z.geb_spec (pgrounddown va) MAXVA) as [Hge|Hlt].
  { apply Hno. by rewrite Hu0, (upage_high s l root T). }
  destruct (walk_entry s l root T pgs (pgrounddown va) Hu ltac:(lia)) as (r & E & Hwr).
  rewrite (vbind_done _ _ _ _ _ E).
  destruct (upage pgs (pgrounddown va)) as [[p fl]|] eqn:Hup; simpl in Hu0.
  2: { destruct Hwr as [->|[Hne Hwr]]; [by apply Hno|]. rewrite (proj2 (Z.eqb_neq r 0)) by done.
       rewrite (vbind_done _ _ s (load64 (km_mem s) r) s) by done.
       destruct (has _ PTE_V); simpl in Hwr |- *; [rewrite Hwr; simpl|]; by apply Hno. }
  destruct Hwr as (Hne & Hl & Hpp & (Hf & Hv & _)). rewrite (proj2 (Z.eqb_neq r 0)) by done.
  rewrite (vbind_done _ _ s (entry p fl) s) by (unfold vload; by rewrite Hl).
  rewrite !entry_has, Hv by done.
  destruct (has fl PTE_U) eqn:HU; simpl; [|by apply Hno]. destruct (has fl PTE_W) eqn:HW; simpl; [|by apply Hno].
  rewrite entry_page by (done || by eapply page_ppage). fold (chunk va len).
  pose proof (chunk_pos va len ltac:(lia)) as Hc. set (n := chunk va len) in *.
  assert (Hlt' : n = Z.of_nat (length (take (Z.to_nat n) src))) by (rewrite length_take; lia).
  destruct (write_chunk s l root T pgs va n p fl (take (Z.to_nat n) src)) as (Hu1 & Hw1 & Hm1); try done.
  { unfold n, chunk. lia. }
  rewrite (vbind_done _ _ s tt (KMem (store_bytes (km_mem s) (p + (va - pgrounddown va)) (take (Z.to_nat n) src)) (km_freelist s))) by done.
  set (s1 := KMem _ _) in *.
  assert (Hld : Z.of_nat (length (drop (Z.to_nat n) src)) = len - n) by (rewrite length_drop; lia).
  assert (Hreach : forall i, 0 <= i < n -> is_Some (uaddr pgs PTE_W (va + i))).
  { intros i Hi. rewrite uaddr_chunk by (unfold n, chunk in *; lia). rewrite Hup. simpl. rewrite HU, HW. simpl. by eexists. }
  destruct (IH (pgrounddown va + PGSIZE) (drop (Z.to_nat n) src) s1) as (k & ok & s' & E' & Hu' & Hk & Hw' & Hre & Hok & Hm');
    [done|unfold PGSIZE; lia|rewrite Hld; apply enough_step; [done|lia|done]|].
  rewrite Hld in *. exists (n + k), ok, s'. do 2 (split; [done|]). split; [lia|].
  destruct (decide (0 < len - n)) as [Hmore|Hlast].
  - rewrite <- (chunk_next va len Hmore) in *. fold n in Hw', Hok, Hre. split; [by apply (uwritten_step s s1); [lia|lia|..]|].
    split; [|split; [|intros x Hx; by rewrite Hm', Hm1]].
    { intros i Hi. destruct (decide (i < n)); [apply Hreach; lia|].
      replace (va + i) with (va + n + (i - n)) by lia. apply Hre. lia. } destruct ok; [lia|]. rewrite Z.add_assoc. split; [lia|apply Hok].
  - assert (k = 0) as -> by lia. rewrite Z.add_0_r. split; [|split; [done|split; [destruct ok; lia|intros x Hx; by rewrite Hm', Hm1]]].
    intros va' a Ha. rewrite (Hw' va' a Ha). rewrite decide_False by lia. rewrite (Hw1 va' a Ha).
    case_decide; [|done]. unfold byte_at. rewrite !list_lookup_total_alt, lookup_take_lt by lia. done.
Qed.

(** *** Strings *)

Lemma scan_nul_spec n m p d b :
  scan_nul n m p = (d, b) ->
  (length d <= n)%nat /\ (forall i x, d !! i = Some x -> x = m (p + Z.of_nat i) /\ x <> 0) /\
  (if b then (length d < n)%nat /\ m (p + Z.of_nat (length d)) = 0 else length d = n).
Proof.
  revert p d b. induction n as [|n IH]; intros p d b; simpl; [by intros [= <- <-]|].
  destruct (Z.eqb_spec (m p) 0) as [E|E].
  { intros [= <- <-]. simpl. rewrite Z.add_0_r. repeat split; done || lia. }
  destruct (scan_nul n m (p + 1)) as [d' b'] eqn:Es. intros [= <- <-].
  destruct (IH _ _ _ Es) as (Hl & Hd & Hb). simpl. split; [lia|]. split.
  - intros [|i] x; simpl; [intros [= <-]; by rewrite Z.add_0_r|]. intros Hi. destruct (Hd _ _ Hi) as [-> ?].
    split; [|done]. f_equal. lia.
  - destruct b'; [|lia]. replace (p + Z.of_nat (S (length d'))) with (p + 1 + Z.of_nat (length d')) by lia. split; [lia|]. apply Hb.
Qed.

(** The bytes of [d] are not NUL. *)
Definition no_nul (d : bytes) : Prop := Forall (fun c => c <> 0) d.

(** The result of [copyinstr]: the string at [va], which ends with a NUL among
    the first [max] bytes; or none, and then no NUL can be read there. *)
Definition str_result s pgs (va max : Z) (r : option bytes) (dst : bytes) : Prop :=
  match r with
  | Some full => exists d, full = dst ++ d /\ Z.of_nat (length d) < max /\ uholds s pgs va (d ++ [0]) /\ no_nul d
  | None => exists d, uholds s pgs va d /\ no_nul d /\
      (Z.of_nat (length d) = Z.max 0 max \/ Z.of_nat (length d) < max /\ uaddr pgs PTE_U (va + Z.of_nat (length d)) = None)
  end.

Lemma scan_uholds s pgs va n p fl d b :
  0 <= va -> 0 <= n <= PGSIZE - (va - pgrounddown va) -> upage pgs (pgrounddown va) = Some (p, fl) -> has fl PTE_U = true ->
  scan_nul (Z.to_nat n) (km_mem s) (p + (va - pgrounddown va)) = (d, b) ->
  Z.of_nat (length d) <= n /\ no_nul d /\ uholds s pgs va d /\
  (if b then Z.of_nat (length d) < n /\ uholds s pgs va (d ++ [0]) else Z.of_nat (length d) = n).
Proof.
  intros Hva Hn Hp Hf Hs. destruct (scan_nul_spec _ _ _ _ _ Hs) as (Hl & Hd & Hb).
  assert (Hchunk : forall i, (Z.of_nat i < n) -> uaddr pgs PTE_U (va + Z.of_nat i) = Some (p + (va - pgrounddown va) + Z.of_nat i)).
  { intros i Hi. rewrite uaddr_chunk by lia. rewrite Hp. simpl. rewrite Hf. simpl. f_equal. lia. }
  assert (Hh : uholds s pgs va d).
  { intros i x Hi. destruct (Hd _ _ Hi) as [-> _]. apply lookup_lt_Some in Hi. eexists. split; [apply Hchunk; lia|done]. }
  split; [lia|]. split; [|split; [done|]].
  - apply Forall_lookup. intros i x Hi. by apply (Hd i).
  - destruct b; [|lia]. destruct Hb as [Hlt Hz]. split; [lia|]. apply uholds_app; [done|].
    intros [|i] x; [|done]. intros [= <-]. rewrite Z.add_0_r. eexists. split; [apply Hchunk; lia|done].
Qed.

Lemma str_result_step s pgs va n k max d r dst :
  Z.of_nat (length d) = n -> no_nul d -> uholds s pgs va d -> n <= max -> 0 <= n ->
  str_result s pgs (va + n) (max - n) r (dst ++ d) -> k = va -> str_result s pgs k max r dst.
Proof.
  intros Hn Hz Hh Hm Hn0 Hr ->. destruct r as [full|].
  - destruct Hr as (d' & -> & Hl & Hd & Hz'). exists (d ++ d'). rewrite <- app_assoc, length_app. split; [done|].
    split; [lia|]. split; [|by apply Forall_app]. rewrite <- app_assoc. apply uholds_app; [done|]. by rewrite Hn.
  - destruct Hr as (d' & Hd & Hz' & Hl). exists (d ++ d'). rewrite length_app, Nat2Z.inj_add, Hn.
    split; [apply uholds_app; [done|]; by rewrite Hn|]. split; [by apply Forall_app|].
    rewrite Z.add_assoc. destruct Hl as [Hl|[Hl Hu]]; [left; lia|right; split; [lia|done]].
Qed.

Lemma copyinstr_loop_ok s l root T pgs fuel va max dst :
  uspace s l root T pgs -> 0 <= va -> enough fuel va max ->
  exists r, copyinstr_loop fuel root va max dst s = Done (r, s) /\ str_result s pgs va max r dst.
Proof.
  intros Hu. revert va max dst. induction fuel as [|fuel IH]; intros va max dst Hva Hen; [by destruct Hen; lia|].
  cbn [copyinstr_loop]. destruct (Z.gtb_spec max 0) as [Hmax|Hmax].
  2: { exists None. split; [done|]. exists []. split; [by intros i x Hi|]. split; [constructor|]. simpl. left. lia. }
  pose proof (pgrounddown_nonneg va Hva) as Hr0. destruct (pgrounddown_page va) as [_ Hr].
  rewrite (vbind_done _ _ _ _ _ (walkaddr_ok _ _ _ _ _ _ Hu Hr0)). fold (chunk va max).
  pose proof (uaddr_chunk pgs PTE_U va 0 Hva ltac:(lia) ltac:(lia)) as Hu0. rewrite Z.add_0_r in Hu0.
  assert (Hstop : uaddr pgs PTE_U va = None -> exists r, Done (None, s) = Done (r, s) /\ str_result s pgs va max r dst).
  { intros Hn. exists None. split; [done|]. exists []. split; [by intros i x Hi|]. split; [constructor|]. simpl. right.
    rewrite Z.add_0_r. split; [lia|done]. }
  destruct (upage pgs (pgrounddown va)) as [[p fl]|] eqn:Hp; simpl in Hu0; [|by apply Hstop].
  destruct (has fl PTE_U) eqn:Hf; [|by apply Hstop].
  rewrite (proj2 (Z.eqb_neq p 0)).
  2: { unfold upage in Hp. rewrite decide_True in Hp by done. destruct (us_data _ _ _ _ _ Hu) as [_ HF].
       rewrite Forall_lookup in HF. destruct (HF _ _ Hp) as ((_ & ? & _) & _). simpl in *. lia. }
  rewrite (vbind_done _ _ s (km_mem s) s) by done.
  destruct (scan_nul _ _ _) as [d b] eqn:Es. pose proof (chunk_pos va max ltac:(lia)) as Hc.
  apply (scan_uholds s pgs va _ p fl) in Es as (Hl & Hz & Hh & Hb); [|done|unfold chunk; lia|done|done].
  destruct b.
  { exists (Some (dst ++ d)). split; [done|]. exists d. split; [done|]. split; [lia|]. by split; [apply Hb|]. }
  destruct (IH (pgrounddown va + PGSIZE) (max - chunk va max) (dst ++ d)) as (r & E & Hres);
    [unfold PGSIZE; lia|apply enough_step; [done|lia|done]|].
  exists r. split; [done|]. destruct (decide (0 < max - chunk va max)) as [Hmore|Hlast].
  - rewrite <- (chunk_next va max Hmore) in Hres. by eapply str_result_step; [exact Hb|..|exact Hres|]; try lia.
  - eapply (str_result_step _ _ va (chunk va max)); [exact Hb|done|done|lia|lia| |done].
    destruct r as [full|]; [destruct Hres as (d' & _ & ? & _); lia|]. destruct Hres as (d' & _ & _ & Hd').
    exists []. split; [by intros i x Hi|]. split; [constructor|]. simpl. lia.
Qed.
End user.

(** * The interface to the file system *)

(** User memory: a machine state whose bytes are bytes, with an address space. *)
Record umem := UMem {
  um_end : Z; um_s : kmem; um_l : list Z; um_root : Z; um_T : gmap (list Z) Z; um_pgs : list (Z * Z);
  um_ok : uspace um_end um_s um_l um_root um_T um_pgs;
  um_bytes : forall x, is_byte (km_mem um_s x);
}.

Lemma u64_nonneg z : 0 <= u64 z.
Proof. by apply Z.mod_pos_bound. Qed.

Section results.
Variable u : umem.
Let Hu := um_ok u.

Lemma um_copyin_ok va n :
  exists d (ok : bool), Vm.copyin (um_root u) (u64 va) n (um_s u) = Done ((d, ok), um_s u) /\ uholds (um_s u) (um_pgs u) (u64 va) d /\
    (if ok then Z.of_nat (length d) = Z.max 0 n
     else Z.of_nat (length d) < n /\ uaddr (um_pgs u) PTE_U (u64 va + Z.of_nat (length d)) = None).
Proof. apply (copyin_loop_ok _ _ _ _ _ _ _ _ _ [] Hu); [apply u64_nonneg|apply enough_pages, u64_nonneg]. Qed.

Lemma um_copyinstr_ok va max :
  exists r, Vm.copyinstr (um_root u) (u64 va) max (um_s u) = Done (r, um_s u) /\
    str_result (um_s u) (um_pgs u) (u64 va) max r [].
Proof. apply (copyinstr_loop_ok _ _ _ _ _ _ _ _ _ [] Hu); [apply u64_nonneg|apply enough_pages, u64_nonneg]. Qed.

Lemma um_copyout_ok va d :
  exists k (ok : bool) s', Vm.copyout (um_root u) (u64 va) d (um_s u) = Done (ok, s') /\
    uspace (um_end u) s' (um_l u) (um_root u) (um_T u) (um_pgs u) /\
    0 <= k <= Z.of_nat (length d) /\ uwritten (um_s u) s' (um_pgs u) (u64 va) k d /\
    (forall i, 0 <= i < k -> is_Some (uaddr (um_pgs u) PTE_W (u64 va + i))) /\
    (if ok then k = Z.of_nat (length d) else k < Z.of_nat (length d) /\ uaddr (um_pgs u) PTE_W (u64 va + k) = None) /\
    (forall x, (forall p, p ∈ (um_pgs u).*1 -> ~ in_page p x) -> km_mem s' x = km_mem (um_s u) x).
Proof. apply (copyout_loop_ok _ _ _ _ _ _ _ _ _ Hu); [apply u64_nonneg|apply enough_pages, u64_nonneg]. Qed.

Lemma uholds_bytes va d : uholds (um_s u) (um_pgs u) va d -> Forall is_byte d.
Proof. intros H. apply Forall_lookup. intros i x Hi. destruct (H i x Hi) as (a & _ & <-). apply um_bytes. Qed.
End results.

Definition um_copyin (u : umem) (va n : Z) : bytes * bool :=
  match Vm.copyin (um_root u) (u64 va) n (um_s u) with Done (r, _) => r | _ => ([], false) end.
Definition um_copyinstr (u : umem) (va max : Z) : option bytes :=
  match Vm.copyinstr (um_root u) (u64 va) max (um_s u) with Done (r, _) => r | _ => None end.

(** The bytes of memory stay bytes: what is stored is a byte. *)
Lemma put_bytes_ok s a d :
  (forall x, is_byte (km_mem s x)) -> Forall is_byte d ->
  forall x, is_byte (km_mem (KMem (store_bytes (km_mem s) a d) (km_freelist s)) x).
Proof.
  intros Hs Hd x. simpl. unfold store_bytes. case_decide; [|done]. unfold byte_at.
  rewrite Forall_lookup_total in Hd. apply Hd. lia.
Qed.

Lemma copyout_bytes root fuel va d s ok s' :
  (forall x, is_byte (km_mem s x)) -> Forall is_byte d ->
  copyout_loop fuel root va d s = Done (ok, s') -> forall x, is_byte (km_mem s' x).
Proof.
  revert va d s. induction fuel as [|fuel IH]; intros va d s Hs Hd; cbn [copyout_loop]; [done|].
  destruct (_ >? 0); [|by intros [= _ <-]]. destruct (_ >=? MAXVA) eqn:Em; [by intros [= _ <-]|].
  unfold mbind at 1, VM_bind.
  assert (Hw : forall lvl t r s1, walk_loop lvl t (pgrounddown va) false s = Done (r, s1) -> s1 = s).
  { induction lvl as [|lvl IHl]; intros t r s1; cbn [walk_loop]; [by intros [= _ <-]|].
    unfold mbind, VM_bind, vload. simpl. destruct (has _ PTE_V); [apply IHl|by intros [= _ <-]]. }
  unfold walk. rewrite Em. destruct (walk_loop 2 root (pgrounddown va) false s) as [[r s1]| | | |] eqn:Ew; try done.
  apply Hw in Ew as ->. simpl. destruct (r =? 0); [by intros [= _ <-]|].
  unfold mbind at 1, VM_bind, vload. simpl. destruct (_ || _); [by intros [= _ <-]|].
  unfold mbind at 1, VM_bind, vput, vmod. simpl. apply IH; [|by apply Forall_drop].
  apply put_bytes_ok; [done|by apply Forall_take].
Qed.

Lemma u8_bytes (d : bytes) : Forall is_byte (u8 <$> d).
Proof. apply Forall_fmap, Forall_true. intros x. unfold is_byte, u8, compose. by apply Z.mod_pos_bound. Qed.

Lemma um_copyout_space u va d ok s' :
  Vm.copyout (um_root u) (u64 va) d (um_s u) = Done (ok, s') ->
  uspace (um_end u) s' (um_l u) (um_root u) (um_T u) (um_pgs u).
Proof. destruct (um_copyout_ok u va d) as (k & ok' & s1 & -> & Hs & _). by intros [= _ <-]. Qed.

(** The kernel's buffer holds bytes. *)
Definition um_copyout (u : umem) (va : Z) (d : bytes) : umem * bool :=
  match Vm.copyout (um_root u) (u64 va) (u8 <$> d) (um_s u) as o
    return Vm.copyout (um_root u) (u64 va) (u8 <$> d) (um_s u) = o -> umem * bool with
  | Done (ok, s') => fun E =>
      (UMem (um_end u) s' (um_l u) (um_root u) (um_T u) (um_pgs u)
        (um_copyout_space u va _ ok s' E) (copyout_bytes _ _ _ _ _ _ _ (um_bytes u) (u8_bytes d) E), ok)
  | _ => fun _ => (u, false)
  end eq_refl.

#[export] Program Instance umem_UserMem : UserMem umem := {|
  KState.copyin := um_copyin; KState.copyout := um_copyout; KState.copyinstr := um_copyinstr;
|}.
Next Obligation.
  intros u va n. unfold um_copyin. destruct (um_copyin_ok u va n) as (d & ok & -> & Hd & _). by eapply uholds_bytes.
Qed.
Next Obligation.
  intros u va n Hn. unfold um_copyin. destruct (um_copyin_ok u va n) as (d & ok & -> & _ & Hl). simpl. intros ->. lia.
Qed.
Next Obligation.
  intros u va n Hn. unfold um_copyin. destruct (um_copyin_ok u va n) as (d & ok & -> & _ & Hl). simpl. intros ->. lia.
Qed.
Next Obligation.
  intros u va max str. unfold um_copyinstr. destruct (um_copyinstr_ok u va max) as (r & -> & Hr). intros ->.
  destruct Hr as (d & -> & Hl & Hh & Hz). simpl. split; [done|].
  apply uholds_bytes in Hh as [Hb _]%Forall_app. unfold no_nul in Hz. rewrite Forall_forall in *. intros c Hc.
  specialize (Hb c Hc). specialize (Hz c Hc). unfold is_byte in Hb. simpl in *. lia.
Qed.
