(* ===== verification/VmGrow.v ===== *)
(** Growing, shrinking and duplicating an address space: [uvmalloc],
    [uvmdealloc] and [uvmcopy] of kernel/vm.c. *)

From S2P Require Import Prelude BufCache BufSpec KState CString Kalloc Vm VmTable VmMap VmUser.
Local Open Scope Z_scope.

(** Linear arithmetic on addresses. *)
Ltac va_lia :=
  change MAXVA with 274877906944 in *; change TRAPFRAME with 274877898752 in *; unfold PGSIZE in *; lia.

Section grow.
Variable kend : Z.
Implicit Types (T : gmap (list Z) Z) (s : kmem) (l : list Z) (pgs : list (Z * Z)).

(** Pages of a space hold the same bytes in two states. *)
Definition same_pages s s' pgs : Prop := forall p x, p ∈ pgs.*1 -> in_page p x -> km_mem s' x = km_mem s x.

Lemma same_pages_trans s s1 s2 pgs : same_pages s s1 pgs -> same_pages s1 s2 pgs -> same_pages s s2 pgs.
Proof. intros H1 H2 p x Hp Hx. by rewrite (H2 p x), (H1 p x). Qed.

Lemma data_apart l T pgs p : data_pages kend l T pgs -> p ∈ pgs.*1 -> page kend p /\ p ∉ l /\ apart_tables T p.
Proof.
  intros [_ HF] Hp. rewrite Forall_forall in HF. apply list_elem_of_fmap in Hp as ([q f] & -> & Hq).
  by destruct (HF _ Hq) as (? & ? & ? & _).
Qed.

(** Data pages are outside the tables and the free list. *)
Lemma data_other s l root T pgs p x :
  vm_ok kend s l root T -> data_pages kend l T pgs -> p ∈ pgs.*1 -> in_page p x -> other T l x.
Proof.
  intros ((_ & _ & Hfl) & H & _) Hd Hp Hx. destruct (data_apart _ _ _ _ Hd Hp) as (Hpp & Hpl & Hpt).
  rewrite Forall_forall in Hfl. split.
  - intros k t Ht. apply (pages_apart kend p); [done|by apply (pt_key _ _ _ _ H k)|intros ->; by eapply Hpt|done].
  - intros q Hq. apply (pages_apart kend p); [done|by apply Hfl|by intros ->|done].
Qed.

Lemma data_pages_mono l T l' T' pgs :
  data_pages kend l T pgs -> (forall p, p ∈ l' -> p ∈ l) -> (forall k t, T' !! k = Some t -> T !! k = Some t \/ t ∈ l) ->
  data_pages kend l' T' pgs.
Proof.
  intros [Hn HF] Hl HT. split; [done|]. rewrite Forall_forall in HF |- *. intros [p f] Hp.
  destruct (HF _ Hp) as (A & B & C & D). simpl in *. split; [done|]. split; [by auto|]. split; [|done].
  intros k t Ht ->. destruct (HT k p Ht) as [Ht'|Ht']; [by eapply C|done].
Qed.

(** The free list shrank and only memory outside the tables changed. *)
Lemma uspace_frame s l root T pgs s' l' :
  uspace kend s l root T pgs -> freelist_ok kend s' l' -> (forall p, p ∈ l' -> p ∈ l) ->
  (forall k t x, T !! k = Some t -> in_page t x -> km_mem s' x = km_mem s x) -> uspace kend s' l' root T pgs.
Proof.
  intros [(_ & H & Hn) H2 H3 H4 H5 H6] Hf Hl Hm.
  assert (Hpm : forall va, pmap (km_mem s') T va = pmap (km_mem s) T va) by (intros va; by eapply pmap_ext).
  split; try done.
  - split; [done|]. split; [by eapply ptbl_ext|]. intros k t Ht Ht'. eapply Hn; [done|by apply Hl].
  - intros i p f Hi. rewrite Hpm. by apply H2.
  - eapply data_pages_mono; [done|done|by left].
  - intros va Hva. rewrite Hpm. by apply H5.
  - intros va Hva. rewrite Hpm. by apply H6.
Qed.

(** A page taken from the free list, then filled by the kernel. *)
Lemma uspace_kalloc s p l root T pgs s1 s2 :
  uspace kend s (p :: l) root T pgs -> kalloc s = (p, s1) -> km_freelist s2 = km_freelist s1 ->
  (forall x, ~ in_page p x -> km_mem s2 x = km_mem s1 x) ->
  uspace kend s2 l root T pgs /\ page kend p /\ p ∉ l /\ apart_tables T p /\ p ∉ pgs.*1 /\ p <> 0 /\
  (forall x, ~ in_page p x -> km_mem s2 x = km_mem s x).
Proof.
  intros Hu Ek Ef Hm. pose proof (us_ok _ _ _ _ _ _ Hu) as (Hf & H & Hn).
  destruct (kalloc_ok _ _ _ _ Hf) as (s1' & E & Hp & Hpl & Hf1 & Hm1). rewrite Ek in E. injection E as <-.
  assert (Hm2 : forall x, ~ in_page p x -> km_mem s2 x = km_mem s x).
  { intros x Hx. rewrite Hm by done. rewrite Hm1. by rewrite decide_False. }
  assert (Hpt : apart_tables T p) by (intros k t Ht ->; eapply Hn; [done|left]).
  split; [|split; [done|]; split; [done|]; split; [done|]; split; [|split; [destruct Hp; lia|done]]].
  - eapply (uspace_frame s (p :: l)); [done| |by right|].
    + destruct Hf1 as (Hc & Hnd & Hfl). split; [|done]. rewrite Ef. eapply chain_ext; [|done].
      intros q x Hq Hx. apply Hm. rewrite Forall_forall in Hfl.
      apply (pages_apart kend q p x); [by apply Hfl|done|by intros ->|done].
    + intros k t x Ht Hx. apply Hm2. apply (pages_apart kend t p x); [by apply (pt_key _ _ _ _ H k)|done|by eapply Hpt|done].
  - intros Hin. destruct (data_apart _ _ _ _ (us_data _ _ _ _ _ _ Hu) Hin) as (_ & Hc & _). apply Hc. left.
Qed.

(** Tables grew, no translation changed. *)
Lemma uspace_ext s l root T pgs s' l' T' :
  uspace kend s l root T pgs -> ext kend root s l T s' l' T' ->
  (forall va, 0 <= va < MAXVA -> pmap (km_mem s') T' va = pmap (km_mem s) T va) ->
  uspace kend s' l' root T' pgs.
Proof.
  intros [H1 H2 H3 H4 H5 H6] Hx Hp. pose proof (fun p => ext_free_in _ _ _ _ _ _ _ _ p Hx) as Hl.
  split; [apply Hx|..]; try done.
  - intros i p f Hi. rewrite Hp; [by apply H2|]. apply lookup_lt_Some in Hi. va_lia.
  - eapply data_pages_mono; [done|done|apply Hx].
  - intros va Hva. rewrite Hp; [by apply H5|]. va_lia.
  - intros va Hva. rewrite Hp; [by apply H6|]. va_lia.
Qed.

(** One more page at the end. *)
Lemma uspace_map s l root T pgs s' l' T' p fl :
  uspace kend s l root T pgs -> ext kend root s l T s' l' T' ->
  (Z.of_nat (length pgs) + 1) * PGSIZE <= TRAPFRAME ->
  page kend p -> p ∉ l -> apart_tables T p -> p ∉ pgs.*1 -> leaf_flags fl ->
  (forall va, 0 <= va < MAXVA ->
     pmap (km_mem s') T' va = mapped (pmap (km_mem s) T) (Z.of_nat (length pgs) * PGSIZE) p fl 1 va) ->
  uspace kend s' l' root T' (pgs ++ [(p, fl)]).
Proof.
  intros [H1 H2 [Hd1 Hd2] H4 H5 H6] Hx Hsz Hp Hpl Hpt Hpp Hfl Hm.
  pose proof (fun q => ext_free_in _ _ _ _ _ _ _ _ q Hx) as Hl.
  assert (Hlen : Z.of_nat (length (pgs ++ [(p, fl)])) = Z.of_nat (length pgs) + 1) by (rewrite length_app; simpl; lia).
  split; [apply Hx|..]; rewrite ?Hlen; try done.
  - intros i q f Hi. rewrite Hm.
    2: { apply lookup_lt_Some in Hi. va_lia. }
    apply lookup_app_Some in Hi as [Hi|[Hge Hi]].
    + unfold mapped. rewrite decide_False; [by apply H2|]. apply lookup_lt_Some in Hi. va_lia.
    + destruct (i - length pgs)%nat as [|n] eqn:Ei; [|done]. injection Hi as <- <-.
      assert (i = length pgs) as -> by lia. unfold mapped. rewrite decide_True by (unfold PGSIZE; lia).
      replace (0 + Z.of_nat (length pgs) * PGSIZE - Z.of_nat (length pgs) * PGSIZE) with 0 by lia. f_equal.
      rewrite Z.div_0_l by done. lia.
  - apply (data_pages_mono l T); [|done|apply Hx]. split.
    + rewrite fmap_app. apply NoDup_app. split; [done|]. split; [|apply NoDup_singleton].
      intros q Hq ->%list_elem_of_singleton. done.
    + apply Forall_app. split; [done|]. by constructor.
  - intros va Hva. rewrite Hm by va_lia. unfold mapped. rewrite decide_False by va_lia.
    apply H5. va_lia.
  - intros va Hva. rewrite Hm by va_lia. unfold mapped.
    rewrite decide_False by va_lia. by apply H6.
Qed.

Lemma mappages_ok root perm size va pa s l T :
  vm_ok kend s l root T -> 0 < size -> size mod PGSIZE = 0 -> va mod PGSIZE = 0 -> 0 <= va -> va + size <= MAXVA ->
  pa mod PGSIZE = 0 -> 0 <= pa -> pa + size <= 2 ^ 56 -> 0 <= perm < 1024 ->
  (forall va', va <= va' < va + size -> has (pmap (km_mem s) T va') PTE_V = false) ->
  exists r j s' l' T', mappages root va size pa perm s = Done (r, s') /\ ext kend root s l T s' l' T' /\
    (forall va', 0 <= va' < MAXVA ->
       pmap (km_mem s') T' va' = mapped (pmap (km_mem s) T) va pa (Z.lor perm PTE_V) j va') /\
    ((r = 0 /\ j * PGSIZE = size) \/ (r = -1 /\ 0 <= j * PGSIZE < size /\ l' = [])).
Proof.
  intros Hok Hsz Hsm Hva Hva0 Hend Hpa Hpa0 Hpend Hperm Hun. unfold mappages.
  rewrite Hva, Hsm. simpl. rewrite (proj2 (Z.eqb_neq size 0)) by lia.
  pose proof (Z.div_mod size PGSIZE ltac:(done)) as Hd. rewrite Hsm in Hd.
  set (n := Z.to_nat (size / PGSIZE)). assert (Hn : Z.of_nat n * PGSIZE = size) by (unfold n, PGSIZE in *; lia).
  rewrite u64_small by va_lia.
  replace (va + size - PGSIZE) with (va + (Z.of_nat n - 1) * PGSIZE) by lia. rewrite <- Hn in *.
  destruct (mappages_loop_ok kend root perm n va pa s l T) as (r & j & s' & l' & T' & E & Hx & Hp & Hr); try done; [va_lia|].
  exists r, j, s', l', T'. split; [done|]. split; [done|]. split; [done|].
  destruct Hr as [[-> ->]|(-> & Hj & ->)]; [by left|right]. split; [done|]. split; [va_lia|done].
Qed.

(** A page at the end of the space: mapped, or no memory for a table. *)
Lemma map_end s l root T pgs p perm :
  uspace kend s l root T pgs -> (Z.of_nat (length pgs) + 1) * PGSIZE <= TRAPFRAME ->
  page kend p -> p ∉ l -> apart_tables T p -> p ∉ pgs.*1 -> 0 <= perm < 1024 -> leaf_flags (Z.lor perm PTE_V) ->
  exists r s' l' T', mappages root (Z.of_nat (length pgs) * PGSIZE) PGSIZE p perm s = Done (r, s') /\
    ext kend root s l T s' l' T' /\
    ((r = 0 /\ uspace kend s' l' root T' (pgs ++ [(p, Z.lor perm PTE_V)])) \/
     (r = -1 /\ uspace kend s' l' root T' pgs)).
Proof.
  intros Hu Hsz Hp Hpl Hpt Hpp Hperm Hfl. pose proof (page_ppage _ _ Hp) as [Hpm Hpr].
  destruct (mappages_ok root perm PGSIZE (Z.of_nat (length pgs) * PGSIZE) p s l T)
    as (r & j & s' & l' & T' & E & Hx & Hm & Hr); try done; try va_lia.
  { apply Hu. } { by apply Z.mod_mul. } { destruct Hp as (_ & _ & ?). change PHYSTOP with 0x88000000 in *. va_lia. }
  { intros va' Hva'. apply (us_none _ _ _ _ _ _ Hu). va_lia. }
  exists r, s', l', T'. split; [done|]. split; [done|]. destruct Hr as [[-> Hj]|(-> & Hj & ->)]; [left|right]; (split; [done|]).
  - assert (j = 1) as -> by va_lia. by eapply uspace_map.
  - assert (j = 0) as -> by va_lia. eapply uspace_ext; [done|done|]. intros va Hva. rewrite Hm by done.
    unfold mapped. by rewrite decide_False by lia.
Qed.

Lemma uspace_prefix s l root T keep drp s' :
  uspace kend s l root T (keep ++ drp) -> vm_ok kend s' (rev drp.*1 ++ l) root T ->
  (forall va, 0 <= va < MAXVA ->
     pmap (km_mem s') T va = unmapped (pmap (km_mem s) T) (Z.of_nat (length keep) * PGSIZE) (Z.of_nat (length drp)) va) ->
  uspace kend s' (rev drp.*1 ++ l) root T keep.
Proof.
  intros [H1 H2 [Hd1 Hd2] H4 H5 H6] Hok Hp. rewrite length_app, Nat2Z.inj_add in *. split; [done|..]; try va_lia.
  - intros i p f Hi. assert (Hl := lookup_lt_Some _ _ _ Hi). rewrite Hp by va_lia. unfold unmapped.
    rewrite decide_False by va_lia. apply H2. by apply lookup_app_l_Some.
  - rewrite fmap_app in Hd1. apply NoDup_app in Hd1 as (Hn1 & Hn2 & _). apply Forall_app in Hd2 as [Hd2 _].
    split; [done|]. rewrite Forall_forall in Hd2 |- *. intros [p f] Hpf. destruct (Hd2 _ Hpf) as (A & B & C & D).
    split; [done|]. split; [|done]. simpl in *. intros [Hin|]%elem_of_app; [|done].
    apply (Hn2 p); [apply list_elem_of_fmap; by exists (p, f)|]. apply list_elem_of_In, in_rev, list_elem_of_In in Hin. done.
  - intros va Hva. rewrite Hp by va_lia. unfold unmapped. case_decide; [done|]. apply H5. va_lia.
  - intros va Hva. rewrite Hp by va_lia. unfold unmapped. rewrite decide_False by va_lia. by apply H6.
Qed.

(** The pages after the first ones are unmapped and freed. *)
Lemma unmap_end s l root T keep drp :
  uspace kend s l root T (keep ++ drp) ->
  exists s', uvmunmap kend root (Z.of_nat (length keep) * PGSIZE) (Z.of_nat (length drp)) true s = Done (tt, s') /\
    uspace kend s' (rev drp.*1 ++ l) root T keep /\ same_pages s s' keep /\
    (forall x, (forall k t, T !! k = Some t -> ~ in_page t x) -> (forall p, p ∈ drp.*1 -> ~ in_page p x) ->
       km_mem s' x = km_mem s x).
Proof.
  intros Hu. pose proof Hu as [H1 H2 [Hd1 Hd2] H4 H5 H6]. rewrite length_app, Nat2Z.inj_add in *.
  rewrite fmap_app in Hd1. apply NoDup_app in Hd1 as (Hn1 & Hn2 & Hn3). apply Forall_app in Hd2 as [Hd2 Hd3].
  unfold uvmunmap. rewrite Z.mod_mul by done. simpl. rewrite u64_small by va_lia. rewrite Nat2Z.id.
  destruct (unmap_loop_ok kend root true drp (Z.of_nat (length keep) * PGSIZE) s l T (S (length drp)))
    as (s' & E & Hok & Hp & Hm); try done; try va_lia.
  - by apply Z.mod_mul.
  - intros i p f Hi. specialize (H2 (length keep + i)%nat p f).
    replace (Z.of_nat (length keep) * PGSIZE + Z.of_nat i * PGSIZE) with (0 + Z.of_nat (length keep + i) * PGSIZE) by lia.
    apply H2. rewrite lookup_app_r by lia. by replace (length keep + i - length keep)%nat with i by lia.
  - exists s'. split; [done|]. split; [by eapply uspace_prefix|]. split; [|done].
    intros p x Hpk Hx. apply Hm.
    + apply (data_other s l root T (keep ++ drp) p x); [done|by apply Hu| |done].
      rewrite fmap_app. apply elem_of_app. by left.
    + intros q Hq. rewrite Forall_forall in Hd2, Hd3.
      apply list_elem_of_fmap in Hpk as ([p' f'] & -> & Hpk'). apply list_elem_of_fmap in Hq as ([q' g'] & -> & Hq').
      apply (pages_apart kend p'); [by destruct (Hd2 _ Hpk')|by destruct (Hd3 _ Hq')| |done].
      simpl. intros ->. apply (Hn2 q'); apply list_elem_of_fmap; [by exists (q', f')|by exists (q', g')].
Qed.

Lemma uvmdealloc_ok s l root T keep drp oldsz newsz :
  uspace kend s l root T (keep ++ drp) ->
  0 <= newsz < oldsz -> oldsz <= TRAPFRAME -> pgroundup oldsz = Z.of_nat (length (keep ++ drp)) * PGSIZE ->
  pgroundup newsz = Z.of_nat (length keep) * PGSIZE ->
  exists s', uvmdealloc kend root oldsz newsz s = Done (newsz, s') /\
    uspace kend s' (rev drp.*1 ++ l) root T keep /\ same_pages s s' keep.
Proof.
  intros Hu Hsz Hmax Eold Enew. unfold uvmdealloc. rewrite Z.geb_leb, (proj2 (Z.leb_gt _ _)) by lia.
  rewrite Eold, Enew, length_app, Nat2Z.inj_add.
  destruct (Z.ltb_spec (Z.of_nat (length keep) * PGSIZE) ((Z.of_nat (length keep) + Z.of_nat (length drp)) * PGSIZE)) as [Hlt|Hge].
  - replace ((_ - _) / PGSIZE) with (Z.of_nat (length drp)).
    2: { replace ((Z.of_nat (length keep) + Z.of_nat (length drp)) * PGSIZE - Z.of_nat (length keep) * PGSIZE)
           with (Z.of_nat (length drp) * PGSIZE) by lia. by rewrite Z.div_mul. }
    pose proof (us_size _ _ _ _ _ _ Hu) as Hl. rewrite length_app, Nat2Z.inj_add in Hl.
    rewrite i32_small by va_lia. rewrite u64_small by va_lia.
    destruct (unmap_end s l root T keep drp Hu) as (s' & E & Hu' & Hs' & _). exists s'. by rewrite (vbind_done _ _ _ _ _ E).
  - assert (drp = []) as -> by (destruct drp; [done|simpl in Hge; va_lia]). rewrite app_nil_r in Hu. by exists s.
Qed.

(** Pages [new] are zero and have the flags [fl]. *)
Definition zero_pages s (fl : Z) (new : list (Z * Z)) : Prop :=
  Forall (fun pf => pf.2 = fl /\ forall x, in_page pf.1 x -> km_mem s x = 0) new.

Lemma zero_pages_same s s' fl new : zero_pages s fl new -> same_pages s s' new -> zero_pages s' fl new.
Proof.
  unfold zero_pages. rewrite !Forall_forall. intros H Hs [p f] Hp. destruct (H _ Hp) as [Hf Hz]. split; [done|].
  intros x Hx. rewrite (Hs p x); [by apply Hz|apply list_elem_of_fmap; by exists (p, f)|done].
Qed.

Lemma same_pages_app s s' a b : same_pages s s' (a ++ b) <-> same_pages s s' a /\ same_pages s s' b.
Proof.
  unfold same_pages. rewrite fmap_app. setoid_rewrite elem_of_app. naive_solver.
Qed.

(** A page in no space is given back. *)
Lemma give_back s l root T pgs p :
  uspace kend s l root T pgs -> page kend p -> p ∉ l -> apart_tables T p -> p ∉ pgs.*1 ->
  exists s', kfree kend p s = Done s' /\ uspace kend s' (p :: l) root T pgs /\
    (forall x, ~ in_page p x -> km_mem s' x = km_mem s x).
Proof.
  intros Hu Hp Hpl Hpt Hpp. pose proof Hu as [B1 B2 [B3 B3'] B4 B5 B6].
  destruct (vm_ok_free kend root s l T p B1 Hp Hpl Hpt) as (s' & E & Hok & Hm).
  exists s'. split; [done|]. split; [|done].
  assert (Hpm : forall va, pmap (km_mem s') T va = pmap (km_mem s) T va).
  { intros va. by apply (table_free_pmap kend root s s' l T p). }
  split; try done.
  - intros i q f Hi. rewrite Hpm. by apply B2.
  - split; [done|]. rewrite Forall_forall in B3' |- *. intros [q f] Hq. destruct (B3' _ Hq) as (A & B & C & D).
    split; [done|]. split; [|done]. simpl in *. intros [->|]%elem_of_cons; [|done]. apply Hpp. apply list_elem_of_fmap. by exists (p, f).
  - intros va Hva. rewrite Hpm. by apply B5.
  - intros va Hva. rewrite Hpm. by apply B6.
Qed.

(** A fresh zero page is mapped at the end, or given back. *)
Lemma alloc_one s p l root T pgs perm :
  uspace kend s (p :: l) root T pgs -> (Z.of_nat (length pgs) + 1) * PGSIZE <= TRAPFRAME ->
  0 <= perm < 1024 -> leaf_flags (Z.lor perm PTE_V) ->
  exists s1 s2 r, kalloc s = (p, s1) /\ p <> 0 /\
    mappages root (Z.of_nat (length pgs) * PGSIZE) PGSIZE p perm
      (KMem (memset (km_mem s1) p 0 PGSIZE) (km_freelist s1)) = Done (r, s2) /\
    ((r = 0 /\ exists l' T', uspace kend s2 l' root T' (pgs ++ [(p, Z.lor perm PTE_V)]) /\ same_pages s s2 pgs /\
        zero_pages s2 (Z.lor perm PTE_V) [(p, Z.lor perm PTE_V)]) \/
     (r = -1 /\ exists s3 l' T', kfree kend p s2 = Done s3 /\ uspace kend s3 l' root T' pgs /\ same_pages s s3 pgs)).
Proof.
  intros Hu Hsz Hperm Hfl. destruct (kalloc_ok kend s p l) as (s1 & Ek & _); [apply Hu|].
  set (sz := KMem (memset (km_mem s1) p 0 PGSIZE) (km_freelist s1)).
  destruct (uspace_kalloc s p l root T pgs s1 sz) as (Hu1 & Hp & Hpl & Hpt & Hpp & Hp0 & Hm1); try done.
  { intros x Hx. simpl. rewrite memset_spec by done. by rewrite decide_False. }
  destruct (map_end sz l root T pgs p perm) as (r & s2 & l' & T' & E & Hx & Hr); try done.
  exists s1, s2, r. split; [done|]. split; [done|]. split; [done|].
  assert (Hsame : same_pages s s2 pgs).
  { intros q x Hq Hqx. rewrite (ex_other _ _ _ _ _ _ _ _ Hx).
    - apply Hm1. destruct (data_apart _ _ _ _ (us_data _ _ _ _ _ _ Hu1) Hq) as (Hqp & _).
      apply (pages_apart kend q p x); try done. by intros ->.
    - eapply data_other; [apply Hu1|apply Hu1|done|done]. }
  destruct Hr as [[-> Hu2]|[-> Hu2]]; [left|right]; (split; [done|]).
  - exists l', T'. split; [done|]. split; [done|]. apply Forall_singleton. split; [done|]. intros x Hin.
    rewrite (ex_other _ _ _ _ _ _ _ _ Hx).
    + simpl. rewrite memset_spec by done. rewrite decide_True by done. done.
    + destruct (us_ok _ _ _ _ _ _ Hu1) as ((_ & _ & Hfl1) & H & _). rewrite Forall_forall in Hfl1. split.
      * intros k t Ht. apply (pages_apart kend p); [done|by apply (pt_key _ _ _ _ H k)|intros ->; by eapply Hpt|done].
      * intros q Hq. apply (pages_apart kend p); [done|by apply Hfl1|by intros ->|done].
  - destruct (give_back s2 l' root T' pgs p) as (s3 & E3 & Hu3 & Hm3); try done.
    { intros Hin. apply Hpl. by eapply ext_free_in. }
    { intros k t Ht ->. destruct (ex_new _ _ _ _ _ _ _ _ Hx k p Ht) as [?|?]; [by eapply Hpt|done]. }
    exists s3, (p :: l'), T'. split; [done|]. split; [done|]. intros q x Hq Hqx. rewrite Hm3; [by apply (Hsame q)|].
    destruct (data_apart _ _ _ _ (us_data _ _ _ _ _ _ Hu2) Hq) as (Hqp & _).
    apply (pages_apart kend q p x); try done. by intros ->.
Qed.

Lemma uvmalloc_loop_ok root xperm newsz pgs fuel new s l T :
  let perm := Z.lor (Z.lor PTE_R PTE_U) xperm in let fl := Z.lor perm PTE_V in
  let a := Z.of_nat (length (pgs ++ new)) * PGSIZE in
  uspace kend s l root T (pgs ++ new) -> zero_pages s fl new -> newsz <= TRAPFRAME ->
  0 <= perm < 1024 -> leaf_flags fl -> newsz - a < (Z.of_nat fuel - 1) * PGSIZE + 1 -> (0 < fuel)%nat ->
  exists r s' l' T' new', uvmalloc_loop kend fuel root a (Z.of_nat (length pgs) * PGSIZE) newsz xperm s = Done (r, s') /\
    uspace kend s' l' root T' (pgs ++ new') /\ same_pages s s' pgs /\
    ((r = newsz /\ zero_pages s' fl new' /\ (newsz <= a /\ new' = new \/
        newsz <= Z.of_nat (length (pgs ++ new')) * PGSIZE < newsz + PGSIZE)) \/ (r = 0 /\ new' = [])).
Proof.
  revert new s l T. induction fuel as [|fuel IH]; intros new s l T perm fl a Hu Hz Hmax Hperm Hfl Hfu Hf0; [lia|].
  cbn [uvmalloc_loop]. destruct (Z.ltb_spec a newsz) as [Hlt|Hge].
  2: { exists newsz, s, l, T, new. do 2 (split; [done|]). split; [done|]. left. auto. }
  assert (Hback : forall s1 l1 T1, uspace kend s1 l1 root T1 (pgs ++ new) -> same_pages s s1 (pgs ++ new) ->
    exists r s' l' T' new', (uvmdealloc kend root a (Z.of_nat (length pgs) * PGSIZE);; mret 0) s1 = Done (r, s') /\
    uspace kend s' l' root T' (pgs ++ new') /\ same_pages s s' pgs /\ (r = 0 /\ new' = [])).
  { intros s1 l1 T1 Hu1 Hs1. destruct (decide (new = [])) as [->|Hne].
    - exists 0, s1, l1, T1, []. rewrite app_nil_r in *. split; [|done]. unfold a. rewrite app_nil_r.
      unfold uvmdealloc. rewrite Z.geb_leb, (proj2 (Z.leb_le _ _)) by lia. done.
    - destruct (uvmdealloc_ok s1 l1 root T1 pgs new a (Z.of_nat (length pgs) * PGSIZE)) as (s2 & E2 & Hu2 & Hs2); try done.
      + unfold a. rewrite length_app. destruct new; [done|]. simpl. unfold PGSIZE. lia.
      + lia.
      + unfold a, pgroundup. rewrite u64_small by (subst a; va_lia). rewrite land_pages. f_equal. symmetry.
        apply (Z.div_unique _ _ _ (PGSIZE - 1)); [left; done|lia].
      + unfold pgroundup. rewrite u64_small by (unfold a in *; rewrite length_app in *; va_lia). rewrite land_pages. f_equal. symmetry.
        apply (Z.div_unique _ _ _ (PGSIZE - 1)); [left; done|lia].
      + exists 0, s2, (rev new.*1 ++ l1), T1, []. rewrite app_nil_r. rewrite (vbind_done _ _ _ _ _ E2). split; [done|].
        split; [done|]. split; [|done]. apply same_pages_app in Hs1 as [Hs1 _]. by eapply same_pages_trans. }
  destruct l as [|p l].
  { rewrite (vbind_done _ _ s 0 s) by (unfold vkalloc; rewrite (kalloc_nil kend); [done|apply Hu]). simpl.
    destruct (Hback s [] T Hu) as (r & s' & l' & T' & new' & E & H1 & H2 & H3); [done|].
    exists r, s', l', T', new'. split; [done|]. split; [done|]. split; [done|by right]. }
  destruct (alloc_one s p l root T (pgs ++ new) perm) as (s1 & s2 & r & Ek & Hp0 & E & Hr); try done.
  { subst a. va_lia. }
  rewrite (vbind_done _ _ s p s1) by (unfold vkalloc; by rewrite Ek). rewrite (proj2 (Z.eqb_neq p 0)) by done.
  rewrite (vbind_done _ _ s1 tt (KMem (memset (km_mem s1) p 0 PGSIZE) (km_freelist s1))) by done.
  rewrite (vbind_done _ _ _ _ _ E). destruct Hr as [(-> & l' & T' & Hu2 & Hs2 & Hz2)|(-> & s3 & l' & T' & E3 & Hu3 & Hs3)].
  - simpl. rewrite <- app_assoc in Hu2. apply same_pages_app in Hs2 as [Hs2 Hs2n].
    assert (Ea : Z.of_nat (length (pgs ++ new ++ [(p, fl)])) * PGSIZE = a + PGSIZE).
    { unfold a. rewrite !length_app. simpl. lia. }
    rewrite (u64_small (a + PGSIZE)) by (subst a; va_lia). rewrite <- Ea.
    destruct (IH (new ++ [(p, fl)]) s2 l' T') as (r & s' & l2 & T2 & new' & E2 & H1 & H2 & H3); try done.
    { apply Forall_app. split; [by eapply zero_pages_same|done]. } { unfold PGSIZE in *. lia. } { unfold PGSIZE in *. lia. }
    exists r, s', l2, T2, new'. split; [done|]. split; [done|]. split; [by eapply same_pages_trans|].
    destruct H3 as [(-> & Hz' & Hsz)|H3]; [left|by right]. split; [done|]. split; [done|]. right.
    destruct Hsz as [[Hsz ->]|Hsz]; [|done]. rewrite Ea in *. lia.
  - change (negb (-1 =? 0)) with true. cbv iota. rewrite (vbind_done _ _ s2 tt s3) by (unfold vkfree; by rewrite E3).
    destruct (Hback s3 l' T' Hu3 Hs3) as (r & s' & l2 & T2 & new' & E2 & H1 & H2 & H3).
    exists r, s', l2, T2, new'. split; [done|]. split; [done|]. split; [done|by right].
Qed.

(** ** Copying *)

(** The pages of space [(T, pgs)] are none of space [(T2, pgs2)]. *)
Definition owns T pgs (p : Z) : Prop := (exists k, T !! k = Some p) \/ p ∈ pgs.*1.
Definition apart_spaces T pgs T2 pgs2 : Prop := forall p, owns T pgs p -> apart_tables T2 p /\ p ∉ pgs2.*1.

Lemma owns_page s l root T pgs p : uspace kend s l root T pgs -> owns T pgs p -> page kend p /\ p ∉ l.
Proof.
  intros Hu [[k Hk]|Hp].
  - destruct (us_ok _ _ _ _ _ _ Hu) as (_ & H & Hn). split; [by apply (pt_key _ _ _ _ H k)|by eapply Hn].
  - destruct (data_apart _ _ _ _ (us_data _ _ _ _ _ _ Hu) Hp) as (? & ? & _). done.
Qed.

(** Everything a space owns is untouched when only memory outside it changes. *)
Definition untouched s s' T pgs : Prop := forall p x, owns T pgs p -> in_page p x -> km_mem s' x = km_mem s x.

Lemma untouched_trans s s1 s2 T pgs : untouched s s1 T pgs -> untouched s1 s2 T pgs -> untouched s s2 T pgs.
Proof. intros H1 H2 p x Hp Hx. by rewrite (H2 p x), (H1 p x). Qed.

Lemma untouched_pages s s' T pgs : untouched s s' T pgs -> same_pages s s' pgs.
Proof. intros H p x Hp. apply H. by right. Qed.

Lemma uspace_untouched s l root T pgs s' l' :
  uspace kend s l root T pgs -> freelist_ok kend s' l' -> untouched s s' T pgs ->
  (forall p, owns T pgs p -> p ∉ l') -> uspace kend s' l' root T pgs.
Proof.
  intros [(_ & H & Hn) H2 [H3 H3'] H4 H5 H6] Hf Hm Hl.
  assert (Htab : forall k t x, T !! k = Some t -> in_page t x -> km_mem s' x = km_mem s x).
  { intros k t x Ht. apply Hm. left. by exists k. }
  assert (Hpm : forall va, pmap (km_mem s') T va = pmap (km_mem s) T va) by (intros va; by eapply pmap_ext).
  split; try done.
  - split; [done|]. split; [by eapply ptbl_ext|]. intros k t Ht. apply Hl. left. by exists k.
  - intros i p f Hi. rewrite Hpm. by apply H2.
  - split; [done|]. rewrite Forall_forall in H3' |- *. intros [p f] Hp. destruct (H3' _ Hp) as (A & B & C & D).
    split; [done|]. split; [|done]. apply Hl. right. apply list_elem_of_fmap. by exists (p, f).
  - intros va Hva. rewrite Hpm. by apply H5.
  - intros va Hva. rewrite Hpm. by apply H6.
Qed.

(** The other space, when tables of this one grow. *)
Lemma untouched_ext s l root T pgs root2 T2 pgs2 s' l' T' :
  uspace kend s l root T pgs -> apart_spaces T pgs T2 pgs2 -> ext kend root2 s l T2 s' l' T' -> untouched s s' T pgs.
Proof.
  intros Hu Ha Hx p x Hp Hpx. destruct (owns_page _ _ _ _ _ _ Hu Hp) as [Hpp Hpl]. destruct (Ha p Hp) as [Hp2 _].
  apply (ex_other _ _ _ _ _ _ _ _ Hx). destruct (ex_ok _ _ _ _ _ _ _ _ Hx) as (_ & H & _).
  destruct (us_ok _ _ _ _ _ _ Hu) as ((_ & _ & Hfl) & _). rewrite Forall_forall in Hfl. split.
  - intros k t Ht. apply (pages_apart kend p t x); [done| |intros ->; by eapply Hp2|done].
    eapply (pt_key _ _ _ _ H k). eapply lookup_weaken; [done|apply Hx].
  - intros q Hq. apply (pages_apart kend p q x); [done|by apply Hfl|by intros ->|done].
Qed.

(** The pages of [pgs2] are copies of the first ones of [pgs]. *)
Definition copies s (pgs pgs2 : list (Z * Z)) : Prop :=
  forall i q g, pgs2 !! i = Some (q, g) -> exists p, pgs !! i = Some (p, g) /\
    forall o, 0 <= o < PGSIZE -> km_mem s (q + o) = km_mem s (p + o).

Lemma copies_same s s' pgs pgs2 : copies s pgs pgs2 -> same_pages s s' pgs -> same_pages s s' pgs2 -> copies s' pgs pgs2.
Proof.
  intros Hc H1 H2 i q g Hi. destruct (Hc i q g Hi) as (p & Hp & Ho). exists p. split; [done|]. intros o Hoo.
  assert (Hpin : p ∈ pgs.*1) by (apply list_elem_of_fmap; exists (p, g); split; [done|by eapply list_elem_of_lookup_2]).
  assert (Hqin : q ∈ pgs2.*1) by (apply list_elem_of_fmap; exists (q, g); split; [done|by eapply list_elem_of_lookup_2]).
  rewrite (H1 p (p + o)), (H2 q (q + o)); [by apply Ho|done|unfold in_page; lia|done|unfold in_page; lia].
Qed.

Lemma copies_snoc s pgs pgs2 p q g :
  copies s pgs pgs2 -> pgs !! length pgs2 = Some (p, g) ->
  (forall o, 0 <= o < PGSIZE -> km_mem s (q + o) = km_mem s (p + o)) -> copies s pgs (pgs2 ++ [(q, g)]).
Proof.
  intros Hc Hp Ho i q' g' [Hi|[Hge Hi]]%lookup_app_Some; [by apply Hc|].
  destruct (i - length pgs2)%nat as [|n] eqn:Ei; [|done]. injection Hi as <- <-.
  assert (i = length pgs2) as -> by lia. by exists p.
Qed.

Lemma lor_valid f : has f PTE_V = true -> Z.lor f PTE_V = f.
Proof.
  unfold has, PTE_V. intros H. apply negb_true_iff, Z.eqb_neq in H.
  assert (H0 : Z.testbit f 0 = true).
  { destruct (Z.testbit f 0) eqn:E; [done|]. exfalso. apply H. apply Z.bits_inj'. intros n Hn.
    rewrite Z.land_spec, Z.bits_0. destruct (decide (n = 0)) as [->|]; [by rewrite E|].
    change 1 with (2 ^ 0). rewrite Z.pow2_bits_false by lia. apply andb_false_r. }
  apply Z.bits_inj'. intros n Hn. rewrite Z.lor_spec. destruct (decide (n = 0)) as [->|]; [by rewrite H0|].
  change 1 with (2 ^ 0). rewrite Z.pow2_bits_false by lia. apply orb_false_r.
Qed.

(** The two address spaces of a copy. *)
Record pair_ok s l root T pgs root2 T2 pgs2 : Prop := PairOk {
  po_old : uspace kend s l root T pgs;
  po_new : uspace kend s l root2 T2 pgs2;
  po_apart : apart_spaces T pgs T2 pgs2;
  po_copies : copies s pgs pgs2;
}.

Lemma apart_grow T pgs T2 pgs2 T2' l p fl root s :
  uspace kend s (p :: l) root T pgs -> apart_spaces T pgs T2 pgs2 ->
  (forall k t, T2' !! k = Some t -> T2 !! k = Some t \/ t ∈ l) ->
  apart_spaces T pgs T2' pgs2 /\ apart_spaces T pgs T2' (pgs2 ++ [(p, fl)]).
Proof.
  intros Hu Ha HT. assert (Ht : forall q, owns T pgs q -> apart_tables T2' q).
  { intros q Hq k t Ht ->. destruct (owns_page _ _ _ _ _ _ Hu Hq) as [_ Hl].
    destruct (HT k q Ht) as [Hk|?]; [by apply (proj1 (Ha q Hq) k q)|]. apply Hl. by right. }
  split; intros q Hq; (split; [by apply Ht|]); [by apply (Ha q)|].
  rewrite fmap_app. intros [Hin| ->%list_elem_of_singleton]%elem_of_app; [by apply (proj2 (Ha q Hq))|].
  destruct (owns_page _ _ _ _ _ _ Hu Hq) as [_ Hl]. apply Hl. by left.
Qed.

(** One round of [uvmcopy]: [p] is the new page, [pa] the old one. *)
Lemma copy_one s p l root T pgs root2 T2 pgs2 pa fl :
  pair_ok s (p :: l) root T pgs root2 T2 pgs2 -> pgs !! length pgs2 = Some (pa, fl) ->
  exists s1 s2 r, kalloc s = (p, s1) /\ p <> 0 /\
    mappages root2 (Z.of_nat (length pgs2) * PGSIZE) PGSIZE p fl
      (KMem (memmove (km_mem s1) p pa PGSIZE) (km_freelist s1)) = Done (r, s2) /\
    ((r = 0 /\ exists l' T2', pair_ok s2 l' root T pgs root2 T2' (pgs2 ++ [(p, fl)]) /\ untouched s s2 T pgs) \/
     (r = -1 /\ exists s3 l' T2', kfree kend p s2 = Done s3 /\ pair_ok s3 l' root T pgs root2 T2' pgs2 /\ untouched s s3 T pgs)).
Proof.
  intros [Ho Hn Ha Hcp] Hpa. pose proof (us_data _ _ _ _ _ _ Ho) as [_ HF]. rewrite Forall_lookup in HF.
  destruct (HF _ _ Hpa) as (Hpap & _ & _ & Hfl). simpl in Hpap, Hfl. pose proof (lor_valid fl (proj1 (proj2 Hfl))) as Elor.
  assert (Hpao : owns T pgs pa).
  { right. apply list_elem_of_fmap. exists (pa, fl). split; [done|]. by eapply list_elem_of_lookup_2. }
  destruct (kalloc_ok kend s p l) as (s1 & Ek & _); [apply Ho|].
  set (sm := KMem (memmove (km_mem s1) p pa PGSIZE) (km_freelist s1)).
  assert (Hsm : forall x, ~ in_page p x -> km_mem sm x = km_mem s1 x).
  { intros x Hx. simpl. rewrite memmove_moved by done. unfold moved. by rewrite decide_False. }
  destruct (uspace_kalloc s p l root T pgs s1 sm) as (Ho1 & Hp & Hpl & Hpt & Hpp & Hp0 & Hm1); try done.
  destruct (uspace_kalloc s p l root2 T2 pgs2 s1 sm) as (Hn1 & _ & _ & Hpt2 & Hpp2 & _ & _); try done.
  assert (Hpown : ~ owns T pgs p) by (intros [[k Hk]|Hin]; [by apply (Hpt k p)|done]).
  assert (Hnp : forall q x, page kend q -> q <> p -> in_page q x -> ~ in_page p x).
  { intros q x Hq Hne. by apply (pages_apart kend q p x). }
  assert (Hu1 : untouched s sm T pgs).
  { intros q x Hq Hqx. apply Hm1. eapply Hnp; [by apply (owns_page _ _ _ _ _ _ Ho)|by intros ->|done]. }
  assert (Hs1 : same_pages s sm pgs2).
  { intros q x Hq Hqx. apply Hm1. destruct (data_apart _ _ _ _ (us_data _ _ _ _ _ _ Hn1) Hq) as (Hqp & _).
    eapply Hnp; [done|by intros ->|done]. }
  assert (Hcpy : forall o, 0 <= o < PGSIZE -> km_mem sm (p + o) = km_mem sm (pa + o)).
  { intros o Hoo. rewrite (Hsm (pa + o)).
    - simpl. rewrite memmove_moved by done. unfold moved. rewrite decide_True by lia. f_equal. lia.
    - eapply (Hnp pa); [done|intros ->; by apply Hpown|unfold in_page; lia]. }
  assert (Hlen : (Z.of_nat (length pgs2) + 1) * PGSIZE <= TRAPFRAME).
  { pose proof (us_size _ _ _ _ _ _ Ho). apply lookup_lt_Some in Hpa. unfold PGSIZE in *. lia. }
  destruct (map_end sm l root2 T2 pgs2 p fl) as (r & s2 & l' & T2' & E & Hx & Hr); try done.
  { apply Hfl. } { by rewrite Elor. } rewrite Elor in Hr.
  exists s1, s2, r. split; [done|]. split; [done|]. split; [done|].
  assert (Hu2 : untouched sm s2 T pgs) by (by eapply (untouched_ext sm l root T pgs root2 T2 pgs2)).
  assert (Hs2 : forall pg, data_pages kend l T2 pg -> same_pages sm s2 pg).
  { intros pg Hd q x Hq Hqx. apply (ex_other _ _ _ _ _ _ _ _ Hx). eapply data_other; [apply Hn1|done|done|done]. }
  destruct (apart_grow T pgs T2 pgs2 T2' l p fl root s Ho Ha (ex_new _ _ _ _ _ _ _ _ Hx)) as [Ha2 Ha2'].
  assert (Hl' : forall q, owns T pgs q -> q ∉ l').
  { intros q Hq Hin. destruct (owns_page _ _ _ _ _ _ Ho Hq) as [_ Hql]. apply Hql. right. by eapply ext_free_in. }
  assert (Ho2 : uspace kend s2 l' root T pgs).
  { eapply uspace_untouched; [exact Ho1|apply (ex_ok _ _ _ _ _ _ _ _ Hx)|done|done]. }
  assert (Hcp2 : copies s2 pgs pgs2).
  { eapply copies_same; [eapply copies_same; [exact Hcp|by apply untouched_pages in Hu1|done]|by apply untouched_pages in Hu2|].
    apply Hs2, Hn1. }
  destruct Hr as [[-> Hn2]|[-> Hn2]]; [left|right]; (split; [done|]).
  - exists l', T2'. split; [|by eapply untouched_trans]. split; try done. apply (copies_snoc _ _ _ pa); [done|done|].
    intros o Hoo. assert (Hpin : forall q x, page kend q -> q ∉ l -> apart_tables T2 q -> in_page q x -> km_mem s2 x = km_mem sm x).
    { intros q x Hq Hql Hqt Hqx. refine (Hs2 [(q, fl)] _ q x _ Hqx); [|by left]. split; [apply NoDup_singleton|by constructor]. }
    rewrite (Hpin p (p + o)), (Hu2 pa (pa + o)) by (done || (unfold in_page; lia)). by apply Hcpy.
  - destruct (give_back s2 l' root2 T2' pgs2 p) as (s3 & E3 & Hn3 & Hm3); try done.
    { intros Hin. apply Hpl. by eapply ext_free_in. }
    { intros k t Ht ->. destruct (ex_new _ _ _ _ _ _ _ _ Hx k p Ht) as [?|?]; [by eapply Hpt2|done]. }
    assert (Hu3 : untouched s2 s3 T pgs).
    { intros q x Hq Hqx. apply Hm3. eapply Hnp; [by apply (owns_page _ _ _ _ _ _ Ho)|by intros ->|done]. }
    exists s3, (p :: l'), T2'. split; [done|]. split; [|eapply untouched_trans; [by eapply untouched_trans|done]]. split; try done.
    + eapply uspace_untouched; [exact Ho2|apply Hn3|done|]. intros q Hq [->|Hin]%elem_of_cons; [done|by eapply Hl'].
    + eapply copies_same; [done|by apply untouched_pages in Hu3|]. intros q x Hq Hqx. apply Hm3.
      destruct (data_apart _ _ _ _ (us_data _ _ _ _ _ _ Hn2) Hq) as (Hqp & _). eapply Hnp; [done|by intros ->|done].
Qed.

Lemma upage_index pgs i : upage pgs (Z.of_nat i * PGSIZE) = pgs !! i.
Proof. unfold upage. rewrite decide_True by (unfold PGSIZE; lia). by rewrite Z.div_mul, Nat2Z.id. Qed.

(** The [err:] label: the copies made so far are freed. *)
Lemma copy_undo s l root T pgs root2 T2 pgs2 :
  pair_ok s l root T pgs root2 T2 pgs2 ->
  exists s' l', (uvmunmap kend root2 0 (Z.of_nat (length pgs2)) true;; mret (-1)) s = Done (-1, s') /\
    pair_ok s' l' root T pgs root2 T2 [] /\ untouched s s' T pgs.
Proof.
  intros [Ho Hn Ha Hc]. destruct (unmap_end s l root2 T2 [] pgs2 Hn) as (s' & E & Hu & _ & Hm).
  exists s', (rev pgs2.*1 ++ l). change (Z.of_nat (length []) * PGSIZE) with 0 in E. rewrite (vbind_done _ _ _ _ _ E).
  split; [done|]. assert (Hun : untouched s s' T pgs).
  { intros p x Hp Hx. destruct (owns_page _ _ _ _ _ _ Ho Hp) as [Hpp _]. destruct (Ha p Hp) as [Hpt Hp2]. apply Hm.
    - intros k t Ht. destruct (us_ok _ _ _ _ _ _ Hn) as (_ & H & _).
      apply (pages_apart kend p t x); [done|by apply (pt_key _ _ _ _ H k)|intros ->; by apply (Hpt k t)|done].
    - intros q Hq. destruct (data_apart _ _ _ _ (us_data _ _ _ _ _ _ Hn) Hq) as (Hqp & _).
      apply (pages_apart kend p q x); [done|done|by intros ->|done]. }
  split; [|done]. split; [|done| |by intros i q g Hi].
  - eapply uspace_untouched; [exact Ho|apply Hu|done|]. intros q Hq [Hin|Hin]%elem_of_app.
    + apply list_elem_of_In, in_rev, list_elem_of_In in Hin. by apply (Ha q Hq).
    + by apply (owns_page _ _ _ _ _ _ Ho Hq).
  - intros p Hp. split; [by apply Ha|apply not_elem_of_nil].
Qed.

Lemma uvmcopy_loop_ok root T pgs root2 sz fuel T2 pgs2 s l :
  pair_ok s l root T pgs root2 T2 pgs2 -> (length pgs2 <= length pgs)%nat ->
  sz <= Z.of_nat (length pgs) * PGSIZE < sz + PGSIZE -> (length pgs - length pgs2 < fuel)%nat ->
  exists r s' l' T2' pgs2', uvmcopy_loop kend fuel root root2 (Z.of_nat (length pgs2) * PGSIZE) sz s = Done (r, s') /\
    pair_ok s' l' root T pgs root2 T2' pgs2' /\ untouched s s' T pgs /\
    ((r = 0 /\ length pgs2' = length pgs) \/ (r = -1 /\ pgs2' = [])).
Proof.
  revert T2 pgs2 s l. induction fuel as [|fuel IH]; intros T2 pgs2 s l Hok Hle Hsz Hfu; [lia|].
  cbn [uvmcopy_loop]. destruct (Z.ltb_spec (Z.of_nat (length pgs2) * PGSIZE) sz) as [Hlt|Hge].
  2: { exists 0, s, l, T2, pgs2. split; [done|]. split; [done|]. split; [done|]. left. split; [done|]. unfold PGSIZE in *. lia. }
  destruct (lookup_lt_is_Some_2 pgs (length pgs2)) as [[pa fl] Hpa]; [unfold PGSIZE in *; lia|].
  pose proof (us_size _ _ _ _ _ _ (po_old _ _ _ _ _ _ _ _ Hok)) as Hmax. pose proof (lookup_lt_Some _ _ _ Hpa) as Hi.
  destruct (walk_entry kend s l root T pgs (Z.of_nat (length pgs2) * PGSIZE)) as (w & Ew & Hw); [apply Hok|va_lia|].
  rewrite upage_index, Hpa in Hw. destruct Hw as (Hw0 & Hwl & Hpp & (Hf & Hv & Hfv)). cbv zeta.
  rewrite (vbind_done _ _ _ _ _ Ew), (proj2 (Z.eqb_neq w 0)) by done.
  rewrite (vbind_done _ _ s (entry pa fl) s) by (unfold vload; by rewrite Hwl).
  rewrite entry_has, Hv by done. cbn [negb]. rewrite Z.div_mul by done.
  assert (Hundo : forall s1 l1 T1, pair_ok s1 l1 root T pgs root2 T1 pgs2 -> untouched s s1 T pgs ->
    exists r s' l' T2' pgs2', (uvmunmap kend root2 0 (Z.of_nat (length pgs2)) true;; mret (-1)) s1 = Done (r, s') /\
    pair_ok s' l' root T pgs root2 T2' pgs2' /\ untouched s s' T pgs /\
    ((r = 0 /\ length pgs2' = length pgs) \/ (r = -1 /\ pgs2' = []))).
  { intros s1 l1 T1 Hok1 Hun1. destruct (copy_undo _ _ _ _ _ _ _ _ Hok1) as (s' & l' & E & Hok' & Hun').
    exists (-1), s', l', T1, []. split; [done|]. split; [done|]. split; [by eapply untouched_trans|by right]. }
  destruct l as [|p l].
  { rewrite (vbind_done _ _ s 0 s) by (unfold vkalloc; rewrite (kalloc_nil kend); [done|apply Hok]). simpl.
    by apply (Hundo s [] T2). }
  destruct (copy_one s p l root T pgs root2 T2 pgs2 pa fl Hok Hpa) as (s1 & s2 & r & Ek & Hp0 & E & Hr).
  rewrite (vbind_done _ _ s p s1) by (unfold vkalloc; by rewrite Ek). rewrite (proj2 (Z.eqb_neq p 0)) by done.
  rewrite entry_page by (done || by eapply page_ppage).
  rewrite (vbind_done _ _ s1 tt (KMem (memmove (km_mem s1) p pa PGSIZE) (km_freelist s1))) by done.
  rewrite entry_flags by done. rewrite (vbind_done _ _ _ _ _ E).
  destruct Hr as [(-> & l' & T2' & Hok2 & Hun2)|(-> & s3 & l' & T2' & E3 & Hok3 & Hun3)].
  - change (negb (0 =? 0)) with false. cbv iota.
    assert (Ea : Z.of_nat (length (pgs2 ++ [(p, fl)])) * PGSIZE = Z.of_nat (length pgs2) * PGSIZE + PGSIZE)
      by (rewrite length_app; simpl; lia).
    rewrite u64_small by va_lia. rewrite <- Ea.
    destruct (IH T2' (pgs2 ++ [(p, fl)]) s2 l') as (r & s' & l2 & T3 & pgs3 & E2 & H1 & H2 & H3); try done.
    { rewrite length_app. simpl. lia. } { rewrite length_app. simpl. lia. }
    exists r, s', l2, T3, pgs3. split; [done|]. split; [done|]. split; [by eapply untouched_trans|done].
  - change (negb (-1 =? 0)) with true. cbv iota. rewrite (vbind_done _ _ s2 tt s3) by (unfold vkfree; by rewrite E3).
    by apply (Hundo s3 l' T2').
Qed.
End grow.
