(* ===== verification/VmProps.v ===== *)
(** What the virtual memory code of kernel/vm.c guarantees. *)

From S2P Require Import Prelude BufCache BufSpec KState CString Kalloc Vm VmTable VmMap VmUser VmGrow.
Local Open Scope Z_scope.

(** * A small machine: six pages, one of them an empty page table *)

Definition vm_end : Z := PHYSTOP - 6 * PGSIZE.
Definition vm_root : Z := PHYSTOP - 6 * PGSIZE.
Definition vm_pages : list Z := [PHYSTOP - PGSIZE; PHYSTOP - 2 * PGSIZE; PHYSTOP - 3 * PGSIZE; PHYSTOP - 4 * PGSIZE].
Definition vm_root2 : Z := PHYSTOP - 5 * PGSIZE.
Definition vm_free (l : list Z) : kmem :=
  foldr (fun p s => match kfree vm_end p s with Done s' => s' | _ => s end) (KMem (fun _ => 0) 0) l.

Lemma vm_page i : 1 <= i <= 6 -> page vm_end (PHYSTOP - i * PGSIZE).
Proof.
  intros Hi. unfold page. change PHYSTOP with (557056 * PGSIZE). unfold vm_end. change PHYSTOP with (557056 * PGSIZE).
  split; [|unfold PGSIZE; lia]. replace (557056 * PGSIZE - i * PGSIZE) with ((557056 - i) * PGSIZE) by lia. by apply Z.mod_mul.
Qed.

Lemma vm_free_ok l : NoDup l -> Forall (page vm_end) l ->
  freelist_ok vm_end (vm_free l) l /\ forall x, (forall p, p ∈ l -> ~ in_page p x) -> km_mem (vm_free l) x = 0.
Proof.
  induction l as [|p l IH]; intros Hn Hf; [split; [|done]; split; [done|split; constructor]|].
  apply NoDup_cons in Hn as [Hp Hn]. apply Forall_cons in Hf as [Hpp Hf]. destruct (IH Hn Hf) as [Hl Hz].
  destruct (kfree_ok vm_end (vm_free l) l p Hl Hpp Hp) as (s' & E & Hok & Hm). simpl. rewrite E. split; [done|].
  intros x Hx. rewrite Hm by (apply Hx; left). apply Hz. intros q Hq. apply Hx. by right.
Qed.

Lemma vm_pages_ok : NoDup vm_pages /\ Forall (page vm_end) vm_pages.
Proof.
  split; [apply (bool_decide_unpack _); by vm_compute|].
  unfold vm_pages. rewrite <- (Z.mul_1_l PGSIZE) at 1. repeat constructor; try (apply vm_page; lia).
Qed.

(** An empty page table at a zero page. *)
Lemma empty_uspace r :
  page vm_end r -> r ∉ vm_pages -> uspace vm_end (vm_free vm_pages) vm_pages r {[ [] := r ]} [].
Proof.
  intros Hr Hn. destruct vm_pages_ok as [Hnd Hp]. destruct (vm_free_ok vm_pages Hnd Hp) as [Hf Hz].
  rewrite Forall_forall in Hp.
  assert (Hzero : forall i, idx i -> load64 (km_mem (vm_free vm_pages)) (r + 8 * i) = 0).
  { intros i Hi. unfold load64.
    assert (E : (fun j => km_mem (vm_free vm_pages) (r + 8 * i + j)) <$> seqZ 0 8 = (fun _ => 0) <$> seqZ 0 8).
    { apply list_fmap_ext. intros j x Hx. apply lookup_seqZ in Hx. apply Hz. intros p Hpp Hpx.
      apply (pages_apart vm_end r p (r + 8 * i + x)); try done; [by apply Hp|by intros ->|].
      eapply entry_in_page; [exact Hi|lia]. }
    by rewrite E. }
  assert (Hpm : forall va, pmap (km_mem (vm_free vm_pages)) {[ [] := r ]} va = 0).
  { intros va. unfold pmap. by rewrite lookup_singleton_ne. }
  split.
  - split; [done|]. split.
    + split.
      * apply lookup_singleton_eq.
      * intros k t [<- <-]%lookup_singleton_Some. simpl. split; [lia|done].
      * intros k i t [E _]%lookup_singleton_Some. by destruct k.
      * intros k k' t [<- _]%lookup_singleton_Some [<- _]%lookup_singleton_Some. done.
      * intros k t i t' _ [E _]%lookup_singleton_Some. by destruct k.
      * intros k t i [<- <-]%lookup_singleton_Some _ Hi _. by rewrite Hzero.
    + by intros k t [<- <-]%lookup_singleton_Some.
  - by intros i p f Hi.
  - split; constructor.
  - change TRAPFRAME with 274877898752. simpl. lia.
  - intros va _. by rewrite Hpm.
  - intros va _. by rewrite Hpm.
Qed.

Lemma vm_root_space : uspace vm_end (vm_free vm_pages) vm_pages vm_root {[ [] := vm_root ]} [].
Proof. apply empty_uspace; [apply vm_page; lia|apply (bool_decide_unpack _); by vm_compute]. Qed.
Lemma vm_root2_space : uspace vm_end (vm_free vm_pages) vm_pages vm_root2 {[ [] := vm_root2 ]} [].
Proof. apply empty_uspace; [apply vm_page; lia|apply (bool_decide_unpack _); by vm_compute]. Qed.

(** * Properties *)

(** C29: [mappages] on an unmapped, page-aligned range below MAXVA returns.  It
    returns 0 and every page of the range is then mapped to its physical page
    with the permissions and PTE_V, or -1 with a proper prefix of the range
    mapped and no page left on the free list.  No other translation changes,
    pages for new tables come off the free list, and memory outside the tables
    and the free pages is untouched. *)
Theorem mappages_spec (kend root perm size va pa : Z) (s : kmem) (l : list Z) (T : gmap (list Z) Z) :
  vm_ok kend s l root T -> 0 < size -> size mod PGSIZE = 0 -> va mod PGSIZE = 0 -> 0 <= va -> va + size <= MAXVA ->
  pa mod PGSIZE = 0 -> 0 <= pa -> pa + size <= 2 ^ 56 -> 0 <= perm < 1024 ->
  (forall va', va <= va' < va + size -> has (pmap (km_mem s) T va') PTE_V = false) ->
  exists r j s' l' T', mappages root va size pa perm s = Done (r, s') /\ vm_ok kend s' l' root T' /\
    (forall va', 0 <= va' < MAXVA -> pmap (km_mem s') T' va' =
       if decide (va <= va' < va + j * PGSIZE) then entry (pa + (va' - va) / PGSIZE * PGSIZE) (Z.lor perm PTE_V)
       else pmap (km_mem s) T va') /\
    ((r = 0 /\ j * PGSIZE = size) \/ (r = -1 /\ 0 <= j * PGSIZE < size /\ l' = [])) /\
    (exists u, l = u ++ l') /\ (forall x, other T l x -> km_mem s' x = km_mem s x).
Proof.
  intros Hok Hs Hsm Hva Hva0 Hend Hpa Hpa0 Hpend Hperm Hun.
  destruct (mappages_ok kend root perm size va pa s l T) as (r & j & s' & l' & T' & E & Hx & Hp & Hr); try done.
  exists r, j, s', l', T'. split; [done|]. split; [apply Hx|]. split; [done|]. split; [done|]. split; apply Hx.
Qed.

(** A text page of the kernel at address 0. *)
Lemma mappages_spec_witness :
  vm_ok vm_end (vm_free vm_pages) vm_pages vm_root {[ [] := vm_root ]} /\
  exists r s', mappages vm_root 0 PGSIZE KERNBASE (Z.lor PTE_R PTE_X) (vm_free vm_pages) = Done (r, s').
Proof.
  pose proof vm_root_space as Hu. split; [apply Hu|].
  destruct (mappages_spec vm_end vm_root (Z.lor PTE_R PTE_X) PGSIZE 0 KERNBASE (vm_free vm_pages) vm_pages {[ [] := vm_root ]})
    as (r & j & s' & l' & T' & E & _).
  - apply Hu.
  - reflexivity.
  - reflexivity.
  - reflexivity.
  - lia.
  - vm_compute. congruence.
  - reflexivity.
  - vm_compute. congruence.
  - vm_compute. congruence.
  - vm_compute. split; congruence.
  - intros va Hva. apply (us_none _ _ _ _ _ _ Hu). change TRAPFRAME with 274877898752. unfold PGSIZE in *. simpl. lia.
  - exists r, s'. exact E.
Defined.

(** [uvmalloc] grows an address space.  It returns the new size, and then the
    space is the old pages followed by zeroed pages, readable by the user and
    with the requested permissions, up to the new size; or it returns 0, and
    then the space is what it was.  The old pages keep their content, and the
    pages of the space, of its tables and of the free list stay distinct. *)
Theorem uvmalloc_spec (kend root oldsz newsz xperm : Z) (s : kmem) (l : list Z) (T : gmap (list Z) Z) (pgs : list (Z * Z)) :
  let fl := Z.lor (Z.lor (Z.lor PTE_R PTE_U) xperm) PTE_V in
  uspace kend s l root T pgs -> 0 <= oldsz <= newsz -> newsz <= TRAPFRAME ->
  pgroundup oldsz = Z.of_nat (length pgs) * PGSIZE -> 0 <= Z.lor (Z.lor PTE_R PTE_U) xperm < 1024 -> leaf_flags fl ->
  exists r s' l' T' new, uvmalloc kend root oldsz newsz xperm s = Done (r, s') /\
    uspace kend s' l' root T' (pgs ++ new) /\ same_pages s s' pgs /\
    ((r = newsz /\ zero_pages s' fl new /\ Z.of_nat (length (pgs ++ new)) * PGSIZE = pgroundup newsz) \/ (r = 0 /\ new = [])).
Proof.
  intros fl Hu Hsz Hmax Eold Hperm Hfl. unfold uvmalloc. rewrite (proj2 (Z.ltb_ge _ _)) by lia. rewrite Eold.
  destruct (pgroundup_spec newsz) as [En Hn]; [lia|va_lia|]. destruct (pgroundup_spec oldsz) as [Eo Ho]; [lia|va_lia|].
  assert (Hfu : newsz - Z.of_nat (length pgs) * PGSIZE <
    (Z.of_nat (S (Z.to_nat ((newsz - Z.of_nat (length pgs) * PGSIZE + PGSIZE - 1) / PGSIZE))) - 1) * PGSIZE + 1).
  { set (d := newsz - Z.of_nat (length pgs) * PGSIZE). pose proof (Z.div_mod (d + PGSIZE - 1) PGSIZE ltac:(done)).
    pose proof (Z.mod_pos_bound (d + PGSIZE - 1) PGSIZE ltac:(done)). unfold PGSIZE in *. lia. }
  destruct (uvmalloc_loop_ok kend root xperm newsz pgs (S (Z.to_nat ((newsz - Z.of_nat (length pgs) * PGSIZE + PGSIZE - 1) / PGSIZE)))
    [] s l T) as (r & s' & l' & T' & new & E & Hu' & Hs' & Hr); rewrite ?app_nil_r; try done; try lia.
  { constructor. }
  rewrite app_nil_r in *. exists r, s', l', T', new. split; [done|]. split; [done|]. split; [done|].
  destruct Hr as [(-> & Hz & Hlen)|[-> ->]]; [left|by right]. split; [done|]. split; [done|].
  rewrite En in *. destruct Hlen as [[Hle ->]|Hlen].
  - rewrite app_nil_r. rewrite Eo in *. assert (Hd : (oldsz + PGSIZE - 1) / PGSIZE = Z.of_nat (length pgs)) by (unfold PGSIZE in *; lia).
    assert ((newsz + PGSIZE - 1) / PGSIZE <= Z.of_nat (length pgs)) by (unfold PGSIZE in *; lia).
    pose proof (Z.div_le_mono (oldsz + PGSIZE - 1) (newsz + PGSIZE - 1) PGSIZE ltac:(done) ltac:(lia)). unfold PGSIZE in *. lia.
  - unfold PGSIZE in *. lia.
Qed.

Lemma uvmalloc_spec_witness :
  exists r s', uvmalloc vm_end vm_root 0 100 PTE_W (vm_free vm_pages) = Done (r, s') /\ (r = 100 \/ r = 0).
Proof.
  destruct (uvmalloc_spec vm_end vm_root 0 100 PTE_W (vm_free vm_pages) vm_pages {[ [] := vm_root ]} [])
    as (r & s' & l' & T' & new & E & _ & _ & Hr).
  - exact vm_root_space.
  - lia.
  - vm_compute. congruence.
  - reflexivity.
  - vm_compute. split; congruence.
  - split; [vm_compute; split; congruence|]. split; [reflexivity|]. vm_compute. congruence.
  - exists r, s'. split; [exact E|]. destruct Hr as [[-> _]|[-> _]]; [left|right]; reflexivity.
Defined.



(** C31: what [copyout] stores is what [copyin] reads back.  [copyout] returns: with
    0 after storing all the bytes, and then [copyin] of the same range returns
    them; with -1 exactly when some byte of the range is not writable by the
    user.  Bytes the user can read outside the range keep their value, the
    address space is intact, and memory outside the pages of the space is not
    touched, page tables included. *)
Theorem copyout_copyin (kend root va : Z) (src : bytes) (s : kmem) (l : list Z) (T : gmap (list Z) Z) (pgs : list (Z * Z)) :
  uspace kend s l root T pgs -> 0 <= va ->
  exists (ok : bool) s', copyout root va src s = Done (ok, s') /\ uspace kend s' l root T pgs /\
    (if ok then copyin root va (Z.of_nat (length src)) s' = Done ((src, true), s')
     else exists i, 0 <= i < Z.of_nat (length src) /\ uaddr pgs PTE_W (va + i) = None) /\
    (forall va' a, uaddr pgs PTE_U va' = Some a -> ~ (va <= va' < va + Z.of_nat (length src)) -> km_mem s' a = km_mem s a) /\
    (forall x, (forall p, p ∈ pgs.*1 -> ~ in_page p x) -> km_mem s' x = km_mem s x).
Proof.
  intros Hu Hva. destruct (copyout_loop_ok kend l root T pgs (pages_of (Z.of_nat (length src))) va src s Hu Hva)
    as (k & ok & s' & E & Hu' & Hk & Hw & Hre & Hok & Hm); [by apply enough_pages|].
  exists ok, s'. split; [exact E|]. split; [done|]. split; [|split; [|done]].
  - destruct ok; [|exists k; split; [lia|apply Hok]]. subst k.
    destruct (copyin_loop_ok kend s' l root T pgs (pages_of (Z.of_nat (length src))) va (Z.of_nat (length src)) [] Hu' Hva)
      as (d & ok & E' & Hd & Hok'); [by apply enough_pages|].
    assert (HU : forall i, 0 <= i < Z.of_nat (length src) -> is_Some (uaddr pgs PTE_U (va + i))).
    { intros i Hi. destruct (Hre i Hi) as [a Ha]. unfold uaddr in Ha |- *. destruct (upage pgs (va + i)) as [[p f]|]; [|done].
      simpl in *. destruct (has f PTE_U); [|done]. simpl. by eexists. }
    unfold copyin. rewrite E'. simpl. destruct ok.
    + do 3 f_equal. apply list_eq. intros i. destruct (d !! i) as [x|] eqn:Ed.
      * destruct (Hd i x Ed) as (a & Ha & <-). pose proof (lookup_lt_Some _ _ _ Ed) as Hi. rewrite (Hw _ _ Ha).
        rewrite decide_True by lia. unfold byte_at. replace (Z.to_nat (va + Z.of_nat i - va)) with i by lia.
        symmetry. apply list_lookup_lookup_total_lt. lia.
      * apply lookup_ge_None in Ed. symmetry. apply lookup_ge_None. lia.
    + exfalso. destruct Hok' as [Hl Hn]. destruct (HU (Z.of_nat (length d))) as [a Ha]; [lia|]. congruence.
  - intros va' a Ha Hout. rewrite (Hw _ _ Ha). rewrite decide_False; [done|]. lia.
Qed.

Lemma copyout_copyin_witness :
  exists s', copyout vm_root 0 [1; 2; 3] (vm_free vm_pages) = Done (false, s') /\
    forall x, km_mem s' x = km_mem (vm_free vm_pages) x.
Proof.
  destruct (copyout_copyin vm_end vm_root 0 [1; 2; 3] (vm_free vm_pages) vm_pages {[ [] := vm_root ]} [])
    as ([] & s' & E & Hu & Hin & _ & Hm).
  - exact vm_root_space.
  - lia.
  - exfalso. destruct (copyin_loop_ok vm_end s' vm_pages vm_root {[ [] := vm_root ]} [] (pages_of 3) 0 3 [] Hu ltac:(lia))
      as (d & ok & E' & Hd & Hl); [by apply enough_pages|].
    assert (Ed : d = [1; 2; 3]) by (pose proof (eq_trans (eq_sym E') Hin) as Heq; by injection Heq).
    clear E' Hin Hl. subst d. destruct (Hd 0%nat 1 eq_refl) as (a & Ha & _). discriminate Ha.
  - exists s'. split; [exact E|]. intros x. apply Hm. intros p Hp. destruct (not_elem_of_nil _ Hp).
Defined.
