(* ===== verification/KThread.v ===== *)
(** Kernel threads on several CPUs.

    The code of kernel/proc.c, kernel/trap.c, kernel/console.c, kernel/uart.c and
    kernel/virtio_disk.c is written in the monad [T]: a tree of atomic accesses
    to the shared state, with an explicit constructor for unbounded loops.  A
    [mach] is the shared state, the saved context of every kernel thread and the
    thread each CPU executes; [mstep] lets any CPU perform the next access of
    its thread, or take an interrupt when its interrupts are on.  Memory is
    sequentially consistent.  kernel/spinlock.c is at the end. *)

From S2P Require Import Prelude BufCache BufSpec KState CString Kalloc Vm.
Local Open Scope Z_scope.

Definition NPROCn : nat := Z.to_nat NPROC.

(** * Data *)

Inductive procstate := UNUSED | USED | SLEEPING | RUNNABLE | RUNNING | ZOMBIE.
#[export] Instance procstate_eq_dec : EqDecision procstate.
Proof. solve_decision. Defined.

(** The spin locks of the modelled files. *)
Inductive lockid :=
| PLock (i : nat) | WaitLock | PidLock | TicksLock | ConsLock | UartLock | DiskLock | PrLock.
#[export] Instance lockid_eq_dec : EqDecision lockid.
Proof. solve_decision. Defined.

(** [void *chan]: the addresses the kernel sleeps on. *)
Inductive chan := ChProc (i : nat) | ChTicks | ChCons | ChUart | ChBuf (b : Z) | ChDisk.
#[export] Instance chan_eq_dec : EqDecision chan.
Proof. solve_decision. Defined.

(** [struct spinlock] without its debugging name. *)
Record spinlock := Spinlock { l_locked : bool; l_cpu : option nat }.

(** [struct cpu]; its context is the saved scheduler thread. *)
Record cpu := Cpu { c_proc : option nat; c_noff : Z; c_intena : bool }.

(** [struct proc] without its lock, which is [PLock i], and its context. *)
Record proc := Proc {
  p_state : procstate; p_chan : option chan; p_killed : Z; p_xstate : Z; p_pid : Z;
  p_parent : option nat;
  p_kstack : Z; p_sz : Z; p_pagetable : Z; p_trapframe : Z;
  p_ofile : list (option nat); p_cwd : option nat; p_name : bytes;
}.

(** The input buffer of kernel/console.c. *)
Record console := Console { con_buf : Z -> Z; con_r : Z; con_w : Z; con_e : Z }.
(** The transmit buffer of kernel/uart.c. *)
Record uart := Uart { tx_buf : Z -> Z; tx_w : Z; tx_r : Z }.
(** What a descriptor of the disk queue points to: a command header, the data
    of a buffer, or the status byte of an operation. *)
Inductive vptr := VNull | VOp (i : Z) | VData (b : Z) | VStatus (i : Z).
(** [struct virtq_desc], kernel/virtio.h. *)
Record vdesc := VDesc { vd_addr : vptr; vd_len : Z; vd_flags : Z; vd_next : Z }.
(** The driver's part of [struct disk], kernel/virtio_disk.c; buffers are named
    by numbers, [d_busy b] is [b->disk], [d_ops] the type and sector of each
    command header, [d_ring] and [d_avail] are [disk.avail->ring] and [->idx]. *)
Record disk := Disk {
  d_free : Z -> bool; d_desc : Z -> vdesc; d_ops : Z -> Z * Z; d_info : Z -> option Z;
  d_busy : Z -> bool; d_ring : Z -> Z; d_avail : Z; d_used : Z;
}.

(** Device and trap registers, and the memory the disk writes. *)
Inductive reg :=
| LSR | RHR | THR | ISR | IER | FCR | LCR | SCAUSE | SEPC | STVAL | STVEC | SSTATUS | SATP | TIME | STIMECMP | PLIC_CLAIM
| MSTATUS | MEPC | MEDELEG | MIDELEG | SIE | PMPADDR0 | PMPCFG0 | MIE | MENVCFG | MCOUNTEREN | MHARTID
| PLIC_PRIO (irq : Z) | PLIC_SENABLE (hart : nat) | PLIC_SPRIORITY (hart : nat) | MMIO (off : Z)
| QUEUE_NOTIFY | INTERRUPT_ACK | INTERRUPT_STATUS | USED_IDX | USED_ID (i : Z) | STATUS (i : Z).

Section types.
Variable U : Type.

(** Everything else the threads share; the file system's part is [g_k], with
    the buffer cache as its specification [g_bio]. *)
Record glob := Glob {
  g_nextpid : Z; g_initproc : option nat; g_ticks : Z; g_first : bool;
  g_panicked : bool; g_locking : bool;
  g_cons : console; g_uart : uart; g_disk : disk;
  g_km : kmem; g_k : kst U; g_bio : abio;
  g_writes : list (reg * Z); g_started : bool; g_kpt : Z;
}.

(** The shared state; [s_sie] is the interrupt enable bit of each CPU. *)
Record gst := Gst {
  s_lk : lockid -> spinlock; s_cpu : nat -> cpu; s_sie : nat -> bool;
  s_proc : nat -> proc; s_glob : glob;
}.

(** A kernel thread: of a process, or the scheduler of a CPU. *)
Inductive thread := KProc (p : nat) | KSched (c : nat).

(** * Atomic accesses *)

Inductive evt : Type -> Type :=
| Tp : evt nat
| IntrGet : evt bool
| IntrOff : evt unit
| IntrOn : evt unit
| GetCpu (c : nat) : evt cpu
| ModCpu (c : nat) (f : cpu -> cpu) : evt unit
| LkInit (l : lockid) : evt unit
| TestAndSet (l : lockid) : evt bool
| GetLocked (l : lockid) : evt bool
| GetLkCpu (l : lockid) : evt (option nat)
| SetLkCpu (l : lockid) (o : option nat) : evt unit
| LkRelease (l : lockid) : evt unit
| GetProc (i : nat) : evt proc
| ModProc (i : nat) (f : proc -> proc) : evt unit
| GetG (X : Type) (f : glob -> X) : evt X
| ModG (f : glob -> glob) : evt unit
| OnMem (X : Type) (m : VM X) : evt X
| OnFs (X : Type) (m : K U X) : evt X
| Swtch (from to : thread) : evt unit
| SetCtx (i : nat) : evt unit
| Panic (msg : string) : evt Empty_set
| ReadReg (r : reg) : evt Z
| WriteReg (r : reg) (v : Z) : evt unit
| User : evt unit.

(** [TIter body i k]: run [body] from [i] until it gives a result, then [k]. *)
Inductive T (A : Type) : Type :=
| TRet (a : A)
| TVis (X : Type) (e : evt X) (k : X -> T A)
| TIter (I R : Type) (body : I -> T (I + R)) (i : I) (k : R -> T A).
End types.

#[export] Instance thread_eq_dec : EqDecision thread.
Proof. solve_decision. Defined.

Arguments Glob {U}. Arguments Gst {U}.
Arguments g_nextpid {U}. Arguments g_initproc {U}. Arguments g_ticks {U}. Arguments g_first {U}.
Arguments g_panicked {U}. Arguments g_locking {U}. Arguments g_cons {U}. Arguments g_uart {U}.
Arguments g_disk {U}. Arguments g_km {U}. Arguments g_k {U}. Arguments g_bio {U}. Arguments g_writes {U}. Arguments g_started {U}. Arguments g_kpt {U}.
Arguments s_lk {U}. Arguments s_cpu {U}. Arguments s_sie {U}. Arguments s_proc {U}. Arguments s_glob {U}.
Arguments Tp {U}. Arguments IntrGet {U}. Arguments IntrOff {U}. Arguments IntrOn {U}.
Arguments GetCpu {U}. Arguments ModCpu {U}. Arguments LkInit {U}. Arguments TestAndSet {U}.
Arguments GetLocked {U}. Arguments GetLkCpu {U}. Arguments SetLkCpu {U}. Arguments LkRelease {U}.
Arguments GetProc {U}. Arguments ModProc {U}. Arguments GetG {U X}. Arguments ModG {U}.
Arguments OnMem {U X}. Arguments OnFs {U X}. Arguments Swtch {U}. Arguments SetCtx {U}.
Arguments Panic {U}. Arguments ReadReg {U}. Arguments WriteReg {U}. Arguments User {U}.
Arguments TRet {U A} a. Arguments TVis {U A X} e k. Arguments TIter {U A I R} body i k.

Section monad.
Context {U : Type}.

#[export] Instance T_ret : MRet (T U) := fun A => TRet.
Fixpoint tbind {A B} (f : A -> T U B) (m : T U A) : T U B :=
  match m with
  | TRet a => f a
  | TVis e k => TVis e (fun x => tbind f (k x))
  | TIter body i k => TIter body i (fun r => tbind f (k r))
  end.
#[export] Instance T_bind : MBind (T U) := fun A B => tbind.

Definition ev {X} (e : evt U X) : T U X := TVis e TRet.
Definition loop {I R} (body : I -> T U (I + R)) (i : I) : T U R := TIter body i TRet.
Definition tpanic {A} (msg : string) : T U A := TVis (Panic msg) (fun x : Empty_set => match x with end).

(** [for(x in l) body] *)
Fixpoint tfor {X} (l : list X) (body : X -> T U unit) : T U unit :=
  match l with
  | [] => mret tt
  | x :: l => body x;; tfor l body
  end.
(** The same, left early with a result. *)
Fixpoint tfind {X R} (l : list X) (body : X -> T U (option R)) : T U (option R) :=
  match l with
  | [] => mret None
  | x :: l => r ← body x; match r with Some v => mret (Some v) | None => tfind l body end
  end.
(** [for(p = proc; p < &proc[NPROC]; p++)] *)
Definition slots : list nat := seq 0 NPROCn.
End monad.

(** * The machine *)

Section machine.
Context {U : Type}.

(** What the environment supplies at an access: the value of a register, the
    memory after user code has run. *)
Record oracle := Oracle { o_val : Z; o_mem : mem }.

(** Why the machine stopped: [panic], a panic of the memory or file system
    code run by an access, or its undefined behaviour. *)
Inductive halt := HPanic (msg : string) | HMem (msg : string) | HFs (msg : string) | HUndef.

Inductive res (X : Type) :=
| RStep (x : X) (s : gst U)
| RSwtch (from to : thread) (x : X)
| RCtx (i : nat) (x : X)
| RBlock
| RHalt (h : halt).
Arguments RStep {X}. Arguments RSwtch {X}. Arguments RCtx {X}. Arguments RBlock {X}. Arguments RHalt {X}.

Definition set_s_lk v (s : gst U) : gst U := Gst v (s_cpu s) (s_sie s) (s_proc s) (s_glob s).
Definition set_s_cpu v (s : gst U) : gst U := Gst (s_lk s) v (s_sie s) (s_proc s) (s_glob s).
Definition set_s_sie v (s : gst U) : gst U := Gst (s_lk s) (s_cpu s) v (s_proc s) (s_glob s).
Definition set_s_proc v (s : gst U) : gst U := Gst (s_lk s) (s_cpu s) (s_sie s) v (s_glob s).
Definition set_s_glob v (s : gst U) : gst U := Gst (s_lk s) (s_cpu s) (s_sie s) (s_proc s) v.

Definition set_g_nextpid v (g : glob U) : glob U := Glob v (g_initproc g) (g_ticks g) (g_first g) (g_panicked g) (g_locking g) (g_cons g) (g_uart g) (g_disk g) (g_km g) (g_k g) (g_bio g) (g_writes g) (g_started g) (g_kpt g).
Definition set_g_initproc v (g : glob U) : glob U := Glob (g_nextpid g) v (g_ticks g) (g_first g) (g_panicked g) (g_locking g) (g_cons g) (g_uart g) (g_disk g) (g_km g) (g_k g) (g_bio g) (g_writes g) (g_started g) (g_kpt g).
Definition set_g_ticks v (g : glob U) : glob U := Glob (g_nextpid g) (g_initproc g) v (g_first g) (g_panicked g) (g_locking g) (g_cons g) (g_uart g) (g_disk g) (g_km g) (g_k g) (g_bio g) (g_writes g) (g_started g) (g_kpt g).
Definition set_g_first v (g : glob U) : glob U := Glob (g_nextpid g) (g_initproc g) (g_ticks g) v (g_panicked g) (g_locking g) (g_cons g) (g_uart g) (g_disk g) (g_km g) (g_k g) (g_bio g) (g_writes g) (g_started g) (g_kpt g).
Definition set_g_cons v (g : glob U) : glob U := Glob (g_nextpid g) (g_initproc g) (g_ticks g) (g_first g) (g_panicked g) (g_locking g) v (g_uart g) (g_disk g) (g_km g) (g_k g) (g_bio g) (g_writes g) (g_started g) (g_kpt g).
Definition set_g_uart v (g : glob U) : glob U := Glob (g_nextpid g) (g_initproc g) (g_ticks g) (g_first g) (g_panicked g) (g_locking g) (g_cons g) v (g_disk g) (g_km g) (g_k g) (g_bio g) (g_writes g) (g_started g) (g_kpt g).
Definition set_g_disk v (g : glob U) : glob U := Glob (g_nextpid g) (g_initproc g) (g_ticks g) (g_first g) (g_panicked g) (g_locking g) (g_cons g) (g_uart g) v (g_km g) (g_k g) (g_bio g) (g_writes g) (g_started g) (g_kpt g).
Definition set_g_km v (g : glob U) : glob U := Glob (g_nextpid g) (g_initproc g) (g_ticks g) (g_first g) (g_panicked g) (g_locking g) (g_cons g) (g_uart g) (g_disk g) v (g_k g) (g_bio g) (g_writes g) (g_started g) (g_kpt g).
Definition set_g_fs k b (g : glob U) : glob U := Glob (g_nextpid g) (g_initproc g) (g_ticks g) (g_first g) (g_panicked g) (g_locking g) (g_cons g) (g_uart g) (g_disk g) (g_km g) k b (g_writes g) (g_started g) (g_kpt g).
Definition set_g_writes v (g : glob U) : glob U := Glob (g_nextpid g) (g_initproc g) (g_ticks g) (g_first g) (g_panicked g) (g_locking g) (g_cons g) (g_uart g) (g_disk g) (g_km g) (g_k g) (g_bio g) v (g_started g) (g_kpt g).
Definition set_g_started v (g : glob U) : glob U := Glob (g_nextpid g) (g_initproc g) (g_ticks g) (g_first g) (g_panicked g) (g_locking g) (g_cons g) (g_uart g) (g_disk g) (g_km g) (g_k g) (g_bio g) (g_writes g) v (g_kpt g).
Definition set_g_kpt v (g : glob U) : glob U := Glob (g_nextpid g) (g_initproc g) (g_ticks g) (g_first g) (g_panicked g) (g_locking g) (g_cons g) (g_uart g) (g_disk g) (g_km g) (g_k g) (g_bio g) (g_writes g) (g_started g) v.
Definition set_g_locking v (g : glob U) : glob U := Glob (g_nextpid g) (g_initproc g) (g_ticks g) (g_first g) (g_panicked g) v (g_cons g) (g_uart g) (g_disk g) (g_km g) (g_k g) (g_bio g) (g_writes g) (g_started g) (g_kpt g).

Definition upd_lk l (v : spinlock) (s : gst U) : gst U := set_s_lk (<[l := v]> (s_lk s)) s.
Definition upd_glob (f : glob U -> glob U) (s : gst U) : gst U := set_s_glob (f (s_glob s)) s.

(** The access [e] made by CPU [c]. *)
Definition exec (o : oracle) (c : nat) {X} (e : evt U X) (s : gst U) : res X :=
  match e in evt _ X return res X with
  | Tp => RStep c s
  | IntrGet => RStep (s_sie s c) s
  | IntrOff => RStep tt (set_s_sie (<[c := false]> (s_sie s)) s)
  | IntrOn => RStep tt (set_s_sie (<[c := true]> (s_sie s)) s)
  | GetCpu d => RStep (s_cpu s d) s
  | ModCpu d f => RStep tt (set_s_cpu (<[d := f (s_cpu s d)]> (s_cpu s)) s)
  | LkInit l => RStep tt (upd_lk l (Spinlock false None) s)
  | TestAndSet l => RStep (l_locked (s_lk s l)) (upd_lk l (Spinlock true (l_cpu (s_lk s l))) s)
  | GetLocked l => RStep (l_locked (s_lk s l)) s
  | GetLkCpu l => RStep (l_cpu (s_lk s l)) s
  | SetLkCpu l v => RStep tt (upd_lk l (Spinlock (l_locked (s_lk s l)) v) s)
  | LkRelease l => RStep tt (upd_lk l (Spinlock false (l_cpu (s_lk s l))) s)
  | GetProc i => RStep (s_proc s i) s
  | ModProc i f => RStep tt (set_s_proc (<[i := f (s_proc s i)]> (s_proc s)) s)
  | GetG f => RStep (f (s_glob s)) s
  | ModG f => RStep tt (upd_glob f s)
  | OnMem m =>
      match m (g_km (s_glob s)) with
      | Done (x, km) => RStep x (upd_glob (set_g_km km) s)
      | Panicked msg => RHalt (HMem msg)
      | _ => RHalt HUndef
      end
  | OnFs m =>
      match krun m (g_k (s_glob s)) (g_bio (s_glob s)) with
      | Done ((x, k), b) => RStep x (upd_glob (set_g_fs k b) s)
      | Asleep => RBlock
      | Panicked msg => RHalt (HFs msg)
      | _ => RHalt HUndef
      end
  | Swtch from to => RSwtch from to tt
  | SetCtx i => RCtx i tt
  | Panic msg => RHalt (HPanic msg)
  | ReadReg r => RStep (o_val o) s
  | WriteReg r v => RStep tt (upd_glob (fun g => set_g_writes (g_writes g ++ [(r, v)]) g) s)
  | User => RStep tt (upd_glob (fun g => set_g_km (KMem (o_mem o) (km_freelist (g_km g))) g) s)
  end.

(** The machine: [m_cur c] is the thread CPU [c] executes. *)
Record mach := Mach {
  m_st : gst U; m_cur : nat -> thread; m_ctx : thread -> T U unit; m_halt : option halt;
}.

(** [kernelvec]: what an interrupt taken in the kernel runs; [entry i]: where a
    new process starts, [forkret]. *)
Context (kernelvec : T U unit) (entry : T U unit).

(** One access of CPU [c]. *)
Definition mexec (o : oracle) (c : nat) (m : mach) : mach :=
  match m_ctx m (m_cur m c) with
  | TRet _ => m
  | TIter body i k =>
      let next := tbind (fun r => match r with inl j => TIter body j k | inr r => k r end) (body i) in
      Mach (m_st m) (m_cur m) (<[m_cur m c := next]> (m_ctx m)) (m_halt m)
  | TVis e k =>
      match exec o c e (m_st m) with
      | RStep x s => Mach s (m_cur m) (<[m_cur m c := k x]> (m_ctx m)) (m_halt m)
      | RSwtch from to x => Mach (m_st m) (<[c := to]> (m_cur m)) (<[from := k x]> (m_ctx m)) (m_halt m)
      | RCtx i x =>
          Mach (m_st m) (m_cur m) (<[m_cur m c := k x]> (<[KProc i := entry]> (m_ctx m))) (m_halt m)
      | RBlock => m
      | RHalt h => Mach (m_st m) (m_cur m) (m_ctx m) (Some h)
      end
  end.

(** An interrupt taken by CPU [c] in the kernel. *)
Definition mintr (c : nat) (m : mach) : mach :=
  Mach (m_st m) (m_cur m) (<[m_cur m c := kernelvec;; m_ctx m (m_cur m c)]> (m_ctx m)) (m_halt m).

(** Any CPU moves; their number is not bounded. *)
Inductive mstep : mach -> mach -> Prop :=
| mstep_exec o c m : m_halt m = None -> mstep m (mexec o c m)
| mstep_intr c m : m_halt m = None -> s_sie (m_st m) c = true ->
    mstep m (mintr c m).

(** Straight-line execution of one thread on CPU [c]; [n] bounds the accesses. *)
Inductive ended (A : Type) := EDone (a : A) (s : gst U) | ESwitch (s : gst U) | EHalt (h : halt) | EBlock | EFuel.
Arguments EDone {A}. Arguments ESwitch {A}. Arguments EHalt {A}. Arguments EBlock {A}. Arguments EFuel {A}.
Fixpoint texec (o : oracle) (c : nat) (n : nat) {A} (m : T U A) (s : gst U) : ended A :=
  match n with
  | O => EFuel
  | S n =>
      match m with
      | TRet a => EDone a s
      | TIter body i k =>
          texec o c n (tbind (fun r => match r with inl j => TIter body j k | inr r => k r end) (body i)) s
      | TVis e k =>
          match exec o c e s with
          | RStep x s => texec o c n (k x) s
          | RSwtch _ _ _ => ESwitch s
          | RCtx _ x => texec o c n (k x) s
          | RBlock => EBlock
          | RHalt h => EHalt h
          end
      end
  end.
End machine.

(** * kernel/spinlock.c *)

Section spinlock.
Context {U : Type}.
Local Abbreviation M := (T U).

Definition set_c_proc v x := Cpu v (c_noff x) (c_intena x).
Definition set_c_noff v x := Cpu (c_proc x) v (c_intena x).
Definition set_c_intena v x := Cpu (c_proc x) (c_noff x) v.

Definition initlock (l : lockid) : M unit := ev (LkInit l).

(** kernel/proc.c: [r_tp()]. *)
Definition cpuid : M nat := ev Tp.
Definition mycpu : M nat := cpuid.

Definition push_off : M unit :=
  old ← ev IntrGet;
  ev IntrOff;;
  c ← mycpu;
  x ← ev (GetCpu c);
  (if c_noff x =? 0 then c ← mycpu; ev (ModCpu c (set_c_intena old)) else mret tt);;
  c ← mycpu;
  ev (ModCpu c (fun x => set_c_noff (c_noff x + 1) x)).

Definition pop_off : M unit :=
  c ← mycpu;
  i ← ev IntrGet;
  if (i : bool) then tpanic "pop_off - interruptible" else
  x ← ev (GetCpu c);
  if c_noff x <? 1 then tpanic "pop_off" else
  ev (ModCpu c (fun x => set_c_noff (c_noff x - 1) x));;
  x ← ev (GetCpu c);
  if (c_noff x =? 0) && c_intena x then ev IntrOn else mret tt.

Definition holding (l : lockid) : M bool :=
  b ← ev (GetLocked l);
  if (b : bool) then
    o ← ev (GetLkCpu l);
    c ← mycpu;
    mret (bool_decide (o = Some c))
  else mret false.

Definition acquire (l : lockid) : M unit :=
  push_off;;
  h ← holding l;
  if (h : bool) then tpanic "acquire" else
  loop (fun _ : unit => b ← ev (TestAndSet l); mret (if (b : bool) then inl tt else inr tt)) tt;;
  c ← mycpu;
  ev (SetLkCpu l (Some c)).

Definition release (l : lockid) : M unit :=
  h ← holding l;
  if negb h then tpanic "release" else
  ev (SetLkCpu l None);;
  ev (LkRelease l);;
  pop_off.
End spinlock.
