(* ===== verification/Printf.v ===== *)
(** Formatted output: kernel/printf.c, with [consputc] of kernel/console.c and
    [uartputc_sync] of kernel/uart.c, and user/printf.c.

    A format string is its bytes before the NUL.  [None] stands for behaviour C
    leaves undefined: a store past [char buf[16]], or an argument that does not
    fit its conversion. *)

From S2P Require Import Prelude BufCache BufSpec KState CString Kalloc Vm KThread.
From Stdlib Require Import Ascii.
Local Open Scope Z_scope.

(** A variable argument: a 64-bit register, or a pointer to a string. *)
Inductive vararg := VInt (z : Z) | VStr (s : option bytes).

(** * Digits *)

Definition digits : bytes := str "0123456789abcdef".
Definition user_digits : bytes := str "0123456789ABCDEF".

(** [do buf[i++] = digits[x % base]; while((x /= base) != 0);] on a value of at
    most 64 bits. *)
Fixpoint digit_loop (fuel : nat) (tbl : bytes) (x base : Z) : bytes :=
  match fuel with
  | O => []
  | S fuel =>
      let x' := x / base in
      byte_at tbl (x mod base) :: (if negb (x' =? 0) then digit_loop fuel tbl x' base else [])
  end.

(** [char buf[16]] holds the digits backwards, then the sign. *)
Definition from_buf (buf : bytes) : option bytes :=
  if (length buf <=? 16)%nat then Some (rev buf) else None.

Definition printint (xx base : Z) (sign : bool) : option bytes :=
  let neg := sign && (xx <? 0) in
  let x := if neg then u64 (- xx) else u64 xx in
  from_buf (digit_loop 64 digits x base ++ (if neg then [chr "-"] else [])).

(** [for(i = 0; i < 16; i++, x <<= 4) consputc(digits[x >> 60]);], [n] left. *)
Fixpoint ptr_loop (n : nat) (tbl : bytes) (x : Z) : bytes :=
  match n with
  | O => []
  | S n => byte_at tbl (Z.shiftr x 60) :: ptr_loop n tbl (u64 (Z.shiftl x 4))
  end.
Definition printptr (x : Z) : bytes := [chr "0"; chr "x"] ++ ptr_loop 16 digits x.

(** * The format loops *)

Definition hd0 (l : bytes) : Z := match l with [] => 0 | c :: _ => c end.

Section format.
(** [int_ xx base sign], [ptr x]: the conversions of the program. *)
Variable (int_ : Z -> Z -> bool -> option bytes) (ptr : Z -> bytes).

Definition va_int (conv : Z -> Z) (base : Z) (sign : bool) (ap : list vararg) : option (bytes * list vararg) :=
  match ap with
  | VInt z :: ap => out ← int_ (conv z) base sign; Some (out, ap)
  | _ => None
  end.
Definition va_ptr (ap : list vararg) : option (bytes * list vararg) :=
  match ap with VInt z :: ap => Some (ptr (u64 z), ap) | _ => None end.
Definition va_str (ap : list vararg) : option (bytes * list vararg) :=
  match ap with
  | VStr s :: ap => Some (default (str "(null)") s, ap)
  | _ => None
  end.

(** The conversion at [c0 c1 c2]: its output, the rest of the arguments and how
    many characters beyond [c0] it takes. *)
Definition convert (c0 c1 c2 : Z) (ap : list vararg) : option (bytes * list vararg * nat) :=
  let with_ i r := '(out, ap) ← r; Some (out, ap, i) in
  if c0 =? chr "d" then with_ 0%nat (va_int i32 10 true ap)
  else if (c0 =? chr "l") && (c1 =? chr "d") then with_ 1%nat (va_int u64 10 true ap)
  else if (c0 =? chr "l") && (c1 =? chr "l") && (c2 =? chr "d") then with_ 2%nat (va_int u64 10 true ap)
  else if c0 =? chr "u" then with_ 0%nat (va_int i32 10 false ap)
  else if (c0 =? chr "l") && (c1 =? chr "u") then with_ 1%nat (va_int u64 10 false ap)
  else if (c0 =? chr "l") && (c1 =? chr "l") && (c2 =? chr "u") then with_ 2%nat (va_int u64 10 false ap)
  else if c0 =? chr "x" then with_ 0%nat (va_int i32 16 false ap)
  else if (c0 =? chr "l") && (c1 =? chr "x") then with_ 1%nat (va_int u64 16 false ap)
  else if (c0 =? chr "l") && (c1 =? chr "l") && (c2 =? chr "x") then with_ 2%nat (va_int u64 16 false ap)
  else if c0 =? chr "p" then with_ 0%nat (va_ptr ap)
  else if c0 =? chr "s" then with_ 0%nat (va_str ap)
  else if c0 =? chr "%" then Some ([chr "%"], ap, 0%nat)
  else Some ([chr "%"; c0], ap, 0%nat).
End format.

(** The argument of [printint] is a [long long] in the kernel, to which the
    caller's [int] or [uint64] converts, and an [int] in user/printf.c. *)
Definition i64 (z : Z) : Z := (z + 2 ^ 63) mod 2 ^ 64 - 2 ^ 63.
Definition kernel_int (xx base : Z) (sign : bool) : option bytes := printint (i64 xx) base sign.

(** The loop of the kernel's [printf]; a [%] at the end of the string ends it. *)
Fixpoint printf_loop (fuel : nat) (fmt : bytes) (ap : list vararg) : option bytes :=
  match fuel with
  | O => None
  | S fuel =>
      match fmt with
      | [] => Some []
      | cx :: fmt =>
          if negb (cx =? chr "%") then out ← printf_loop fuel fmt ap; Some (cx :: out)
          else
            match fmt with
            | [] => Some []
            | c0 :: fmt =>
                let c1 := hd0 fmt in
                let c2 := if c1 =? 0 then 0 else hd0 (tail fmt) in
                '(out, ap, i) ← convert kernel_int printptr c0 c1 c2 ap;
                rest ← printf_loop fuel (drop i fmt) ap;
                Some (out ++ rest)
            end
      end
  end.
Definition format (fmt : bytes) (ap : list vararg) : option bytes := printf_loop (S (length fmt)) fmt ap.

(** user/printf.c: [printint] on an [int], [x] unsigned. *)
Definition user_printint (xx base : Z) (sgn : bool) : option bytes :=
  let xx := i32 xx in
  let neg := sgn && (xx <? 0) in
  let x := if neg then u32 (- xx) else u32 xx in
  from_buf (digit_loop 64 user_digits x base ++ (if neg then [chr "-"] else [])).
Definition user_printptr (x : Z) : bytes := [chr "0"; chr "x"] ++ ptr_loop 16 user_digits x.

(** [vprintf]: the two states of its loop; [skip] characters of [i += ...] left. *)
Fixpoint vprintf_loop (fmt : bytes) (state : bool) (skip : nat) (ap : list vararg) : option bytes :=
  match fmt with
  | [] => Some []
  | c0 :: fmt =>
      match skip with
      | S skip => vprintf_loop fmt state skip ap
      | O =>
          if negb state then
            if c0 =? chr "%" then vprintf_loop fmt true 0 ap
            else out ← vprintf_loop fmt false 0 ap; Some (c0 :: out)
          else
            let c1 := hd0 fmt in
            let c2 := if c1 =? 0 then 0 else hd0 (tail fmt) in
            '(out, ap, i) ← convert user_printint user_printptr c0 c1 c2 ap;
            rest ← vprintf_loop fmt false i ap;
            Some (out ++ rest)
      end
  end.
Definition vprintf (fmt : bytes) (ap : list vararg) : option bytes := vprintf_loop fmt false 0 ap.

(** * Output *)

Section output.
Context {U : Type}.
Local Abbreviation M := (T U).

Definition LSR_TX_IDLE : Z := 32.
Definition BACKSPACE : Z := 0x100.

(** [for(;;);] *)
Definition hang {A} : M A := loop (fun _ : unit => mret (inl tt)) tt.

Definition uartputc_sync (c : Z) : M unit :=
  push_off;;
  p ← ev (GetG g_panicked);
  (if (p : bool) then hang else mret tt);;
  loop (fun _ : unit =>
    r ← ev (ReadReg LSR);
    mret (if Z.land r LSR_TX_IDLE =? 0 then inl tt else inr tt)) tt;;
  ev (WriteReg THR (u8 c));;
  pop_off.

Definition consputc (c : Z) : M unit :=
  if c =? BACKSPACE then
    uartputc_sync 8;; uartputc_sync (chr " ");; uartputc_sync 8
  else uartputc_sync c.

Definition undefined {A} : M A := ev (OnMem (fun _ => Unspec)).

Definition printf (fmt : string) (ap : list vararg) : M unit :=
  locking ← ev (GetG g_locking);
  (if (locking : bool) then acquire PrLock else mret tt);;
  match format (str fmt) ap with
  | Some out => tfor out consputc
  | None => undefined
  end;;
  if (locking : bool) then release PrLock else mret tt.
End output.
