(* ===== verification/Proc.v ===== *)
(** Processes, kernel/proc.c, with [usertrapret] of kernel/trap.c.

    A pointer to a process is its index in [proc[]].  Page table and trapframe
    operations are the ones of Vm.v on the shared memory, file operations the
    ones of File.v and Fs.v; each runs as one access. *)

From S2P Require Import Prelude BufCache BufSpec KState Log CString Fs Kalloc File Vm KThread Printf.
Local Open Scope Z_scope.

Definition set_p_state v x := Proc v (p_chan x) (p_killed x) (p_xstate x) (p_pid x) (p_parent x) (p_kstack x) (p_sz x) (p_pagetable x) (p_trapframe x) (p_ofile x) (p_cwd x) (p_name x).
Definition set_p_chan v x := Proc (p_state x) v (p_killed x) (p_xstate x) (p_pid x) (p_parent x) (p_kstack x) (p_sz x) (p_pagetable x) (p_trapframe x) (p_ofile x) (p_cwd x) (p_name x).
Definition set_p_killed v x := Proc (p_state x) (p_chan x) v (p_xstate x) (p_pid x) (p_parent x) (p_kstack x) (p_sz x) (p_pagetable x) (p_trapframe x) (p_ofile x) (p_cwd x) (p_name x).
Definition set_p_xstate v x := Proc (p_state x) (p_chan x) (p_killed x) v (p_pid x) (p_parent x) (p_kstack x) (p_sz x) (p_pagetable x) (p_trapframe x) (p_ofile x) (p_cwd x) (p_name x).
Definition set_p_pid v x := Proc (p_state x) (p_chan x) (p_killed x) (p_xstate x) v (p_parent x) (p_kstack x) (p_sz x) (p_pagetable x) (p_trapframe x) (p_ofile x) (p_cwd x) (p_name x).
Definition set_p_parent v x := Proc (p_state x) (p_chan x) (p_killed x) (p_xstate x) (p_pid x) v (p_kstack x) (p_sz x) (p_pagetable x) (p_trapframe x) (p_ofile x) (p_cwd x) (p_name x).
Definition set_p_kstack v x := Proc (p_state x) (p_chan x) (p_killed x) (p_xstate x) (p_pid x) (p_parent x) v (p_sz x) (p_pagetable x) (p_trapframe x) (p_ofile x) (p_cwd x) (p_name x).
Definition set_p_sz v x := Proc (p_state x) (p_chan x) (p_killed x) (p_xstate x) (p_pid x) (p_parent x) (p_kstack x) v (p_pagetable x) (p_trapframe x) (p_ofile x) (p_cwd x) (p_name x).
Definition set_p_pagetable v x := Proc (p_state x) (p_chan x) (p_killed x) (p_xstate x) (p_pid x) (p_parent x) (p_kstack x) (p_sz x) v (p_trapframe x) (p_ofile x) (p_cwd x) (p_name x).
Definition set_p_trapframe v x := Proc (p_state x) (p_chan x) (p_killed x) (p_xstate x) (p_pid x) (p_parent x) (p_kstack x) (p_sz x) (p_pagetable x) v (p_ofile x) (p_cwd x) (p_name x).
Definition set_p_ofile v x := Proc (p_state x) (p_chan x) (p_killed x) (p_xstate x) (p_pid x) (p_parent x) (p_kstack x) (p_sz x) (p_pagetable x) (p_trapframe x) v (p_cwd x) (p_name x).
Definition set_p_cwd v x := Proc (p_state x) (p_chan x) (p_killed x) (p_xstate x) (p_pid x) (p_parent x) (p_kstack x) (p_sz x) (p_pagetable x) (p_trapframe x) (p_ofile x) v (p_name x).
Definition set_p_name v x := Proc (p_state x) (p_chan x) (p_killed x) (p_xstate x) (p_pid x) (p_parent x) (p_kstack x) (p_sz x) (p_pagetable x) (p_trapframe x) (p_ofile x) (p_cwd x) v.

(** Offsets in [struct trapframe], kernel/proc.h. *)
Definition TF_KSATP : Z := 0.
Definition TF_KSP : Z := 8.
Definition TF_KTRAP : Z := 16.
Definition TF_EPC : Z := 24.
Definition TF_HARTID : Z := 32.
Definition TF_SP : Z := 48.
Definition TF_A0 : Z := 112.
Definition TF_A1 : Z := 120.
Definition TF_A7 : Z := 168.
Definition TF_SIZE : Z := 288.

(** [safestrcpy(old, s, 16)] on a name. *)
Definition copy_name (old s : bytes) : bytes := put old 0 (take 15 s ++ [0]).
(** The string in a name buffer. *)
Fixpoint name_str (n : bytes) : bytes :=
  match n with
  | [] => []
  | c :: n => if c =? 0 then [] else c :: name_str n
  end.

Definition initcode : bytes := [
  0x17; 0x05; 0x00; 0x00; 0x13; 0x05; 0x45; 0x02;
  0x97; 0x05; 0x00; 0x00; 0x93; 0x85; 0x35; 0x02;
  0x93; 0x08; 0x70; 0x00; 0x73; 0x00; 0x00; 0x00;
  0x93; 0x08; 0x20; 0x00; 0x73; 0x00; 0x00; 0x00;
  0xef; 0xf0; 0x9f; 0xff; 0x2f; 0x69; 0x6e; 0x69;
  0x74; 0x00; 0x00; 0x24; 0x00; 0x00; 0x00; 0x00;
  0x00; 0x00; 0x00; 0x00].

Section code.
Context {U : Type} `{!UserMem U}.
(** Linker symbols: the end of the kernel, the trampoline page and [uservec],
    [userret] in it, and the function [usertrap]. *)
Context (kend trampoline uservec userret usertrap_addr : Z).
(** The uninitialised [char name[DIRSIZ]] of [namei]. *)
Context (junkname : bytes).
Local Abbreviation M := (T U).

Definition onmem {X} (m : VM X) : M X := ev (OnMem m).
Definition onfs {X} (m : K U X) : M X := ev (OnFs m).
Definition getp (i : nat) : M proc := ev (GetProc i).
Definition modp (i : nat) (f : proc -> proc) : M unit := ev (ModProc i f).
Definition getg {X} (f : glob U -> X) : M X := ev (GetG f).
Definition modg (f : glob U -> glob U) : M unit := ev (ModG f).

(** * Page tables of processes *)

Definition proc_pagetable (trapframe : Z) : VM Z :=
  pagetable ← uvmcreate;
  if pagetable =? 0 then mret 0 else
  r ← mappages pagetable TRAMPOLINE PGSIZE trampoline (Z.lor PTE_R PTE_X);
  if r <? 0 then uvmfree kend pagetable 0;; mret 0 else
  r ← mappages pagetable TRAPFRAME PGSIZE trapframe (Z.lor PTE_R PTE_W);
  if r <? 0 then
    uvmunmap kend pagetable TRAMPOLINE 1 false;;
    uvmfree kend pagetable 0;;
    mret 0
  else mret pagetable.

Definition proc_freepagetable (pagetable sz : Z) : VM unit :=
  uvmunmap kend pagetable TRAMPOLINE 1 false;;
  uvmunmap kend pagetable TRAPFRAME 1 false;;
  uvmfree kend pagetable sz.

(** * The current process *)

Definition procinit : M unit :=
  initlock PidLock;;
  initlock WaitLock;;
  tfor slots (fun p =>
    initlock (PLock p);;
    modp p (set_p_state UNUSED);;
    modp p (set_p_kstack (KSTACK (Z.of_nat p)))).

Definition myproc : M (option nat) :=
  push_off;;
  c ← mycpu;
  x ← ev (GetCpu c);
  pop_off;;
  mret (c_proc x).

(** [struct proc *p = myproc();] where [p] is dereferenced afterwards. *)
Definition cur : M nat := o ← myproc; match o with Some p => mret p | None => undefined end.

(** * Allocation *)

Definition allocpid : M Z :=
  acquire PidLock;;
  pid ← getg g_nextpid;
  modg (fun g => set_g_nextpid (i32 (g_nextpid g + 1)) g);;
  release PidLock;;
  mret pid.

Definition freeproc (p : nat) : M unit :=
  x ← getp p;
  (if negb (p_trapframe x =? 0) then onmem (vkfree kend (p_trapframe x)) else mret tt);;
  modp p (set_p_trapframe 0);;
  x ← getp p;
  (if negb (p_pagetable x =? 0) then onmem (proc_freepagetable (p_pagetable x) (p_sz x)) else mret tt);;
  modp p (set_p_pagetable 0);;
  modp p (set_p_sz 0);;
  modp p (set_p_pid 0);;
  modp p (set_p_parent None);;
  modp p (fun x => set_p_name (put (p_name x) 0 [0]) x);;
  modp p (set_p_chan None);;
  modp p (set_p_killed 0);;
  modp p (set_p_xstate 0);;
  modp p (set_p_state UNUSED).

Definition allocproc : M (option nat) :=
  r ← tfind slots (fun p =>
    acquire (PLock p);;
    x ← getp p;
    if decide (p_state x = UNUSED) then mret (Some p) else release (PLock p);; mret None);
  match r with
  | None => mret None
  | Some p =>
      pid ← allocpid;
      modp p (set_p_pid pid);;
      modp p (set_p_state USED);;
      tf ← onmem vkalloc;
      modp p (set_p_trapframe tf);;
      if tf =? 0 then freeproc p;; release (PLock p);; mret None else
      pt ← onmem (proc_pagetable tf);
      modp p (set_p_pagetable pt);;
      if pt =? 0 then freeproc p;; release (PLock p);; mret None else
      ev (SetCtx p);;
      mret (Some p)
  end.

Definition userinit : M unit :=
  r ← allocproc;
  modg (set_g_initproc r);;
  match r with
  | None => undefined
  | Some p =>
      x ← getp p;
      onmem (uvmfirst (p_pagetable x) initcode);;
      modp p (set_p_sz PGSIZE);;
      onmem (vstore (p_trapframe x + TF_EPC) 0);;
      onmem (vstore (p_trapframe x + TF_SP) PGSIZE);;
      modp p (fun x => set_p_name (copy_name (p_name x) (str "initcode")) x);;
      cwd ← onfs (namei junkname (str "/"));
      modp p (set_p_cwd cwd);;
      modp p (set_p_state RUNNABLE);;
      release (PLock p)
  end.

(** [n] is an [int]. *)
Definition growproc (n : Z) : M Z :=
  p ← cur;
  x ← getp p;
  let sz := p_sz x in
  if n >? 0 then
    sz' ← onmem (uvmalloc kend (p_pagetable x) sz (u64 (sz + n)) PTE_W);
    if sz' =? 0 then mret (-1) else modp p (set_p_sz sz');; mret 0
  else if n <? 0 then
    sz' ← onmem (uvmdealloc kend (p_pagetable x) sz (u64 (sz + n)));
    modp p (set_p_sz sz');; mret 0
  else modp p (set_p_sz sz);; mret 0.

(** [if(p->ofile[i]) np->ofile[i] = filedup(p->ofile[i]);] *)
Definition fork_file (p np i : nat) : M unit :=
  x ← getp p;
  match p_ofile x !! i with
  | Some (Some f) =>
      f' ← onfs (filedup f);
      modp np (fun y => set_p_ofile (<[i := Some f']> (p_ofile y)) y)
  | _ => mret tt
  end.

Definition fork : M Z :=
  p ← cur;
  r ← allocproc;
  match r with
  | None => mret (-1)
  | Some np =>
      x ← getp p;
      y ← getp np;
      r ← onmem (uvmcopy kend (p_pagetable x) (p_pagetable y) (p_sz x));
      if r <? 0 then freeproc np;; release (PLock np);; mret (-1) else
      modp np (set_p_sz (p_sz x));;
      onmem (vmemmove (p_trapframe y) (p_trapframe x) TF_SIZE);;
      onmem (vstore (p_trapframe y + TF_A0) 0);;
      tfor (seq 0 (Z.to_nat NOFILE)) (fork_file p np);;
      x ← getp p;
      match p_cwd x with
      | None => undefined
      | Some ip =>
          ip' ← onfs (idup ip);
          modp np (set_p_cwd (Some ip'));;
          modp np (fun y => set_p_name (copy_name (p_name y) (name_str (p_name x))) y);;
          y ← getp np;
          let pid := p_pid y in
          release (PLock np);;
          acquire WaitLock;;
          modp np (set_p_parent (Some p));;
          release WaitLock;;
          acquire (PLock np);;
          modp np (set_p_state RUNNABLE);;
          release (PLock np);;
          mret pid
      end
  end.

(** * Scheduling *)

(** [for(p = proc; p < &proc[NPROC]; p++)] of [scheduler]; the result is [nproc]. *)
Fixpoint sched_scan (c : nat) (l : list nat) (nproc : Z) : M Z :=
  match l with
  | [] => mret nproc
  | p :: l =>
      acquire (PLock p);;
      x ← getp p;
      let nproc := if decide (p_state x = UNUSED) then nproc else nproc + 1 in
      x ← getp p;
      (if decide (p_state x = RUNNABLE) then
         modp p (set_p_state RUNNING);;
         ev (ModCpu c (set_c_proc (Some p)));;
         ev (Swtch (KSched c) (KProc p));;
         ev (ModCpu c (set_c_proc None))
       else mret tt);;
      release (PLock p);;
      sched_scan c l nproc
  end.

Definition scheduler : M unit :=
  c ← mycpu;
  ev (ModCpu c (set_c_proc None));;
  loop (fun _ : unit =>
    ev IntrOn;;
    nproc ← sched_scan c slots 0;
    (if nproc <=? 2 then ev IntrOn else mret tt);;
    mret (inl tt)) tt.

Definition sched : M unit :=
  p ← cur;
  h ← holding (PLock p);
  if negb h then tpanic "sched p->lock" else
  c ← mycpu;
  x ← ev (GetCpu c);
  if negb (c_noff x =? 1) then tpanic "sched locks" else
  y ← getp p;
  if decide (p_state y = RUNNING) then tpanic "sched running" else
  i ← ev IntrGet;
  if (i : bool) then tpanic "sched interruptible" else
  c ← mycpu;
  x ← ev (GetCpu c);
  let intena := c_intena x in
  c ← mycpu;
  ev (Swtch (KProc p) (KSched c));;
  c ← mycpu;
  ev (ModCpu c (set_c_intena intena)).

Definition yield : M unit :=
  p ← cur;
  acquire (PLock p);;
  modp p (set_p_state RUNNABLE);;
  sched;;
  release (PLock p).

Definition sleep (ch : chan) (lk : lockid) : M unit :=
  p ← cur;
  acquire (PLock p);;
  release lk;;
  modp p (set_p_chan (Some ch));;
  modp p (set_p_state SLEEPING);;
  sched;;
  modp p (set_p_chan None);;
  release (PLock p);;
  acquire lk.

Definition wakeup (ch : option chan) : M unit :=
  tfor slots (fun p =>
    me ← myproc;
    if decide (me = Some p) then mret tt else
    acquire (PLock p);;
    x ← getp p;
    (if decide (p_state x = SLEEPING /\ p_chan x = ch) then modp p (set_p_state RUNNABLE) else mret tt);;
    release (PLock p)).

Definition kill (pid : Z) : M Z :=
  r ← tfind slots (fun p =>
    acquire (PLock p);;
    x ← getp p;
    if p_pid x =? pid then
      modp p (set_p_killed 1);;
      x ← getp p;
      (if decide (p_state x = SLEEPING) then modp p (set_p_state RUNNABLE) else mret tt);;
      release (PLock p);;
      mret (Some 0)
    else release (PLock p);; mret None);
  mret (default (-1) r).

Definition setkilled (p : nat) : M unit :=
  acquire (PLock p);;
  modp p (set_p_killed 1);;
  release (PLock p).

Definition killed (p : nat) : M bool :=
  acquire (PLock p);;
  x ← getp p;
  release (PLock p);;
  mret (negb (p_killed x =? 0)).

(** * Exit and wait *)

Definition reparent (p : nat) : M unit :=
  tfor slots (fun pp =>
    x ← getp pp;
    if decide (p_parent x = Some p) then
      init ← getg g_initproc;
      modp pp (set_p_parent init);;
      init ← getg g_initproc;
      wakeup (ChProc <$> init)
    else mret tt).

(** [if(p->ofile[fd])] of [exit]. *)
Definition exit_file (p fd : nat) : M unit :=
  x ← getp p;
  match p_ofile x !! fd with
  | Some (Some f) =>
      onfs (fileclose f);;
      modp p (fun x => set_p_ofile (<[fd := None]> (p_ofile x)) x)
  | _ => mret tt
  end.

Definition exit {A} (status : Z) : M A :=
  p ← cur;
  init ← getg g_initproc;
  if decide (Some p = init) then tpanic "init exiting" else
  tfor (seq 0 (Z.to_nat NOFILE)) (exit_file p);;
  onfs begin_op;;
  x ← getp p;
  match p_cwd x with None => undefined | Some ip => onfs (iput ip) end;;
  onfs end_op;;
  modp p (set_p_cwd None);;
  acquire WaitLock;;
  reparent p;;
  x ← getp p;
  wakeup (ChProc <$> p_parent x);;
  acquire (PLock p);;
  modp p (set_p_xstate status);;
  modp p (set_p_state ZOMBIE);;
  release WaitLock;;
  sched;;
  tpanic "zombie exit".

(** The table scan of [wait]: a result to return, or [havekids]. *)
Fixpoint wait_scan (p : nat) (addr : Z) (l : list nat) (havekids : bool) : M (bool + Z) :=
  match l with
  | [] => mret (inl havekids)
  | pp :: l =>
      x ← getp pp;
      if decide (p_parent x = Some p) then
        acquire (PLock pp);;
        x ← getp pp;
        if decide (p_state x = ZOMBIE) then
          x ← getp pp;
          let pid := p_pid x in
          y ← getp p;
          ok ← (if addr =? 0 then mret true
                else onmem (Vm.copyout (p_pagetable y) addr (le_bytes 4 (p_xstate x))));
          if negb ok then release (PLock pp);; release WaitLock;; mret (inr (-1))
          else
            freeproc pp;;
            release (PLock pp);;
            release WaitLock;;
            mret (inr pid)
        else release (PLock pp);; wait_scan p addr l true
      else wait_scan p addr l havekids
  end.

Definition wait (addr : Z) : M Z :=
  p ← cur;
  acquire WaitLock;;
  loop (fun _ : unit =>
    r ← wait_scan p addr slots false;
    match r with
    | inr v => mret (inr v)
    | inl havekids =>
        k ← (if negb havekids then mret true else killed p);
        if (k : bool) then release WaitLock;; mret (inr (-1))
        else sleep (ChProc p) WaitLock;; mret (inl tt)
    end) tt.

(** * Process listing *)

Definition state_name (s : procstate) : string :=
  match s with
  | UNUSED => "unused" | USED => "used" | SLEEPING => "sleep " | RUNNABLE => "runble"
  | RUNNING => "run   " | ZOMBIE => "zombie"
  end.

Definition newline : string := String (Ascii.ascii_of_nat 10) EmptyString.

Definition procdump : M unit :=
  printf newline [];;
  tfor slots (fun p =>
    x ← getp p;
    if decide (p_state x = UNUSED) then mret tt else
    printf "%d %s %s" [VInt (p_pid x); VStr (Some (str (state_name (p_state x)))); VStr (Some (name_str (p_name x)))];;
    printf newline []).

(** * Return to user space, kernel/trap.c *)

Definition SSTATUS_SPP : Z := Z.shiftl 1 8.
Definition SSTATUS_SPIE : Z := Z.shiftl 1 5.
Definition MAKE_SATP (pagetable : Z) : Z := Z.lor (Z.shiftl 8 60) (Z.shiftr pagetable 12).

Definition usertrapret : M unit :=
  p ← cur;
  ev IntrOff;;
  ev (WriteReg STVEC (u64 (TRAMPOLINE + (uservec - trampoline))));;
  x ← getp p;
  satp ← ev (ReadReg SATP);
  onmem (vstore (p_trapframe x + TF_KSATP) satp);;
  onmem (vstore (p_trapframe x + TF_KSP) (u64 (p_kstack x + PGSIZE)));;
  onmem (vstore (p_trapframe x + TF_KTRAP) usertrap_addr);;
  hart ← cpuid;
  onmem (vstore (p_trapframe x + TF_HARTID) (Z.of_nat hart));;
  s ← ev (ReadReg SSTATUS);
  ev (WriteReg SSTATUS (Z.lor (Z.land s (Z.lnot SSTATUS_SPP)) SSTATUS_SPIE));;
  epc ← onmem (vload (p_trapframe x + TF_EPC));
  ev (WriteReg SEPC epc);;
  ev (WriteReg SATP (MAKE_SATP (p_pagetable x))).

(** What a new process runs first. *)
Definition forkret : M unit :=
  p ← cur;
  release (PLock p);;
  first ← getg g_first;
  (if (first : bool) then onfs (fsinit ROOTDEV);; modg (set_g_first false) else mret tt);;
  usertrapret.
End code.
