(* ===== verification/Console.v ===== *)
(** The console and its line: kernel/uart.c and kernel/console.c. *)

From S2P Require Import Prelude BufCache BufSpec KState CString Kalloc Vm KThread Printf Proc.
From Stdlib Require Import Ascii.
Local Open Scope Z_scope.

Definition UART_TX_BUF_SIZE : Z := 32.
Definition INPUT_BUF_SIZE : Z := 128.
(** [C(x)]: control-x. *)
Definition ctrl (x : Ascii.ascii) : Z := chr x - chr "@".
Definition NL : Z := 10.
Definition CR : Z := 13.
Definition DEL : Z := 127.

Definition set_con_buf v x := Console v (con_r x) (con_w x) (con_e x).
Definition set_con_r v x := Console (con_buf x) v (con_w x) (con_e x).
Definition set_con_w v x := Console (con_buf x) (con_r x) v (con_e x).
Definition set_con_e v x := Console (con_buf x) (con_r x) (con_w x) v.
Definition set_tx_buf v x := Uart v (tx_w x) (tx_r x).
Definition set_tx_w v x := Uart (tx_buf x) v (tx_r x).
Definition set_tx_r v x := Uart (tx_buf x) (tx_w x) v.

Section code.
Context {U : Type}.
Local Abbreviation M := (T U).

Definition modcons (f : console -> console) : M unit := modg (fun g => set_g_cons (f (g_cons g)) g).
Definition moduart (f : uart -> uart) : M unit := modg (fun g => set_g_uart (f (g_uart g)) g).

(** * kernel/uart.c *)

Definition LCR_BAUD_LATCH : Z := Z.shiftl 1 7.
Definition LCR_EIGHT_BITS : Z := Z.shiftl 3 0.
Definition FCR_FIFO_ENABLE : Z := Z.shiftl 1 0.
Definition FCR_FIFO_CLEAR : Z := Z.shiftl 3 1.
Definition IER_RX_ENABLE : Z := Z.shiftl 1 0.
Definition IER_TX_ENABLE : Z := Z.shiftl 1 1.

(** Registers 0 and 1 are [THR] and [IER]. *)
Definition uartinit : M unit :=
  ev (WriteReg IER 0x00);;
  ev (WriteReg LCR LCR_BAUD_LATCH);;
  ev (WriteReg THR 0x03);;
  ev (WriteReg IER 0x00);;
  ev (WriteReg LCR LCR_EIGHT_BITS);;
  ev (WriteReg FCR (Z.lor FCR_FIFO_ENABLE FCR_FIFO_CLEAR));;
  ev (WriteReg IER (Z.lor IER_TX_ENABLE IER_RX_ENABLE));;
  initlock UartLock.

Definition uartstart : M unit :=
  loop (fun _ : unit =>
    u ← getg g_uart;
    if tx_w u =? tx_r u then ev (ReadReg ISR);; mret (inr tt) else
    l ← ev (ReadReg LSR);
    if Z.land l LSR_TX_IDLE =? 0 then mret (inr tt) else
    u ← getg g_uart;
    let c := tx_buf u (tx_r u mod UART_TX_BUF_SIZE) in
    moduart (fun u => set_tx_r (u64 (tx_r u + 1)) u);;
    wakeup (Some ChUart);;
    ev (WriteReg THR (u8 c));;
    mret (inl tt)) tt.

Definition uartputc (c : Z) : M unit :=
  acquire UartLock;;
  p ← getg g_panicked;
  (if (p : bool) then hang else mret tt);;
  loop (fun _ : unit =>
    u ← getg g_uart;
    if tx_w u =? u64 (tx_r u + UART_TX_BUF_SIZE) then
      sleep ChUart UartLock;; mret (inl tt)
    else mret (inr tt)) tt;;
  moduart (fun u => set_tx_buf (<[tx_w u mod UART_TX_BUF_SIZE := u8 c]> (tx_buf u)) u);;
  moduart (fun u => set_tx_w (u64 (tx_w u + 1)) u);;
  uartstart;;
  release UartLock.

(** -1 when no input is waiting. *)
Definition uartgetc : M Z :=
  l ← ev (ReadReg LSR);
  if negb (Z.land l 0x01 =? 0) then c ← ev (ReadReg RHR); mret (u8 c) else mret (-1).

(** * kernel/console.c *)

(** [either_copyin(&c, user_src, src, 1)] and [either_copyout(user_dst, dst, &c, 1)]
    for the current process. *)
Definition copyin1 (user_src : bool) (src : Z) : M (option Z) :=
  p ← cur;
  if user_src then
    x ← getp p;
    r ← onmem (Vm.copyin (p_pagetable x) src 1);
    mret (match r with (c :: _, true) => Some c | _ => None end)
  else d ← onmem (vget src 1); mret (head d).
Definition copyout1 (user_dst : bool) (dst c : Z) : M bool :=
  p ← cur;
  if user_dst then x ← getp p; onmem (Vm.copyout (p_pagetable x) dst [c])
  else onmem (vput dst [c]);; mret true.

Definition consolewrite (user_src : bool) (src n : Z) : M Z :=
  loop (fun i =>
    if i <? n then
      r ← copyin1 user_src (u64 (src + i));
      match r with
      | None => mret (inr i)
      | Some c => uartputc c;; mret (inl (i + 1))
      end
    else mret (inr i)) 0.

(** [while(cons.r == cons.w)]: [false] when the process was killed, with the
    lock released. *)
Definition cons_wait : M bool :=
  loop (fun _ : unit =>
    x ← getg g_cons;
    if con_r x =? con_w x then
      p ← cur;
      k ← killed p;
      if (k : bool) then release ConsLock;; mret (inr false)
      else sleep ChCons ConsLock;; mret (inl tt)
    else mret (inr true)) tt.

(** One iteration of [while(n > 0)], on [dst] and [n]: go on, leave the loop
    with [n] bytes missing, or return -1. *)
Definition cons_get (user_dst : bool) (target dst n : Z) : M ((Z * Z) + option Z) :=
  if negb (n >? 0) then mret (inr (Some n)) else
  ok ← cons_wait;
  if negb ok then mret (inr None) else
  x ← getg g_cons;
  let c := con_buf x (con_r x mod INPUT_BUF_SIZE) in
  modcons (fun x => set_con_r (u32 (con_r x + 1)) x);;
  if c =? ctrl "D" then
    (if u32 n <? target then modcons (fun x => set_con_r (u32 (con_r x - 1)) x) else mret tt);;
    mret (inr (Some n))
  else
    ok ← copyout1 user_dst dst c;
    if negb ok then mret (inr (Some n)) else
    if c =? NL then mret (inr (Some (n - 1)))
    else mret (inl (u64 (dst + 1), n - 1)).

Definition consoleread (user_dst : bool) (dst n : Z) : M Z :=
  let target := u32 n in
  acquire ConsLock;;
  r ← loop (fun '(dst, n) => cons_get user_dst target dst n) (dst, n);
  match r with
  | None => mret (-1)
  | Some n => release ConsLock;; mret (i32 (target - n))
  end.

(** [while(cons.e != cons.w && cons.buf[(cons.e-1) % INPUT_BUF_SIZE] != '\n')] *)
Definition kill_line : M unit :=
  loop (fun _ : unit =>
    x ← getg g_cons;
    if negb (con_e x =? con_w x) && negb (con_buf x (u32 (con_e x - 1) mod INPUT_BUF_SIZE) =? NL) then
      modcons (fun x => set_con_e (u32 (con_e x - 1)) x);;
      consputc BACKSPACE;;
      mret (inl tt)
    else mret (inr tt)) tt.

(** The [default:] case. *)
Definition cons_char (c : Z) : M unit :=
  x ← getg g_cons;
  if negb (c =? 0) && (u32 (con_e x - con_r x) <? INPUT_BUF_SIZE) then
    let c := if c =? CR then NL else c in
    consputc c;;
    modcons (fun x => set_con_buf (<[con_e x mod INPUT_BUF_SIZE := u8 c]> (con_buf x)) x);;
    modcons (fun x => set_con_e (u32 (con_e x + 1)) x);;
    x ← getg g_cons;
    if (c =? NL) || (c =? ctrl "D") || (u32 (con_e x - con_r x) =? INPUT_BUF_SIZE) then
      modcons (fun x => set_con_w (con_e x) x);;
      wakeup (Some ChCons)
    else mret tt
  else mret tt.

Definition consoleintr (c : Z) : M unit :=
  acquire ConsLock;;
  (if c =? ctrl "P" then procdump
   else if c =? ctrl "U" then kill_line
   else if (c =? ctrl "H") || (c =? DEL) then
     x ← getg g_cons;
     if negb (con_e x =? con_w x) then
       modcons (fun x => set_con_e (u32 (con_e x - 1)) x);;
       consputc BACKSPACE
     else mret tt
   else cons_char c);;
  release ConsLock.

Definition consoleinit : M unit :=
  initlock ConsLock;;
  uartinit.

Definition uartintr : M unit :=
  loop (fun _ : unit =>
    c ← uartgetc;
    if c =? -1 then mret (inr tt) else consoleintr c;; mret (inl tt)) tt;;
  acquire UartLock;;
  uartstart;;
  release UartLock.
End code.
