(* ===== verification/Virtio.v ===== *)
(** The disk driver, kernel/virtio_disk.c.  The device is the environment: it
    writes the used ring and the status bytes.  [virtio_disk_init] is in Boot. *)

From S2P Require Import Prelude BufCache BufSpec KState CString Kalloc Vm KThread Printf Proc.
Local Open Scope Z_scope.

Definition NUM : Z := 8.
Definition VRING_DESC_F_NEXT : Z := 1.
Definition VRING_DESC_F_WRITE : Z := 2.
Definition VIRTIO_BLK_T_IN : Z := 0.
Definition VIRTIO_BLK_T_OUT : Z := 1.

Definition set_d_free v x := Disk v (d_desc x) (d_ops x) (d_info x) (d_busy x) (d_ring x) (d_avail x) (d_used x).
Definition set_d_desc v x := Disk (d_free x) v (d_ops x) (d_info x) (d_busy x) (d_ring x) (d_avail x) (d_used x).
Definition set_d_ops v x := Disk (d_free x) (d_desc x) v (d_info x) (d_busy x) (d_ring x) (d_avail x) (d_used x).
Definition set_d_info v x := Disk (d_free x) (d_desc x) (d_ops x) v (d_busy x) (d_ring x) (d_avail x) (d_used x).
Definition set_d_busy v x := Disk (d_free x) (d_desc x) (d_ops x) (d_info x) v (d_ring x) (d_avail x) (d_used x).
Definition set_d_ring v x := Disk (d_free x) (d_desc x) (d_ops x) (d_info x) (d_busy x) v (d_avail x) (d_used x).
Definition set_d_avail v x := Disk (d_free x) (d_desc x) (d_ops x) (d_info x) (d_busy x) (d_ring x) v (d_used x).
Definition set_d_used v x := Disk (d_free x) (d_desc x) (d_ops x) (d_info x) (d_busy x) (d_ring x) (d_avail x) v.

Section code.
Context {U : Type}.
Local Abbreviation M := (T U).

Definition moddisk (f : disk -> disk) : M unit := modg (fun g => set_g_disk (f (g_disk g)) g).
Definition setfree (i : Z) (b : bool) : M unit := moddisk (fun d => set_d_free (<[i := b]> (d_free d)) d).
Definition setdesc (i : Z) (v : vdesc) : M unit := moddisk (fun d => set_d_desc (<[i := v]> (d_desc d)) d).
Definition setinfo (i : Z) (b : option Z) : M unit := moddisk (fun d => set_d_info (<[i := b]> (d_info d)) d).
Definition setbusy (b : Z) (v : bool) : M unit := moddisk (fun d => set_d_busy (<[b := v]> (d_busy d)) d).

Definition alloc_desc : M Z :=
  r ← tfind (seqZ 0 NUM) (fun i =>
    d ← getg g_disk;
    if d_free d i then setfree i false;; mret (Some i) else mret None);
  mret (default (-1) r).

Definition free_desc (i : Z) : M unit :=
  if i >=? NUM then tpanic "free_desc 1" else
  d ← getg g_disk;
  if d_free d i then tpanic "free_desc 2" else
  setdesc i (VDesc VNull 0 0 0);;
  setfree i true;;
  wakeup (Some ChDisk).

Definition free_chain (i : Z) : M unit :=
  loop (fun i =>
    d ← getg g_disk;
    let flag := vd_flags (d_desc d i) in
    let nxt := vd_next (d_desc d i) in
    free_desc i;;
    mret (if negb (Z.land flag VRING_DESC_F_NEXT =? 0) then inl nxt else inr tt)) i.

(** The three indices, or [None] with nothing allocated; [got] are the ones
    allocated so far, in order. *)
Fixpoint alloc3_loop (n : nat) (got : list Z) : M (option (list Z)) :=
  match n with
  | O => mret (Some got)
  | S n =>
      i ← alloc_desc;
      if i <? 0 then tfor got free_desc;; mret None
      else alloc3_loop n (got ++ [i])
  end.
Definition alloc3_desc : M (option (list Z)) := alloc3_loop 3 [].

(** [virtio_disk_rw] on buffer [b] of block [blockno]. *)
Definition virtio_disk_rw (b blockno : Z) (write : bool) : M unit :=
  let sector := u32 (blockno * (BSIZE / 512)) in
  acquire DiskLock;;
  idx ← loop (fun _ : unit =>
    r ← alloc3_desc;
    match r with
    | Some idx => mret (inr idx)
    | None => sleep ChDisk DiskLock;; mret (inl tt)
    end) tt;
  let i0 := idx !!! 0%nat in let i1 := idx !!! 1%nat in let i2 := idx !!! 2%nat in
  moddisk (fun d => set_d_ops (<[i0 := (if write then VIRTIO_BLK_T_OUT else VIRTIO_BLK_T_IN, sector)]> (d_ops d)) d);;
  setdesc i0 (VDesc (VOp i0) 16 VRING_DESC_F_NEXT i1);;
  setdesc i1 (VDesc (VData b) BSIZE (Z.lor (if write then 0 else VRING_DESC_F_WRITE) VRING_DESC_F_NEXT) i2);;
  ev (WriteReg (STATUS i0) 0xff);;
  setdesc i2 (VDesc (VStatus i0) 1 VRING_DESC_F_WRITE 0);;
  setbusy b true;;
  setinfo i0 (Some b);;
  moddisk (fun d => set_d_ring (<[d_avail d mod NUM := i0]> (d_ring d)) d);;
  moddisk (fun d => set_d_avail (u16 (d_avail d + 1)) d);;
  ev (WriteReg QUEUE_NOTIFY 0);;
  loop (fun _ : unit =>
    d ← getg g_disk;
    if d_busy d b then sleep (ChBuf b) DiskLock;; mret (inl tt) else mret (inr tt)) tt;;
  setinfo i0 None;;
  free_chain i0;;
  release DiskLock.

Definition virtio_disk_intr : M unit :=
  acquire DiskLock;;
  s ← ev (ReadReg INTERRUPT_STATUS);
  ev (WriteReg INTERRUPT_ACK (Z.land s 0x3));;
  loop (fun _ : unit =>
    d ← getg g_disk;
    idx ← ev (ReadReg USED_IDX);
    if d_used d =? u16 idx then mret (inr tt) else
    id ← ev (ReadReg (USED_ID (d_used d mod NUM)));
    st ← ev (ReadReg (STATUS id));
    if negb (st =? 0) then tpanic "virtio_disk_intr status" else
    d ← getg g_disk;
    match d_info d id with
    | None => undefined
    | Some b =>
        setbusy b false;;
        wakeup (Some (ChBuf b));;
        moddisk (fun d => set_d_used (u16 (d_used d + 1)) d);;
        mret (inl tt)
    end) tt;;
  release DiskLock.
End code.
