(* ===== verification/Exec.v ===== *)
(** Program loading: kernel/exec.c, with [fetchaddr] of kernel/syscall.c and
    [sys_exec] of kernel/sysfile.c. *)

From S2P Require Import Prelude BufCache BufSpec KState Log CString Fs Kalloc File Vm KThread Printf Proc.
Local Open Scope Z_scope.

Definition USERSTACK : Z := 1.
Definition ELF_MAGIC : Z := 0x464C457F.
Definition ELF_PROG_LOAD : Z := 1.

(** The fields of [struct elfhdr] (64 bytes) and [struct proghdr] (56 bytes) the
    loader reads, kernel/elf.h. *)
Record elfhdr := ElfHdr { e_magic : Z; e_entry : Z; e_phoff : Z; e_phnum : Z }.
Record proghdr := ProgHdr {
  ph_type : Z; ph_flags : Z; ph_off : Z; ph_vaddr : Z; ph_filesz : Z; ph_memsz : Z;
}.
Definition field (b : bytes) (off len : Z) : Z := le_val (sub_bytes b off len).
Definition elf_dec (b : bytes) : elfhdr :=
  ElfHdr (field b 0 4) (field b 24 8) (field b 32 8) (field b 56 2).
Definition ph_dec (b : bytes) : proghdr :=
  ProgHdr (field b 0 4) (field b 4 4) (field b 8 8) (field b 16 8) (field b 32 8) (field b 40 8).

Definition flags2perm (flags : Z) : Z :=
  let perm := if negb (Z.land flags 0x1 =? 0) then PTE_X else 0 in
  if negb (Z.land flags 0x2 =? 0) then Z.lor perm PTE_W else perm.

(** [for(last=s=path; *s; s++) if( *s == '/') last = s+1;] *)
Fixpoint last_elem (s last : bytes) : bytes :=
  match s with
  | [] => last
  | c :: s => last_elem s (if c =? 47 then s else last)
  end.

Section code.
Context {U : Type} `{!UserMem U}.
Context (kend trampoline : Z) (junkname : bytes).
Local Abbreviation M := (T U).
Local Abbreviation proc_pagetable := (Proc.proc_pagetable kend trampoline).
Local Abbreviation proc_freepagetable := (Proc.proc_freepagetable kend).

(** File system code run for process [p], whose descriptors, current directory,
    killed flag and argument registers it sees. *)
Definition in_proc {X} (x : proc) (args : Z -> Z) (m : K U X) : K U (X * (list (option nat) * nat)) :=
  kmod (fun k => Kst (k_sb k) (k_log k) (k_itable k) (k_ftable k) (p_pid x) (p_ofile x)
                     (default 0%nat (p_cwd x)) (k_mem k) (k_out k)
                     (KExt (x_pipes (k_ext k)) (x_freelist (k_ext k)) (negb (p_killed x =? 0)) args));;
  r ← m;
  o ← kget k_ofile;
  c ← kget k_cwd;
  mret (r, (o, c)).
Definition onproc {X} (p : nat) (args : Z -> Z) (m : K U X) : M X :=
  x ← getp p;
  r ← onfs (in_proc x args m);
  modp p (set_p_ofile r.2.1);;
  modp p (set_p_cwd (Some r.2.2));;
  mret r.1.

(** Load [sz] bytes at [va] in chunks of a page; [false] when the file is short. *)
Fixpoint loadseg_loop (n : nat) (pagetable va : Z) (ip : nat) (offset sz i : Z) : M bool :=
  match n with
  | O => mret true
  | S m =>
      pa ← onmem (walkaddr pagetable (u64 (va + i)));
      if pa =? 0 then tpanic "loadseg: address should exist" else
      let n := if sz - i <? PGSIZE then sz - i else PGSIZE in
      r ← onfs (readi ip KernelDst (u32 (offset + i)) n);
      onmem (vput pa r.2);;
      if negb (r.1 =? n) then mret false
      else loadseg_loop m pagetable va ip offset sz (i + PGSIZE)
  end.
Definition loadseg (pagetable va : Z) (ip : nat) (offset sz : Z) : M bool :=
  loadseg_loop (Z.to_nat ((sz + PGSIZE - 1) / PGSIZE)) pagetable va ip offset sz 0.

(** The loop over the program headers; the size reached, and whether all of
    them were loaded. *)
Fixpoint load_segs (n : nat) (pagetable : Z) (ip : nat) (off sz : Z) : M (Z * bool) :=
  match n with
  | O => mret (sz, true)
  | S n =>
      r ← onfs (readi ip KernelDst (u32 off) 56);
      if negb (r.1 =? 56) then mret (sz, false) else
      let ph := ph_dec r.2 in
      if negb (ph_type ph =? ELF_PROG_LOAD) then load_segs n pagetable ip (i32 (off + 56)) sz else
      if ph_memsz ph <? ph_filesz ph then mret (sz, false) else
      if u64 (ph_vaddr ph + ph_memsz ph) <? ph_vaddr ph then mret (sz, false) else
      if negb (ph_vaddr ph mod PGSIZE =? 0) then mret (sz, false) else
      sz1 ← onmem (uvmalloc kend pagetable sz (u64 (ph_vaddr ph + ph_memsz ph)) (flags2perm (ph_flags ph)));
      if sz1 =? 0 then mret (sz, false) else
      ok ← loadseg pagetable (ph_vaddr ph) ip (u32 (ph_off ph)) (u32 (ph_filesz ph));
      if negb ok then mret (sz1, false) else load_segs n pagetable ip (i32 (off + 56)) sz1
  end.

(** Push the argument strings; the stack pointer and the contents of [ustack],
    or [None] for [goto bad]. *)
Fixpoint push_args (argv : list bytes) (pagetable stackbase argc sp : Z) (ustack : list Z) : M (option (Z * list Z)) :=
  match argv with
  | [] => mret (Some (sp, ustack))
  | s :: argv =>
      if argc >=? MAXARG then mret None else
      let sp := u64 (sp - (Z.of_nat (length s) + 1)) in
      let sp := sp - sp mod 16 in
      if sp <? stackbase then mret None else
      ok ← onmem (Vm.copyout pagetable sp (s ++ [0]));
      if negb ok then mret None else
      push_args argv pagetable stackbase (argc + 1) sp (ustack ++ [sp])
  end.

(** The [bad:] label before and after the inode was released. *)
Definition exec_bad (pagetable sz : Z) (ip : option nat) : M Z :=
  (if negb (pagetable =? 0) then onmem (proc_freepagetable pagetable sz) else mret tt);;
  match ip with Some ip => onfs (iunlockput ip);; onfs end_op | None => mret tt end;;
  mret (-1).

(** From the new image of size [sz] to the return. *)
Definition exec_commit (p : nat) (path : bytes) (argv : list bytes) (entry pagetable sz : Z) : M Z :=
  x ← getp p;
  let oldsz := p_sz x in
  let sz := pgroundup sz in
  sz1 ← onmem (uvmalloc kend pagetable sz (u64 (sz + (USERSTACK + 1) * PGSIZE)) PTE_W);
  if sz1 =? 0 then exec_bad pagetable sz None else
  let sz := sz1 in
  onmem (uvmclear pagetable (u64 (sz - (USERSTACK + 1) * PGSIZE)));;
  let stackbase := u64 (sz - USERSTACK * PGSIZE) in
  r ← push_args argv pagetable stackbase 0 sz [];
  match r with
  | None => exec_bad pagetable sz None
  | Some (sp, ustack) =>
      let ustack := ustack ++ [0] in
      let n := Z.of_nat (length ustack) * 8 in
      let sp := u64 (sp - n) in
      let sp := sp - sp mod 16 in
      if sp <? stackbase then exec_bad pagetable sz None else
      ok ← onmem (Vm.copyout pagetable sp (ustack ≫= le_bytes 8));
      if negb ok then exec_bad pagetable sz None else
      x ← getp p;
      onmem (vstore (p_trapframe x + TF_A1) sp);;
      modp p (fun x => set_p_name (copy_name (p_name x) (last_elem path path)) x);;
      let oldpagetable := p_pagetable x in
      modp p (set_p_pagetable pagetable);;
      modp p (set_p_sz sz);;
      onmem (vstore (p_trapframe x + TF_EPC) entry);;
      onmem (vstore (p_trapframe x + TF_SP) sp);;
      onmem (proc_freepagetable oldpagetable oldsz);;
      mret (Z.of_nat (length argv))
  end.

Definition exec (path : bytes) (argv : list bytes) : M Z :=
  p ← cur;
  onfs begin_op;;
  r ← onproc p (fun _ => 0) (namei junkname path);
  match r with
  | None => onfs end_op;; mret (-1)
  | Some ip =>
      onfs (ilock (Some ip));;
      r ← onfs (readi ip KernelDst 0 64);
      if negb (r.1 =? 64) then exec_bad 0 0 (Some ip) else
      let elf := elf_dec r.2 in
      if negb (e_magic elf =? ELF_MAGIC) then exec_bad 0 0 (Some ip) else
      x ← getp p;
      pagetable ← onmem (proc_pagetable (p_trapframe x));
      if pagetable =? 0 then exec_bad 0 0 (Some ip) else
      r ← load_segs (Z.to_nat (e_phnum elf)) pagetable ip (i32 (e_phoff elf)) 0;
      if negb r.2 then exec_bad pagetable r.1 (Some ip) else
      onfs (iunlockput ip);;
      onfs end_op;;
      p ← cur;
      exec_commit p path argv (e_entry elf) pagetable r.1
  end.

(** * Arguments from user memory *)

Definition fetchaddr (addr : Z) : M (option Z) :=
  p ← cur;
  x ← getp p;
  if (addr >=? p_sz x) || (u64 (addr + 8) >? p_sz x) then mret None else
  r ← onmem (Vm.copyin (p_pagetable x) addr 8);
  if (r.2 : bool) then mret (Some (le_val r.1)) else mret None.

Definition fetchstr_user (addr max : Z) : M (option bytes) :=
  p ← cur;
  x ← getp p;
  onmem (Vm.copyinstr (p_pagetable x) addr max).

(** The argument loop of [sys_exec]: the pages taken with the strings in them,
    and whether the terminating null was reached. *)
Fixpoint exec_args (n : nat) (uargv i : Z) (argv : list (Z * bytes)) : M (list (Z * bytes) * bool) :=
  match n with
  | O => mret (argv, false)
  | S n =>
      a ← fetchaddr (u64 (uargv + 8 * i));
      match a with
      | None => mret (argv, false)
      | Some uarg =>
          if uarg =? 0 then mret (argv, true) else
          pg ← onmem vkalloc;
          if pg =? 0 then mret (argv, false) else
          s ← fetchstr_user uarg PGSIZE;
          match s with
          | None => mret (argv ++ [(pg, [])], false)
          | Some s =>
              onmem (vput pg (s ++ [0]));;
              exec_args n uargv (i + 1) (argv ++ [(pg, s)])
          end
      end
  end.

(** [path] and [uargv] are the two arguments of the call. *)
Definition sys_exec (path_addr uargv : Z) : M Z :=
  path ← fetchstr_user path_addr MAXPATH;
  match path with
  | None => mret (-1)
  | Some path =>
      r ← exec_args (Z.to_nat MAXARG) uargv 0 [];
      ret ← (if (r.2 : bool) then exec path r.1.*2 else mret (-1));
      tfor r.1.*1 (fun pg => onmem (vkfree kend pg));;
      mret ret
  end.
End code.
