(* ===== verification/Trap.v ===== *)
(** System calls and traps: kernel/sysproc.c, kernel/syscall.c, kernel/trap.c and
    kernel/plic.c. *)

From S2P Require Import Prelude BufCache BufSpec KState Log CString Fs Kalloc PipeRing File Sysfile Vm KThread Printf Proc Console Virtio Exec.
Local Open Scope Z_scope.

Section code.
Context {U : Type} `{!UserMem U}.
(** Linker symbols. *)
Context (kend trampoline uservec userret usertrap_addr kernelvec_addr : Z).
(** Uninitialised memory of the kernel stack and of fresh pages, as in Sysfile. *)
Context (junk : Z -> Z) (pad junkname stk : bytes).
(** The device functions of [devsw] in the file system model. *)
Context (dev_rd dev_wr : Z -> option (Z -> Z -> K U Z)).
Local Abbreviation M := (T U).

(** * Arguments, kernel/syscall.c *)

(** Register [a0 + n] saved in the trapframe. *)
Definition trap_argraw (n : Z) : M Z :=
  p ← cur;
  x ← getp p;
  if (0 <=? n) && (n <=? 5) then onmem (vload (p_trapframe x + TF_A0 + 8 * n)) else tpanic "argraw".
Definition trap_argint (n : Z) : M Z := a ← trap_argraw n; mret (i32 a).

(** * kernel/sysproc.c *)

Definition sys_exit : M Z := n ← trap_argint 0; exit (A := unit) n;; mret 0.
Definition sys_getpid : M Z := p ← cur; x ← getp p; mret (p_pid x).
Definition sys_fork : M Z := fork kend trampoline.
Definition sys_wait : M Z := a ← trap_argraw 0; wait kend a.

Definition sys_sbrk : M Z :=
  n ← trap_argint 0;
  p ← cur;
  x ← getp p;
  let addr := p_sz x in
  r ← growproc kend n;
  mret (if r <? 0 then -1 else addr).

Definition sys_sleep : M Z :=
  n ← trap_argint 0;
  let n := if n <? 0 then 0 else n in
  acquire TicksLock;;
  ticks0 ← getg g_ticks;
  loop (fun _ : unit =>
    ticks ← getg g_ticks;
    if u32 (ticks - ticks0) <? n then
      p ← cur;
      k ← killed p;
      if (k : bool) then release TicksLock;; mret (inr (-1))
      else sleep ChTicks TicksLock;; mret (inl tt)
    else release TicksLock;; mret (inr 0)) tt.

Definition sys_kill : M Z := pid ← trap_argint 0; kill pid.

Definition sys_uptime : M Z :=
  acquire TicksLock;;
  xticks ← getg g_ticks;
  release TicksLock;;
  mret xticks.

(** * kernel/syscall.c *)

(** A call of Sysfile.v for the current process. *)
Definition file_call (m : K U Z) : M Z :=
  p ← cur;
  a0 ← trap_argraw 0; a1 ← trap_argraw 1; a2 ← trap_argraw 2;
  onproc p (fun i => if i =? 0 then a0 else if i =? 1 then a1 else a2) m.

(** Is descriptor 0 of the call a console open for reading, or for writing?
    Then [fileread] and [filewrite] call [devsw[CONSOLE]]. *)
Definition console_fd (write : bool) : K U bool :=
  r ← argfd 0;
  match r with
  | None => mret false
  | Some (_, f) =>
      x ← kfile f;
      mret (bool_decide (f_type x = FD_DEVICE) && (f_major x =? CONSOLE) &&
            (if write then f_writable x else f_readable x))
  end.

(** [sys_read] and [sys_write], with the functions of kernel/console.c for the
    console and Sysfile.v for everything else. *)
Definition trap_read : M Z :=
  p ← cur;
  a0 ← trap_argraw 0; addr ← trap_argraw 1; n ← trap_argint 2;
  b ← onproc p (fun _ => a0) (console_fd false);
  if (b : bool) then consoleread true addr n else file_call (sys_read dev_rd).
Definition trap_write : M Z :=
  p ← cur;
  a0 ← trap_argraw 0; addr ← trap_argraw 1; n ← trap_argint 2;
  b ← onproc p (fun _ => a0) (console_fd true);
  if (b : bool) then consolewrite true addr n else file_call (sys_write dev_wr).

(** The table [syscalls[]], indexed by the numbers of kernel/syscall.h. *)
Definition syscalls (num : Z) : option (M Z) :=
  if num =? 1 then Some sys_fork
  else if num =? 2 then Some sys_exit
  else if num =? 3 then Some sys_wait
  else if num =? 4 then Some (file_call (sys_pipe junk))
  else if num =? 5 then Some trap_read
  else if num =? 6 then Some sys_kill
  else if num =? 7 then
    Some (p ← trap_argraw 0; u ← trap_argraw 1; sys_exec kend trampoline junkname p u)
  else if num =? 8 then Some (file_call (sys_fstat pad))
  else if num =? 9 then Some (file_call (sys_chdir junkname))
  else if num =? 10 then Some (file_call sys_dup)
  else if num =? 11 then Some sys_getpid
  else if num =? 12 then Some sys_sbrk
  else if num =? 13 then Some sys_sleep
  else if num =? 14 then Some sys_uptime
  else if num =? 15 then Some (file_call (sys_open junkname stk))
  else if num =? 16 then Some trap_write
  else if num =? 17 then Some (file_call (sys_mknod junkname))
  else if num =? 18 then Some (file_call (sys_unlink junkname))
  else if num =? 19 then Some (file_call (sys_link junkname))
  else if num =? 20 then Some (file_call (sys_mkdir junkname))
  else if num =? 21 then Some (file_call sys_close)
  else if num =? 22 then Some (file_call (sys_symlink junkname))
  else None.

Definition syscall : M unit :=
  p ← cur;
  x ← getp p;
  a7 ← onmem (vload (p_trapframe x + TF_A7));
  let num := i32 a7 in
  match syscalls num with
  | Some call =>
      r ← call;
      x ← getp p;
      onmem (vstore (p_trapframe x + TF_A0) (u64 r))
  | None =>
      printf ("%d %s: unknown sys call %d" ++ newline)
        [VInt (p_pid x); VStr (Some (name_str (p_name x))); VInt num];;
      onmem (vstore (p_trapframe x + TF_A0) (u64 (-1)))
  end.

(** * kernel/trap.c *)

Definition trapinit : M unit := initlock TicksLock.
Definition trapinithart : M unit := ev (WriteReg STVEC kernelvec_addr).

Definition clockintr : M unit :=
  c ← cpuid;
  (if (c =? 0)%nat then
     acquire TicksLock;;
     modg (fun g => set_g_ticks (u32 (g_ticks g + 1)) g);;
     wakeup (Some ChTicks);;
     release TicksLock
   else mret tt);;
  t ← ev (ReadReg TIME);
  ev (WriteReg STIMECMP (u64 (t + 1000000))).

Definition UART0_IRQ : Z := 10.
Definition VIRTIO0_IRQ : Z := 1.

(** kernel/plic.c *)
Definition plic_claim : M Z := cpuid;; irq ← ev (ReadReg PLIC_CLAIM); mret (i32 irq).
Definition plic_complete (irq : Z) : M unit := cpuid;; ev (WriteReg PLIC_CLAIM irq).

Definition devintr : M Z :=
  scause ← ev (ReadReg SCAUSE);
  if scause =? 0x8000000000000009 then
    irq ← plic_claim;
    (if irq =? UART0_IRQ then uartintr
     else if irq =? VIRTIO0_IRQ then virtio_disk_intr
     else if negb (irq =? 0) then
       printf ("unexpected interrupt irq=%d" ++ newline) [VInt irq]
     else mret tt);;
    (if negb (irq =? 0) then plic_complete irq else mret tt);;
    mret 1
  else if scause =? 0x8000000000000005 then clockintr;; mret 2
  else mret 0.

(** [spp]: the trap came from supervisor mode. *)
Definition usertrap (spp : bool) : M unit :=
  if spp then tpanic "usertrap: not from user mode" else
  ev (WriteReg STVEC kernelvec_addr);;
  p ← cur;
  x ← getp p;
  epc ← ev (ReadReg SEPC);
  onmem (vstore (p_trapframe x + TF_EPC) epc);;
  scause ← ev (ReadReg SCAUSE);
  which_dev ←
    (if scause =? 8 then
       k ← killed p;
       (if (k : bool) then exit (-1) else mret tt);;
       x ← getp p;
       e ← onmem (vload (p_trapframe x + TF_EPC));
       onmem (vstore (p_trapframe x + TF_EPC) (u64 (e + 4)));;
       ev IntrOn;;
       syscall;;
       mret 0
     else
       d ← devintr;
       (if negb (d =? 0) then mret tt
        else
          scause ← ev (ReadReg SCAUSE);
          x ← getp p;
          printf ("usertrap(): unexpected scause 0x%lx pid=%d" ++ newline) [VInt scause; VInt (p_pid x)];;
          sepc ← ev (ReadReg SEPC);
          stval ← ev (ReadReg STVAL);
          printf ("            sepc=0x%lx stval=0x%lx" ++ newline) [VInt sepc; VInt stval];;
          setkilled p);;
       mret d);
  k ← killed p;
  (if (k : bool) then exit (-1) else mret tt);;
  (if which_dev =? 2 then yield else mret tt);;
  usertrapret trampoline uservec usertrap_addr.

(** [spp]: the trap came from supervisor mode. *)
Definition kerneltrap (spp : bool) : M unit :=
  sepc ← ev (ReadReg SEPC);
  sstatus ← ev (ReadReg SSTATUS);
  scause ← ev (ReadReg SCAUSE);
  if negb spp then tpanic "kerneltrap: not from supervisor mode" else
  i ← ev IntrGet;
  if (i : bool) then tpanic "kerneltrap: interrupts enabled" else
  which_dev ← devintr;
  (if which_dev =? 0 then
     sepc ← ev (ReadReg SEPC);
     stval ← ev (ReadReg STVAL);
     printf ("scause=0x%lx sepc=0x%lx stval=0x%lx" ++ newline) [VInt scause; VInt sepc; VInt stval];;
     tpanic "kerneltrap"
   else mret tt);;
  (if which_dev =? 2 then
     p ← myproc;
     match p with Some _ => yield | None => mret tt end
   else mret tt);;
  ev (WriteReg SEPC sepc);;
  ev (WriteReg SSTATUS sstatus).

(** An interrupt taken in the kernel: the hardware turns interrupts off,
    kernelvec.S calls [kerneltrap], [sret] turns them on again. *)
Definition kernelvec : M unit :=
  ev IntrOff;;
  kerneltrap true;;
  ev IntrOn.

(** Process [p] may also read or write a block: [work p n] is the buffer, the
    block and the direction of the transfer it makes after its [n]th trap.  The
    file system code, one access here, leaves these calls of the driver out. *)
Context (work : nat -> nat -> option (Z * Z * bool)).
Definition transfer (n : nat) : M unit :=
  p ← cur;
  match work p n with
  | Some (b, blockno, write) => virtio_disk_rw b blockno write
  | None => mret tt
  end.

(** A process: [forkret], then user code and the traps it takes, forever. *)
Definition entry : M unit :=
  forkret trampoline uservec usertrap_addr;;
  loop (fun n => ev User;; usertrap false;; transfer n;; mret (inl (S n))) 0%nat.
End code.
