(* ===== verification/Boot.v ===== *)
(** The boot: kernel/start.c, kernel/main.c and the initialisation functions it
    calls, [virtio_disk_init], [plicinit], [kvminit] and [printfinit]. *)

From S2P Require Import Prelude BufCache BufSpec KState Log CString Fs Kalloc PipeRing File Sysfile Vm KThread Printf Proc Console Virtio Exec Trap.
Local Open Scope Z_scope.

(** Control registers, kernel/riscv.h. *)
Definition MSTATUS_MPP_MASK : Z := Z.shiftl 3 11.
Definition MSTATUS_MPP_S : Z := Z.shiftl 1 11.
Definition SIE_SEIE : Z := Z.shiftl 1 9.
Definition SIE_STIE : Z := Z.shiftl 1 5.
Definition SIE_SSIE : Z := Z.shiftl 1 1.
Definition MIE_STIE : Z := Z.shiftl 1 5.

(** The device's registers and bits, kernel/virtio.h. *)
Definition VIRTIO_MMIO_MAGIC_VALUE : Z := 0x000.
Definition VIRTIO_MMIO_VERSION : Z := 0x004.
Definition VIRTIO_MMIO_DEVICE_ID : Z := 0x008.
Definition VIRTIO_MMIO_VENDOR_ID : Z := 0x00c.
Definition VIRTIO_MMIO_DEVICE_FEATURES : Z := 0x010.
Definition VIRTIO_MMIO_DRIVER_FEATURES : Z := 0x020.
Definition VIRTIO_MMIO_QUEUE_SEL : Z := 0x030.
Definition VIRTIO_MMIO_QUEUE_NUM_MAX : Z := 0x034.
Definition VIRTIO_MMIO_QUEUE_NUM : Z := 0x038.
Definition VIRTIO_MMIO_QUEUE_READY : Z := 0x044.
Definition VIRTIO_MMIO_STATUS : Z := 0x070.
Definition VIRTIO_MMIO_QUEUE_DESC_LOW : Z := 0x080.
Definition VIRTIO_MMIO_QUEUE_DESC_HIGH : Z := 0x084.
Definition VIRTIO_MMIO_DRIVER_DESC_LOW : Z := 0x090.
Definition VIRTIO_MMIO_DRIVER_DESC_HIGH : Z := 0x094.
Definition VIRTIO_MMIO_DEVICE_DESC_LOW : Z := 0x0a0.
Definition VIRTIO_MMIO_DEVICE_DESC_HIGH : Z := 0x0a4.
Definition VIRTIO_CONFIG_S_ACKNOWLEDGE : Z := 1.
Definition VIRTIO_CONFIG_S_DRIVER : Z := 2.
Definition VIRTIO_CONFIG_S_DRIVER_OK : Z := 4.
Definition VIRTIO_CONFIG_S_FEATURES_OK : Z := 8.
(** [VIRTIO_BLK_F_RO], [_SCSI], [_CONFIG_WCE], [_MQ], [VIRTIO_F_ANY_LAYOUT],
    [VIRTIO_RING_F_EVENT_IDX], [VIRTIO_RING_F_INDIRECT_DESC]: not negotiated. *)
Definition refused_features : list Z := [5; 7; 11; 12; 27; 29; 28].

Section code.
Context {U : Type} `{!UserMem U}.
(** Linker symbols. *)
Context (kend etext trampoline kernelvec_addr main_addr : Z).
Context (junkname : bytes).
Local Abbreviation M := (T U).

(** * kernel/start.c *)

Definition timerinit : M unit :=
  mie ← ev (ReadReg MIE);
  ev (WriteReg MIE (Z.lor mie MIE_STIE));;
  cfg ← ev (ReadReg MENVCFG);
  ev (WriteReg MENVCFG (Z.lor cfg (Z.shiftl 1 63)));;
  en ← ev (ReadReg MCOUNTEREN);
  ev (WriteReg MCOUNTEREN (Z.lor en 2));;
  t ← ev (ReadReg TIME);
  ev (WriteReg STIMECMP (u64 (t + 1000000))).

(** What machine mode sets up before [mret] jumps to [main]; the result is the
    hart's number, which [w_tp] keeps for [cpuid]. *)
Definition start : M Z :=
  x ← ev (ReadReg MSTATUS);
  let x := Z.land x (Z.lnot MSTATUS_MPP_MASK) in
  let x := Z.lor x MSTATUS_MPP_S in
  ev (WriteReg MSTATUS x);;
  ev (WriteReg MEPC main_addr);;
  ev (WriteReg SATP 0);;
  ev (WriteReg MEDELEG 0xffff);;
  ev (WriteReg MIDELEG 0xffff);;
  sie ← ev (ReadReg SIE);
  ev (WriteReg SIE (Z.lor (Z.lor (Z.lor sie SIE_SEIE) SIE_STIE) SIE_SSIE));;
  ev (WriteReg PMPADDR0 0x3fffffffffffff);;
  ev (WriteReg PMPCFG0 0xf);;
  timerinit;;
  id ← ev (ReadReg MHARTID);
  mret (i32 id).

(** * Initialisation *)

Definition printfinit : M unit :=
  initlock PrLock;;
  modg (set_g_locking true).

Definition boot_kinit : M unit := onmem (fun s => s ← Kalloc.kinit kend s; Done (tt, s)).

Definition kvminit : M unit :=
  pt ← onmem (kvmmake etext trampoline);
  modg (set_g_kpt pt).
(** [sfence_vma] orders memory accesses. *)
Definition kvminithart : M unit :=
  pt ← getg g_kpt;
  ev (WriteReg SATP (MAKE_SATP pt)).

(** kernel/plic.c *)
Definition plicinit : M unit :=
  ev (WriteReg (PLIC_PRIO UART0_IRQ) 1);;
  ev (WriteReg (PLIC_PRIO VIRTIO0_IRQ) 1).
Definition plicinithart : M unit :=
  hart ← cpuid;
  ev (WriteReg (PLIC_SENABLE hart) (Z.lor (Z.shiftl 1 UART0_IRQ) (Z.shiftl 1 VIRTIO0_IRQ)));;
  ev (WriteReg (PLIC_SPRIORITY hart) 0).

(** [binit], on the specification of the cache: no block is cached. *)
Definition cache_init : M unit := modg (fun g => set_g_fs (g_k g) (boot_abio (a_disk (g_bio g))) g).

(** kernel/virtio_disk.c; the pages of the queue are also the fields [d_desc],
    [d_ring] and [d_avail]. *)
Definition rd (off : Z) : M Z := x ← ev (ReadReg (MMIO off)); mret (u32 x).
Definition wr (off v : Z) : M unit := ev (WriteReg (MMIO off) (u32 v)).

Definition virtio_disk_init : M unit :=
  initlock DiskLock;;
  magic ← rd VIRTIO_MMIO_MAGIC_VALUE;
  if negb (magic =? 0x74726976) then tpanic "could not find virtio disk" else
  version ← rd VIRTIO_MMIO_VERSION;
  if negb (version =? 2) then tpanic "could not find virtio disk" else
  device ← rd VIRTIO_MMIO_DEVICE_ID;
  if negb (device =? 2) then tpanic "could not find virtio disk" else
  vendor ← rd VIRTIO_MMIO_VENDOR_ID;
  if negb (vendor =? 0x554d4551) then tpanic "could not find virtio disk" else
  let status := 0 in
  wr VIRTIO_MMIO_STATUS status;;
  let status := Z.lor status VIRTIO_CONFIG_S_ACKNOWLEDGE in
  wr VIRTIO_MMIO_STATUS status;;
  let status := Z.lor status VIRTIO_CONFIG_S_DRIVER in
  wr VIRTIO_MMIO_STATUS status;;
  features ← rd VIRTIO_MMIO_DEVICE_FEATURES;
  let features := foldl (fun f b => Z.land f (Z.lnot (Z.shiftl 1 b))) features refused_features in
  wr VIRTIO_MMIO_DRIVER_FEATURES features;;
  let status := Z.lor status VIRTIO_CONFIG_S_FEATURES_OK in
  wr VIRTIO_MMIO_STATUS status;;
  status ← rd VIRTIO_MMIO_STATUS;
  if Z.land status VIRTIO_CONFIG_S_FEATURES_OK =? 0 then tpanic "virtio disk FEATURES_OK unset" else
  wr VIRTIO_MMIO_QUEUE_SEL 0;;
  ready ← rd VIRTIO_MMIO_QUEUE_READY;
  if negb (ready =? 0) then tpanic "virtio disk should not be ready" else
  max ← rd VIRTIO_MMIO_QUEUE_NUM_MAX;
  if max =? 0 then tpanic "virtio disk has no queue 0" else
  if max <? NUM then tpanic "virtio disk max queue too short" else
  desc ← onmem vkalloc;
  avail ← onmem vkalloc;
  used ← onmem vkalloc;
  if (desc =? 0) || (avail =? 0) || (used =? 0) then tpanic "virtio disk kalloc" else
  onmem (vmemset desc 0 PGSIZE);;
  moddisk (set_d_desc (fun _ => VDesc VNull 0 0 0));;
  onmem (vmemset avail 0 PGSIZE);;
  moddisk (fun d => set_d_avail 0 (set_d_ring (fun _ => 0) d));;
  onmem (vmemset used 0 PGSIZE);;
  wr VIRTIO_MMIO_QUEUE_NUM NUM;;
  wr VIRTIO_MMIO_QUEUE_DESC_LOW desc;;
  wr VIRTIO_MMIO_QUEUE_DESC_HIGH (Z.shiftr desc 32);;
  wr VIRTIO_MMIO_DRIVER_DESC_LOW avail;;
  wr VIRTIO_MMIO_DRIVER_DESC_HIGH (Z.shiftr avail 32);;
  wr VIRTIO_MMIO_DEVICE_DESC_LOW used;;
  wr VIRTIO_MMIO_DEVICE_DESC_HIGH (Z.shiftr used 32);;
  wr VIRTIO_MMIO_QUEUE_READY 0x1;;
  tfor (seqZ 0 NUM) (fun i => setfree i true);;
  let status := Z.lor status VIRTIO_CONFIG_S_DRIVER_OK in
  wr VIRTIO_MMIO_STATUS status.

(** * kernel/main.c *)

(** The branch of CPU 0, up to [started = 1]; [fileinit] only creates a lock of
    the file system code. *)
Definition boot : M unit :=
  consoleinit;;
  printfinit;;
  printf newline [];;
  printf ("xv6 kernel is booting" ++ newline) [];;
  printf newline [];;
  boot_kinit;;
  kvminit;;
  kvminithart;;
  procinit;;
  trapinit;;
  trapinithart kernelvec_addr;;
  plicinit;;
  plicinithart;;
  cache_init;;
  onfs iinit;;
  virtio_disk_init;;
  userinit kend trampoline junkname.

(** [while(started == 0) ;] *)
Definition poll_started (_ : unit) : M (unit + unit) :=
  b ← getg g_started; mret (if (b : bool) then inr tt else inl tt).

(** The branch of the other CPUs, once CPU 0 has set [started]. *)
Definition start_hart : M unit :=
  c ← cpuid;
  printf ("hart %d starting" ++ newline) [VInt (Z.of_nat c)];;
  kvminithart;;
  trapinithart kernelvec_addr;;
  plicinithart.

Definition main : M unit :=
  c ← cpuid;
  (if (c =? 0)%nat then
     boot;;
     modg (set_g_started true)
   else
     loop poll_started tt;;
     start_hart);;
  scheduler.

(** Where a CPU other than 0 may be while it waits: at the start of [main], at
    the head of its loop, and about to read [started]. *)
Definition hart_ready (_ : unit) : M unit := start_hart;; scheduler.
Definition hart_wait : M unit := TIter poll_started tt hart_ready.
Definition hart_poll : M unit :=
  tbind (fun r => match r with inl j => TIter poll_started j hart_ready | inr r => hart_ready r end) (poll_started tt).
Definition waiting (m : M unit) : Prop := m = main \/ m = hart_wait \/ m = hart_poll.
End code.
