(* ===== verification/KLogic.v ===== *)
(** A program logic for kernel threads that run concurrently on several CPUs.

    A thread is verified alone, against what it may assume of the others: its
    [view].  A view records the CPU the thread runs on and that CPU's
    [struct cpu], the spin locks the thread holds, and, when it holds the lock of
    a process, that process's state.  [vstep] gives, for every access, what it
    requires of the view and what it leaves in it; [twp] lifts it to programs.
    Locks have ranks and are taken in increasing order.  KInv.v proves that
    threads verified this way are safe in every interleaving. *)

From S2P Require Import Prelude BufCache BufSpec KState CString Kalloc Vm KThread.
Local Open Scope Z_scope.

(** * Views *)

(** What a process's kernel thread is, to the others: not there, saved in its
    context and ready to be resumed, or executing on some CPU. *)
Inductive phase := Absent | Saved | Live.
#[export] Instance phase_eq_dec : EqDecision phase.
Proof. solve_decision. Defined.

(** The invariant of [p->lock]: the state of a process whose lock is free tells
    where its thread is. *)
Definition lock_inv (s : procstate) (ph : phase) : Prop :=
  match s with
  | UNUSED | ZOMBIE => ph <> Live
  | USED | RUNNABLE | SLEEPING => ph = Saved
  | RUNNING => ph = Live
  end.

(** The order in which locks are taken. *)
Definition rank (l : lockid) : nat :=
  match l with PLock _ => 1 | PidLock => 2 | PrLock => 3 | _ => 0 end.

(** [v_half] is a lock whose [locked] is set and whose [cpu] is not; [v_pl] the
    process whose lock is held; [v_mine] the processes the thread is creating. *)
Record view := View {
  v_cpu : nat; v_noff : Z; v_intena : bool; v_sie : bool; v_proc : option nat;
  v_held : list lockid; v_half : option lockid;
  v_pl : option (nat * procstate * phase); v_mine : gset nat;
}.

Definition v_has (v : view) (l : lockid) : Prop := l ∈ v_held v \/ v_half v = Some l.

Definition set_v_sie b v := View (v_cpu v) (v_noff v) (v_intena v) b (v_proc v) (v_held v) (v_half v) (v_pl v) (v_mine v).
Definition set_v_rec (x : cpu) v := View (v_cpu v) (c_noff x) (c_intena x) (v_sie v) (c_proc x) (v_held v) (v_half v) (v_pl v) (v_mine v).
Definition set_v_locks H h v := View (v_cpu v) (v_noff v) (v_intena v) (v_sie v) (v_proc v) H h (v_pl v) (v_mine v).
Definition set_v_pl p v := View (v_cpu v) (v_noff v) (v_intena v) (v_sie v) (v_proc v) (v_held v) (v_half v) p (v_mine v).
Definition set_v_mine M v := View (v_cpu v) (v_noff v) (v_intena v) (v_sie v) (v_proc v) (v_held v) (v_half v) (v_pl v) M.
Definition set_v_place c ia v := View c (v_noff v) ia (v_sie v) (v_proc v) (v_held v) (v_half v) (v_pl v) (v_mine v).

Definition v_rec (v : view) : cpu := Cpu (v_proc v) (v_noff v) (v_intena v).

(** The process a thread belongs to: the scheduler runs without one. *)
Definition proc_of (t : thread) : option nat := match t with KProc p => Some p | KSched _ => None end.

(** Interrupts are on only outside every critical section. *)
Definition calm (t : thread) (v : view) : Prop :=
  v_sie v = true ->
  v_noff v = 0 /\ v_held v = [] /\ v_half v = None /\ v_pl v = None /\ v_proc v = proc_of t.

(** A thread of a process may find itself on another CPU. *)
Definition moves (t : thread) (c c' : nat) : Prop := c' = c \/ exists p, t = KProc p.

(** What an interrupt taken here may change. *)
Definition pre (t : thread) (v v' : view) : Prop :=
  v' = v \/ (v_sie v = true /\ exists c ia, moves t (v_cpu v) c /\ v' = set_v_place c ia v).

Lemma moves_refl t c : moves t c c.
Proof. by left. Qed.
Lemma moves_trans t c c' c'' : moves t c c' -> moves t c' c'' -> moves t c c''.
Proof. unfold moves. naive_solver. Qed.
Lemma pre_refl t v : pre t v v.
Proof. by left. Qed.
Lemma pre_trans t v v' v'' : pre t v v' -> pre t v' v'' -> pre t v v''.
Proof.
  intros [->|(Hs & c & ia & Hm & ->)] H; [done|].
  destruct H as [->|(_ & c' & ia' & Hm' & ->)]; right; split; try done; eauto.
  exists c', ia'. split; [by eapply moves_trans|done].
Qed.
#[export] Hint Resolve moves_refl moves_trans pre_refl : xv6.

(** The view of a process resumed on CPU [c], and of the scheduler when a
    process gives up the CPU. *)
Definition resume_view (p c : nat) (ia : bool) (M : gset nat) : view :=
  View c 1 ia false (Some p) [PLock p] None (Some (p, RUNNING, Live)) M.
Definition back_view (p c : nat) (ia : bool) (s : procstate) (ph : phase) (M : gset nat) : view :=
  View c 1 ia false (Some p) [PLock p] None (Some (p, s, ph)) M.

(** The phase of a process that has just switched to the scheduler. *)
Definition parked (s : procstate) : phase := if decide (s = ZOMBIE) then Absent else Saved.
Definition gave_up (s : procstate) : Prop := s = RUNNABLE \/ s = SLEEPING \/ s = ZOMBIE.

(** The panics of the modelled code that do not concern locks, scheduling or
    the process table: a device that fails, an unknown trap, init exiting, and
    misuse of the disk's descriptors or of a system call number. *)
Definition tolerated : list string :=
  ["init exiting"; "kerneltrap"; "virtio_disk_intr status"; "free_desc 1"; "free_desc 2";
   "argraw"; "loadseg: address should exist"]%string.

(** * The rules of the accesses *)

Section logic.
Context {U : Type}.

Definition locked_view (t : thread) (l : lockid) (v : view) (Q : view -> Prop) : Prop :=
  let v' := set_v_locks (v_held v) (Some l) v in
  match l with
  | PLock i => forall s ph, lock_inv s ph -> (i ∈ v_mine v -> s = USED) -> (t = KProc i -> ph = Live) ->
      Q (set_v_pl (Some (i, s, ph)) v')
  | _ => Q v'
  end.

Definition unlocked_view (l : lockid) (v : view) (Q : view -> Prop) : Prop :=
  let v' := set_v_locks (v_held v) None v in
  match l with
  | PLock i => exists s ph, v_pl v = Some (i, s, ph) /\ lock_inv s ph /\ Q (set_v_pl None v')
  | _ => Q v'
  end.

(** Creating and finishing the creation of process [i]. *)
Definition mine' (i : nat) (s' : procstate) (M : gset nat) : gset nat :=
  if decide (s' = USED) then {[i]} ∪ M else M ∖ {[i]}.

Definition vstep (t : thread) {X} (e : evt U X) : view -> (X -> view -> Prop) -> Prop :=
  match e in evt _ X return view -> (X -> view -> Prop) -> Prop with
  | Tp => fun v Q => Q (v_cpu v) v
  | IntrGet => fun v Q => Q (v_sie v) v
  | IntrOff => fun v Q => Q tt (set_v_sie false v)
  | IntrOn => fun v Q => calm t (set_v_sie true v) /\ Q tt (set_v_sie true v)
  | GetCpu c => fun v Q => c = v_cpu v /\ Q (v_rec v) v
  | ModCpu c f => fun v Q =>
      c = v_cpu v /\ (forall p, t = KProc p -> c_proc (f (v_rec v)) = Some p) /\
      Q tt (set_v_rec (f (v_rec v)) v)
  | LkInit _ => fun v Q => False
  | TestAndSet l => fun v Q =>
      v_sie v = false /\ v_half v = None /\ (forall l', l' ∈ v_held v -> (rank l' < rank l)%nat) /\
      Q true v /\ locked_view t l v (Q false)
  | GetLocked l => fun v Q => forall b, (v_has v l -> b = true) -> Q b v
  | GetLkCpu l => fun v Q =>
      forall o, (l ∈ v_held v -> o = Some (v_cpu v)) -> (l ∉ v_held v -> o <> Some (v_cpu v)) -> Q o v
  | SetLkCpu l o => fun v Q =>
      match o with
      | Some c => v_half v = Some l /\ c = v_cpu v /\ Q tt (set_v_locks (l :: v_held v) None v)
      | None => v_half v = None /\ l ∈ v_held v /\
          Q tt (set_v_locks (filter (fun l' => l' <> l) (v_held v)) (Some l) v)
      end
  | LkRelease l => fun v Q => v_half v = Some l /\ unlocked_view l v (Q tt)
  | GetProc i => fun v Q =>
      forall x, (forall s ph, v_pl v = Some (i, s, ph) -> p_state x = s) -> Q x v
  | ModProc i f => fun v Q =>
      ((forall x, p_state (f x) = p_state x) /\ Q tt v) \/
      (exists s ph s', v_pl v = Some (i, s, ph) /\ PLock i ∈ v_held v /\ (forall x, p_state x = s -> p_state (f x) = s') /\
         (s = USED -> i ∈ v_mine v) /\ Q tt (set_v_mine (mine' i s' (v_mine v)) (set_v_pl (Some (i, s', ph)) v)))
  | GetG _ => fun v Q => forall x, Q x v
  | ModG _ => fun v Q => Q tt v
  | OnMem m => fun v Q => forall x s s', m s = Done (x, s') -> Q x v
  | OnFs _ => fun v Q => forall x, Q x v
  | Swtch from to => fun v Q =>
      v_sie v = false /\ v_noff v = 1 /\ v_half v = None /\ from = t /\
      match from, to with
      | KProc p, KSched c =>
          exists s, c = v_cpu v /\ v_held v = [PLock p] /\ v_pl v = Some (p, s, Live) /\ gave_up s /\
            (s <> ZOMBIE -> forall c' ia, Q tt (resume_view p c' ia (v_mine v)))
      | KSched c, KProc p =>
          c = v_cpu v /\ v_held v = [PLock p] /\ v_pl v = Some (p, RUNNING, Saved) /\ v_proc v = Some p /\
          forall s ia, gave_up s -> Q tt (back_view p c ia s (parked s) (v_mine v))
      | _, _ => False
      end
  | SetCtx i => fun v Q =>
      exists s ph, v_pl v = Some (i, s, ph) /\ ph <> Live /\ Q tt (set_v_pl (Some (i, s, Saved)) v)
  | Panic msg => fun v Q => msg ∈ tolerated
  | ReadReg _ => fun v Q => forall x, Q x v
  | WriteReg _ _ => fun v Q => Q tt v
  | User => fun v Q => Q tt v
  end.

(** * Programs *)

Fixpoint twp (t : thread) {A} (m : T U A) (Q : A -> view -> Prop) (v : view) : Prop :=
  match m with
  | TRet a => Q a v
  | TVis e k => calm t v /\ forall v', pre t v v' -> vstep t e v' (fun x v'' => twp t (k x) Q v'')
  | TIter body i k =>
      calm t v /\ exists J, (forall v', pre t v v' -> J i v') /\
        forall j v1, J j v1 -> twp t (body j) (fun r v2 =>
          match r with
          | inl j' => calm t v2 /\ forall v', pre t v2 v' -> J j' v'
          | inr r => twp t (k r) Q v2
          end) v1
  end.

Lemma vstep_mono t {X} (e : evt U X) v (Q Q' : X -> view -> Prop) :
  (forall x v', Q x v' -> Q' x v') -> vstep t e v Q -> vstep t e v Q'.
Proof.
  intros HQ. destruct e; simpl; unfold locked_view, unlocked_view; try naive_solver.
  - destruct l; naive_solver.
  - destruct o; naive_solver.
  - destruct l; naive_solver.
  - destruct from, to; naive_solver.
Qed.

Lemma twp_mono t {A} (m : T U A) v (Q Q' : A -> view -> Prop) :
  (forall a v', Q a v' -> Q' a v') -> twp t m Q v -> twp t m Q' v.
Proof.
  revert v Q Q'. induction m as [A a|A X e k IH|A I R body IHb i k IH]; intros v Q Q' HQ; simpl.
  - apply HQ.
  - intros [Hc H]. split; [done|]. intros v' Hp. eapply vstep_mono; [|by apply H]. naive_solver.
  - intros [Hc (J & HJ & H)]. split; [done|]. exists J. split; [done|]. intros j v1 H1.
    eapply IHb; [|by apply H]. intros [j'|r] v2; naive_solver.
Qed.

Lemma twp_bind t {A B} (m : T U A) (f : A -> T U B) v (Q : B -> view -> Prop) :
  twp t m (fun a v' => twp t (f a) Q v') v -> twp t (m ≫= f) Q v.
Proof.
  change (m ≫= f) with (tbind f m).
  revert v. induction m as [A a|A X e k IH|A I R body IHb i k IH]; intros v; simpl.
  - done.
  - intros [Hc H]. split; [done|]. intros v' Hp. eapply vstep_mono; [|by apply H]. naive_solver.
  - intros [Hc (J & HJ & H)]. split; [done|]. exists J. split; [done|]. intros j v1 H1.
    eapply twp_mono; [|by apply H]. intros [j'|r] v2; naive_solver.
Qed.

Lemma twp_unbind t {A B} (m : T U A) (f : A -> T U B) v (Q : B -> view -> Prop) :
  twp t (m ≫= f) Q v -> twp t m (fun a v' => twp t (f a) Q v') v.
Proof.
  change (m ≫= f) with (tbind f m).
  revert v. induction m as [A a|A X e k IH|A I R body IHb i k IH]; intros v; simpl.
  - done.
  - intros [Hc H]. split; [done|]. intros v' Hp. eapply vstep_mono; [|by apply H]. naive_solver.
  - intros [Hc (J & HJ & H)]. split; [done|]. exists J. split; [done|]. intros j v1 H1.
    eapply twp_mono; [|by apply H]. intros [j'|r] v2; naive_solver.
Qed.

(** Interrupts leave a thread's view fit for what follows. *)
Lemma twp_pre t {A} (m : T U A) v v' (Q : A -> view -> Prop) :
  (forall a v v', pre t v v' -> Q a v -> Q a v') -> pre t v v' -> twp t m Q v -> twp t m Q v'.
Proof.
  intros HQ Hp. destruct m as [a|X e k|I R body i k]; simpl; [by apply HQ| |].
  - intros [Hc H]. split.
    + destruct Hp as [->|(? & c & ia & _ & ->)]; [done|]. exact Hc.
    + intros v'' Hp'. apply H. by eapply pre_trans.
  - intros [Hc (J & HJ & H)]. split.
    + destruct Hp as [->|(? & c & ia & _ & ->)]; [done|]. exact Hc.
    + exists J. split; [|done]. intros v'' Hp'. apply HJ. by eapply pre_trans.
Qed.

(** One unfolding of a loop. *)
Lemma twp_unfold t {A I R} (body : I -> T U (I + R)) i (k : R -> T U A) v (Q : A -> view -> Prop) :
  twp t (TIter body i k) Q v ->
  twp t (tbind (fun r => match r with inl j => TIter body j k | inr r => k r end) (body i)) Q v.
Proof.
  intros [Hc (J & HJ & H)]. apply (twp_bind t (body i)). eapply twp_mono; [|apply H, HJ, pre_refl].
  intros [j|r] v2; [|done]. intros [Hc2 H2]. split; [done|]. by exists J.
Qed.
End logic.

Arguments twp {U} t {A} m Q v : simpl never.
Arguments tbind {U A B} f m : simpl never.
Arguments ev {U X} e : simpl never.
Arguments loop {U I R} body i : simpl never.
Arguments mbind : simpl never.
Arguments slots : simpl never.
