(* ===== verification/KInv.v ===== *)
(** Verified threads are safe in every interleaving.

    [inv] relates a machine to the views of the threads its CPUs execute; every
    step preserves it when the interrupt handler and the code of new processes
    are verified. *)

From S2P Require Import Prelude BufCache BufSpec KState CString Kalloc Vm KThread KLogic.
Local Open Scope Z_scope.

(** What holds of a view between two accesses. *)
Definition view_wf (v : view) : Prop :=
  (forall l, v_half v = Some l -> l ∉ v_held v) /\
  (forall i, v_has v (PLock i) <-> exists s ph, v_pl v = Some (i, s, ph)).

Section inv.
Context {U : Type}.
Context (kernelvec entry : T U unit).

Definition never {A} : A -> view -> Prop := fun _ _ => False.

(** A lock is held by one CPU's thread, or free. *)
Definition lock_at (V : nat -> view) (l : lockid) (x : spinlock) : Prop :=
  (exists c, v_has (V c) l /\ x = Spinlock true (if decide (l ∈ v_held (V c)) then Some c else None)) \/
  (x = Spinlock false None /\ forall c, ~ v_has (V c) l).

Record inv (m : @mach U) (V : nat -> view) (PH : nat -> phase) (MI : thread -> gset nat) : Prop := {
  i_cur c : match m_cur m c with KSched d => d = c | KProc p => v_proc (V c) = Some p /\ PH p = Live end;
  i_uniq c d p : m_cur m c = KProc p -> m_cur m d = KProc p -> c = d;
  i_live p : PH p = Live -> exists c, m_cur m c = KProc p;
  i_view c : v_cpu (V c) = c /\ s_cpu (m_st m) c = v_rec (V c) /\ s_sie (m_st m) c = v_sie (V c) /\
             v_mine (V c) = MI (m_cur m c);
  i_wf c : view_wf (V c);
  i_twp c : twp (m_cur m c) (m_ctx m (m_cur m c)) never (V c);
  i_lock l : lock_at V l (s_lk (m_st m) l);
  i_excl c d l : v_has (V c) l -> v_has (V d) l -> c = d;
  i_pl c i s ph : v_pl (V c) = Some (i, s, ph) -> p_state (s_proc (m_st m) i) = s /\ PH i = ph;
  i_free i : (forall c, ~ v_has (V c) (PLock i)) -> lock_inv (p_state (s_proc (m_st m) i)) (PH i);
  i_saved p : PH p = Saved -> forall c ia,
    twp (KProc p) (m_ctx m (KProc p)) never (resume_view p c ia (MI (KProc p)));
  i_sched c p : m_cur m c = KProc p -> forall s ia, gave_up s ->
    twp (KSched c) (m_ctx m (KSched c)) never (back_view p c ia s (parked s) (MI (KSched c)));
  i_mine t i : i ∈ MI t -> p_state (s_proc (m_st m) i) = USED;
  i_owner t t' i : i ∈ MI t -> i ∈ MI t' -> t = t';
}.

Lemma cur_inj m V PH MI c d : inv m V PH MI -> m_cur m c = m_cur m d -> c = d.
Proof.
  intros I H. pose proof (i_cur _ _ _ _ I c) as Hc. pose proof (i_cur _ _ _ _ I d) as Hd.
  destruct (m_cur m c) as [p|e] eqn:E; [apply (i_uniq _ _ _ _ I c d p); congruence|].
  rewrite <- H in Hd. congruence.
Qed.

(** The saved contexts of the others are not the one just changed. *)
Lemma saved_ne m V PH MI c p : inv m V PH MI -> PH p = Saved -> m_cur m c <> KProc p.
Proof. intros I H E. pose proof (i_cur _ _ _ _ I c) as Hc. rewrite E in Hc. destruct Hc; congruence. Qed.
Lemma sched_ne m V PH MI c d p : inv m V PH MI -> m_cur m d = KProc p -> m_cur m c <> KSched d.
Proof.
  intros I H E. pose proof (i_cur _ _ _ _ I c) as Hc. rewrite E in Hc. subst. congruence.
Qed.

(** Same locks, same process state. *)
Definition same_locks (v v' : view) : Prop :=
  v_cpu v' = v_cpu v /\ v_held v' = v_held v /\ v_half v' = v_half v /\ v_pl v' = v_pl v /\ v_mine v' = v_mine v.

Lemma v_has_same v v' l : same_locks v v' -> v_has v' l <-> v_has v l.
Proof. unfold same_locks, v_has. intros (_ & -> & -> & _). done. Qed.

Ltac at_cpu c d := destruct (decide (c = d)) as [<-|?];
  [rewrite ?fn_lookup_insert in *|rewrite ?fn_lookup_insert_ne in * by done].

(** A step that changes no lock and no process state. *)
Lemma inv_local m V PH MI c s' (n : T U unit) v' h :
  inv m V PH MI -> same_locks (V c) v' ->
  twp (m_cur m c) n never v' ->
  (forall p, m_cur m c = KProc p -> v_proc v' = Some p) ->
  (forall l, s_lk s' l = s_lk (m_st m) l) -> (forall i, p_state (s_proc s' i) = p_state (s_proc (m_st m) i)) ->
  (forall d, s_cpu s' d = if decide (c = d) then v_rec v' else s_cpu (m_st m) d) ->
  (forall d, s_sie s' d = if decide (c = d) then v_sie v' else s_sie (m_st m) d) ->
  inv (Mach s' (m_cur m) (<[m_cur m c := n]> (m_ctx m)) h) (<[c := v']> V) PH MI.
Proof.
  intros I Hs Hn Hp Hl Hpr Hcpu Hsie. pose proof Hs as (Hvc & Hh & Hf & Hpl & Hmi).
  assert (Hhas : forall d l, v_has (<[c := v']> V d) l <-> v_has (V d) l).
  { intros d l. at_cpu c d; [by apply v_has_same|done]. }
  constructor; simpl.
  - intros d. pose proof (i_cur _ _ _ _ I d) as Hd. at_cpu c d; [|done].
    destruct (m_cur m c) as [p|] eqn:E; [|done]. split; [by apply Hp|apply Hd].
  - apply I.
  - apply I.
  - intros d. rewrite Hcpu, Hsie. pose proof (i_view _ _ _ _ I d) as Hd. at_cpu c d.
    + rewrite Hvc, Hmi. destruct Hd as (? & ? & ? & ?). done.
    + done.
  - intros d. at_cpu c d; [|apply I]. destruct (i_wf _ _ _ _ I c) as [H1 H2].
    unfold view_wf, v_has in *. by rewrite Hh, Hf, Hpl.
  - intros d. at_cpu c d.
    + by rewrite ?fn_lookup_insert.
    + assert (m_cur m c <> m_cur m d) by (intros E; by apply (cur_inj _ _ _ _ _ _ I) in E).
      rewrite !fn_lookup_insert_ne by done. apply I.
  - intros l. rewrite Hl. destruct (i_lock _ _ _ _ I l) as [(d & Hd & Hx)|[Hx Hd]].
    + left. exists d. split; [by apply Hhas|]. rewrite Hx. f_equal.
      at_cpu c d; [|done]. by rewrite Hh.
    + right. split; [done|]. intros d. rewrite Hhas. apply Hd.
  - intros d e l. rewrite !Hhas. apply I.
  - intros d i s ph. rewrite Hpr. intros H. eapply I. at_cpu c d; [by rewrite <- Hpl|done].
  - intros i H. rewrite Hpr. apply I. intros d. rewrite <- Hhas. apply H.
  - intros p Hph d ia. rewrite fn_lookup_insert_ne; [by apply I|]. by eapply saved_ne.
  - intros d p Hd s ia Hg. rewrite fn_lookup_insert_ne; [by eapply I|]. by eapply sched_ne.
  - intros t i. rewrite Hpr. apply I.
  - apply I.
Qed.

(** A change of the locks of one CPU that leaves the process table alone. *)
Lemma inv_locks m V PH MI c s' (n : T U unit) v' h (l : lockid) (x : spinlock) :
  inv m V PH MI ->
  view_wf v' -> v_cpu v' = c -> v_rec v' = v_rec (V c) -> v_sie v' = v_sie (V c) -> v_mine v' = v_mine (V c) ->
  (forall l', l' <> l -> (v_has v' l' <-> v_has (V c) l') /\ (l' ∈ v_held v' <-> l' ∈ v_held (V c))) ->
  (forall d, c <> d -> v_has v' l -> ~ v_has (V d) l) ->
  (forall d, c <> d -> v_has (V d) l -> v_has (V c) l) ->
  (v_has v' l -> x = Spinlock true (if decide (l ∈ v_held v') then Some c else None)) ->
  (~ v_has v' l -> x = Spinlock false None) ->
  (forall i s ph, v_pl v' = Some (i, s, ph) -> p_state (s_proc (m_st m) i) = s /\ PH i = ph) ->
  (forall i, l = PLock i -> ~ v_has v' l -> v_has (V c) l -> lock_inv (p_state (s_proc (m_st m) i)) (PH i)) ->
  twp (m_cur m c) n never v' ->
  s' = upd_lk l x (m_st m) ->
  inv (Mach s' (m_cur m) (<[m_cur m c := n]> (m_ctx m)) h) (<[c := v']> V) PH MI.
Proof.
  intros I Hwf Hvc Hrec Hsie Hmi Hoth Hex Hex' Hx1 Hx2 Hpl Hfree Hn ->.
  assert (Hothd : forall d l', l' <> l -> v_has (<[c := v']> V d) l' <-> v_has (V d) l').
  { intros d l' Hl'. at_cpu c d; [by apply Hoth|done]. }
  constructor; simpl.
  - intros d. pose proof (i_cur _ _ _ _ I d) as Hd. at_cpu c d; [|done].
    destruct (m_cur m c) as [p|] eqn:E; [|done]. split; [|apply Hd].
    destruct Hd as [Hd _]. rewrite <- Hd. unfold v_rec in Hrec. congruence.
  - apply I.
  - apply I.
  - intros d. pose proof (i_view _ _ _ _ I d) as Hd. at_cpu c d; [|done].
    rewrite Hvc, Hrec, Hsie, Hmi. destruct Hd as (? & ? & ? & ?). done.
  - intros d. at_cpu c d; [done|apply I].
  - intros d. at_cpu c d.
    + by rewrite ?fn_lookup_insert.
    + assert (m_cur m c <> m_cur m d) by (intros E; by apply (cur_inj _ _ _ _ _ _ I) in E).
      rewrite !fn_lookup_insert_ne by done. apply I.
  - intros l'. destruct (decide (l = l')) as [<-|Hne].
    + unfold upd_lk. simpl. rewrite fn_lookup_insert. unfold lock_at.
      destruct (decide (v_has v' l)) as [Hv|Hv] eqn:Edec.
      * left. exists c. rewrite fn_lookup_insert. split; [done|by apply Hx1].
      * right. split; [by apply Hx2|]. intros d. at_cpu c d; [done|].
        intros Hd. pose proof (Hex' d ltac:(done) Hd) as Hc.
        by pose proof (i_excl _ _ _ _ I c d l Hc Hd).
    + unfold upd_lk. simpl. rewrite fn_lookup_insert_ne by done.
      destruct (i_lock _ _ _ _ I l') as [(d & Hd & Hx)|[Hx Hd]].
      * left. exists d. split; [by apply Hothd|]. rewrite Hx. f_equal. at_cpu c d; [|done].
        destruct (Hoth l' ltac:(done)) as [_ Hin].
        destruct (decide (l' ∈ v_held (V c))), (decide (l' ∈ v_held v')); tauto.
      * right. split; [done|]. intros d. rewrite Hothd by done. apply Hd.
  - intros d e l' Hd He. destruct (decide (l' = l)) as [->|Hne].
    + at_cpu c d; at_cpu c e; [done|by destruct (Hex e ltac:(done) Hd He)|by destruct (Hex d ltac:(done) He Hd)|exact (i_excl _ _ _ _ I d e l Hd He)].
    + rewrite Hothd in Hd, He by done. exact (i_excl _ _ _ _ I d e l' Hd He).
  - intros d i s ph H. at_cpu c d; [by apply Hpl|by eapply I].
  - intros i H. destruct (decide (l = PLock i)) as [->|Hne].
    + pose proof (H c) as Hc. rewrite fn_lookup_insert in Hc.
      destruct (decide (v_has (V c) (PLock i))) as [Hv|Hv]; [by apply Hfree|].
      apply I. intros d. at_cpu c d; [done|]. intros Hd. by apply Hv, (Hex' d).
    + apply I. intros d. rewrite <- (Hothd d (PLock i)) by done. apply H.
  - intros p Hph d ia. rewrite fn_lookup_insert_ne; [by apply I|]. by eapply saved_ne.
  - intros d p Hd s ia Hg. rewrite fn_lookup_insert_ne; [by eapply I|]. by eapply sched_ne.
  - intros t i. apply I.
  - apply I.
Qed.

(** A change of the state of the process whose lock is held. *)
Lemma inv_state m V PH MI c (n : T U unit) i f s ph s' h :
  inv m V PH MI -> v_pl (V c) = Some (i, s, ph) ->
  (forall x, p_state x = s -> p_state (f x) = s') -> (s = USED -> i ∈ v_mine (V c)) ->
  let M' := mine' i s' (v_mine (V c)) in
  let v' := set_v_mine M' (set_v_pl (Some (i, s', ph)) (V c)) in
  twp (m_cur m c) n never v' ->
  inv (Mach (set_s_proc (<[i := f (s_proc (m_st m) i)]> (s_proc (m_st m))) (m_st m))
        (m_cur m) (<[m_cur m c := n]> (m_ctx m)) h)
      (<[c := v']> V) PH (<[m_cur m c := M']> MI).
Proof.
  intros I Hpl Hf Hmine M' v' Hn.
  destruct (i_pl _ _ _ _ I c i s ph Hpl) as [Hst Hph].
  destruct (i_view _ _ _ _ I c) as (Hvc & Hrec & Hsie & Hmi).
  destruct (i_wf _ _ _ _ I c) as [Hw1 Hw2].
  assert (Hhc : v_has (V c) (PLock i)) by (apply Hw2; eauto).
  assert (Hhas : forall d l, v_has (<[c := v']> V d) l <-> v_has (V d) l).
  { intros d l. at_cpu c d; done. }
  assert (Hcur : forall d, c <> d -> m_cur m c <> m_cur m d).
  { intros d Hd E. by apply (cur_inj _ _ _ _ _ _ I) in E. }
  (* nobody else is creating this process *)
  assert (Hown : forall t, t <> m_cur m c -> i ∉ MI t).
  { intros t Ht Hin. apply Ht, (i_owner _ _ _ _ I t (m_cur m c) i Hin). rewrite <- Hmi.
    apply Hmine. rewrite <- Hst. by eapply (i_mine _ _ _ _ I). }
  constructor; simpl.
  - intros d. pose proof (i_cur _ _ _ _ I d) as Hd. at_cpu c d; done.
  - apply I.
  - apply I.
  - intros d. at_cpu c d; [done|]. destruct (i_view _ _ _ _ I d) as (? & ? & ? & ->).
    pose proof (Hcur d ltac:(done)). by rewrite !fn_lookup_insert_ne by done.
  - intros d. at_cpu c d; [|apply I]. split; [done|]. intros j. unfold v_has in *. simpl.
    rewrite Hw2, Hpl. split; intros (? & ? & ?); simplify_eq; eauto.
  - intros d. at_cpu c d; [done|]. pose proof (Hcur d ltac:(done)).
    rewrite !fn_lookup_insert_ne by done. apply I.
  - intros l. destruct (i_lock _ _ _ _ I l) as [(d & Hd & Hx)|[Hx Hd]].
    + left. exists d. split; [by apply Hhas|]. rewrite Hx. f_equal. at_cpu c d; done.
    + right. split; [done|]. intros d. rewrite Hhas. apply Hd.
  - intros d e l. rewrite !Hhas. apply (i_excl _ _ _ _ I).
  - intros d j s1 ph1 H. at_cpu c d.
    + simpl in H. simplify_eq. rewrite fn_lookup_insert. auto.
    + assert (j <> i).
      { intros ->. assert (c = d); [|done]. eapply (i_excl _ _ _ _ I); [exact Hhc|]. apply (i_wf _ _ _ _ I d). eauto. }
      rewrite fn_lookup_insert_ne by done. exact (i_pl _ _ _ _ I d _ _ _ H).
  - intros j H. assert (j <> i).
    { intros ->. apply (H c). by apply Hhas. }
    rewrite fn_lookup_insert_ne by done. apply (i_free _ _ _ _ I). intros d. rewrite <- Hhas. apply H.
  - intros p Hp d ia. pose proof (saved_ne _ _ _ _ c p I Hp). rewrite !fn_lookup_insert_ne by done.
    by apply (i_saved _ _ _ _ I).
  - intros d p Hd s1 ia Hg. pose proof (sched_ne _ _ _ _ c d p I Hd). rewrite !fn_lookup_insert_ne by done.
    by apply (i_sched _ _ _ _ I d p).
  - intros t j Hj. destruct (decide (m_cur m c = t)) as [<-|Ht].
    + rewrite fn_lookup_insert in Hj. unfold M', mine' in Hj.
      destruct (decide (j = i)) as [->|Hji].
      * rewrite fn_lookup_insert, (Hf _ Hst). destruct (decide (s' = USED)); [done|set_solver].
      * rewrite fn_lookup_insert_ne by done. apply (i_mine _ _ _ _ I (m_cur m c)). rewrite <- Hmi.
        destruct (decide (s' = USED)); set_solver.
    + rewrite fn_lookup_insert_ne in Hj by done. assert (j <> i) by (intros ->; by apply (Hown t)).
      rewrite fn_lookup_insert_ne by done. by apply (i_mine _ _ _ _ I t).
  - assert (Hsub : forall t j, m_cur m c <> t -> j ∈ MI t -> j ∈ M' -> False).
    { intros t j Ht Hj Hj'. unfold M', mine' in Hj'.
      assert (j <> i) by (intros ->; by apply (Hown t)).
      apply Ht, (i_owner _ _ _ _ I _ _ j); [|done]. rewrite <- Hmi.
      destruct (decide (s' = USED)); set_solver. }
    intros t t' j Hj Hj'. destruct (decide (m_cur m c = t)) as [<-|Ht], (decide (m_cur m c = t')) as [<-|Ht']; [done|..];
      rewrite ?fn_lookup_insert in *.
    + rewrite fn_lookup_insert_ne in Hj' by done. by destruct (Hsub t' j).
    + rewrite fn_lookup_insert_ne in Hj by done. by destruct (Hsub t j).
    + rewrite fn_lookup_insert_ne in Hj, Hj' by done. by eapply (i_owner _ _ _ _ I).
Qed.

Hypothesis entry_ok : forall p c ia, twp (KProc p) entry never (resume_view p c ia ∅).

(** A fresh context for the process whose lock is held. *)
Lemma inv_ctx m V PH MI c (n : T U unit) i s ph h :
  inv m V PH MI -> v_pl (V c) = Some (i, s, ph) -> ph <> Live ->
  let v' := set_v_pl (Some (i, s, Saved)) (V c) in
  twp (m_cur m c) n never v' ->
  inv (Mach (m_st m) (m_cur m) (<[m_cur m c := n]> (<[KProc i := entry]> (m_ctx m))) h)
      (<[c := v']> V) (<[i := Saved]> PH) (<[KProc i := ∅]> MI).
Proof.
  intros I Hpl Hnl v' Hn.
  destruct (i_pl _ _ _ _ I c i s ph Hpl) as [Hst Hph].
  destruct (i_wf _ _ _ _ I c) as [Hw1 Hw2].
  assert (Hhc : v_has (V c) (PLock i)) by (apply Hw2; eauto).
  assert (Hhas : forall d l, v_has (<[c := v']> V d) l <-> v_has (V d) l).
  { intros d l. at_cpu c d; done. }
  assert (Hcur : forall d, c <> d -> m_cur m c <> m_cur m d).
  { intros d Hd E. by apply (cur_inj _ _ _ _ _ _ I) in E. }
  assert (Hni : forall d, KProc i <> m_cur m d).
  { intros d E. pose proof (i_cur _ _ _ _ I d) as Hd. rewrite <- E in Hd. destruct Hd. congruence. }
  assert (Hoth : forall d s1 ph1, c <> d -> v_pl (V d) <> Some (i, s1, ph1)).
  { intros d s1 ph1 Hd E. apply Hd, (i_excl _ _ _ _ I c d (PLock i) Hhc). apply (i_wf _ _ _ _ I d). eauto. }
  constructor; simpl.
  - intros d. pose proof (i_cur _ _ _ _ I d) as Hd. pose proof (Hni d) as Hnd.
    destruct (m_cur m d) as [p|]; [|done]. rewrite (fn_lookup_insert_ne PH) by congruence.
    at_cpu c d; done.
  - apply I.
  - intros p. destruct (decide (i = p)) as [<-|]; [by rewrite fn_lookup_insert|].
    rewrite fn_lookup_insert_ne by done. apply I.
  - intros d. rewrite (fn_lookup_insert_ne MI) by done. pose proof (i_view _ _ _ _ I d) as Hd. at_cpu c d; done.
  - intros d. at_cpu c d; [|apply I]. split; [done|]. intros j. unfold v_has in *. simpl.
    rewrite Hw2, Hpl. split; intros (? & ? & ?); simplify_eq; eauto.
  - intros d. at_cpu c d; [done|]. pose proof (Hcur d ltac:(done)). pose proof (Hni d).
    rewrite !fn_lookup_insert_ne by done. apply I.
  - intros l. destruct (i_lock _ _ _ _ I l) as [(d & Hd & Hx)|[Hx Hd]].
    + left. exists d. split; [by apply Hhas|]. rewrite Hx. f_equal. at_cpu c d; done.
    + right. split; [done|]. intros d. rewrite Hhas. apply Hd.
  - intros d e l. rewrite !Hhas. apply (i_excl _ _ _ _ I).
  - intros d j s1 ph1 H. at_cpu c d.
    + simpl in H. simplify_eq. by rewrite fn_lookup_insert.
    + assert (j <> i) by (intros ->; by eapply Hoth).
      rewrite fn_lookup_insert_ne by done. exact (i_pl _ _ _ _ I d _ _ _ H).
  - intros j H. assert (j <> i) by (intros ->; apply (H c); by apply Hhas).
    rewrite fn_lookup_insert_ne by done. apply (i_free _ _ _ _ I). intros d. rewrite <- Hhas. apply H.
  - intros p Hp d ia. pose proof (Hni c). destruct (decide (i = p)) as [<-|Hpi].
    + rewrite fn_lookup_insert_ne by done. rewrite !fn_lookup_insert. apply entry_ok.
    + rewrite (fn_lookup_insert_ne PH) in Hp by done. pose proof (saved_ne _ _ _ _ c p I Hp).
      assert (KProc i <> KProc p) by congruence.
      rewrite !fn_lookup_insert_ne by done. by apply (i_saved _ _ _ _ I).
  - intros d p Hd s1 ia Hg. pose proof (sched_ne _ _ _ _ c d p I Hd).
    rewrite !fn_lookup_insert_ne by done. by apply (i_sched _ _ _ _ I d p).
  - intros t j Hj. destruct (decide (KProc i = t)) as [<-|].
    + rewrite fn_lookup_insert in Hj. set_solver.
    + rewrite fn_lookup_insert_ne in Hj by done. by eapply (i_mine _ _ _ _ I).
  - intros t t' j Hj Hj'. destruct (decide (KProc i = t)) as [<-|].
    { rewrite fn_lookup_insert in Hj. set_solver. }
    destruct (decide (KProc i = t')) as [<-|].
    { rewrite fn_lookup_insert in Hj'. set_solver. }
    rewrite fn_lookup_insert_ne in Hj, Hj' by done. by eapply (i_owner _ _ _ _ I).
Qed.

(** A context switch on CPU [c] with only the lock of [p] held: [p] goes from
    phase [ph] to [ph']. *)
Lemma inv_switch m V PH MI c p to (n : T U unit) s ph ph' v' h :
  inv m V PH MI -> v_held (V c) = [PLock p] -> v_half (V c) = None -> v_pl (V c) = Some (p, s, ph) ->
  v_held v' = [PLock p] -> v_half v' = None -> v_pl v' = Some (p, s, ph') ->
  v_cpu v' = c -> v_rec v' = v_rec (V c) -> v_sie v' = v_sie (V c) -> v_mine v' = MI to ->
  match to with KSched d => d = c | KProc q => q = p /\ v_proc v' = Some p /\ ph' = Live end ->
  (forall d, c <> d -> m_cur m d <> to /\ m_cur m d <> KProc p) ->
  (forall q, q <> p -> m_cur m c <> KProc q) ->
  (ph' = Live -> to = KProc p) -> to <> m_cur m c ->
  twp to (m_ctx m to) never v' ->
  (ph' = Saved -> forall d ia, twp (KProc p) (<[m_cur m c := n]> (m_ctx m) (KProc p)) never (resume_view p d ia (MI (KProc p)))) ->
  (to = KProc p -> forall s ia, gave_up s ->
     twp (KSched c) (<[m_cur m c := n]> (m_ctx m) (KSched c)) never (back_view p c ia s (parked s) (MI (KSched c)))) ->
  inv (Mach (m_st m) (<[c := to]> (m_cur m)) (<[m_cur m c := n]> (m_ctx m)) h)
      (<[c := v']> V) (<[p := ph']> PH) MI.
Proof.
  intros I H1 H2 H3 H4 H5 H6 Hvc Hrec Hsie Hmi Hto Hoth Hcp Hlive Hne Htwp Hsav Hsch.
  destruct (i_pl _ _ _ _ I c p s ph H3) as [Hst Hph].
  assert (Hhc : v_has (V c) (PLock p)) by (left; rewrite H1; set_solver).
  assert (Hhas : forall d l, v_has (<[c := v']> V d) l <-> v_has (V d) l).
  { intros d l. at_cpu c d; [|done]. unfold v_has. by rewrite H1, H2, H4, H5. }
  assert (Hplo : forall d s1 ph1, c <> d -> v_pl (V d) <> Some (p, s1, ph1)).
  { intros d s1 ph1 Hd E. apply Hd, (i_excl _ _ _ _ I c d (PLock p) Hhc). apply (i_wf _ _ _ _ I d). eauto. }
  assert (Hcur : forall d, c <> d -> m_cur m c <> m_cur m d).
  { intros d Hd E. by apply (cur_inj _ _ _ _ _ _ I) in E. }
  constructor; simpl.
  - intros d. pose proof (i_cur _ _ _ _ I d) as Hd. at_cpu c d.
    + destruct to as [q|]; [|done]. destruct Hto as (-> & ? & ->). by rewrite fn_lookup_insert.
    + destruct (Hoth d ltac:(done)) as [_ Hd']. destruct (m_cur m d) as [q|] eqn:E; [|done].
      rewrite !fn_lookup_insert_ne by congruence. done.
  - intros d e q Hd He. at_cpu c d; at_cpu c e; [done| | |by eapply (i_uniq _ _ _ _ I)].
    + destruct (Hoth e ltac:(done)); congruence.
    + destruct (Hoth d ltac:(done)); congruence.
  - intros q Hq. destruct (decide (p = q)) as [<-|Hpq].
    + rewrite fn_lookup_insert in Hq. exists c. rewrite fn_lookup_insert. auto.
    + rewrite fn_lookup_insert_ne in Hq by done. destruct (i_live _ _ _ _ I q Hq) as [d Hd].
      exists d. destruct (decide (c = d)) as [<-|]; [by destruct (Hcp q)|].
      by rewrite fn_lookup_insert_ne by done.
  - intros d. pose proof (i_view _ _ _ _ I d) as Hd. at_cpu c d; [|done].
    rewrite Hrec, Hsie. destruct Hd as (? & ? & ? & ?). done.
  - intros d. at_cpu c d; [|apply I]. unfold view_wf, v_has. rewrite H4, H5, H6. split; [done|].
    intros j. split.
    + intros [Hj|?]; [|done]. apply list_elem_of_singleton in Hj. simplify_eq. eauto.
    + intros (? & ? & ?). simplify_eq. left. set_solver.
  - intros d. at_cpu c d.
    + by rewrite (fn_lookup_insert_ne (m_ctx m)) by done.
    + pose proof (Hcur d ltac:(done)). rewrite !fn_lookup_insert_ne by done. apply I.
  - intros l. destruct (i_lock _ _ _ _ I l) as [(d & Hd & Hx)|[Hx Hd]].
    + left. exists d. split; [by apply Hhas|]. rewrite Hx. f_equal. at_cpu c d; [by rewrite H1, H4|done].
    + right. split; [done|]. intros d. rewrite Hhas. apply Hd.
  - intros d e l. rewrite !Hhas. apply (i_excl _ _ _ _ I).
  - intros d j s1 ph1 H. at_cpu c d.
    + rewrite H6 in H. simplify_eq. by rewrite fn_lookup_insert.
    + assert (j <> p) by (intros ->; by eapply Hplo).
      rewrite fn_lookup_insert_ne by done. exact (i_pl _ _ _ _ I d _ _ _ H).
  - intros j H. assert (j <> p) by (intros ->; apply (H c); by apply Hhas).
    rewrite fn_lookup_insert_ne by done. apply (i_free _ _ _ _ I). intros d. rewrite <- Hhas. apply H.
  - intros q Hq d ia. destruct (decide (p = q)) as [<-|Hpq].
    + rewrite fn_lookup_insert in Hq. by apply Hsav.
    + rewrite (fn_lookup_insert_ne PH) in Hq by done. pose proof (saved_ne _ _ _ _ c q I Hq).
      rewrite fn_lookup_insert_ne by done. by apply (i_saved _ _ _ _ I).
  - intros d q Hd s1 ia Hg. at_cpu c d.
    + subst to. destruct Hto as (-> & _ & _). by apply Hsch.
    + pose proof (sched_ne _ _ _ _ c d q I Hd). rewrite fn_lookup_insert_ne by done.
      by apply (i_sched _ _ _ _ I d q).
  - apply I.
  - apply I.
Qed.

(** * Steps *)

Definition halt_ok (h : option halt) : Prop :=
  match h with Some (HPanic msg) => msg ∈ tolerated | _ => True end.

Definition verified (m : @mach U) : Prop := halt_ok (m_halt m) /\ exists V PH MI, inv m V PH MI.

Lemma inv_halt m V PH MI h : inv m V PH MI -> inv (Mach (m_st m) (m_cur m) (m_ctx m) h) V PH MI.
Proof. intros I. constructor; apply I. Qed.

Lemma same_locks_refl v : same_locks v v.
Proof. done. Qed.

(** [inv_local] when only the rest of the state changes. *)
Lemma inv_glob m V PH MI c s' (n : T U unit) h :
  inv m V PH MI -> twp (m_cur m c) n never (V c) ->
  (forall l, s_lk s' l = s_lk (m_st m) l) -> (forall i, p_state (s_proc s' i) = p_state (s_proc (m_st m) i)) ->
  s_cpu s' = s_cpu (m_st m) -> s_sie s' = s_sie (m_st m) ->
  inv (Mach s' (m_cur m) (<[m_cur m c := n]> (m_ctx m)) h) (<[c := V c]> V) PH MI.
Proof.
  intros I Hn Hl Hp Hc Hs. destruct (i_view _ _ _ _ I c) as (_ & Hrec & Hsie & _).
  apply inv_local; try done.
  - intros p E. pose proof (i_cur _ _ _ _ I c) as Hcu. rewrite E in Hcu. apply Hcu.
  - intros d. rewrite Hc. destruct (decide (c = d)); congruence.
  - intros d. rewrite Hs. destruct (decide (c = d)); congruence.
Qed.

Lemma mexec_tas m V PH MI c l (k : bool -> T U unit) :
  inv m V PH MI -> m_ctx m (m_cur m c) = TVis (TestAndSet l) k ->
  vstep (U := U) (m_cur m c) (TestAndSet l) (V c) (fun x v => twp (m_cur m c) (k x) never v) ->
  verified (Mach (upd_lk l (Spinlock true (l_cpu (s_lk (m_st m) l))) (m_st m)) (m_cur m)
              (<[m_cur m c := k (l_locked (s_lk (m_st m) l))]> (m_ctx m)) None).
Proof.
  intros I E (Hs & Hhalf & Hrank & Hfail & Hok). split; [done|].
  destruct (i_wf _ _ _ _ I c) as [Hw1 Hw2]. destruct (i_view _ _ _ _ I c) as (Hvc & _ & _ & Hmi).
  destruct (i_lock _ _ _ _ I l) as [(d & Hd & Hx)|[Hx Hd]].
  - eexists _, PH, MI. rewrite Hx. simpl. apply (inv_glob m V PH MI c); try done.
    simpl. intros l'. destruct (decide (l = l')) as [<-|].
    + by rewrite fn_lookup_insert.
    + by rewrite fn_lookup_insert_ne.
  - rewrite Hx. simpl.
    assert (Hl : l ∉ v_held (V c)) by (intros Hin; apply (Hd c); by left).
    assert (Hnpl : forall i s ph, l = PLock i -> v_pl (V c) <> Some (i, s, ph)).
    { intros i s ph -> Hpl. apply (Hd c), Hw2. eauto. }
    assert (Hnone : forall i, l = PLock i -> v_pl (V c) = None).
    { intros i ->. destruct (v_pl (V c)) as [[[j s] ph]|] eqn:Hpl; [|done].
      assert (Hj : v_has (V c) (PLock j)) by (apply Hw2; eauto).
      destruct Hj as [Hj|Hj]; [apply Hrank in Hj; simpl in Hj; lia|congruence]. }
    set (v0 := set_v_locks (v_held (V c)) (Some l) (V c)).
    assert (exists pl, let v' := set_v_pl pl v0 in twp (m_cur m c) (k false) never v' /\
      (forall i, l = PLock i -> exists s ph, pl = Some (i, s, ph) /\ p_state (s_proc (m_st m) i) = s /\ PH i = ph) /\
      ((forall i, l <> PLock i) -> pl = v_pl (V c))) as (pl & Hn & Hpl1 & Hpl2).
    { unfold locked_view in Hok. fold v0 in Hok. destruct l as [i| | | | | | |];
        [|exists (v_pl (V c)); split; [exact Hok|split; [congruence|done]]..].
      exists (Some (i, p_state (s_proc (m_st m) i), PH i)). split; [|split].
      - apply Hok.
        + by apply (i_free _ _ _ _ I).
        + intros Hin. rewrite Hmi in Hin. by eapply (i_mine _ _ _ _ I).
        + intros Et. pose proof (i_cur _ _ _ _ I c) as Hcu. rewrite Et in Hcu. apply Hcu.
      - intros j Hj. simplify_eq. eauto.
      - intros Hj. by destruct (Hj i). }
    eexists _, PH, MI. eapply (inv_locks m V PH MI c _ _ (set_v_pl pl v0) _ l (Spinlock true None)); try done.
    + split; simpl.
      * intros l' ?. by simplify_eq.
      * intros i. unfold v_has. simpl. destruct (decide (l = PLock i)) as [->|Hne].
        { destruct (Hpl1 i eq_refl) as (s & ph & -> & _). split; [eauto|by right]. }
        assert (pl = v_pl (V c) \/ exists j s ph, l = PLock j /\ pl = Some (j, s, ph) /\ v_pl (V c) = None) as [->|(j & s & ph & -> & -> & Hz)].
        { destruct l as [j| | | | | | |]; [right|left; apply Hpl2; congruence..].
          destruct (Hpl1 j eq_refl) as (s & ph & -> & _). exists j, s, ph. eauto. }
        -- rewrite <- Hw2. unfold v_has. rewrite Hhalf. split; intros [?|?]; (by left) || congruence.
        -- assert (~ exists s0 ph0, v_pl (V c) = Some (i, s0, ph0)) as Hn0 by (rewrite Hz; naive_solver).
           rewrite <- Hw2 in Hn0. unfold v_has in Hn0. split; [|intros (? & ? & ?); congruence].
           intros [?|?]; [exfalso; auto|congruence].
    + intros l' Hl'. unfold v_has. simpl. rewrite Hhalf. split; [|done].
      split; intros [?|?]; (by left) || congruence.
    + intros d _ Hd'. by destruct (Hd d).
    + intros _. simpl. by rewrite decide_False by done.
    + intros Hno. destruct Hno. by right.
    + intros i s ph Hi. simpl in Hi. destruct l as [j| | | | | | |];
        try (rewrite Hpl2 in Hi by congruence; exact (i_pl _ _ _ _ I c _ _ _ Hi)).
      destruct (Hpl1 j eq_refl) as (? & ? & ? & ?). by simplify_eq.
    + intros i -> Hno. destruct Hno. by right.
Qed.

(** The lock a CPU has taken or is releasing. *)
Lemma lock_mine m V PH MI c l :
  inv m V PH MI -> v_has (V c) l ->
  s_lk (m_st m) l = Spinlock true (if decide (l ∈ v_held (V c)) then Some c else None).
Proof.
  intros I H. destruct (i_lock _ _ _ _ I l) as [(d & Hd & Hx)|[Hx Hd]]; [|by destruct (Hd c)].
  by rewrite (i_excl _ _ _ _ I c d l H Hd).
Qed.

Lemma mexec_setcpu m V PH MI c l o (k : unit -> T U unit) :
  inv m V PH MI ->
  vstep (U := U) (m_cur m c) (SetLkCpu l o) (V c) (fun x v => twp (m_cur m c) (k x) never v) ->
  verified (Mach (upd_lk l (Spinlock (l_locked (s_lk (m_st m) l)) o) (m_st m)) (m_cur m)
              (<[m_cur m c := k tt]> (m_ctx m)) None).
Proof.
  intros I H. split; [done|]. destruct (i_wf _ _ _ _ I c) as [Hw1 Hw2].
  destruct (i_view _ _ _ _ I c) as (Hvc & _ & _ & _).
  destruct o as [d|]; simpl in H.
  - destruct H as (Hh & -> & Hn). assert (Hhc : v_has (V c) l) by (by right).
    rewrite (lock_mine _ _ _ _ _ _ I Hhc). simpl.
    set (v' := set_v_locks (l :: v_held (V c)) None (V c)).
    assert (Hhas : forall l', v_has v' l' <-> v_has (V c) l').
    { intros l'. unfold v_has, v'. simpl. rewrite Hh. set_solver. }
    eexists _, PH, MI.
    eapply (inv_locks m V PH MI c _ _ v' _ l (Spinlock true (Some (v_cpu (V c))))); try done.
    + split; [done|]. intros i. rewrite Hhas. apply Hw2.
    + intros l' Hl'. split; [apply Hhas|]. unfold v'. simpl. set_solver.
    + intros d Hd _ Hd'. apply Hd, (i_excl _ _ _ _ I c d l Hhc Hd').
    + intros _. rewrite decide_True; [by rewrite Hvc|]. unfold v'. simpl. set_solver.
    + intros Hno. destruct Hno. by apply Hhas.
    + intros i s ph Hi. exact (i_pl _ _ _ _ I c _ _ _ Hi).
    + intros i -> Hno. destruct Hno. by apply Hhas.
  - destruct H as (Hh & Hin & Hn). assert (Hhc : v_has (V c) l) by (by left).
    rewrite (lock_mine _ _ _ _ _ _ I Hhc). simpl.
    set (v' := set_v_locks (filter (fun l' => l' <> l) (v_held (V c))) (Some l) (V c)).
    assert (Hhas : forall l', v_has v' l' <-> v_has (V c) l').
    { intros l'. unfold v_has, v'. simpl. rewrite Hh, list_elem_of_filter.
      destruct (decide (l' = l)); split; intros [?|?]; naive_solver. }
    eexists _, PH, MI.
    eapply (inv_locks m V PH MI c _ _ v' _ l (Spinlock true None)); try done.
    + split; [|intros i; rewrite Hhas; apply Hw2]. intros l' Hl'. unfold v' in *. simpl in *. simplify_eq.
      rewrite list_elem_of_filter. naive_solver.
    + intros l' Hl'. split; [apply Hhas|]. unfold v'. simpl. rewrite list_elem_of_filter. naive_solver.
    + intros d Hd _ Hd'. apply Hd, (i_excl _ _ _ _ I c d l Hhc Hd').
    + intros _. rewrite decide_False; [done|]. unfold v'. simpl. rewrite list_elem_of_filter. naive_solver.
    + intros Hno. destruct Hno. by apply Hhas.
    + intros i s ph Hi. exact (i_pl _ _ _ _ I c _ _ _ Hi).
    + intros i -> Hno. destruct Hno. by apply Hhas.
Qed.

Lemma mexec_release m V PH MI c l (k : unit -> T U unit) :
  inv m V PH MI ->
  vstep (U := U) (m_cur m c) (LkRelease l) (V c) (fun x v => twp (m_cur m c) (k x) never v) ->
  verified (Mach (upd_lk l (Spinlock false (l_cpu (s_lk (m_st m) l))) (m_st m)) (m_cur m)
              (<[m_cur m c := k tt]> (m_ctx m)) None).
Proof.
  intros I (Hh & H). split; [done|]. destruct (i_wf _ _ _ _ I c) as [Hw1 Hw2].
  destruct (i_view _ _ _ _ I c) as (Hvc & _ & _ & _).
  assert (Hhc : v_has (V c) l) by (by right). pose proof (Hw1 l Hh) as Hnin.
  rewrite (lock_mine _ _ _ _ _ _ I Hhc). simpl. rewrite decide_False by done.
  assert (exists pl, let v' := set_v_pl pl (set_v_locks (v_held (V c)) None (V c)) in
    twp (m_cur m c) (k tt) never v' /\
    (forall i, l = PLock i -> pl = None /\ (exists s ph, v_pl (V c) = Some (i, s, ph)) /\
       lock_inv (p_state (s_proc (m_st m) i)) (PH i)) /\
    ((forall i, l <> PLock i) -> pl = v_pl (V c))) as (pl & Hn & Hp1 & Hp2).
  { unfold unlocked_view in H. destruct l as [i| | | | | | |];
      [|exists (v_pl (V c)); split; [exact H|split; [congruence|done]]..].
    destruct H as (s & ph & Hpl & Hli & Hn). exists None. split; [exact Hn|]. split; [|intros Hx; by destruct (Hx i)].
    intros j ?. simplify_eq. destruct (i_pl _ _ _ _ I c _ _ _ Hpl) as [-> ->]. eauto 10. }
  set (v' := set_v_pl pl (set_v_locks (v_held (V c)) None (V c))) in *.
  assert (Hhas : forall l', v_has v' l' <-> v_has (V c) l' /\ l' <> l).
  { intros l'. unfold v_has, v'. simpl. rewrite Hh. split; [|naive_solver].
    intros [?|?]; [|done]. split; [by left|]. by intros ->. }
  eexists _, PH, MI.
  eapply (inv_locks m V PH MI c _ _ v' _ l (Spinlock false None)); try done.
  - split; [done|]. intros i. rewrite Hhas. unfold v'. simpl. destruct (decide (l = PLock i)) as [->|Hne].
    + destruct (Hp1 i eq_refl) as (-> & _ & _). naive_solver.
    + assert (pl = v_pl (V c) \/ (pl = None /\ exists j s ph, j <> i /\ v_pl (V c) = Some (j, s, ph))) as [->|(-> & j & s & ph & Hji & Hj)].
      { destruct l as [j| | | | | | |]; [right|left; apply Hp2; congruence..].
        destruct (Hp1 j eq_refl) as (-> & (s & ph & Hs) & _). split; [done|]. exists j, s, ph. split; [congruence|done]. }
      * rewrite Hw2. naive_solver.
      * rewrite Hw2, Hj. naive_solver.
  - intros l' Hl'. split; [|done]. rewrite Hhas. tauto.
  - intros d Hd Hno. apply Hhas in Hno. naive_solver.
  - intros Hno. apply Hhas in Hno. naive_solver.
  - intros i s ph Hi. unfold v' in Hi. simpl in Hi. destruct l as [j| | | | | | |];
      try (rewrite Hp2 in Hi by congruence; exact (i_pl _ _ _ _ I c _ _ _ Hi)).
    destruct (Hp1 j eq_refl) as (-> & _). done.
  - intros i -> _ _. by destruct (Hp1 i eq_refl) as (_ & _ & ?).
Qed.

Lemma halted_verified m V PH MI h :
  inv m V PH MI -> halt_ok (Some h) -> verified (Mach (m_st m) (m_cur m) (m_ctx m) (Some h)).
Proof. intros I H. split; [done|]. eexists V, PH, MI. by apply inv_halt. Qed.

Lemma glob_verified m V PH MI c s' (n : T U unit) :
  inv m V PH MI -> twp (m_cur m c) n never (V c) ->
  (forall l, s_lk s' l = s_lk (m_st m) l) -> (forall i, p_state (s_proc s' i) = p_state (s_proc (m_st m) i)) ->
  s_cpu s' = s_cpu (m_st m) -> s_sie s' = s_sie (m_st m) ->
  verified (Mach s' (m_cur m) (<[m_cur m c := n]> (m_ctx m)) None).
Proof. intros I **. split; [done|]. eexists _, PH, MI. by apply (inv_glob m V PH MI c). Qed.

Lemma rec_verified m V PH MI c s' v' (n : T U unit) :
  inv m V PH MI -> twp (m_cur m c) n never v' -> same_locks (V c) v' ->
  (forall p, m_cur m c = KProc p -> v_proc v' = Some p) ->
  s_lk s' = s_lk (m_st m) -> s_proc s' = s_proc (m_st m) ->
  (forall d, s_cpu s' d = if decide (c = d) then v_rec v' else s_cpu (m_st m) d) ->
  (forall d, s_sie s' d = if decide (c = d) then v_sie v' else s_sie (m_st m) d) ->
  verified (Mach s' (m_cur m) (<[m_cur m c := n]> (m_ctx m)) None).
Proof.
  intros I Hn Hs Hp Hl Hpr Hc Hsi. split; [done|]. eexists _, PH, MI.
  apply (inv_local m V PH MI c _ _ v'); try done; intros; by rewrite ?Hl, ?Hpr.
Qed.

(** A process gives the CPU to its scheduler. *)
Lemma mexec_to_sched m V PH MI c p d s (k : T U unit) :
  inv m V PH MI -> m_cur m c = KProc p ->
  v_sie (V c) = false -> v_noff (V c) = 1 -> v_half (V c) = None -> d = v_cpu (V c) ->
  v_held (V c) = [PLock p] -> v_pl (V c) = Some (p, s, Live) -> gave_up s ->
  (s <> ZOMBIE -> forall e ia, twp (KProc p) k never (resume_view p e ia (v_mine (V c)))) ->
  verified (Mach (m_st m) (<[c := KSched d]> (m_cur m)) (<[KProc p := k]> (m_ctx m)) None).
Proof.
  intros I E Hs Hn Hh -> Hheld Hpl Hg Hk. split; [done|].
  destruct (i_view _ _ _ _ I c) as (Hvc & _ & _ & Hmi).
  pose proof (i_cur _ _ _ _ I c) as Hcu. rewrite E in Hcu. destruct Hcu as [Hpr Hlive].
  rewrite Hvc, <- E. eexists _, _, MI.
  eapply (inv_switch m V PH MI c p (KSched c) k s Live (parked s)
            (back_view p c (v_intena (V c)) s (parked s) (MI (KSched c)))); try done.
  - unfold v_rec. simpl. by rewrite Hpr, Hn.
  - intros e He. split; intros Ee.
    + pose proof (i_cur _ _ _ _ I e) as Hce. rewrite Ee in Hce. congruence.
    + by apply He, (i_uniq _ _ _ _ I c e p).
  - congruence.
  - unfold parked. by case_decide.
  - rewrite E. done.
  - by apply (i_sched _ _ _ _ I c p).
  - intros Hsv e ia. rewrite E, fn_lookup_insert, <- E, <- Hmi. rewrite E. apply Hk.
    unfold parked in Hsv. by case_decide.
Qed.

(** The scheduler resumes a process. *)
Lemma mexec_to_proc m V PH MI c p (k : T U unit) :
  inv m V PH MI -> m_cur m c = KSched c ->
  v_sie (V c) = false -> v_noff (V c) = 1 -> v_half (V c) = None ->
  v_held (V c) = [PLock p] -> v_pl (V c) = Some (p, RUNNING, Saved) -> v_proc (V c) = Some p ->
  (forall s ia, gave_up s -> twp (KSched c) k never (back_view p c ia s (parked s) (v_mine (V c)))) ->
  verified (Mach (m_st m) (<[c := KProc p]> (m_cur m)) (<[KSched c := k]> (m_ctx m)) None).
Proof.
  intros I E Hs Hn Hh Hheld Hpl Hpr Hk. split; [done|].
  destruct (i_view _ _ _ _ I c) as (Hvc & _ & _ & Hmi).
  destruct (i_pl _ _ _ _ I c _ _ _ Hpl) as [_ Hsv].
  rewrite <- E. eexists _, _, MI.
  eapply (inv_switch m V PH MI c p (KProc p) k RUNNING Saved Live
            (resume_view p c (v_intena (V c)) (MI (KProc p)))); try done.
  - unfold v_rec. simpl. by rewrite Hpr, Hn.
  - intros e He. split; by eapply saved_ne.
  - congruence.
  - by rewrite E.
  - by apply (i_saved _ _ _ _ I).
  - intros _ s ia Hg. rewrite E, fn_lookup_insert, <- E, <- Hmi. rewrite E. by apply Hk.
Qed.

(** A per-CPU fact after an update at CPU [c]. *)
Ltac cpu_eq c := let d := fresh in intros d; destruct (decide (c = d)) as [<-|];
  rewrite ?fn_lookup_insert, ?fn_lookup_insert_ne by done; first [congruence | eassumption | done].

Lemma mexec_verified o c m : m_halt m = None -> verified m -> verified (mexec entry o c m).
Proof.
  intros Hh [_ (V & PH & MI & I)]. pose proof (i_twp _ _ _ _ I c) as H.
  destruct (i_view _ _ _ _ I c) as (Hvc & Hrec & Hsie & Hmi). pose proof (i_cur _ _ _ _ I c) as Hcu.
  unfold mexec. destruct (m_ctx m (m_cur m c)) as [a|X e k|II R body i k] eqn:E; [done| |].
  2: { rewrite Hh. apply twp_unfold in H. by eapply glob_verified. }
  destruct H as [Hcalm H]. specialize (H _ (pre_refl _ _)).
  assert (Hproc : forall p, m_cur m c = KProc p -> v_proc (V c) = Some p).
  { intros p Ep. rewrite Ep in Hcu. apply Hcu. }
  destruct e; simpl in H |- *; rewrite ?Hh.
  - (* Tp *) rewrite Hvc in H. by eapply glob_verified.
  - (* IntrGet *) rewrite Hsie. by eapply glob_verified.
  - (* IntrOff *) eapply (rec_verified m V PH MI c _ _ _ I H); try done; simpl; cpu_eq c.
  - (* IntrOn *) destruct H as [_ H]. eapply (rec_verified m V PH MI c _ _ _ I H); try done; simpl; cpu_eq c.
  - (* GetCpu *) destruct H as [-> H]. rewrite Hvc, Hrec. by eapply glob_verified.
  - (* ModCpu *) destruct H as (-> & Hp & H). rewrite Hvc.
    eapply (rec_verified m V PH MI c _ _ _ I H); try done; simpl; [|cpu_eq c].
    intros d. destruct (decide (c = d)) as [<-|]; rewrite ?fn_lookup_insert, ?fn_lookup_insert_ne by done; [|done].
    rewrite Hrec. by destruct (f (v_rec (V c))).
  - (* LkInit *) done.
  - (* TestAndSet *) by eapply mexec_tas.
  - (* GetLocked *) eapply glob_verified; [done| |done..]. apply H. intros Hl.
    by rewrite (lock_mine _ _ _ _ _ _ I Hl).
  - (* GetLkCpu *) eapply glob_verified; [done| |done..]. apply H.
    + intros Hl. rewrite (lock_mine _ _ _ _ _ _ I (or_introl Hl)). simpl. by rewrite decide_True, Hvc by done.
    + intros Hl. destruct (i_lock _ _ _ _ I l) as [(d & Hd & ->)|[-> _]]; [|done]. simpl.
      case_decide; [|done]. intros Heq. assert (d = c) as -> by congruence. done.
  - (* SetLkCpu *) by eapply mexec_setcpu.
  - (* LkRelease *) by eapply mexec_release.
  - (* GetProc *) eapply glob_verified; [done| |done..]. apply H. intros s ph Hpl.
    apply (i_pl _ _ _ _ I c i s ph Hpl).
  - (* ModProc *) destruct H as [[Hf H]|(s & ph & s' & Hpl & _ & Hf & Hmine & H)].
    + eapply (glob_verified m V PH MI c); [done..| |done|done].
      intros j. simpl. destruct (decide (i = j)) as [<-|]; [by rewrite fn_lookup_insert|by rewrite fn_lookup_insert_ne].
    + split; [done|]. eexists _, _, _. by eapply (inv_state m V PH MI c (k tt) i f s ph s').
  - (* GetG *) by eapply glob_verified.
  - (* ModG *) by eapply glob_verified.
  - (* OnMem *) destruct (m0 _) as [[x km]| | | |] eqn:Em; try (by eapply halted_verified).
    eapply (glob_verified m V PH MI c); [done|by eapply H|done..].
  - (* OnFs *) destruct (krun _ _ _) as [[[x kk] b]| | | |]; try (by eapply halted_verified).
    + by eapply glob_verified.
    + split; [by rewrite Hh|]. eauto.
  - (* Swtch *) destruct H as (Hs & Hn & Hhalf & -> & H).
    destruct (m_cur m c) as [p|d] eqn:Ec, to as [q|d']; try done.
    + destruct H as (s & Hd & Hheld & Hpl & Hg & H). by eapply (mexec_to_sched m V PH MI c p d' s).
    + destruct H as (Hd & Hheld & Hpl & Hpr & H). rewrite Hcu in *. by eapply (mexec_to_proc m V PH MI c q).
  - (* SetCtx *) destruct H as (s & ph & Hpl & Hnl & H). split; [done|]. eexists _, _, _.
    by eapply (inv_ctx m V PH MI c (k tt) i s ph).
  - (* Panic *) by eapply halted_verified.
  - (* ReadReg *) by eapply glob_verified.
  - (* WriteReg *) by eapply glob_verified.
  - (* User *) by eapply glob_verified.
Qed.

(** An interrupt. *)
Hypothesis kernelvec_ok : forall t v, calm t v -> v_sie v = true -> (forall d, t = KSched d -> v_cpu v = d) ->
  twp t kernelvec (fun _ v' => pre t v v') v.

Lemma mintr_verified c m : s_sie (m_st m) c = true -> m_halt m = None -> verified m -> verified (mintr kernelvec c m).
Proof.
  intros Hs Hh [_ (V & PH & MI & I)]. unfold mintr. rewrite Hh. eapply (glob_verified m V PH MI c); try done.
  destruct (i_view _ _ _ _ I c) as (_ & _ & Hsie & _). pose proof (i_twp _ _ _ _ I c) as H.
  apply twp_bind. eapply twp_mono; [|apply kernelvec_ok; [|congruence|]].
  - intros [] v' Hp. by eapply twp_pre.
  - destruct (m_ctx m (m_cur m c)); simpl in H; [done|apply H..].
  - pose proof (i_cur _ _ _ _ I c) as Hcu. pose proof (i_view _ _ _ _ I c) as (Hvc & _).
    intros d E. rewrite E in Hcu. congruence.
Qed.

Lemma mstep_verified m m' : mstep kernelvec entry m m' -> verified m -> verified m'.
Proof. intros [o c m0 Hh|c m0 Hh Hs] H; [by apply mexec_verified|by apply mintr_verified]. Qed.

Lemma reachable_verified m m' : rtc (mstep kernelvec entry) m m' -> verified m -> verified m'.
Proof. induction 1; eauto using mstep_verified. Qed.
End inv.
