(* ===== verification/KSpec.v ===== *)
(** Specifications of the locking primitives and of the code that uses them,
    in the logic of KLogic.v: the functions of kernel/spinlock.c, and the common
    shape [keeps] of code that returns with the locks it was called with. *)

From S2P Require Import Prelude BufCache BufSpec KState CString Kalloc Vm KThread KLogic.
Local Open Scope Z_scope.

Section spec.
Context {U : Type}.

(** A view between two calls: [n] nested [push_off]s, the locks [H], and [b] the
    interrupt bit to restore when they end. *)
Definition sv (c : nat) (ia b : bool) (pr : option nat) (n : nat) (H : list lockid)
    (pl : option (nat * procstate * phase)) (M : gset nat) : view :=
  View c (Z.of_nat n) (match n with O => ia | _ => b end) (match n with O => b | _ => false end)
       pr H None pl M.

Definition settled (t : thread) (pr : option nat) (n : nat) (H : list lockid)
    (pl : option (nat * procstate * phase)) : Prop :=
  n = 0%nat -> H = [] /\ pl = None /\ pr = proc_of t.

Lemma settled_S t pr n H pl : settled t pr (S n) H pl.
Proof. done. Qed.

Lemma settled_calm t c ia b pr n H pl M : settled t pr n H pl -> calm t (sv c ia b pr n H pl M).
Proof. intros Hs. unfold calm, sv. destruct n; simpl; [|done]. intros _. by destruct Hs as (-> & -> & ->). Qed.

Lemma pre_sv t c ia b pr n H pl M v :
  pre t (sv c ia b pr n H pl M) v -> exists c' ia', moves t c c' /\ v = sv c' ia' b pr n H pl M.
Proof.
  intros [->|(Hs & c' & ia' & Hm & ->)]; [exists c, ia; split; [apply moves_refl|done]|].
  exists c', ia'. split; [done|]. unfold sv in *. by destruct n.
Qed.

Lemma twp_ret t {A} (a : A) Q v : Q a v -> twp (U := U) t (mret a) Q v.
Proof. done. Qed.

(** With interrupts off the view is the thread's own. *)
Lemma twp_off t {X} (e : evt U X) Q v :
  v_sie v = false -> vstep t e v Q -> twp t (ev e) Q v.
Proof.
  intros Hs H. split; [intros ?; congruence|]. intros v' [->|(? & _)]; [done|congruence].
Qed.

Lemma twp_on t {X} (e : evt U X) Q c ia b pr n H pl M :
  settled t pr n H pl ->
  (forall c' ia', moves t c c' -> vstep t e (sv c' ia' b pr n H pl M) Q) ->
  twp t (ev e) Q (sv c ia b pr n H pl M).
Proof.
  intros Hs HQ. split; [by apply settled_calm|]. intros v (c' & ia' & Hm & ->)%pre_sv. by apply HQ.
Qed.

(** * kernel/spinlock.c *)

Lemma twp_push_off t Q c ia b pr n H pl M :
  settled t pr n H pl -> (forall p, t = KProc p -> pr = Some p) ->
  (forall c' ia', moves t c c' -> Q tt (sv c' ia' b pr (S n) H pl M)) ->
  twp t (push_off (U := U)) Q (sv c ia b pr n H pl M).
Proof.
  intros Hs Hp HQ. unfold push_off, mycpu, cpuid.
  apply twp_bind, twp_on; [done|]. intros c1 ia1 Hm1. simpl.
  apply twp_bind, twp_on; [done|]. intros c2 ia2 Hm2. simpl.
  apply twp_bind, twp_off; [done|]. simpl.
  apply twp_bind, twp_off; [done|]. split; [done|]. simpl.
  assert (moves t c c2) by eauto using moves_trans.
  apply twp_bind. destruct n as [|n]; simpl.
  - apply twp_bind, twp_off; [done|]. simpl. apply twp_off; [done|]. simpl. split; [done|]. split; [done|].
    apply twp_bind, twp_off; [done|]. simpl. apply twp_off; [done|]. simpl. split; [done|]. split; [done|].
    by apply (HQ c2 ia2).
  - apply twp_ret.
    apply twp_bind, twp_off; [done|]. simpl. apply twp_off; [done|]. simpl. split; [done|]. split; [done|].
    replace (set_v_rec _ _) with (sv c2 ia2 b pr (S (S n)) H pl M); [by apply HQ|].
    unfold sv, set_v_rec. simpl. f_equal. lia.
Qed.

Lemma twp_pop_off t Q c ia b pr n H pl M :
  settled t pr n H pl -> (forall p, t = KProc p -> pr = Some p) ->
  (forall ia', Q tt (sv c ia' b pr n H pl M)) ->
  twp t (pop_off (U := U)) Q (sv c ia b pr (S n) H pl M).
Proof.
  intros Hs Hp HQ. unfold pop_off, mycpu, cpuid.
  apply twp_bind, twp_off; [done|]. simpl.
  apply twp_bind, twp_off; [done|]. simpl.
  apply twp_bind, twp_off; [done|]. split; [done|]. simpl.
  destruct (Z.ltb_spec (Z.of_nat (S n)) 1); [lia|].
  apply twp_bind, twp_off; [done|]. split; [done|]. split; [done|].
  replace (set_v_rec _ _) with (View c (Z.of_nat n) b false pr H None pl M)
    by (unfold set_v_rec, sv; simpl; f_equal; lia).
  apply twp_bind, twp_off; [done|]. split; [done|]. simpl.
  destruct n as [|n]; simpl.
  - destruct b.
    + apply twp_off; [done|]. split; [|apply (HQ true)].
      apply (settled_calm t c true true pr 0 H pl M Hs).
    + apply (HQ false).
  - apply (HQ ia).
Qed.

Lemma twp_holding_out t l Q c ia b pr n H pl M :
  l ∉ H -> Q false (sv c ia b pr (S n) H pl M) -> twp t (holding (U := U) l) Q (sv c ia b pr (S n) H pl M).
Proof.
  intros Hl HQ. unfold holding, mycpu, cpuid. apply twp_bind, twp_off; [done|]. intros [] _; [|done].
  apply twp_bind, twp_off; [done|]. intros o _ Ho. apply twp_bind, twp_off; [done|]. simpl.
  rewrite bool_decide_eq_false_2; [done|]. by apply Ho.
Qed.

Lemma twp_holding_in t l Q c ia b pr n H pl M :
  l ∈ H -> Q true (sv c ia b pr (S n) H pl M) -> twp t (holding (U := U) l) Q (sv c ia b pr (S n) H pl M).
Proof.
  intros Hl HQ. unfold holding, mycpu, cpuid. apply twp_bind, twp_off; [done|]. intros bb Hb.
  rewrite Hb by (by left).
  apply twp_bind, twp_off; [done|]. intros o Ho _. apply twp_bind, twp_off; [done|]. simpl.
  rewrite bool_decide_eq_true_2; [done|]. by apply Ho.
Qed.

(** What a thread knows of the process whose lock it has just taken. *)
Definition locked (t : thread) (l : lockid) (pl : option (nat * procstate * phase)) (M : gset nat)
    (K : option (nat * procstate * phase) -> Prop) : Prop :=
  match l with
  | PLock i => forall s ph, lock_inv s ph -> (i ∈ M -> s = USED) -> (t = KProc i -> ph = Live) ->
      K (Some (i, s, ph))
  | _ => K pl
  end.
Definition unlocked (l : lockid) (pl : option (nat * procstate * phase)) :=
  match l with PLock _ => None | _ => pl end.
Definition releasable (l : lockid) (pl : option (nat * procstate * phase)) : Prop :=
  match l with PLock i => exists s ph, pl = Some (i, s, ph) /\ lock_inv s ph | _ => True end.

Lemma twp_acquire t l Q c ia b pr n H pl M :
  settled t pr n H pl -> (forall p, t = KProc p -> pr = Some p) ->
  Forall (fun l' => (rank l' < rank l)%nat) H ->
  (forall c' ia', moves t c c' -> locked t l pl M (fun pl' => Q tt (sv c' ia' b pr (S n) (l :: H) pl' M))) ->
  twp t (acquire (U := U) l) Q (sv c ia b pr n H pl M).
Proof.
  intros Hs Hp Hr HQ. rewrite Forall_forall in Hr.
  assert (Hl : l ∉ H) by (intros Hin; apply Hr in Hin; lia).
  unfold acquire, mycpu, cpuid. apply twp_bind, twp_push_off; [done..|]. intros c1 ia1 Hm.
  apply twp_bind, twp_holding_out; [done|]. apply twp_bind. unfold loop.
  specialize (HQ c1 ia1 Hm).
  split; [intros ?; done|].
  exists (fun _ v => v = sv c1 ia1 b pr (S n) H pl M). split; [by intros v' [->|(? & _)]|].
  intros _ v ->. apply twp_bind, twp_off; [done|].
  split; [done|]. split; [done|]. split; [done|]. split.
  - apply twp_ret. split; [done|]. by intros v' [->|(? & _)].
  - assert (Hdone : forall pl', Q tt (sv c1 ia1 b pr (S n) (l :: H) pl' M) ->
      twp t (c ← ev (U := U) Tp; ev (SetLkCpu l (Some c))) Q
        (set_v_pl pl' (set_v_locks H (Some l) (sv c1 ia1 b pr (S n) H pl M)))).
    { intros pl' HQ'. apply twp_bind, twp_off; [done|]. simpl. apply twp_off; [done|]. done. }
    unfold locked_view. destruct l as [i| | | | | | |]; simpl in HQ |- *;
      try (apply twp_ret; by apply (Hdone pl)).
    intros s ph H1 H2 H3. apply twp_ret. apply Hdone. by apply HQ.
Qed.

Lemma twp_release t l H' Q c ia b pr n H pl M :
  l ∈ H -> filter (fun l' => l' <> l) H = H' -> settled t pr n H' (unlocked l pl) ->
  (forall p, t = KProc p -> pr = Some p) -> releasable l pl ->
  (forall ia', Q tt (sv c ia' b pr n H' (unlocked l pl) M)) ->
  twp t (release (U := U) l) Q (sv c ia b pr (S n) H pl M).
Proof.
  intros Hl Hf Hs Hp Hr HQ. unfold release. apply twp_bind, twp_holding_in; [done|]. simpl.
  apply twp_bind, twp_off; [done|]. split; [done|]. split; [done|]. simpl. rewrite Hf.
  apply twp_bind, twp_off; [done|]. split; [done|].
  assert (Hpop : twp t (pop_off (U := U)) Q (sv c ia b pr (S n) H' (unlocked l pl) M)) by (by apply twp_pop_off).
  unfold unlocked_view. destruct l as [i| | | | | | |]; try exact Hpop.
  destruct Hr as (s & ph & -> & Hi). exists s, ph. split; [done|]. split; [done|exact Hpop].
Qed.

(** * Triples *)

(** Where a thread is between two calls, but for its CPU. *)
Record place := Place {
  x_b : bool; x_pr : option nat; x_n : nat; x_H : list lockid;
  x_pl : option (nat * procstate * phase); x_M : gset nat;
}.
Definition at_ (x : place) (c : nat) (ia : bool) : view :=
  sv c ia (x_b x) (x_pr x) (x_n x) (x_H x) (x_pl x) (x_M x).
Definition good (t : thread) (x : place) : Prop :=
  settled t (x_pr x) (x_n x) (x_H x) (x_pl x) /\ (forall p, t = KProc p -> x_pr x = Some p).
(** Schedulers stay on their CPU. *)
Definition on (t : thread) (c : nat) : Prop := forall d, t = KSched d -> c = d.

(** From [x], [m] ends with results and places in [P]. *)
Definition tri (t : thread) (x : place) {A} (m : T U A) (P : A -> place -> Prop) : Prop :=
  good t x -> forall Q c ia, on t c ->
  (forall r y c' ia', P r y -> good t y -> moves t c c' -> on t c' -> Q r (at_ y c' ia')) ->
  twp t m Q (at_ x c ia).
(** Code that returns to the place it was called from, with a result in [R]. *)
Definition keeps t x {A} (m : T U A) (R : A -> Prop) : Prop := tri t x m (fun r y => y = x /\ R r).

Lemma on_moves t c c' : on t c -> moves t c c' -> on t c'.
Proof. intros H [->|[p ->]]; [done|by intros d ?]. Qed.

Lemma tri_ret t x {A} (a : A) (P : A -> place -> Prop) : P a x -> tri t x (mret a) P.
Proof. intros HP Hg Q c ia Ho HQ. apply twp_ret. apply HQ; auto using moves_refl. Qed.

Lemma tri_bind t x {A B} (m : T U A) (f : A -> T U B) (P1 : A -> place -> Prop) (P2 : B -> place -> Prop) :
  tri t x m P1 -> (forall r y, P1 r y -> tri t y (f r) P2) -> tri t x (m ≫= f) P2.
Proof.
  intros H1 H2 Hg Q c ia Ho HQ. apply twp_bind, H1; [done..|]. intros r y c1 ia1 HP Hg1 Hm Ho1.
  apply (H2 r y); try done. intros. apply HQ; eauto using moves_trans.
Qed.

Lemma tri_mono t x {A} (m : T U A) (P P' : A -> place -> Prop) :
  tri t x m P -> (forall r y, P r y -> P' r y) -> tri t x m P'.
Proof. intros H HP Hg Q c ia Ho HQ. apply H; [done..|]. eauto. Qed.

Lemma keeps_bind t x {A B} (m : T U A) (f : A -> T U B) R (P : B -> place -> Prop) :
  keeps t x m R -> (forall r, R r -> tri t x (f r) P) -> tri t x (m ≫= f) P.
Proof. intros H1 H2. eapply tri_bind; [exact H1|]. intros r y [-> HR]. auto. Qed.

Lemma keeps_ret t x {A} (a : A) (R : A -> Prop) : R a -> keeps t x (mret a) R.
Proof. intros. by apply tri_ret. Qed.

Lemma keeps_mono t x {A} (m : T U A) (R R' : A -> Prop) :
  keeps t x m R -> (forall r, R r -> R' r) -> keeps t x m R'.
Proof. intros H HR. eapply tri_mono; [exact H|]. naive_solver. Qed.

(** Accesses that change nothing of the view. *)
Lemma keeps_ev t x {X} (e : evt U X) (R : X -> Prop) :
  (forall v Q, v_pl v = x_pl x -> (forall r, R r -> Q r v) -> vstep t e v Q) -> keeps t x (ev e) R.
Proof.
  intros H [Hs Hg] Q c ia Ho HQ. apply twp_on; [done|]. intros c' ia' Hm. apply H; [done|].
  intros r HR. apply (HQ r x); [done|done|done|]. by eapply on_moves.
Qed.

Lemma keeps_getg t x {X} (f : glob U -> X) : keeps t x (ev (GetG f)) (fun _ => True).
Proof. apply keeps_ev. simpl. auto. Qed.
Lemma keeps_modg t x (f : glob U -> glob U) : keeps t x (ev (ModG f)) (fun _ => True).
Proof. apply keeps_ev. simpl. auto. Qed.
Lemma keeps_onmem t x {X} (m : VM X) : keeps t x (ev (OnMem m)) (fun _ => True).
Proof. apply keeps_ev. simpl. auto. Qed.
(** Undefined behaviour is never continued. *)
Lemma tri_unspec t x {A} (P : A -> place -> Prop) : tri t x (ev (OnMem (fun _ => Unspec))) P.
Proof. intros [Hs Hg] Q c ia Ho HQ. apply twp_on; [done|]. by intros. Qed.
Lemma keeps_onfs t x {X} (m : K U X) : keeps t x (ev (OnFs m)) (fun _ => True).
Proof. apply keeps_ev. simpl. auto. Qed.
Lemma keeps_readreg t x r : keeps t x (ev (ReadReg r)) (fun _ => True).
Proof. apply keeps_ev. simpl. auto. Qed.
Lemma keeps_writereg t x r v : keeps t x (ev (WriteReg r v)) (fun _ => True).
Proof. apply keeps_ev. simpl. auto. Qed.
Lemma keeps_user t x : keeps t x (ev User) (fun _ => True).
Proof. apply keeps_ev. simpl. auto. Qed.
Lemma keeps_getp t x i :
  keeps t x (ev (GetProc i)) (fun r => forall s ph, x_pl x = Some (i, s, ph) -> p_state r = s).
Proof. apply keeps_ev. simpl. intros v Q -> HQ r Hr. auto. Qed.
Lemma keeps_modp t x i f : (forall r, p_state (f r) = p_state r) -> keeps t x (ev (ModProc i f)) (fun _ => True).
Proof. intros Hf. apply keeps_ev. simpl. auto. Qed.
Lemma keeps_cpuid t x : keeps t x cpuid (fun _ => True).
Proof.
  intros [Hs Hg] Q c ia Ho HQ. apply twp_on; [done|]. intros c' ia' Hm. simpl.
  apply (HQ c' x); [done|done|done|]. by eapply on_moves.
Qed.
Lemma tri_panic t x {A} msg (P : A -> place -> Prop) : msg ∈ tolerated -> tri t x (tpanic msg) P.
Proof.
  intros Hm [Hs Hg] Q c ia Ho HQ. split; [by apply settled_calm|]. by intros v' _.
Qed.

Definition set_x_b b x := Place b (x_pr x) (x_n x) (x_H x) (x_pl x) (x_M x).
Definition set_x_n n x := Place (x_b x) (x_pr x) n (x_H x) (x_pl x) (x_M x).
Definition set_x_pl pl M x := Place (x_b x) (x_pr x) (x_n x) (x_H x) pl M.
Definition push (l : lockid) pl x := Place (x_b x) (x_pr x) (S (x_n x)) (l :: x_H x) pl (x_M x).

Lemma tri_intr_on t x : x_n x = 0%nat -> tri t x (ev IntrOn) (fun _ y => y = set_x_b true x).
Proof.
  intros Hn Hg Q c ia Ho HQ. destruct x as [b pr n H pl M]. simpl in Hn. subst n.
  destruct Hg as [Hs Hg]. apply twp_on; [done|]. intros c' ia' Hm. split.
  - by apply (settled_calm t c' ia' true pr 0 H pl M).
  - apply (HQ tt (Place true pr 0 H pl M)); [done|done|done|by eapply on_moves].
Qed.
Lemma tri_intr_off t x : x_n x = 0%nat -> tri t x (ev IntrOff) (fun _ y => y = set_x_b false x).
Proof.
  intros Hn Hg Q c ia Ho HQ. destruct x as [b pr n H pl M]. simpl in Hn. subst n.
  destruct Hg as [Hs Hg]. apply twp_on; [done|]. intros c' ia' Hm. simpl.
  apply (HQ tt (Place false pr 0 H pl M)); [done|done|done|by eapply on_moves].
Qed.
Lemma keeps_intr_get t x : x_b x = false \/ x_n x <> 0%nat -> keeps t x (ev IntrGet) (fun r => r = false).
Proof.
  intros Hb [Hs Hg] Q c ia Ho HQ. apply twp_on; [done|]. intros c' ia' Hm. simpl.
  destruct x as [b pr n H pl M]. simpl in *.
  replace (match n with O => b | S _ => false end) with false by (destruct n; naive_solver).
  apply (HQ false (Place b pr n H pl M)); [done|done|done|by eapply on_moves].
Qed.

Lemma tri_push_off t x : tri t x push_off (fun _ y => y = set_x_n (S (x_n x)) x).
Proof.
  intros [Hs Hg] Q c ia Ho HQ. apply twp_push_off; [done|done|]. intros c' ia' Hm.
  apply (HQ tt (set_x_n (S (x_n x)) x)); [done|done|done|by eapply on_moves].
Qed.
Lemma tri_pop_off t x n : x_n x = S n -> good t (set_x_n n x) -> tri t x pop_off (fun _ y => y = set_x_n n x).
Proof.
  intros Hn [Hs' _] [Hs Hg] Q c ia Ho HQ. destruct x as [b pr n' H pl M]. simpl in *. subst n'.
  apply twp_pop_off; [done|done|]. intros ia'.
  apply (HQ tt (Place b pr n H pl M)); [done|done|apply moves_refl|done].
Qed.

(** What is known of process [i] once its lock is taken. *)
Definition known (t : thread) (l : lockid) (x : place) (pl : option (nat * procstate * phase)) : Prop :=
  match l with
  | PLock i => exists s ph, pl = Some (i, s, ph) /\ lock_inv s ph /\ (i ∈ x_M x -> s = USED) /\ (t = KProc i -> ph = Live)
  | _ => pl = x_pl x
  end.

(** Taking a lock of higher rank than those held. *)
Lemma tri_acquire t x l :
  Forall (fun l' => (rank l' < rank l)%nat) (x_H x) ->
  tri t x (acquire l) (fun _ y => exists pl, y = push l pl x /\ known t l x pl).
Proof.
  intros Hr [Hs Hg] Q c ia Ho HQ. apply twp_acquire; [done|done|done|]. intros c' ia' Hm.
  assert (HQ' : forall pl, known t l x pl ->
    Q tt (sv c' ia' (x_b x) (x_pr x) (S (x_n x)) (l :: x_H x) pl (x_M x))).
  { intros pl HP. apply (HQ tt (push l pl x)); [eauto|done|done|by eapply on_moves]. }
  unfold locked. destruct l; try (by apply HQ'). intros s ph H1 H2 H3. apply HQ'. simpl. eauto 10.
Qed.

Lemma tri_release t x l n H' :
  l ∈ x_H x -> x_n x = S n -> filter (fun l' => l' <> l) (x_H x) = H' -> releasable l (x_pl x) ->
  let y := Place (x_b x) (x_pr x) n H' (unlocked l (x_pl x)) (x_M x) in
  good t y -> tri t x (release l) (fun _ z => z = y).
Proof.
  intros Hl Hn Hf Hr y [Hs' _] [Hs Hg] Q c ia Ho HQ. destruct x as [b pr n' H pl M]. simpl in *. subst n'.
  eapply twp_release; [done|done|done|done|done|]. intros ia'.
  by apply (HQ tt y); [| |apply moves_refl|].
Qed.

(** Releasing the lock taken last. *)
Lemma tri_release_last t x l pl :
  l ∉ x_H x -> releasable l pl -> unlocked l pl = x_pl x -> good t x ->
  tri t (push l pl x) (release l) (fun _ z => z = x).
Proof.
  intros Hl Hr Hu Hg. destruct x as [b pr n H pl0 M]. simpl in *.
  eapply tri_mono; [apply (tri_release t _ l n H); simpl; [set_solver|done| |done|by rewrite Hu]|].
  - rewrite filter_cons_False by naive_solver. apply filter_all, Forall_forall. intros l' Hl' ->. done.
  - simpl. rewrite Hu. done.
Qed.

(** A new state for the process whose lock is held. *)
Lemma tri_state t x i s ph f s' M' :
  x_pl x = Some (i, s, ph) -> PLock i ∈ x_H x -> (forall r, p_state r = s -> p_state (f r) = s') ->
  (s = USED -> i ∈ x_M x) ->
  mine' i s' (x_M x) = M' ->
  tri t x (ev (ModProc i f)) (fun _ y => y = set_x_pl (Some (i, s', ph)) M' x).
Proof.
  intros Hpl HH Hf Hm HM Hg Q c ia Ho HQ. destruct x as [b pr n H pl M]. simpl in *. subst pl.
  destruct Hg as [Hs Hg]. apply twp_on; [done|]. intros c' ia' Hm'. simpl. right.
  exists s, ph, s'. split; [done|]. split; [done|]. split; [done|]. split; [done|]. rewrite HM.
  apply (HQ tt (Place b pr n H (Some (i, s', ph)) M')); [done| |done|by eapply on_moves].
  split; [|done]. intros E. by destruct (Hs E) as (_ & ? & _).
Qed.

(** Loops. *)
Lemma keeps_tfor t x {X} (l : list X) (body : X -> T U unit) :
  (forall a, a ∈ l -> keeps t x (body a) (fun _ => True)) -> keeps t x (tfor l body) (fun _ => True).
Proof.
  induction l as [|a l IH]; intros H; simpl; [by apply keeps_ret|].
  eapply keeps_bind; [apply H; set_solver|]. intros _ _. apply IH. intros. apply H. set_solver.
Qed.

Lemma keeps_tfind t x {X R} (l : list X) (body : X -> T U (option R)) :
  (forall a, a ∈ l -> keeps t x (body a) (fun _ => True)) -> keeps t x (tfind l body) (fun _ => True).
Proof.
  induction l as [|a l IH]; intros H; simpl; [by apply keeps_ret|].
  eapply keeps_bind; [apply H; set_solver|]. intros [v|] _; [by apply keeps_ret|].
  apply IH. intros. apply H. set_solver.
Qed.

Lemma tri_loop t x {I R} (J : I -> place -> Prop) (body : I -> T U (I + R)) i (P : R -> place -> Prop) :
  (forall j y, J j y -> tri t y (body j) (fun r z => match r with inl j' => J j' z | inr r => P r z end)) ->
  J i x -> tri t x (loop body i) P.
Proof.
  intros Hb Hi Hg Q c ia Ho HQ. split; [by apply settled_calm, Hg|].
  exists (fun j v => exists y c' ia', J j y /\ good t y /\ moves t c c' /\ on t c' /\ v = at_ y c' ia'). split.
  - intros v' (c' & ia' & Hm & ->)%pre_sv. exists x, c', ia'. eauto 10 using on_moves.
  - intros j v (y & c1 & ia1 & Hj & Hgy & Hm1 & Ho1 & ->). apply (Hb j y Hj Hgy); [done|].
    intros [j'|r] z c2 ia2 HP Hgz Hm2 Ho2.
    + split; [by apply settled_calm, Hgz|]. intros v' (c' & ia' & Hm & ->)%pre_sv.
      exists z, c', ia'. split; [done|]. split; [done|]. split; [eauto using moves_trans|]. split; [by eapply on_moves|done].
    + apply twp_ret. apply (HQ r z); eauto using moves_trans.
Qed.

Lemma keeps_loop t x {I R} (body : I -> T U (I + R)) i :
  (forall j, keeps t x (body j) (fun _ => True)) -> keeps t x (loop body i) (fun _ => True).
Proof.
  intros H. apply (tri_loop t x (fun _ y => y = x)); [|done]. intros j y ->. eapply tri_mono; [apply H|].
  intros [j'|r] y [-> _]; done.
Qed.
End spec.
