(* ===== verification/ProcSpec.v ===== *)
(** The code of kernel/proc.c, kernel/printf.c, kernel/uart.c, kernel/console.c
    and kernel/virtio_disk.c keeps the locking discipline. *)

From S2P Require Import Prelude BufCache BufSpec KState Log CString Fs Kalloc File Vm KThread Printf Proc Console Virtio KLogic KSpec.
Local Open Scope Z_scope.

Create HintDb kthr.
#[export] Hint Resolve keeps_getg keeps_modg keeps_onmem keeps_onfs keeps_readreg keeps_writereg keeps_user
  keeps_getp keeps_cpuid : kthr.
#[export] Hint Extern 1 (keeps _ _ (ev (ModProc _ _)) _) => (apply keeps_modp; intros []; reflexivity) : kthr.
#[export] Hint Unfold getp modp getg modg onmem onfs mycpu modcons moduart moddisk setfree setdesc setinfo setbusy undefined : kthr.

Section lemmas.
Context {U : Type}.

Lemma keeps_seq t x {A B} (m : T U A) (f : A -> T U B) (R1 : A -> Prop) (R2 : B -> Prop) :
  keeps t x m R1 -> (forall r, R1 r -> keeps t x (f r) R2) -> keeps t x (m ≫= f) R2.
Proof. apply keeps_bind. Qed.

Lemma tri_keeps t x {A} (m : T U A) : keeps t x m (fun _ => True) -> tri t x m (fun _ y => y = x).
Proof. intros H. eapply tri_mono; [exact H|]. by intros r y [-> _]. Qed.

Lemma kseq t x {A B} (m : T U A) (f : A -> T U B) (R : B -> Prop) :
  keeps t x m (fun _ => True) -> (forall r, keeps t x (f r) R) -> keeps t x (m ≫= f) R.
Proof. intros H1 H2. eapply keeps_seq; eauto. Qed.

Lemma keeps_true t x {A} (m : T U A) (R : A -> Prop) : keeps t x m R -> keeps t x m (fun _ => True).
Proof. intros H. by eapply keeps_mono. Qed.

Lemma kbind t x {A B} (m : T U A) (f : A -> T U B) (P : B -> place -> Prop) :
  keeps t x m (fun _ => True) -> (forall r, tri t x (f r) P) -> tri t x (m ≫= f) P.
Proof. intros H1 H2. eapply keeps_bind; eauto. Qed.
End lemmas.

(** Known code. *)
Ltac kleaf := solve [ eauto with kthr | eapply keeps_true; eauto with kthr ].
(** Straight-line code, tests and results. *)
Ltac kp :=
  autounfold with kthr;
  repeat first
    [ apply keeps_ret; exact I
    | kleaf
    | apply kseq; [|intros ?]
    | apply keeps_loop; intros ?
    | apply keeps_tfor; intros ? _
    | apply keeps_tfind; intros ? _
    | match goal with
      | |- keeps _ _ (if decide ?P then _ else _) _ => destruct (decide P)
      | |- keeps _ _ (if ?b then _ else _) _ => destruct b
      | |- keeps _ _ (match ?e with _ => _ end) _ => destruct e
      | |- keeps _ _ (let '(_, _) := ?e in _) _ => destruct e
      end ].

Section proc.
Context {U : Type}.
Local Abbreviation keeps := (keeps (U := U)).
Local Abbreviation tri := (tri (U := U)).
Implicit Types (t : thread) (x : place).

(** * The current process *)

Lemma keeps_myproc t x : keeps t x myproc (fun r => r = x_pr x).
Proof.
  intros [Hs Hg] Q c ia Ho HQ. unfold myproc, mycpu, cpuid.
  apply twp_bind, twp_push_off; [done|done|]. intros c1 ia1 Hm.
  apply twp_bind, twp_off; [done|]. apply twp_bind, twp_off; [done|]. split; [done|].
  apply twp_bind, twp_pop_off; [done|done|]. intros ia2. apply twp_ret.
  apply (HQ (x_pr x) x); [done|done|done|by eapply on_moves].
Qed.

Lemma keeps_cur p x : x_pr x = Some p -> keeps (KProc p) x cur (fun r => r = p).
Proof.
  intros Hp. eapply keeps_bind; [apply keeps_myproc|]. intros r ->. rewrite Hp. by apply keeps_ret.
Qed.


(** * Critical sections *)

(** Every lock held is of rank below [r]. *)
Definition below (r : nat) (x : place) : Prop := Forall (fun l => (rank l < r)%nat) (x_H x).

Lemma below_0 x : x_H x = [] -> forall r, below r x.
Proof. unfold below. by intros ->. Qed.
Lemma below_notin r l x : below r x -> (r <= rank l)%nat -> l ∉ x_H x.
Proof. unfold below. rewrite Forall_forall. intros H Hr Hin. apply H in Hin. lia. Qed.
Lemma below_push r l pl x : below r x -> (rank l < r)%nat -> below r (push l pl x).
Proof. intros H Hr. constructor; done. Qed.
Lemma below_mono r r' x : below r x -> (r <= r')%nat -> below r' x.
Proof. unfold below. rewrite !Forall_forall. intros H Hr l Hl. apply H in Hl. lia. Qed.

Lemma tri_good t x {A} (m : T U A) P : (good t x -> tri t x m P) -> tri t x m P.
Proof. intros H Hg. by apply H. Qed.

(** A critical section on a lock that protects no process. *)
Lemma tri_enter t x l {A} (f : unit -> T U A) P :
  below (rank l) x -> (forall i, l <> PLock i) ->
  (good t x -> tri t (push l (x_pl x) x) (f tt) P) -> tri t x (acquire l ≫= f) P.
Proof.
  intros Hb Hl H. apply tri_good. intros Hg. eapply tri_bind; [by apply tri_acquire|].
  intros [] y (pl & -> & Hk). destruct l as [i| | | | | | |]; simpl in Hk; subst; auto. by destruct (Hl i).
Qed.
Lemma tri_exit t x l {A} (f : unit -> T U A) P :
  good t x -> below (rank l) x -> (forall i, l <> PLock i) ->
  tri t x (f tt) P -> tri t (push l (x_pl x) x) (release l ≫= f) P.
Proof.
  intros Hg Hb Hl H. eapply tri_bind; [apply tri_release_last; [by eapply below_notin|..]|].
  - destruct l as [i| | | | | | |]; try done. by destruct (Hl i).
  - destruct l as [i| | | | | | |]; try done. by destruct (Hl i).
  - done.
  - by intros [] y ->.
Qed.

(** A critical section on the lock of process [i]. *)
Lemma tri_plock t x i {A} (f : unit -> T U A) P :
  below 1 x ->
  (forall s ph, good t x -> lock_inv s ph -> (i ∈ x_M x -> s = USED) -> (t = KProc i -> ph = Live) -> x_pl x = None ->
     tri t (push (PLock i) (Some (i, s, ph)) x) (f tt) P) ->
  x_pl x = None -> tri t x (acquire (PLock i) ≫= f) P.
Proof.
  intros Hb H Hn. apply tri_good. intros Hg. eapply tri_bind; [by apply tri_acquire|].
  intros [] y (pl & -> & s & ph & -> & H1 & H2 & H3). by apply H.
Qed.
Lemma tri_punlock t x i s ph {A} (f : unit -> T U A) P :
  good t x -> below 1 x -> x_pl x = None -> lock_inv s ph ->
  tri t x (f tt) P -> tri t (push (PLock i) (Some (i, s, ph)) x) (release (PLock i) ≫= f) P.
Proof.
  intros Hg Hb Hn Hi H. eapply tri_bind; [apply tri_release_last; [by eapply below_notin|simpl; eauto|done|done]|].
  by intros [] y ->.
Qed.

(** [m;;] at the end of a block is [m;; mret tt]. *)
Lemma tri_tail t x (m : T U unit) P : tri t x (m ≫= mret) P -> tri t x m P.
Proof.
  intros H Hg Q c ia Ho HQ. specialize (H Hg Q c ia Ho HQ). apply twp_unbind in H.
  eapply twp_mono; [|exact H]. by intros [].
Qed.

Lemma tri_setstate t x i s ph s' {A} (f : unit -> T U A) P :
  (i ∈ x_M x -> s = USED) -> s <> USED -> s' <> USED ->
  tri t (push (PLock i) (Some (i, s', ph)) x) (f tt) P ->
  tri t (push (PLock i) (Some (i, s, ph)) x) (modp i (set_p_state s') ≫= f) P.
Proof.
  intros Hm Hs Hs' H. eapply tri_bind; [eapply (tri_state t _ i s ph _ s' (x_M x)); simpl; try done; try (by left)|].
  - unfold mine'. rewrite decide_False by done. set_solver.
  - by intros [] y ->.
Qed.

(** * Output *)

Lemma keeps_hang t x {A} (R : A -> Prop) : keeps t x hang R.
Proof.
  apply (tri_loop t x (fun (_ : unit) y => y = x)); [|done]. intros j y ->. by apply tri_ret.
Qed.

Lemma keeps_uartputc_sync t x c : keeps t x (uartputc_sync c) (fun _ => True).
Proof.
  apply tri_good. intros Hg. eapply tri_bind; [apply tri_push_off|]. intros [] y ->.
  set (y := set_x_n _ x). unfold uartputc_sync.
  eapply keeps_bind; [apply keeps_getg|]. intros p _.
  eapply keeps_bind; [destruct p; [apply keeps_hang|by apply (keeps_ret _ _ _ (fun _ => True))]|]. intros _ _.
  apply kbind; [kp|]. intros _.
  apply kbind; [kp|]. intros _.
  eapply tri_mono; [by apply (tri_pop_off t y (x_n x)); [|destruct x]|].
  intros [] z ->. by destruct x.
Qed.

Lemma keeps_consputc t x c : keeps t x (consputc c) (fun _ => True).
Proof. pose proof keeps_uartputc_sync. unfold consputc. kp. Qed.

Lemma keeps_printf t x fmt ap : below 3 x -> keeps t x (printf fmt ap) (fun _ => True).
Proof.
  intros Hb. pose proof keeps_consputc. unfold printf. eapply keeps_bind; [apply keeps_getg|].
  intros [] _.
  - apply tri_enter; [done|done|]. intros Hg. apply kbind; [kp|]. intros _.
    apply tri_tail, tri_exit; [done..|]. by apply tri_ret.
  - eapply keeps_bind; [by apply (keeps_ret _ _ _ (fun _ => True))|]. intros _ _.
    apply kbind; [kp|]. intros _. by apply keeps_ret.
Qed.

(** * Processes *)

Lemma keeps_allocpid t x : below 2 x -> keeps t x allocpid (fun _ => True).
Proof.
  intros Hb. apply tri_enter; [done|done|]. intros Hg. autounfold with kthr.
  eapply keeps_bind; [kleaf|]. intros pid _. eapply keeps_bind; [kleaf|]. intros _ _.
  apply tri_exit; [done..|]. by apply keeps_ret.
Qed.

Lemma keeps_wakeup t x ch : below 1 x -> x_pl x = None -> keeps t x (wakeup ch) (fun _ => True).
Proof.
  intros Hb Hn. apply keeps_tfor. intros p _. eapply keeps_bind; [apply keeps_myproc|]. intros r _.
  destruct (decide _); [by apply keeps_ret|]. apply tri_plock; [done| |done]. intros s ph Hg Hi Hm _ _.
  eapply keeps_bind; [apply keeps_getp|]. intros y Hy. specialize (Hy s ph eq_refl).
  destruct (decide _) as [[Hs _]|]; simpl.
  - assert (s = SLEEPING) as -> by congruence. apply tri_setstate; [done..|]. apply tri_tail, tri_punlock; [done..|]. by apply tri_ret.
  - eapply keeps_bind; [by apply (keeps_ret _ _ _ (fun _ => True))|]. intros _ _.
    apply tri_tail, tri_punlock; [done..|]. by apply tri_ret.
Qed.

Lemma keeps_kill t x pid : below 1 x -> x_pl x = None -> keeps t x (kill pid) (fun _ => True).
Proof.
  intros Hb Hn. eapply keeps_bind; [|intros r _; by apply keeps_ret]. apply keeps_tfind. intros p _.
  apply tri_plock; [done| |done]. intros s ph Hg Hi Hm _ _. autounfold with kthr.
  eapply keeps_bind; [apply keeps_getp|]. intros y _. destruct (_ =? _).
  - eapply keeps_bind; [kleaf|]. intros _ _. eapply keeps_bind; [apply keeps_getp|]. intros z Hz.
    specialize (Hz s ph eq_refl). destruct (decide _) as [Hs|]; simpl.
    + assert (s = SLEEPING) as -> by congruence. apply tri_setstate; [done..|]. apply tri_punlock; [done..|]. by apply tri_ret.
    + eapply keeps_bind; [by apply (keeps_ret _ _ _ (fun _ => True))|]. intros _ _.
      apply tri_punlock; [done..|]. by apply tri_ret.
  - apply tri_punlock; [done..|]. by apply tri_ret.
Qed.

Lemma keeps_setkilled t x p : below 1 x -> x_pl x = None -> keeps t x (setkilled p) (fun _ => True).
Proof.
  intros Hb Hn. apply tri_plock; [done| |done]. intros s ph Hg Hi Hm _ _. autounfold with kthr.
  eapply keeps_bind; [kleaf|]. intros _ _. apply tri_tail, tri_punlock; [done..|]. by apply tri_ret.
Qed.

Lemma keeps_killed t x p : below 1 x -> x_pl x = None -> keeps t x (killed p) (fun _ => True).
Proof.
  intros Hb Hn. apply tri_plock; [done| |done]. intros s ph Hg Hi Hm _ _. autounfold with kthr.
  eapply keeps_bind; [kleaf|]. intros y _. apply tri_punlock; [done..|]. by apply tri_ret.
Qed.

(** * Scheduling *)

Lemma keeps_sched p x s M :
  x = Place (x_b x) (Some p) 1 [PLock p] (Some (p, s, Live)) M -> gave_up s -> s <> ZOMBIE ->
  tri (KProc p) x sched (fun _ y => y = Place (x_b x) (Some p) 1 [PLock p] (Some (p, RUNNING, Live)) M).
Proof.
  intros Hx Hg Hz. destruct x as [b pr n H pl M0]. simpl in *. simplify_eq.
  eapply keeps_bind; [by apply keeps_cur|]. intros r ->.
  intros [Hs Hgd] Q c ia Ho HQ. unfold mycpu, cpuid.
  apply twp_bind, twp_holding_in; [set_solver|]. simpl.
  apply twp_bind, twp_off; [done|]. simpl.
  apply twp_bind, twp_off; [done|]. split; [done|]. simpl.
  apply twp_bind, twp_off; [done|]. intros y Hy. rewrite (Hy s Live eq_refl).
  rewrite decide_False by (destruct Hg as [->|[->| ->]]; done).
  apply twp_bind, twp_off; [done|]. simpl.
  apply twp_bind, twp_off; [done|]. simpl.
  apply twp_bind, twp_off; [done|]. split; [done|]. simpl.
  apply twp_bind, twp_off; [done|]. simpl.
  apply twp_bind, twp_off; [done|]. simpl.
  split; [done|]. split; [done|]. split; [done|]. split; [done|].
  exists s. split; [done|]. split; [done|]. split; [done|]. split; [done|]. intros _ c' ia'.
  apply twp_bind, twp_off; [done|]. simpl.
  apply twp_off; [done|]. simpl. split; [done|]. split; [done|].
  apply (HQ tt (Place b (Some p) 1 [PLock p] (Some (p, RUNNING, Live)) M) c' ia'); [done|done| |done].
  right. by exists p.
Qed.

Lemma tri_sched_zombie p x M (P : unit -> place -> Prop) :
  x = Place (x_b x) (Some p) 1 [PLock p] (Some (p, ZOMBIE, Live)) M -> tri (KProc p) x sched P.
Proof.
  intros Hx. destruct x as [b pr n H pl M0]. simpl in *. simplify_eq.
  eapply keeps_bind; [by apply keeps_cur|]. intros r ->.
  intros [Hs Hgd] Q c ia Ho HQ. unfold mycpu, cpuid.
  apply twp_bind, twp_holding_in; [set_solver|]. simpl.
  apply twp_bind, twp_off; [done|]. simpl.
  apply twp_bind, twp_off; [done|]. split; [done|]. simpl.
  apply twp_bind, twp_off; [done|]. intros y Hy. rewrite (Hy ZOMBIE Live eq_refl). simpl.
  do 2 (apply twp_bind, twp_off; [done|]; simpl).
  apply twp_bind, twp_off; [done|]. split; [done|]. simpl.
  apply twp_bind, twp_off; [done|]. simpl.
  apply twp_bind, twp_off; [done|]. simpl.
  split; [done|]. split; [done|]. split; [done|]. split; [done|].
  exists ZOMBIE. split; [done|]. split; [done|]. split; [done|]. split; [by right; right|done].
Qed.

(** The thread of process [p] outside critical sections. *)
Definition top (p : nat) (b : bool) (M : gset nat) : place := Place b (Some p) 0 [] None M.

Lemma good_top p b M : good (KProc p) (top p b M).
Proof. split; [done|by intros q [= ->]]. Qed.
Lemma below_top r p b M : below r (top p b M).
Proof. by apply below_0. Qed.

Lemma running s : lock_inv s Live -> s = RUNNING.
Proof. destruct s; simpl; try done. Qed.

Lemma keeps_yield p b M : keeps (KProc p) (top p b M) yield (fun _ => True).
Proof.
  eapply keeps_bind; [by apply keeps_cur|]. intros r ->.
  apply tri_plock; [by apply below_0| |done]. intros s ph Hg Hi Hm Hl _. specialize (Hl eq_refl). subst ph.
  assert (s = RUNNING) as -> by (by apply running).
  apply tri_setstate; [done..|]. unfold push. simpl.
  eapply tri_bind; [by apply (keeps_sched p _ RUNNABLE M); [|left|]|]. intros [] y ->. simpl.
  apply tri_tail. apply (tri_punlock (KProc p) (top p b M)); [apply good_top|apply below_top|done|done|]. by apply tri_ret.
Qed.

(** [sleep(chan, lk)] with only [lk] held. *)
Lemma keeps_sleep p b M ch lk :
  rank lk = 0%nat -> keeps (KProc p) (push lk None (top p b M)) (sleep ch lk) (fun _ => True).
Proof.
  intros Hlk. assert (forall i, lk <> PLock i) as Hne by (by intros i ->).
  eapply keeps_bind; [by apply keeps_cur|]. intros r ->.
  apply tri_plock; [| |done].
  { apply below_push; [by apply below_0|lia]. }
  intros s ph Hg Hi Hm Hl _. specialize (Hl eq_refl). subst ph.
  assert (s = RUNNING) as -> by (by apply running).
  eapply tri_bind.
  { eapply (tri_release _ _ lk 1 [PLock p]); simpl; [set_solver|done| | |].
    - rewrite filter_cons_True by (intros E; symmetry in E; by apply Hne in E). rewrite filter_cons_False by naive_solver. done.
    - by destruct lk.
    - split; [done|by intros q [= ->]]. }
  intros [] y ->. replace (unlocked lk _) with (Some (p, RUNNING, Live)) by (by destruct lk).
  simpl. autounfold with kthr. eapply keeps_bind; [kleaf|]. intros _ _.
  apply (tri_setstate (KProc p) (top p b M)); [done..|]. unfold push. simpl.
  eapply tri_bind; [by apply (keeps_sched p _ SLEEPING M); [|right; left|]|]. intros [] y ->. simpl.
  eapply keeps_bind; [kleaf|]. intros _ _.
  apply (tri_punlock (KProc p) (top p b M)); [apply good_top|apply below_top|done|done|].
  apply tri_tail. apply tri_enter; [by apply below_0|done|]. intros _. by apply tri_ret.
Qed.

(** * Creation and removal *)

Definition with_M (M : gset nat) (x : place) : place := Place (x_b x) (x_pr x) (x_n x) (x_H x) (x_pl x) M.

Lemma tri_freeproc kend t x i s ph :
  (s = USED -> i ∈ x_M x) ->
  tri t (push (PLock i) (Some (i, s, ph)) x) (freeproc kend i)
    (fun _ y => y = push (PLock i) (Some (i, UNUSED, ph)) (with_M (x_M x ∖ {[i]}) x)).
Proof.
  intros Hm. unfold freeproc. autounfold with kthr.
  eapply keeps_bind; [kleaf|]. intros y _. apply kbind; [kp|]. intros _.
  eapply keeps_bind; [kleaf|]. intros _ _. eapply keeps_bind; [kleaf|]. intros z _.
  apply kbind; [kp|]. intros _.
  do 8 (eapply keeps_bind; [kleaf|]; intros _ _).
  eapply tri_mono; [eapply (tri_state t _ i s ph _ UNUSED); try done; by left|]. by intros [] w ->.
Qed.

(** A process being created: its slot, locked, in the caller's keeping. *)
Definition creating (i : nat) (ph : phase) (x : place) : place :=
  push (PLock i) (Some (i, USED, ph)) (with_M ({[i]} ∪ x_M x) x).

Lemma with_M_eq M x : x_M x = M -> with_M M x = x.
Proof. intros <-. by destruct x. Qed.

(** The failure path of [allocproc] and [fork]. *)
Lemma tri_abandon kend t x i ph {A} (r : A) (P : A -> place -> Prop) :
  good t x -> below 1 x -> x_pl x = None -> i ∉ x_M x -> ph <> Live -> P r x ->
  tri t (creating i ph x) (freeproc kend i;; release (PLock i);; mret r) P.
Proof.
  intros Hg Hb Hn Hi Hph HP. eapply tri_bind; [apply tri_freeproc; simpl; set_solver|]. intros [] y ->. simpl.
  replace (with_M _ _) with x; [apply tri_punlock; [done..|]; by apply tri_ret|].
  destruct x as [b pr n H pl M]. simpl. unfold with_M. simpl. f_equal. set_solver.
Qed.

Lemma tri_allocproc kend trampoline t x :
  below 1 x -> x_pl x = None ->
  tri t x (allocproc kend trampoline)
    (fun r y => match r with
                | None => y = x
                | Some i => y = creating i Saved x /\ i ∉ x_M x
                end).
Proof.
  intros Hb Hn. apply tri_good. intros Hg.
  eapply (tri_bind _ _ _ _ (fun r y => match r with
    | None => y = x
    | Some i => exists ph, y = push (PLock i) (Some (i, UNUSED, ph)) x /\ ph <> Live /\ i ∉ x_M x
    end)).
  { generalize (slots) as l. induction l as [|i l IH]; simpl; [by apply tri_ret|].
    eapply (tri_bind _ _ _ _ (fun r y => match r with
      | None => y = x
      | Some i => exists ph, y = push (PLock i) (Some (i, UNUSED, ph)) x /\ ph <> Live /\ i ∉ x_M x
      end)).
    - apply tri_plock; [done| |done]. intros s ph _ Hi Hm _ _.
      eapply keeps_bind; [apply keeps_getp|]. intros y Hy. specialize (Hy s ph eq_refl).
      destruct (decide _) as [Hs|].
      + assert (s = UNUSED) as -> by congruence. apply tri_ret. exists ph. split; [done|].
        split; [done|]. intros Hin. by apply Hm in Hin.
      + apply tri_punlock; [done..|]. by apply tri_ret.
    - intros [j|] y H; [by apply tri_ret|]. subst. apply IH. }
  intros [i|] y; [|intros ->; by apply tri_ret]. intros (ph & -> & Hph & Hi). autounfold with kthr.
  eapply keeps_bind; [apply keeps_allocpid, below_push; [by apply (below_mono 1); [|lia]|simpl; lia]|]. intros pid _.
  eapply keeps_bind; [kleaf|]. intros _ _.
  eapply tri_bind; [eapply (tri_state t _ i UNUSED ph _ USED); try done; by left|]. intros [] y ->.
  change (set_x_pl _ _ _) with (creating i ph x).
  eapply keeps_bind; [kleaf|]. intros tf _. eapply keeps_bind; [kleaf|]. intros _ _.
  destruct (tf =? 0); [by apply tri_abandon|].
  eapply keeps_bind; [kleaf|]. intros pt _. eapply keeps_bind; [kleaf|]. intros _ _.
  destruct (pt =? 0); [by apply tri_abandon|].
  intros [Hs Hgd] Q c ia Ho HQ. apply twp_bind, twp_on; [done|]. intros c' ia' Hm. exists USED, ph.
  split; [done|]. split; [done|]. apply twp_ret.
  apply (HQ (Some i) (creating i Saved x) c' ia'); [done| |done|by eapply on_moves]. by split.
Qed.

Lemma keeps_fork `{!UserMem U} kend trampoline p b M :
  keeps (KProc p) (top p b M) (fork kend trampoline) (fun _ => True).
Proof.
  eapply keeps_bind; [by apply keeps_cur|]. intros r ->.
  eapply tri_bind; [apply tri_allocproc; [apply below_top|done]|].
  intros [i|] y; [|intros ->; by apply tri_ret]. intros [-> Hi]. autounfold with kthr.
  eapply keeps_bind; [kleaf|]. intros px _. eapply keeps_bind; [kleaf|]. intros py _.
  eapply keeps_bind; [kleaf|]. intros rc _.
  destruct (_ <? _); [apply tri_abandon; [apply good_top|apply below_top|done..]|].
  do 3 (eapply keeps_bind; [kleaf|]; intros _ _).
  apply kbind; [unfold fork_file; kp|]. intros _.
  eapply keeps_bind; [kleaf|]. intros px' _. destruct (p_cwd px') as [ip|]; [|].
  2: apply tri_unspec.
  eapply keeps_bind; [kleaf|]. intros ip' _.
  do 2 (eapply keeps_bind; [kleaf|]; intros _ _).
  eapply keeps_bind; [kleaf|]. intros py' _. simpl.
  set (x := with_M ({[i]} ∪ M) (top p b M)).
  change (creating i Saved (top p b M)) with (push (PLock i) (Some (i, USED, Saved)) x).
  assert (Hx : x = top p b ({[i]} ∪ M)) by done. clearbody x. subst x.
  apply tri_punlock; [apply good_top|apply below_top|done|done|].
  apply tri_enter; [apply below_top|done|]. intros _. eapply keeps_bind; [kleaf|]. intros _ _.
  apply tri_exit; [apply good_top|apply below_top|done|].
  apply tri_plock; [apply below_top| |done]. intros s ph _ Hinv Hm _ _.
  assert (s = USED) as -> by (apply Hm; set_solver). simpl in Hinv. subst ph.
  eapply tri_bind.
  { eapply (tri_state _ _ i USED Saved _ RUNNABLE M); simpl; try done; [by left|set_solver|].
    unfold mine'. simpl. set_solver. }
  intros [] y ->.
  apply (tri_punlock (KProc p) (top p b M)); [apply good_top|apply below_top|done|done|]. by apply tri_ret.
Qed.

(** * Exit and wait *)

Lemma keeps_reparent t x p : below 1 x -> x_pl x = None -> keeps t x (reparent p) (fun _ => True).
Proof.
  intros Hb Hn. pose proof (fun ch => keeps_wakeup t x ch Hb Hn). unfold reparent. kp.
Qed.

Lemma tri_exit_call `{!UserMem U} p b M {A} status (P : A -> place -> Prop) :
  tri (KProc p) (top p b M) (exit status) P.
Proof.
  eapply keeps_bind; [by apply keeps_cur|]. intros r ->. autounfold with kthr.
  eapply keeps_bind; [kleaf|]. intros init _.
  destruct (decide _); [apply tri_panic; unfold tolerated; set_solver|].
  apply kbind; [unfold exit_file; kp|]. intros _.
  eapply keeps_bind; [kleaf|]. intros _ _. eapply keeps_bind; [kleaf|]. intros x1 _.
  apply kbind; [kp|]. intros _.
  do 2 (eapply keeps_bind; [kleaf|]; intros _ _).
  apply tri_enter; [apply below_top|done|]. intros _.
  assert (Hb : below 1 (push WaitLock None (top p b M))) by (apply below_push; [apply below_top|simpl; lia]).
  eapply keeps_bind; [by apply keeps_reparent|]. intros _ _.
  eapply keeps_bind; [kleaf|]. intros x2 _.
  eapply keeps_bind; [by apply keeps_wakeup|]. intros _ _.
  apply tri_plock; [done| |done]. intros s ph Hg Hi Hm Hl _. specialize (Hl eq_refl). subst ph.
  assert (s = RUNNING) as -> by (by apply running).
  eapply keeps_bind; [kleaf|]. intros _ _.
  apply tri_setstate; [done..|].
  eapply tri_bind.
  { eapply (tri_release _ _ WaitLock 1 [PLock p]); simpl; [set_solver|done|done|done|].
    split; [done|by intros q [= ->]]. }
  intros [] y ->. simpl. eapply tri_bind; [by apply (tri_sched_zombie p _ M (fun _ _ => False))|]. done.
Qed.

Lemma keeps_wait_scan kend p b M addr l hk :
  tri (KProc p) (push WaitLock None (top p b M)) (wait_scan kend p addr l hk)
    (fun r y => y = match r with inl _ => push WaitLock None (top p b M) | inr _ => top p b M end).
Proof.
  set (x := push WaitLock None (top p b M)).
  assert (Hb : below 1 x) by (apply below_push; [apply below_top|simpl; lia]).
  revert hk. induction l as [|i l IH]; intros hk; simpl; [by apply tri_ret|]. autounfold with kthr.
  eapply keeps_bind; [kleaf|]. intros y _. destruct (decide _); [|apply IH].
  apply tri_plock; [done| |done]. intros s ph Hg Hi Hm _ _.
  eapply keeps_bind; [apply keeps_getp|]. intros z Hz. specialize (Hz s ph eq_refl).
  destruct (decide _) as [Hs|]; [|apply tri_punlock; [done..|]; apply IH].
  assert (s = ZOMBIE) as -> by congruence.
  eapply keeps_bind; [kleaf|]. intros z' _. eapply keeps_bind; [kleaf|]. intros y' _.
  apply kbind; [kp|]. intros ok.
  assert (Hend : forall v : Z, tri (KProc p) x (release WaitLock;; mret (inr v : bool + Z))
    (fun r y => y = match r with inl _ => x | inr _ => top p b M end)).
  { intros v. apply tri_exit; [apply good_top|apply below_top|done|]. by apply tri_ret. }
  destruct ok; simpl; [|apply tri_punlock; [done..|]; apply Hend].
  eapply tri_bind; [by apply tri_freeproc|]. intros [] w ->.
  replace (with_M _ _) with x; [apply tri_punlock; [done..|]; apply Hend|].
  unfold x, push, with_M. simpl. f_equal. assert (i ∉ M) by (intros Hin; by apply Hm in Hin). set_solver.
Qed.

Lemma keeps_wait kend p b M addr : keeps (KProc p) (top p b M) (wait kend addr) (fun _ => True).
Proof.
  eapply keeps_bind; [by apply keeps_cur|]. intros r ->.
  apply tri_enter; [apply below_top|done|]. intros _.
  apply (tri_loop _ _ (fun _ y => y = push WaitLock None (top p b M))); [|done]. intros _ y ->.
  assert (Hb : below 1 (push WaitLock None (top p b M))) by (apply below_push; [apply below_top|simpl; lia]).
  eapply tri_bind; [apply keeps_wait_scan|]. intros [hk|v] y ->; [|by apply tri_ret].
  eapply keeps_bind; [destruct hk; simpl; [by apply keeps_killed|by apply (keeps_ret _ _ _ (fun _ => True))]|].
  intros [] _.
  - apply tri_exit; [apply good_top|apply below_top|done|]. by apply tri_ret.
  - eapply keeps_bind; [by apply keeps_sleep|]. intros _ _. by apply tri_ret.
Qed.
End proc.
