(* ===== verification/TrapSpec.v ===== *)
(** The scheduler, the devices, the system calls and the traps keep the locking
    discipline; with KInv.v this makes the whole machine safe (SchedProps.v). *)

From S2P Require Import Prelude BufCache BufSpec KState Log CString Fs Kalloc PipeRing File Sysfile Vm KThread Printf Proc Console Virtio Exec Trap KLogic KSpec ProcSpec.
Local Open Scope Z_scope.

Section sched.
Context {U : Type}.
Local Abbreviation keeps := (keeps (U := U)).
Local Abbreviation tri := (tri (U := U)).

(** * The scheduler *)

(** The scheduler of a CPU between two critical sections. *)
Definition idle (b : bool) (M : gset nat) : place := Place b None 0 [] None M.
Definition set_x_pr pr x := Place (x_b x) pr (x_n x) (x_H x) (x_pl x) (x_M x).

Lemma good_idle c b M : good (KSched c) (idle b M).
Proof. done. Qed.

Lemma tri_setproc c x pr :
  good (KSched c) (set_x_pr pr x) ->
  tri (KSched c) x (ev (ModCpu c (set_c_proc pr))) (fun _ y => y = set_x_pr pr x).
Proof.
  intros Hg' [Hs Hg] Q d ia Ho HQ. apply twp_on; [done|]. intros d' ia' Hm.
  assert (d' = c) as -> by exact (on_moves _ _ _ Ho Hm c eq_refl).
  split; [done|]. split; [done|]. apply (HQ tt (set_x_pr pr x) c ia'); [done|done|done|by intros e [= ->]].
Qed.

Lemma tri_resume c b M p :
  tri (KSched c) (Place b (Some p) 1 [PLock p] (Some (p, RUNNING, Saved)) M) (ev (Swtch (KSched c) (KProc p)))
    (fun _ y => exists b' s, gave_up s /\ y = Place b' (Some p) 1 [PLock p] (Some (p, s, parked s)) M).
Proof.
  intros Hg Q d ia Ho HQ. assert (d = c) as -> by exact (Ho c eq_refl).
  apply twp_off; [done|]. do 4 (split; [done|]). do 4 (split; [done|]). intros s ia' Hs.
  apply (HQ tt (Place ia' (Some p) 1 [PLock p] (Some (p, s, parked s)) M) c ia'); [eauto|done|by left|done].
Qed.

Lemma parked_inv s : gave_up s -> lock_inv s (parked s).
Proof. unfold parked. intros [->|[->| ->]]; done. Qed.

Lemma tri_sched_scan c l n b M :
  tri (KSched c) (idle b M) (sched_scan c l n) (fun _ y => exists b', y = idle b' M).
Proof.
  revert n b. induction l as [|p l IH]; intros n b; simpl; [apply tri_ret; eauto|].
  apply tri_plock; [by apply below_0| |done]. intros s ph Hg Hi Hm _ _. autounfold with kthr.
  eapply keeps_bind; [apply keeps_getp|]. intros y Hy. eapply keeps_bind; [apply keeps_getp|]. intros z Hz.
  specialize (Hz s ph eq_refl).
  eapply (tri_bind _ _ _ _ (fun _ y => exists b' s' ph', lock_inv s' ph' /\ y = push (PLock p) (Some (p, s', ph')) (idle b' M))).
  - destruct (decide _) as [Hs|]; [|apply tri_ret; eauto 10].
    assert (s = RUNNABLE) as -> by congruence. simpl in Hi. subst ph.
    apply tri_setstate; [done..|].
    eapply tri_bind; [by apply (tri_setproc c _ (Some p))|]. intros [] w ->.
    eapply tri_bind; [apply tri_resume|]. intros [] w (b' & s & Hgs & ->).
    eapply tri_mono; [by apply (tri_setproc c _ None)|]. intros [] w ->.
    exists b', s, (parked s). split; [by apply parked_inv|done].
  - intros [] w (b' & s' & ph' & Hl & ->). apply tri_punlock; [done|by apply below_0|done|done|]. apply IH.
Qed.

Lemma tri_scheduler c b M (P : unit -> place -> Prop) : tri (KSched c) (idle b M) scheduler P.
Proof.
  intros Hg Q d ia Ho HQ. assert (d = c) as -> by exact (Ho c eq_refl). unfold scheduler, mycpu, cpuid.
  apply twp_bind, twp_on; [done|]. intros d' ia' Hm.
  assert (d' = c) as -> by exact (on_moves _ _ _ Ho Hm c eq_refl). cbn [vstep v_cpu sv].
  change (View c _ _ _ _ _ _ _ _) with (at_ (idle b M) c ia').
  revert HQ. generalize Q. intros Q' HQ'.
  assert (tri (KSched c) (idle b M) (ev (ModCpu c (set_c_proc None));;
    loop (fun _ : unit => ev IntrOn;; nproc ← sched_scan c slots 0;
      (if nproc <=? 2 then ev IntrOn else mret tt);; mret (inl tt : unit + unit)) tt) P) as Ht.
  { eapply tri_bind; [by apply (tri_setproc c _ None)|]. intros [] y ->.
    apply (tri_loop _ _ (fun _ y => exists b', y = idle b' M)); [|by exists b]. intros _ y [b1 ->].
    eapply tri_bind; [by apply tri_intr_on|]. intros [] y ->.
    eapply tri_bind; [apply tri_sched_scan|]. intros n y [b2 ->].
    eapply (tri_bind _ _ _ _ (fun _ y => exists b', y = idle b' M)).
    - destruct (n <=? 2); [|apply tri_ret; eauto]. eapply tri_mono; [by apply tri_intr_on|]. intros [] y ->.
      by exists true.
    - intros [] y [b3 ->]. apply tri_ret. by exists b3. }
  by apply Ht.
Qed.
End sched.

Section devices.
Context {U : Type}.
Local Abbreviation keeps := (keeps (U := U)).
Local Abbreviation tri := (tri (U := U)).

Lemma keeps_cur_any t x : keeps t x cur (fun _ => True).
Proof.
  eapply keeps_bind; [apply keeps_myproc|]. intros [p|] _; [by apply keeps_ret|apply tri_unspec].
Qed.

Lemma keeps_panic t x {A} msg : msg ∈ tolerated -> keeps t x (tpanic msg : T U A) (fun _ => True).
Proof. intros. by apply tri_panic. Qed.
End devices.
#[export] Hint Resolve keeps_cur_any keeps_consputc keeps_hang : kthr.
#[export] Hint Extern 1 (keeps _ _ (tpanic _) _) => (apply keeps_panic; unfold tolerated; set_solver) : kthr.

Section devices.
Context {U : Type} `{!UserMem U}.
Local Abbreviation keeps := (keeps (U := U)).
Local Abbreviation tri := (tri (U := U)).

(** * Devices *)

Lemma keeps_procdump t x : below 3 x -> keeps t x procdump (fun _ => True).
Proof. intros Hb. pose proof (fun f ap => keeps_printf (U := U) t x f ap Hb). unfold procdump. kp. Qed.

Lemma keeps_uartstart t x : below 1 x -> x_pl x = None -> keeps t x uartstart (fun _ => True).
Proof. intros Hb Hn. pose proof (fun ch => keeps_wakeup (U := U) t x ch Hb Hn). unfold uartstart. kp. Qed.

(** A device handler: one critical section on a lock of the lowest rank. *)
Lemma keeps_section t x l (m : T U unit) :
  x_H x = [] -> x_pl x = None -> rank l = 0%nat ->
  keeps t (push l None x) m (fun _ => True) -> keeps t x (acquire l;; m;; release l) (fun _ => True).
Proof.
  intros HH Hn Hl Hm. assert (forall i, l <> PLock i) by (by intros i ->).
  apply tri_enter; [by apply below_0|done|]. intros Hg. rewrite Hn. apply kbind; [done|]. intros [].
  apply tri_tail. rewrite <- Hn. apply tri_exit; [done|by apply below_0|done|]. by apply tri_ret.
Qed.

Lemma below_section r l x : x_H x = [] -> rank l = 0%nat -> (0 < r)%nat -> below r (push l None x).
Proof. intros. apply below_push; [by apply below_0|lia]. Qed.

Lemma keeps_consoleintr t x c : x_H x = [] -> x_pl x = None -> keeps t x (consoleintr c) (fun _ => True).
Proof.
  intros HH Hn. apply keeps_section; [done..|]. set (y := push _ _ _).
  assert (Hb : forall r, (0 < r)%nat -> below r y) by (intros; by apply below_section).
  pose proof (keeps_procdump t y (Hb 3%nat ltac:(lia))).
  pose proof (fun ch => keeps_wakeup (U := U) t y ch (Hb 1%nat ltac:(lia)) eq_refl).
  unfold kill_line, cons_char. kp.
Qed.

Lemma keeps_uartintr t x : x_H x = [] -> x_pl x = None -> keeps t x uartintr (fun _ => True).
Proof.
  intros HH Hn. pose proof (fun c => keeps_consoleintr t x c HH Hn). unfold uartintr, uartgetc.
  apply kbind; [kp|]. intros _. apply keeps_section; [done..|]. apply keeps_uartstart; [|done].
  by apply below_section; [| |lia].
Qed.

Lemma keeps_virtio_disk_intr t x : x_H x = [] -> x_pl x = None -> keeps t x virtio_disk_intr (fun _ => True).
Proof.
  intros HH Hn. set (y := push DiskLock None x).
  pose proof (fun ch => keeps_wakeup (U := U) t y ch ltac:(by apply below_section; [| |lia]) eq_refl).
  assert (forall i, DiskLock <> PLock i) by done.
  apply tri_enter; [by apply below_0|done|]. intros Hg. rewrite Hn. fold y. autounfold with kthr.
  apply kbind; [kleaf|]. intros s. apply kbind; [kleaf|]. intros _. apply kbind; [kp|]. intros _.
  apply tri_tail. unfold y. rewrite <- Hn. apply tri_exit; [done|by apply below_0|done|]. by apply tri_ret.
Qed.

Lemma keeps_clockintr t x : x_H x = [] -> x_pl x = None -> keeps t x clockintr (fun _ => True).
Proof.
  intros HH Hn. unfold clockintr. apply kbind; [kleaf|]. intros c. apply kbind; [|intros; kp].
  destruct (_ =? _)%nat; [|kp]. set (y := push TicksLock None x).
  pose proof (fun ch => keeps_wakeup (U := U) t y ch ltac:(by apply below_section; [| |lia]) eq_refl).
  apply tri_enter; [by apply below_0|done|]. intros Hg. rewrite Hn. fold y. autounfold with kthr.
  apply kbind; [kleaf|]. intros _. apply kbind; [kleaf|]. intros _.
  apply tri_tail. unfold y. rewrite <- Hn. apply tri_exit; [done|by apply below_0|done|]. by apply tri_ret.
Qed.

Lemma keeps_devintr t x : x_H x = [] -> x_pl x = None -> keeps t x devintr (fun _ => True).
Proof.
  intros HH Hn. pose proof (keeps_uartintr t x HH Hn). pose proof (keeps_virtio_disk_intr t x HH Hn).
  pose proof (keeps_clockintr t x HH Hn). pose proof (fun f ap => keeps_printf (U := U) t x f ap (below_0 x HH 3)).
  unfold devintr, plic_claim, plic_complete. kp.
Qed.

(** * The console, for a process *)

Lemma keeps_uartputc p b M c : keeps (KProc p) (top p b M) (uartputc c) (fun _ => True).
Proof.
  set (y := push UartLock None (top p b M)).
  assert (Hb : below 1 y) by (by apply below_section; [| |lia]).
  pose proof (fun ch => keeps_sleep (U := U) p b M ch UartLock eq_refl). pose proof (keeps_uartstart (KProc p) y Hb eq_refl).
  unfold uartputc. apply tri_enter; [apply below_top|done|]. intros Hg. fold y. autounfold with kthr.
  apply kbind; [kleaf|]. intros pn. apply kbind; [kp|]. intros _. apply kbind; [kp|]. intros _.
  do 3 (apply kbind; [kleaf|]; intros _).
  apply tri_tail, tri_exit; [apply good_top|apply below_top|done|]. by apply tri_ret.
Qed.

Lemma keeps_consolewrite p b M us src n : keeps (KProc p) (top p b M) (consolewrite us src n) (fun _ => True).
Proof. pose proof (keeps_uartputc p b M). unfold consolewrite, copyin1. kp. Qed.

Lemma tri_cons_wait p b M :
  tri (KProc p) (push ConsLock None (top p b M)) cons_wait
    (fun r y => y = if r then push ConsLock None (top p b M) else top p b M).
Proof.
  set (x := push ConsLock None (top p b M)). assert (Hb : below 1 x) by (by apply below_section; [| |lia]).
  apply (tri_loop _ _ (fun _ y => y = x)); [|done]. intros _ y ->. autounfold with kthr.
  apply kbind; [kleaf|]. intros cs. destruct (_ =? _); [|by apply tri_ret].
  apply kbind; [kleaf|]. intros q. apply kbind; [by apply keeps_killed|]. intros [].
  - apply tri_exit; [apply good_top|apply below_top|done|]. by apply tri_ret.
  - apply kbind; [by apply keeps_sleep|]. intros _. by apply tri_ret.
Qed.

Lemma keeps_consoleread p b M ud dst n : keeps (KProc p) (top p b M) (consoleread ud dst n) (fun _ => True).
Proof.
  set (x := push ConsLock None (top p b M)). unfold consoleread.
  apply tri_enter; [apply below_top|done|]. intros _. fold x.
  eapply (tri_bind _ _ _ _ (fun r y => y = match r with None => top p b M | Some _ => x end)).
  - apply (tri_loop _ _ (fun _ y => y = x)); [|done]. intros [d m] y ->. unfold cons_get.
    destruct (negb _); [by apply tri_ret|].
    eapply tri_bind; [apply tri_cons_wait|]. intros [] y ->; simpl; [|by apply tri_ret]. fold x.
    unfold copyout1. autounfold with kthr. apply kbind; [kleaf|]. intros cs. apply kbind; [kleaf|]. intros _.
    destruct (_ =? _).
    + apply kbind; [kp|]. intros _. by apply tri_ret.
    + apply kbind; [kp|]. intros ok. destruct (negb ok); [by apply tri_ret|].
      destruct (_ =? _); by apply tri_ret.
  - intros [m|] y ->; [|by apply tri_ret]. apply tri_exit; [apply good_top|apply below_top|done|]. by apply tri_ret.
Qed.

(** * The disk driver, for a process *)

Lemma keeps_virtio_disk_rw p b M buf no w : keeps (KProc p) (top p b M) (Virtio.virtio_disk_rw buf no w) (fun _ => True).
Proof.
  set (y := push DiskLock None (top p b M)).
  assert (Hb : below 1 y) by (by apply below_section; [| |lia]).
  pose proof (fun ch => keeps_wakeup (U := U) (KProc p) y ch Hb eq_refl).
  pose proof (fun ch => keeps_sleep (U := U) p b M ch DiskLock eq_refl).
  assert (Hfree : forall i, keeps (KProc p) y (free_desc i) (fun _ => True)) by (intros; unfold free_desc; kp).
  assert (Halloc : keeps (KProc p) y alloc_desc (fun _ => True)) by (unfold alloc_desc; kp).
  assert (Halloc3 : forall n got, keeps (KProc p) y (alloc3_loop n got) (fun _ => True)).
  { induction n as [|n IH]; intros got; simpl; [kp|]. apply kbind; [done|]. intros i.
    destruct (_ <? _); [kp|apply IH]. }
  unfold Virtio.virtio_disk_rw. apply tri_enter; [apply below_top|done|]. intros Hg. fold y.
  unfold alloc3_desc, free_chain. autounfold with kthr. apply kbind; [kp|]. intros idx.
  do 10 (apply kbind; [kleaf|]; intros _). apply kbind; [kp|]. intros _.
  do 1 (apply kbind; [kleaf|]; intros _). apply kbind; [kp|]. intros _.
  apply tri_tail, tri_exit; [apply good_top|apply below_top|done|]. by apply tri_ret.
Qed.
End devices.

(** * System calls and traps *)

Section traps.
Context {U : Type} `{!UserMem U}.
Context (kend trampoline uservec usertrap_addr kernelvec_addr : Z).
Context (junk : Z -> Z) (pad junkname stk : bytes).
Context (dev_rd dev_wr : Z -> option (Z -> Z -> K U Z)).
Local Abbreviation keeps := (keeps (U := U)).
Local Abbreviation tri := (tri (U := U)).

Lemma keeps_argraw t x n : keeps t x (trap_argraw n) (fun _ => True).
Proof. unfold trap_argraw. kp. Qed.
Lemma keeps_argint t x n : keeps t x (trap_argint n) (fun _ => True).
Proof. pose proof (keeps_argraw t x n). unfold trap_argint. kp. Qed.
Lemma keeps_onproc t x {X} p args (m : K U X) : keeps t x (onproc p args m) (fun _ => True).
Proof. unfold onproc. kp. Qed.
Lemma keeps_file_call t x m : keeps t x (file_call m) (fun _ => True).
Proof. pose proof (keeps_argraw t x). pose proof (fun p args => keeps_onproc t x p args m). unfold file_call. kp. Qed.

(** * kernel/exec.c *)

Lemma keeps_loadseg t x n pt va ip off sz i : keeps t x (loadseg_loop n pt va ip off sz i) (fun _ => True).
Proof. revert i. induction n as [|n IH]; intros i; simpl; kp. Qed.

Lemma keeps_load_segs t x n pt ip off sz : keeps t x (load_segs kend n pt ip off sz) (fun _ => True).
Proof.
  pose proof (keeps_loadseg t x). revert off sz. induction n as [|n IH]; intros off sz; simpl; unfold loadseg; kp.
Qed.

Lemma keeps_push_args t x argv pt sb argc sp us : keeps t x (push_args argv pt sb argc sp us) (fun _ => True).
Proof. revert argc sp us. induction argv as [|s argv IH]; intros argc sp us; simpl; kp. Qed.

Lemma keeps_exec_bad t x pt sz ip : keeps t x (exec_bad kend pt sz ip) (fun _ => True).
Proof. unfold exec_bad. kp. Qed.

Lemma keeps_exec t x path argv : keeps t x (exec kend trampoline junkname path argv) (fun _ => True).
Proof.
  pose proof (keeps_load_segs t x). pose proof (keeps_push_args t x). pose proof (keeps_exec_bad t x).
  pose proof (@keeps_onproc t x). unfold exec, exec_commit. kp.
Qed.

Lemma keeps_exec_args t x n uargv i argv : keeps t x (exec_args n uargv i argv) (fun _ => True).
Proof.
  revert i argv. induction n as [|n IH]; intros i argv; simpl; [kp|]. unfold fetchaddr, fetchstr_user. kp.
Qed.

Lemma keeps_sys_exec t x path uargv : keeps t x (sys_exec kend trampoline junkname path uargv) (fun _ => True).
Proof.
  pose proof (keeps_exec_args t x). pose proof (keeps_exec t x). unfold sys_exec, fetchstr_user. kp.
Qed.

(** * kernel/sysproc.c *)

Lemma keeps_growproc t x n : keeps t x (growproc kend n) (fun _ => True).
Proof. unfold growproc. kp. Qed.

Lemma keeps_sys_sleep p b M : keeps (KProc p) (top p b M) sys_sleep (fun _ => True).
Proof.
  set (x := push TicksLock None (top p b M)). assert (Hb : below 1 x) by (by apply below_section; [| |lia]).
  unfold sys_sleep. autounfold with kthr. apply kbind; [apply keeps_argint|]. intros n.
  apply tri_enter; [apply below_top|done|]. intros _. fold x.
  apply kbind; [kleaf|]. intros t0. apply (tri_loop _ _ (fun _ y => y = x)); [|done]. intros _ y ->.
  assert (Hend : forall v : Z, tri (KProc p) x (release TicksLock;; mret (inr v : unit + Z))
    (fun r z => match r with inl _ => z = x | inr _ => z = top p b M /\ True end)).
  { intros v. apply tri_exit; [apply good_top|apply below_top|done|]. by apply tri_ret. }
  apply kbind; [kleaf|]. intros tk. destruct (_ <? _); [|apply Hend].
  apply kbind; [kleaf|]. intros q. apply kbind; [by apply keeps_killed|]. intros []; [apply Hend|].
  apply kbind; [by apply keeps_sleep|]. intros _. by apply tri_ret.
Qed.

Lemma keeps_sys_uptime p b M : keeps (KProc p) (top p b M) sys_uptime (fun _ => True).
Proof.
  unfold sys_uptime. apply tri_enter; [apply below_top|done|]. intros _. autounfold with kthr.
  apply kbind; [kleaf|]. intros tk. apply tri_exit; [apply good_top|apply below_top|done|]. by apply tri_ret.
Qed.

Lemma keeps_syscalls p b M num call :
  syscalls kend trampoline junk pad junkname stk dev_rd dev_wr num = Some call ->
  keeps (KProc p) (top p b M) call (fun _ => True).
Proof.
  set (x := top p b M). intros H. pose proof (keeps_file_call (KProc p) x).
  pose proof (keeps_argraw (KProc p) x). pose proof (keeps_argint (KProc p) x).
  unfold syscalls in H.
  repeat match type of H with
  | (if ?c then _ else _) = _ => destruct c; [simplify_eq|]
  end; try done.
  - apply keeps_fork.
  - unfold sys_exit. apply kbind; [done|]. intros n. eapply tri_bind; [by apply (tri_exit_call p b M n (fun _ _ => False))|]. done.
  - unfold sys_wait. apply kbind; [done|]. intros a. apply keeps_wait.
  - unfold trap_read. pose proof (keeps_consoleread (U := U) p b M). pose proof (@keeps_onproc (KProc p) x). kp.
  - unfold sys_kill. apply kbind; [done|]. intros pid. apply keeps_kill; [apply below_top|done].
  - pose proof (keeps_sys_exec (KProc p) x). kp.
  - unfold sys_getpid. kp.
  - unfold sys_sbrk. pose proof (keeps_growproc (KProc p) x). kp.
  - apply keeps_sys_sleep.
  - apply keeps_sys_uptime.
  - unfold trap_write. pose proof (keeps_consolewrite (U := U) p b M). pose proof (@keeps_onproc (KProc p) x). kp.
Qed.

Lemma keeps_syscall p b M :
  keeps (KProc p) (top p b M) (syscall kend trampoline junk pad junkname stk dev_rd dev_wr) (fun _ => True).
Proof.
  unfold syscall. pose proof (fun f ap => keeps_printf (U := U) (KProc p) (top p b M) f ap (below_top 3 p b M)).
  autounfold with kthr. apply kbind; [kleaf|]. intros q. apply kbind; [kleaf|]. intros x.
  apply kbind; [kleaf|]. intros a7. destruct (syscalls _ _ _ _ _ _ _ _ _) as [call|] eqn:E; [|kp].
  apply kbind; [by eapply keeps_syscalls|]. intros r. kp.
Qed.

(** * kernel/trap.c *)

Lemma tri_usertrapret p b M :
  tri (KProc p) (top p b M) (usertrapret trampoline uservec usertrap_addr) (fun _ y => y = top p false M).
Proof.
  unfold usertrapret. autounfold with kthr. apply kbind; [kleaf|]. intros q.
  eapply tri_bind; [by apply tri_intr_off|]. intros [] y ->.
  change (set_x_b false (top p b M)) with (top p false M).
  apply tri_keeps. kp.
Qed.

Lemma tri_usertrap p M :
  tri (KProc p) (top p false M)
    (usertrap kend trampoline uservec usertrap_addr kernelvec_addr junk pad junkname stk dev_rd dev_wr false)
    (fun _ y => y = top p false M).
Proof.
  unfold usertrap. autounfold with kthr. apply kbind; [kleaf|]. intros _.
  eapply keeps_bind; [by apply keeps_cur|]. intros r ->.
  apply kbind; [kleaf|]. intros x. apply kbind; [kleaf|]. intros epc. apply kbind; [kleaf|]. intros _.
  apply kbind; [kleaf|]. intros sc.
  assert (Hk : forall b q, keeps (KProc p) (top p b M) (killed q) (fun _ => True)).
  { intros. by apply keeps_killed; [apply below_top|]. }
  assert (Hx : forall b (k : bool), keeps (KProc p) (top p b M) (if k then exit (-1) else mret tt) (fun _ => True)).
  { intros b [|]; [apply tri_exit_call|by apply keeps_ret]. }
  eapply (tri_bind _ _ _ _ (fun _ y => exists b, y = top p b M)).
  - destruct (sc =? 8).
    + apply kbind; [apply Hk|]. intros k. apply kbind; [apply Hx|]. intros _.
      apply kbind; [kleaf|]. intros x'. apply kbind; [kleaf|]. intros e. apply kbind; [kleaf|]. intros _.
      eapply tri_bind; [by apply tri_intr_on|]. intros [] y ->.
      apply kbind; [apply (keeps_syscall p true M)|]. intros _. apply tri_ret. by exists true.
    + apply kbind; [by apply keeps_devintr|]. intros d.
      pose proof (fun f ap => keeps_printf (U := U) (KProc p) (top p false M) f ap (below_top 3 p false M)).
      pose proof (keeps_setkilled (U := U) (KProc p) (top p false M) p (below_top 1 p false M) eq_refl).
      apply kbind; [kp|]. intros _. apply tri_ret. by exists false.
  - intros wd y [b ->]. apply kbind; [apply Hk|]. intros k. apply kbind; [apply Hx|]. intros _.
    pose proof (keeps_yield (U := U) p b M). apply kbind; [kp|]. intros _. apply tri_usertrapret.
Qed.

Lemma keeps_kerneltrap t M :
  keeps t (Place false (proc_of t) 0 [] None M) (kerneltrap true) (fun _ => True).
Proof.
  set (x := Place _ _ _ _ _ _). unfold kerneltrap. autounfold with kthr.
  do 3 (apply kbind; [kleaf|]; intros ?). simpl.
  eapply keeps_bind; [apply keeps_intr_get; by left|]. intros i ->.
  apply kbind; [by apply keeps_devintr|]. intros wd.
  pose proof (fun f ap => keeps_printf (U := U) t x f ap (below_0 x eq_refl 3)).
  apply kbind; [kp|]. intros _. apply kbind; [|intros; kp].
  destruct (wd =? 2); [|kp]. eapply keeps_bind; [apply keeps_myproc|]. intros o ->.
  destruct t as [p|c]; simpl; [apply (keeps_yield p false M)|by apply keeps_ret].
Qed.

Lemma kernelvec_ok t (v : view) :
  calm t v -> v_sie v = true -> (forall d, t = KSched d -> v_cpu v = d) ->
  twp t (U := U) kernelvec (fun _ v' => pre t v v') v.
Proof.
  intros Hc Hs Ho. destruct (Hc Hs) as (Hn & Hh & Hf & Hp & Hr).
  assert (Hg : forall b, good t (Place b (proc_of t) 0 [] None (v_mine v))).
  { intros b. split; [done|]. by intros p ->. }
  assert (Hv : v = at_ (Place true (proc_of t) 0 [] None (v_mine v)) (v_cpu v) (v_intena v)).
  { destruct v; simpl in *. by subst. }
  set (Q := fun (_ : unit) v' => pre t v v'). rewrite Hv.
  assert (Ht : tri t (Place true (proc_of t) 0 [] None (v_mine v)) kernelvec
    (fun _ y => y = Place true (proc_of t) 0 [] None (v_mine v))).
  { eapply tri_bind; [by apply tri_intr_off|]. intros [] y ->.
    apply kbind; [apply keeps_kerneltrap|]. intros _. eapply tri_mono; [by apply tri_intr_on|]. by intros [] y ->. }
  apply Ht; [apply Hg|exact Ho|]. intros [] y c' ia' -> _ Hm _. right. split; [done|].
  exists c', ia'. split; [done|]. by destruct v; simpl in *; subst.
Qed.

Context (work : nat -> nat -> option (Z * Z * bool)).
Local Abbreviation entry := (entry kend trampoline uservec usertrap_addr kernelvec_addr junk pad junkname stk dev_rd dev_wr work).

Lemma keeps_transfer p b M n : keeps (KProc p) (top p b M) (transfer work n) (fun _ => True).
Proof.
  unfold transfer. apply kbind; [kleaf|]. intros q. destruct (work q n) as [[[buf no] w]|]; [|kp].
  apply keeps_virtio_disk_rw.
Qed.

Lemma entry_ok p c ia : twp (KProc p) entry (fun _ _ => False) (resume_view p c ia ∅).
Proof.
  change (resume_view p c ia ∅) with (at_ (Place ia (Some p) 1 [PLock p] (Some (p, RUNNING, Live)) ∅) c ia).
  assert (tri (KProc p) (Place ia (Some p) 1 [PLock p] (Some (p, RUNNING, Live)) ∅) entry (fun _ _ => False)) as Ht.
  { eapply (tri_bind _ _ _ _ (fun _ y => y = top p false ∅)).
    - unfold forkret. eapply keeps_bind; [by apply keeps_cur|]. intros r ->.
      apply (tri_punlock (KProc p) (top p ia ∅)); [apply good_top|apply below_top|done|done|].
      autounfold with kthr. apply kbind; [kleaf|]. intros f. apply kbind; [kp|]. intros _. apply tri_usertrapret.
    - intros [] y ->. apply (tri_loop _ _ (fun _ y => y = top p false ∅)); [|done]. intros n y ->.
      apply kbind; [kleaf|]. intros _. eapply tri_bind; [apply tri_usertrap|]. intros [] y ->.
      apply kbind; [apply keeps_transfer|]. intros _. by apply tri_ret. }
  apply Ht; [split; [done|by intros q [= ->]]|by intros d ?|done].
Qed.
End traps.
