(* ===== verification/KGhost.v ===== *)
(** Invariants of shared data, on top of the locking discipline.

    KInv.v shows that the threads of the machine use the locks correctly.  Here
    every thread also has a ghost state in a type [L], its knowledge of the data
    it protects by a lock, and [Inv] relates the shared state to the ghost states
    of all threads.  [gwp] verifies one thread: each of its accesses must keep
    [Inv] while only its own ghost state changes.  [gstep_sound] lifts this to
    the machine, for any [L] and [Inv]. *)

From S2P Require Import Prelude BufCache BufSpec KState CString Kalloc Vm KThread KLogic KInv.
Local Open Scope Z_scope.

(** What the locking discipline says of an access of thread [t] on CPU [c], when
    the CPUs execute [cu]: a scheduler stays on its CPU, only the holder of a lock
    changes it, a thread switches from itself, holding only the lock of the
    process, and a process finds itself in its [struct cpu]. *)
Definition disciplined {U X} (t : thread) (c : nat) (e : evt U X) (s : gst U) (cu : nat -> thread) : Prop :=
  (forall d, t = KSched d -> c = d) /\ cu c = t /\ (forall d, cu d = t -> d = c) /\
  match e with
  | LkInit _ => False
  | SetLkCpu l (Some d) => d = c /\ s_lk s l = Spinlock true None
  | SetLkCpu l None => s_lk s l = Spinlock true (Some c)
  | LkRelease l => s_lk s l = Spinlock true None
  | Swtch from to => from = t /\
      forall l, s_lk s l = Spinlock true (Some c) -> exists p, l = PLock p /\ (from = KProc p \/ to = KProc p)
  | SetCtx i => forall d, cu d <> KProc i
  | GetCpu d => forall p, t = KProc p -> c_proc (s_cpu s d) = Some p
  | _ => True
  end.

Section ghost.
Context {U : Type} {L : Type}.
(** The invariant on the shared state, the threads the CPUs execute and the ghost
    states; the reasons for which the machine may stop; the ghost states in which
    the thread of a new process may start. *)
Context (Inv : gst U -> (nat -> thread) -> (thread -> L) -> Prop) (hok : halt -> Prop) (start : L -> Prop).

(** The ghost states after a step of [t]. *)
Definition local_to (t : thread) (G G' : thread -> L) : Prop := forall t', t' <> t -> G' t' = G t'.

Definition gstep (t : thread) {X} (e : evt U X) (l : L) (Q : X -> L -> Prop) : Prop :=
  forall o c s cu G, Inv s cu G -> G t = l -> disciplined t c e s cu ->
    match exec o c e s with
    | RStep _ x s' => exists G', Inv s' cu G' /\ local_to t G G' /\ Q x (G' t)
    | RSwtch _ _ to x => exists G', Inv s (<[c := to]> cu) G' /\ local_to t G G' /\ Q x (G' t)
    | RCtx _ i x => exists G', Inv s cu G' /\ (forall t', t' <> t -> t' <> KProc i -> G' t' = G t') /\
        start (G' (KProc i)) /\ Q x (G' t)
    | RBlock _ => True
    | RHalt _ h => hok h
    end.

Fixpoint gwp (t : thread) {A} (m : T U A) (Q : A -> L -> Prop) (l : L) : Prop :=
  match m with
  | TRet a => Q a l
  | TVis e k => gstep t e l (fun x l' => gwp t (k x) Q l')
  | TIter body i k => exists J, J i l /\
      forall j l1, J j l1 -> gwp t (body j) (fun r l2 =>
        match r with inl j' => J j' l2 | inr r => gwp t (k r) Q l2 end) l1
  end.

Lemma gstep_mono t {X} (e : evt U X) l (Q Q' : X -> L -> Prop) :
  (forall x l', Q x l' -> Q' x l') -> gstep t e l Q -> gstep t e l Q'.
Proof.
  intros HQ H o c s cu G HI Hl Hd. specialize (H o c s cu G HI Hl Hd). destruct (exec o c e s); naive_solver.
Qed.

Lemma gwp_mono t {A} (m : T U A) l (Q Q' : A -> L -> Prop) :
  (forall a l', Q a l' -> Q' a l') -> gwp t m Q l -> gwp t m Q' l.
Proof.
  revert l Q Q'. induction m as [A a|A X e k IH|A I R body IHb i k IH]; intros l Q Q' HQ; simpl.
  - apply HQ.
  - apply gstep_mono. intros x l'. by apply IH.
  - intros (J & HJ & H). exists J. split; [done|]. intros j l1 H1. eapply IHb; [|by apply H].
    intros [j'|r] l2; [done|]. by apply IH.
Qed.

Lemma gwp_ret t {A} (a : A) l (Q : A -> L -> Prop) : Q a l -> gwp t (mret a) Q l.
Proof. done. Qed.

Lemma gwp_bind t {A B} (m : T U A) (f : A -> T U B) l (Q : B -> L -> Prop) :
  gwp t m (fun a l' => gwp t (f a) Q l') l -> gwp t (m ≫= f) Q l.
Proof.
  change (m ≫= f) with (tbind f m).
  revert l. induction m as [A a|A X e k IH|A I R body IHb i k IH]; intros l; simpl; [done| |].
  - apply gstep_mono. intros x l'. apply IH.
  - intros (J & HJ & H). exists J. split; [done|]. intros j l1 H1. eapply gwp_mono; [|by apply H].
    intros [j'|r] l2; [done|]. apply IH.
Qed.

Lemma gwp_unfold t {A I R} (body : I -> T U (I + R)) i (k : R -> T U A) l (Q : A -> L -> Prop) :
  gwp t (TIter body i k) Q l ->
  gwp t (tbind (fun r => match r with inl j => TIter body j k | inr r => k r end) (body i)) Q l.
Proof.
  intros (J & HJ & H). apply (gwp_bind t (body i)). eapply gwp_mono; [|by apply H].
  intros [j|r] l2 H2; [|done]. by exists J.
Qed.

Lemma gwp_loop t {I R} (body : I -> T U (I + R)) i l (J : I -> L -> Prop) (Q : R -> L -> Prop) :
  J i l ->
  (forall j l1, J j l1 -> gwp t (body j) (fun r l2 => match r with inl j' => J j' l2 | inr r => Q r l2 end) l1) ->
  gwp t (loop body i) Q l.
Proof. intros. by exists J. Qed.

(** * The machine *)

Context (kernelvec entry : T U unit).
Hypothesis kernelvec_inv : forall t l, gwp t kernelvec (fun _ l' => l' = l) l.
Hypothesis entry_inv : forall i l, start l -> gwp (KProc i) entry (fun _ _ => True) l.

Definition ginv (m : @mach U) : Prop :=
  (forall h, m_halt m = Some h -> hok h) /\
  exists G, Inv (m_st m) (m_cur m) G /\ forall t, gwp t (m_ctx m t) (fun _ _ => True) (G t).

Lemma gwp_ctx (ctx : thread -> T U unit) (G G' : thread -> L) t (n : T U unit) :
  (forall t, gwp t (ctx t) (fun _ _ => True) (G t)) -> local_to t G G' ->
  gwp t n (fun _ _ => True) (G' t) -> forall t', gwp t' (<[t := n]> ctx t') (fun _ _ => True) (G' t').
Proof.
  intros H Hl Hn t'. destruct (decide (t = t')) as [<-|Hne]; [by rewrite fn_lookup_insert|].
  rewrite fn_lookup_insert_ne by done. by rewrite Hl.
Qed.

(** What the locking discipline guarantees of the next access. *)
Lemma half_word (m : @mach U) V PH MI c l : inv m V PH MI -> v_half (V c) = Some l -> s_lk (m_st m) l = Spinlock true None.
Proof.
  intros I H. destruct (i_lock _ _ _ _ I l) as [(d & Hd & ->)|[_ Hd]]; [|by destruct (Hd c); right].
  assert (c = d) as <- by (eapply (i_excl _ _ _ _ I); [by right|done]).
  destruct (i_wf _ _ _ _ I c) as [Hw _]. by rewrite decide_False by (by apply Hw).
Qed.
Lemma held_word (m : @mach U) V PH MI c l : inv m V PH MI -> l ∈ v_held (V c) <-> s_lk (m_st m) l = Spinlock true (Some c).
Proof.
  intros I. destruct (i_lock _ _ _ _ I l) as [(d & Hd & ->)|[-> Hd]].
  - split.
    + intros H. assert (c = d) as <- by (eapply (i_excl _ _ _ _ I); [by left|done]). by rewrite decide_True.
    + case_decide; [|done]. by intros [= ->].
  - split; [|done]. intros H. by destruct (Hd c); left.
Qed.

Lemma inv_disciplined m V PH MI c {X} (e : evt U X) k :
  inv m V PH MI -> m_ctx m (m_cur m c) = TVis e k -> disciplined (m_cur m c) c e (m_st m) (m_cur m).
Proof.
  intros I E. split; [intros d Ed; pose proof (i_cur _ _ _ _ I c) as H; by rewrite Ed in H|].
  split; [done|]. split; [intros d; by apply (cur_inj _ _ _ _ _ _ I)|].
  pose proof (i_twp _ _ _ _ I c) as H. rewrite E in H. destruct H as [_ H].
  specialize (H _ (pre_refl _ _)). destruct (i_view _ _ _ _ I c) as (Hvc & Hvr & _). destruct e; simpl in H |- *; try done.
  - destruct H as [-> _]. rewrite Hvc, Hvr. intros p Ep. pose proof (i_cur _ _ _ _ I c) as Hc. rewrite Ep in Hc. apply Hc.
  - destruct o as [d|].
    + destruct H as (Hh & -> & _). split; [done|]. by eapply half_word.
    + destruct H as (_ & Hh & _). by eapply held_word.
  - destruct H as [Hh _]. by eapply half_word.
  - destruct H as (_ & _ & _ & -> & H). split; [done|]. intros l Hl. apply (held_word _ _ _ _ _ _ I) in Hl.
    destruct (m_cur m c) as [p|d], to as [p'|d']; try done.
    + destruct H as (s & _ & Hh & _). rewrite Hh in Hl. apply list_elem_of_singleton in Hl as ->. eauto.
    + destruct H as (_ & Hh & _). rewrite Hh in Hl. apply list_elem_of_singleton in Hl as ->. eauto.
  - destruct H as (s & ph & Hpl & Hne & _). intros d Ed. destruct (i_pl _ _ _ _ I _ _ _ _ Hpl) as [_ <-]. apply Hne.
    pose proof (i_cur _ _ _ _ I d) as Hc. rewrite Ed in Hc. apply Hc.
Qed.

Lemma mexec_ginv o c m : m_halt m = None -> verified m -> ginv m -> ginv (mexec entry o c m).
Proof.
  intros Hh [_ (V & PH & MI & I)] [_ (G & HI & HG)]. unfold mexec.
  assert (Hn : forall h, m_halt m = Some h -> hok h) by (intros h; by rewrite Hh).
  destruct (m_ctx m (m_cur m c)) as [a|X e k|II R body i k] eqn:E; [by split; [|exists G]| |].
  2: { split; [done|]. exists G. split; [done|]. apply (gwp_ctx _ G); [done|done|].
    specialize (HG (m_cur m c)). rewrite E in HG. by apply gwp_unfold. }
  pose proof (HG (m_cur m c)) as H. rewrite E in H.
  pose proof (inv_disciplined _ _ _ _ _ _ _ I E) as Hd. specialize (H o c (m_st m) (m_cur m) G HI eq_refl Hd).
  destruct (exec o c e (m_st m)) as [x s'|from to x|i x| |h] eqn:Ex.
  - destruct H as (G' & HI' & Hl & H). split; [done|]. exists G'. split; [done|]. by apply (gwp_ctx _ G).
  - assert (from = m_cur m c) as ->.
    { destruct Hd as (_ & _ & _ & Hd). destruct e; simpl in Ex; repeat case_match; simplify_eq. apply Hd. }
    destruct H as (G' & HI' & Hl & H). split; [done|]. exists G'. split; [done|]. by apply (gwp_ctx _ G).
  - destruct H as (G' & HI' & Hl & Hs & H).
    assert (m_cur m c <> KProc i).
    { destruct Hd as (_ & _ & _ & Hd). destruct e; simpl in Ex; repeat case_match; simplify_eq. apply Hd. }
    split; [done|]. exists G'. split; [done|]. intros t'. simpl. destruct (decide (m_cur m c = t')) as [<-|Hne].
    { by rewrite fn_lookup_insert. }
    rewrite fn_lookup_insert_ne by done. destruct (decide (KProc i = t')) as [<-|Hne'].
    { rewrite fn_lookup_insert. by apply entry_inv. }
    rewrite fn_lookup_insert_ne by done. rewrite Hl by congruence. apply HG.
  - by split; [|exists G].
  - split; [intros h'; simpl; congruence|]. by exists G.
Qed.

Lemma mintr_ginv c m : ginv m -> ginv (mintr kernelvec c m).
Proof.
  intros [Hh (G & HI & HG)]. split; [done|]. exists G. split; [done|]. apply (gwp_ctx _ G); [done|done|].
  apply gwp_bind. eapply gwp_mono; [|apply kernelvec_inv]. by intros _ l' ->.
Qed.

(** Data invariants hold in every state the machine reaches. *)
Lemma reachable_ginv m m' :
  (forall p c ia, twp (KProc p) entry never (resume_view p c ia ∅)) ->
  (forall t v, calm t v -> v_sie v = true -> (forall d, t = KSched d -> v_cpu v = d) ->
     twp t kernelvec (fun _ v' => pre t v v') v) ->
  rtc (mstep kernelvec entry) m m' -> verified m -> ginv m -> ginv m'.
Proof.
  intros He Hk. induction 1 as [m|m m1 m2 Hs _ IH]; [done|]. intros Hv Hi. apply IH.
  - by eapply mstep_verified.
  - destruct Hs; [by apply mexec_ginv|by apply mintr_ginv].
Qed.
End ghost.

Arguments gwp {U L} Inv hok start t {A} m Q l : simpl never.
Arguments gstep {U L} Inv hok start t {X} e l Q : simpl never.
