(* ===== verification/KDev.v ===== *)
(** The data the drivers protect by their locks: the input buffer of
    kernel/console.c, the transmit buffer of kernel/uart.c and the descriptors of
    kernel/virtio_disk.c.

    The ghost state of a thread is the exact value of the data whose lock it
    holds, and the disk descriptors it has allocated, which it keeps while it
    sleeps without the lock.  [dinv] is the invariant for KGhost.v; [quiet] is
    code that does not touch the drivers. *)

From S2P Require Import Prelude BufCache BufSpec KState CString Kalloc Vm KThread Printf Proc Console Virtio KLogic KInv KGhost.
From Stdlib Require Import Ascii.
Local Open Scope Z_scope.

(** * The line discipline, abstractly *)

(** Bytes a reader may take, and the line being typed. *)
Definition cline : Type := bytes * bytes.
Definition used (a : cline) : Z := Z.of_nat (length a.1 + length a.2).

(** A character typed at the terminal: control-U erases the line, backspace its
    last character; newline, control-D and a full buffer commit the line. *)
Definition line_input (c : Z) (a : cline) : cline :=
  if c =? ctrl "P" then a
  else if c =? ctrl "U" then (a.1, [])
  else if (c =? ctrl "H") || (c =? DEL) then (a.1, removelast a.2)
  else if negb (c =? 0) && (used a <? INPUT_BUF_SIZE) then
    let c := if c =? CR then NL else c in
    let line := a.2 ++ [c] in
    if (c =? NL) || (c =? ctrl "D") || (used (a.1, line) =? INPUT_BUF_SIZE) then (a.1 ++ line, [])
    else (a.1, line)
  else a.

Inductive cstep : cline -> cline -> Prop :=
| cstep_input c a : is_byte c -> cstep a (line_input c a)
| cstep_take b com line : cstep (b :: com, line) (com, line).

(** The console's ring holds [a]. *)
Record crep (x : console) (a : cline) : Prop := {
  crep_r : 0 <= con_r x < 2 ^ 32;
  crep_w : con_w x = u32 (con_r x + Z.of_nat (length a.1));
  crep_e : con_e x = u32 (con_r x + used a);
  crep_fit : used a <= INPUT_BUF_SIZE;
  crep_buf k b : (a.1 ++ a.2) !! k = Some b ->
    con_buf x ((con_r x + Z.of_nat k) mod INPUT_BUF_SIZE) = b;
}.
(** What holds whenever the lock of the console is free. *)
Definition cons_ok (x : console) : Prop := exists a, rtc cstep ([], []) a /\ crep x a.

(** The transmit ring never holds more than its size. *)
Definition uart_ok (u : uart) : Prop :=
  0 <= tx_r u < 2 ^ 64 /\ exists n, 0 <= n <= UART_TX_BUF_SIZE /\ tx_w u = u64 (tx_r u + n).

(** * Descriptors *)

(** A descriptor with the [info] of its index. *)
Definition dslot : Type := vdesc * option Z.

(** The request for buffer [b] at [i0], [i1], [i2], as [virtio_disk_rw] formats it. *)
Definition request (i0 i1 i2 b : Z) (write : bool) (x1 x2 : option Z) : gmap Z dslot :=
  <[i0 := (VDesc (VOp i0) 16 VRING_DESC_F_NEXT i1, Some b)]>
  (<[i1 := (VDesc (VData b) BSIZE (Z.lor (if write then 0 else VRING_DESC_F_WRITE) VRING_DESC_F_NEXT) i2, x1)]>
  {[ i2 := (VDesc (VStatus i0) 1 VRING_DESC_F_WRITE 0, x2) ]}).

(** Whole requests, of three descriptors each. *)
Inductive requests : gmap Z dslot -> Prop :=
| requests_nil : requests ∅
| requests_add M i0 i1 i2 b w x1 x2 : requests M -> NoDup [i0; i1; i2] ->
    M !! i0 = None -> M !! i1 = None -> M !! i2 = None ->
    requests (request i0 i1 i2 b w x1 x2 ∪ M).

(** [O t] are the descriptors of thread [t]: they are its own, and the others
    are free. *)
Record owned (d : disk) (O : thread -> gmap Z dslot) : Prop := {
  own_all i : 0 <= i < NUM -> d_free d i = false -> exists t, is_Some (O t !! i);
  own_at t i v : O t !! i = Some v -> 0 <= i < NUM /\ d_free d i = false /\ d_desc d i = v.1 /\ d_info d i = v.2;
  own_one t t' i : is_Some (O t !! i) -> is_Some (O t' !! i) -> t = t';
}.

(** * Ghost state *)

Record dghost := DGhost {
  l_cons : option console; l_uart : option uart; l_disk : option disk; l_own : gmap Z dslot;
}.
Definition set_l_cons v x := DGhost v (l_uart x) (l_disk x) (l_own x).
Definition set_l_uart v x := DGhost (l_cons x) v (l_disk x) (l_own x).
Definition set_l_disk v x := DGhost (l_cons x) (l_uart x) v (l_own x).
Definition set_l_own v x := DGhost (l_cons x) (l_uart x) (l_disk x) v.

(** The panics of the descriptor list. *)
Definition disk_panics : list string := ["free_desc 1"; "free_desc 2"]%string.
Definition dev_halt (h : halt) : Prop := match h with HPanic msg => msg ∉ disk_panics | _ => True end.

Create HintDb quiet.

Section inv.
Context {U : Type}.

(** The holder of lock [l] knows the data; there is one holder. *)
Definition guarded {X} (s : gst U) (G : thread -> dghost) (l : lockid) (get : dghost -> option X) (val : X) : Prop :=
  forall t x, get (G t) = Some x ->
    l_locked (s_lk s l) = true /\ val = x /\ forall t', is_Some (get (G t')) -> t' = t.

Record dinv (s : gst U) (G : thread -> dghost) : Prop := {
  dv_cons : guarded s G ConsLock l_cons (g_cons (s_glob s));
  dv_uart : guarded s G UartLock l_uart (g_uart (s_glob s));
  dv_disk : guarded s G DiskLock l_disk (g_disk (s_glob s));
  dv_ring : exists a, crep (g_cons (s_glob s)) a;
  dv_line : (forall t, l_cons (G t) = None) -> cons_ok (g_cons (s_glob s));
  dv_tx : uart_ok (g_uart (s_glob s));
  dv_own : owned (g_disk (s_glob s)) (fun t => l_own (G t));
  dv_req t : l_disk (G t) = None -> requests (l_own (G t));
}.

(** * Code that leaves the drivers alone *)

Definition dev_lock (l : lockid) : bool :=
  match l with ConsLock | UartLock | DiskLock => true | _ => false end.

Definition quiet_evt {X} (e : evt U X) : Prop :=
  match e with
  | LkInit l | TestAndSet l | LkRelease l => dev_lock l = false
  | ModG f => forall g, g_cons (f g) = g_cons g /\ g_uart (f g) = g_uart g /\ g_disk (f g) = g_disk g
  | Panic msg => msg ∉ disk_panics
  | _ => True
  end.
Fixpoint quiet {A} (m : T U A) : Prop :=
  match m with
  | TRet _ => True
  | TVis e k => quiet_evt e /\ forall x, quiet (k x)
  | TIter body i k => (forall j, quiet (body j)) /\ forall r, quiet (k r)
  end.

Lemma quiet_bind {A B} (m : T U A) (f : A -> T U B) : quiet m -> (forall a, quiet (f a)) -> quiet (m ≫= f).
Proof.
  intros Hm Hf. change (m ≫= f) with (tbind f m). induction m as [A a|A X e k IH|A I R body IHb i k IH]; simpl.
  - apply Hf.
  - destruct Hm as [He Hk]. split; [done|]. auto.
  - destruct Hm as [Hb Hk]. split; [done|]. auto.
Qed.
Lemma quiet_ret {A} (a : A) : quiet (mret a).
Proof. done. Qed.
Lemma quiet_ev {X} (e : evt U X) : quiet_evt e -> quiet (ev e).
Proof. done. Qed.
Lemma quiet_loop {I R} (body : I -> T U (I + R)) i : (forall j, quiet (body j)) -> quiet (loop body i).
Proof. done. Qed.
Lemma quiet_panic {A} msg : msg ∉ disk_panics -> quiet (tpanic (A := A) msg).
Proof. split; [done|]. by intros []. Qed.
Lemma quiet_tfor {X} (l : list X) body : (forall x, quiet (body x)) -> quiet (tfor l body).
Proof. intros H. induction l; simpl; [done|]. by apply quiet_bind. Qed.
Lemma quiet_tfind {X R} (l : list X) (body : X -> T U (option R)) : (forall x, quiet (body x)) -> quiet (tfind l body).
Proof. intros H. induction l; simpl; [done|]. apply quiet_bind; [done|]. by intros []. Qed.

End inv.
Arguments quiet {U A} m : simpl never.
#[export] Hint Extern 1 (quiet (ev _)) => (apply quiet_ev; first [exact I | reflexivity | intros []; done]) : quiet.
#[export] Hint Extern 1 (quiet (tpanic _)) => (apply quiet_panic; unfold disk_panics; set_solver) : quiet.

(** Code built from known code. *)
Ltac qt := autounfold with quiet; repeat first
  [ apply quiet_ret | solve [auto with quiet] | apply quiet_bind; [|intros ?]
  | apply quiet_loop; intros ? | apply quiet_tfor; intros ? | apply quiet_tfind; intros ?
  | match goal with
    | |- quiet (match ?e with _ => _ end) => destruct e
    end ].

Section rules.
Context {U : Type}.
Implicit Types s : gst U.

(** The state of the drivers and their locks. *)
Definition same_dev (s s' : gst U) : Prop :=
  (forall l, dev_lock l = true -> l_locked (s_lk s' l) = l_locked (s_lk s l)) /\ g_cons (s_glob s') = g_cons (s_glob s) /\
  g_uart (s_glob s') = g_uart (s_glob s) /\ g_disk (s_glob s') = g_disk (s_glob s).

Lemma dinv_same s s' G : same_dev s s' -> dinv s G -> dinv s' G.
Proof.
  intros (Hl & Hc & Hu & Hd) [H1 H2 H3 H4 H5 H6 H7 H8]. split; rewrite ?Hc, ?Hu, ?Hd; try done;
    intros t x Hx; rewrite Hl by done; eauto.
Qed.

Lemma quiet_same o c {X} (e : evt U X) s x s' : quiet_evt e -> exec o c e s = RStep _ x s' -> same_dev s s'.
Proof.
  intros He Hx. destruct e; simpl in He, Hx; simplify_eq; try done;
    try (repeat case_match; simplify_eq; done);
    try (split; [|done]; intros l' Hl'; simpl; rewrite fn_lookup_insert_ne by congruence; done).
  - split; [|done]. intros l' _. simpl. destruct (decide (l = l')) as [<-|]; [|by rewrite fn_lookup_insert_ne].
    by rewrite fn_lookup_insert.
  - split; [done|]. apply He.
Qed.

Lemma quiet_halt o c {X} (e : evt U X) s h : quiet_evt e -> exec o c e s = RHalt _ h -> dev_halt h.
Proof. intros He Hx. destruct e; simpl in He, Hx; simplify_eq; repeat case_match; simplify_eq; done. Qed.

(** * Rules *)

Local Abbreviation dwp := (gwp (U := U) (fun s _ => dinv s) dev_halt (fun _ => True)).

Lemma dwp_quiet t {A} (m : T U A) (Q : A -> dghost -> Prop) l :
  quiet m -> (forall a, Q a l) -> dwp t m Q l.
Proof.
  revert Q. induction m as [A a|A X e k IH|A I R body IHb i k IH]; intros Q Hm HQ; [apply HQ| |].
  - destruct Hm as [He Hk]. intros o c s cu G HI Hl Hd. destruct (exec o c e s) as [x s'|from to x|i x| |h] eqn:Ex; try done.
    + exists G. split; [|split; [done|]]; [by eapply dinv_same, HI; eapply quiet_same|].
      rewrite Hl. by apply IH.
    + exists G. split; [done|]. split; [done|]. rewrite Hl. by apply IH.
    + exists G. split; [done|]. split; [done|]. split; [done|]. rewrite Hl. by apply IH.
    + by eapply quiet_halt.
  - destruct Hm as [Hb Hk]. exists (fun _ l' => l' = l). split; [done|]. intros j l1 ->.
    apply IHb; [done|]. intros [j'|r]; [done|]. by apply IH.
Qed.

Lemma dwp_panic t {A} msg (Q : A -> dghost -> Prop) l : msg ∉ disk_panics -> dwp t (tpanic (U := U) msg) Q l.
Proof. intros Hm o c s cu G HI Hl Hd. exact Hm. Qed.

Lemma dwp_seq t {A B} (m : T U A) (f : A -> T U B) (Q : B -> dghost -> Prop) l :
  quiet m -> (forall a, dwp t (f a) Q l) -> dwp t (m ≫= f) Q l.
Proof. intros Hm Hf. apply gwp_bind. by apply dwp_quiet. Qed.

Lemma local_insert t (G : thread -> dghost) l : local_to t G (<[t := l]> G).
Proof. intros t' Hne. by rewrite fn_lookup_insert_ne. Qed.

Lemma get_insert {Y} (get : dghost -> Y) (G : thread -> dghost) t l' t' :
  get (<[t := l']> G t') = if decide (t = t') then get l' else get (G t').
Proof. case_decide; subst; by rewrite ?fn_lookup_insert, ?fn_lookup_insert_ne. Qed.

(** The ghost state of [t] becomes [l']: what the thread knows of one lock's
    data stays, follows an update, is given up or is gained. *)
Section guarded.
Context {X : Type} (get : dghost -> option X) (lk : lockid).
Implicit Types (G : thread -> dghost) (t : thread) (x y : X).

Lemma guarded_keep s s' G t l' x :
  guarded s G lk get x -> l_locked (s_lk s' lk) = l_locked (s_lk s lk) -> get l' = get (G t) ->
  guarded s' (<[t := l']> G) lk get x.
Proof.
  intros H Hl Hg. assert (He : forall t', get (<[t := l']> G t') = get (G t')).
  { intros t'. rewrite get_insert. case_decide; congruence. }
  intros t1 y. rewrite He. intros H1. destruct (H t1 y H1) as (? & ? & H2). rewrite Hl. split; [done|].
  split; [done|]. intros t'. rewrite He. apply H2.
Qed.
Lemma guarded_set s s' G t l' x x' :
  guarded s G lk get x -> l_locked (s_lk s' lk) = l_locked (s_lk s lk) -> is_Some (get (G t)) ->
  get l' = Some x' -> guarded s' (<[t := l']> G) lk get x'.
Proof.
  intros H Hl [y Hy] Hg. destruct (H t y Hy) as (Hk & _ & H2).
  intros t1 z. rewrite get_insert. case_decide as E; [subst|by intros H1; destruct E; rewrite (H2 t1)].
  intros ?. rewrite Hl. split; [done|]. split; [congruence|]. intros t'. rewrite get_insert.
  case_decide; [done|]. apply H2.
Qed.
Lemma guarded_drop s s' G t l' x : guarded s G lk get x -> is_Some (get (G t)) -> get l' = None ->
  guarded s' (<[t := l']> G) lk get x.
Proof.
  intros H [y Hy] Hg. destruct (H t y Hy) as (_ & _ & H2). intros t1 z. rewrite get_insert.
  case_decide as E; [congruence|]. intros H1. destruct E. by rewrite (H2 t1).
Qed.
Lemma guarded_none s G x : guarded s G lk get x -> l_locked (s_lk s lk) = false -> forall t, get (G t) = None.
Proof. intros H Hl t. destruct (get (G t)) as [y|] eqn:E; [|done]. destruct (H t y E). congruence. Qed.
Lemma guarded_take s s' G t l' x : guarded s G lk get x -> l_locked (s_lk s lk) = false ->
  l_locked (s_lk s' lk) = true -> get l' = Some x -> guarded s' (<[t := l']> G) lk get x.
Proof.
  intros H Hl Hl' Hg. pose proof (guarded_none s G x H Hl) as Hn. intros t1 z. rewrite get_insert.
  case_decide; [subst|by rewrite Hn]. intros ?. split; [done|]. split; [congruence|].
  intros t' [y Hy]. rewrite get_insert in Hy. case_decide; [done|]. by rewrite Hn in Hy.
Qed.
End guarded.

Lemma dwp_getg t {X} (f : glob U -> X) Q l :
  (forall g, (forall x, l_cons l = Some x -> g_cons g = x) -> (forall x, l_uart l = Some x -> g_uart g = x) ->
     (forall x, l_disk l = Some x -> g_disk g = x) ->
     (forall i v, l_own l !! i = Some v ->
        d_free (g_disk g) i = false /\ d_desc (g_disk g) i = v.1 /\ d_info (g_disk g) i = v.2) ->
     Q (f g) l) -> dwp t (getg f) Q l.
Proof.
  intros H o c s cu G HI Hl _. simpl. exists G. split; [done|]. split; [done|]. subst l. apply H.
  - intros x Hx. by apply (dv_cons _ _ HI t).
  - intros x Hx. by apply (dv_uart _ _ HI t).
  - intros x Hx. by apply (dv_disk _ _ HI t).
  - intros i v Hv. by destruct (own_at _ _ (dv_own _ _ HI) t i v Hv) as (_ & ?).
Qed.

Lemma owned_ext d O O' : (forall t, O t = O' t) -> owned d O -> owned d O'.
Proof. intros He [O1 O2 O3]. split; setoid_rewrite <- He; done. Qed.

(** The descriptors after [t] changed its own to [M]. *)
Definition owners (G : thread -> dghost) (t : thread) (M : gmap Z dslot) (t' : thread) : gmap Z dslot :=
  if decide (t = t') then M else l_own (G t').

Lemma owners_own G t d : owned d (fun t' => l_own (G t')) -> owned d (owners G t (l_own (G t))).
Proof. apply owned_ext. intros t'. unfold owners. by case_decide; subst. Qed.

Lemma dinv_upd s s' (G : thread -> dghost) t l' :
  dinv s G ->
  guarded s' (<[t := l']> G) ConsLock l_cons (g_cons (s_glob s')) ->
  guarded s' (<[t := l']> G) UartLock l_uart (g_uart (s_glob s')) ->
  guarded s' (<[t := l']> G) DiskLock l_disk (g_disk (s_glob s')) ->
  (exists a, crep (g_cons (s_glob s')) a) ->
  (l_cons l' = None -> (forall t', t' <> t -> l_cons (G t') = None) -> cons_ok (g_cons (s_glob s'))) ->
  uart_ok (g_uart (s_glob s')) -> owned (g_disk (s_glob s')) (owners G t (l_own l')) ->
  (l_disk l' = None -> requests (l_own l')) -> dinv s' (<[t := l']> G).
Proof.
  intros HI H1 H2 H3 H4 H5 H6 H7 H8. split; try done.
  - intros Hn. apply H5; [specialize (Hn t); by rewrite fn_lookup_insert in Hn|].
    intros t' Hne. specialize (Hn t'). by rewrite fn_lookup_insert_ne in Hn.
  - revert H7. apply owned_ext. intros t'. unfold owners. rewrite (get_insert l_own). done.
  - intros t'. rewrite (get_insert l_own), (get_insert l_disk). case_decide; [done|]. apply HI.
Qed.

(** The holder of [ConsLock] is the only thread that knows the console. *)
Lemma line_free s (G : thread -> dghost) t x : dinv s G -> l_cons (G t) = Some x ->
  forall t', t' <> t -> l_cons (G t') = None.
Proof.
  intros HI Hx t' Hne. destruct (l_cons (G t')) as [y|] eqn:E; [|done]. destruct Hne.
  by apply (dv_cons _ _ HI t x).
Qed.

Lemma line_kept s (G : thread -> dghost) t l' : dinv s G -> l_cons l' = l_cons (G t) ->
  l_cons l' = None -> (forall t', t' <> t -> l_cons (G t') = None) -> cons_ok (g_cons (s_glob s)).
Proof.
  intros HI Hl Hn H. apply HI. intros t'. destruct (decide (t' = t)) as [->|]; [congruence|by apply H].
Qed.

(** One write of a field of the shared state, by the holder of its lock. *)
Lemma dwp_modcons t f Q l x :
  l_cons l = Some x -> (exists a, crep (f x) a) -> Q tt (set_l_cons (Some (f x)) l) -> dwp t (modcons f) Q l.
Proof.
  intros Hx Hr HQ o c s cu G HI Hl _. subst l. destruct (dv_cons _ _ HI t x Hx) as (_ & Hv & _).
  exists (<[t := set_l_cons (Some (f x)) (G t)]> G). split; [|split; [apply local_insert|by rewrite fn_lookup_insert]].
  apply (dinv_upd s); simpl; rewrite ?Hv; try done.
  - eapply guarded_set; [apply HI|done..].
  - eapply guarded_keep; [apply HI|done..].
  - eapply guarded_keep; [apply HI|done..].
  - apply HI.
  - apply owners_own, HI.
  - apply HI.
Qed.

Lemma dwp_moduart t f Q l x :
  l_uart l = Some x -> uart_ok (f x) -> Q tt (set_l_uart (Some (f x)) l) -> dwp t (moduart f) Q l.
Proof.
  intros Hx Hr HQ o c s cu G HI Hl _. subst l. destruct (dv_uart _ _ HI t x Hx) as (_ & Hv & _).
  exists (<[t := set_l_uart (Some (f x)) (G t)]> G). split; [|split; [apply local_insert|by rewrite fn_lookup_insert]].
  apply (dinv_upd s); simpl; rewrite ?Hv; try done.
  - eapply guarded_keep; [apply HI|done..].
  - eapply guarded_set; [apply HI|done..].
  - eapply guarded_keep; [apply HI|done..].
  - apply HI.
  - by eapply (line_kept _ _ t (set_l_uart (Some (f x)) (G t))).
  - apply owners_own, HI.
  - apply HI.
Qed.

(** A write of the driver's state that leaves thread [t] the descriptors [M]. *)
Lemma dwp_moddisk t f Q l d M :
  l_disk l = Some d ->
  (forall O, owned d O -> O t = l_own l -> owned (f d) (fun t' => if decide (t = t') then M else O t')) ->
  Q tt (set_l_own M (set_l_disk (Some (f d)) l)) -> dwp t (moddisk f) Q l.
Proof.
  intros Hx Ho HQ o c s cu G HI Hl _. subst l. destruct (dv_disk _ _ HI t d Hx) as (_ & Hv & _).
  set (l' := set_l_own M (set_l_disk (Some (f d)) (G t))).
  exists (<[t := l']> G). split; [|split; [apply local_insert|by rewrite fn_lookup_insert]].
  apply (dinv_upd s); simpl; rewrite ?Hv; try done.
  - eapply guarded_keep; [apply HI|done..].
  - eapply guarded_keep; [apply HI|done..].
  - eapply guarded_set; [apply HI|done..].
  - apply HI.
  - by eapply (line_kept _ _ t l').
  - apply HI.
  - apply (Ho (fun t' => l_own (G t'))); [|done]. rewrite <- Hv. apply HI.
Qed.

(** * Locks *)

Lemma quiet_push_off : quiet (push_off (U := U)).
Proof. unfold push_off, mycpu, cpuid. qt. Qed.
Lemma quiet_pop_off : quiet (pop_off (U := U)).
Proof. unfold pop_off, mycpu, cpuid. qt. Qed.
Lemma quiet_holding l : quiet (holding (U := U) l).
Proof. unfold holding, mycpu, cpuid. qt. Qed.

Lemma dwp_acquire t lk Q l :
  (forall s G, dinv s G -> G t = l -> l_locked (s_lk s lk) = false ->
     exists l', dinv (upd_lk lk (Spinlock true (l_cpu (s_lk s lk))) s) (<[t := l']> G) /\ Q tt l') ->
  dwp t (acquire lk) Q l.
Proof.
  intros H. unfold acquire, mycpu, cpuid. apply dwp_seq; [apply quiet_push_off|]. intros _.
  apply dwp_seq; [apply quiet_holding|]. intros [].
  { apply dwp_panic. unfold disk_panics. set_solver. }
  apply gwp_bind, (gwp_loop _ _ _ _ _ _ _ (fun _ l1 => l1 = l)); [done|]. intros _ l1 ->.
  apply gwp_bind. intros o c s cu G HI Hl _. simpl. destruct (l_locked (s_lk s lk)) eqn:E.
  - exists G. split; [|split; [done|done]]. eapply dinv_same, HI. split; [|done]. intros l' Hl'. simpl.
    destruct (decide (lk = l')) as [<-|]; [|by rewrite fn_lookup_insert_ne]. by rewrite fn_lookup_insert, E.
  - destruct (H s G HI Hl E) as (l' & HI' & HQ). exists (<[t := l']> G). split; [done|].
    split; [apply local_insert|]. rewrite fn_lookup_insert. apply dwp_seq; [done|]. intros c'.
    apply dwp_quiet; [done|]. by intros [].
Qed.

Lemma dwp_release t lk Q l :
  (forall s G, dinv s G -> G t = l ->
     exists l', dinv (upd_lk lk (Spinlock false (l_cpu (s_lk s lk))) s) (<[t := l']> G) /\ Q tt l') ->
  dwp t (release lk) Q l.
Proof.
  intros H. unfold release. apply dwp_seq; [apply quiet_holding|]. intros []; simpl.
  2: { apply dwp_panic. unfold disk_panics. set_solver. }
  apply dwp_seq; [done|]. intros _. apply gwp_bind. intros o c s cu G HI Hl _. simpl.
  destruct (H s G HI Hl) as (l' & HI' & HQ). exists (<[t := l']> G). split; [done|].
  split; [apply local_insert|]. rewrite fn_lookup_insert. refine (dwp_quiet t pop_off Q l' quiet_pop_off _). by intros [].
Qed.

Lemma dwp_acquire_cons t Q l :
  (forall x, l_cons l = None -> cons_ok x -> Q tt (set_l_cons (Some x) l)) -> dwp t (acquire ConsLock) Q l.
Proof.
  intros H. apply dwp_acquire. intros s G HI Hl E. subst l.
  pose proof (guarded_none _ _ _ _ _ (dv_cons _ _ HI) E) as Hn.
  eexists. split; [|apply H; [apply Hn|by apply HI]]. apply (dinv_upd s); simpl; rewrite ?fn_lookup_insert; try done;
    try (by eapply guarded_keep; [apply HI|done..]); try apply HI; try apply owners_own, HI.
  eapply guarded_take; [apply HI|done..].
Qed.
Lemma dwp_acquire_uart t Q l :
  (forall x, l_uart l = None -> uart_ok x -> Q tt (set_l_uart (Some x) l)) -> dwp t (acquire UartLock) Q l.
Proof.
  intros H. apply dwp_acquire. intros s G HI Hl E. subst l.
  pose proof (guarded_none _ _ _ _ _ (dv_uart _ _ HI) E) as Hn.
  eexists. split; [|apply H; [apply Hn|apply HI]].
  apply (dinv_upd s); simpl; rewrite ?fn_lookup_insert; try done;
    try (by eapply guarded_keep; [apply HI|done..]); try apply HI; try apply owners_own, HI.
  - eapply guarded_take; [apply HI|done..].
  - intros Hc Hc'. by apply (line_kept s G t (G t)).
Qed.
Lemma dwp_acquire_disk t Q l :
  (forall x, l_disk l = None -> requests (l_own l) -> Q tt (set_l_disk (Some x) l)) -> dwp t (acquire DiskLock) Q l.
Proof.
  intros H. apply dwp_acquire. intros s G HI Hl E. subst l.
  pose proof (guarded_none _ _ _ _ _ (dv_disk _ _ HI) E) as Hn.
  eexists. split; [|apply H; [apply Hn|by apply HI]].
  apply (dinv_upd s); simpl; rewrite ?fn_lookup_insert; try done;
    try (by eapply guarded_keep; [apply HI|done..]); try apply HI; try apply owners_own, HI.
  - eapply guarded_take; [apply HI|done..].
  - intros Hc Hc'. by apply (line_kept s G t (G t)).
Qed.

Lemma dwp_release_cons t Q l x :
  l_cons l = Some x -> cons_ok x -> Q tt (set_l_cons None l) -> dwp t (release ConsLock) Q l.
Proof.
  intros Hx Hok HQ. apply dwp_release. intros s G HI Hl. subst l. eexists. split; [|exact HQ].
  destruct (dv_cons _ _ HI t x Hx) as (_ & Hv & _).
  apply (dinv_upd s); simpl; rewrite ?fn_lookup_insert; try done;
    try (by eapply guarded_keep; [apply HI|done..]); try apply HI; try apply owners_own, HI.
  - by eapply guarded_drop; [apply HI|..].
  - by rewrite Hv.
Qed.
Lemma dwp_release_uart t Q l x :
  l_uart l = Some x -> Q tt (set_l_uart None l) -> dwp t (release UartLock) Q l.
Proof.
  intros Hx HQ. apply dwp_release. intros s G HI Hl. subst l. eexists. split; [|exact HQ].
  apply (dinv_upd s); simpl; rewrite ?fn_lookup_insert; try done;
    try (by eapply guarded_keep; [apply HI|done..]); try apply HI; try apply owners_own, HI.
  - by eapply guarded_drop; [apply HI|..].
  - intros Hc Hc'. by apply (line_kept s G t (G t)).
Qed.
Lemma dwp_release_disk t Q l x :
  l_disk l = Some x -> requests (l_own l) -> Q tt (set_l_disk None l) -> dwp t (release DiskLock) Q l.
Proof.
  intros Hx Hok HQ. apply dwp_release. intros s G HI Hl. subst l. eexists. split; [|exact HQ].
  apply (dinv_upd s); simpl; rewrite ?fn_lookup_insert; try done;
    try (by eapply guarded_keep; [apply HI|done..]); try apply HI; try apply owners_own, HI.
  - by eapply guarded_drop; [apply HI|..].
  - intros Hc Hc'. by apply (line_kept s G t (G t)).
Qed.
End rules.
Abbreviation dwp := (gwp (fun s _ => dinv s) dev_halt (fun _ => True)).
