(* ===== verification/DevSpec.v ===== *)
(** The drivers keep the invariant of KDev.v: the code of kernel/console.c,
    kernel/uart.c and kernel/virtio_disk.c in the logic of KGhost.v, and the rest
    of the kernel, which does not touch their data. *)

From S2P Require Import Prelude BufCache BufSpec KState Log CString Fs Kalloc PipeRing File Sysfile Vm KThread Printf Proc Console Virtio Exec Trap KLogic KInv KGhost KDev.
From Stdlib Require Import Ascii.
Local Open Scope Z_scope.

#[export] Hint Unfold getp modp getg modg onmem onfs mycpu cpuid undefined : quiet.
#[export] Hint Resolve quiet_push_off quiet_pop_off quiet_holding : quiet.

(** * The kernel without its drivers *)

Section quiet.
Context {U : Type} `{!UserMem U}.
Local Abbreviation M := (T U).

Lemma quiet_acquire l : dev_lock l = false -> quiet (acquire (U := U) l).
Proof. intros H. unfold acquire. qt. by apply quiet_ev. Qed.
Lemma quiet_release l : dev_lock l = false -> quiet (release (U := U) l).
Proof. intros H. unfold release. qt. by apply quiet_ev. Qed.
End quiet.
#[export] Hint Extern 1 (quiet (acquire _)) => (apply quiet_acquire; reflexivity) : quiet.
#[export] Hint Extern 1 (quiet (release _)) => (apply quiet_release; reflexivity) : quiet.

Section quiet.
Context {U : Type}.

Lemma quiet_hang {A} : quiet (hang : T U A).
Proof. unfold hang. qt. Qed.
Hint Resolve quiet_hang : quiet.
Lemma quiet_consputc c : quiet (consputc (U := U) c).
Proof. unfold consputc, uartputc_sync. qt. Qed.
Hint Resolve quiet_consputc : quiet.
Lemma quiet_printf f ap : quiet (printf (U := U) f ap).
Proof. unfold printf. qt. Qed.
Hint Resolve quiet_printf : quiet.
Lemma quiet_myproc : quiet (myproc (U := U)).
Proof. unfold myproc. qt. Qed.
Hint Resolve quiet_myproc : quiet.
Lemma quiet_cur : quiet (cur (U := U)).
Proof. unfold cur. qt. Qed.
Hint Resolve quiet_cur : quiet.
Lemma quiet_allocpid : quiet (allocpid (U := U)).
Proof. unfold allocpid. qt. Qed.
Hint Resolve quiet_allocpid : quiet.
Lemma quiet_freeproc kend p : quiet (freeproc (U := U) kend p).
Proof. unfold freeproc. qt. Qed.
Hint Resolve quiet_freeproc : quiet.
Lemma quiet_allocproc kend trampoline : quiet (allocproc (U := U) kend trampoline).
Proof. unfold allocproc. qt. Qed.
Hint Resolve quiet_allocproc : quiet.
Lemma quiet_growproc kend n : quiet (growproc (U := U) kend n).
Proof. unfold growproc. qt. Qed.
Lemma quiet_fork `{!UserMem U} kend trampoline : quiet (fork (U := U) kend trampoline).
Proof. unfold fork, fork_file. qt. Qed.
Lemma quiet_sched_scan c l n : quiet (sched_scan (U := U) c l n).
Proof. revert n. induction l as [|p l IH]; intros n; cbn [sched_scan]; qt. Qed.
Hint Resolve quiet_sched_scan : quiet.
Lemma quiet_scheduler : quiet (scheduler (U := U)).
Proof. unfold scheduler. qt. Qed.
Lemma quiet_sched : quiet (sched (U := U)).
Proof. unfold sched. qt. Qed.
Hint Resolve quiet_sched : quiet.
Lemma quiet_yield : quiet (yield (U := U)).
Proof. unfold yield. qt. Qed.
Lemma quiet_sleep ch l : dev_lock l = false -> quiet (sleep (U := U) ch l).
Proof. intros H. pose proof (quiet_acquire (U := U) l H). pose proof (quiet_release (U := U) l H). unfold sleep. qt. Qed.
Lemma quiet_wakeup ch : quiet (wakeup (U := U) ch).
Proof. unfold wakeup. qt. Qed.
Hint Resolve quiet_wakeup : quiet.
Lemma quiet_kill pid : quiet (kill (U := U) pid).
Proof. unfold kill. qt. Qed.
Lemma quiet_setkilled p : quiet (setkilled (U := U) p).
Proof. unfold setkilled. qt. Qed.
Lemma quiet_killed p : quiet (killed (U := U) p).
Proof. unfold killed. qt. Qed.
Lemma quiet_exit `{!UserMem U} {A} n : quiet (exit n : T U A).
Proof. unfold exit, exit_file, reparent. qt. Qed.
Lemma quiet_wait_scan kend p a l h : quiet (wait_scan (U := U) kend p a l h).
Proof. revert h. induction l as [|i l IH]; intros h; cbn [wait_scan]; qt. Qed.
Lemma quiet_wait kend a : quiet (wait (U := U) kend a).
Proof.
  pose proof quiet_wait_scan. pose proof quiet_killed. pose proof (fun c => quiet_sleep c WaitLock eq_refl).
  unfold wait. qt.
Qed.
Lemma quiet_copyin1 us src : quiet (copyin1 (U := U) us src).
Proof. unfold copyin1. qt. Qed.
Lemma quiet_copyout1 us dst c : quiet (copyout1 (U := U) us dst c).
Proof. unfold copyout1. qt. Qed.
Lemma quiet_procdump : quiet (procdump (U := U)).
Proof. unfold procdump. qt. Qed.
Lemma quiet_usertrapret trampoline uservec usertrap_addr : quiet (usertrapret (U := U) trampoline uservec usertrap_addr).
Proof. unfold usertrapret. qt. Qed.
Hint Resolve quiet_usertrapret : quiet.
Lemma quiet_forkret `{!UserMem U} trampoline uservec usertrap_addr : quiet (forkret (U := U) trampoline uservec usertrap_addr).
Proof. unfold forkret. qt. Qed.
End quiet.

(** * The ring of the console *)

Lemma u32_ring z : u32 z mod INPUT_BUF_SIZE = z mod INPUT_BUF_SIZE.
Proof.
  unfold u32, INPUT_BUF_SIZE. change (2 ^ 32) with (128 * 2 ^ 25). rewrite Z.rem_mul_r by lia.
  rewrite Z.mul_comm, Z.mod_add by lia. by apply Z.mod_small, Z.mod_pos_bound.
Qed.

Lemma u32_add_l a b : u32 (u32 a + b) = u32 (a + b).
Proof. unfold u32. by rewrite Zplus_mod_idemp_l. Qed.
Lemma u32_sub_l a b : u32 (u32 a - b) = u32 (a - b).
Proof. unfold u32. by rewrite Zminus_mod_idemp_l. Qed.

(** Two offsets from the same index are equal when they are close. *)
Lemma u32_offset r m n : 0 <= m <= 128 -> 0 <= n <= 128 -> u32 (r + m) = u32 (r + n) -> m = n.
Proof.
  unfold u32. intros Hm Hn H. assert (Hd : (m - n) mod 2 ^ 32 = 0).
  { replace (m - n) with ((r + m) - (r + n)) by lia. by rewrite Zminus_mod, H, Z.sub_diag. }
  apply Z.mod_divide in Hd as [k Hk]; [|done]. lia.
Qed.

Lemma used_nonneg a : 0 <= used a.
Proof. unfold used. lia. Qed.

Lemma crep_range x a : crep x a -> 0 <= con_w x < 2 ^ 32 /\ 0 <= con_e x < 2 ^ 32.
Proof. intros C. rewrite (crep_w _ _ C), (crep_e _ _ C). split; apply u32_range. Qed.

Lemma crep_used x a : crep x a -> u32 (con_e x - con_r x) = used a.
Proof.
  intros C. rewrite (crep_e _ _ C), u32_sub_l. replace (con_r x + used a - con_r x) with (used a) by lia.
  apply u32_small. pose proof (crep_fit _ _ C). pose proof (used_nonneg a). unfold INPUT_BUF_SIZE in *. lia.
Qed.

Lemma crep_empty x a : crep x a -> (con_r x =? con_w x) = bool_decide (a.1 = []).
Proof.
  intros C. pose proof (crep_fit _ _ C) as Hf. unfold used, INPUT_BUF_SIZE in Hf. rewrite (crep_w _ _ C).
  case_bool_decide as E; [rewrite E; simpl; rewrite Z.add_0_r, u32_small by exact (crep_r _ _ C); apply Z.eqb_refl|].
  apply Z.eqb_neq. intros H. rewrite <- (u32_small (con_r x)) in H at 1 by exact (crep_r _ _ C).
  rewrite <- (Z.add_0_r (con_r x)) in H at 1. apply u32_offset in H; [|lia..].
  destruct a.1; simpl in *; [done|lia].
Qed.

Lemma crep_noline x a : crep x a -> (con_e x =? con_w x) = bool_decide (a.2 = []).
Proof.
  intros C. pose proof (crep_fit _ _ C) as Hf. unfold used, INPUT_BUF_SIZE in Hf.
  rewrite (crep_w _ _ C), (crep_e _ _ C). unfold used.
  case_bool_decide as E; [rewrite E; simpl; apply Z.eqb_eq; f_equal; lia|].
  apply Z.eqb_neq. intros H. apply u32_offset in H; [|lia..]. destruct a.2; simpl in *; [done|lia].
Qed.

(** A byte stored at the end of a ring that is not full. *)
Lemma crep_store x a b : crep x a -> used a < INPUT_BUF_SIZE ->
  crep (set_con_buf (<[con_e x mod INPUT_BUF_SIZE := b]> (con_buf x)) x) a.
Proof.
  intros C Hu. destruct C as [Hr Hw He Hf Hb]. split; try done. intros k v Hk. simpl.
  rewrite fn_lookup_insert_ne; [by apply Hb|]. rewrite He, u32_ring. intros E.
  apply lookup_lt_Some in Hk. rewrite length_app in Hk. unfold used, INPUT_BUF_SIZE in *.
  assert (Hd : (Z.of_nat (length a.1 + length a.2) - Z.of_nat k) mod 128 = 0).
  { replace (Z.of_nat (length a.1 + length a.2) - Z.of_nat k) with
      ((con_r x + Z.of_nat (length a.1 + length a.2)) - (con_r x + Z.of_nat k)) by lia.
    by rewrite Zminus_mod, E, Z.sub_diag. }
  rewrite Z.mod_small in Hd; lia.
Qed.

Lemma crep_append x com line b : crep x (com, line) -> used (com, line) < INPUT_BUF_SIZE ->
  con_buf x (con_e x mod INPUT_BUF_SIZE) = b ->
  crep (set_con_e (u32 (con_e x + 1)) x) (com, line ++ [b]).
Proof.
  intros [Hr Hw He Hf Hb] Hu Hv. unfold used in *. simpl in *. split; simpl; try done.
  - rewrite He, u32_add_l. unfold used. simpl. f_equal. rewrite length_app. simpl. lia.
  - unfold used. simpl. rewrite length_app. simpl. lia.
  - intros k v. rewrite app_assoc. intros [[_ Hk]|[Hk ?]]%lookup_snoc_Some; [by apply Hb|].
    subst. rewrite He, u32_ring. do 2 f_equal. rewrite length_app. unfold used in *. simpl in *. lia.
Qed.

Lemma crep_commit x com line : crep x (com, line) -> crep (set_con_w (con_e x) x) (com ++ line, []).
Proof.
  intros [Hr Hw He Hf Hb]. unfold used in *. simpl in *.
  split; simpl; try done; unfold used; simpl; rewrite ?length_app, ?Nat.add_0_r, ?app_nil_r; done.
Qed.

Lemma crep_take x b com line : crep x (b :: com, line) ->
  con_buf x (con_r x mod INPUT_BUF_SIZE) = b /\ crep (set_con_r (u32 (con_r x + 1)) x) (com, line).
Proof.
  intros [Hr Hw He Hf Hb]. unfold used in *. simpl in *. split.
  - rewrite <- (Hb 0%nat b eq_refl). do 2 f_equal. lia.
  - split; simpl; try done.
    + apply u32_range.
    + rewrite Hw, u32_add_l. f_equal. lia.
    + rewrite He, u32_add_l. unfold used. simpl. f_equal. lia.
    + unfold used, INPUT_BUF_SIZE in *. simpl. lia.
    + intros k v Hk. rewrite <- (Hb (S k) v Hk). f_equal.
      rewrite Z.add_mod, u32_ring, <- Z.add_mod by done. f_equal. lia.
Qed.

Lemma crep_erase x com line b : crep x (com, line ++ [b]) ->
  con_buf x (u32 (con_e x - 1) mod INPUT_BUF_SIZE) = b /\
  crep (set_con_e (u32 (con_e x - 1)) x) (com, line).
Proof.
  intros [Hr Hw He Hf Hb]. unfold used in *. simpl in *. rewrite length_app in *. simpl in *. split.
  - rewrite <- (Hb (length com + length line)%nat b).
    + rewrite u32_ring, He. rewrite Zminus_mod, u32_ring, <- Zminus_mod. do 2 f_equal. lia.
    + rewrite app_assoc. apply lookup_snoc_Some. right. rewrite length_app. done.
  - split; simpl; try done; unfold used, INPUT_BUF_SIZE in *; simpl; rewrite ?length_app in *; simpl in *; try lia.
    + rewrite He, u32_sub_l. f_equal. lia.
    + intros k v Hk. apply Hb. rewrite app_assoc, lookup_app_l; [done|]. by eapply lookup_lt_Some.
Qed.

(** * The line discipline *)

(** The line being typed has no newline and no control-D. *)
Lemma cstep_line a : rtc cstep ([], []) a -> Forall (fun b => b <> NL /\ b <> ctrl "D") a.2 /\ used a <= INPUT_BUF_SIZE.
Proof.
  intros H. apply (rtc_ind_r (fun a => Forall (fun b => b <> NL /\ b <> ctrl "D") a.2 /\ used a <= INPUT_BUF_SIZE) ([], [])) in H;
    [done| |].
  { split; [done|]. unfold used, INPUT_BUF_SIZE. simpl. lia. }
  clear a H. intros a a' _ Hs [Hl Hu]. destruct Hs as [c [com line] Hc|b com line]; simpl in *.
  2: { unfold used in *. simpl in *. split; [done|lia]. }
  unfold line_input, used in *. simpl in *.
  destruct (c =? ctrl "P"); [done|]. destruct (c =? ctrl "U"); [split; [done|simpl; lia]|].
  destruct ((c =? ctrl "H") || (c =? DEL)).
  { destruct line as [|b line _] using rev_ind; [done|]. simpl. rewrite removelast_last.
    rewrite length_app in Hu. apply Forall_app in Hl as [Hl _]. split; [done|simpl in *; lia]. }
  destruct (negb (c =? 0) && (_ <? _)) eqn:E; [|done]. apply andb_true_iff in E as [_ E%Z.ltb_lt].
  set (b := if c =? CR then NL else c). rewrite !length_app. simpl.
  destruct ((b =? NL) || (b =? ctrl "D") || _) eqn:E2; simpl; rewrite ?length_app; simpl; [split; [done|lia]|].
  rewrite !orb_false_iff, !Z.eqb_neq in E2. split; [|lia]. apply Forall_app. split; [done|]. apply Forall_singleton. tauto.
Qed.

(** * kernel/uart.c *)

Section devices.
Context {U : Type}.
Local Abbreviation dwp := (gwp (U := U) (fun s _ => dinv s) dev_halt (fun _ => True)).

Lemma dwp_get_cons t u k F x Q : Q x (DGhost (Some x) u k F) -> dwp t (getg g_cons) Q (DGhost (Some x) u k F).
Proof. intros HQ. apply dwp_getg. intros g Hx _ _ _. by rewrite (Hx x eq_refl). Qed.
Lemma dwp_get_uart t c k F x Q : Q x (DGhost c (Some x) k F) -> dwp t (getg g_uart) Q (DGhost c (Some x) k F).
Proof. intros HQ. apply dwp_getg. intros g _ Hx _ _. by rewrite (Hx x eq_refl). Qed.
Lemma dwp_set_cons t u k F x f Q : (exists a, crep (f x) a) -> Q tt (DGhost (Some (f x)) u k F) ->
  dwp t (modcons f) Q (DGhost (Some x) u k F).
Proof. intros. by eapply dwp_modcons. Qed.
Lemma dwp_set_uart t c k F x f Q : uart_ok (f x) -> Q tt (DGhost c (Some (f x)) k F) ->
  dwp t (moduart f) Q (DGhost c (Some x) k F).
Proof. intros. by eapply dwp_moduart. Qed.

(** [sleep] gives up its lock and takes it again. *)
Lemma dwp_sleep t ch lk Q l :
  dwp t (release lk) (fun _ l1 => dwp t (acquire lk) Q l1) l -> dwp t (sleep ch lk) Q l.
Proof.
  intros H. unfold sleep. apply dwp_seq; [apply quiet_cur|]. intros p.
  apply dwp_seq; [by apply quiet_acquire|]. intros _. apply gwp_bind. eapply gwp_mono; [|exact H].
  intros [] l1 H1. do 2 (apply dwp_seq; [apply quiet_ev; exact I|intros _]). apply dwp_seq; [apply quiet_sched|intros _].
  apply dwp_seq; [apply quiet_ev; exact I|intros _]. by apply dwp_seq; [apply quiet_release|intros _].
Qed.

Lemma dwp_sleep_uart t ch c k F x Q : (forall y, uart_ok y -> Q tt (DGhost c (Some y) k F)) ->
  dwp t (sleep ch UartLock) Q (DGhost c (Some x) k F).
Proof.
  intros HQ. apply dwp_sleep. eapply dwp_release_uart; [done|]. apply dwp_acquire_uart. intros y _ Hy. by apply HQ.
Qed.
Lemma dwp_sleep_cons t ch u k F x Q : cons_ok x -> (forall y, cons_ok y -> Q tt (DGhost (Some y) u k F)) ->
  dwp t (sleep ch ConsLock) Q (DGhost (Some x) u k F).
Proof.
  intros Hx HQ. apply dwp_sleep. eapply dwp_release_cons; [done|done|]. apply dwp_acquire_cons. intros y _ Hy. by apply HQ.
Qed.
Lemma dwp_sleep_disk t ch c u F x Q : requests F -> (forall y, Q tt (DGhost c u (Some y) F)) ->
  dwp t (sleep ch DiskLock) Q (DGhost c u (Some x) F).
Proof.
  intros Hx HQ. apply dwp_sleep. eapply dwp_release_disk; [done|done|]. apply dwp_acquire_disk. intros y _ _. by apply HQ.
Qed.

Lemma u64_add_l a b : u64 (u64 a + b) = u64 (a + b).
Proof. unfold u64. by rewrite Zplus_mod_idemp_l. Qed.

Lemma uart_sent u : uart_ok u -> tx_w u <> tx_r u -> uart_ok (set_tx_r (u64 (tx_r u + 1)) u).
Proof.
  intros (Hr & n & Hn & Hw) Hne. split; [apply Z.mod_pos_bound; done|]. exists (n - 1). simpl.
  assert (n <> 0). { intros ->. rewrite Z.add_0_r, u64_small in Hw by done. done. }
  rewrite u64_add_l. split; [lia|]. rewrite Hw. f_equal. lia.
Qed.
Lemma uart_queued u : uart_ok u -> tx_w u <> u64 (tx_r u + UART_TX_BUF_SIZE) -> uart_ok (set_tx_w (u64 (tx_w u + 1)) u).
Proof.
  intros (Hr & n & Hn & Hw) Hne. split; [done|]. exists (n + 1). simpl.
  assert (n <> UART_TX_BUF_SIZE) by (intros ->; done).
  split; [lia|]. rewrite Hw, u64_add_l. f_equal. lia.
Qed.

Lemma dwp_uartstart t c k F x Q : uart_ok x -> (forall y, uart_ok y -> Q tt (DGhost c (Some y) k F)) ->
  dwp t uartstart Q (DGhost c (Some x) k F).
Proof.
  intros Hx HQ. unfold uartstart.
  apply (gwp_loop _ _ _ _ _ _ _ (fun _ l => exists y, uart_ok y /\ l = DGhost c (Some y) k F)); [eauto|].
  intros _ l (y & Hy & ->). apply gwp_bind, dwp_get_uart. destruct (Z.eqb_spec (tx_w y) (tx_r y)).
  - apply dwp_seq; [done|]. intros _. by apply HQ.
  - apply dwp_seq; [done|]. intros ls. destruct (_ =? _); [by apply HQ|].
    apply gwp_bind, dwp_get_uart. pose proof (uart_sent y Hy n) as Hy'.
    apply gwp_bind, dwp_set_uart; [done|]. apply dwp_seq; [apply quiet_wakeup|]. intros _.
    apply dwp_seq; [done|]. intros _. eexists. split; [exact Hy'|done].
Qed.

Lemma dwp_uartputc t c l : dwp t (uartputc c) (fun _ l' => l' = l) l.
Proof.
  destruct l as [cn u k F]. unfold uartputc. apply gwp_bind, dwp_acquire_uart. simpl. intros x -> Hx.
  apply dwp_seq; [apply quiet_ev; exact I|]. intros p. apply dwp_seq; [destruct p; [apply quiet_hang|done]|]. intros _.
  apply gwp_bind, (gwp_loop _ _ _ _ _ _ _ (fun _ l => exists y, uart_ok y /\ l = DGhost cn (Some y) k F)); [by exists x|].
  intros _ l (y & Hy & ->). apply gwp_bind, dwp_get_uart.
  destruct (Z.eqb_spec (tx_w y) (u64 (tx_r y + UART_TX_BUF_SIZE))) as [|Hne].
  { apply gwp_bind, dwp_sleep_uart. intros z Hz. by exists z. }
  assert (Hy1 : uart_ok (set_tx_buf (<[tx_w y mod UART_TX_BUF_SIZE := u8 c]> (tx_buf y)) y)) by done.
  apply gwp_bind, dwp_set_uart; [done|]. apply gwp_bind, dwp_set_uart; [by apply (uart_queued _ Hy1)|].
  apply gwp_bind, dwp_uartstart; [by apply (uart_queued _ Hy1)|]. intros z _.
  eapply dwp_release_uart; done.
Qed.

(** * kernel/console.c *)

Lemma dwp_kill_line t u k F x com line Q :
  crep x (com, line) -> Forall (fun b => b <> NL) line ->
  (forall y, crep y (com, []) -> Q tt (DGhost (Some y) u k F)) -> dwp t kill_line Q (DGhost (Some x) u k F).
Proof.
  intros Hx Hn HQ. unfold kill_line.
  apply (gwp_loop _ _ _ _ _ _ _ (fun _ l => exists y line,
    crep y (com, line) /\ Forall (fun b => b <> NL) line /\ l = DGhost (Some y) u k F)); [eauto 10|].
  clear x line Hx Hn. intros _ l (y & line & Hy & Hn & ->). apply gwp_bind, dwp_get_cons.
  rewrite (crep_noline _ _ Hy). simpl. destruct line as [|b line _] using rev_ind; [by apply HQ|].
  rewrite bool_decide_eq_false_2 by (by destruct line). simpl.
  destruct (crep_erase _ _ _ _ Hy) as [-> Hy']. apply Forall_app in Hn as [Hn Hb].
  rewrite Forall_singleton in Hb. destruct (Z.eqb_spec b NL) as [|_]; [done|]. simpl.
  apply gwp_bind, dwp_set_cons; [by eexists|]. apply dwp_seq; [apply quiet_consputc|]. intros _. eexists _, line. by split.
Qed.

Lemma dwp_cons_char t u k F x com line c Q :
  is_byte c -> c <> ctrl "P" -> c <> ctrl "U" -> c <> ctrl "H" -> c <> DEL -> crep x (com, line) ->
  (forall y, crep y (line_input c (com, line)) -> Q tt (DGhost (Some y) u k F)) ->
  dwp t (cons_char c) Q (DGhost (Some x) u k F).
Proof.
  intros Hc H1 H2 H3 H4 Hx HQ. unfold line_input in HQ.
  rewrite (proj2 (Z.eqb_neq _ _) H1), (proj2 (Z.eqb_neq _ _) H2), (proj2 (Z.eqb_neq _ _) H3), (proj2 (Z.eqb_neq _ _) H4) in HQ.
  unfold cons_char. apply gwp_bind, dwp_get_cons. rewrite (crep_used _ _ Hx). cbn [orb] in HQ.
  destruct (negb (c =? 0) && _) eqn:E; [|by apply HQ]. apply andb_true_iff in E as [_ E%Z.ltb_lt].
  set (b := if c =? CR then NL else c) in *.
  assert (Hb : u8 b = b).
  { apply u8_small. unfold b. unfold is_byte in Hc. change (2 ^ 8) with 256. destruct (c =? CR); [unfold NL|]; lia. }
  apply dwp_seq; [apply quiet_consputc|]. intros _. rewrite Hb.
  pose proof (crep_store x _ b Hx E) as Hx1. apply gwp_bind, dwp_set_cons; [by eexists|].
  pose proof (crep_append _ _ _ b Hx1 E (fn_lookup_insert _ _ _)) as Hx2.
  apply gwp_bind, dwp_set_cons; [by eexists|]. apply gwp_bind, dwp_get_cons. rewrite (crep_used _ _ Hx2). simpl in HQ.
  destruct (_ || _); [|by apply HQ].
  pose proof (crep_commit _ _ _ Hx2) as Hx3. apply gwp_bind, dwp_set_cons; [by eexists|].
  apply dwp_quiet; [apply quiet_wakeup|]. intros []. by apply HQ.
Qed.

Lemma line_input_erase c com line : c = ctrl "H" \/ c = DEL -> line_input c (com, line) = (com, removelast line).
Proof. by intros [->| ->]. Qed.

Lemma dwp_consoleintr t c l : is_byte c -> dwp t (consoleintr c) (fun _ l' => l' = l) l.
Proof.
  intros Hc. destruct l as [cn u k F]. unfold consoleintr. apply gwp_bind, dwp_acquire_cons. simpl.
  intros x -> (a & Ha & Hx).
  assert (Hend : forall y, crep y (line_input c a) ->
    dwp t (release ConsLock) (fun _ l' => l' = DGhost None u k F) (DGhost (Some y) u k F)).
  { intros y Hy. eapply dwp_release_cons; [done| |done]. exists (line_input c a). split; [|done].
    eapply rtc_r; [exact Ha|by apply cstep_input]. }
  destruct (cstep_line _ Ha) as [Hl _]. destruct a as [com line]. simpl in Hl. apply gwp_bind.
  destruct (Z.eqb_spec c (ctrl "P")) as [->|HP].
  { apply dwp_quiet; [apply quiet_procdump|]. intros []. by apply Hend. }
  destruct (Z.eqb_spec c (ctrl "U")) as [->|HU].
  { eapply dwp_kill_line; [exact Hx| |exact Hend]. eapply Forall_impl; [exact Hl|]. by intros b [? _]. }
  destruct ((c =? ctrl "H") || (c =? DEL)) eqn:E.
  - rewrite orb_true_iff, !Z.eqb_eq in E. rewrite (line_input_erase c com line E) in Hend.
    apply gwp_bind, dwp_get_cons. rewrite (crep_noline _ _ Hx). simpl.
    destruct line as [|b line _] using rev_ind; [by apply Hend|]. rewrite bool_decide_eq_false_2 by (by destruct line).
    rewrite removelast_last in Hend. destruct (crep_erase _ _ _ _ Hx) as [_ Hx']. simpl.
    apply gwp_bind, dwp_set_cons; [by eexists|]. apply dwp_quiet; [apply quiet_consputc|]. intros []. by apply Hend.
  - rewrite orb_false_iff, !Z.eqb_neq in E. destruct E. by eapply dwp_cons_char.
Qed.

Lemma dwp_uartintr t l : dwp t uartintr (fun _ l' => l' = l) l.
Proof.
  unfold uartintr, uartgetc. apply gwp_bind, (gwp_loop _ _ _ _ _ _ _ (fun _ l' => l' = l)); [done|].
  - intros _ l' ->. apply gwp_bind, dwp_seq; [done|]. intros r.
    assert (Hend : dwp t (acquire UartLock;; uartstart;; release UartLock) (fun _ l' => l' = l) l).
    { destruct l as [cn u k F]. apply gwp_bind, dwp_acquire_uart. simpl. intros x -> Hx.
      apply gwp_bind, dwp_uartstart; [done|]. intros y _. by eapply dwp_release_uart. }
    destruct (negb _); [|done]. apply dwp_seq; [done|]. intros c. apply gwp_ret. destruct (Z.eqb_spec (u8 c) (-1)); [exact Hend|].
    apply gwp_bind. eapply gwp_mono; [|apply dwp_consoleintr; apply Z.mod_pos_bound; done]. by intros _ l' ->.
Qed.

Lemma dwp_consolewrite t us src n l : dwp t (consolewrite us src n) (fun _ l' => l' = l) l.
Proof.
  unfold consolewrite. apply (gwp_loop _ _ _ _ _ _ _ (fun _ l' => l' = l)); [done|]. intros i l' ->.
  destruct (i <? n); [|done]. apply dwp_seq; [apply quiet_copyin1|]. intros [c|]; [|done].
  apply gwp_bind. eapply gwp_mono; [|apply dwp_uartputc]. by intros _ l' ->.
Qed.

Lemma dwp_cons_wait t u k F x (Q : bool -> dghost -> Prop) : cons_ok x ->
  (forall y, cons_ok y -> con_r y <> con_w y -> Q true (DGhost (Some y) u k F)) ->
  Q false (DGhost None u k F) -> dwp t cons_wait Q (DGhost (Some x) u k F).
Proof.
  intros Hx H1 H2. unfold cons_wait.
  apply (gwp_loop _ _ _ _ _ _ _ (fun _ l => exists y, cons_ok y /\ l = DGhost (Some y) u k F)); [eauto|].
  intros _ l (y & Hy & ->). apply gwp_bind, dwp_get_cons. destruct (Z.eqb_spec (con_r y) (con_w y)); [|by apply H1].
  apply dwp_seq; [apply quiet_cur|]. intros p. apply dwp_seq; [apply quiet_killed|]. intros [].
  - apply gwp_bind. by eapply dwp_release_cons.
  - apply gwp_bind, dwp_sleep_cons; [done|]. intros z Hz. by exists z.
Qed.

(** Taking a byte, and putting it back. *)
Lemma cons_take x : cons_ok x -> con_r x <> con_w x -> cons_ok (set_con_r (u32 (con_r x + 1)) x).
Proof.
  intros ([com line] & Ha & Hx) Hne. pose proof (crep_empty _ _ Hx) as He. simpl in He.
  destruct com as [|b com]; [rewrite bool_decide_eq_true_2 in He by done; by apply Z.eqb_eq in He|].
  exists (com, line). split; [|by eapply crep_take]. eapply rtc_r; [exact Ha|constructor].
Qed.
Lemma cons_untake x : cons_ok x -> set_con_r (u32 (u32 (con_r x + 1) - 1)) (set_con_r (u32 (con_r x + 1)) x) = x.
Proof.
  intros (a & _ & Hx). destruct x as [b r w e]. unfold set_con_r. simpl. f_equal.
  rewrite u32_sub_l. replace (r + 1 - 1) with r by lia. by apply u32_small, (crep_r _ _ Hx).
Qed.

Lemma dwp_cons_get t u k F x ud tg dst n : cons_ok x ->
  dwp t (cons_get ud tg dst n) (fun r l' =>
    match r with
    | inr None => l' = DGhost None u k F
    | _ => exists y, cons_ok y /\ l' = DGhost (Some y) u k F
    end) (DGhost (Some x) u k F).
Proof.
  intros Hx. unfold cons_get. destruct (negb _); [by exists x|].
  apply gwp_bind, dwp_cons_wait; [done| |done]. intros y Hy Hne. simpl. apply gwp_bind, dwp_get_cons.
  pose proof (cons_take y Hy Hne) as Hy'. apply gwp_bind, dwp_set_cons; [destruct Hy' as (a & _ & ?); by exists a|].
  destruct (_ =? ctrl "D").
  - destruct (_ <? _); [|by eexists]. apply gwp_bind, dwp_set_cons; simpl; rewrite (cons_untake y Hy).
    + by destruct Hy as (a & _ & ?); exists a.
    + by exists y.
  - apply dwp_seq; [apply quiet_copyout1|]. intros []; simpl; [|by eexists]. destruct (_ =? NL); by eexists.
Qed.

Lemma dwp_consoleread t ud dst n l : dwp t (consoleread ud dst n) (fun _ l' => l' = l) l.
Proof.
  destruct l as [cn u k F]. unfold consoleread. apply gwp_bind, dwp_acquire_cons. simpl. intros x -> Hx.
  apply gwp_bind, (gwp_loop _ _ _ _ _ _ _ (fun _ l => exists y, cons_ok y /\ l = DGhost (Some y) u k F)); [by exists x|].
  intros [d m] l (y & Hy & ->). eapply gwp_mono; [|by apply dwp_cons_get].
  intros [[]|[r|]] l' H; [done| |by rewrite H]. destruct H as (z & Hz & ->).
  apply gwp_bind. by eapply dwp_release_cons.
Qed.

(** * kernel/virtio_disk.c *)

(** The descriptors of [t] change at [i], to [o]. *)
Lemma owned_change d d' (O : thread -> gmap Z dslot) t i o :
  owned d O -> 0 <= i < NUM -> (forall t', t' <> t -> O t' !! i = None) ->
  (forall j, j <> i -> d_free d' j = d_free d j /\ d_desc d' j = d_desc d j /\ d_info d' j = d_info d j) ->
  match o with None => d_free d' i = true | Some v => d_free d' i = false /\ d_desc d' i = v.1 /\ d_info d' i = v.2 end ->
  owned d' (fun t' => if decide (t = t') then partial_alter (fun _ => o) i (O t) else O t').
Proof.
  intros Hd Hi Hn Hs Ho.
  assert (Hat : forall t', (if decide (t = t') then partial_alter (fun _ => o) i (O t) else O t') !! i =
    if decide (t = t') then o else None).
  { intros t'. case_decide; [apply lookup_partial_alter_eq|]. by apply Hn. }
  assert (Hne : forall t' j, j <> i -> (if decide (t = t') then partial_alter (fun _ => o) i (O t) else O t') !! j = O t' !! j).
  { intros t' j Hj. case_decide; [subst; by apply lookup_partial_alter_ne|done]. }
  split.
  - intros j Hj Hf. destruct (decide (j = i)) as [->|Hji].
    + exists t. rewrite Hat, decide_True by done. destruct o; [done|congruence].
    + destruct (Hs j Hji) as (Hf' & _). rewrite Hf' in Hf. destruct (own_all _ _ Hd j Hj Hf) as [t' Ht'].
      exists t'. by rewrite Hne.
  - intros t' j v. destruct (decide (j = i)) as [->|Hji].
    + rewrite Hat. case_decide; [|done]. by intros ->.
    + rewrite Hne by done. intros Hv. destruct (Hs j Hji) as (-> & -> & ->). by eapply own_at.
  - intros t1 t2 j. destruct (decide (j = i)) as [->|Hji].
    + rewrite !Hat. case_decide; case_decide; try congruence; intros [] []; done.
    + rewrite !Hne by done. by apply (own_one _ _ Hd).
Qed.

Lemma own_other d (O : thread -> gmap Z dslot) t i : owned d O -> is_Some (O t !! i) -> forall t', t' <> t -> O t' !! i = None.
Proof. intros Hd H t' Hne. apply eq_None_not_Some. intros H'. destruct Hne. by eapply own_one. Qed.
Lemma own_free d (O : thread -> gmap Z dslot) i : owned d O -> d_free d i = true -> forall t', O t' !! i = None.
Proof. intros Hd H t'. apply eq_None_not_Some. intros [v Hv]. apply Hd in Hv as (_ & ? & _). congruence. Qed.

Lemma dwp_get_disk t c u d M (Q : disk -> dghost -> Prop) :
  ((forall i v, M !! i = Some v -> d_free d i = false /\ d_desc d i = v.1 /\ d_info d i = v.2) ->
   Q d (DGhost c u (Some d) M)) -> dwp t (getg g_disk) Q (DGhost c u (Some d) M).
Proof. intros HQ. apply dwp_getg. simpl. intros g _ _ Hd Ho. rewrite (Hd d eq_refl) in *. by apply HQ. Qed.

(** Writes that leave the descriptors alone. *)
Lemma dwp_disk_other t c u d M f Q :
  d_free (f d) = d_free d -> d_desc (f d) = d_desc d -> d_info (f d) = d_info d ->
  Q tt (DGhost c u (Some (f d)) M) -> dwp t (moddisk f) Q (DGhost c u (Some d) M).
Proof.
  intros H1 H2 H3 HQ. apply (dwp_moddisk t f Q _ d M); [done| |done]. intros O Hd HO.
  apply (owned_ext _ O); [intros t'; by case_decide; subst|].
  destruct Hd as [O1 O2 O3]. split; rewrite ?H1, ?H2, ?H3; done.
Qed.

(** What a thread knows of its descriptors. *)
Definition mine_at (d : disk) (M : gmap Z dslot) : Prop :=
  forall i v, M !! i = Some v -> 0 <= i < NUM /\ d_free d i = false /\ d_desc d i = v.1 /\ d_info d i = v.2.

(** [f] writes descriptor [i] of thread [t] and leaves it [o]. *)
Lemma dwp_disk_at t c u d M f Q i o :
  0 <= i < NUM ->
  (forall j, j <> i -> d_free (f d) j = d_free d j /\ d_desc (f d) j = d_desc d j /\ d_info (f d) j = d_info d j) ->
  (is_Some (M !! i) \/ d_free d i = true) ->
  (mine_at d M -> match o with None => d_free (f d) i = true
    | Some v => d_free (f d) i = false /\ d_desc (f d) i = v.1 /\ d_info (f d) i = v.2 end) ->
  Q tt (DGhost c u (Some (f d)) (partial_alter (fun _ => o) i M)) -> dwp t (moddisk f) Q (DGhost c u (Some d) M).
Proof.
  intros Hi Hf Hm Ho HQ. eapply (dwp_moddisk t f Q _ d _); [done| |exact HQ]. simpl. intros O Hd HO.
  rewrite <- HO. apply (owned_change d); try done.
  - intros t' Hne. destruct Hm as [Hm|Hm]; [|by eapply own_free]. eapply own_other; [done| |done]. by rewrite HO.
  - apply Ho. intros j v Hv. apply (own_at _ _ Hd t). by rewrite HO.
Qed.

Lemma dwp_alloc_desc t c u d M (Q : Z -> dghost -> Prop) :
  Q (-1) (DGhost c u (Some d) M) ->
  (forall i d' v, 0 <= i < NUM -> M !! i = None -> Q i (DGhost c u (Some d') (<[i := v]> M))) ->
  dwp t alloc_desc Q (DGhost c u (Some d) M).
Proof.
  intros H0 H1. unfold alloc_desc. apply gwp_bind.
  assert (Hr : Forall (fun i => 0 <= i < NUM) (seqZ 0 NUM)).
  { apply Forall_forall. intros i Hi. apply elem_of_seqZ in Hi. lia. }
  induction Hr as [|i l Hi _ IH]; simpl; [done|]. apply gwp_bind, gwp_bind, dwp_get_disk. intros Hm.
  destruct (d_free d i) eqn:E; [|exact IH]. apply gwp_bind.
  eapply (dwp_disk_at t c u d M _ _ i (Some (d_desc d i, d_info d i))); [done| |by right| |].
  - intros j Hj. simpl. by rewrite fn_lookup_insert_ne.
  - simpl. intros _. by rewrite fn_lookup_insert.
  - apply H1; [done|]. destruct (M !! i) eqn:Ei; [|done]. destruct (Hm _ _ Ei). congruence.
Qed.

Lemma dwp_free_desc t c u d M i (Q : unit -> dghost -> Prop) :
  0 <= i < NUM -> is_Some (M !! i) ->
  (forall d', Q tt (DGhost c u (Some d') (delete i M))) -> dwp t (free_desc i) Q (DGhost c u (Some d) M).
Proof.
  intros Hi [v Hv] HQ. unfold free_desc. rewrite (Z.geb_leb), (proj2 (Z.leb_gt _ _)) by lia.
  apply gwp_bind, dwp_get_disk. intros Hm. destruct (Hm i v Hv) as (-> & _ & Hinfo). apply gwp_bind.
  eapply (dwp_disk_at t c u d M _ _ i (Some (VDesc VNull 0 0 0, v.2))); [done| |eauto| |].
  - intros j Hj. simpl. by rewrite fn_lookup_insert_ne.
  - simpl. intros Hm'. rewrite fn_lookup_insert. by destruct (Hm' i v Hv) as (_ & -> & _ & ->).
  - apply gwp_bind. eapply (dwp_disk_at _ _ _ _ _ _ _ i None); [done| |left; by rewrite lookup_partial_alter_eq| |].
    + intros j Hj. simpl. by rewrite fn_lookup_insert_ne.
    + simpl. intros _. by rewrite fn_lookup_insert.
    + apply dwp_quiet; [apply quiet_wakeup|]. intros []. change (partial_alter _ i M) with (<[i := (VDesc VNull 0 0 0, v.2)]> M).
      change (partial_alter _ i _) with (delete i (<[i := (VDesc VNull 0 0 0, v.2)]> M)). rewrite delete_insert_eq. apply HQ.
Qed.

Lemma dwp_setdesc t c u d M i v w Q :
  0 <= i < NUM -> M !! i = Some v -> (forall d', Q tt (DGhost c u (Some d') (<[i := (w, v.2)]> M))) ->
  dwp t (setdesc i w) Q (DGhost c u (Some d) M).
Proof.
  intros Hi Hv HQ. eapply (dwp_disk_at t c u d M _ _ i (Some (w, v.2))); [done| |left; eauto| |apply HQ].
  - intros j Hj. simpl. by rewrite fn_lookup_insert_ne.
  - simpl. intros Hm. rewrite fn_lookup_insert. by destruct (Hm i v Hv) as (_ & -> & _ & ->).
Qed.
Lemma dwp_setinfo t c u d M i v w Q :
  0 <= i < NUM -> M !! i = Some v -> (forall d', Q tt (DGhost c u (Some d') (<[i := (v.1, w)]> M))) ->
  dwp t (setinfo i w) Q (DGhost c u (Some d) M).
Proof.
  intros Hi Hv HQ. eapply (dwp_disk_at t c u d M _ _ i (Some (v.1, w))); [done| |left; eauto| |apply HQ].
  - intros j Hj. simpl. by rewrite fn_lookup_insert_ne.
  - simpl. intros Hm. rewrite fn_lookup_insert. by destruct (Hm i v Hv) as (_ & -> & -> & _).
Qed.

(** The three descriptors of a request, or none. *)
Lemma dwp_alloc3_desc t c u d M (Q : option (list Z) -> dghost -> Prop) :
  (forall d', Q None (DGhost c u (Some d') M)) ->
  (forall i0 i1 i2 v0 v1 v2 d', Forall (fun i => 0 <= i < NUM /\ M !! i = None) [i0; i1; i2] -> NoDup [i0; i1; i2] ->
     Q (Some [i0; i1; i2]) (DGhost c u (Some d') (<[i2 := v2]> (<[i1 := v1]> (<[i0 := v0]> M))))) ->
  dwp t alloc3_desc Q (DGhost c u (Some d) M).
Proof.
  intros H0 H3. unfold alloc3_desc. simpl.
  apply gwp_bind, dwp_alloc_desc; [apply gwp_bind, gwp_ret, gwp_ret, H0|]. intros i0 d0 v0 Hi0 Hm0.
  rewrite (proj2 (Z.ltb_ge _ _)) by lia.
  apply gwp_bind, dwp_alloc_desc; simpl.
  { apply gwp_bind, gwp_bind, dwp_free_desc; [done|by rewrite lookup_insert_eq|]. intros d1. rewrite delete_insert_id by done.
    apply gwp_ret. apply H0. }
  intros i1 d1 v1 Hi1 Hm1. rewrite (proj2 (Z.ltb_ge _ _)) by lia.
  assert (i0 <> i1) by (intros <-; by rewrite lookup_insert_eq in Hm1). rewrite lookup_insert_ne in Hm1 by done.
  apply gwp_bind, dwp_alloc_desc; simpl.
  { apply gwp_bind, gwp_bind, dwp_free_desc; [done|rewrite lookup_insert_ne by done; by rewrite lookup_insert_eq|]. intros d2.
    apply gwp_bind, dwp_free_desc; [done|rewrite lookup_delete_ne by done; by rewrite lookup_insert_eq|]. intros d3.
    rewrite delete_insert_ne, !delete_insert_eq, (delete_id M i0), delete_id by done. apply gwp_ret. apply H0. }
  intros i2 d2 v2 Hi2 Hm2. rewrite (proj2 (Z.ltb_ge _ _)) by lia.
  assert (i1 <> i2) by (intros <-; by rewrite lookup_insert_eq in Hm2). rewrite lookup_insert_ne in Hm2 by done.
  assert (i0 <> i2) by (intros <-; by rewrite lookup_insert_eq in Hm2). rewrite lookup_insert_ne in Hm2 by done.
  apply gwp_ret, H3; [by rewrite !Forall_cons|]. repeat constructor; set_solver.
Qed.

(** The descriptors of a request next to others. *)
Lemma request_inserts i0 i1 i2 b w x1 x2 F :
  request i0 i1 i2 b w x1 x2 ∪ F =
  <[i0 := (VDesc (VOp i0) 16 VRING_DESC_F_NEXT i1, Some b)]>
  (<[i1 := (VDesc (VData b) BSIZE (Z.lor (if w then 0 else VRING_DESC_F_WRITE) VRING_DESC_F_NEXT) i2, x1)]>
  (<[i2 := (VDesc (VStatus i0) 1 VRING_DESC_F_WRITE 0, x2)]> F)).
Proof. unfold request. by rewrite <- !insert_union_l, <- insert_union_singleton_l. Qed.

(** [free_chain] follows the chain of a request and frees its descriptors. *)
Lemma dwp_free_chain t c u d F i0 i1 i2 b w x0 x1 x2 (Q : unit -> dghost -> Prop) :
  Forall (fun i => 0 <= i < NUM /\ F !! i = None) [i0; i1; i2] -> NoDup [i0; i1; i2] ->
  (forall d', Q tt (DGhost c u (Some d') F)) ->
  dwp t (free_chain i0) Q (DGhost c u (Some d)
    (<[i0 := (VDesc (VOp i0) 16 VRING_DESC_F_NEXT i1, x0)]> (request i0 i1 i2 b w x1 x2 ∪ F))).
Proof.
  rewrite !Forall_cons. intros ([Hi0 Hf0] & [Hi1 Hf1] & [Hi2 Hf2] & _) Hnd HQ.
  assert (i0 <> i1 /\ i0 <> i2 /\ i1 <> i2) as (H01 & H02 & H12) by (rewrite !NoDup_cons in Hnd; set_solver).
  rewrite request_inserts, insert_insert_eq. set (v0 := (VDesc _ _ _ i1, x0)). set (v1 := (VDesc _ _ _ i2, x1)).
  set (v2 := (VDesc _ _ _ 0, x2)). unfold free_chain.
  apply (gwp_loop _ _ _ _ _ _ _ (fun i l => exists d, l = DGhost c u (Some d)
    (if decide (i = i0) then <[i0 := v0]> (<[i1 := v1]> (<[i2 := v2]> F))
     else if decide (i = i1) then <[i1 := v1]> (<[i2 := v2]> F) else <[i2 := v2]> F) /\ (i = i0 \/ i = i1 \/ i = i2))).
  { exists d. rewrite decide_True by done. eauto. }
  intros i l (d1 & -> & Hi). apply gwp_bind, dwp_get_disk. intros Hm. apply gwp_bind.
  destruct Hi as [->|[->| ->]].
  - rewrite decide_True in * by done. destruct (Hm i0 v0) as (_ & -> & _); [by rewrite lookup_insert_eq|].
    apply dwp_free_desc; [done|by rewrite lookup_insert_eq|]. intros d2. apply gwp_ret. simpl. exists d2.
    rewrite decide_False, decide_True by done. rewrite delete_insert_id by (by simplify_map_eq). eauto.
  - rewrite decide_False, decide_True in * by done. destruct (Hm i1 v1) as (_ & -> & _); [by rewrite lookup_insert_eq|].
    apply dwp_free_desc; [done|by rewrite lookup_insert_eq|]. intros d2. apply gwp_ret.
    destruct w; exists d2; rewrite !decide_False by done; rewrite delete_insert_id by (by simplify_map_eq); eauto.
  - rewrite !decide_False in * by done. destruct (Hm i2 v2) as (_ & -> & _); [by rewrite lookup_insert_eq|].
    apply dwp_free_desc; [done|by rewrite lookup_insert_eq|]. intros d2. apply gwp_ret. simpl.
    rewrite delete_insert_id by done. apply HQ.
Qed.

Lemma dwp_virtio_disk_rw t b no w l : dwp t (Virtio.virtio_disk_rw b no w) (fun _ l' => l' = l) l.
Proof.
  destruct l as [c u k F]. unfold Virtio.virtio_disk_rw. apply gwp_bind, dwp_acquire_disk. simpl. intros d -> HF.
  apply gwp_bind, (gwp_loop _ _ _ _ _ _ _ (fun _ l => exists d, l = DGhost c u (Some d) F)); [by eexists|].
  intros _ l (d1 & ->). apply gwp_bind, dwp_alloc3_desc; clear d d1.
  { intros d. apply gwp_bind, dwp_sleep_disk; [done|]. intros d'. by exists d'. }
  intros i0 i1 i2 v0 v1 v2 d Hi Hnd. apply gwp_ret. cbn [lookup_total list_lookup_total].
  assert (i0 <> i1 /\ i0 <> i2 /\ i1 <> i2) as (H01 & H02 & H12) by (rewrite !NoDup_cons in Hnd; set_solver).
  pose proof Hi as Hi'. rewrite !Forall_cons in Hi'. destruct Hi' as ([Hi0 Hf0] & [Hi1 Hf1] & [Hi2 Hf2] & _).
  apply gwp_bind, dwp_disk_other; [done..|].
  apply gwp_bind, (dwp_setdesc _ _ _ _ _ i0 v0); [done|by simplify_map_eq|]. intros d1.
  apply gwp_bind, (dwp_setdesc _ _ _ _ _ i1 v1); [done|by simplify_map_eq|]. intros d2.
  apply dwp_seq; [done|]. intros _.
  apply gwp_bind, (dwp_setdesc _ _ _ _ _ i2 v2); [done|by simplify_map_eq|]. intros d3.
  apply gwp_bind, dwp_disk_other; [done..|].
  apply gwp_bind, (dwp_setinfo _ _ _ _ _ i0 (VDesc (VOp i0) 16 VRING_DESC_F_NEXT i1, v0.2)); [done|by simplify_map_eq|].
  intros d4. do 2 (apply gwp_bind, dwp_disk_other; [done..|]). apply dwp_seq; [done|]. intros _.
  set (M := <[i0 := _]> _). assert (M = request i0 i1 i2 b w v1.2 v2.2 ∪ F) as ->.
  { rewrite request_inserts. subst M. apply map_eq. intros j. rewrite !lookup_insert. repeat (case_decide; [subst; try congruence|]); try done.  }
  apply gwp_bind, (gwp_loop _ _ _ _ _ _ _ (fun _ l => exists d, l = DGhost c u (Some d) (request i0 i1 i2 b w v1.2 v2.2 ∪ F))); [by eexists|].
  intros _ l (d5 & ->). apply gwp_bind, dwp_get_disk. intros _. destruct (d_busy d5 b).
  { apply gwp_bind, dwp_sleep_disk; [by constructor|]. intros d'. by exists d'. }
  apply gwp_ret. apply gwp_bind, (dwp_setinfo _ _ _ _ _ i0 (VDesc (VOp i0) 16 VRING_DESC_F_NEXT i1, Some b)); [done| |].
  { rewrite request_inserts. by rewrite lookup_insert_eq. }
  intros d6. apply gwp_bind, dwp_free_chain; [done|done|]. intros d7. by eapply dwp_release_disk.
Qed.

Lemma dwp_virtio_disk_intr t l : dwp t virtio_disk_intr (fun _ l' => l' = l) l.
Proof.
  destruct l as [c u k F]. unfold virtio_disk_intr. apply gwp_bind, dwp_acquire_disk. simpl. intros d -> HF.
  do 2 (apply dwp_seq; [done|]; intros ?).
  apply gwp_bind, (gwp_loop _ _ _ _ _ _ _ (fun _ l => exists d, l = DGhost c u (Some d) F)); [by eexists|].
  intros _ l (d1 & ->). apply gwp_bind, dwp_get_disk. intros _. apply dwp_seq; [done|]. intros idx.
  destruct (_ =? _); [by eapply dwp_release_disk|]. apply dwp_seq; [done|]. intros id. apply dwp_seq; [done|]. intros st.
  destruct (negb _); [apply dwp_panic; unfold disk_panics; set_solver|].
  apply gwp_bind, dwp_get_disk. intros _. destruct (d_info d1 id) as [b|]; [|by intros o cp s cu G HI Hl Hd].
  apply gwp_bind, dwp_disk_other; [done..|]. apply dwp_seq; [apply quiet_wakeup|]. intros _.
  apply gwp_bind, dwp_disk_other; [done..|]. by eexists.
Qed.
End devices.

(** * System calls and traps *)

Section traps.
Context {U : Type} `{!UserMem U}.
Local Abbreviation dwp := (gwp (U := U) (fun s _ => dinv s) dev_halt (fun _ => True)).

(** Code that returns with the ghost state it was called with. *)
Definition dkeeps {A} (m : T U A) : Prop := forall t l, dwp t m (fun _ l' => l' = l) l.

Lemma dkeeps_quiet {A} (m : T U A) : quiet m -> dkeeps m.
Proof. intros H t l. by apply dwp_quiet. Qed.
Lemma dkeeps_bind {A B} (m : T U A) (f : A -> T U B) : dkeeps m -> (forall a, dkeeps (f a)) -> dkeeps (m ≫= f).
Proof. intros Hm Hf t l. apply gwp_bind. eapply gwp_mono; [|apply Hm]. intros a l' ->. apply Hf. Qed.
Lemma dkeeps_loop {I R} (body : I -> T U (I + R)) i : (forall j, dkeeps (body j)) -> dkeeps (loop body i).
Proof.
  intros H t l. apply (gwp_loop _ _ _ _ _ _ _ (fun _ l' => l' = l)); [done|]. intros j l1 ->.
  eapply gwp_mono; [|apply H]. by intros [j'|r] l2 ->.
Qed.
End traps.

#[export] Hint Resolve quiet_hang quiet_consputc quiet_printf quiet_myproc quiet_cur quiet_allocpid quiet_freeproc
  quiet_allocproc quiet_growproc quiet_fork quiet_scheduler quiet_sched quiet_yield quiet_wakeup quiet_kill quiet_setkilled
  quiet_killed quiet_exit quiet_wait quiet_procdump quiet_usertrapret quiet_forkret : quiet.
Create HintDb dkeeps.
#[export] Hint Resolve dwp_uartputc dwp_uartintr dwp_virtio_disk_rw dwp_virtio_disk_intr dwp_consoleread dwp_consolewrite : dkeeps.

(** Code built from drivers and quiet code. *)
Ltac dk := autounfold with quiet; repeat first
  [ solve [auto with dkeeps] | solve [intros ? ?; auto with dkeeps]
  | lazymatch goal with
    | |- dkeeps (_ ≫= _) => apply dkeeps_bind; [|intros ?]
    | |- dkeeps (loop _ _) => apply dkeeps_loop; intros ?
    | |- dkeeps (match ?e with _ => _ end) => destruct e
    end
  | solve [apply dkeeps_quiet; qt] ].

Section traps.
Context {U : Type} `{!UserMem U}.

Lemma quiet_argraw n : quiet (trap_argraw (U := U) n).
Proof. unfold trap_argraw. qt. Qed.
Lemma quiet_onproc {X} p args (m : K U X) : quiet (onproc p args m).
Proof. unfold onproc. qt. Qed.
Hint Resolve quiet_argraw quiet_onproc : quiet.
Hint Unfold trap_argint : quiet.
Lemma quiet_file_call (m : K U Z) : quiet (file_call m).
Proof. unfold file_call. qt. Qed.
Hint Resolve quiet_file_call : quiet.

Lemma quiet_loadseg n pt va ip off sz i : quiet (loadseg_loop (U := U) n pt va ip off sz i).
Proof. revert i. induction n as [|n IH]; intros i; cbn [loadseg_loop]; qt. Qed.
Hint Resolve quiet_loadseg : quiet.
Lemma quiet_load_segs kend n pt ip off sz : quiet (load_segs (U := U) kend n pt ip off sz).
Proof. revert off sz. induction n as [|n IH]; intros off sz; cbn [load_segs]; unfold loadseg; qt. Qed.
Lemma quiet_push_args argv pt sb argc sp us : quiet (push_args (U := U) argv pt sb argc sp us).
Proof. revert argc sp us. induction argv as [|s argv IH]; intros argc sp us; cbn [push_args]; qt. Qed.
Lemma quiet_exec_bad kend pt sz ip : quiet (exec_bad (U := U) kend pt sz ip).
Proof. unfold exec_bad. qt. Qed.
Hint Resolve quiet_load_segs quiet_push_args quiet_exec_bad : quiet.
Lemma quiet_exec kend trampoline junkname path argv : quiet (Exec.exec (U := U) kend trampoline junkname path argv).
Proof. unfold Exec.exec, exec_commit. qt. Qed.
Lemma quiet_exec_args n uargv i argv : quiet (exec_args (U := U) n uargv i argv).
Proof.
  revert i argv. induction n as [|n IH]; intros i argv; cbn [exec_args]; unfold fetchaddr, fetchstr_user; qt.
Qed.
Hint Resolve quiet_exec quiet_exec_args : quiet.
Lemma quiet_sys_exec kend trampoline junkname path uargv : quiet (sys_exec (U := U) kend trampoline junkname path uargv).
Proof. unfold sys_exec, fetchstr_user. qt. Qed.
Hint Resolve quiet_sys_exec : quiet.

Lemma quiet_sys_sleep : quiet (sys_sleep (U := U)).
Proof. pose proof (fun c => quiet_sleep (U := U) c TicksLock eq_refl). unfold sys_sleep. qt. Qed.
Hint Resolve quiet_sys_sleep : quiet.

Lemma dkeeps_devintr : dkeeps (devintr (U := U)).
Proof. unfold devintr, plic_claim, plic_complete, clockintr. dk. Qed.
Hint Resolve dkeeps_devintr : dkeeps.
Lemma dkeeps_kernelvec : dkeeps (kernelvec (U := U)).
Proof. unfold kernelvec, kerneltrap. dk. Qed.

Context (kend trampoline uservec usertrap_addr kernelvec_addr : Z).
Context (junk : Z -> Z) (pad junkname stk : bytes).
Context (dev_rd dev_wr : Z -> option (Z -> Z -> K U Z)).
Context (work : nat -> nat -> option (Z * Z * bool)).
Local Abbreviation dev_syscalls := (syscalls kend trampoline junk pad junkname stk dev_rd dev_wr).

Lemma dkeeps_syscalls num call : dev_syscalls num = Some call -> dkeeps call.
Proof.
  intros H. unfold Trap.syscalls in H.
  repeat match type of H with
  | (if ?c then _ else _) = _ => destruct c; [simplify_eq|]
  end; try done; unfold sys_fork, sys_exit, sys_wait, trap_read, sys_kill, sys_getpid, sys_sbrk, sys_uptime, trap_write; dk.
Qed.

Lemma dkeeps_syscall : dkeeps (syscall kend trampoline junk pad junkname stk dev_rd dev_wr).
Proof.
  unfold syscall. do 3 (apply dkeeps_bind; [dk|intros ?]).
  destruct (Trap.syscalls _ _ _ _ _ _ _ _ _) as [call|] eqn:E; [|dk].
  apply dkeeps_bind; [by eapply dkeeps_syscalls|]. intros r. dk.
Qed.

Hint Resolve dkeeps_syscall : dkeeps.

Lemma dkeeps_usertrap :
  dkeeps (usertrap kend trampoline uservec usertrap_addr kernelvec_addr junk pad junkname stk dev_rd dev_wr false).
Proof. unfold usertrap. dk. Qed.
Hint Resolve dkeeps_usertrap : dkeeps.

Lemma dkeeps_entry :
  dkeeps (entry kend trampoline uservec usertrap_addr kernelvec_addr junk pad junkname stk dev_rd dev_wr work).
Proof. unfold entry, transfer. dk. Qed.
End traps.
