(* ===== verification/KWait.v ===== *)
(** Sleep and wakeup around wait_lock, as an invariant for KGhost.v.

    A parent in wait() sleeps on itself; a child that exits wakes it.  The
    invariant [winv] says that no wakeup is lost: a process that sleeps in wait,
    or has given up wait_lock to sleep, has no zombie child, but for a moment in
    which the holder of wait_lock is about to wake it.  The ghost state of a
    thread is what it knows while it holds wait_lock or the lock of a process. *)

From S2P Require Import Prelude BufCache BufSpec KState CString Kalloc Vm KThread Printf Proc KLogic KInv KGhost.
Local Open Scope Z_scope.

(** * Ghost states *)

(** [l_w]: the thread holds wait_lock; [l_p]: the lock of this process.
    While a thread holds its own lock in sleep, [l_about] says that it has given
    up wait_lock to sleep on itself, and [l_chan] is the channel it has stored;
    [l_slept]: it has marked itself as sleeping.
    With wait_lock: [l_scan] are slots that hold no zombie child, [l_awake]
    processes that do not sleep on themselves, [l_debt] those it has to wake,
    [l_par] the parent of its process.  [l_fresh]: the process [l_p] does not
    sleep. *)
Record wghost := WGhost {
  l_w : bool; l_p : option nat; l_chan : option chan; l_about : bool; l_slept : bool;
  l_scan : gset nat; l_awake : gset nat; l_debt : gset nat; l_par : option (option nat); l_fresh : bool;
}.
Definition clean : wghost := WGhost false None None false false ∅ ∅ ∅ None false.

Definition set_l_p v l := WGhost (l_w l) v (l_chan l) (l_about l) (l_slept l) (l_scan l) (l_awake l) (l_debt l) (l_par l) (l_fresh l).
Definition set_l_w v l := WGhost v (l_p l) (l_chan l) (l_about l) (l_slept l) (l_scan l) (l_awake l) (l_debt l) (l_par l) (l_fresh l).
Definition set_l_chan v l := WGhost (l_w l) (l_p l) v (l_about l) (l_slept l) (l_scan l) (l_awake l) (l_debt l) (l_par l) (l_fresh l).
Definition set_l_slept v l := WGhost (l_w l) (l_p l) (l_chan l) (l_about l) v (l_scan l) (l_awake l) (l_debt l) (l_par l) (l_fresh l).
Definition set_l_scan v l := WGhost (l_w l) (l_p l) (l_chan l) (l_about l) (l_slept l) v (l_awake l) (l_debt l) (l_par l) (l_fresh l).
Definition set_l_par v l := WGhost (l_w l) (l_p l) (l_chan l) (l_about l) (l_slept l) (l_scan l) (l_awake l) (l_debt l) v (l_fresh l).
Definition set_l_fresh v l := WGhost (l_w l) (l_p l) (l_chan l) (l_about l) (l_slept l) (l_scan l) (l_awake l) (l_debt l) (l_par l) v.
Definition owe q l := WGhost (l_w l) (l_p l) (l_chan l) (l_about l) (l_slept l) (l_scan l) (l_awake l) ({[q]} ∪ l_debt l) (l_par l) (l_fresh l).
Definition awaken q l :=
  WGhost (l_w l) (l_p l) (l_chan l) (l_about l) (l_slept l) (l_scan l) ({[q]} ∪ l_awake l) (l_debt l ∖ {[q]}) (l_par l) (l_fresh l).
(** Giving up a lock gives up what it protects. *)
Definition drop_w about l := WGhost false (l_p l) (l_chan l) about (l_slept l) ∅ ∅ ∅ None (l_fresh l).
Definition drop_p l := WGhost (l_w l) None None false (l_slept l) (l_scan l) (l_awake l) (l_debt l) (l_par l) false.

(** The locks that are tracked. *)
Inductive tlock := TW | TP (i : nat).
Definition lock_of (k : tlock) : lockid := match k with TW => WaitLock | TP i => PLock i end.
Definition has (l : wghost) (k : tlock) : Prop := match k with TW => l_w l = true | TP i => l_p l = Some i end.

Section winv.
Context {U : Type}.
(** The process init. *)
Context (ini : option nat).
Implicit Types (s : gst U) (G : thread -> wghost).

(** A process sleeps in wait; or is on its way to. *)
Definition asleep s (p : nat) : Prop := p_state (s_proc s p) = SLEEPING /\ p_chan (s_proc s p) = Some (ChProc p).
Definition drowsy s G (p : nat) : Prop := l_about (G (KProc p)) = true \/ asleep s p.

Record winv s (cu : nat -> thread) G : Prop := {
  w_init : g_initproc (s_glob s) = ini;
  w_has t k : has (G t) k -> exists c, s_lk s (lock_of k) = Spinlock true (Some c) /\ cu c = t;
  w_about p : l_about (G (KProc p)) = true -> l_p (G (KProc p)) = Some p;
  w_chan p ch : l_chan (G (KProc p)) = Some ch -> l_p (G (KProc p)) = Some p /\ p_chan (s_proc s p) = Some ch;
  w_idle p : l_slept (G (KProc p)) = false -> l_about (G (KProc p)) = false -> ~ asleep s p;
  w_scan p c : c ∈ l_scan (G (KProc p)) ->
    l_w (G (KProc p)) = true /\ (p_parent (s_proc s c) = Some p -> p_state (s_proc s c) <> ZOMBIE);
  w_awake t q : q ∈ l_awake (G t) -> l_w (G t) = true /\ ((q < NPROCn)%nat -> ~ drowsy s G q);
  w_par p q : l_par (G (KProc p)) = Some q ->
    l_w (G (KProc p)) = true /\ forall q', p_parent (s_proc s p) = Some q' -> q = Some q';
  w_fresh t : l_fresh (G t) = true -> exists i, l_p (G t) = Some i /\ p_state (s_proc s i) <> SLEEPING;
  w_main p c : (p < NPROCn)%nat -> (c < NPROCn)%nat -> p_parent (s_proc s c) = Some p -> p_state (s_proc s c) = ZOMBIE ->
    drowsy s G p -> exists t, l_w (G t) = true /\ p ∈ l_debt (G t);
}.

(** Two threads do not hold the same lock. *)
Lemma has_excl s cu G t t' k : winv s cu G -> has (G t) k -> has (G t') k -> t = t'.
Proof.
  intros I H H'. destruct (w_has _ _ _ I _ _ H) as (c & E & <-), (w_has _ _ _ I _ _ H') as (c' & E' & <-).
  rewrite E in E'. by injection E' as ->.
Qed.

(** * Changes of ghost state *)

(** What changes for one thread: the other clauses follow. *)
Lemma winv_ghost s cu G t l : winv s cu G ->
  (forall k, has l k -> has (G t) k \/ exists c, s_lk s (lock_of k) = Spinlock true (Some c) /\ cu c = t) ->
  (forall p, t = KProc p -> l_about l = true -> l_about (G t) = true /\ l_p l = Some p) ->
  (forall p ch, t = KProc p -> l_chan l = Some ch -> l_p l = Some p /\ p_chan (s_proc s p) = Some ch) ->
  (forall p, t = KProc p -> l_slept l = false -> l_about l = false -> ~ asleep s p) ->
  (forall p c, t = KProc p -> c ∈ l_scan l -> l_w l = true /\ (p_parent (s_proc s c) = Some p -> p_state (s_proc s c) <> ZOMBIE)) ->
  (forall q, q ∈ l_awake l -> l_w l = true /\ ((q < NPROCn)%nat -> ~ drowsy s G q)) ->
  (forall p q, t = KProc p -> l_par l = Some q -> l_w l = true /\ forall q', p_parent (s_proc s p) = Some q' -> q = Some q') ->
  (l_fresh l = true -> exists i, l_p l = Some i /\ p_state (s_proc s i) <> SLEEPING) ->
  (forall p c, l_w (G t) = true -> p ∈ l_debt (G t) -> (p < NPROCn)%nat -> (c < NPROCn)%nat -> p_parent (s_proc s c) = Some p ->
     p_state (s_proc s c) = ZOMBIE -> drowsy s G p -> l_w l = true /\ p ∈ l_debt l) ->
  winv s cu (<[t := l]> G).
Proof.
  intros I Hhas Hab Hch Hid Hsc Haw Hpa Hfr Hde.
  assert (Hg : forall t', (t' = t /\ <[t := l]> G t' = l) \/ (t' <> t /\ <[t := l]> G t' = G t')).
  { intros t'. destruct (decide (t = t')) as [<-|]; [left; by rewrite fn_lookup_insert|right; by rewrite fn_lookup_insert_ne]. }
  assert (Hdr : forall q, drowsy s (<[t := l]> G) q -> drowsy s G q).
  { intros q [Hq|Hq]; [left|by right]. destruct (Hg (KProc q)) as [[Eq ->]|[_ ->]] in Hq; [|done]. rewrite <- Eq in *. by eapply Hab. }
  split.
  - apply I.
  - intros t' k. destruct (Hg t') as [[-> ->]|[_ ->]]; [intros [H|H]%Hhas; [by apply I|done]|apply I].
  - intros p. destruct (Hg (KProc p)) as [[E ->]|[_ ->]]; [|apply I]. intros H. by eapply Hab.
  - intros p ch. destruct (Hg (KProc p)) as [[E ->]|[_ ->]]; [by apply Hch|apply I].
  - intros p. destruct (Hg (KProc p)) as [[E ->]|[_ ->]]; [by apply Hid|apply I].
  - intros p c. destruct (Hg (KProc p)) as [[E ->]|[_ ->]]; [by apply Hsc|apply I].
  - intros t' q H. assert (Hq : l_w (<[t := l]> G t') = true /\ ((q < NPROCn)%nat -> ~ drowsy s G q)).
    { destruct (Hg t') as [[E E']|[_ E']]; rewrite E' in *; [by apply Haw|by eapply I]. }
    destruct Hq as [? Hq]. split; [done|]. intros Hn Hd. by apply Hq, Hdr.
  - intros p q. destruct (Hg (KProc p)) as [[E ->]|[_ ->]]; [by apply Hpa|apply I].
  - intros t'. destruct (Hg t') as [[E ->]|[_ ->]]; [done|apply I].
  - intros p c Hp Hc H1 H2 H3. destruct (w_main _ _ _ I p c Hp Hc H1 H2 (Hdr _ H3)) as (t' & Hw & Hd).
    exists t'. destruct (Hg t') as [[-> ->]|[_ ->]]; [|done]. by eapply Hde; eauto.
Qed.

(** Going to sleep: the holder of wait_lock has found no zombie child. *)
Lemma winv_sleepy s cu G p : winv s cu G -> l_w (G (KProc p)) = true -> l_p (G (KProc p)) = Some p ->
  (forall c, (c < NPROCn)%nat -> c ∈ l_scan (G (KProc p))) -> l_debt (G (KProc p)) = ∅ ->
  winv s cu (<[KProc p := drop_w true (G (KProc p))]> G).
Proof.
  intros I Hw Hp Hsc Hde.
  assert (Hg : forall t', (t' = KProc p /\ <[KProc p := drop_w true (G (KProc p))]> G t' = drop_w true (G (KProc p))) \/
    (t' <> KProc p /\ <[KProc p := drop_w true (G (KProc p))]> G t' = G t')).
  { intros t'. destruct (decide (KProc p = t')) as [<-|]; [left; by rewrite fn_lookup_insert|right; by rewrite fn_lookup_insert_ne]. }
  set (G' := <[KProc p := drop_w true (G (KProc p))]> G) in *.
  assert (Hdr : forall q, drowsy s G' q -> q = p \/ drowsy s G q).
  { intros q [Hq|Hq]; [|right; by right]. destruct (Hg (KProc q)) as [[[= ->] _]|[_ E]]; [by left|right; left; by rewrite E in Hq]. }
  split.
  - apply I.
  - intros t' k. destruct (Hg t') as [[-> ->]|[_ ->]]; [|apply I]. intros H. apply I. by destruct k.
  - intros q. destruct (Hg (KProc q)) as [[[= ->] ->]|[_ ->]]; [done|apply I].
  - intros q ch. destruct (Hg (KProc q)) as [[[= ->] ->]|[_ ->]]; apply I.
  - intros q. destruct (Hg (KProc q)) as [[[= ->] ->]|[_ ->]]; [done|apply I].
  - intros q c. destruct (Hg (KProc q)) as [[[= ->] ->]|[_ ->]]; [set_solver|apply I].
  - intros t' q. destruct (Hg t') as [[-> ->]|[Hne ->]]; [set_solver|]. intros H. destruct (w_awake _ _ _ I _ _ H) as [Hw' Hq].
    by destruct Hne; eapply (has_excl _ _ _ _ _ TW I).
  - intros q q0. destruct (Hg (KProc q)) as [[[= ->] ->]|[_ ->]]; [done|apply I].
  - intros t'. destruct (Hg t') as [[-> ->]|[_ ->]]; apply I.
  - intros q c Hq Hc H1 H2 H3. destruct (Hdr _ H3) as [->|Hd].
    { destruct (w_scan _ _ _ I p c) as [_ H]; [by apply Hsc|]. by destruct H. }
    destruct (w_main _ _ _ I q c Hq Hc H1 H2 Hd) as (t' & Hw' & Hd'). exfalso.
    assert (t' = KProc p) as -> by (by eapply (has_excl _ _ _ _ _ TW I)). rewrite Hde in Hd'. set_solver.
Qed.

(** * Changes of the state *)

(** What the invariant depends on. *)
Lemma winv_same s s' cu G : s_lk s' = s_lk s -> s_proc s' = s_proc s -> g_initproc (s_glob s') = g_initproc (s_glob s) ->
  winv s cu G -> winv s' cu G.
Proof. intros El Ep Eg [?????????]. split; unfold drowsy, asleep in *; rewrite ?El, ?Ep, ?Eg; done. Qed.

(** A change of a lock nobody is known to hold. *)
Lemma winv_lk s cu G lk v : winv s cu G -> (forall t k, has (G t) k -> lock_of k = lk -> v = s_lk s lk) ->
  winv (upd_lk lk v s) cu G.
Proof.
  intros I Hv. pose proof I as [?????????]. split; try done. intros t k Hk. destruct (w_has _ _ _ I t k Hk) as (c & E & Hc).
  exists c. split; [|done]. simpl. destruct (decide (lk = lock_of k)) as [->|]; [|by rewrite fn_lookup_insert_ne].
  rewrite fn_lookup_insert. by rewrite (Hv t k Hk eq_refl).
Qed.

(** A thread without these locks may be replaced on its CPU. *)
Lemma winv_swtch s cu G c to : winv s cu G -> (forall k, ~ has (G (cu c)) k) -> winv s (<[c := to]> cu) G.
Proof.
  intros I Hn. pose proof I as [?????????]. split; try done. intros t k Hk. destruct (w_has _ _ _ I t k Hk) as (d & E & <-).
  exists d. split; [done|]. rewrite fn_lookup_insert_ne; [done|]. intros ->. by destruct (Hn k).
Qed.

(** A change of one process. *)
Lemma winv_proc s cu G i y : winv s cu G ->
  (forall ch, l_chan (G (KProc i)) = Some ch -> p_chan y = Some ch) ->
  (p_state y = SLEEPING -> p_chan y = Some (ChProc i) ->
     drowsy s G i /\ (l_slept (G (KProc i)) = true \/ l_about (G (KProc i)) = true)) ->
  (forall p, p_parent y = Some p -> p_state y = ZOMBIE ->
     (p_parent (s_proc s i) = Some p /\ p_state (s_proc s i) = ZOMBIE) \/
     (i ∉ l_scan (G (KProc p)) /\ ((p < NPROCn)%nat -> drowsy s G p -> (p = i -> p_state y = SLEEPING \/ l_about (G (KProc i)) = true) ->
        exists t, l_w (G t) = true /\ p ∈ l_debt (G t)))) ->
  (forall q0 q', l_par (G (KProc i)) = Some q0 -> p_parent y = Some q' -> q0 = Some q') ->
  (p_state y = SLEEPING -> p_state (s_proc s i) = SLEEPING \/ forall t, l_p (G t) = Some i -> l_fresh (G t) = false) ->
  winv (set_s_proc (<[i := y]> (s_proc s)) s) cu G.
Proof.
  intros I Hch Has Hzo Hpa Hfr. set (s' := set_s_proc _ s).
  assert (Hp : forall j, (j = i /\ s_proc s' j = y) \/ (j <> i /\ s_proc s' j = s_proc s j)).
  { intros j. simpl. destruct (decide (i = j)) as [<-|]; [left; by rewrite fn_lookup_insert|right; by rewrite fn_lookup_insert_ne]. }
  assert (Hdr : forall q, drowsy s' G q -> drowsy s G q /\ (q = i -> p_state y = SLEEPING \/ l_about (G (KProc i)) = true)).
  { intros q [Hq|[H1 H2]]; [split; [by left|]; intros ->; by right|]. destruct (Hp q) as [[-> E]|[Hne E]]; rewrite E in *.
    - split; [by apply Has|]. by left.
    - split; [right; by split|done]. }
  split.
  - apply I.
  - apply I.
  - apply I.
  - intros p ch H. destruct (w_chan _ _ _ I p ch H) as [H1 H2]. split; [done|]. destruct (Hp p) as [[-> ->]|[_ ->]]; auto.
  - intros p H1 H2 [H3 H4]. destruct (Hp p) as [[-> E]|[_ E]]; rewrite E in *.
    + destruct (Has H3 H4) as [_ [?|?]]; congruence.
    + by eapply (w_idle _ _ _ I p).
  - intros p c H. destruct (w_scan _ _ _ I p c H) as [H1 H2]. split; [done|]. destruct (Hp c) as [[-> ->]|[_ ->]]; [|done].
    intros H3 H4. destruct (Hzo p H3 H4) as [[? ?]|[? _]]; [by apply H2|done].
  - intros t q H. destruct (w_awake _ _ _ I t q H) as [H1 H2]. split; [done|]. intros Hn [Hd _]%Hdr. by apply H2.
  - intros p q H. destruct (w_par _ _ _ I p q H) as [H1 H2]. split; [done|]. destruct (Hp p) as [[-> ->]|[_ ->]]; [|done].
    intros q'. by apply Hpa.
  - intros t H. destruct (w_fresh _ _ _ I t H) as (j & H1 & H2). exists j. split; [done|]. destruct (Hp j) as [[-> ->]|[_ ->]]; [|done].
    intros H3. destruct (Hfr H3) as [?|Hf]; [done|]. by rewrite (Hf t H1) in H.
  - intros p c Hp1 Hc H1 H2 [H3 H4]%Hdr. destruct (Hp c) as [[-> E]|[_ E]]; rewrite E in *.
    + destruct (Hzo p H1 H2) as [[? ?]|[_ H]]; [by eapply I|by apply H].
    + by eapply I.
Qed.
End winv.

(** * Code that does not concern wait *)

(** A change of a process that makes it neither sleep nor a zombie, keeps its
    channel and gives it no new parent. *)
Record tame (f : proc -> proc) : Prop := {
  tame_chan x : p_chan (f x) = p_chan x;
  tame_sleep x : p_state (f x) = SLEEPING -> p_state x = SLEEPING;
  tame_zombie x : p_state (f x) = ZOMBIE -> p_state x = ZOMBIE;
  tame_parent x q : p_parent (f x) = Some q -> p_parent x = Some q;
}.

Create HintDb still.

Section still.
Context {U : Type}.

Definition tracked (l : lockid) : bool := match l with WaitLock | PLock _ => true | _ => false end.

Definition still_evt {X} (e : evt U X) : Prop :=
  match e with
  | SetLkCpu l _ => tracked l = false
  | ModProc _ f => tame f
  | ModG f => forall g, g_initproc (f g) = g_initproc g
  | Swtch _ _ | SetCtx _ => False
  | _ => True
  end.
Fixpoint still {A} (m : T U A) : Prop :=
  match m with
  | TRet _ => True
  | TVis e k => still_evt e /\ forall x, still (k x)
  | TIter body i k => (forall j, still (body j)) /\ forall r, still (k r)
  end.

Lemma still_bind {A B} (m : T U A) (f : A -> T U B) : still m -> (forall a, still (f a)) -> still (m ≫= f).
Proof.
  intros Hm Hf. change (m ≫= f) with (tbind f m). induction m as [A a|A X e k IH|A I R body IHb i k IH]; simpl.
  - apply Hf.
  - destruct Hm as [He Hk]. split; [done|]. auto.
  - destruct Hm as [Hb Hk]. split; [done|]. auto.
Qed.
Lemma still_ret {A} (a : A) : still (mret a).
Proof. done. Qed.
Lemma still_ev {X} (e : evt U X) : still_evt e -> still (ev e).
Proof. done. Qed.
Lemma still_loop {I R} (body : I -> T U (I + R)) i : (forall j, still (body j)) -> still (loop body i).
Proof. done. Qed.
Lemma still_panic {A} msg : still (tpanic (A := A) msg).
Proof. split; [done|]. by intros []. Qed.
Lemma still_tfor {X} (l : list X) body : (forall x, still (body x)) -> still (tfor l body).
Proof. intros H. induction l; simpl; [done|]. by apply still_bind. Qed.
Lemma still_tfind {X R} (l : list X) (body : X -> T U (option R)) : (forall x, still (body x)) -> still (tfind l body).
Proof. intros H. induction l; simpl; [done|]. apply still_bind; [done|]. by intros []. Qed.
End still.
Arguments still {U A} m : simpl never.

Ltac tame_tac := split; intros []; simpl; intros; (done || congruence || idtac).
#[export] Hint Extern 1 (tame _) => tame_tac : still.
#[export] Hint Extern 1 (still (ev _)) =>
  (apply still_ev; hnf; first [exact I | reflexivity | intros []; done | solve [auto with still]]) : still.
#[export] Hint Resolve still_panic : still.

Ltac st := autounfold with still; repeat first
  [ apply still_ret | solve [auto with still] | apply still_bind; [|intros ?]
  | apply still_loop; intros ? | apply still_tfor; intros ? | apply still_tfind; intros ?
  | match goal with
    | |- still (match ?e with _ => _ end) => destruct e
    end ].

(** * Rules *)

Section rules.
Context {U : Type} (ini : option nat).
Implicit Types (s : gst U) (G : thread -> wghost).
Local Abbreviation wwp := (gwp (U := U) (winv ini) (fun _ => True) (fun l => l = clean)).

Lemma wlocal_insert t (G : thread -> wghost) l : local_to t G (<[t := l]> G).
Proof. intros t' Hne. by rewrite fn_lookup_insert_ne. Qed.

Lemma winv_tame s cu G i f : winv ini s cu G -> tame f -> winv ini (set_s_proc (<[i := f (s_proc s i)]> (s_proc s)) s) cu G.
Proof.
  intros I [Hc Hs Hz Hp]. apply winv_proc; [done|..].
  - intros ch H. rewrite Hc. by apply I.
  - intros H1 H2. rewrite Hc in H2. apply Hs in H1. split; [right; by split|].
    destruct (l_slept (G (KProc i))) eqn:E1; [by left|]. destruct (l_about (G (KProc i))) eqn:E2; [by right|].
    by destruct (w_idle _ _ _ _ I i E1 E2).
  - intros p H1 H2. left. auto.
  - intros q0 q' H1 H2. eapply I; [done|]. by apply Hp.
  - intros H. left. by apply Hs.
Qed.

Lemma still_inv o c t {X} (e : evt U X) s cu G x s' : still_evt e -> disciplined t c e s cu ->
  exec o c e s = RStep _ x s' -> winv ini s cu G -> winv ini s' cu G.
Proof.
  intros He Hd Hx I. destruct e; simpl in He, Hx; repeat case_match; simplify_eq; try done;
    try (by eapply winv_same, I).
  - by destruct Hd as (_ & _ & _ & []).
  - apply winv_lk; [done|]. intros t' k Hk <-. destruct (w_has _ _ _ _ I t' k Hk) as (d & -> & _). done.
  - apply winv_lk; [done|]. intros t' k Hk <-. by destruct k.
  - apply winv_lk; [done|]. intros t' k Hk <-. destruct Hd as (_ & _ & _ & Hd).
    destruct (w_has _ _ _ _ I t' k Hk) as (d & E & _). by rewrite Hd in E.
  - by apply winv_tame.
  - eapply winv_same, I; [done|done|]. simpl. by rewrite He.
Qed.

Lemma wwp_still t {A} (m : T U A) (Q : A -> wghost -> Prop) l : still m -> (forall a, Q a l) -> wwp t m Q l.
Proof.
  revert Q. induction m as [A a|A X e k IH|A I R body IHb i k IH]; intros Q Hm HQ; [apply HQ| |].
  - destruct Hm as [He Hk]. intros o c s cu G HI Hl Hd. destruct (exec o c e s) as [x s'|from to x|i x| |h] eqn:Ex; try done.
    + exists G. split; [by eapply still_inv|]. split; [done|]. rewrite Hl. by apply IH.
    + exfalso. destruct e; simpl in *; repeat case_match; simplify_eq; done.
    + exfalso. destruct e; simpl in *; repeat case_match; simplify_eq; done.
  - destruct Hm as [Hb Hk]. exists (fun _ l' => l' = l). split; [done|]. intros j l1 ->.
    apply IHb; [done|]. intros [j'|r]; [done|]. by apply IH.
Qed.
Lemma wwp_seq t {A B} (m : T U A) (f : A -> T U B) (Q : B -> wghost -> Prop) l :
  still m -> (forall a, wwp t (f a) Q l) -> wwp t (m ≫= f) Q l.
Proof. intros Hm Hf. apply gwp_bind. by apply wwp_still. Qed.
Lemma wwp_panic t {A} msg (Q : A -> wghost -> Prop) l : wwp t (tpanic (U := U) msg) Q l.
Proof. intros o c s cu G HI Hl Hd. exact I. Qed.
Lemma wwp_undefined t {A} (Q : A -> wghost -> Prop) l : wwp t undefined Q l.
Proof. intros o c s cu G HI Hl Hd. exact I. Qed.

(** An access with a change of ghost state. *)
Lemma wwp_ev t {X} (e : evt U X) l l' (Q : X -> wghost -> Prop) : still_evt e ->
  (forall o c s cu G x s', winv ini s cu G -> G t = l -> disciplined t c e s cu -> exec o c e s = RStep _ x s' ->
     winv ini s' cu G -> winv ini s' cu (<[t := l' x]> G) /\ Q x (l' x)) ->
  wwp t (ev e) Q l.
Proof.
  intros He H o c s cu G HI Hl Hd. destruct (exec o c e s) as [x s'|from to x|i x| |h] eqn:Ex; try done.
  - destruct (H o c s cu G x s' HI Hl Hd Ex) as [HI' HQ]; [by eapply still_inv|].
    exists (<[t := l' x]> G). split; [done|]. split; [apply wlocal_insert|]. by rewrite fn_lookup_insert.
  - exfalso. destruct e; simpl in *; repeat case_match; simplify_eq; done.
  - exfalso. destruct e; simpl in *; repeat case_match; simplify_eq; done.
Qed.
(** A change of a process that is not tame. *)
Lemma wwp_modp t i f l l' (Q : unit -> wghost -> Prop) :
  (forall s cu G, winv ini s cu G -> G t = l -> winv ini (set_s_proc (<[i := f (s_proc s i)]> (s_proc s)) s) cu (<[t := l']> G)) ->
  Q tt l' -> wwp t (ev (ModProc i f)) Q l.
Proof.
  intros H HQ o c s cu G HI Hl Hd. simpl. exists (<[t := l']> G). split; [by apply H|]. split; [apply wlocal_insert|].
  by rewrite fn_lookup_insert.
Qed.
(** A change of ghost state before the next access. *)
Definition visible {A} (m : T U A) : Prop := match m with TVis _ _ => True | _ => False end.
Lemma wwp_shift t {A} (m : T U A) l l' (Q : A -> wghost -> Prop) : visible m ->
  (forall s cu G, winv ini s cu G -> G t = l -> winv ini s cu (<[t := l']> G)) -> wwp t m Q l' -> wwp t m Q l.
Proof.
  destruct m as [a|X e k|I R body i k]; try done. intros _ Hs Hm o c s cu G HI Hl Hd.
  specialize (Hm o c s cu (<[t := l']> G) (Hs _ _ _ HI Hl)). rewrite fn_lookup_insert in Hm. specialize (Hm eq_refl Hd).
  assert (Hloc : forall t', t' <> t -> <[t := l']> G t' = G t') by (intros t' Ht; by rewrite fn_lookup_insert_ne).
  destruct (exec o c e s); try done.
  - destruct Hm as (G' & HI' & Hl' & HQ). exists G'. split; [done|]. split; [|done]. intros t' Ht. rewrite Hl' by done. auto.
  - destruct Hm as (G' & HI' & Hl' & HQ). exists G'. split; [done|]. split; [|done]. intros t' Ht. rewrite Hl' by done. auto.
  - destruct Hm as (G' & HI' & Hl' & Hc & HQ). exists G'. split; [done|]. split; [|done]. intros t' Ht Hi. rewrite Hl' by done. auto.
Qed.

(** The current process of a thread. *)
Lemma still_push_off : still (push_off (U := U)).
Proof. unfold push_off, mycpu, cpuid. st. Qed.
Lemma still_pop_off : still (pop_off (U := U)).
Proof. unfold pop_off, mycpu, cpuid. st. Qed.
Lemma still_holding lk : still (holding (U := U) lk).
Proof. unfold holding, mycpu, cpuid. st. Qed.
Lemma wwp_myproc t l (Q : option nat -> wghost -> Prop) :
  (forall o, (forall p, t = KProc p -> o = Some p) -> Q o l) -> wwp t myproc Q l.
Proof.
  intros HQ. unfold myproc, mycpu, cpuid. apply wwp_seq; [apply still_push_off|]. intros _. apply wwp_seq; [done|]. intros c.
  apply gwp_bind. intros o c' s cu G HI Hl (_ & _ & _ & Hd). simpl. exists G. split; [done|]. split; [done|]. rewrite Hl.
  change (wwp t (pop_off ≫= fun _ => mret (c_proc (s_cpu s c))) Q l).
  apply wwp_seq; [apply still_pop_off|]. intros _. apply gwp_ret. by apply HQ.
Qed.
Lemma wwp_cur t l (Q : nat -> wghost -> Prop) : (forall p, (forall q, t = KProc q -> p = q) -> Q p l) -> wwp t cur Q l.
Proof.
  intros HQ. unfold cur. apply gwp_bind, wwp_myproc. intros [p|] H; [|apply wwp_undefined].
  apply gwp_ret, HQ. intros q Hq. specialize (H q Hq). congruence.
Qed.

(** Taking a lock: a thread that holds it does not get it. *)
Lemma wwp_acquire t k l l' (Q : unit -> wghost -> Prop) :
  (~ has l k -> Q tt l' /\ (l' = l \/ forall s cu G c, winv ini s cu G -> G t = l -> s_lk s (lock_of k) = Spinlock true (Some c) -> cu c = t ->
     winv ini s cu (<[t := l']> G))) ->
  wwp t (acquire (lock_of k)) Q l.
Proof.
  intros H. unfold acquire, mycpu, cpuid. apply wwp_seq; [apply still_push_off|]. intros _.
  apply wwp_seq; [apply still_holding|]. intros []; [apply wwp_panic|].
  apply gwp_bind, (gwp_loop _ _ _ _ _ _ _ (fun _ l1 => l1 = l)); [done|]. intros _ l1 ->.
  apply gwp_bind. intros o c s cu G HI Hl Hd. simpl.
  assert (HI' : winv ini (upd_lk (lock_of k) (Spinlock true (l_cpu (s_lk s (lock_of k)))) s) cu G).
  { eapply (still_inv o c t (TestAndSet (lock_of k))); [done|done|reflexivity|done]. }
  exists G. split; [done|]. split; [done|]. rewrite Hl. destruct (l_locked (s_lk s (lock_of k))) eqn:E; [done|].
  assert (Hn : ~ has l k).
  { intros Hk. rewrite <- Hl in Hk. destruct (w_has _ _ _ _ HI _ _ Hk) as (d & Ek & _). by rewrite Ek in E. }
  destruct (H Hn) as [HQ Hs]. apply wwp_seq; [done|]. intros c'. clear - HQ Hs.
  intros o c s cu G HI Hl (_ & Hc & _ & -> & Ew). simpl.
  assert (HI' : winv ini (upd_lk (lock_of k) (Spinlock (l_locked (s_lk s (lock_of k))) (Some c)) s) cu G).
  { apply winv_lk; [done|]. intros t' k' Hk' Ek'. destruct (w_has _ _ _ _ HI t' k' Hk') as (d & E & _). rewrite Ek', Ew in E. done. }
  rewrite Ew in *. destruct Hs as [->|Hs].
  - exists G. split; [done|]. split; [done|]. by rewrite Hl.
  - exists (<[t := l']> G). split; [|split; [apply wlocal_insert|by rewrite fn_lookup_insert]].
    apply (Hs _ _ _ c); [done|done|simpl; by rewrite fn_lookup_insert|done].
Qed.

(** Giving up a lock that is not tracked, or no longer. *)
Lemma wwp_release t k l l' (Q : unit -> wghost -> Prop) : ~ has l' k ->
  (l' = l \/ forall s cu G, winv ini s cu G -> G t = l -> winv ini s cu (<[t := l']> G)) -> Q tt l' ->
  wwp t (release (lock_of k)) Q l.
Proof.
  intros Hn Hs HQ. unfold release. apply wwp_seq; [apply still_holding|]. intros []; simpl; [|apply wwp_panic].
  apply gwp_bind. intros o c s cu G HI Hl (_ & Hc & Hu & Ew). simpl.
  assert (exists G1, winv ini s cu G1 /\ local_to t G G1 /\ G1 t = l') as (G1 & HI1 & Hloc & Hl1).
  { destruct Hs as [->|Hs]; [by exists G|]. exists (<[t := l']> G). split; [by apply Hs|]. split; [apply wlocal_insert|]. by rewrite fn_lookup_insert. }
  exists G1. split; [|split; [done|]].
  - apply winv_lk; [done|]. intros t' k' Hk' Ek'. exfalso. destruct (w_has _ _ _ _ HI1 t' k' Hk') as (d & E & Hd).
    rewrite Ek', Ew in E. injection E as ->. rewrite Hc in Hd. subst t'. rewrite Hl1 in Hk'.
    assert (k' = k) as -> by (by destruct k, k'; simplify_eq). done.
  - rewrite Hl1. apply wwp_seq; [done|]. intros _.
    refine (wwp_still t pop_off Q l' still_pop_off _). by intros [].
Qed.
End rules.
