(* ===== verification/WaitSpec.v ===== *)
(** The kernel keeps the invariant of KWait.v: kernel/proc.c in the logic of
    KGhost.v, with every other function of the kernel that runs in a thread. *)

From S2P Require Import Prelude BufCache BufSpec KState Log CString Fs Kalloc PipeRing File Sysfile Vm KThread Printf Proc Console Virtio Exec Trap KLogic KInv KGhost KWait.
Local Open Scope Z_scope.

#[export] Hint Unfold getp modp getg modg onmem onfs mycpu cpuid undefined : still.
#[export] Hint Resolve still_push_off still_pop_off still_holding : still.

(** * What a thread knows, when it takes and gives up a lock *)

(** The clauses of [winv_ghost] that the change of ghost state does not concern. *)
Ltac winv_kept I := apply winv_ghost; [exact I|..]; simpl; try first
  [ solve [intros [|?]; by left] | solve [apply I] | solve [auto]
  | solve [intros ? ->; apply I] | solve [intros ? ? ->; apply I]
  | solve [intros ? [= <-]; apply I] | solve [intros ? ? [= <-]; apply I]
  | solve [intros ? -> ?; split; [done|by apply I]] | solve [intros ? [= <-] ?; split; [done|by apply I]] ].

Section ghosts.
Context {U : Type} (ini : option nat).
Implicit Types (s : gst U) (G : thread -> wghost).

Lemma winv_take_p s cu G t i c : winv ini s cu G -> l_p (G t) = None ->
  s_lk s (PLock i) = Spinlock true (Some c) -> cu c = t -> winv ini s cu (<[t := set_l_p (Some i) (G t)]> G).
Proof.
  intros I Hp Hl Hc. winv_kept I.
  - intros [|j]; simpl; [by left|]. intros [= ->]. right. by exists c.
  - intros p -> H. by rewrite (w_about _ _ _ _ I _ H) in Hp.
  - intros p ch -> H. destruct (w_chan _ _ _ _ I _ _ H) as [H' _]. by rewrite H' in Hp.
  - intros H. destruct (w_fresh _ _ _ _ I _ H) as (j & H' & _). by rewrite H' in Hp.
Qed.

Lemma winv_drop_p s cu G t : winv ini s cu G -> l_about (G t) = false \/ l_slept (G t) = true ->
  winv ini s cu (<[t := drop_p (G t)]> G).
Proof.
  intros I Ha. apply winv_ghost; [done|..]; simpl; try done.
  - intros [|j]; simpl; [by left|done].
  - intros p -> H _. destruct Ha as [Ha|Ha]; [by apply I|by rewrite Ha in H].
  - intros p d ->. apply I.
  - apply I.
  - intros p q ->. apply I.
Qed.

Lemma winv_take_w s cu G t c : winv ini s cu G ->
  s_lk s WaitLock = Spinlock true (Some c) -> cu c = t -> winv ini s cu (<[t := set_l_w true (G t)]> G).
Proof.
  intros I Hl Hc. winv_kept I.
  - intros [|j]; simpl; [right; by exists c|by left].
  - intros p d -> H. split; [done|]. by apply I.
  - intros q H. split; [done|]. by eapply I.
  - intros p q -> H. split; [done|]. by apply I.
Qed.

Lemma winv_drop_w s cu G t : winv ini s cu G -> l_debt (G t) = ∅ -> l_about (G t) = false ->
  winv ini s cu (<[t := drop_w false (G t)]> G).
Proof.
  intros I Hd Ha. apply winv_ghost; [done|..]; simpl; try done; try set_solver.
  - intros [|j]; simpl; [done|by left].
  - intros p ch ->. apply I.
  - intros p -> H _. by apply I.
  - apply I.
Qed.
End ghosts.

(** * Rules *)

Section rules.
Context {U : Type} (ini : option nat).
Implicit Types (s : gst U) (G : thread -> wghost).
Local Abbreviation wwp := (gwp (U := U) (winv ini) (fun _ => True) (fun l => l = clean)).

(** A lock the thread does not keep track of. *)
Lemma wwp_acquire_keep t k l (Q : unit -> wghost -> Prop) : (~ has l k -> Q tt l) -> wwp t (acquire (lock_of k)) Q l.
Proof. intros H. apply (wwp_acquire _ _ _ _ l). intros Hn. split; [by apply H|by left]. Qed.
Lemma wwp_release_keep t k l (Q : unit -> wghost -> Prop) : ~ has l k -> Q tt l -> wwp t (release (lock_of k)) Q l.
Proof. intros Hn HQ. eapply wwp_release; [exact Hn|by left|done]. Qed.

Lemma wwp_acquire_p t i l (Q : unit -> wghost -> Prop) : l_p l = None -> Q tt (set_l_p (Some i) l) ->
  wwp t (acquire (PLock i)) Q l.
Proof.
  intros Hl HQ. apply (wwp_acquire _ _ (TP i) _ (set_l_p (Some i) l)). intros _. split; [done|]. right.
  intros s cu G c I <- H1 H2. by eapply winv_take_p.
Qed.
Lemma wwp_release_p t i l (Q : unit -> wghost -> Prop) : l_about l = false \/ l_slept l = true -> Q tt (drop_p l) ->
  wwp t (release (PLock i)) Q l.
Proof.
  intros Hl HQ. apply (wwp_release _ _ (TP i) _ (drop_p l)); [done| |done]. right. intros s cu G I <-. by apply winv_drop_p.
Qed.
Lemma wwp_acquire_w t l (Q : unit -> wghost -> Prop) : Q tt (set_l_w true l) -> wwp t (acquire WaitLock) Q l.
Proof.
  intros HQ. apply (wwp_acquire _ _ TW _ (set_l_w true l)). intros _. split; [done|]. right.
  intros s cu G c I <- H1 H2. by eapply winv_take_w.
Qed.
Lemma wwp_release_w t l (Q : unit -> wghost -> Prop) : l_debt l = ∅ -> l_about l = false -> Q tt (drop_w false l) ->
  wwp t (release WaitLock) Q l.
Proof.
  intros H1 H2 HQ. apply (wwp_release _ _ TW _ (drop_w false l)); [done| |done]. right. intros s cu G I <-. by apply winv_drop_w.
Qed.

(** Leaving the CPU, with no lock that is kept track of. *)
Lemma wwp_swtch t from to l (Q : unit -> wghost -> Prop) :
  (from = t -> (forall p, from = KProc p \/ to = KProc p -> l_p l <> Some p) /\ Q tt l) -> wwp t (ev (Swtch from to)) Q l.
Proof.
  intros H o c s cu G I Hl (_ & Hc & Hu & -> & Hk). destruct (H eq_refl) as [Hp HQ]. simpl. exists G. split; [|split; [done|by rewrite Hl]].
  apply winv_swtch; [done|]. rewrite Hc. intros k Hh. destruct (w_has _ _ _ _ I _ _ Hh) as (d & E & ->%Hu).
  destruct (Hk _ E) as (p & Ep & Hpp). destruct k as [|j]; [done|]. injection Ep as ->. rewrite Hl in Hh. by apply (Hp p).
Qed.
End rules.

(** * Code that does not concern wait *)

Section still.
Context {U : Type}.

Lemma still_acquire l : tracked l = false -> still (acquire (U := U) l).
Proof. intros H. unfold acquire. st. Qed.
Lemma still_release l : tracked l = false -> still (release (U := U) l).
Proof. intros H. unfold release. st. Qed.
End still.
#[export] Hint Extern 1 (still (acquire _)) => (apply still_acquire; reflexivity) : still.
#[export] Hint Extern 1 (still (release _)) => (apply still_release; reflexivity) : still.

Section still.
Context {U : Type}.

Lemma still_hang {A} : still (hang : T U A).
Proof. unfold hang. st. Qed.
Hint Resolve still_hang : still.
Lemma still_consputc c : still (consputc (U := U) c).
Proof. unfold consputc, uartputc_sync. st. Qed.
Hint Resolve still_consputc : still.
Lemma still_printf f ap : still (printf (U := U) f ap).
Proof. unfold printf. st. Qed.
Hint Resolve still_printf : still.
Lemma still_myproc : still (myproc (U := U)).
Proof. unfold myproc. st. Qed.
Hint Resolve still_myproc : still.
Lemma still_cur : still (cur (U := U)).
Proof. unfold cur. st. Qed.
Hint Resolve still_cur : still.
Lemma still_allocpid : still (allocpid (U := U)).
Proof. unfold allocpid. st. Qed.
Lemma still_growproc kend n : still (growproc (U := U) kend n).
Proof. unfold growproc. st. Qed.
Lemma still_copyin1 us src : still (copyin1 (U := U) us src).
Proof. unfold copyin1. st. Qed.
Lemma still_copyout1 us dst c : still (copyout1 (U := U) us dst c).
Proof. unfold copyout1. st. Qed.
Lemma still_procdump : still (procdump (U := U)).
Proof. unfold procdump. st. Qed.
Lemma still_usertrapret trampoline uservec usertrap_addr : still (usertrapret (U := U) trampoline uservec usertrap_addr).
Proof. unfold usertrapret. st. Qed.
End still.
#[export] Hint Resolve still_hang still_consputc still_printf still_myproc still_cur still_allocpid still_growproc
  still_copyin1 still_copyout1 still_procdump still_usertrapret : still.

(** * Code that keeps what the thread knows *)

(** From the ghost states [R] of a thread, code returns with the one it was
    called with: for all, or for a process without these locks. *)
Definition any (t : thread) (l : wghost) : Prop := True.
Definition at_rest (t : thread) (l : wghost) : Prop := (exists p, t = KProc p) /\ l = clean.

Section keeps.
Context {U : Type} (ini : option nat).
Local Abbreviation wwp := (gwp (U := U) (winv ini) (fun _ => True) (fun l => l = clean)).

Definition wkeeps (R : thread -> wghost -> Prop) {A} (m : T U A) : Prop := forall t l, R t l -> wwp t m (fun _ l' => l' = l) l.

Lemma wkeeps_weaken R {A} (m : T U A) : wkeeps any m -> wkeeps R m.
Proof. intros H t l _. by apply H. Qed.
Lemma wkeeps_still R {A} (m : T U A) : still m -> wkeeps R m.
Proof. intros H t l _. by apply wwp_still. Qed.
Lemma wkeeps_undefined R {A} : wkeeps R (undefined : T U A).
Proof. intros t l _. apply wwp_undefined. Qed.
Lemma wkeeps_bind R {A B} (m : T U A) (f : A -> T U B) : wkeeps R m -> (forall a, wkeeps R (f a)) -> wkeeps R (m ≫= f).
Proof. intros Hm Hf t l Hl. apply gwp_bind. eapply gwp_mono; [|by apply Hm]. intros a l' ->. by apply Hf. Qed.
Lemma wkeeps_loop R {I B} (body : I -> T U (I + B)) i : (forall j, wkeeps R (body j)) -> wkeeps R (loop body i).
Proof.
  intros H t l Hl. apply (gwp_loop _ _ _ _ _ _ _ (fun _ l' => l' = l)); [done|]. intros j l1 ->.
  eapply gwp_mono; [|by apply H]. by intros [j'|r] l2 ->.
Qed.
Lemma wkeeps_tfor R {X} (l : list X) body : (forall x, wkeeps R (body x)) -> wkeeps R (tfor l body).
Proof. intros H. induction l; simpl; [by apply wkeeps_still|]. by apply wkeeps_bind. Qed.
Lemma wkeeps_tfind R {X B} (l : list X) (body : X -> T U (option B)) : (forall x, wkeeps R (body x)) -> wkeeps R (tfind l body).
Proof.
  intros H. induction l; simpl; [by apply wkeeps_still|]. apply wkeeps_bind; [done|]. intros []; [by apply wkeeps_still|done].
Qed.
(** Used as a rule for a call. *)
Lemma wkeeps_use R {A} (m : T U A) t l (Q : A -> wghost -> Prop) : wkeeps R m -> R t l -> (forall a, Q a l) -> wwp t m Q l.
Proof. intros H Hl HQ. eapply gwp_mono; [|by apply H]. by intros a l' ->. Qed.

(** A critical section on a lock that is not kept track of. *)
Lemma wkeeps_critical R k {A} (m : T U A) :
  (forall t l, R t l -> ~ has l k -> wwp t m (fun _ l' => l' = l) l) -> wkeeps R (acquire (lock_of k);; m).
Proof. intros H t l Hl. apply gwp_bind, wwp_acquire_keep. intros Hn. by apply H. Qed.

Lemma wwp_sched t l (Q : unit -> wghost -> Prop) : (forall p, t = KProc p -> l_p l <> Some p) -> Q tt l -> wwp t sched Q l.
Proof.
  intros Hp HQ. unfold sched. apply gwp_bind, wwp_cur. intros p Ht. apply wwp_seq; [apply still_holding|]. intros []; simpl; [|apply wwp_panic].
  do 2 (apply wwp_seq; [st|]; intros ?). destruct (negb _); [apply wwp_panic|]. apply wwp_seq; [st|]. intros y.
  case_decide; [apply wwp_panic|]. apply wwp_seq; [st|]. intros []; [apply wwp_panic|].
  do 3 (apply wwp_seq; [st|]; intros ?). apply gwp_bind, wwp_swtch. intros <-. split.
  - intros q [[= ->]|?]; [by apply Hp|done].
  - apply wwp_still; [st|]. by intros [].
Qed.

Lemma wkeeps_yield : wkeeps any yield.
Proof.
  intros t l _. unfold yield. apply gwp_bind, wwp_cur. intros p Hp. apply gwp_bind, (wwp_acquire_keep _ _ (TP p)). intros Hn.
  apply wwp_seq; [st|]. intros _. apply gwp_bind, wwp_sched.
  - intros q Hq. by rewrite <- (Hp q Hq).
  - by apply (wwp_release_keep _ _ (TP p)).
Qed.

(** A process is looked at with its lock held. *)
Lemma wkeeps_plock {A B} p (m : T U A) (f : A -> T U B) :
  still m -> (forall a, wkeeps any (f a)) -> wkeeps any (acquire (PLock p);; a ← m; release (PLock p);; f a).
Proof.
  intros Hm Hf. apply (wkeeps_critical _ (TP p)). intros t l _ Hn. apply wwp_seq; [done|]. intros a.
  apply gwp_bind, (wwp_release_keep _ _ (TP p)); [done|]. by apply Hf.
Qed.

(** The body of the loop of [wakeup]. *)
Definition wake_one (ch : option chan) (p : nat) : T U unit :=
  me ← myproc;
  if decide (me = Some p) then mret tt else
  acquire (PLock p);;
  x ← getp p;
  (if decide (p_state x = SLEEPING /\ p_chan x = ch) then modp p (set_p_state RUNNABLE) else mret tt);;
  release (PLock p).
Lemma wkeeps_wake_one ch p : wkeeps any (wake_one ch p).
Proof.
  unfold wake_one. apply wkeeps_bind; [apply wkeeps_still; st|]. intros o.
  case_decide; [by apply wkeeps_still|]. apply (wkeeps_critical _ (TP p)). intros t l _ Hn.
  apply wwp_seq; [st|]. intros x. apply wwp_seq; [st|]. intros _. by apply (wwp_release_keep _ _ (TP p)).
Qed.
Lemma wkeeps_wakeup ch : wkeeps any (wakeup ch).
Proof. apply wkeeps_tfor, wkeeps_wake_one. Qed.
Lemma wkeeps_killed p : wkeeps any (killed p).
Proof. unfold killed. apply wkeeps_plock; [st|]. intros x. by apply wkeeps_still. Qed.
Lemma wkeeps_setkilled p : wkeeps any (setkilled p).
Proof.
  unfold setkilled. apply (wkeeps_critical _ (TP p)). intros t l _ Hn. apply wwp_seq; [st|]. intros _.
  by apply (wwp_release_keep _ _ (TP p)).
Qed.
Lemma wkeeps_kill pid : wkeeps any (kill pid).
Proof.
  unfold kill. apply wkeeps_bind; [|intros r; by apply wkeeps_still]. apply wkeeps_tfind. intros p.
  apply (wkeeps_critical _ (TP p)). intros t l _ Hn. apply wwp_seq; [st|]. intros x. destruct (_ =? _).
  - do 3 (apply wwp_seq; [st|]; intros ?). apply gwp_bind, (wwp_release_keep _ _ (TP p)); [done|]. by apply gwp_ret.
  - apply gwp_bind, (wwp_release_keep _ _ (TP p)); [done|]. by apply gwp_ret.
Qed.
End keeps.

(** * Sleep *)

Section changes.
Context {U : Type} (ini : option nat).
Implicit Types (s : gst U) (G : thread -> wghost).
Local Abbreviation set_proc s i y := (set_s_proc (<[i := y]> (s_proc s)) s).

Lemma winv_set_chan s cu G i v : winv ini s cu G -> l_chan (G (KProc i)) = None ->
  (v = Some (ChProc i) -> l_about (G (KProc i)) = true) -> winv ini (set_proc s i (set_p_chan v (s_proc s i))) cu G.
Proof.
  intros I Hc Hv. apply winv_proc; [done|..]; simpl.
  - intros ch. by rewrite Hc.
  - intros _ ->. specialize (Hv eq_refl). split; [by left|by right].
  - intros p H1 H2. by left.
  - intros q0 q' H. by eapply I.
  - by left.
Qed.
Lemma winv_set_sleeping s cu G i : winv ini s cu G -> l_fresh (G (KProc i)) = false -> l_p (G (KProc i)) = Some i ->
  l_about (G (KProc i)) = true \/ (exists ch, l_chan (G (KProc i)) = Some ch /\ ch <> ChProc i) ->
  winv ini (set_proc s i (set_p_state SLEEPING (s_proc s i))) cu G.
Proof.
  intros I Hf Hp Hab. apply winv_proc; [done|..]; simpl; try done.
  - intros ch H. by apply I.
  - intros _ Hch. destruct Hab as [Hab|(ch & H1 & H2)]; [split; [by left|by right]|].
    destruct (w_chan _ _ _ _ I _ _ H1) as [_ H3]. congruence.
  - intros q0 q' H. by eapply I.
  - intros _. right. intros t Ht. by rewrite (has_excl _ _ _ _ t (KProc i) (TP i) I Ht Hp).
Qed.
Lemma winv_know_chan s cu G p ch : winv ini s cu G -> l_p (G (KProc p)) = Some p -> p_chan (s_proc s p) = Some ch ->
  winv ini s cu (<[KProc p := set_l_chan (Some ch) (G (KProc p))]> G).
Proof.
  intros I Hp Hc. winv_kept I.
  intros q ch' [= <-] [= <-]. by split.
Qed.
Lemma winv_slept s cu G p b : winv ini s cu G -> (b = false -> ~ asleep s p) ->
  winv ini s cu (<[KProc p := set_l_slept b (G (KProc p))]> G).
Proof.
  intros I Hb. winv_kept I.
  intros q [= <-] H _. by apply Hb.
Qed.

(** Only the values of the ghost states matter. *)
Lemma winv_ext s cu G G' : (forall t, G t = G' t) -> winv ini s cu G -> winv ini s cu G'.
Proof.
  intros E [H1 H2 H3 H4 H5 H6 H7 H8 H9 H10]. split; try done.
  - intros t' k. rewrite <- E. apply H2.
  - intros p. rewrite <- E. apply H3.
  - intros p ch. rewrite <- E. apply H4.
  - intros p. rewrite <- E. apply H5.
  - intros p c. rewrite <- E. apply H6.
  - intros t' q. unfold drowsy. rewrite <- !E. apply H7.
  - intros p q. rewrite <- E. apply H8.
  - intros t'. rewrite <- E. apply H9.
  - intros p c Hp Hc Ha Hb. unfold drowsy. rewrite <- E. intros Hd.
    destruct (H10 p c Hp Hc Ha Hb Hd) as (t' & Ht). exists t'. by rewrite <- E.
Qed.
Lemma winv_twice s cu G t l l' : winv ini s cu (<[t := l']> (<[t := l]> G)) -> winv ini s cu (<[t := l']> G).
Proof.
  apply winv_ext. intros t'. destruct (decide (t = t')) as [<-|]; [by rewrite !fn_lookup_insert|by rewrite !fn_lookup_insert_ne].
Qed.
Lemma winv_same_ghost s cu G t l : winv ini s cu G -> G t = l -> winv ini s cu (<[t := l]> G).
Proof.
  intros I <-. eapply winv_ext, I. intros t'. destruct (decide (t = t')) as [<-|]; [by rewrite fn_lookup_insert|by rewrite fn_lookup_insert_ne].
Qed.
End changes.

Section sleep.
Context {U : Type} (ini : option nat).
Local Abbreviation wwp := (gwp (U := U) (winv ini) (fun _ => True) (fun l => l = clean)).

(** Sleep on something else than a process. *)
Lemma wwp_sleep p ch lk (Q : unit -> wghost -> Prop) : (forall i, ch <> ChProc i) -> tracked lk = false ->
  Q tt clean -> wwp (KProc p) (sleep ch lk) Q clean.
Proof.
  intros Hch Hlk HQ. unfold sleep. apply gwp_bind, wwp_cur. intros p' Hp. rewrite (Hp p eq_refl). clear p' Hp.
  apply gwp_bind, wwp_acquire_p; [done|]. apply wwp_seq; [by apply still_release|]. intros _.
  apply gwp_bind, (wwp_modp _ _ _ _ _ (set_l_chan (Some ch) (set_l_p (Some p) clean))).
  { intros s cu G I Hl. rewrite <- Hl. apply winv_know_chan; [|by rewrite Hl|simpl; by rewrite fn_lookup_insert].
    apply winv_set_chan; [done|by rewrite Hl|]. intros [= E]. by destruct (Hch p). }
  apply gwp_bind, (wwp_modp _ _ _ _ _ clean).
  { intros s cu G I Hl. replace clean with (drop_p (G (KProc p))) by (by rewrite Hl).
    apply winv_drop_p; [|left; by rewrite Hl]. apply winv_set_sleeping; [done|by rewrite Hl|by rewrite Hl|].
    right. exists ch. by rewrite Hl. }
  apply gwp_bind, wwp_sched; [done|]. apply gwp_bind, (wwp_modp _ _ _ _ _ clean).
  { intros s cu G I Hl. apply winv_same_ghost; [|done]. apply winv_set_chan; [done|by rewrite Hl|done]. }
  apply gwp_bind, (wwp_release_keep _ _ (TP p)); [done|]. apply wwp_still; [by apply still_acquire|]. by intros [].
Qed.

(** Sleep in wait: [l] says that no child is a zombie. *)
Lemma wwp_sleep_wait p l (Q : unit -> wghost -> Prop) :
  l_w l = true -> l_p l = None -> l_chan l = None -> l_fresh l = false -> l_debt l = ∅ ->
  (forall c, (c < NPROCn)%nat -> c ∈ l_scan l) ->
  Q tt (set_l_w true clean) -> wwp (KProc p) (sleep (ChProc p) WaitLock) Q l.
Proof.
  intros Hw Hp Hc Hf Hd Hs HQ. unfold sleep. apply gwp_bind, wwp_cur. intros p' Hp'. rewrite (Hp' p eq_refl). clear p' Hp'.
  apply gwp_bind, wwp_acquire_p; [done|]. set (l1 := set_l_p (Some p) l).
  apply gwp_bind, (wwp_release _ _ TW _ (drop_w true l1)); [done| |].
  { right. intros s cu G I Hl. rewrite <- Hl. apply winv_sleepy; [done|by rewrite Hl|by rewrite Hl|by rewrite Hl|by rewrite Hl]. }
  apply gwp_bind, (wwp_modp _ _ _ _ _ (drop_w true l1)).
  { intros s cu G I Hl. apply winv_same_ghost; [|done]. apply winv_set_chan; [done|by rewrite Hl|by rewrite Hl]. }
  set (nap := set_l_slept true clean). apply gwp_bind, (wwp_modp _ _ _ _ _ nap).
  { intros s cu G I Hl. set (s' := set_s_proc _ _).
    assert (I1 : winv ini s' cu G) by (apply winv_set_sleeping; [done|by rewrite Hl|by rewrite Hl|left; by rewrite Hl]).
    apply (winv_slept _ _ _ _ p true) in I1; [|done].
    apply winv_twice with (l := set_l_slept true (G (KProc p))).
    replace nap with (drop_p (<[KProc p := set_l_slept true (G (KProc p))]> G (KProc p))).
    - apply winv_drop_p; [done|]. rewrite fn_lookup_insert. by right.
    - rewrite fn_lookup_insert, Hl. unfold drop_p, nap, l1. simpl. done. }
  apply gwp_bind, wwp_sched; [done|]. apply gwp_bind, (wwp_modp _ _ _ _ _ clean).
  { intros s cu G I Hl. replace clean with (set_l_slept false (G (KProc p))) by (by rewrite Hl).
    apply winv_slept; [apply winv_set_chan; [done|by rewrite Hl|done]|]. intros _ [_ H]. simpl in H. by rewrite fn_lookup_insert in H. }
  apply gwp_bind, (wwp_release_keep _ _ (TP p)); [done|]. by apply wwp_acquire_w.
Qed.
End sleep.

(** * Exit *)

(** A thread that holds wait_lock. *)
Definition wlocked scan awake debt par : wghost := WGhost true None None false false scan awake debt par false.

Section exit.
Context {U : Type} (ini : option nat).
Implicit Types (s : gst U) (G : thread -> wghost).
Local Abbreviation wwp := (gwp (U := U) (winv ini) (fun _ => True) (fun l => l = clean)).
Local Abbreviation set_proc s i y := (set_s_proc (<[i := y]> (s_proc s)) s).

Lemma winv_awaken s cu G t q : winv ini s cu G -> l_w (G t) = true -> ((q < NPROCn)%nat -> ~ drowsy s G q) ->
  winv ini s cu (<[t := awaken q (G t)]> G).
Proof.
  intros I Hw Hq. winv_kept I.
  - intros q' [->%elem_of_singleton|H]%elem_of_union; [done|]. by apply I.
  - intros p c H1 H2 Hp Hc _ _ Hd. split; [done|]. apply elem_of_difference. split; [done|].
    intros ->%elem_of_singleton. by apply Hq.
Qed.
Lemma winv_owe s cu G t q : winv ini s cu G -> winv ini s cu (<[t := owe q (G t)]> G).
Proof.
  intros I. winv_kept I. set_solver.
Qed.
Lemma winv_know_par s cu G p : winv ini s cu G -> l_w (G (KProc p)) = true ->
  winv ini s cu (<[KProc p := set_l_par (Some (p_parent (s_proc s p))) (G (KProc p))]> G).
Proof.
  intros I Hw. winv_kept I. by intros q q' [= <-] [= <-].
Qed.

(** A child gets a new parent, by the holder of wait_lock. *)
Lemma winv_adopt s cu G p i q : winv ini s cu G -> l_w (G (KProc p)) = true -> l_par (G (KProc p)) = None ->
  i ∉ l_scan (G (KProc q)) -> (drowsy s G q -> q ∈ l_debt (G (KProc p))) ->
  winv ini (set_proc s i (set_p_parent (Some q) (s_proc s i))) cu G.
Proof.
  intros I Hw Hpar Hs Hd. apply winv_proc; [done|..]; simpl.
  - intros ch H. by apply I.
  - intros H1 H2. split; [right; by split|]. destruct (l_slept (G (KProc i))) eqn:E1; [by left|].
    destruct (l_about (G (KProc i))) eqn:E2; [by right|]. by destruct (w_idle _ _ _ _ I i E1 E2).
  - intros q' [= <-] _. right. split; [done|]. intros _ Hq _. exists (KProc p). auto.
  - intros q0 q' H _. exfalso. destruct (w_par _ _ _ _ I _ _ H) as [Hw' _].
    pose proof (has_excl _ _ _ _ _ _ TW I Hw Hw') as E. rewrite <- E in H. by rewrite Hpar in H.
  - by left.
Qed.
(** Only the holder of wait_lock has looked at the children. *)
Lemma winv_scan_owner s cu G p q i : winv ini s cu G -> l_w (G (KProc p)) = true -> i ∈ l_scan (G (KProc q)) -> q = p.
Proof.
  intros I Hw Hs. destruct (w_scan _ _ _ _ I _ _ Hs) as [Hw' _]. pose proof (has_excl _ _ _ _ _ _ TW I Hw Hw'). congruence.
Qed.

(** A process becomes a zombie once its parent is awake. *)
Lemma winv_zombie s cu G p q : winv ini s cu G -> l_scan (G (KProc p)) = ∅ -> l_par (G (KProc p)) = Some q ->
  (forall q', q = Some q' -> q' ∈ l_awake (G (KProc p))) ->
  winv ini (set_proc s p (set_p_state ZOMBIE (s_proc s p))) cu G.
Proof.
  intros I Hs Hp Ha. destruct (w_par _ _ _ _ I _ _ Hp) as [Hw Hq]. apply winv_proc; [done|..]; simpl; try done.
  - intros ch H. by apply I.
  - intros q' H _. right. specialize (Hq _ H). split.
    + intros Hs'. assert (q' = p) as -> by (by eapply winv_scan_owner). rewrite Hs in Hs'. set_solver.
    + intros Hn Hd _. destruct (w_awake _ _ _ _ I _ _ (Ha _ Hq)) as [_ Hno]. by destruct (Hno Hn).
  - intros q0 q' H1 H2. rewrite Hp in H1. injection H1 as <-. by apply Hq.
Qed.

Lemma wwp_shift_awaken p q sc aw de pa {A} (m : T U A) (Q : A -> wghost -> Prop) : visible m ->
  (forall s cu G, winv ini s cu G -> G (KProc p) = wlocked sc aw de pa -> (q < NPROCn)%nat -> ~ drowsy s G q) ->
  wwp (KProc p) m Q (awaken q (wlocked sc aw de pa)) -> wwp (KProc p) m Q (wlocked sc aw de pa).
Proof.
  intros Hm Hd. apply wwp_shift; [done|]. intros s cu G I Hl. rewrite <- Hl. apply winv_awaken; [done|by rewrite Hl|].
  by apply (Hd s cu).
Qed.
(** The thread itself does not sleep. *)
Lemma self_awake s cu G p sc aw de pa : winv ini s cu G -> G (KProc p) = wlocked sc aw de pa -> ~ drowsy s G p.
Proof. intros I Hl [H|H]; [by rewrite Hl in H|]. revert H. apply (w_idle _ _ _ _ I); by rewrite Hl. Qed.

Lemma wwp_wake_one p q sc aw de pa (Q : unit -> wghost -> Prop) : Q tt (awaken q (wlocked sc aw de pa)) ->
  wwp (KProc p) (wake_one (Some (ChProc q)) q) Q (wlocked sc aw de pa).
Proof.
  intros HQ. destruct (decide (p = q)) as [->|Hne].
  { apply (wwp_shift_awaken _ q); [done|intros; by eapply self_awake|]. apply gwp_bind, wwp_myproc. intros o Ho.
    rewrite (Ho q eq_refl), decide_True by done. by apply gwp_ret. }
  apply gwp_bind, wwp_myproc. intros o Ho. rewrite (Ho p eq_refl), decide_False by congruence.
  apply gwp_bind, wwp_acquire_p; [done|]. set (l1 := set_l_p (Some q) _).
  assert (Hab : forall s cu G, winv ini s cu G -> G (KProc p) = l1 -> l_about (G (KProc q)) = false).
  { intros s cu G I Hl. apply not_true_iff_false. intros Hq%(w_about _ _ _ _ I).
    assert (KProc p = KProc q) by (eapply (has_excl _ _ _ _ _ _ (TP q) I); [by rewrite Hl|done]). congruence. }
  apply gwp_bind, (wwp_ev _ _ _ _ (fun x => if decide (p_state x = SLEEPING /\ p_chan x = Some (ChProc q)) then l1 else awaken q l1)); [done|].
  intros o' c s cu G x s' I Hl _ [= <- <-] _. case_decide as Ha; (split; [|apply gwp_bind]).
  - by apply winv_same_ghost.
  - apply (wwp_modp _ _ _ _ _ (awaken q l1)).
    { clear s cu G I Hl Ha. intros s cu G I Hl. rewrite <- Hl. apply winv_awaken; [by apply winv_tame; [|auto with still]|by rewrite Hl|].
      intros _ [H|[H _]]; [by rewrite (Hab _ _ _ I Hl) in H|]. simpl in H. by rewrite fn_lookup_insert in H. }
    by apply wwp_release_p; [left|].
  - rewrite <- Hl. apply winv_awaken; [done|by rewrite Hl|]. intros _ [H|H]; [by rewrite (Hab _ _ _ I Hl) in H|done].
  - apply gwp_ret. by apply wwp_release_p; [left|].
Qed.

Lemma wwp_wakeup p q sc aw de pa (Q : unit -> wghost -> Prop) : Q tt (awaken q (wlocked sc aw de pa)) ->
  wwp (KProc p) (wakeup (Some (ChProc q))) Q (wlocked sc aw de pa).
Proof.
  intros HQ. destruct (decide (q < NPROCn)%nat) as [Hq|Hq].
  2: { apply (wwp_shift_awaken _ q); [done|done|]. eapply wkeeps_use; [apply wkeeps_wakeup|done|]. by intros []. }
  change (wwp (KProc p) (tfor slots (wake_one (Some (ChProc q)))) Q (wlocked sc aw de pa)).
  assert (Hin : q ∈ slots) by (apply elem_of_seq; lia). revert Hin. generalize slots. intros L. induction L as [|i L IH]; [set_solver|].
  intros Hin. simpl. apply gwp_bind. destruct (decide (i = q)) as [->|Hne].
  - apply wwp_wake_one. eapply wkeeps_use; [apply wkeeps_tfor, wkeeps_wake_one|done|]. by intros [].
  - eapply wkeeps_use; [apply wkeeps_wake_one|done|]. intros []. apply IH. set_solver.
Qed.

Lemma wwp_get_init t l (Q : option nat -> wghost -> Prop) : (forall j, j = ini -> Q j l) -> wwp t (getg g_initproc) Q l.
Proof.
  intros HQ. apply (wwp_ev _ _ _ _ (fun _ => l)); [done|]. intros o c s cu G x s' I Hl _ [= <- <-] _.
  split; [by apply winv_same_ghost|]. by apply HQ, I.
Qed.

Lemma wwp_reparent p aw (Q : unit -> wghost -> Prop) : ini <> Some p -> (forall aw', Q tt (wlocked ∅ aw' ∅ None)) ->
  wwp (KProc p) (reparent p) Q (wlocked ∅ aw ∅ None).
Proof.
  intros Hi HQ. unfold reparent. generalize slots. intros L. revert aw. induction L as [|i L IH]; intros aw; [apply HQ|].
  simpl. apply gwp_bind. apply wwp_seq; [st|]. intros x. case_decide; [|by apply gwp_ret].
  apply gwp_bind, wwp_get_init. intros j Hj. destruct j as [q|].
  - apply gwp_bind, (wwp_modp _ _ _ _ _ (wlocked ∅ aw ({[q]} ∪ ∅) None)).
    { intros s cu G I Hl. replace (wlocked _ _ _ _) with (owe q (G (KProc p))) by (by rewrite Hl).
      pose proof (winv_owe _ _ _ (KProc p) q I) as I1. set (G1 := <[_ := _]> G) in *.
      assert (Hl1 : G1 (KProc p) = owe q (G (KProc p))) by apply fn_lookup_insert. rewrite Hl in Hl1.
      apply (winv_adopt _ _ _ p); [done|by rewrite Hl1|by rewrite Hl1| |rewrite Hl1; set_solver].
      intros Hs. assert (q = p) by (eapply winv_scan_owner; [exact I1|by rewrite Hl1|exact Hs]). congruence. }
    apply gwp_bind, wwp_get_init. intros j Hj'. rewrite <- Hj in Hj'. subst j. apply wwp_wakeup. unfold awaken. simpl.
    replace (({[q]} ∪ ∅) ∖ {[q]}) with (∅ : gset nat) by set_solver. apply IH.
  - apply wwp_seq; [st|]. intros _. apply gwp_bind, wwp_get_init. intros j Hj'. rewrite <- Hj in Hj'. subst j. eapply wkeeps_use; [apply wkeeps_wakeup|done|]. intros []. apply IH.
Qed.

Lemma wwp_exit p {A} status (Q : A -> wghost -> Prop) : wwp (KProc p) (exit status) Q clean.
Proof.
  unfold exit. apply gwp_bind, wwp_cur. intros p' Hp. rewrite (Hp p eq_refl). clear p' Hp. apply gwp_bind, wwp_get_init. intros j ->.
  case_decide as Hi; [apply wwp_panic|]. apply wwp_seq; [unfold exit_file; st|]. intros _. apply wwp_seq; [st|]. intros _.
  apply wwp_seq; [st|]. intros x. apply wwp_seq; [st|]. intros _. do 2 (apply wwp_seq; [st|]; intros _).
  apply gwp_bind, wwp_acquire_w. apply gwp_bind. apply (wwp_reparent p ∅); [done|]. intros aw.
  apply gwp_bind, (wwp_ev _ _ _ _ (fun x => wlocked ∅ aw ∅ (Some (p_parent x)))); [done|].
  intros o c s cu G y s' I Hl _ [= <- <-] _. split.
  { replace (wlocked _ _ _ _) with (set_l_par (Some (p_parent (s_proc s p))) (G (KProc p))) by (by rewrite Hl).
    apply winv_know_par; [done|by rewrite Hl]. }
  generalize (p_parent (s_proc s p)). clear. intros par. apply gwp_bind.
  assert (Hz : forall aw', (forall q, par = Some q -> q ∈ aw') -> wwp (KProc p) (acquire (PLock p);;
    modp p (set_p_xstate status);; modp p (set_p_state ZOMBIE);; release WaitLock;; sched;; tpanic "zombie exit") Q (wlocked ∅ aw' ∅ (Some par))).
  { intros aw' Ha. apply gwp_bind, wwp_acquire_p; [done|]. apply wwp_seq; [st|]. intros _. set (l1 := set_l_p _ _).
    apply gwp_bind, (wwp_modp _ _ _ _ _ l1).
    { intros s cu G I Hl. apply winv_same_ghost; [|done]. eapply winv_zombie; [done|by rewrite Hl..]. }
    apply gwp_bind, (wwp_release _ _ TW _ clean); [done| |apply gwp_bind, wwp_sched; [done|apply wwp_panic]].
    right. intros s cu G I Hl. apply winv_twice with (l := drop_w false (G (KProc p))).
    replace clean with (drop_p (<[KProc p := drop_w false (G (KProc p))]> G (KProc p))).
    - apply winv_drop_p; [|left; by rewrite fn_lookup_insert]. apply winv_drop_w; [done|by rewrite Hl..].
    - by rewrite fn_lookup_insert, Hl. }
  destruct par as [q|]; simpl.
  - apply wwp_wakeup. unfold awaken. simpl. replace (∅ ∖ {[q]}) with (∅ : gset nat) by set_solver. apply Hz. set_solver.
  - eapply wkeeps_use; [apply wkeeps_wakeup|done|]. intros []. by apply Hz.
Qed.
End exit.

(** * Allocation and fork *)

(** A thread that holds the lock of a process that does not sleep. *)
Definition allocating (i : nat) : wghost := WGhost false (Some i) None false false ∅ ∅ ∅ None true.

Section alloc.
Context {U : Type} (ini : option nat).
Implicit Types (s : gst U) (G : thread -> wghost).
Local Abbreviation wwp := (gwp (U := U) (winv ini) (fun _ => True) (fun l => l = clean)).

(** The channel of a process is known only to the holder of its lock. *)
Lemma winv_no_chan s cu G t i : winv ini s cu G -> l_p (G t) = Some i -> l_chan (G t) = None -> l_chan (G (KProc i)) = None.
Proof.
  intros I Hp Hc. destruct (l_chan (G (KProc i))) as [ch|] eqn:E; [|done]. destruct (w_chan _ _ _ _ I _ _ E) as [Hi _].
  rewrite (has_excl _ _ _ _ _ _ (TP i) I Hp Hi) in Hc. congruence.
Qed.
Lemma winv_know_fresh s cu G t i : winv ini s cu G -> l_p (G t) = Some i -> p_state (s_proc s i) <> SLEEPING ->
  winv ini s cu (<[t := set_l_fresh true (G t)]> G).
Proof.
  intros I Hp Hs. winv_kept I. intros _. by exists i.
Qed.

Lemma wwp_freeproc kend t i l (Q : unit -> wghost -> Prop) : l_p l = Some i -> l_chan l = None -> Q tt l ->
  wwp t (freeproc kend i) Q l.
Proof.
  intros Hp Hc HQ. unfold freeproc. do 10 (apply wwp_seq; [st|]; intros ?).
  apply gwp_bind, (wwp_modp _ _ _ _ _ l).
  { intros s cu G I Hl. apply winv_same_ghost; [|done]. apply winv_set_chan; [done| |done]. by apply (winv_no_chan s cu G t); [done|rewrite Hl..]. }
  apply wwp_still; [st|]. by intros [].
Qed.

(** A new process starts with nothing. *)
Lemma wwp_setctx t i (Q : unit -> wghost -> Prop) : Q tt (allocating i) -> wwp t (ev (SetCtx i)) Q (allocating i).
Proof.
  intros HQ o c s cu G I Hl (_ & Hc & _ & Hi). simpl.
  assert (Hne : KProc i <> t) by (rewrite <- Hc; congruence).
  assert (Hno : forall k, ~ has (G (KProc i)) k) by (intros k (d & _ & Hd)%(w_has _ _ _ _ I); by apply (Hi d)).
  exists (<[KProc i := clean]> G). split; [|split; [intros t' _ Ht; by rewrite fn_lookup_insert_ne|split]].
  - apply winv_ghost; [done|..]; simpl; try done; try set_solver.
    + intros [|j]; done.
    + intros p [= <-] _ _ [H _]. destruct (w_fresh _ _ _ _ I t) as (j & Hj & Hs); [by rewrite Hl|].
      rewrite Hl in Hj. injection Hj as <-. done.
    + intros p d H. by destruct (Hno TW).
  - by rewrite fn_lookup_insert.
  - rewrite fn_lookup_insert_ne by done. by rewrite Hl.
Qed.

Lemma wwp_allocproc kend trampoline t (Q : option nat -> wghost -> Prop) : Q None clean ->
  (forall i, Q (Some i) (allocating i)) -> wwp t (allocproc kend trampoline) Q clean.
Proof.
  intros HN HS. unfold allocproc. apply gwp_bind. generalize slots. intros L. induction L as [|i L IH]; [by apply gwp_ret|].
  cbn [tfind]. apply gwp_bind, gwp_bind, wwp_acquire_p; [done|].
  apply gwp_bind, (wwp_ev _ _ _ _ (fun x => if decide (p_state x = UNUSED) then allocating i else set_l_p (Some i) clean)); [done|].
  intros o c s cu G x s' I Hl _ [= <- <-] _. case_decide as E; (split; [|]).
  - replace (allocating i) with (set_l_fresh true (G t)) by (by rewrite Hl). apply (winv_know_fresh _ _ _ _ i); [done|by rewrite Hl|congruence].
  - apply gwp_ret. clear - HN HS. apply wwp_seq; [st|]. intros pid. do 2 (apply wwp_seq; [st|]; intros _).
    apply wwp_seq; [st|]. intros tf. apply wwp_seq; [st|]. intros _. destruct (_ =? _).
    { apply gwp_bind, wwp_freeproc; [done|done|]. apply gwp_bind, wwp_release_p; [by left|]. by apply gwp_ret. }
    apply wwp_seq; [st|]. intros pt. apply wwp_seq; [st|]. intros _. destruct (_ =? _).
    { apply gwp_bind, wwp_freeproc; [done|done|]. apply gwp_bind, wwp_release_p; [by left|]. by apply gwp_ret. }
    apply gwp_bind, wwp_setctx. by apply gwp_ret.
  - by apply winv_same_ghost.
  - apply gwp_bind, wwp_release_p; [by left|]. by apply gwp_ret.
Qed.
End alloc.

Section forkwait.
Context {U : Type} `{!UserMem U} (ini : option nat).
Implicit Types (s : gst U) (G : thread -> wghost).
Local Abbreviation wwp := (gwp (U := U) (winv ini) (fun _ => True) (fun l => l = clean)).
Local Abbreviation wkeeps := (wkeeps (U := U) ini).

Lemma wkeeps_fork kend trampoline : wkeeps at_rest (fork kend trampoline).
Proof.
  intros t l [[p ->] ->]. unfold fork. apply gwp_bind, wwp_cur. intros p' Hp. rewrite (Hp p eq_refl). clear p' Hp.
  apply gwp_bind, wwp_allocproc; [by apply gwp_ret|]. intros np. do 2 (apply wwp_seq; [st|]; intros ?).
  apply wwp_seq; [st|]. intros r. destruct (r <? 0).
  { apply gwp_bind, wwp_freeproc; [done|done|]. apply gwp_bind, wwp_release_p; [by left|]. by apply gwp_ret. }
  do 3 (apply wwp_seq; [st|]; intros _). apply wwp_seq; [unfold fork_file; st|]. intros _.
  apply wwp_seq; [st|]. intros x. destruct (p_cwd x); [|apply wwp_undefined]. do 3 (apply wwp_seq; [st|]; intros ?).
  apply wwp_seq; [st|]. intros y. apply gwp_bind, wwp_release_p; [by left|]. apply gwp_bind, wwp_acquire_w.
  change (set_l_w true (drop_p (allocating np))) with (wlocked ∅ ∅ ∅ None).
  apply gwp_bind, (wwp_modp _ _ _ _ _ (wlocked ∅ ∅ ∅ None)).
  { intros s cu G I Hl. apply winv_same_ghost; [|done]. apply (winv_adopt _ _ _ _ p); [done|rewrite Hl..]; [done|done| |].
    - set_solver.
    - intros Hd. by destruct (self_awake _ _ _ _ _ _ _ _ _ I Hl). }
  apply gwp_bind, wwp_release_w; [done|done|]. apply gwp_bind, (wwp_acquire_keep _ _ (TP np)). intros Hn.
  apply wwp_seq; [st|]. intros _. apply gwp_bind, (wwp_release_keep _ _ (TP np)); [done|]. by apply gwp_ret.
Qed.

(** A slot that holds no zombie child. *)
Lemma winv_scan s cu G p c : winv ini s cu G -> l_w (G (KProc p)) = true ->
  (p_parent (s_proc s c) = Some p -> p_state (s_proc s c) <> ZOMBIE) ->
  winv ini s cu (<[KProc p := set_l_scan ({[c]} ∪ l_scan (G (KProc p))) (G (KProc p))]> G).
Proof.
  intros I Hw Hc. winv_kept I.
  intros q d [= <-] [->%elem_of_singleton|H]%elem_of_union; [done|by apply I].
Qed.

Lemma wwp_wait_scan kend p addr L h sc :
  wwp (KProc p) (wait_scan kend p addr L h)
    (fun r l => match r with inl _ => l = wlocked (list_to_set L ∪ sc) ∅ ∅ None | inr _ => l = clean end) (wlocked sc ∅ ∅ None).
Proof.
  revert h sc. induction L as [|c L IH]; intros h sc; cbn [wait_scan].
  { apply gwp_ret. f_equal. set_solver. }
  assert (Hnext : forall h, wwp (KProc p) (wait_scan kend p addr L h)
    (fun r l => match r with inl _ => l = wlocked (list_to_set (c :: L) ∪ sc) ∅ ∅ None | inr _ => l = clean end) (wlocked ({[c]} ∪ sc) ∅ ∅ None)).
  { intros h'. eapply gwp_mono; [|apply IH]. intros [h''|v] l; [|done]. intros ->. f_equal. set_solver. }
  apply gwp_bind, (wwp_ev _ _ _ _ (fun x => if decide (p_parent x = Some p) then wlocked sc ∅ ∅ None else wlocked ({[c]} ∪ sc) ∅ ∅ None)); [done|].
  intros o d s cu G x s' I Hl _ [= <- <-] _. case_decide as E; (split; [|]); cycle 1.
  2: { replace (wlocked ({[c]} ∪ sc) ∅ ∅ None) with (set_l_scan ({[c]} ∪ l_scan (G (KProc p))) (G (KProc p))) by (by rewrite Hl).
    apply winv_scan; [done|by rewrite Hl|done]. }
  2: apply Hnext.
  2: by apply winv_same_ghost.
  clear s cu G I Hl E. apply gwp_bind, wwp_acquire_p; [done|].
  apply gwp_bind, (wwp_ev _ _ _ _ (fun x => set_l_p (Some c) (if decide (p_state x = ZOMBIE) then wlocked sc ∅ ∅ None else wlocked ({[c]} ∪ sc) ∅ ∅ None))); [done|].
  intros o' d' s cu G x s' I Hl _ [= <- <-] _. case_decide as E; (split; [|]).
  - by apply winv_same_ghost.
  - clear s cu G I Hl E. apply wwp_seq; [st|]. intros x. apply wwp_seq; [st|]. intros y. apply wwp_seq; [st|]. intros []; simpl.
    + apply gwp_bind, wwp_freeproc; [done|done|]. apply gwp_bind, wwp_release_p; [by left|].
      apply gwp_bind, wwp_release_w; [done|done|]. by apply gwp_ret.
    + apply gwp_bind, wwp_release_p; [by left|]. apply gwp_bind, wwp_release_w; [done|done|]. by apply gwp_ret.
  - replace (set_l_p _ _) with (set_l_scan ({[c]} ∪ l_scan (G (KProc p))) (G (KProc p))) by (by rewrite Hl).
    apply winv_scan; [done|by rewrite Hl|done].
  - apply gwp_bind, wwp_release_p; [by left|]. apply Hnext.
Qed.

Lemma wkeeps_wait kend addr : wkeeps at_rest (wait kend addr).
Proof.
  intros t l [[p ->] ->]. unfold wait. apply gwp_bind, wwp_cur. intros p' Hp. rewrite (Hp p eq_refl). clear p' Hp.
  apply gwp_bind, wwp_acquire_w. apply (gwp_loop _ _ _ _ _ _ _ (fun _ l => l = wlocked ∅ ∅ ∅ None)); [done|]. intros _ l ->.
  assert (Hsc : forall c, (c < NPROCn)%nat -> c ∈ (list_to_set slots ∪ ∅ : gset nat)).
  { intros c Hc. apply elem_of_union. left. apply elem_of_list_to_set, elem_of_seq. lia. }
  apply gwp_bind. eapply gwp_mono; [|apply wwp_wait_scan]. revert Hsc. generalize (list_to_set slots ∪ ∅ : gset nat). intros sc Hsc.
  intros [h|v] l Hr; [|by apply gwp_ret]. rewrite Hr. apply gwp_bind. eapply wkeeps_use with (R := any); [|done|].
  { destruct h; [apply wkeeps_killed|by apply wkeeps_still]. }
  intros []; [apply gwp_bind, wwp_release_w; [done|done|]; by apply gwp_ret|]. by apply gwp_bind, wwp_sleep_wait.
Qed.

Lemma wwp_sched_scan c l n : wwp (KSched c) (sched_scan c l n) (fun _ l' => l' = clean) clean.
Proof.
  revert n. induction l as [|p l IH]; intros n; cbn [sched_scan]; [by apply gwp_ret|].
  apply gwp_bind, (wwp_acquire_keep _ _ (TP p)). intros Hn. do 2 (apply wwp_seq; [st|]; intros ?).
  apply gwp_bind. eapply gwp_mono with (Q := fun _ l' => l' = clean).
  { intros [] l' ->. apply gwp_bind, (wwp_release_keep _ _ (TP p)); [done|]. apply IH. }
  case_decide; [|by apply gwp_ret]. do 2 (apply wwp_seq; [st|]; intros _). apply gwp_bind, wwp_swtch. intros _. split; [done|].
  by apply wwp_still; [st|].
Qed.
Lemma wwp_mycpu t l (Q : nat -> wghost -> Prop) : (forall c, (forall d, t = KSched d -> c = d) -> Q c l) -> wwp t mycpu Q l.
Proof. intros HQ o c s cu G I Hl [Hd _]. exists G. split; [done|]. split; [done|]. rewrite Hl. by apply HQ. Qed.
Lemma wwp_scheduler c : wwp (KSched c) scheduler (fun _ _ => True) clean.
Proof.
  unfold scheduler. apply gwp_bind, wwp_mycpu. intros c' Hc. rewrite (Hc c eq_refl). apply wwp_seq; [st|]. intros _.
  apply (gwp_loop _ _ _ _ _ _ _ (fun _ l => l = clean)); [done|]. intros _ l ->. apply wwp_seq; [st|]. intros _.
  apply gwp_bind. eapply gwp_mono; [|apply wwp_sched_scan]. intros n l ->. apply wwp_seq; [st|]. intros _. by apply gwp_ret.
Qed.

Lemma wkeeps_forkret trampoline uservec usertrap_addr : wkeeps at_rest (forkret trampoline uservec usertrap_addr).
Proof.
  intros t l [[p ->] ->]. unfold forkret. apply gwp_bind, wwp_cur. intros p' Hp. rewrite (Hp p eq_refl). clear p' Hp.
  apply gwp_bind, (wwp_release_keep _ _ (TP p)); [done|]. by apply wwp_still; [st|].
Qed.
End forkwait.
