(* ===== verification/WaitTrap.v ===== *)
(** The invariant of KWait.v in the drivers, the system calls and the traps:
    each returns with the ghost state it was called with. *)

From S2P Require Import Prelude BufCache BufSpec KState Log CString Fs Kalloc PipeRing File Sysfile Vm KThread Printf Proc Console Virtio Exec Trap KLogic KInv KGhost KWait WaitSpec.
Local Open Scope Z_scope.

Create HintDb wkeeps.
#[export] Hint Resolve wkeeps_yield wkeeps_wakeup wkeeps_killed wkeeps_setkilled wkeeps_kill wkeeps_fork wkeeps_wait
  wkeeps_forkret wkeeps_undefined : wkeeps.
#[export] Hint Unfold modcons moduart moddisk setfree setdesc setinfo setbusy : still.

(** Code built from these and from code that does not concern wait. *)
Ltac wk := autounfold with still; repeat first
  [ solve [auto with wkeeps] | solve [apply wkeeps_weaken; auto with wkeeps]
  | lazymatch goal with
    | |- wkeeps _ _ (_ ≫= _) => apply wkeeps_bind; [|intros ?]
    | |- wkeeps _ _ (loop _ _) => apply wkeeps_loop; intros ?
    | |- wkeeps _ _ (tfor _ _) => apply wkeeps_tfor; intros ?
    | |- wkeeps _ _ (match ?e with _ => _ end) => destruct e
    end
  | solve [apply wkeeps_still; st] ].

Section traps.
Context {U : Type} `{!UserMem U} (ini : option nat).
Local Abbreviation wkeeps := (wkeeps (U := U) ini).

Lemma wkeeps_sleep ch lk : (forall i, ch <> ChProc i) -> tracked lk = false -> wkeeps at_rest (sleep ch lk).
Proof. intros Hch Hlk t l [[p ->] ->]. by apply wwp_sleep. Qed.
Hint Extern 1 (WaitSpec.wkeeps _ _ (sleep _ _)) => (apply wkeeps_sleep; done) : wkeeps.
Lemma wkeeps_exit {A} n : wkeeps at_rest (exit n : T U A).
Proof. intros t l [[p ->] ->]. apply wwp_exit. Qed.
Hint Resolve wkeeps_exit : wkeeps.

(** * Drivers *)

Lemma wkeeps_uartstart : wkeeps any uartstart.
Proof. unfold uartstart. wk. Qed.
Hint Resolve wkeeps_uartstart : wkeeps.
Lemma wkeeps_uartputc c : wkeeps at_rest (uartputc c).
Proof. unfold uartputc. wk. Qed.
Hint Resolve wkeeps_uartputc : wkeeps.
Lemma wkeeps_consolewrite us src n : wkeeps at_rest (consolewrite us src n).
Proof. unfold consolewrite. wk. Qed.
Lemma wkeeps_consoleread ud dst n : wkeeps at_rest (consoleread ud dst n).
Proof. unfold consoleread, cons_get, cons_wait. wk. Qed.
Lemma wkeeps_consoleintr c : wkeeps any (consoleintr c).
Proof. unfold consoleintr, kill_line, cons_char. wk. Qed.
Hint Resolve wkeeps_consoleintr : wkeeps.
Lemma wkeeps_uartintr : wkeeps any uartintr.
Proof. unfold uartintr, uartgetc. wk. Qed.
Lemma wkeeps_free_desc i : wkeeps any (free_desc i).
Proof. unfold free_desc. wk. Qed.
Hint Resolve wkeeps_free_desc : wkeeps.
Lemma wkeeps_alloc3 n got : wkeeps any (alloc3_loop n got).
Proof. revert got. induction n as [|n IH]; intros got; cbn [alloc3_loop]; unfold alloc_desc; wk. Qed.
Hint Resolve wkeeps_alloc3 : wkeeps.
Lemma wkeeps_virtio_disk_rw b n w : wkeeps at_rest (virtio_disk_rw b n w).
Proof. unfold virtio_disk_rw, alloc3_desc, free_chain. wk. Qed.
Lemma wkeeps_virtio_disk_intr : wkeeps any virtio_disk_intr.
Proof. unfold virtio_disk_intr. wk. Qed.
Hint Resolve wkeeps_consolewrite wkeeps_consoleread wkeeps_uartintr wkeeps_virtio_disk_rw wkeeps_virtio_disk_intr : wkeeps.

(** * System calls and traps *)

Lemma still_argraw n : still (trap_argraw (U := U) n).
Proof. unfold trap_argraw. st. Qed.
Lemma still_onproc {X} p args (m : K U X) : still (onproc p args m).
Proof. unfold onproc. st. Qed.
Hint Resolve still_argraw still_onproc : still.
Hint Unfold trap_argint : still.
Lemma still_file_call (m : K U Z) : still (file_call m).
Proof. unfold file_call. st. Qed.
Hint Resolve still_file_call : still.

Lemma still_loadseg n pt va ip off sz i : still (loadseg_loop (U := U) n pt va ip off sz i).
Proof. revert i. induction n as [|n IH]; intros i; cbn [loadseg_loop]; st. Qed.
Hint Resolve still_loadseg : still.
Lemma still_load_segs kend n pt ip off sz : still (load_segs (U := U) kend n pt ip off sz).
Proof. revert off sz. induction n as [|n IH]; intros off sz; cbn [load_segs]; unfold loadseg; st. Qed.
Lemma still_push_args argv pt sb argc sp us : still (push_args (U := U) argv pt sb argc sp us).
Proof. revert argc sp us. induction argv as [|s argv IH]; intros argc sp us; cbn [push_args]; st. Qed.
Lemma still_exec_bad kend pt sz ip : still (exec_bad (U := U) kend pt sz ip).
Proof. unfold exec_bad. st. Qed.
Hint Resolve still_load_segs still_push_args still_exec_bad : still.
Lemma still_exec kend trampoline junkname path argv : still (Exec.exec (U := U) kend trampoline junkname path argv).
Proof. unfold Exec.exec, exec_commit. st. Qed.
Lemma still_exec_args n uargv i argv : still (exec_args (U := U) n uargv i argv).
Proof. revert i argv. induction n as [|n IH]; intros i argv; cbn [exec_args]; unfold fetchaddr, fetchstr_user; st. Qed.
Hint Resolve still_exec still_exec_args : still.
Lemma still_sys_exec kend trampoline junkname path uargv : still (sys_exec (U := U) kend trampoline junkname path uargv).
Proof. unfold sys_exec, fetchstr_user. st. Qed.
Hint Resolve still_sys_exec : still.

Lemma wkeeps_devintr : wkeeps any devintr.
Proof. unfold devintr, plic_claim, plic_complete, clockintr. wk. Qed.
Hint Resolve wkeeps_devintr : wkeeps.
Lemma wkeeps_kernelvec : wkeeps any kernelvec.
Proof. unfold kernelvec, kerneltrap. wk. Qed.

Context (kend trampoline uservec usertrap_addr kernelvec_addr : Z).
Context (junk : Z -> Z) (pad junkname stk : bytes).
Context (dev_rd dev_wr : Z -> option (Z -> Z -> K U Z)).
Context (work : nat -> nat -> option (Z * Z * bool)).

Lemma wkeeps_syscalls num call :
  syscalls kend trampoline junk pad junkname stk dev_rd dev_wr num = Some call -> wkeeps at_rest call.
Proof.
  intros H. unfold Trap.syscalls in H.
  repeat match type of H with
  | (if ?c then _ else _) = _ => destruct c; [simplify_eq|]
  end; try done; unfold sys_fork, sys_exit, sys_wait, trap_read, sys_kill, sys_getpid, sys_sbrk, sys_sleep, sys_uptime, trap_write; wk.
Qed.
Lemma wkeeps_syscall : wkeeps at_rest (syscall kend trampoline junk pad junkname stk dev_rd dev_wr).
Proof.
  unfold syscall. do 3 (apply wkeeps_bind; [wk|intros ?]).
  destruct (Trap.syscalls _ _ _ _ _ _ _ _ _) as [call|] eqn:E; [|wk].
  apply wkeeps_bind; [by eapply wkeeps_syscalls|]. intros r. wk.
Qed.
Hint Resolve wkeeps_syscall : wkeeps.
Lemma wkeeps_usertrap :
  wkeeps at_rest (usertrap kend trampoline uservec usertrap_addr kernelvec_addr junk pad junkname stk dev_rd dev_wr false).
Proof. unfold usertrap. wk. Qed.
Hint Resolve wkeeps_usertrap : wkeeps.
Lemma wkeeps_entry :
  wkeeps at_rest (entry kend trampoline uservec usertrap_addr kernelvec_addr junk pad junkname stk dev_rd dev_wr work).
Proof. unfold entry, transfer. wk. Qed.
End traps.
