(* ===== verification/SchedProps.v ===== *)
(** The kernel on several CPUs: no interleaving of system calls, interrupts and
    scheduling breaks the locking discipline or runs a process twice. *)

From S2P Require Import Prelude BufCache BufSpec KState Log LogCrash CString Fs Kalloc PipeRing File Sysfile SysProps Vm KThread Printf Proc Console Virtio Exec Trap Boot KLogic KInv KSpec ProcSpec TrapSpec.
Local Open Scope Z_scope.

Section kernel.
Context {U : Type} `{!UserMem U}.
Context (kend etext trampoline uservec usertrap_addr kernelvec_addr : Z).
Context (junk : Z -> Z) (pad junkname stk : bytes).
Context (dev_rd dev_wr : Z -> option (Z -> Z -> K U Z)).
Context (work : nat -> nat -> option (Z * Z * bool)).

Definition kentry : T U unit :=
  entry kend trampoline uservec usertrap_addr kernelvec_addr junk pad junkname stk dev_rd dev_wr work.
(** The machine runs this kernel. *)
Definition kstep : @mach U -> @mach U -> Prop := mstep kernelvec kentry.

Definition hart_waiting : T U unit -> Prop := waiting kend etext trampoline kernelvec_addr junkname.

(** What main() leaves when CPU 0 enters [scheduler] and the other CPUs enter it
    or wait to be started: locks initialised and free, interrupts off, no current process, and every slot of the table
    unused, without a thread, or holding a process ready to start at [forkret]
    (init, made by [userinit]). *)
Record booted (m : @mach U) : Prop := {
  boot_halt : m_halt m = None;
  boot_cur c : m_cur m c = KSched c;
  boot_ctx c : m_ctx m (KSched c) = scheduler \/ (c <> 0%nat /\ hart_waiting (m_ctx m (KSched c)));
  boot_lock l : s_lk (m_st m) l = Spinlock false None;
  boot_cpu c : c_proc (s_cpu (m_st m) c) = None /\ c_noff (s_cpu (m_st m) c) = 0;
  boot_sie c : s_sie (m_st m) c = false;
  boot_proc i : (p_state (s_proc (m_st m) i) = UNUSED /\ m_ctx m (KProc i) = TRet tt) \/
    (p_state (s_proc (m_st m) i) = RUNNABLE /\ m_ctx m (KProc i) = kentry);
}.

Definition reached (m : @mach U) : Prop := exists m0, booted m0 /\ rtc kstep m0 m.

Lemma keeps_start_hart t x : below 3 x -> keeps (U := U) t x (start_hart kernelvec_addr) (fun _ => True).
Proof.
  intros Hb. pose proof (fun f ap => keeps_printf (U := U) t x f ap Hb).
  unfold start_hart, kvminithart, trapinithart, plicinithart. kp.
Qed.

(** CPUs that wait to be started keep the discipline. *)
Lemma twp_hart_wait c ia : twp (KSched c) (hart_wait (U := U) kernelvec_addr) (fun _ _ => False) (at_ (idle false ∅) c ia).
Proof.
  change (hart_wait kernelvec_addr) with (loop (U := U) poll_started tt ≫= hart_ready kernelvec_addr).
  assert (tri (U := U) (KSched c) (idle false ∅) (loop poll_started tt ≫= hart_ready kernelvec_addr) (fun _ _ => False)) as Ht.
  { apply kbind; [unfold poll_started; kp|]. intros []. apply kbind; [apply keeps_start_hart; by apply below_0|].
    intros []. apply tri_scheduler. }
  apply Ht; [done|by intros d [= ->]|done].
Qed.

Lemma twp_waiting c m ia : c <> 0%nat -> hart_waiting m -> twp (KSched c) m (fun _ _ => False) (at_ (idle false ∅) c ia).
Proof.
  intros Hc [->|[->| ->]]; [|apply twp_hart_wait|apply twp_unfold, twp_hart_wait].
  apply twp_bind, twp_on; [done|]. intros c' ia' Hm.
  assert (c' = c) as -> by (destruct Hm as [->|[p ?]]; done). simpl. destruct c as [|c]; [done|]. apply twp_hart_wait.
Qed.

Lemma boot_inv m : booted m -> verified m.
Proof.
  intros B. split; [by rewrite (boot_halt _ B)|].
  exists (fun c => at_ (idle false ∅) c (c_intena (s_cpu (m_st m) c))),
    (fun i => if decide (p_state (s_proc (m_st m) i) = RUNNABLE) then Saved else Absent), (fun _ => ∅).
  constructor; simpl.
  - intros c. by rewrite (boot_cur _ B).
  - intros c d p. by rewrite (boot_cur _ B).
  - intros p. by case_decide.
  - intros c. destruct (boot_cpu _ B c) as [H1 H2]. split; [done|]. split; [|split; [apply B|done]].
    unfold v_rec. simpl. destruct (s_cpu (m_st m) c). simpl in *. by subst.
  - intros c. split; [done|]. intros i. split; [intros [?|?]; set_solver|by intros (? & ? & ?)].
  - intros c. rewrite (boot_cur _ B). destruct (boot_ctx _ B c) as [->|[Hc Hw]]; [|by apply twp_waiting].
    apply (tri_scheduler c false ∅ (fun _ _ => False)); [done|by intros d [= ->]|done].
  - intros l. right. split; [apply B|]. intros c [?|?]; set_solver.
  - intros c d l [?|?]; set_solver.
  - done.
  - intros i _. destruct (boot_proc _ B i) as [[-> _]|[-> _]]; done.
  - intros p Hp c ia. case_decide as E; [|done]. destruct (boot_proc _ B p) as [[? _]|[_ ->]]; [congruence|].
    apply entry_ok.
  - intros c p. by rewrite (boot_cur _ B).
  - intros t i ?. set_solver.
  - intros t t' i ?. set_solver.
Qed.

Lemma reached_verified m : reached m -> verified m.
Proof.
  intros (m0 & B & H). refine (reachable_verified kernelvec kentry _ _ m0 m H (boot_inv _ B)).
  - intros. apply entry_ok.
  - intros. by apply kernelvec_ok.
Qed.

(** * Safety *)

(** The panics of kernel/spinlock.c, of [sched] and [exit], and of the trap
    handlers. *)
Definition lock_panics : list string :=
  ["acquire"; "release"; "pop_off"; "pop_off - interruptible"; "sched p->lock"; "sched locks";
   "sched running"; "sched interruptible"; "zombie exit"; "usertrap: not from user mode";
   "kerneltrap: not from supervisor mode"; "kerneltrap: interrupts enabled"]%string.

Lemma verified_no_lock_panic (m : @mach U) :
  verified m -> match m_halt m with Some (HPanic msg) => msg ∉ lock_panics | _ => True end.
Proof using Type.
  clear -m. intros [H _]. destruct (m_halt m) as [[msg| | |]|]; try done. simpl in H.
  intros Hin. revert H. unfold lock_panics, tolerated in *.
  repeat (apply elem_of_cons in Hin as [->|Hin]); [..|by apply not_elem_of_nil in Hin];
    rewrite !elem_of_cons; intuition (try discriminate); set_solver.
Qed.


(** C5: a process is never executed by two CPUs; a CPU executes its own scheduler
    or the process recorded in its struct cpu; and while p->lock is free, the
    state of p is RUNNING exactly when some CPU executes it. *)
Theorem process_on_one_cpu (m : @mach U) :
  reached m ->
  (forall c d p, m_cur m c = KProc p -> m_cur m d = KProc p -> c = d) /\
  (forall c, m_cur m c = KSched c \/
     exists p, m_cur m c = KProc p /\ c_proc (s_cpu (m_st m) c) = Some p) /\
  (forall p, l_locked (s_lk (m_st m) (PLock p)) = false ->
     (p_state (s_proc (m_st m) p) = RUNNING <-> exists c, m_cur m c = KProc p)).
Proof.
  intros (_ & V & PH & MI & I)%reached_verified. split; [apply (i_uniq _ _ _ _ I)|]. split.
  - intros c. pose proof (i_cur _ _ _ _ I c) as Hc. destruct (i_view _ _ _ _ I c) as (_ & -> & _).
    destruct (m_cur m c) as [p|d]; [right|left; congruence]. exists p. split; [done|apply Hc].
  - intros p Hl. assert (Hf : forall c, ~ v_has (V c) (PLock p)).
    { intros c Hc. by rewrite (lock_mine _ _ _ _ _ _ I Hc) in Hl. }
    pose proof (i_free _ _ _ _ I p Hf) as Hinv. split.
    + intros E. rewrite E in Hinv. by apply (i_live _ _ _ _ I).
    + intros [c Hc]. pose proof (i_cur _ _ _ _ I c) as H. rewrite Hc in H. destruct H as [_ H].
      rewrite H in Hinv. by apply running.
Qed.

(** C6: mutual exclusion on the process table: when the next access of a CPU
    changes the state of process i, that CPU holds p->lock of i. *)
Theorem state_change_locked (m : @mach U) c i f (k : unit -> T U unit) :
  reached m -> m_ctx m (m_cur m c) = TVis (ModProc i f) k ->
  p_state (f (s_proc (m_st m) i)) <> p_state (s_proc (m_st m) i) ->
  s_lk (m_st m) (PLock i) = Spinlock true (Some c).
Proof.
  intros (_ & V & PH & MI & I)%reached_verified E Hne.
  pose proof (i_twp _ _ _ _ I c) as H. rewrite E in H. destruct H as [_ H]. specialize (H _ (pre_refl _ _)).
  destruct H as [[Hf _]|(s & ph & s' & _ & Hin & _)]; [by rewrite Hf in Hne|].
  rewrite (lock_mine _ _ _ _ _ _ I (or_introl Hin)). by rewrite decide_True.
Qed.

(** * Progress *)

(** CPU [c] spins on a lock that is taken. *)
Definition spins (m : @mach U) (c : nat) : Prop :=
  exists l k, m_ctx m (m_cur m c) = TVis (TestAndSet l) k /\ l_locked (s_lk (m_st m) l) = true.

Lemma spins_dec m c : spins m c \/ ~ spins m c.
Proof.
  unfold spins. destruct (m_ctx m (m_cur m c)) as [a|X e k|]; [right; naive_solver| |right; naive_solver].
  destruct e; try (right; intros (? & ? & ? & _); discriminate).
  destruct (l_locked (s_lk (m_st m) l)) eqn:E; [left; eauto|].
  right. intros (l' & k' & [= <- _] & E'). congruence.
Qed.

Lemma holder_moves m V PH MI : inv m V PH MI -> forall n c l, (4 - rank l <= n)%nat -> v_has (V c) l ->
  exists d, ~ spins m d /\ exists l', v_has (V d) l'.
Proof.
  intros I. induction n as [|n IH]; intros c l Hr Hl; [destruct l; simpl in Hr; lia|].
  destruct (spins_dec m c) as [(l2 & k & E & Hk)|]; [|eauto].
  pose proof (i_twp _ _ _ _ I c) as H. rewrite E in H. destruct H as [_ H]. specialize (H _ (pre_refl _ _)).
  destruct H as (_ & Hhalf & Hrank & _). destruct Hl as [Hl|Hl]; [|congruence]. apply Hrank in Hl.
  destruct (i_lock _ _ _ _ I l2) as [(d & Hd & _)|[Hx _]]; [|by rewrite Hx in Hk].
  apply (IH d l2); [destruct l; simpl in *; lia|done].
Qed.

(** C7: no deadlock on spin locks: whenever a CPU spins, some other CPU holds a
    lock and does not spin. *)
Theorem spinning_ends (m : @mach U) c :
  reached m -> spins m c ->
  exists d l, d <> c /\ ~ spins m d /\ l_locked (s_lk (m_st m) l) = true /\
    (l_cpu (s_lk (m_st m) l) = Some d \/ l_cpu (s_lk (m_st m) l) = None).
Proof.
  intros (_ & V & PH & MI & I)%reached_verified Hs. pose proof Hs as (l & k & _ & Hl).
  destruct (i_lock _ _ _ _ I l) as [(d0 & Hd0 & _)|[Hx _]]; [|by rewrite Hx in Hl].
  destruct (holder_moves _ _ _ _ I 4 d0 l ltac:(destruct l; simpl; lia) Hd0) as (d & Hd & l' & Hl').
  exists d, l'. split; [by intros ->|]. split; [done|].
  rewrite (lock_mine _ _ _ _ _ _ I Hl'). simpl. split; [done|]. case_decide; auto.
Qed.
End kernel.

(** * A machine *)

Section demo.
Local Abbreviation US := (list bytes).

Definition demo_proc (s : procstate) : proc := Proc s None 0 0 1 None 0 PGSIZE 0 0 (replicate 16 None) (Some 0%nat) (zeros 16).
Definition demo_glob : glob US :=
  Glob 2 (Some 0%nat) 0 false false true (Console (fun _ => 0) 0 0 0) (Uart (fun _ => 0) 0 0)
    (Disk (fun _ => true) (fun _ => VDesc VNull 0 0 0) (fun _ => (0, 0)) (fun _ => None) (fun _ => false) (fun _ => 0) 0 0)
    (KMem (fun _ => 0) 0) (demo_k (fun _ => 0) []) (boot_abio demo_disk) [] true 0.
Definition demo_entry : T US unit := kentry 0 0 0 0 0 (fun _ => 0) [] [] [] (fun _ => None) (fun _ => None) (fun _ _ => None).
Definition demo_mach : @mach US :=
  Mach (Gst (fun _ => Spinlock false None) (fun _ => Cpu None 0 false) (fun _ => false)
            (fun i => demo_proc (match i with O => RUNNABLE | _ => UNUSED end)) demo_glob)
    KSched (fun t => match t with KSched _ => scheduler | KProc 0 => demo_entry | _ => TRet tt end) None.

Definition demo_oracle : oracle := Oracle 0 (fun _ => 0).
(** [n] accesses of CPU [c]. *)
Definition run_cpu (c n : nat) (m : @mach US) : @mach US := Nat.iter n (mexec demo_entry demo_oracle c) m.
Definition running_on (c n : nat) (m : @mach US) : bool :=
  forallb (fun k => match m_halt (run_cpu c k m) with None => true | _ => false end) (seq 0 n).

Local Abbreviation demo_reached := (reached 0 0 0 0 0 0 (fun _ => 0) [] [] [] (fun _ => None) (fun _ => None) (fun _ _ => None)).

Lemma demo_booted : demo_reached demo_mach.
Proof.
  exists demo_mach. split; [|apply rtc_refl]. constructor.
  - reflexivity.
  - intros c. reflexivity.
  - intros c. left. reflexivity.
  - intros l. reflexivity.
  - intros c. split; reflexivity.
  - intros c. reflexivity.
  - intros [|i]; [right; split; reflexivity|left; split; reflexivity].
Qed.

Lemma demo_run c n m : demo_reached m -> running_on c n m = true -> demo_reached (run_cpu c n m).
Proof.
  intros (m0 & B & H) Hn. exists m0. split; [done|]. etrans; [exact H|]. clear B H.
  unfold running_on in Hn. rewrite forallb_forall in Hn.
  assert (Hk : forall k, (k < n)%nat -> m_halt (run_cpu c k m) = None).
  { intros k Hk. specialize (Hn k). rewrite in_seq in Hn. specialize (Hn ltac:(lia)). by destruct (m_halt _). }
  clear Hn. induction n as [|n IH]; [done|]. eapply rtc_r; [apply IH; auto with lia|].
  simpl. apply mstep_exec. auto with lia.
Qed.

(** Tests of the next access of a thread. *)
Definition mod_changes (i : nat) (x : proc) (m : T US unit) : bool :=
  match m with
  | TVis (ModProc j f) _ => bool_decide (i = j) && negb (bool_decide (p_state (f x) = p_state x))
  | _ => false
  end.
Lemma mod_changes_inv i x m :
  mod_changes i x m = true -> exists f k, m = TVis (ModProc i f) k /\ p_state (f x) <> p_state x.
Proof.
  destruct m as [|X e k|]; simpl; try done. destruct e; try done.
  intros [->%bool_decide_eq_true H%negb_true_iff%bool_decide_eq_false]%andb_true_iff. eauto.
Qed.
Definition spinsb (m : @mach US) (c : nat) : bool :=
  match m_ctx m (m_cur m c) with TVis (TestAndSet l) _ => l_locked (s_lk (m_st m) l) | _ => false end.
Lemma spinsb_spins m c : spinsb m c = true -> spins m c.
Proof. unfold spinsb, spins. destruct (m_ctx m (m_cur m c)) as [|X e k|]; try done. destruct e; try done. eauto. Qed.


(** CPU 0 executes process 0 while CPU 1 looks for work. *)
Lemma process_on_one_cpu_witness :
  let m := run_cpu 1 30 (run_cpu 0 40 demo_mach) in
  m_cur m 0%nat = KProc 0 /\ (forall d, m_cur m d = KProc 0 -> 0%nat = d).
Proof.
  intros m. assert (Hm : demo_reached m).
  { do 2 (apply demo_run; [|vm_compute; reflexivity]). apply demo_booted. }
  split; [vm_compute; reflexivity|]. intros d.
  destruct (process_on_one_cpu 0 0 0 0 0 0 (fun _ => 0) [] [] [] (fun _ => None) (fun _ => None) (fun _ _ => None) m Hm) as [H _].
  apply H. vm_compute. reflexivity.
Defined.

(** The scheduler marks process 0 RUNNING. *)
Lemma state_change_locked_witness :
  s_lk (m_st (run_cpu 0 19 demo_mach)) (PLock 0) = Spinlock true (Some 0%nat).
Proof.
  assert (Hm : demo_reached (run_cpu 0 19 demo_mach)).
  { apply demo_run; [apply demo_booted|vm_compute; reflexivity]. }
  destruct (mod_changes_inv 0 (s_proc (m_st (run_cpu 0 19 demo_mach)) 0%nat)
    (m_ctx (run_cpu 0 19 demo_mach) (m_cur (run_cpu 0 19 demo_mach) 0%nat)) ltac:(vm_compute; reflexivity)) as (f & k & E & Hf).
  exact (state_change_locked 0 0 0 0 0 0 (fun _ => 0) [] [] [] (fun _ => None) (fun _ => None) (fun _ _ => None)
           (run_cpu 0 19 demo_mach) 0 0 f k Hm E Hf).
Defined.

(** CPU 1 spins on the lock CPU 0 has taken. *)
Lemma spinning_ends_witness :
  let m := run_cpu 1 16 (run_cpu 0 19 demo_mach) in
  spins m 1 /\ exists d l, d <> 1%nat /\ ~ spins m d /\ l_locked (s_lk (m_st m) l) = true /\
    (l_cpu (s_lk (m_st m) l) = Some d \/ l_cpu (s_lk (m_st m) l) = None).
Proof.
  intros m. assert (Hs : spins m 1) by (apply spinsb_spins; vm_compute; reflexivity).
  split; [exact Hs|]. assert (Hm : demo_reached m).
  { do 2 (apply demo_run; [|vm_compute; reflexivity]). apply demo_booted. }
  exact (spinning_ends 0 0 0 0 0 0 (fun _ => 0) [] [] [] (fun _ => None) (fun _ => None) (fun _ _ => None) m 1 Hm Hs).
Defined.
End demo.
