(* ===== verification/DevProps.v ===== *)
(** What holds of the console, the serial line and the disk queue in every state
    the kernel reaches, on any number of CPUs. *)

From S2P Require Import Prelude BufCache BufSpec KState Log LogCrash CString Fs Kalloc PipeRing File Sysfile SysProps Vm KThread Printf Proc Console Virtio Exec Trap Boot KLogic KInv KSpec ProcSpec TrapSpec SchedProps KGhost KDev DevSpec.
From Stdlib Require Import Ascii.
Local Open Scope Z_scope.

(** The drivers as the boot leaves them: empty rings, every descriptor free. *)
Record fresh {U} (g : glob U) : Prop := {
  fresh_cons : con_r (g_cons g) = 0 /\ con_w (g_cons g) = 0 /\ con_e (g_cons g) = 0;
  fresh_uart : tx_w (g_uart g) = 0 /\ tx_r (g_uart g) = 0;
  fresh_disk i : 0 <= i < NUM -> d_free (g_disk g) i = true;
}.

Lemma fresh_line x : con_r x = 0 -> con_w x = 0 -> con_e x = 0 -> cons_ok x.
Proof.
  intros Hr Hw He. exists ([], []). split; [apply rtc_refl|]. split; rewrite ?Hr, ?Hw, ?He; try done.
Qed.

Section props.
Context {U : Type} `{!UserMem U}.
Context (kend etext trampoline uservec usertrap_addr kernelvec_addr : Z).
Context (junk : Z -> Z) (pad junkname stk : bytes).
Context (dev_rd dev_wr : Z -> option (Z -> Z -> K U Z)).
Context (work : nat -> nat -> option (Z * Z * bool)).
Local Abbreviation booted := (booted kend etext trampoline uservec usertrap_addr kernelvec_addr junk pad junkname stk dev_rd dev_wr work).
Local Abbreviation kstep := (kstep kend trampoline uservec usertrap_addr kernelvec_addr junk pad junkname stk dev_rd dev_wr work).

(** A state reached after a boot. *)
Definition dev_reached (m : @mach U) : Prop :=
  exists m0, booted m0 /\ fresh (s_glob (m_st m0)) /\ rtc kstep m0 m.

Lemma quiet_hart_ready : quiet (hart_ready (U := U) kernelvec_addr tt).
Proof. unfold hart_ready, start_hart, kvminithart, trapinithart, plicinithart. qt. Qed.
Lemma dwp_waiting c m l : c <> 0%nat -> hart_waiting kend etext trampoline kernelvec_addr junkname m ->
  gwp (U := U) (fun s _ => dinv s) dev_halt (fun _ => True) (KSched c) m (fun _ _ => True) l.
Proof.
  intros Hc Hm. assert (Hw : quiet (hart_wait (U := U) kernelvec_addr)).
  { split; [intros j; unfold poll_started; qt|]. intros []. apply quiet_hart_ready. }
  destruct Hm as [->|[->| ->]]; [|by apply dwp_quiet|by apply gwp_unfold, dwp_quiet].
  apply gwp_bind. intros o c' s cu G HI Hl [Hd _]. simpl. rewrite (Hd c eq_refl). exists G. split; [done|]. split; [done|].
  rewrite Hl. destruct c as [|c]; [done|]. exact (dwp_quiet (KSched (S c)) _ _ l Hw (fun _ => I)).
Qed.

Lemma boot_ginv m : booted m -> fresh (s_glob (m_st m)) -> ginv (fun s _ => dinv s) dev_halt (fun _ => True) m.
Proof.
  intros B [(Hr & Hw & He) [Htw Htr] Hd]. split; [intros h; by rewrite (boot_halt _ _ _ _ _ _ _ _ _ _ _ _ _ _ B)|].
  exists (fun _ => DGhost None None None ∅). split.
  - pose proof (fresh_line _ Hr Hw He) as Hok. split; try done.
    + destruct Hok as (a & _ & ?). by exists a.
    + split; [by rewrite Htr|]. exists 0. rewrite Htw, Htr. by split.
    + split; simpl; [intros i Hi Hf; by rewrite Hd in Hf|by intros t i v ?%lookup_empty_Some|].
      by intros t t' i [v ?%lookup_empty_Some].
    + intros t _. constructor.
  - intros [p|c].
    + destruct (boot_proc _ _ _ _ _ _ _ _ _ _ _ _ _ _ B p) as [[_ ->]|[_ ->]]; [done|].
      eapply gwp_mono; [|apply dkeeps_entry]. done.
    + destruct (boot_ctx _ _ _ _ _ _ _ _ _ _ _ _ _ _ B c) as [->|[Hc Hwait]]; [|by apply dwp_waiting].
      apply dwp_quiet; [apply quiet_scheduler|done].
Qed.

Lemma dev_reached_ginv m : dev_reached m -> ginv (fun s _ => dinv s) dev_halt (fun _ => True) m.
Proof.
  intros (m0 & B & F & H).
  eapply reachable_ginv; [| | | |exact H| |by apply boot_ginv]; try (by eapply boot_inv, B).
  - intros t l. apply dkeeps_kernelvec.
  - intros i l _. eapply gwp_mono; [|apply dkeeps_entry]. done.
  - intros. apply entry_ok.
  - intros. by apply kernelvec_ok.
Qed.


(** C11: the ring buffers never overflow, also while their locks are held and when
    the counters wrap around: the console holds at most 128 bytes and its write
    index lies between the read and the edit index; the serial line holds at most
    32 bytes to send. *)
Theorem device_rings_bounded (m : @mach U) :
  dev_reached m ->
  let x := g_cons (s_glob (m_st m)) in
  let u := g_uart (s_glob (m_st m)) in
  u32 (con_e x - con_r x) <= INPUT_BUF_SIZE /\
  u32 (con_w x - con_r x) + u32 (con_e x - con_w x) = u32 (con_e x - con_r x) /\
  u64 (tx_w u - tx_r u) <= UART_TX_BUF_SIZE.
Proof.
  intros (_ & G & I & _)%dev_reached_ginv x u. destruct (dv_ring _ _ I) as [a Ha]. fold x in Ha.
  pose proof (crep_used _ _ Ha) as He. pose proof (crep_fit _ _ Ha) as Hf. rewrite He. split; [done|].
  assert (Hs : forall z, 0 <= z <= 128 -> u32 z = z) by (intros; apply u32_small; lia).
  unfold used, INPUT_BUF_SIZE in *. split.
  - rewrite (crep_w _ _ Ha), (crep_e _ _ Ha). unfold used. rewrite u32_sub_l.
    replace (u32 (u32 (con_r x + Z.of_nat (length a.1 + length a.2)) - u32 (con_r x + Z.of_nat (length a.1))))
      with (u32 (Z.of_nat (length a.2))) by (unfold u32; rewrite <- Zminus_mod; f_equal; lia).
    replace (con_r x + Z.of_nat (length a.1) - con_r x) with (Z.of_nat (length a.1)) by lia. rewrite !Hs by lia. lia.
  - destruct (dv_tx _ _ I) as (_ & n & Hn & Hw). fold u in Hw. rewrite Hw. unfold u64. rewrite Zminus_mod_idemp_l.
    replace (tx_r u + n - tx_r u) with n by lia. unfold UART_TX_BUF_SIZE in *. rewrite Z.mod_small; lia.
Qed.

End props.

(** * A machine *)

Section demo.
Local Abbreviation US := (list bytes).

(** Characters wait at the serial line; the next one is read from [RHR]. *)
Definition dev_reg (inp : bytes) (r : reg) : Z :=
  match r with
  | SCAUSE => 0x8000000000000009
  | PLIC_CLAIM => UART0_IRQ
  | LSR => match inp with [] => 32 | _ => 33 end
  | RHR => hd 0 inp
  | _ => 0
  end.

(** A machine whose processes make the transfers [work]. *)
Variable work : nat -> nat -> option (Z * Z * bool).
Definition work_entry : T US unit := kentry 0 0 0 0 0 (fun _ => 0) [] [] [] (fun _ => None) (fun _ => None) work.
Definition work_mach : @mach US :=
  Mach (m_st demo_mach) KSched (fun t => match t with KSched _ => scheduler | KProc 0 => work_entry | _ => TRet tt end) None.

(** The next access of CPU [c] with that device, and [n] of them. *)
Definition dev_step (c : nat) (s : bytes * @mach US) : bytes * @mach US :=
  match m_ctx s.2 (m_cur s.2 c) with
  | TVis (ReadReg r) _ =>
      (match r with RHR => tail s.1 | _ => s.1 end, mexec work_entry (Oracle (dev_reg s.1 r) (fun _ => 0)) c s.2)
  | _ => (s.1, mexec work_entry demo_oracle c s.2)
  end.
Fixpoint run_dev (c n : nat) (s : bytes * @mach US) : bytes * @mach US :=
  match n with
  | O => s
  | S n => match m_halt s.2 with None => run_dev c n (dev_step c s) | Some _ => s end
  end.

Local Abbreviation work_reached := (dev_reached 0 0 0 0 0 0 (fun _ => 0) [] [] [] (fun _ => None) (fun _ => None) work).

Lemma work_booted : work_reached work_mach.
Proof.
  exists work_mach. split; [|split; [|apply rtc_refl]].
  - constructor; try reflexivity.
    + intros c. left. reflexivity.
    + intros c. split; reflexivity.
    + intros [|i]; [right; split; reflexivity|left; split; reflexivity].
  - split; repeat split; reflexivity.
Qed.

Lemma run_dev_reached c n s : work_reached s.2 -> work_reached (run_dev c n s).2.
Proof.
  revert s. induction n as [|n IH]; intros s H; [done|]. simpl. destruct (m_halt s.2) eqn:E; [done|].
  apply IH. destruct H as (m0 & B & F & H). exists m0. split; [done|]. split; [done|]. eapply rtc_r; [exact H|].
  unfold dev_step. destruct (m_ctx s.2 (m_cur s.2 c)) as [a|X e k|]; [by apply mstep_exec| |by apply mstep_exec].
  destruct e; by apply mstep_exec.
Qed.

Lemma interrupted_reached c m : work_reached m -> m_halt m = None -> s_sie (m_st m) c = true -> work_reached (mintr kernelvec c m).
Proof.
  intros (m0 & B & F & H) Hh Hs. exists m0. split; [done|]. split; [done|]. eapply rtc_r; [exact H|]. by apply mstep_intr.
Qed.
End demo.

(** Five characters are typed while CPU 0 is idle. *)
Definition typed : @mach (list bytes) :=
  let w := fun _ _ => None in
  (run_dev w 0 2500 (str "ab" ++ [8] ++ str "c" ++ [10], mintr kernelvec 0 (run_dev w 0 4 ([], work_mach w)).2)).2.
Lemma typed_reached : dev_reached 0 0 0 0 0 0 (fun _ => 0) [] [] [] (fun _ => None) (fun _ => None) (fun _ _ => None) typed.
Proof.
  apply run_dev_reached, interrupted_reached; [|vm_compute; reflexivity|vm_compute; reflexivity].
  apply run_dev_reached, work_booted.
Qed.


Lemma device_rings_bounded_witness :
  let x := g_cons (s_glob (m_st typed)) in u32 (con_e x - con_r x) = 3 /\ u32 (con_e x - con_r x) <= INPUT_BUF_SIZE.
Proof.
  split; [vm_compute; reflexivity|].
  apply (device_rings_bounded 0 0 0 0 0 0 (fun _ => 0) [] [] [] (fun _ => None) (fun _ => None) (fun _ _ => None) typed typed_reached).
Defined.

(** Process 0 reads block 3 into buffer 7, and sleeps until the disk answers. *)
Definition one_read : nat -> nat -> option (Z * Z * bool) := fun _ _ => Some (7, 3, false).
Definition reading : @mach (list bytes) := (run_dev one_read 0 300 ([], work_mach one_read)).2.

