(* ===== verification/WaitProps.v ===== *)
(** Sleep and wakeup of wait() and exit(), in every state the kernel reaches. *)

From S2P Require Import Prelude BufCache BufSpec KState Log LogCrash CString Fs Kalloc PipeRing File Sysfile SysProps Vm KThread Printf Proc Console Virtio Exec Trap Boot KLogic KInv KSpec ProcSpec TrapSpec SchedProps KGhost KWait WaitSpec WaitTrap.
Local Open Scope Z_scope.

Section props.
Context {U : Type} `{!UserMem U}.
Context (kend etext trampoline uservec usertrap_addr kernelvec_addr : Z).
Context (junk : Z -> Z) (pad junkname stk : bytes).
Context (dev_rd dev_wr : Z -> option (Z -> Z -> K U Z)).
Context (work : nat -> nat -> option (Z * Z * bool)).
Local Abbreviation booted := (booted kend etext trampoline uservec usertrap_addr kernelvec_addr junk pad junkname stk dev_rd dev_wr work).
Local Abbreviation reached := (reached kend etext trampoline uservec usertrap_addr kernelvec_addr junk pad junkname stk dev_rd dev_wr work).
Local Abbreviation waits ini := (ginv (U := U) (winv ini) (fun _ => True) (fun l => l = clean)).

(** CPUs that wait to be started. *)
Lemma wwp_hart_wait ini c : gwp (U := U) (winv ini) (fun _ => True) (fun l => l = clean) (KSched c) (hart_wait kernelvec_addr) (fun _ _ => True) clean.
Proof.
  change (hart_wait kernelvec_addr) with (loop (U := U) poll_started tt ≫= hart_ready kernelvec_addr).
  apply wwp_seq; [unfold poll_started; st|]. intros [].
  apply wwp_seq; [unfold start_hart, kvminithart, trapinithart, plicinithart; st|]. intros _. apply wwp_scheduler.
Qed.
Lemma wwp_waiting ini c m : c <> 0%nat -> hart_waiting kend etext trampoline kernelvec_addr junkname m ->
  gwp (U := U) (winv ini) (fun _ => True) (fun l => l = clean) (KSched c) m (fun _ _ => True) clean.
Proof.
  intros Hc [->|[->| ->]]; [|apply wwp_hart_wait|apply gwp_unfold, wwp_hart_wait].
  apply gwp_bind, wwp_mycpu. intros c' E. rewrite (E c eq_refl). destruct c as [|c]; [done|]. apply wwp_hart_wait.
Qed.

Lemma boot_waits m : booted m -> waits (g_initproc (s_glob (m_st m))) m.
Proof.
  intros B. split; [done|]. exists (fun _ => clean). split.
  - assert (Hs : forall p, ~ asleep (m_st m) p).
    { intros p [H _]. destruct (boot_proc _ _ _ _ _ _ _ _ _ _ _ _ _ _ B p) as [[E _]|[E _]]; congruence. }
    split; simpl; try done; try set_solver.
    + by intros t [|i].
    + intros p c Hp Hc H1 H2 [?|H]; [done|]. by destruct (Hs p).
  - intros [p|c].
    + destruct (boot_proc _ _ _ _ _ _ _ _ _ _ _ _ _ _ B p) as [[_ ->]|[_ ->]]; [done|].
      eapply gwp_mono; [|apply wkeeps_entry]; [done|]. split; [by eexists|done].
    + destruct (boot_ctx _ _ _ _ _ _ _ _ _ _ _ _ _ _ B c) as [->|[Hc Hwait]]; [apply wwp_scheduler|by apply wwp_waiting].
Qed.

Lemma reached_waits m : reached m -> exists ini, waits ini m.
Proof.
  intros (m0 & B & H). exists (g_initproc (s_glob (m_st m0))).
  eapply reachable_ginv; [| | | |exact H| |by apply boot_waits]; try (by eapply boot_inv, B).
  - intros t l. by apply wkeeps_kernelvec.
  - intros i l ->. eapply gwp_mono; [|apply wkeeps_entry]; [done|]. split; [by eexists|done].
  - intros. apply entry_ok.
  - intros. by apply kernelvec_ok.
Qed.

(** C8: no wakeup of wait() is lost: in every interleaving, on any number of CPUs,
    a process that sleeps in wait() has no zombie child, except while some CPU
    holds wait_lock (in exit(), about to wake it). *)
Theorem wait_wakeup_not_lost (m : @mach U) p c :
  reached m -> (p < NPROCn)%nat -> (c < NPROCn)%nat ->
  p_state (s_proc (m_st m) p) = SLEEPING -> p_chan (s_proc (m_st m) p) = Some (ChProc p) ->
  p_parent (s_proc (m_st m) c) = Some p ->
  p_state (s_proc (m_st m) c) <> ZOMBIE \/ exists d, s_lk (m_st m) WaitLock = Spinlock true (Some d).
Proof.
  intros [ini (_ & G & I & _)]%reached_waits Hp Hc Hs Hch Hpar.
  destruct (decide (p_state (s_proc (m_st m) c) = ZOMBIE)) as [Hz|]; [right|by left].
  destruct (w_main _ _ _ _ I p c Hp Hc Hpar Hz) as (t & Hw & _); [right; by split|].
  destruct (w_has _ _ _ _ I t TW Hw) as (d & E & _). by exists d.
Qed.
End props.

(** * A machine *)

Section demo.
Local Abbreviation US := (list bytes).

(** Process 0 and its child 1 are ready to run. *)
Definition parent_mach : @mach US :=
  Mach (Gst (fun _ => Spinlock false None) (fun _ => Cpu None 0 false) (fun _ => false)
         (fun i => match i with
                   | 0 => demo_proc RUNNABLE
                   | 1 => set_p_parent (Some 0%nat) (demo_proc RUNNABLE)
                   | _ => demo_proc UNUSED
                   end%nat) demo_glob)
    KSched (fun t => match t with KSched _ => scheduler | KProc 0 | KProc 1 => demo_entry | _ => TRet tt end) None.

(** User code makes the system call wait(0). *)
Definition wait_oracle : oracle := Oracle 8 (fun a => if a =? TF_A7 then 3 else 0).
Fixpoint run_wait (n : nat) (m : @mach US) : @mach US :=
  match n with
  | O => m
  | S n => match m_halt m with None => run_wait n (mexec demo_entry wait_oracle 0 m) | Some _ => m end
  end.

Local Abbreviation demo_reached := (reached 0 0 0 0 0 0 (fun _ => 0) [] [] [] (fun _ => None) (fun _ => None) (fun _ _ => None)).

Lemma parent_reached : demo_reached parent_mach.
Proof.
  exists parent_mach. split; [|apply rtc_refl]. constructor; try reflexivity.
  - intros c. left. reflexivity.
  - intros c. split; reflexivity.
  - intros [|[|i]]; [right; split; reflexivity|right; split; reflexivity|left; split; reflexivity].
Qed.
Lemma run_wait_reached n m : demo_reached m -> demo_reached (run_wait n m).
Proof.
  revert m. induction n as [|n IH]; intros m H; [done|]. simpl. destruct (m_halt m) eqn:E; [done|]. apply IH.
  destruct H as (m0 & B & H). exists m0. split; [done|]. eapply rtc_r; [exact H|]. by apply mstep_exec.
Qed.
End demo.

(** Process 0 sleeps in wait() while its child runs. *)
Lemma wait_wakeup_not_lost_witness :
  let m := run_wait 500 parent_mach in
  p_chan (s_proc (m_st m) 0%nat) = Some (ChProc 0) /\
  (p_state (s_proc (m_st m) 1%nat) <> ZOMBIE \/ exists d, s_lk (m_st m) WaitLock = Spinlock true (Some d)).
Proof.
  intros m. split; [vm_compute; reflexivity|].
  apply (wait_wakeup_not_lost 0 0 0 0 0 0 (fun _ => 0) [] [] [] (fun _ => None) (fun _ => None) (fun _ _ => None) m 0 1).
  - apply run_wait_reached, parent_reached.
  - vm_compute. lia.
  - vm_compute. lia.
  - vm_compute. reflexivity.
  - vm_compute. reflexivity.
  - vm_compute. reflexivity.
Defined.
