(* ===== verification/BootProps.v ===== *)
(** The boot leads to the state the theorems on the running kernel start from.

    Until CPU 0 sets [started] it runs alone: the others poll the flag.  Its code
    is verified by a sequential logic, [swp], on the shared state itself. *)

From S2P Require Import Prelude BufCache BufSpec KState Log LogCrash CString Fs Kalloc PipeRing File Sysfile SysProps Vm KThread Printf Proc Console Virtio Exec Trap Boot KLogic KInv KSpec ProcSpec TrapSpec SchedProps KGhost KDev DevSpec DevProps.
Local Open Scope Z_scope.

(** * CPU 0 alone *)

Section seq.
Context {U : Type}.
Implicit Types (s : gst U) (C : gset nat).

(** Interrupts are off, the other CPUs have not started. *)
Definition alone (s : gst U) : Prop :=
  (forall c, s_sie s c = false) /\ (forall c, c <> 0%nat -> s_cpu s c = Cpu None 0 false) /\ g_started (s_glob s) = false.

(** The panics that must not happen while booting. *)
Definition boot_halts (h : halt) : Prop := match h with HPanic msg => msg ∉ lock_panics | _ => True end.

Section swp.
(** What must hold when [started] is set, of the state and the slots that have a
    thread. *)
Context (ready : gst U -> gset nat -> Prop).

(** [C] are the slots whose thread has been created.  When [started] is set the
    rest of the code must be in [P2]; no loop sets it. *)
Fixpoint swp {A} (m : T U A) (Q : A -> gst U -> gset nat -> Prop) (P2 : T U A -> Prop) (s : gst U) (C : gset nat) : Prop :=
  match m with
  | TRet a => Q a s C
  | TVis e k => alone s /\ forall o,
      match KThread.exec o 0 e s with
      | RStep _ x s' =>
          if g_started (s_glob s') then ready s' C /\ P2 (k x)
          else swp (k x) Q P2 s' C
      | RSwtch _ _ _ _ => False
      | RCtx _ i x => swp (k x) Q P2 s ({[i]} ∪ C)
      | RBlock _ => True
      | RHalt _ h => boot_halts h
      end
  | TIter body i k => alone s /\ exists J, J i s C /\
      forall j s1 C1, J j s1 C1 -> swp (body j) (fun r s2 C2 =>
        match r with inl j' => alone s2 /\ J j' s2 C2 | inr r => swp (k r) Q P2 s2 C2 end)
        (fun _ => False) s1 C1
  end.

Lemma swp_mono {A} (m : T U A) (Q Q' : A -> gst U -> gset nat -> Prop) (P2 P2' : T U A -> Prop) s C :
  (forall a s C, Q a s C -> Q' a s C) -> (forall m, P2 m -> P2' m) -> swp m Q P2 s C -> swp m Q' P2' s C.
Proof.
  revert Q Q' P2 P2' s C. induction m as [A a|A X e k IH|A I R body IHb i k IH]; intros Q Q' P2 P2' s C HQ HP; simpl.
  - apply HQ.
  - intros [Ha H]. split; [done|]. intros o. specialize (H o). destruct (KThread.exec o 0 e s); try done.
    + destruct (g_started (s_glob s0)); [|by eapply IH]. destruct H as [H1 H2]. auto.
    + by eapply IH.
  - intros [Ha (J & HJ & H)]. split; [done|]. exists J. split; [done|]. intros j s1 C1 H1.
    eapply (IHb _ _ _ (fun _ => False)); [|done|by apply H]. intros [j'|r] s2 C2; [done|]. by apply IH.
Qed.

Lemma swp_bind {A B} (m : T U A) (f : A -> T U B) Q P2 s C :
  swp m (fun a s C => swp (f a) Q P2 s C) (fun m => P2 (m ≫= f)) s C -> swp (m ≫= f) Q P2 s C.
Proof.
  change (m ≫= f) with (tbind f m).
  revert s C. induction m as [A a|A X e k IH|A I R body IHb i k IH]; intros s C; simpl; [done| |].
  - intros [Ha H]. split; [done|]. intros o. specialize (H o). destruct (KThread.exec o 0 e s); try done.
    + destruct (g_started (s_glob s0)); [done|by apply IH].
    + by apply IH.
  - intros [Ha (J & HJ & H)]. split; [done|]. exists J. split; [done|]. intros j s1 C1 H1.
    eapply (swp_mono _ _ _ (fun _ => False)); [|done|by apply H]. intros [j'|r] s2 C2; [done|]. apply IH.
Qed.

Lemma swp_unfold {A I R} (body : I -> T U (I + R)) i (k : R -> T U A) Q P2 s C :
  swp (TIter body i k) Q P2 s C ->
  swp (tbind (fun r => match r with inl j => TIter body j k | inr r => k r end) (body i)) Q P2 s C.
Proof.
  intros [Ha (J & HJ & H)]. apply (swp_bind (body i)). eapply swp_mono; [| |by apply H].
  - intros [j|r] s2 C2 H2; [|done]. destruct H2 as [Ha2 H2]. split; [done|]. by exists J.
  - done.
Qed.

Lemma swp_alone {A} (m : T U A) P2 s C : swp m (fun _ _ _ => False) P2 s C -> alone s.
Proof. destruct m; [done|by intros [? _]..]. Qed.

(** Triples. *)
Definition bt {A} (P : gst U -> gset nat -> Prop) (m : T U A) (R : A -> gst U -> gset nat -> Prop) : Prop :=
  forall Q P2 s C, P s C -> (forall a s C, R a s C -> Q a s C) -> swp m Q P2 s C.

Lemma bt_ret {A} (P : gst U -> gset nat -> Prop) (a : A) (R : A -> gst U -> gset nat -> Prop) :
  (forall s C, P s C -> R a s C) -> bt P (mret a) R.
Proof. intros H Q P2 s C HP HQ. by apply HQ, H. Qed.
Lemma bt_bind {A B} P (m : T U A) (f : A -> T U B) R R2 : bt P m R -> (forall a, bt (R a) (f a) R2) -> bt P (m ≫= f) R2.
Proof. intros Hm Hf Q P2 s C HP HQ. apply swp_bind, Hm; [done|]. intros a s' C' HR. by eapply Hf. Qed.
Lemma bt_weaken {A} (P P' : gst U -> gset nat -> Prop) (m : T U A) (R R' : A -> gst U -> gset nat -> Prop) :
  (forall s C, P s C -> P' s C) -> (forall a s C, R a s C -> R' a s C) -> bt P' m R -> bt P m R'.
Proof. intros HP HR H Q P2 s C Hp HQ. apply H; auto. Qed.

Lemma bt_ev {X} (e : evt U X) (P : gst U -> gset nat -> Prop) (R : X -> gst U -> gset nat -> Prop) :
  (forall s C, P s C -> alone s) ->
  (forall o s C, P s C -> match KThread.exec o 0 e s with
    | RStep _ x s' => g_started (s_glob s') = false /\ R x s' C
    | RSwtch _ _ _ _ => False
    | RCtx _ i x => R x s ({[i]} ∪ C)
    | RBlock _ => True
    | RHalt _ h => boot_halts h
    end) -> bt P (ev e) R.
Proof.
  intros Ha H Q P2 s C HP HQ. split; [by eapply Ha|]. intros o. specialize (H o s C HP).
  destruct (KThread.exec o 0 e s); try done; [|by apply HQ]. destruct H as [-> H]. by apply HQ.
Qed.
Lemma bt_loop {I R} (body : I -> T U (I + R)) i (P : gst U -> gset nat -> Prop) (J : I -> gst U -> gset nat -> Prop) Q0 :
  (forall j s C, J j s C -> alone s) -> (forall s C, P s C -> J i s C) ->
  (forall j, bt (J j) (body j) (fun r s C => match r with inl j' => J j' s C | inr r => Q0 r s C end)) ->
  bt P (loop body i) Q0.
Proof.
  intros Ha Hi Hb Q P2 s C HP HQ. split; [by eapply Ha, Hi|]. exists J. split; [by apply Hi|].
  intros j s1 C1 HJ. apply Hb; [done|]. intros [j'|r] s2 C2 H2; [split; [by eapply Ha|done]|]. by apply HQ.
Qed.
Lemma bt_panic {A} msg P (R : A -> gst U -> gset nat -> Prop) :
  (forall s C, P s C -> alone s) -> msg ∉ lock_panics -> bt P (tpanic msg) R.
Proof. intros Ha Hm Q P2 s C HP HQ. split; [by eapply Ha|]. done. Qed.

(** * The state while booting *)

(** [H] are the locks CPU 0 holds, [n] its nesting of [push_off]; [cr] is the
    slot being filled, its state and whether it has a thread; [dC] whether the
    disk's descriptors are set up, and the slots that have a thread. *)
Definition slot_ok (x : proc) (i : nat) (C : gset nat) : Prop :=
  (p_state x = UNUSED /\ i ∉ C) \/ (p_state x = RUNNABLE /\ i ∈ C).
Record bst (H : list lockid) (n : Z) (cr : option (nat * procstate * bool)) (dC : bool * gset nat) (s : gst U) (C : gset nat) : Prop := {
  b_lk l : s_lk s l = if decide (l ∈ H) then Spinlock true (Some 0%nat) else Spinlock false None;
  b_cpu0 : s_cpu s 0%nat = Cpu None n false;
  b_alone : alone s;
  b_proc i : match cr with
             | Some (p, st, b) => if decide (i = p) then p_state (s_proc s i) = st /\ (i ∈ C <-> b = true)
                                  else slot_ok (s_proc s i) i C
             | None => slot_ok (s_proc s i) i C
             end;
  b_cons : con_r (g_cons (s_glob s)) = 0 /\ con_w (g_cons (s_glob s)) = 0 /\ con_e (g_cons (s_glob s)) = 0;
  b_uart : tx_w (g_uart (s_glob s)) = 0 /\ tx_r (g_uart (s_glob s)) = 0;
  b_disk i : dC.1 = true -> 0 <= i < NUM -> d_free (g_disk (s_glob s)) i = true;
  b_ctx : C = dC.2;
}.

Lemma bst_alone H n cr d s C : bst H n cr d s C -> alone s.
Proof. intros B. apply B. Qed.
Lemma bst_started H n cr d s C : bst H n cr d s C -> g_started (s_glob s) = false.
Proof. intros B. apply B. Qed.

(** Code that leaves the booting state as it is. *)
Definition bk {A} H n cr d (m : T U A) : Prop := bt (bst H n cr d) m (fun _ => bst H n cr d).

Lemma bk_bind {A B} H n cr d (m : T U A) (f : A -> T U B) (R : B -> gst U -> gset nat -> Prop) :
  bk H n cr d m -> (forall a, bt (bst H n cr d) (f a) R) -> bt (bst H n cr d) (m ≫= f) R.
Proof. intros Hm Hf. eapply bt_bind; [exact Hm|exact Hf]. Qed.

(** A step that changes nothing [bst] mentions. *)
Lemma bk_ev {X} H n cr d (e : evt U X) :
  (forall o s, match KThread.exec o 0 e s with
    | RStep _ x s' => s_lk s' = s_lk s /\ s_cpu s' = s_cpu s /\ s_sie s' = s_sie s /\
        (forall i, p_state (s_proc s' i) = p_state (s_proc s i)) /\ g_started (s_glob s') = g_started (s_glob s) /\
        g_cons (s_glob s') = g_cons (s_glob s) /\ g_uart (s_glob s') = g_uart (s_glob s) /\ g_disk (s_glob s') = g_disk (s_glob s)
    | RSwtch _ _ _ _ | RCtx _ _ _ => False
    | RBlock _ => True
    | RHalt _ h => boot_halts h
    end) -> bk H n cr d (ev e).
Proof.
  intros He. apply bt_ev; [apply bst_alone|]. intros o s C B. specialize (He o s).
  destruct (KThread.exec o 0 e s) as [x s'|from to x|i x| |h]; try done.
  destruct He as (H1 & H2 & H3 & H4 & H5 & H6 & H7 & H8). destruct B as [B1 B2 (Ba & Bb & Bc) B4 B5 B6 B7 B8].
  split; [by rewrite H5|]. split; rewrite ?H1, ?H2, ?H6, ?H7, ?H8; try done.
  - unfold alone. rewrite H2, H3, H5. done.
  - intros i. specialize (B4 i). unfold slot_ok in *. by rewrite H4.
Qed.

Lemma bk_onmem {X} H n cr d (m : VM X) : bk H n cr d (ev (OnMem m)).
Proof. apply bk_ev. intros o s. simpl. by destruct (m _) as [[x km]| | | |]. Qed.
Lemma bk_onfs {X} H n cr d (m : K U X) : bk H n cr d (ev (OnFs m)).
Proof. apply bk_ev. intros o s. simpl. by destruct (krun m _ _) as [[[x k] b]| | | |]. Qed.
Lemma bk_getg {X} H n cr d (f : glob U -> X) : bk H n cr d (ev (GetG f)).
Proof. by apply bk_ev. Qed.
Lemma bk_modg H n cr d f :
  (forall g, g_started (f g) = g_started g /\ g_cons (f g) = g_cons g /\ g_uart (f g) = g_uart g /\ g_disk (f g) = g_disk g) ->
  bk H n cr d (ev (ModG f)).
Proof. intros Hf. apply bk_ev. intros o s. simpl. by destruct (Hf (s_glob s)) as (? & ? & ? & ?). Qed.
Lemma bk_readreg H n cr d r : bk H n cr d (ev (ReadReg r)).
Proof. by apply bk_ev. Qed.
Lemma bk_writereg H n cr d r v : bk H n cr d (ev (WriteReg r v)).
Proof. by apply bk_ev. Qed.
Lemma bk_getp H n cr d i : bk H n cr d (ev (GetProc i)).
Proof. by apply bk_ev. Qed.
Lemma bk_modp H n cr d i f : (forall x, p_state (f x) = p_state x) -> bk H n cr d (ev (ModProc i f)).
Proof.
  intros Hf. apply bk_ev. intros o s. simpl. do 3 (split; [done|]). split; [|done]. intros j.
  destruct (decide (i = j)) as [<-|]; [by rewrite fn_lookup_insert|by rewrite fn_lookup_insert_ne].
Qed.
Lemma bk_tp H n cr d : bk H n cr d (ev Tp).
Proof. by apply bk_ev. Qed.

Lemma bk_ret {A} H n cr d (a : A) : bk H n cr d (mret a).
Proof. by apply bt_ret. Qed.
Lemma bk_seq {A B} H n cr d (m : T U A) (f : A -> T U B) : bk H n cr d m -> (forall a, bk H n cr d (f a)) -> bk H n cr d (m ≫= f).
Proof. apply bk_bind. Qed.
Lemma bk_loop {I R} H n cr d (body : I -> T U (I + R)) i : (forall j, bk H n cr d (body j)) -> bk H n cr d (loop body i).
Proof.
  intros Hb. apply (bt_loop _ _ _ (fun _ => bst H n cr d)); [intros j; apply bst_alone|done|]. intros j.
  eapply bt_weaken; [done| |apply Hb]. by intros [|].
Qed.
Lemma bk_panic {A} H n cr d msg : msg ∉ lock_panics -> bk H n cr d (tpanic (A := A) msg).
Proof. apply bt_panic, bst_alone. Qed.
Lemma bk_tfor {X} H n cr d (l : list X) (body : X -> T U unit) : (forall x, bk H n cr d (body x)) -> bk H n cr d (tfor l body).
Proof. intros Hb. induction l; [by apply bk_ret|]. by apply bk_seq. Qed.
End swp.
End seq.
Arguments swp {U} ready {A} m Q P2 s C : simpl never.

Create HintDb boot.
#[export] Hint Resolve bk_onmem bk_onfs bk_getg bk_readreg bk_writereg bk_getp bk_tp : boot.
#[export] Hint Extern 1 (bk _ _ _ _ _ (ev (ModG _))) => (apply bk_modg; intros []; done) : boot.
#[export] Hint Extern 1 (bk _ _ _ _ _ (ev (ModProc _ _))) => (apply bk_modp; intros []; done) : boot.
#[export] Hint Extern 1 (bk _ _ _ _ _ (tpanic _)) => (apply bk_panic; unfold lock_panics; set_solver) : boot.

(** Straight-line code of the boot. *)
Ltac bk := autounfold with quiet; repeat first
  [ apply bk_ret | solve [auto with boot] | apply bk_seq; [|intros ?] | apply bk_loop; intros ? | apply bk_tfor; intros ?
  | match goal with
    | |- bk _ _ _ _ _ (match ?e with _ => _ end) => destruct e
    end ].

Section boot.
Context {U : Type} (ready : gst U -> gset nat -> Prop).
Local Abbreviation bst := (bst (U := U)).
Local Abbreviation bt := (bt (U := U) ready).
Local Abbreviation bk := (bk (U := U) ready).

Lemma bk_initlock H n cr d l : l ∉ H -> bk H n cr d (initlock l).
Proof.
  intros Hl. apply bt_ev; [apply bst_alone|]. intros o s C B. simpl. split; [by eapply bst_started|].
  destruct B as [B1 B2 Ba B4 B5 B6 B7 B8]. split; try done. intros l'. simpl.
  destruct (decide (l = l')) as [<-|]; [|by rewrite fn_lookup_insert_ne]. rewrite fn_lookup_insert. by rewrite decide_False.
Qed.

Lemma bst_cpu H n n' cr d s C f :
  bst H n cr d s C -> f (Cpu None n false) = Cpu None n' false ->
  bst H n' cr d (set_s_cpu (<[0%nat := f (s_cpu s 0%nat)]> (s_cpu s)) s) C.
Proof.
  intros [B1 B2 (Ba & Bb & Bc) B4 B5 B6 B7 B8] Hf. split; try done; simpl.
  - by rewrite fn_lookup_insert, B2.
  - split; [done|]. split; [|done]. intros c Hc. simpl. rewrite fn_lookup_insert_ne by done. by apply Bb.
Qed.

Lemma bt_getcpu H n cr d : bt (bst H n cr d) (ev (GetCpu 0)) (fun x s C => x = Cpu None n false /\ bst H n cr d s C).
Proof.
  apply bt_ev; [apply bst_alone|]. intros o s C B. simpl. split; [by eapply bst_started|]. split; [|done]. apply B.
Qed.
Lemma bt_tp H n cr d : bt (bst H n cr d) (ev Tp) (fun x s C => x = 0%nat /\ bst H n cr d s C).
Proof. apply bt_ev; [apply bst_alone|]. intros o s C B. simpl. split; [by eapply bst_started|done]. Qed.
Lemma bt_modcpu H n n' cr d f : f (Cpu None n false) = Cpu None n' false ->
  bt (bst H n cr d) (ev (ModCpu 0 f)) (fun _ => bst H n' cr d).
Proof.
  intros Hf. apply bt_ev; [apply bst_alone|]. intros o s C B. split; [by eapply (bst_started _ _ _ _ _ _ B)|]. by eapply bst_cpu.
Qed.
Lemma bt_intrget H n cr d : bt (bst H n cr d) (ev IntrGet) (fun x s C => x = false /\ bst H n cr d s C).
Proof.
  apply bt_ev; [apply bst_alone|]. intros o s C B. simpl. split; [by eapply bst_started|]. split; [|done].
  by destruct (b_alone _ _ _ _ _ _ B) as [-> _].
Qed.
Lemma bk_introff H n cr d : bk H n cr d (ev IntrOff).
Proof.
  apply bt_ev; [apply bst_alone|]. intros o s C B. split; [by eapply (bst_started _ _ _ _ _ _ B)|].
  destruct B as [B1 B2 (Ba & Bb & Bc) B4 B5 B6 B7 B8]. split; try done. split; [|done]. intros c. simpl.
  destruct (decide (0%nat = c)) as [<-|]; [by rewrite fn_lookup_insert|by rewrite fn_lookup_insert_ne].
Qed.

(** A result known exactly. *)
Lemma bt_known {A B} H n cr d (m : T U A) (f : A -> T U B) v R :
  bt (bst H n cr d) m (fun x s C => x = v /\ bst H n cr d s C) -> bt (bst H n cr d) (f v) R -> bt (bst H n cr d) (m ≫= f) R.
Proof. intros Hm Hf. eapply bt_bind; [exact Hm|]. intros a Q P2 s C [-> Hb] HQ. by apply Hf. Qed.

Lemma bt_push_off H n cr d : 0 <= n -> bt (bst H n cr d) push_off (fun _ => bst H (n + 1) cr d).
Proof.
  intros Hn. unfold push_off, mycpu, cpuid. eapply bt_known; [apply bt_intrget|].
  apply bk_bind; [apply bk_introff|]. intros _. eapply bt_known; [apply bt_tp|]. eapply bt_known; [apply bt_getcpu|]. simpl.
  apply bk_bind.
  - destruct (n =? 0); [|apply bk_ret]. eapply bt_known; [apply bt_tp|]. by apply bt_modcpu.
  - intros _. eapply bt_known; [apply bt_tp|]. by apply bt_modcpu.
Qed.
Lemma bt_pop_off H n cr d : 0 <= n -> bt (bst H (n + 1) cr d) pop_off (fun _ => bst H n cr d).
Proof.
  intros Hn. unfold pop_off, mycpu, cpuid. eapply bt_known; [apply bt_tp|]. eapply bt_known; [apply bt_intrget|].
  eapply bt_known; [apply bt_getcpu|]. simpl. destruct (Z.ltb_spec (n + 1) 1); [lia|].
  apply (bt_bind _ _ _ _ (fun _ => bst H n cr d)); [apply bt_modcpu; unfold set_c_noff; simpl; f_equal; lia|]. intros _.
  eapply bt_known; [apply bt_getcpu|]. simpl. rewrite andb_false_r. apply bk_ret.
Qed.

(** The lock [l] is taken, its [cpu] not set. *)
Definition half l H n cr d (s : gst U) (C : gset nat) : Prop :=
  s_lk s l = Spinlock true None /\ bst H n cr d (upd_lk l (Spinlock false None) s) C.

Lemma half_alone l H n cr d s C : half l H n cr d s C -> alone s.
Proof. intros [_ B]. exact (b_alone _ _ _ _ _ _ B). Qed.
Lemma bst_lk_ext H n cr d s s' C :
  bst H n cr d s C -> (forall l, s_lk s' l = s_lk s l) -> s_cpu s' = s_cpu s -> s_sie s' = s_sie s -> s_proc s' = s_proc s ->
  s_glob s' = s_glob s -> bst H n cr d s' C.
Proof.
  intros [B1 B2 Ba B4 B5 B6 B7 B8] H1 H2 H3 H4 H5. split; rewrite ?H2, ?H4, ?H5; try done.
  - intros l. by rewrite H1.
  - unfold alone in *. by rewrite H2, H3, H5.
Qed.

Lemma bt_holding_out H n cr d l : l ∉ H -> bt (bst H n cr d) (holding l) (fun x s C => x = false /\ bst H n cr d s C).
Proof.
  intros Hl. unfold holding. apply (bt_known _ _ _ _ _ _ false).
  - apply bt_ev; [apply bst_alone|]. intros o s C B. split; [by eapply bst_started|]. split; [|done].
    rewrite (b_lk _ _ _ _ _ _ B). by rewrite decide_False.
  - by apply bt_ret.
Qed.
Lemma bt_holding_in H n cr d l : l ∈ H -> bt (bst H n cr d) (holding l) (fun x s C => x = true /\ bst H n cr d s C).
Proof.
  intros Hl. unfold holding, mycpu, cpuid. apply (bt_known _ _ _ _ _ _ true).
  - apply bt_ev; [apply bst_alone|]. intros o s C B. split; [by eapply bst_started|]. split; [|done].
    rewrite (b_lk _ _ _ _ _ _ B). by rewrite decide_True.
  - apply (bt_known _ _ _ _ _ _ (Some 0%nat)).
    + apply bt_ev; [apply bst_alone|]. intros o s C B. split; [by eapply bst_started|]. split; [|done].
      rewrite (b_lk _ _ _ _ _ _ B). by rewrite decide_True.
    + eapply bt_known; [apply bt_tp|]. apply bt_ret. intros s C B. by rewrite bool_decide_eq_true_2.
Qed.

Lemma bt_acquire H n cr d l : 0 <= n -> l ∉ H -> bt (bst H n cr d) (acquire l) (fun _ => bst (l :: H) (n + 1) cr d).
Proof.
  intros Hn Hl. unfold acquire, mycpu, cpuid. eapply bt_bind; [by apply bt_push_off|]. intros []. simpl.
  eapply bt_known; [by apply bt_holding_out|]. apply (bt_bind _ _ _ _ (fun _ => half l H (n + 1) cr d)).
  - apply (bt_loop _ _ _ _ (fun _ => bst H (n + 1) cr d)); [intros j; apply bst_alone|done|]. intros _.
    apply (bt_bind _ _ _ _ (fun b s C => b = false /\ half l H (n + 1) cr d s C)).
    + apply bt_ev; [apply bst_alone|]. intros o s C B. split; [by eapply (bst_started _ _ _ _ _ _ B)|].
      pose proof (b_lk _ _ _ _ _ _ B l) as Hlk. rewrite decide_False in Hlk by done. rewrite Hlk. split; [done|].
      split; [simpl; by rewrite fn_lookup_insert|]. eapply bst_lk_ext; [exact B|..]; try done. intros l'. simpl.
      destruct (decide (l = l')) as [<-|]; rewrite ?fn_lookup_insert, ?fn_lookup_insert_ne by done; done.
    + intros b. apply bt_ret. by intros s C [-> ?].
  - intros []. apply (bt_bind _ _ _ _ (fun x s C => x = 0%nat /\ half l H (n + 1) cr d s C)).
    + apply bt_ev; [apply half_alone|]. intros o s C B. split; [|done]. destruct (half_alone _ _ _ _ _ _ _ B) as (_ & _ & ?). done.
    + intros c Q P2 s C [-> B] HQ. eapply (bt_ev _ _ (half l H (n + 1) cr d) (fun _ => bst (l :: H) (n + 1) cr d)); try done.
      { apply half_alone. }
      clear s C B HQ P2 Q. intros o s C [Hh [B1 B2 Ba B4 B5 B6 B7 B8]]. split; [apply Ba|]. split; try done. intros l'. simpl.
      destruct (decide (l = l')) as [<-|Hne].
      * rewrite fn_lookup_insert, Hh. simpl. rewrite decide_True; [done|set_solver].
      * rewrite fn_lookup_insert_ne by done. specialize (B1 l'). simpl in B1. rewrite fn_lookup_insert_ne in B1 by done.
        rewrite B1. by destruct (decide (l' ∈ H)), (decide (l' ∈ l :: H)); set_solver.
Qed.

Lemma bt_release H n cr d l : 0 <= n -> l ∉ H -> bt (bst (l :: H) (n + 1) cr d) (release l) (fun _ => bst H n cr d).
Proof.
  intros Hn Hl. unfold release. eapply bt_known; [apply bt_holding_in; set_solver|]. simpl.
  apply (bt_bind _ _ _ _ (fun _ => half l H (n + 1) cr d)).
  { apply bt_ev; [apply bst_alone|]. intros o s C [B1 B2 Ba B4 B5 B6 B7 B8]. split; [apply Ba|].
    pose proof (B1 l) as Hlk. rewrite decide_True in Hlk by set_solver. split; [simpl; by rewrite fn_lookup_insert, Hlk|].
    split; try done. intros l'. simpl. destruct (decide (l = l')) as [<-|Hne].
    - rewrite fn_lookup_insert. by rewrite decide_False.
    - rewrite !fn_lookup_insert_ne by done. rewrite B1. by destruct (decide (l' ∈ H)), (decide (l' ∈ l :: H)); set_solver. }
  intros []. apply (bt_bind _ _ _ _ (fun _ => bst H (n + 1) cr d)); [|intros []; by apply bt_pop_off].
  apply bt_ev; [apply half_alone|]. intros o s C [Hh B]. split; [apply B|]. eapply bst_lk_ext; [exact B|..]; try done.
  intros l'. simpl. by rewrite Hh.
Qed.

(** Code in a critical section. *)
Lemma bk_section H n cr d l (m : T U unit) :
  0 <= n -> l ∉ H -> bk (l :: H) (n + 1) cr d m -> bk H n cr d (acquire l;; m;; release l).
Proof.
  intros Hn Hl Hm. eapply bt_bind; [by apply bt_acquire|]. intros []. apply bk_bind; [done|]. intros []. by apply bt_release.
Qed.

Lemma bk_hang {A} H n cr d : bk H n cr d (hang (A := A)).
Proof. unfold hang. bk. Qed.
Lemma bk_consputc H n cr d c : 0 <= n -> bk H n cr d (consputc c).
Proof.
  intros Hn. assert (forall c, bk H n cr d (uartputc_sync c)).
  { clear c. intros c. unfold uartputc_sync. eapply bt_bind; [by apply bt_push_off|]. intros []. pose proof @bk_hang.
    apply bk_bind; [bk|]. intros p. apply bk_bind; [destruct p; bk|]. intros _. apply bk_bind; [bk|]. intros _.
    apply bk_bind; [bk|]. intros _. by apply bt_pop_off. }
  unfold consputc. bk.
Qed.
Lemma bk_undefined {A} H n cr d : bk H n cr d (undefined (A := A)).
Proof. unfold undefined. bk. Qed.
Lemma bk_printf H n cr d f ap : 0 <= n -> PrLock ∉ H -> bk H n cr d (printf f ap).
Proof.
  intros Hn Hl. unfold printf. apply bk_bind; [bk|]. intros [].
  - eapply bt_bind; [by apply bt_acquire|]. intros []. apply bk_bind; [|intros []; by apply bt_release].
    pose proof (fun c => bk_consputc (PrLock :: H) (n + 1) cr d c ltac:(lia)). pose proof @bk_undefined. bk.
  - pose proof (fun c => bk_consputc H n cr d c Hn). pose proof @bk_undefined. bk.
Qed.

(** * The functions of the boot *)

Local Hint Resolve bk_hang bk_undefined : boot.
Local Hint Extern 1 (BootProps.bk _ _ _ _ _ (initlock _)) => (apply bk_initlock; set_solver) : boot.
Local Hint Extern 1 (BootProps.bk _ _ _ _ _ (printf _ _)) => (apply bk_printf; [lia|set_solver]) : boot.

Lemma bk_consoleinit cr d : bk [] 0 cr d consoleinit.
Proof. unfold consoleinit, uartinit. bk. Qed.
Lemma bk_printfinit cr d : bk [] 0 cr d printfinit.
Proof. unfold printfinit. bk. Qed.
Lemma bk_memory kend etext trampoline cr d : bk [] 0 cr d (boot_kinit kend;; kvminit etext trampoline;; kvminithart).
Proof. unfold boot_kinit, kvminit, kvminithart. bk. Qed.
Lemma bk_plic cr d : bk [] 0 cr d (plicinit;; plicinithart).
Proof. unfold plicinit, plicinithart. bk. Qed.

(** A slot of the table that has no thread may be marked unused. *)
Lemma bk_unused H n d i : i ∉ d.2 -> bk H n None d (modp i (set_p_state UNUSED)).
Proof.
  intros Hi. apply bt_ev; [apply bst_alone|]. intros o s C [B1 B2 Ba B4 B5 B6 B7 B8]. split; [apply Ba|].
  split; try done. intros j. simpl. destruct (decide (i = j)) as [<-|]; [|by rewrite fn_lookup_insert_ne].
  rewrite fn_lookup_insert. left. split; [done|by subst].
Qed.

Lemma bk_procinit dd : bk [] 0 None (dd, ∅) procinit.
Proof.
  unfold procinit. do 2 (apply bk_seq; [bk|intros _]). apply bk_tfor. intros p.
  apply bk_seq; [bk|intros _]. apply bk_seq; [by apply bk_unused|intros _]. bk.
Qed.

Lemma bk_disk H n cr (d : bool * gset nat) f : d.1 = false -> bk H n cr d (moddisk f).
Proof.
  intros Hd. apply bt_ev; [apply bst_alone|]. intros o s C [B1 B2 Ba B4 B5 B6 B7 B8]. split; [apply Ba|].
  split; try done. intros i Hi. congruence.
Qed.

(** [disk.free[i] = 1] for every descriptor. *)
Lemma bt_free_all H n cr C0 :
  bt (bst H n cr (false, C0)) (tfor (seqZ 0 NUM) (fun i => setfree i true)) (fun _ => bst H n cr (true, C0)).
Proof.
  assert (Hl : forall l k, 0 <= k -> seqZ k (NUM - k) = l ->
    bt (fun s C => bst H n cr (false, C0) s C /\ forall i, 0 <= i < k -> d_free (g_disk (s_glob s)) i = true)
       (tfor l (fun i => setfree i true)) (fun _ => bst H n cr (true, C0))).
  { induction l as [|i l IH]; intros k Hk E.
    - apply bt_ret. intros s C [[B1 B2 Ba B4 B5 B6 B7 B8] Hf]. split; try done. intros i _ Hi. apply Hf.
      assert (NUM - k <= 0) by (destruct (decide (0 < NUM - k)) as [Hp|]; [|lia]; rewrite seqZ_cons in E by done; done). lia.
    - assert (Hp : 0 < NUM - k) by (destruct (decide (0 < NUM - k)); [done|]; by rewrite seqZ_nil in E by lia).
      rewrite seqZ_cons in E by done. injection E as <- E. simpl.
      apply (bt_bind _ _ _ _ (fun _ s C => bst H n cr (false, C0) s C /\
        forall i, 0 <= i < k + 1 -> d_free (g_disk (s_glob s)) i = true)); [|intros []; apply (IH (k + 1)); [lia|]].
      + apply bt_ev; [intros s C [B _]; apply (bst_alone _ _ _ _ _ _ B)|].
        intros o s C [[B1 B2 Ba B4 B5 B6 B7 B8] Hf]. split; [apply Ba|]. split; [by split|]. intros i Hi. simpl.
        destruct (decide (k = i)) as [<-|]; [by rewrite fn_lookup_insert|]. rewrite fn_lookup_insert_ne by done. apply Hf. lia.
      + rewrite <- E. f_equal; lia. }
  eapply bt_weaken; [| |apply (Hl _ 0); done]; [|done]. intros s C B. split; [done|]. intros. lia.
Qed.

Lemma bt_virtio_disk_init cr C0 : bt (bst [] 0 cr (false, C0)) virtio_disk_init (fun _ => bst [] 0 cr (true, C0)).
Proof.
  unfold virtio_disk_init, rd, wr. apply bk_bind; [bk|]. intros _.
  assert (Hd : forall f, bk [] 0 cr (false, C0) (moddisk f)) by (intros; by apply bk_disk).
  repeat first
    [ apply bk_bind; [by bk|intros ?]
    | match goal with |- bt _ (if ?b then tpanic _ else _) _ => destruct b; [apply bt_panic; [apply bst_alone|unfold lock_panics; set_solver]|] end ].
  eapply bt_bind; [apply bt_free_all|]. intros []. apply bk_writereg.
Qed.

(** * The first process *)

Lemma bt_setstate H n dd C0 i f cr cr' st :
  (forall x, p_state (f x) = st) ->
  match cr with Some (p, _, b) => p = i /\ b = bool_decide (i ∈ C0) | None => True end ->
  match cr' with
  | Some (p, st', b) => p = i /\ st' = st /\ b = bool_decide (i ∈ C0)
  | None => st = UNUSED /\ i ∉ C0 \/ st = RUNNABLE /\ i ∈ C0
  end ->
  bt (bst H n cr (dd, C0)) (modp i f) (fun _ => bst H n cr' (dd, C0)).
Proof.
  intros Hf Hc Hc'. apply bt_ev; [apply bst_alone|]. intros o s C [B1 B2 Ba B4 B5 B6 B7 B8]. simpl in B8. subst C.
  split; [apply Ba|]. split; try done. intros j. simpl. specialize (B4 j).
  destruct (decide (i = j)) as [<-|Hne].
  - rewrite fn_lookup_insert. unfold slot_ok. rewrite Hf. destruct cr' as [[[p st'] b]|]; [|done].
    destruct Hc' as (-> & -> & ->). rewrite decide_True by done. by rewrite bool_decide_eq_true.
  - rewrite fn_lookup_insert_ne by done. destruct cr as [[[p s1] b1]|], cr' as [[[p' s2] b2]|]; naive_solver (case_decide; naive_solver).
Qed.

Lemma bk_allocpid i cr d : bk [PLock i] 1 cr d allocpid.
Proof.
  unfold allocpid. eapply bt_bind; [apply bt_acquire; [lia|set_solver]|]. intros [].
  do 2 (apply bk_bind; [bk|intros ?]). eapply bt_bind; [apply bt_release; [lia|set_solver]|]. intros []. apply bk_ret.
Qed.

Lemma bt_freeproc kend H n i dd C0 : i ∉ C0 ->
  bt (bst H n (Some (i, USED, false)) (dd, C0)) (freeproc kend i) (fun _ => bst H n None (dd, C0)).
Proof.
  intros Hi. unfold freeproc. repeat (apply bk_bind; [by bk|intros ?]).
  apply (bt_setstate _ _ _ _ _ _ _ _ UNUSED); [done| |by left]. split; [done|]. by rewrite bool_decide_eq_false_2.
Qed.

Lemma bt_allocproc kend trampoline dd :
  bt (bst [] 0 None (dd, ∅)) (allocproc kend trampoline) (fun r =>
    match r with Some i => bst [PLock i] 1 (Some (i, USED, true)) (dd, {[i]}) | None => bst [] 0 None (dd, ∅) end).
Proof.
  unfold allocproc. apply (bt_bind _ _ _ _ (fun r =>
    match r with Some i => bst [PLock i] 1 None (dd, ∅) | None => bst [] 0 None (dd, ∅) end)).
  { induction slots as [|i l IH]; [by apply bt_ret|]. apply (bt_bind _ _ _ _ (fun r =>
      match r with Some i => bst [PLock i] 1 None (dd, ∅) | None => bst [] 0 None (dd, ∅) end)).
    - eapply bt_bind; [apply bt_acquire; [lia|set_solver]|]. intros []. apply bk_bind; [bk|]. intros x.
      destruct (decide _); [by apply bt_ret|].
      eapply bt_bind; [apply (bt_release [] 0); [lia|set_solver]|]. intros []. by apply bt_ret.
    - intros [j|]; [by apply bt_ret|exact IH]. }
  intros [i|]; [|by apply bt_ret]. apply bk_bind; [apply bk_allocpid|]. intros pid. apply bk_bind; [bk|]. intros _.
  apply (bt_bind _ _ _ _ (fun _ => bst [PLock i] 1 (Some (i, USED, false)) (dd, ∅))).
  { by apply (bt_setstate _ _ _ _ _ _ _ _ USED). }
  intros []. assert (Hfail : bt (bst [PLock i] 1 (Some (i, USED, false)) (dd, ∅))
    (freeproc kend i;; release (PLock i);; mret (None : option nat)) (fun r =>
    match r with Some i => bst [PLock i] 1 (Some (i, USED, true)) (dd, {[i]}) | None => bst [] 0 None (dd, ∅) end)).
  { eapply bt_bind; [apply bt_freeproc; set_solver|]. intros [].
    eapply bt_bind; [apply (bt_release [] 0); [lia|set_solver]|]. intros []. by apply bt_ret. }
  do 2 (apply bk_bind; [bk|intros ?]). destruct (_ =? 0); [exact Hfail|].
  do 2 (apply bk_bind; [bk|intros ?]). destruct (_ =? 0); [exact Hfail|].
  apply (bt_bind _ _ _ _ (fun _ => bst [PLock i] 1 (Some (i, USED, true)) (dd, {[i]}))); [|intros []; by apply bt_ret].
  apply bt_ev; [apply bst_alone|]. intros o s C [B1 B2 Ba B4 B5 B6 B7 B8]. simpl in B8. subst C.
  split; simpl; try done; [|set_solver].
  intros j. specialize (B4 j). case_decide; [split; [naive_solver|set_solver]|]. unfold slot_ok in *. set_solver.
Qed.

Lemma bt_userinit `{!UserMem U} kend trampoline junkname dd :
  bt (bst [] 0 None (dd, ∅)) (userinit kend trampoline junkname) (fun _ s C => bst [] 0 None (dd, C) s C).
Proof.
  unfold userinit. eapply bt_bind; [apply bt_allocproc|]. intros [i|].
  - repeat (apply bk_bind; [by bk|intros ?]). apply (bt_bind _ _ _ _ (fun _ => bst [PLock i] 1 None (dd, {[i]}))).
    { apply (bt_setstate _ _ _ _ _ _ _ _ RUNNABLE); [done| |right; split; [done|set_solver]].
      split; [done|]. rewrite bool_decide_eq_true_2; set_solver. }
    intros []. eapply bt_weaken; [done| |apply (bt_release [] 0); [lia|set_solver]].
    intros [] s C B. pose proof (b_ctx _ _ _ _ _ _ B) as E. simpl in E. by subst C.
  - apply bk_bind; [bk|]. intros _. intros Q P2 s C B HQ. by split; [eapply bst_alone|].
Qed.

Lemma bt_boot `{!UserMem U} kend etext trampoline kernelvec_addr junkname :
  bt (bst [] 0 None (false, ∅)) (boot kend etext trampoline kernelvec_addr junkname) (fun _ s C => bst [] 0 None (true, C) s C).
Proof.
  unfold boot. apply bk_bind; [apply bk_consoleinit|]. intros _. apply bk_bind; [apply bk_printfinit|]. intros _.
  do 3 (apply bk_bind; [apply bk_printf; [lia|set_solver]|intros _]).
  unfold boot_kinit, kvminit, kvminithart, trapinit, trapinithart, plicinit, plicinithart, cache_init.
  do 3 (apply bk_bind; [bk|intros _]). apply bk_bind; [apply bk_procinit|]. intros _.
  repeat (apply bk_bind; [by bk|intros ?]).
  eapply bt_bind; [apply bt_virtio_disk_init|]. intros []. apply bt_userinit.
Qed.
End boot.

(** * From reset to the running kernel *)

Section machine.
Context {U : Type} `{!UserMem U}.
Context (kend etext trampoline uservec usertrap_addr kernelvec_addr : Z).
Context (junk : Z -> Z) (pad junkname stk : bytes).
Context (dev_rd dev_wr : Z -> option (Z -> Z -> K U Z)).
Context (work : nat -> nat -> option (Z * Z * bool)).
Local Abbreviation kentry := (kentry kend trampoline uservec usertrap_addr kernelvec_addr junk pad junkname stk dev_rd dev_wr work).
Local Abbreviation kstep := (kstep kend trampoline uservec usertrap_addr kernelvec_addr junk pad junkname stk dev_rd dev_wr work).
Local Abbreviation dev_reached := (dev_reached kend etext trampoline uservec usertrap_addr kernelvec_addr junk pad junkname stk dev_rd dev_wr work).
Local Abbreviation booted := (booted kend etext trampoline uservec usertrap_addr kernelvec_addr junk pad junkname stk dev_rd dev_wr work).
Local Abbreviation main := (main kend etext trampoline kernelvec_addr junkname).
Local Abbreviation hart_waiting := (hart_waiting kend etext trampoline kernelvec_addr junkname).

(** The machine when [start] has jumped to [main] on every CPU: static data is
    zero, interrupts are off. *)
Record reset (m : @mach U) : Prop := {
  reset_halt : m_halt m = None;
  reset_cur c : m_cur m c = KSched c;
  reset_ctx c : m_ctx m (KSched c) = main;
  reset_none i : m_ctx m (KProc i) = TRet tt;
  reset_lock l : s_lk (m_st m) l = Spinlock false None;
  reset_cpu c : s_cpu (m_st m) c = Cpu None 0 false;
  reset_sie c : s_sie (m_st m) c = false;
  reset_proc i : p_state (s_proc (m_st m) i) = UNUSED;
  reset_started : g_started (s_glob (m_st m)) = false;
  reset_cons : con_r (g_cons (s_glob (m_st m))) = 0 /\ con_w (g_cons (s_glob (m_st m))) = 0 /\ con_e (g_cons (s_glob (m_st m))) = 0;
  reset_uart : tx_w (g_uart (s_glob (m_st m))) = 0 /\ tx_r (g_uart (s_glob (m_st m))) = 0;
}.

(** The state CPU 0 hands to the others. *)
Definition ready (s : gst U) (C : gset nat) : Prop :=
  (forall l, s_lk s l = Spinlock false None) /\
  (forall c, c_proc (s_cpu s c) = None /\ c_noff (s_cpu s c) = 0) /\
  (forall c, s_sie s c = false) /\ (forall i, slot_ok (s_proc s i) i C) /\ fresh (s_glob s).

Lemma swp_main s : bst [] 0 None (false, ∅) s ∅ -> swp ready main (fun _ _ _ => False) (fun m => m = scheduler) s ∅.
Proof.
  intros B. apply swp_bind, (bt_tp ready [] 0 None (false, ∅)); [done|]. clear s B. intros c s C [-> B]. cbn [Nat.eqb].
  apply swp_bind, swp_bind, bt_boot; [done|]. clear s C B. intros [] s C B.
  split; [by eapply bst_alone|]. intros o. cbn [KThread.exec]. simpl g_started. cbn iota.
  destruct B as [B1 B2 (Ba & Bb & Bc) B4 B5 B6 B7 B8]. split.
  - split; [intros l; simpl; by rewrite B1, decide_False by set_solver|]. split; [|split; [done|split; [done|]]].
    + intros c. simpl. destruct (decide (c = 0%nat)) as [->|Hc]; [by rewrite B2|by rewrite Bb].
    + split; simpl; [done|done|]. intros i. by apply B7.
  - reflexivity.
Qed.

(** CPU 0 is booting and the others wait. *)
Record booting (m : @mach U) (C : gset nat) : Prop := {
  bo_halt : m_halt m = None;
  bo_cur c : m_cur m c = KSched c;
  bo_wait c : c <> 0%nat -> hart_waiting (m_ctx m (KSched c));
  bo_proc i : m_ctx m (KProc i) = if decide (i ∈ C) then kentry else TRet tt;
  bo_alone : alone (m_st m);
  bo_swp : swp ready (m_ctx m (KSched 0)) (fun _ _ _ => False) (fun m => m = scheduler) (m_st m) C;
}.

Lemma reset_booting m : reset m -> booting m ∅.
Proof.
  intros R. assert (B : bst [] 0 None (false, ∅) (m_st m) ∅).
  { split; try done; try apply R.
    - split; [apply R|]. split; [intros c _; apply R|apply R].
    - intros i. left. split; [apply R|set_solver]. }
  split.
  - apply R.
  - apply R.
  - intros c _. left. apply R.
  - intros i. rewrite decide_False by set_solver. apply R.
  - apply (b_alone _ _ _ _ _ _ B).
  - rewrite (reset_ctx _ R). by apply swp_main.
Qed.

(** The outcome of the boot so far. *)
Definition boot_state (m : @mach U) : Prop :=
  (exists C, booting m C) \/ (exists h, m_halt m = Some h /\ boot_halts h) \/ (m_halt m = None /\ booted m /\ fresh (s_glob (m_st m))).

(** A CPU that waits stays there and changes nothing. *)
Lemma waiting_step o c (m : @mach U) : c <> 0%nat -> m_cur m c = KSched c -> hart_waiting (m_ctx m (KSched c)) ->
  g_started (s_glob (m_st m)) = false ->
  exists n, mexec kentry o c m = Mach (m_st m) (m_cur m) (<[KSched c := n]> (m_ctx m)) (m_halt m) /\ hart_waiting n.
Proof.
  intros Hc Hcur Hw Hs. unfold mexec. rewrite Hcur. destruct Hw as [->|[->| ->]].
  - eexists. split; [reflexivity|]. right. left. by destruct c.
  - eexists. split; [reflexivity|]. right. right. done.
  - eexists. split; [reflexivity|]. right. left. simpl. by rewrite Hs.
Qed.

Lemma booting_exec o c m C : booting m C -> boot_state (mexec kentry o c m).
Proof.
  intros Hb0. pose proof Hb0 as [Hh Hcur Hw Hp Ha Hswp]. destruct (decide (c = 0%nat)) as [->|Hc].
  2: { left. exists C. destruct Ha as (Ha & Hb & Hst). destruct (waiting_step o c m Hc (Hcur c) (Hw c Hc) Hst) as (n & -> & Hn).
    split; simpl; try done.
    - intros d Hd. destruct (decide (c = d)) as [<-|]; [by rewrite fn_lookup_insert|].
      rewrite fn_lookup_insert_ne by congruence. by apply Hw.
    - rewrite fn_lookup_insert_ne by congruence. done. }
  unfold mexec. rewrite Hcur. destruct (m_ctx m (KSched 0)) as [a|X e k|I R body i k] eqn:E; [done| |].
  2: { left. exists C. split; simpl; try done.
    - intros d Hd. rewrite fn_lookup_insert_ne by congruence. by apply Hw.
    - rewrite fn_lookup_insert. by apply swp_unfold. }
  destruct Hswp as [_ Hswp]. specialize (Hswp o).
  destruct (KThread.exec o 0 e (m_st m)) as [x s'|from to x|i x| |h] eqn:Ex; try done.
  - destruct (g_started (s_glob s')) eqn:Es.
    + destruct Hswp as [(R1 & R2 & R3 & R4 & R5) ->]. right. right. split; [done|]. split; [|done].
      split; simpl; try done.
      * intros c. destruct (decide (c = 0%nat)) as [->|Hc]; [left; by rewrite fn_lookup_insert|right].
        rewrite fn_lookup_insert_ne by congruence. auto.
      * intros i. rewrite fn_lookup_insert_ne by done. rewrite Hp. destruct (R4 i) as [[HU Hi]|[HR Hi]].
        -- left. by rewrite decide_False.
        -- right. by rewrite decide_True.
    + left. exists C. split; simpl; try done.
      * intros d Hd. rewrite fn_lookup_insert_ne by congruence. by apply Hw.
      * by eapply swp_alone.
  - left. exists ({[i]} ∪ C). split; simpl; try done.
    + intros d Hd. rewrite !fn_lookup_insert_ne by congruence. by apply Hw.
    + intros j. rewrite fn_lookup_insert_ne by done. destruct (decide (i = j)) as [<-|].
      * rewrite fn_lookup_insert, decide_True by set_solver. done.
      * rewrite fn_lookup_insert_ne by congruence. rewrite Hp. destruct (decide (j ∈ C)), (decide (j ∈ {[i]} ∪ C)); set_solver.
  - left. by exists C.
  - right. left. by exists h.
Qed.

Lemma booting_step m m' C : booting m C -> kstep m m' -> boot_state m'.
Proof.
  intros B H. destruct H as [o c m Hh|c m Hh Hs]; [by eapply booting_exec|].
  destruct (bo_alone _ _ B) as [Ha _]. by rewrite Ha in Hs.
Qed.

(** The states before [started] is set, the halted ones, and those the running
    kernel reaches. *)
Definition boot_outcome (m : @mach U) : Prop :=
  (exists C, booting m C) \/ (exists h, m_halt m = Some h /\ boot_halts h) \/ dev_reached m.

Lemma boot_state_outcome m : boot_state m -> boot_outcome m.
Proof.
  intros [?|[?|(_ & B & F)]]; [by left|right; by left|]. right. right. exists m. split; [done|]. split; [done|apply rtc_refl].
Qed.

Lemma boot_outcome_step m m' : boot_outcome m -> kstep m m' -> boot_outcome m'.
Proof.
  intros [[C B]|[(h & Hh & _)|(m0 & B & F & H)]] Hs.
  - apply boot_state_outcome. by eapply booting_step.
  - destruct Hs; congruence.
  - right. right. exists m0. split; [done|]. split; [done|]. by eapply rtc_r.
Qed.

(** C12: from reset, with [main] on every CPU and any answers of the devices, the
    machine never stops in a panic of the locking discipline, and it is in one of
    three situations: CPU 0 initialises alone (each other CPU waits in its loop,
    interrupts are off everywhere and [started] is not set); the boot has halted;
    or [main] has set [started], and the state is one the theorems on the running
    kernel are about: it comes from one with the locks free, the rings empty, the
    disk descriptors free, and only CPUs that wait or schedule. *)
Theorem boot_safe (m0 m : @mach U) : reset m0 -> rtc kstep m0 m ->
  match m_halt m with Some (HPanic msg) => msg ∉ lock_panics | _ => True end /\
  (m_halt m = None /\ g_started (s_glob (m_st m)) = false /\ (forall c, s_sie (m_st m) c = false) /\
   (forall c, m_cur m c = KSched c) /\ (forall c, c <> 0%nat -> hart_waiting (m_ctx m (KSched c))) \/
   m_halt m <> None \/ dev_reached m).
Proof.
  intros R H. assert (B : boot_outcome m).
  { eapply (rtc_ind_r boot_outcome); [|intros; by eapply boot_outcome_step|exact H]. left. exists ∅. by apply reset_booting. }
  destruct B as [[C B]|[(h & -> & Hb)|D]].
  - destruct B as [Hh Hc Hw _ (Ha & _ & Hs) _]. rewrite Hh. split; [done|]. left. auto 10.
  - split; [done|]. right. by left.
  - split; [|by right; right]. destruct D as (m1 & B & _ & H1). eapply verified_no_lock_panic, reached_verified. exists m1. by split.
Qed.
End machine.

(** * A machine *)

Section demo.
Local Abbreviation US := (list bytes).

(** The machine at reset, without processes. *)
Definition reset_mach : @mach US :=
  Mach (Gst (fun _ => Spinlock false None) (fun _ => Cpu None 0 false) (fun _ => false)
            (fun i => demo_proc UNUSED) (set_g_started false demo_glob))
    KSched (fun t => match t with KSched _ => main 0 0 0 0 [] | _ => TRet tt end) None.

Lemma reset_mach_ok : reset 0 0 0 0 [] reset_mach.
Proof. by constructor. Qed.

(** The serial line is ready to send. *)
Definition ready_oracle : oracle := Oracle 32 (fun _ => 0).
(** [n] accesses of CPU [c]. *)
Fixpoint run_boot (c n : nat) (m : @mach US) : @mach US :=
  match n, m_halt m with
  | S n, None => run_boot c n (mexec demo_entry ready_oracle c m)
  | _, _ => m
  end.
Lemma run_boot_steps c n m :
  rtc (kstep 0 0 0 0 0 (fun _ => 0) [] [] [] (fun _ => None) (fun _ => None) (fun _ _ => None)) m (run_boot c n m).
Proof.
  revert m. induction n as [|n IH]; intros m; simpl; destruct (m_halt m) eqn:E; try apply rtc_refl.
  eapply rtc_l; [by apply mstep_exec|]. apply IH.
Qed.

(** CPU 1 polls while CPU 0 initialises the console and prints. *)
Definition halfway : @mach US := run_boot 0 150 (run_boot 1 5 reset_mach).
Lemma boot_safe_witness :
  match m_halt halfway with Some (HPanic msg) => msg ∉ lock_panics | _ => True end /\
  (forall c, m_cur halfway c = KSched c).
Proof.
  destruct (boot_safe 0 0 0 0 0 0 (fun _ => 0) [] [] [] (fun _ => None) (fun _ => None) (fun _ _ => None) reset_mach halfway
              reset_mach_ok (transitivity (run_boot_steps 1 5 _) (run_boot_steps 0 150 _)))
    as [H1 [(_ & _ & _ & H2 & _)|[H2|H2]]]; [by split|..].
  - exfalso. apply H2. vm_compute. reflexivity.
  - split; [done|]. intros c. vm_compute. reflexivity.
Defined.
End demo.
