(* ===== verification/Umalloc.v ===== *)
(** The user-level allocator, user/umalloc.c, on the [sbrk] of the kernel.

    User memory is a function from addresses to bytes; a [Header] is 16 bytes,
    its [ptr] 8 bytes and its [size] 4 bytes at offset 8, so that the free list
    is threaded through the heap as in the code.  The specification is a sorted
    list of free blocks and a map of allocated ones that tile the heap. *)

From S2P Require Import Prelude CString Kalloc.
From stdpp Require Import gmap fin_maps sorting.
From Stdlib Require Import Sorted.
Local Open Scope Z_scope.

(** * Code *)

(** Little-endian integers of [k] bytes; [loadn 8] is [load64]. *)
Definition loadn (k : nat) (m : mem) (a : Z) : Z := le_val ((fun i => m (a + i)) <$> seqZ 0 (Z.of_nat k)).
Definition storen (k : nat) (m : mem) (a v : Z) : mem := fun x =>
  if decide (a <= x < a + Z.of_nat k) then byte_at (le_bytes k v) (x - a) else m x.

Definition HEADER : Z := 16.
(** [p->s.ptr] and [p->s.size]. *)
Definition h_ptr (m : mem) (p : Z) : Z := loadn 8 m p.
Definition h_size (m : mem) (p : Z) : Z := loadn 4 m (p + 8).
Definition set_h_ptr (p v : Z) (m : mem) : mem := storen 8 m p v.
Definition set_h_size (p v : Z) (m : mem) : mem := storen 4 m (p + 8) v.

(** The memory of a process, [freep], the size of the process and the size up to
    which the kernel lets it grow. *)
Record ustate := UState { u_mem : mem; u_freep : Z; u_brk : Z; u_limit : Z }.
Definition set_u_mem (m : mem) (s : ustate) : ustate := UState m (u_freep s) (u_brk s) (u_limit s).
Definition set_u_freep (p : Z) (s : ustate) : ustate := UState (u_mem s) p (u_brk s) (u_limit s).

Section code.
(** The address of [static Header base]. *)
Variable base : Z.

(** [sbrk(n)]: the size before the call, or -1 when the kernel refuses.  New
    pages are zero; shrinking below zero does nothing. *)
Definition sbrk (n : Z) (s : ustate) : Z * ustate :=
  let sz := u_brk s in
  if n >? 0 then
    if sz + n <=? u_limit s then
      (sz, UState (fun a => if decide (PGROUNDUP sz <= a < PGROUNDUP (sz + n)) then 0 else u_mem s a)
             (u_freep s) (sz + n) (u_limit s))
    else (-1, s)
  else (sz, UState (u_mem s) (u_freep s) (if u64 (sz + n) >=? sz then sz else u64 (sz + n)) (u_limit s)).

(** The search of [free] for the block before [bp]. *)
Fixpoint free_loop (fuel : nat) (m : mem) (bp p : Z) : outcome Z :=
  match fuel with
  | O => OutOfFuel
  | S fuel =>
      let next := h_ptr m p in
      if (bp >? p) && (bp <? next) then Done p
      else if (p >=? next) && ((bp >? p) || (bp <? next)) then Done p
      else free_loop fuel m bp next
  end.

(** A ring of blocks in a heap of this size is no longer than this. *)
Definition heap_fuel (s : ustate) : nat := S (S (Z.to_nat (u_brk s / HEADER))).

(** [if(bp + bp->s.size == p->s.ptr)] ... *)
Definition free_join_next (bp p : Z) (m : mem) : mem :=
  if u64 (bp + HEADER * h_size m bp) =? h_ptr m p then
    let m := set_h_size bp (u32 (h_size m bp + h_size m (h_ptr m p))) m in
    set_h_ptr bp (h_ptr m (h_ptr m p)) m
  else set_h_ptr bp (h_ptr m p) m.
(** [if(p + p->s.size == bp)] ... *)
Definition free_join_prev (bp p : Z) (m : mem) : mem :=
  if u64 (p + HEADER * h_size m p) =? bp then
    let m := set_h_size p (u32 (h_size m p + h_size m bp)) m in
    set_h_ptr p (h_ptr m bp) m
  else set_h_ptr p bp m.

Definition free (ap : Z) (s : ustate) : outcome ustate :=
  let bp := ap - HEADER in
  p ← free_loop (heap_fuel s) (u_mem s) bp (u_freep s);
  let m := free_join_next bp p (u_mem s) in
  let m := free_join_prev bp p m in
  Done (set_u_freep p (set_u_mem m s)).

Definition morecore (nu : Z) (s : ustate) : outcome (Z * ustate) :=
  let nu := if nu <? 4096 then 4096 else nu in
  let '(p, s) := sbrk (i32 (nu * HEADER)) s in
  if p =? -1 then Done (0, s) else
  let s := set_u_mem (set_h_size p nu (u_mem s)) s in
  s ← free (p + HEADER) s;
  Done (u_freep s, s).

(** Taking [nunits] units from the block [p] after [prevp]. *)
Definition take_units (nunits prevp p : Z) (s : ustate) : Z * ustate :=
  let m := u_mem s in
  if h_size m p =? nunits then
    (p + HEADER, set_u_freep prevp (set_u_mem (set_h_ptr prevp (h_ptr m p) m) s))
  else
    let sz := u32 (h_size m p - nunits) in
    let m := set_h_size p sz m in
    let q := p + HEADER * sz in
    (q + HEADER, set_u_freep prevp (set_u_mem (set_h_size q nunits m) s)).

Fixpoint malloc_loop (fuel : nat) (nunits prevp p : Z) (s : ustate) : outcome (Z * ustate) :=
  match fuel with
  | O => OutOfFuel
  | S fuel =>
      if h_size (u_mem s) p >=? nunits then Done (take_units nunits prevp p s)
      else if p =? u_freep s then
        '(p, s) ← morecore nunits s;
        if p =? 0 then Done (0, s)
        else malloc_loop fuel nunits p (h_ptr (u_mem s) p) s
      else malloc_loop fuel nunits p (h_ptr (u_mem s) p) s
  end.

(** Enough for one turn of the ring before [morecore] and one after it. *)
Definition malloc_fuel (s : ustate) : nat := 4 + heap_fuel s + heap_fuel s.

Definition malloc (nbytes : Z) (s : ustate) : outcome (Z * ustate) :=
  let nunits := u32 ((nbytes + HEADER - 1) / HEADER + 1) in
  let s :=
    if u_freep s =? 0 then
      set_u_freep base (set_u_mem (set_h_size base 0 (set_h_ptr base base (u_mem s))) s)
    else s in
  malloc_loop (malloc_fuel s) nunits (u_freep s) (h_ptr (u_mem s) (u_freep s)) s.
End code.

(** * Headers in memory *)

Lemma loadn_storen k m a v : 0 <= v < 2 ^ (8 * Z.of_nat k) -> loadn k (storen k m a v) a = v.
Proof.
  intros Hv. unfold loadn.
  assert (E : (fun i => storen k m a v (a + i)) <$> seqZ 0 (Z.of_nat k) = le_bytes k v).
  { apply list_eq. intros i. rewrite list_lookup_fmap. destruct (decide (i < k)%nat).
    - rewrite lookup_seqZ_lt by lia. cbn [fmap option_fmap option_map]. unfold storen.
      rewrite decide_True by lia. unfold byte_at. replace (Z.to_nat (a + (0 + Z.of_nat i) - a)) with i by lia.
      symmetry. apply list_lookup_lookup_total_lt. rewrite length_le_bytes. lia.
    - rewrite lookup_seqZ_ge by lia. symmetry. apply lookup_ge_None_2. rewrite length_le_bytes. lia. }
  rewrite E, le_val_bytes. by apply Z.mod_small.
Qed.

Lemma loadn_ext k m m' a : (forall x, a <= x < a + Z.of_nat k -> m' x = m x) -> loadn k m' a = loadn k m a.
Proof.
  intros H. unfold loadn. f_equal. apply list_fmap_ext. intros i x Hx.
  apply lookup_seqZ in Hx. apply H. lia.
Qed.

Lemma storen_out k m a v x : ~ (a <= x < a + Z.of_nat k) -> storen k m a v x = m x.
Proof. intros. unfold storen. by rewrite decide_False. Qed.

(** Two headers do not overlap. *)
Definition sep (p q : Z) : Prop := p + HEADER <= q \/ q + HEADER <= p.

Ltac hlia := unfold sep, HEADER in *; lia.

Lemma ptr_set_ptr p v m : 0 <= v < 2 ^ 64 -> h_ptr (set_h_ptr p v m) p = v.
Proof. intros. by apply loadn_storen. Qed.
Lemma size_set_size p v m : 0 <= v < 2 ^ 32 -> h_size (set_h_size p v m) p = v.
Proof. intros. by apply loadn_storen. Qed.
Lemma ptr_set_size p v m : h_ptr (set_h_size p v m) p = h_ptr m p.
Proof. apply loadn_ext. intros. apply storen_out. lia. Qed.
Lemma size_set_ptr p v m : h_size (set_h_ptr p v m) p = h_size m p.
Proof. apply loadn_ext. intros. apply storen_out. lia. Qed.

(** The header at [p] is the same in both memories. *)
Definition same_header (m m' : mem) (p : Z) : Prop := h_ptr m' p = h_ptr m p /\ h_size m' p = h_size m p.

Lemma same_header_bytes m m' p : (forall x, p <= x < p + HEADER -> m' x = m x) -> same_header m m' p.
Proof. intros H. split; apply loadn_ext; intros; apply H; hlia. Qed.

(** Bytes other than those of the header at [p] are unchanged. *)
Definition only_header (p : Z) (m m' : mem) : Prop := forall x, ~ (p <= x < p + HEADER) -> m' x = m x.

Lemma only_set_ptr p v m : only_header p m (set_h_ptr p v m).
Proof. intros x Hx. apply storen_out. hlia. Qed.
Lemma only_set_size p v m : only_header p m (set_h_size p v m).
Proof. intros x Hx. apply storen_out. hlia. Qed.
Lemma only_trans p m m' m'' : only_header p m m' -> only_header p m' m'' -> only_header p m m''.
Proof. intros H1 H2 x Hx. by rewrite H2, H1. Qed.
Lemma only_same p q m m' : only_header p m m' -> sep p q -> same_header m m' q.
Proof. intros H Hs. apply same_header_bytes. intros x Hx. apply H. hlia. Qed.
#[local] Hint Resolve only_set_ptr only_set_size only_trans : xv6.

(** * Specification *)

(** A block of the heap: the address of its header, and its size in units of
    [HEADER] bytes, the header included. *)
Abbreviation block := (Z * Z)%type (only parsing).
Definition bend (b : block) : Z := b.1 + HEADER * b.2.
Definition disj (b c : block) : Prop := bend b <= c.1 \/ bend c <= b.1.

Definition units (l : list block) : Z := foldr (fun b n => b.2 + n) 0 l.
Definition live_units (live : gmap Z Z) : Z := map_fold (fun _ n t => n + t) 0 live.

(** The address the last [ptr] before [l] holds, in a ring that closes at [e]. *)
Definition next_of (l : list block) (e : Z) : Z := match l with [] => e | b :: _ => b.1 end.

Fixpoint ring (m : mem) (l : list block) (e : Z) : Prop :=
  match l with
  | [] => True
  | b :: l => h_size m b.1 = b.2 /\ h_ptr m b.1 = next_of l e /\ ring m l e
  end.

(** Free blocks in increasing order above [lo], none touching the next. *)
Fixpoint gaps (lo : Z) (l : list block) : Prop :=
  match l with
  | [] => True
  | b :: l => lo < b.1 /\ 1 <= b.2 /\ gaps (bend b) l
  end.

Lemma next_of_app l l' e : next_of (l ++ l') e = next_of l (next_of l' e).
Proof. by destruct l. Qed.

Lemma ring_app m l l' e : ring m (l ++ l') e <-> ring m l (next_of l' e) /\ ring m l' e.
Proof.
  induction l as [|b l IH]; simpl; [tauto|]. rewrite IH, next_of_app. tauto.
Qed.

Lemma ring_same m m' l e : (forall b, b ∈ l -> same_header m m' b.1) -> ring m l e -> ring m' l e.
Proof.
  induction l as [|b l IH]; simpl; [done|]. intros H (H1 & H2 & H3).
  destruct (H b ltac:(set_solver)) as [Hp Hs]. rewrite Hp, Hs. split; [done|]. split; [done|].
  apply IH; [|done]. intros c Hc. apply H. set_solver.
Qed.

Lemma units_app l l' : units (l ++ l') = units l + units l'.
Proof. induction l as [|b l IH]; simpl; lia. Qed.

Lemma gaps_mono lo lo' l : lo' <= lo -> gaps lo l -> gaps lo' l.
Proof. destruct l; simpl; [done|]. intros ? (? & ? & ?). split; [lia|]. done. Qed.

Lemma gaps_elem lo l b : gaps lo l -> b ∈ l -> lo < b.1 /\ 1 <= b.2.
Proof.
  revert lo. induction l as [|c l IH]; simpl; intros lo H Hb; [set_solver|].
  destruct H as (H1 & H2 & H3). apply elem_of_cons in Hb as [->|Hb]; [lia|].
  destruct (IH _ H3 Hb). unfold bend, HEADER in *. lia.
Qed.

Lemma gaps_app lo l l' :
  gaps lo (l ++ l') <-> gaps lo l /\ gaps lo l' /\ forall b, b ∈ l -> gaps (bend b) l'.
Proof.
  revert lo. induction l as [|c l IH]; intros lo; simpl.
  { split; [|tauto]. intros H. split; [done|]. split; [done|]. intros b Hb%elem_of_nil. done. }
  rewrite IH. split.
  - intros (H1 & H2 & H3 & H4 & H5). split; [done|]. split.
    + eapply gaps_mono; [|done]. unfold bend, HEADER. lia.
    + intros b [->|Hb]%elem_of_cons; [done|by apply H5].
  - intros ((H1 & H2 & H3) & H4 & H5). split; [done|]. split; [done|]. split; [done|].
    split; [apply H5; set_solver|]. intros b Hb. apply H5. set_solver.
Qed.

Lemma gaps_units lo l : gaps lo l -> Z.of_nat (length l) <= units l.
Proof.
  revert lo. induction l as [|c l IH]; simpl; [lia|]. intros lo (H1 & H2 & H3).
  specialize (IH _ H3). lia.
Qed.

Section spec.
Variable base : Z.
(** Where the heap starts: the size of the process when [malloc] is first called. *)
Variable heap0 : Z.

(** The heap is tiled by the free blocks [l], in the order of their addresses
    and linked in a ring that starts at [base], and the allocated blocks [live]. *)
Record heap_ok (s : ustate) (l : list block) (live : gmap Z Z) : Prop := {
  hk_base : 0 < base /\ base + HEADER <= heap0;
  hk_start : heap0 mod HEADER = 0;
  hk_top : heap0 <= u_brk s < 2 ^ 32;
  hk_ring : ring (u_mem s) ((base, 0) :: l) base;
  hk_freep : u_freep s ∈ ((base, 0) :: l).*1;
  hk_gaps : gaps (heap0 - 1) l;
  hk_end : forall b, b ∈ l -> bend b <= u_brk s;
  hk_aligned : forall b, b ∈ l -> b.1 mod HEADER = 0;
  hk_live : forall a n, live !! a = Some n ->
    heap0 <= a /\ 1 <= n /\ bend (a, n) <= u_brk s /\ a mod HEADER = 0 /\ h_size (u_mem s) a = n;
  hk_live_live : forall a n a' n', live !! a = Some n -> live !! a' = Some n' -> a <> a' -> disj (a, n) (a', n');
  hk_live_free : forall a n b, live !! a = Some n -> b ∈ l -> disj (a, n) b;
  hk_tile : HEADER * (units l + live_units live) = u_brk s - heap0;
}.

(** Before the first call of [malloc]. *)
Definition heap_new (s : ustate) (live : gmap Z Z) : Prop :=
  u_freep s = 0 /\ live = ∅ /\ u_brk s = heap0 /\ 0 < base /\ base + HEADER <= heap0 < 2 ^ 32 /\ heap0 mod HEADER = 0.

Lemma live_units_insert live a n : live !! a = None -> live_units (<[a := n]> live) = n + live_units live.
Proof. intros. unfold live_units. apply map_fold_insert_L; [intros; lia|done]. Qed.

Lemma live_units_delete live a n : live !! a = Some n -> live_units live = n + live_units (delete a live).
Proof. intros. unfold live_units. apply (map_fold_delete_L (fun _ n t => n + t)); [intros; lia|done]. Qed.

Lemma live_units_nonneg live : (forall a n, live !! a = Some n -> 1 <= n) -> 0 <= live_units live.
Proof.
  induction live as [|a n live Ha IH] using map_ind; [done|]. intros H.
  rewrite live_units_insert by done. pose proof (H a n (lookup_insert_eq _ _ _)).
  assert (0 <= live_units live); [|lia]. apply IH. intros b k Hb. apply (H b).
  rewrite lookup_insert_ne; [done|congruence].
Qed.

(** The ring is no longer than [heap_fuel]. *)
Lemma ring_length s l live : heap_ok s l live -> (length l < heap_fuel s)%nat.
Proof.
  intros H. pose proof (gaps_units _ _ (hk_gaps _ _ _ H)). pose proof (hk_tile _ _ _ H).
  pose proof (live_units_nonneg live) as Hl. pose proof (hk_base _ _ _ H).
  assert (0 <= live_units live). { apply Hl. intros a n Ha. by apply (hk_live _ _ _ H) in Ha as (_ & ? & _). }
  unfold heap_fuel. assert (units l <= u_brk s / HEADER); [|lia].
  apply Z.div_le_lower_bound; hlia.
Qed.

(** ** The search for the block before [bp] *)

(** Free blocks on both sides of a block that overlaps none. *)
Lemma gaps_split lo l c : gaps lo l -> 1 <= c.2 -> (forall b, b ∈ l -> disj c b) ->
  exists l1 l2, l = l1 ++ l2 /\ (forall b, b ∈ l1 -> bend b <= c.1) /\ (forall b, b ∈ l2 -> bend c <= b.1).
Proof.
  revert lo. induction l as [|b l IH]; simpl; intros lo Hg Hc Hd.
  { exists [], []. split; [done|]. split; intros b Hb%elem_of_nil; done. }
  destruct Hg as (H1 & H2 & H3). destruct (Hd b ltac:(set_solver)) as [Hb|Hb].
  - exists [], (b :: l). split; [done|]. split; [intros b' Hb'%elem_of_nil; done|].
    intros b' [->|Hb']%elem_of_cons; [done|]. pose proof (gaps_elem _ _ _ H3 Hb'). unfold bend in *. hlia.
  - destruct (IH _ H3 Hc) as (l1 & l2 & -> & Ha & Hz); [intros; apply Hd; set_solver|].
    exists (b :: l1), l2. split; [done|]. split; [|done].
    intros b' [->|Hb']%elem_of_cons; [done|by apply Ha].
Qed.

(** The search walks past blocks that do not enclose [bp]. *)
Lemma free_loop_skip m bp l e p fuel :
  ring m l e -> next_of l e = p ->
  (forall b n, b ∈ l -> n = h_ptr m b.1 -> (b.1 < n /\ (n < bp \/ bp <= b.1)) \/ (n <= bp <= b.1)) ->
  free_loop (length l + fuel) m bp p = free_loop fuel m bp e.
Proof.
  revert p. induction l as [|b l IH]; simpl; intros p Hr Hp Hs; [by subst|].
  destruct Hr as (_ & Hn & Hr). subst p.
  destruct (Hs b (h_ptr m b.1) ltac:(set_solver) eq_refl) as [[H1 H2]|H1].
  - destruct (Z.gtb_spec bp b.1), (Z.ltb_spec bp (h_ptr m b.1)); try lia; simpl;
      (rewrite Z.geb_leb, (proj2 (Z.leb_gt _ _)) by lia); simpl;
      apply IH; auto; intros; apply Hs; set_solver.
  - rewrite Z.gtb_ltb, (proj2 (Z.ltb_ge _ _)), (proj2 (Z.ltb_ge bp _)) by lia.
    simpl. rewrite andb_false_r. apply IH; auto; intros; apply Hs; set_solver.
Qed.

(** Blocks in the order of their addresses. *)
Abbreviation incr := (StronglySorted (fun b c : block => b.1 < c.1)).

Lemma gaps_incr lo l : gaps lo l -> incr l.
Proof.
  revert lo. induction l as [|b l IH]; simpl; intros lo; [constructor|]. intros (H1 & H2 & H3).
  constructor; [by eapply IH|]. apply Forall_forall. intros c Hc.
  pose proof (gaps_elem _ _ _ H3 Hc). unfold bend in *. hlia.
Qed.

Lemma ring_next m l c e b :
  incr (l ++ [c]) -> ring m (l ++ [c]) e -> b ∈ l -> b.1 < h_ptr m b.1 <= c.1.
Proof.
  induction l as [|d l IH]; simpl; intros Hi Hr Hb; [set_solver|].
  apply StronglySorted_inv in Hi as [Hi Hd]. destruct Hr as (_ & Hn & Hr).
  apply elem_of_cons in Hb as [->|Hb]; [|by apply IH].
  rewrite Hn. rewrite Forall_forall in Hd. destruct l as [|f l]; simpl in *.
  - split; [apply Hd; set_solver|lia].
  - split; [apply Hd; set_solver|]. apply StronglySorted_inv in Hi as [_ Hf].
    rewrite Forall_forall in Hf. apply Z.lt_le_incl, Hf. set_solver.
Qed.

Lemma ring_at (l : list block) e x : x ∈ l.*1 -> exists la lb, l = la ++ lb /\ next_of lb e = x.
Proof.
  intros (b & -> & Hb)%list_elem_of_fmap. apply list_elem_of_split in Hb as (la & lb & ->).
  by exists la, (b :: lb).
Qed.

(** Wherever [freep] points, the search ends at the block before [bp]. *)
Lemma free_loop_finds s l live l1 l2 L p bp :
  heap_ok s l live -> l = l1 ++ l2 -> (base, 0) :: l1 = L ++ [p] ->
  p.1 < bp -> (forall b, b ∈ l2 -> bp < b.1) ->
  free_loop (heap_fuel s) (u_mem s) bp (u_freep s) = Done p.1.
Proof.
  intros Hk -> HL Hp H2. set (m := u_mem s). pose proof (hk_ring _ _ _ Hk) as Hr. fold m in Hr.
  pose proof (hk_freep _ _ _ Hk) as Hf. pose proof (ring_length _ _ _ Hk) as Hfu.
  pose proof (hk_base _ _ _ Hk) as Hb.
  rewrite app_comm_cons, HL in Hr, Hf. apply ring_app in Hr as [Hr1 Hr2].
  assert (Hi1 : incr (L ++ [p])).
  { rewrite <- HL. pose proof (hk_gaps _ _ _ Hk) as Hg. apply gaps_app in Hg as (Hg & _ & _).
    constructor; [by eapply gaps_incr|]. apply Forall_forall. intros c Hc.
    pose proof (gaps_elem _ _ _ Hg Hc). simpl. hlia. }
  assert (Hi2 : incr l2).
  { pose proof (hk_gaps _ _ _ Hk) as Hg. apply gaps_app in Hg as (_ & Hg & _). by eapply gaps_incr. }
  assert (Hpb : base <= p.1).
  { destruct L as [|d L]; simplify_eq/=; [done|]. apply StronglySorted_inv in Hi1 as [_ Hi1].
    rewrite Forall_forall in Hi1. apply Z.lt_le_incl. apply (Hi1 p). set_solver. }
  assert (Hlen : length L = length l1).
  { apply (f_equal length) in HL. rewrite length_app in HL. simpl in HL. lia. }
  assert (Hstop : forall fuel, free_loop (S fuel) m bp p.1 = Done p.1).
  { intros fuel. simpl. apply ring_app in Hr1 as [_ (_ & Hn & _)]. simpl in Hn. rewrite Hn.
    rewrite Z.gtb_ltb, (proj2 (Z.ltb_lt _ _)) by done. simpl. destruct l2 as [|c l2]; simpl in *.
    - destruct (bp <? base); [done|]. by rewrite Z.geb_leb, (proj2 (Z.leb_le _ _)).
    - by rewrite (proj2 (Z.ltb_lt _ _)) by (apply H2; set_solver). }
  assert (Hskip : forall La Lb fuel, L = La ++ Lb -> free_loop (length Lb + S fuel) m bp (next_of Lb p.1) = Done p.1).
  { intros La Lb fuel ->. rewrite (free_loop_skip _ _ _ p.1); [by apply Hstop| |done|].
    - rewrite <- app_assoc in Hr1. apply ring_app in Hr1 as [_ Hr1]. apply ring_app in Hr1 as [Hr1 _]. done.
    - intros b n Hin ->. left. destruct (ring_next _ _ _ _ b Hi1 Hr1) as [? ?]; [set_solver|]. lia. }
  rewrite length_app in Hfu. rewrite fmap_app, elem_of_app in Hf. destruct Hf as [Hf|Hf].
  - apply (ring_at _ p.1) in Hf as (La & Lb & E & Ef).
    destruct (decide (u_freep s = p.1)) as [->|Hne].
    { destruct (heap_fuel s) eqn:?; [lia|]. apply Hstop. }
    assert (exists Lb', Lb = Lb' ++ [p] /\ L = La ++ Lb') as (Lb' & -> & EL).
    { destruct Lb as [|x Lb _] using rev_ind; [by simpl in Ef|].
      rewrite app_assoc in E. apply app_inj_tail in E as [-> ->]. by exists Lb. }
    rewrite next_of_app in Ef. simpl in Ef. rewrite <- Ef.
    replace (heap_fuel s) with (length Lb' + S (heap_fuel s - S (length Lb')))%nat.
    + by apply (Hskip La).
    + apply (f_equal length) in EL. rewrite length_app in EL. lia.
  - apply (ring_at _ base) in Hf as (La & Lb & -> & Ef). rewrite <- Ef.
    assert (Hw : forall fuel, free_loop (length Lb + fuel) m bp (next_of Lb base) = free_loop fuel m bp base).
    { intros fuel. apply ring_app in Hr2 as [_ Hr2]. apply (free_loop_skip _ _ Lb base); [done|done|].
      intros b n Hin ->. assert (bp < b.1) by (apply H2; set_solver).
      apply StronglySorted_app_1_r in Hi2. destruct Lb as [|x Lb _] using rev_ind; [set_solver|].
      apply elem_of_app in Hin as [Hin|Hin].
      + left. pose proof (ring_next _ _ _ _ b Hi2 Hr2 Hin). lia.
      + apply list_elem_of_singleton in Hin as ->. right. apply ring_app in Hr2 as [_ (_ & -> & _)]. simpl. lia. }
    rewrite length_app in Hfu.
    replace (heap_fuel s) with (length Lb + (length L + S (heap_fuel s - S (length Lb + length L))))%nat by lia.
    rewrite Hw. replace base with (next_of L p.1); [by apply (Hskip [])|].
    destruct L; simplify_eq/=; done.
Qed.
(** ** Joining a freed block with its neighbours *)

Lemma disj_join x a n k :
  disj x (a, n) -> disj x (a + HEADER * n, k) -> 1 <= n -> 1 <= k -> 1 <= x.2 -> disj x (a, n + k).
Proof. unfold disj, bend. simpl. hlia. Qed.

(** The free block [c] between the free blocks [l1] and [l2], which it may touch. *)
Record parts (brk : Z) (live : gmap Z Z) (l1 : list block) (c : block) (l2 : list block) : Prop := {
  pt_l1 : gaps (heap0 - 1) l1;
  pt_lt1 : forall b, b ∈ l1 -> bend b <= c.1;
  pt_l2 : gaps c.1 l2;
  pt_lt2 : forall b, b ∈ l2 -> bend c <= b.1;
  pt_c : heap0 <= c.1 /\ 1 <= c.2;
  pt_all : forall b, b ∈ l1 ++ c :: l2 ->
    bend b <= brk /\ b.1 mod HEADER = 0 /\ forall a n, live !! a = Some n -> disj (a, n) b;
  pt_live : forall a n, live !! a = Some n -> 1 <= n;
  pt_units : HEADER * (units l1 + c.2 + units l2 + live_units live) = brk - heap0;
}.

Lemma parts_next brk live l1 c k l2 :
  parts brk live l1 c ((bend c, k) :: l2) ->
  parts brk live l1 (c.1, c.2 + k) l2 /\ gaps (bend (c.1, c.2 + k)) l2.
Proof.
  intros [H1 H2 H3 H4 H5 H6 Hl H7]. simpl in H3. destruct H3 as (Ha & Hk & Hg).
  assert (Hg' : gaps (bend (c.1, c.2 + k)) l2).
  { eapply gaps_mono; [|done]. unfold bend. simpl. hlia. }
  split; [|done]. split; simpl in *; try done.
  - eapply gaps_mono; [|done]. unfold bend. simpl. hlia.
  - intros b Hb. pose proof (gaps_elem _ _ _ Hg' Hb). lia.
  - lia.
  - intros b [Hb|[->|Hb]%elem_of_cons]%elem_of_app; [apply H6; set_solver| |apply H6; set_solver].
    destruct (H6 c ltac:(set_solver)) as (_ & Hm & Hd). destruct (H6 (bend c, k) ltac:(set_solver)) as (He & _ & Hd').
    split; [unfold bend in *; simpl in *; hlia|]. split; [done|]. intros a n Ha'.
    apply disj_join; [by destruct c; apply Hd|by apply Hd'|lia|done|by apply Hl in Ha'].
  - lia.
Qed.

Lemma parts_prev brk live l1 p c l2 :
  parts brk live (l1 ++ [p]) c l2 -> bend p = c.1 -> gaps (bend c) l2 ->
  parts brk live l1 (p.1, p.2 + c.2) l2 /\ gaps (bend (p.1, p.2 + c.2)) l2 /\ forall b, b ∈ l1 -> bend b < p.1.
Proof.
  intros [H1 H2 H3 H4 H5 H6 Hl H7] Hp Hg. apply gaps_app in H1 as (Hg1 & Hg2 & Hg3). simpl in Hg2.
  assert (Hg' : gaps (bend (p.1, p.2 + c.2)) l2).
  { eapply gaps_mono; [|done]. unfold bend in *. simpl. hlia. }
  assert (Hlt : forall b, b ∈ l1 -> bend b < p.1). { intros b Hb. by apply Hg3 in Hb as (? & _). }
  split; [|done]. rewrite units_app in H7. simpl in H7. split; simpl; try done.
  - intros b Hb. apply Hlt in Hb. lia.
  - eapply gaps_mono; [|done]. unfold bend. simpl. hlia.
  - intros b Hb. pose proof (gaps_elem _ _ _ Hg' Hb). lia.
  - lia.
  - intros b [Hb|[->|Hb]%elem_of_cons]%elem_of_app; [apply H6; set_solver| |apply H6; set_solver].
    destruct (H6 p ltac:(set_solver)) as (_ & Hm & Hd). destruct (H6 c ltac:(set_solver)) as (He & _ & Hd').
    split; [unfold bend in *; simpl in *; hlia|]. split; [done|]. intros a n Ha'. apply disj_join.
    + destruct p; by apply Hd.
    + change (disj (a, n) (bend p, c.2)). rewrite Hp. destruct c; by apply Hd'.
    + lia.
    + lia.
    + by apply Hl in Ha'.
  - lia.
Qed.

(** [free] of the first join: [bp] becomes the head of the blocks after it. *)
Lemma join_next_ok m brk live l1 bp n l2 p :
  parts brk live l1 (bp, n) l2 -> brk < 2 ^ 32 -> 0 < base -> base + HEADER <= heap0 ->
  ring m l2 base -> h_size m bp = n -> h_ptr m p = next_of l2 base -> sep bp p ->
  exists n' l2', parts brk live l1 (bp, n') l2' /\ gaps (bend (bp, n')) l2' /\ n <= n' /\ (length l2' <= length l2)%nat /\
    ring (free_join_next bp p m) ((bp, n') :: l2') base /\ only_header bp m (free_join_next bp p m).
Proof.
  intros Hpt Hbrk Hb0 Hb Hr Hn Hp Hpp. unfold free_join_next. rewrite Hn, Hp.
  pose proof (pt_c _ _ _ _ _ Hpt) as [Hc Hc']. simpl in Hc, Hc'.
  destruct (pt_all _ _ _ _ _ Hpt (bp, n) ltac:(set_solver)) as (He & _ & _). unfold bend in He; simpl in He.
  rewrite u64_small by hlia. destruct l2 as [|[a k] l2].
  - simpl. rewrite (proj2 (Z.eqb_neq _ _)) by hlia. exists n, []. split; [done|]. split; [done|]. split; [lia|]. split; [done|].
    split; [|auto with xv6]. simpl. split; [by rewrite size_set_ptr|]. split; [|done]. rewrite ptr_set_ptr; hlia.
  - simpl. simpl in Hr. destruct Hr as (Hs & Hq & Hr).
    pose proof (pt_l2 _ _ _ _ _ Hpt) as Hg. simpl in Hg.
    pose proof (pt_lt2 _ _ _ _ _ Hpt (a, k) ltac:(set_solver)) as Hlt. unfold bend in Hlt; simpl in Hlt.
    destruct (pt_all _ _ _ _ _ Hpt (a, k) ltac:(set_solver)) as (Hea & _ & _). unfold bend in Hea; simpl in Hea.
    assert (Hne : next_of l2 base < 2 ^ 64 /\ 0 <= next_of l2 base).
    { destruct l2 as [|b l2]; simpl; [hlia|]. destruct (pt_all _ _ _ _ _ Hpt b ltac:(set_solver)) as (? & _ & _).
      simpl in Hg. unfold bend in *. simpl in *. hlia. }
    assert (Hsep : forall b, b ∈ l2 -> sep bp b.1).
    { intros b Hb'. destruct Hg as (_ & Hk & Hg). pose proof (gaps_elem _ _ _ Hg Hb') as [? _]. unfold bend in *. simpl in *. hlia. }
    destruct (Z.eqb_spec (bp + HEADER * n) a) as [Ea|Ea].
    + destruct (parts_next brk live l1 (bp, n) k l2) as [Hpt' Hg'].
      { unfold bend. simpl. by rewrite Ea. }
      exists (n + k), l2. split; [done|]. split; [done|]. split; [lia|]. split; [simpl; lia|].
      assert (So : same_header m (set_h_size bp (u32 (n + h_size m a)) m) a).
      { eapply only_same; [apply only_set_size|]. hlia. }
      destruct So as [So _]. rewrite Hs in *.
      destruct (only_same bp p m (set_h_size bp (u32 (n + k)) m)) as [Sp _]; [auto with xv6|done|].
      assert (Ho : only_header bp m (set_h_ptr bp (next_of l2 base) (set_h_size bp (u32 (n + k)) m))).
      { eauto using only_trans, only_set_ptr, only_set_size. }
      rewrite Sp, Hp. simpl. rewrite So, Hq.
      split; [|done]. simpl. rewrite size_set_ptr, size_set_size by (apply u32_range).
      rewrite u32_small by hlia. split; [done|]. split; [apply ptr_set_ptr; lia|].
      eapply ring_same; [|done]. intros b Hb'. eapply only_same; [eauto using only_trans, only_set_ptr, only_set_size|by apply Hsep].
    + exists n, ((a, k) :: l2). split; [done|]. split.
      { simpl. unfold bend; simpl. destruct Hg as (_ & ? & ?). split; [hlia|]. done. }
      split; [lia|]. split; [done|]. split; [|auto with xv6]. simpl. rewrite size_set_ptr, ptr_set_ptr by hlia.
      split; [done|]. split; [done|]. eapply (ring_same m _ ((a, k) :: l2)); [|done].
      intros b Hb'. eapply only_same; [apply only_set_ptr|].
      apply elem_of_cons in Hb' as [->|Hb']; [simpl; hlia|by apply Hsep].
Qed.
Lemma parts_gaps brk live l1 c l2 :
  parts brk live l1 c l2 -> gaps (bend c) l2 -> (forall b, b ∈ l1 -> bend b < c.1) ->
  gaps (heap0 - 1) (l1 ++ c :: l2).
Proof.
  intros Hpt Hg Hlt. pose proof (pt_c _ _ _ _ _ Hpt) as [? ?]. apply gaps_app. split; [apply Hpt|].
  split; [simpl; split; [lia|done]|]. intros b Hb. simpl. split; [by apply Hlt|done].
Qed.

(** A block of the ring before [bp]: the sentinel or a free block. *)
Lemma before_sep brk live l1 c l2 b :
  parts brk live l1 c l2 -> base + HEADER <= heap0 -> b ∈ (base, 0) :: l1 -> sep b.1 c.1 /\ b.1 < c.1.
Proof.
  intros Hpt Hb [->|Hin]%elem_of_cons; pose proof (pt_c _ _ _ _ _ Hpt); simpl; [hlia|].
  pose proof (pt_lt1 _ _ _ _ _ Hpt b Hin). pose proof (gaps_elem _ _ _ (pt_l1 _ _ _ _ _ Hpt) Hin).
  unfold bend in *. hlia.
Qed.

(** [free] of the second join closes the ring again. *)
Lemma join_prev_ok m brk live l1 L p e bp n l2 :
  parts brk live l1 (bp, n) l2 -> gaps (bend (bp, n)) l2 -> brk < 2 ^ 32 -> 0 < base -> base + HEADER <= heap0 ->
  (base, 0) :: l1 = L ++ [p] -> ring m (L ++ [p]) e -> ring m ((bp, n) :: l2) base ->
  exists l1' c, (length l1' <= length l1)%nat /\ parts brk live l1' c l2 /\ gaps (heap0 - 1) (l1' ++ c :: l2) /\ c.1 <= bp /\ bend (bp, n) <= bend c /\
    ring (free_join_prev bp p.1 m) ((base, 0) :: l1' ++ c :: l2) base /\
    p.1 ∈ ((base, 0) :: l1' ++ c :: l2).*1 /\ only_header p.1 m (free_join_prev bp p.1 m).
Proof.
  intros Hpt Hg Hbrk Hb0 Hb HL Hr1 Hr2. unfold free_join_prev.
  pose proof (pt_c _ _ _ _ _ Hpt) as [Hc Hc']. simpl in Hc, Hc'.
  destruct (pt_all _ _ _ _ _ Hpt (bp, n) ltac:(set_solver)) as (He & _ & _). unfold bend in He; simpl in He.
  destruct (before_sep _ _ _ _ _ p Hpt Hb) as [Hsp Hlp]; [rewrite HL; set_solver|]. simpl in Hsp, Hlp.
  apply ring_app in Hr1 as [HrL (Hs & Hq & _)]. simpl in HrL. destruct Hr2 as (Hsb & Hqb & Hr2). simpl in Hsb, Hqb.
  assert (HsL : forall b, b ∈ L -> sep p.1 b.1).
  { destruct L as [|d L]; [set_solver|]. simpl in HL. inversion HL; subst d l1. pose proof (pt_l1 _ _ _ _ _ Hpt) as Hg1.
    apply gaps_app in Hg1 as (Hg1 & Hg2 & Hg3). simpl in Hg2. intros b [->|Hin]%elem_of_cons; [simpl; hlia|].
    pose proof (gaps_elem _ _ _ Hg1 Hin). destruct (Hg3 b Hin) as [? _]. unfold bend in *. hlia. }
  assert (Hs2 : forall b, b ∈ l2 -> sep p.1 b.1).
  { intros b Hin. pose proof (pt_lt2 _ _ _ _ _ Hpt b Hin). unfold bend in *. simpl in *. hlia. }
  assert (Hpos : 0 < p.1).
  { destruct L as [|d L]; simplify_eq/=; [done|]. pose proof (pt_l1 _ _ _ _ _ Hpt) as Hg1.
    destruct (gaps_elem _ _ p Hg1) as [? _]; [set_solver|]. hlia. }
  assert (Hsz : 0 <= p.2 /\ p.1 + HEADER * p.2 <= bp).
  { assert (Hin : p ∈ (base, 0) :: l1) by (rewrite HL; set_solver). apply elem_of_cons in Hin as [->|Hin]; [simpl; hlia|].
    pose proof (pt_lt1 _ _ _ _ _ Hpt p Hin). pose proof (gaps_elem _ _ _ (pt_l1 _ _ _ _ _ Hpt) Hin). unfold bend in *. simpl in *. lia. }
  rewrite Hs, u64_small by hlia. destruct (Z.eqb_spec (p.1 + HEADER * p.2) bp) as [Ep|Ep].
  - destruct L as [|d L]; simpl in HL; [injection HL as <- ->; simpl in Ep; hlia|]. inversion HL; subst d l1.
    destruct (parts_prev _ _ _ _ _ _ Hpt Ep Hg) as (Hpt' & Hg' & Hlt). simpl in Hpt', Hg'.
    exists L, (p.1, p.2 + n). split; [rewrite length_app; lia|]. split; [done|]. split; [by eapply parts_gaps|]. split; [simpl; lia|].
    split; [unfold bend; simpl; hlia|]. cbn [fst snd].
    destruct (only_same p.1 bp m (set_h_size p.1 (u32 (p.2 + h_size m bp)) m)) as [So _]; [auto with xv6|done|].
    rewrite So, Hsb, Hqb in *. rewrite u32_small by hlia.
    set (m' := set_h_ptr p.1 (next_of l2 base) (set_h_size p.1 (p.2 + n) m)).
    assert (Ho : only_header p.1 m m') by (unfold m'; eauto using only_trans, only_set_ptr, only_set_size).
    split; [|split; [apply list_elem_of_fmap; exists (p.1, p.2 + n); set_solver|done]].
    change ((base, 0) :: L ++ (p.1, p.2 + n) :: l2) with (((base, 0) :: L) ++ (p.1, p.2 + n) :: l2).
    apply (ring_app _ ((base, 0) :: L)). split.
    + eapply ring_same; [|exact HrL]. intros b Hin. by eapply only_same; [exact Ho|apply HsL].
    + simpl. unfold m' at 1 2. rewrite size_set_ptr, size_set_size by hlia. split; [done|].
      split; [apply ptr_set_ptr|].
      * destruct l2 as [|b l2]; simpl; [hlia|]. destruct (pt_all _ _ _ _ _ Hpt b ltac:(set_solver)) as (? & _ & _).
        pose proof (gaps_elem _ _ b Hg ltac:(set_solver)). unfold bend in *. simpl in *. hlia.
      * eapply ring_same; [|exact Hr2]. intros b Hin. by eapply only_same; [exact Ho|apply Hs2].
  - exists l1, (bp, n). split; [done|]. split; [done|].
    assert (Hlt : forall b, b ∈ l1 -> bend b < bp).
    { intros b Hin. destruct L as [|d L]; simpl in HL; inversion HL; subst; [set_solver|].
      pose proof (pt_l1 _ _ _ _ _ Hpt) as Hg1. apply gaps_app in Hg1 as (Hg1 & Hg2 & Hg3). simpl in Hg2.
      apply elem_of_app in Hin as [Hin|Hin%list_elem_of_singleton]; [|subst b; unfold bend; lia].
      destruct (Hg3 b Hin) as [? _]. lia. }
    split; [by eapply parts_gaps|]. split; [done|]. split; [done|].
    assert (Ho : only_header p.1 m (set_h_ptr p.1 bp m)) by auto with xv6.
    rewrite app_comm_cons, HL. split; [|split; [apply list_elem_of_fmap; exists p; set_solver|done]]. rewrite <- app_assoc. apply ring_app. split.
    + eapply ring_same; [|exact HrL]. intros b Hin. by eapply only_same; [exact Ho|apply HsL].
    + simpl. rewrite size_set_ptr, ptr_set_ptr by hlia. split; [done|]. split; [done|].
      eapply (ring_same m _ ((bp, n) :: l2)); [|done]. intros b Hin. eapply only_same; [exact Ho|].
      apply elem_of_cons in Hin as [->|Hin]; [done|by apply Hs2].
Qed.

(** ** [free] and [morecore] *)

(** Bytes of the allocated blocks are the same. *)
Definition same_live (live : gmap Z Z) (m m' : mem) : Prop :=
  forall a n x, live !! a = Some n -> a <= x < bend (a, n) -> m' x = m x.

Lemma free_ok s l live a n :
  heap_ok s l live -> live !! a = Some n ->
  exists s' l', free (a + HEADER) s = Done s' /\ heap_ok s' l' (delete a live) /\
    u_brk s' = u_brk s /\ u_limit s' = u_limit s /\ same_live (delete a live) (u_mem s) (u_mem s') /\
    (length l' <= S (length l))%nat /\ exists c, c ∈ l' /\ n <= c.2.
Proof.
  intros Hk Ha. pose proof (hk_base _ _ _ Hk) as [Hb0 Hb]. pose proof (hk_top _ _ _ Hk) as Ht.
  destruct (hk_live _ _ _ Hk a n Ha) as (Ha0 & Hn & Hae & Ham & Han).
  destruct (gaps_split _ _ (a, n) (hk_gaps _ _ _ Hk)) as (l1 & l2 & -> & H1 & H2); [done|intros; by eapply hk_live_free|].
  simpl in H1, H2. pose proof (hk_gaps _ _ _ Hk) as Hg. apply gaps_app in Hg as (Hg1 & Hg2 & _).
  assert (Hpt : parts (u_brk s) (delete a live) l1 (a, n) l2).
  { split; simpl; try done.
    - destruct l2 as [|b l2]; [done|]. simpl in *. split; [|tauto].
      pose proof (H2 b ltac:(set_solver)). unfold bend in *. simpl in *. hlia.
    - intros b Hin. assert (Hin' : b ∈ l1 ++ l2 \/ b = (a, n)) by set_solver. destruct Hin' as [Hin'| ->].
      + split; [by eapply hk_end|]. split; [by eapply hk_aligned|]. intros a' n' [_ Hl]%lookup_delete_Some. by eapply hk_live_free.
      + split; [done|]. split; [done|]. intros a' n' [Hne Hl]%lookup_delete_Some. by eapply hk_live_live.
    - intros a' n' [_ Hl]%lookup_delete_Some. by apply (hk_live _ _ _ Hk) in Hl as (_ & ? & _).
    - pose proof (hk_tile _ _ _ Hk) as Hu. rewrite units_app in Hu.
      rewrite (live_units_delete live a n) in Hu by done. lia. }
  assert (exists L p, (base, 0) :: l1 = L ++ [p]) as (L & p & HL).
  { destruct (exists_last (l := (base, 0) :: l1)) as (L & p & E); [done|]. by exists L, p. }
  destruct (before_sep _ _ _ _ _ p Hpt Hb) as [Hsp Hlp]; [rewrite HL; set_solver|]. simpl in Hsp, Hlp.
  pose proof (hk_ring _ _ _ Hk) as Hr. rewrite app_comm_cons, HL in Hr. apply ring_app in Hr as [Hr1 Hr2].
  unfold free. rewrite Z.add_simpl_r.
  rewrite (free_loop_finds s _ live l1 l2 L p a Hk eq_refl HL Hlp).
  2: { intros b Hin. specialize (H2 b Hin). unfold bend in H2. simpl in H2. hlia. }
  simpl. destruct (join_next_ok (u_mem s) _ _ _ a n l2 p.1 Hpt ltac:(lia) Hb0 Hb Hr2 Han) as (n' & l2' & Hpt1 & Hg' & Hnn & Hl2 & Hr' & Ho1);
    [by apply ring_app in Hr1 as [_ (_ & ? & _)]|hlia|].
  set (m1 := free_join_next a p.1 (u_mem s)) in *.
  destruct (join_prev_ok m1 _ _ l1 L p (next_of l2 base) a n' l2' Hpt1 Hg' ltac:(lia) Hb0 Hb HL) as (l1' & c & Hl1 & Hpt2 & Hg2' & Hc1 & Hc2 & Hr2' & Hpin & Ho2); [|exact Hr'|].
  { eapply ring_same; [|exact Hr1]. intros b Hin. eapply only_same; [exact Ho1|].
    destruct (before_sep _ _ _ _ _ b Hpt Hb) as [? _]; [by rewrite HL|]. simpl in *. hlia. }
  set (m2 := free_join_prev a p.1 m1) in *.
  assert (Hsame : same_live (delete a live) (u_mem s) m2).
  { intros a' k x Hl Hx. pose proof Hl as [Hne Hl']%lookup_delete_Some.
    assert (Hd : disj (a', k) (a, n)) by (by eapply hk_live_live).
    assert (Hd' : disj (a', k) p \/ p = (base, 0)).
    { assert (Hin : p ∈ (base, 0) :: l1) by (rewrite HL; set_solver).
      apply elem_of_cons in Hin as [?|Hin]; [by right|left]. eapply hk_live_free; [done..|set_solver]. }
    pose proof (hk_live _ _ _ Hk a' k Hl') as (? & ? & ? & _).
    assert (Hp2 : p = (base, 0) \/ 1 <= p.2).
    { assert (Hin : p ∈ (base, 0) :: l1) by (rewrite HL; set_solver).
      apply elem_of_cons in Hin as [?|Hin]; [by left|right]. by destruct (gaps_elem _ _ _ Hg1 Hin). }
    unfold disj, bend in *. simpl in *. rewrite Ho2, Ho1; [done|hlia|].
    destruct Hd' as [Hd'| ->]; [|simpl; hlia]. destruct Hp2 as [->|]; simpl in *; hlia. }
  eexists _, (l1' ++ c :: l2'). split; [reflexivity|]. split; [|split; [done|split; [done|split; [done|]]]].
  2: { split; [rewrite !length_app; simpl; lia|]. exists c. split; [set_solver|]. unfold bend in *. simpl in *. hlia. }
  split; simpl; try done; try apply Hk.
  - intros b Hin. by apply Hpt2.
  - intros b Hin. by apply Hpt2.
  - intros a' k Hl. pose proof Hl as [Hne Hl']%lookup_delete_Some. pose proof (hk_live _ _ _ Hk a' k Hl') as (? & ? & ? & ? & Hsz).
    repeat (split; [done|]). rewrite <- Hsz. apply loadn_ext. intros x Hx. apply (Hsame a' k); [done|]. unfold bend. simpl. hlia.
  - intros a' k a'' k' [_ H']%lookup_delete_Some [_ H'']%lookup_delete_Some. by eapply hk_live_live.
  - intros a' k b Hl Hin. by eapply pt_all.
  - rewrite units_app. simpl. pose proof (pt_units _ _ _ _ _ Hpt2). lia.
Qed.
Lemma sbrk_mem_below n s x : x < u_brk s -> u_mem (sbrk n s).2 x = u_mem s x.
Proof.
  intros Hx. unfold sbrk. destruct (n >? 0); [|done]. destruct (u_brk s + n <=? u_limit s); [|done]. simpl.
  rewrite decide_False; [done|]. pose proof (PGROUNDUP_spec (u_brk s)). lia.
Qed.

(** A fresh block at the end of the heap counts as allocated. *)
Lemma heap_ok_extend s l live nu m :
  heap_ok s l live -> 1 <= nu -> u_brk s + HEADER * nu < 2 ^ 32 ->
  (forall x, x < u_brk s -> m x = u_mem s x) -> h_size m (u_brk s) = nu ->
  heap_ok (UState m (u_freep s) (u_brk s + HEADER * nu) (u_limit s)) l (<[u_brk s := nu]> live) /\ live !! u_brk s = None.
Proof.
  intros Hk Hnu Ht Hm Hsz. pose proof (hk_base _ _ _ Hk) as [Hb0 Hb]. pose proof (hk_top _ _ _ Hk).
  assert (Hnone : live !! u_brk s = None).
  { destruct (live !! u_brk s) as [k|] eqn:E; [|done]. apply (hk_live _ _ _ Hk) in E as (? & ? & ? & _). unfold bend in *. simpl in *. hlia. }
  split; [|done]. split; cbn [u_mem u_freep u_brk u_limit]; try apply Hk.
  - hlia.
  - eapply ring_same; [|apply Hk]. intros b Hin. apply same_header_bytes. intros x Hx. apply Hm.
    apply elem_of_cons in Hin as [->|Hin]; simpl in *; [hlia|].
    pose proof (hk_end _ _ _ Hk b Hin). pose proof (gaps_elem _ _ _ (hk_gaps _ _ _ Hk) Hin). unfold bend in *. hlia.
  - intros b Hin. pose proof (hk_end _ _ _ Hk b Hin). hlia.
  - intros a n [[<- <-]|[Hne Hl]]%lookup_insert_Some.
    + split; [lia|]. split; [done|]. split; [unfold bend; simpl; hlia|]. split; [|done].
      pose proof (hk_tile _ _ _ Hk) as E. replace (u_brk s) with (heap0 + (units l + live_units live) * HEADER) by hlia.
      rewrite Z.mod_add by done. apply Hk.
    + apply (hk_live _ _ _ Hk) in Hl as (? & ? & ? & ? & Hs). repeat (split; [done || hlia|]). rewrite <- Hs.
      apply loadn_ext. intros x Hx. apply Hm. unfold bend in *. simpl in *. hlia.
  - intros a n a' n' [[<- <-]|[Hne Hl]]%lookup_insert_Some [[<- <-]|[Hne' Hl']]%lookup_insert_Some Hd; try done.
    + apply (hk_live _ _ _ Hk) in Hl' as (? & ? & ? & _). by right.
    + apply (hk_live _ _ _ Hk) in Hl as (? & ? & ? & _). by left.
    + by eapply hk_live_live.
  - intros a n b [[<- <-]|[Hne Hl]]%lookup_insert_Some Hin; [right; by eapply hk_end|by eapply hk_live_free].
  - rewrite live_units_insert by done. pose proof (hk_tile _ _ _ Hk). hlia.
Qed.

Definition core_units (nu : Z) : Z := if nu <? 4096 then 4096 else nu.

Lemma morecore_ok s l live nu :
  heap_ok s l live -> 1 <= nu < 2 ^ 27 -> u_limit s < 2 ^ 32 ->
  (u_limit s < u_brk s + HEADER * core_units nu /\ morecore nu s = Done (0, s)) \/
  exists s' l', morecore nu s = Done (u_freep s', s') /\ u_freep s' <> 0 /\ heap_ok s' l' live /\
    u_brk s' = u_brk s + HEADER * core_units nu /\ u_brk s' <= u_limit s /\ u_limit s' = u_limit s /\
    same_live live (u_mem s) (u_mem s') /\ (length l' <= S (length l))%nat /\ exists c, c ∈ l' /\ nu <= c.2.
Proof.
  intros Hk Hnu Hlim. unfold morecore. fold (core_units nu). pose proof (hk_base _ _ _ Hk) as [Hb0 Hb].
  pose proof (hk_top _ _ _ Hk).
  assert (Hc : nu <= core_units nu < 2 ^ 27) by (unfold core_units; destruct (Z.ltb_spec nu 4096); lia).
  assert (Hc0 : 4096 <= core_units nu) by (unfold core_units; destruct (Z.ltb_spec nu 4096); lia).
  set (k := core_units nu) in *. rewrite i32_small by hlia.
  pose proof (sbrk_mem_below (k * HEADER) s) as Hm. unfold sbrk in Hm |- *.
  rewrite Z.gtb_ltb, (proj2 (Z.ltb_lt _ _)) in Hm |- * by hlia.
  destruct (Z.leb_spec (u_brk s + k * HEADER) (u_limit s)) as [Hle|Hgt]; [right|left; split; [hlia|done]].
  rewrite (proj2 (Z.eqb_neq _ _)) by hlia. simpl in Hm |- *.
  match goal with |- context [set_h_size _ _ ?mm] => set (m0 := mm) in * end.
  assert (Hm0 : forall x, x < u_brk s -> m0 x = u_mem s x) by exact Hm. clearbody m0. clear Hm.
  destruct (heap_ok_extend s l live k (set_h_size (u_brk s) k m0) Hk) as [Hk' Hn]; [lia|hlia| |apply size_set_size; lia|].
  { intros x Hx. rewrite only_set_size by hlia. by apply Hm0. }
  replace (u_brk s + k * HEADER) with (u_brk s + HEADER * k) in * by lia.
  unfold set_u_mem. simpl.
  destruct (free_ok _ _ _ (u_brk s) k Hk') as (s' & l' & -> & Hk2 & Hbrk & Hl & Hsame & Hlen & c & Hcin & Hcn);
    [by rewrite lookup_insert_eq|].
  rewrite delete_insert_id in Hk2, Hsame by done. simpl in *.
  exists s', l'. split; [done|]. split.
  { pose proof (hk_freep _ _ _ Hk2) as Hf. apply list_elem_of_fmap in Hf as (b & -> & Hin).
    apply elem_of_cons in Hin as [->|Hin]; [simpl; lia|]. pose proof (gaps_elem _ _ _ (hk_gaps _ _ _ Hk2) Hin). hlia. }
  split; [done|]. split; [done|]. split; [lia|]. split; [done|]. split.
  - intros a n x Ha Hx. rewrite (Hsame a n x Ha Hx). destruct (hk_live _ _ _ Hk a n Ha) as (_ & _ & He & _).
    rewrite only_set_size by lia. apply Hm0. lia.
  - split; [done|]. exists c. split; [done|lia].
Qed.
(** ** [malloc] *)

(** The block before a free block in the ring. *)
Lemma ring_pred m l prev c :
  ring m ((base, 0) :: l) base -> prev ∈ ((base, 0) :: l).*1 -> c ∈ l -> incr ((base, 0) :: l) ->
  h_ptr m prev = c.1 ->
  exists l1 l2 L pb, l = l1 ++ c :: l2 /\ (base, 0) :: l1 = L ++ [pb] /\ pb.1 = prev.
Proof.
  intros Hr Hp Hc Hi E. apply list_elem_of_fmap in Hp as (pb & -> & Hp).
  apply list_elem_of_split in Hp as (L & R & HR). rewrite HR in Hr. apply ring_app in Hr as [_ (_ & Hn & Hr)].
  rewrite E in Hn. assert (Hcb : base < c.1).
  { apply StronglySorted_inv in Hi as [_ Hi]. rewrite Forall_forall in Hi. by apply (Hi c). }
  destruct R as [|c' R]; simpl in Hn; [lia|].
  assert (c' = c) as ->.
  { rewrite HR in Hi. assert (Hc' : c ∈ (base, 0) :: l) by set_solver. rewrite HR in Hc'.
    assert (Hu : forall (w : list block) x y, incr w -> x ∈ w -> y ∈ w -> x.1 = y.1 -> x = y).
    { clear. induction w as [|z w IH]; intros x y Hw Hx Hy Exy; [set_solver|].
      apply StronglySorted_inv in Hw as [Hw Hz]. rewrite Forall_forall in Hz.
      apply elem_of_cons in Hx as [->|Hx]; apply elem_of_cons in Hy as [->|Hy]; try done.
      - apply Hz in Hy. lia.
      - apply Hz in Hx. lia.
      - by apply IH. }
    by eapply Hu; [exact Hi|set_solver|done|]. }
  destruct L as [|d L]; simpl in HR; injection HR as HR1 HR2.
  - exists [], R, [], pb. by rewrite HR1, HR2.
  - exists (L ++ [pb]), R, (d :: L), pb. rewrite <- app_assoc. simpl. by rewrite HR1, HR2.
Qed.

Lemma ok_incr s l live : heap_ok s l live -> incr ((base, 0) :: l).
Proof.
  intros Hk. pose proof (hk_gaps _ _ _ Hk) as Hg. constructor; [by eapply gaps_incr|].
  apply Forall_forall. intros b Hb. pose proof (gaps_elem _ _ _ Hg Hb). pose proof (hk_base _ _ _ Hk). simpl. hlia.
Qed.

(** Bytes of allocated blocks are not in the headers of the ring. *)
Lemma live_off_header s l live b a n x :
  heap_ok s l live -> b ∈ (base, 0) :: l -> live !! a = Some n -> a <= x < bend (a, n) ->
  ~ (b.1 <= x < b.1 + HEADER).
Proof.
  intros Hk Hb Ha Hx. pose proof (hk_base _ _ _ Hk). pose proof (hk_live _ _ _ Hk a n Ha) as (? & ? & _).
  apply elem_of_cons in Hb as [->|Hb]; [simpl; hlia|]. pose proof (hk_live_free _ _ _ Hk a n b Ha Hb) as Hd.
  pose proof (gaps_elem _ _ _ (hk_gaps _ _ _ Hk) Hb). unfold disj, bend in *. simpl in *. hlia.
Qed.

Lemma ok_sep s l live b c :
  heap_ok s l live -> b ∈ (base, 0) :: l -> c ∈ (base, 0) :: l -> b.1 <> c.1 -> sep b.1 c.1.
Proof.
  intros Hk Hb Hc Hne. pose proof (hk_base _ _ _ Hk).
  assert (Hd : forall d, d ∈ l -> heap0 <= d.1 /\ d.1 mod 16 = 0).
  { intros d Hd. pose proof (gaps_elem _ _ _ (hk_gaps _ _ _ Hk) Hd). pose proof (hk_aligned _ _ _ Hk d Hd). hlia. }
  apply elem_of_cons in Hb as [->|Hb]; apply elem_of_cons in Hc as [->|Hc]; simpl in *; try done.
  - apply Hd in Hc. hlia.
  - apply Hd in Hb. hlia.
  - apply Hd in Hb as [_ Hb], Hc as [_ Hc].
    pose proof (Z.div_mod b.1 16 ltac:(lia)). pose proof (Z.div_mod c.1 16 ltac:(lia)). hlia.
Qed.

(** [b] lies inside the block [c]. *)
Definition inside (b c : block) : Prop := c.1 <= b.1 /\ bend b <= bend c.

(** Allocating part of a free block. *)
Lemma heap_ok_alloc s l live m' fp l' q k c :
  heap_ok s l live -> c ∈ l -> inside (q, k) c -> 1 <= k -> q mod HEADER = 0 -> h_size m' q = k ->
  ring m' ((base, 0) :: l') base -> fp ∈ ((base, 0) :: l').*1 -> gaps (heap0 - 1) l' ->
  (forall b, b ∈ l' -> b.1 mod HEADER = 0 /\ disj (q, k) b /\ exists d, d ∈ l /\ inside b d) ->
  units l = units l' + k -> same_live live (u_mem s) m' ->
  heap_ok (set_u_freep fp (set_u_mem m' s)) l' (<[q := k]> live) /\ live !! q = None.
Proof.
  intros Hk Hc Hin Hk1 Hq Hs Hr Hf Hg Hl' Hu Hsame.
  pose proof (gaps_elem _ _ _ (hk_gaps _ _ _ Hk) Hc) as [Hc1 Hc2]. pose proof (hk_end _ _ _ Hk c Hc) as Hce.
  assert (Hdl : forall a n, live !! a = Some n -> disj (a, n) (q, k)).
  { intros a n Ha. pose proof (hk_live_free _ _ _ Hk a n c Ha Hc) as Hd. unfold disj, inside, bend in *. simpl in *. lia. }
  assert (Hnone : live !! q = None).
  { destruct (live !! q) as [n|] eqn:E; [|done]. pose proof (Hdl q n E) as Hd.
    apply (hk_live _ _ _ Hk) in E as (_ & ? & _). unfold disj, bend in Hd. simpl in Hd. hlia. }
  split; [|done]. split; cbn [u_mem u_freep u_brk u_limit set_u_freep set_u_mem]; try done; try apply Hk.
  - intros b Hb. destruct (Hl' b Hb) as (_ & _ & d & Hd & [_ Hi]). pose proof (hk_end _ _ _ Hk d Hd). lia.
  - intros b Hb. by apply Hl'.
  - intros a n [[<- <-]|[Hne Ha]]%lookup_insert_Some.
    + unfold inside in Hin. simpl in Hin. split; [lia|]. split; [done|]. split; [lia|]. done.
    + destruct (hk_live _ _ _ Hk a n Ha) as (? & ? & ? & ? & Hsz). repeat (split; [done|]). rewrite <- Hsz.
      apply loadn_ext. intros x Hx. apply (Hsame a n x Ha). unfold bend. simpl. hlia.
  - intros a n a' n' [[<- <-]|[Hne Ha]]%lookup_insert_Some [[<- <-]|[Hne' Ha']]%lookup_insert_Some Hd; try done.
    + pose proof (Hdl a' n' Ha'). unfold disj in *. tauto.
    + by apply Hdl.
    + by eapply hk_live_live.
  - intros a n b [[<- <-]|[Hne Ha]]%lookup_insert_Some Hb; [by apply Hl'|].
    destruct (Hl' b Hb) as (_ & _ & d & Hd & Hi). pose proof (hk_live_free _ _ _ Hk a n d Ha Hd).
    unfold disj, inside, bend in *. simpl in *. lia.
  - rewrite live_units_insert by done. pose proof (hk_tile _ _ _ Hk). lia.
Qed.

(** The free block [c], the blocks before it, whose last is [pb], and after it. *)
Record place (s : ustate) (live : gmap Z Z) (l1 : list block) (c : block) (l2 : list block) (L : list block) (pb : block) : Prop := {
  pl_ok : heap_ok s (l1 ++ c :: l2) live;
  pl_last : (base, 0) :: l1 = L ++ [pb];
  pl_c : heap0 <= c.1 /\ 1 <= c.2 /\ bend c <= u_brk s;
  pl_l1 : gaps (heap0 - 1) l1;
  pl_l2 : gaps (bend c) l2;
  pl_lt1 : forall b, b ∈ l1 -> bend b < c.1;
  pl_L : ring (u_mem s) L pb.1 /\ forall b, b ∈ L -> b.1 < pb.1 /\ b.1 < c.1;
  pl_pb : h_size (u_mem s) pb.1 = pb.2 /\ h_ptr (u_mem s) pb.1 = c.1 /\ pb.1 < c.1;
  pl_hc : h_size (u_mem s) c.1 = c.2 /\ h_ptr (u_mem s) c.1 = next_of l2 base;
  pl_r2 : ring (u_mem s) l2 base;
  pl_in : forall b, b ∈ L \/ b = pb \/ b = c \/ b ∈ l2 -> b ∈ (base, 0) :: l1 ++ c :: l2;
  pl_next : 0 <= next_of l2 base < 2 ^ 64;
}.

Lemma place_ok s l live prev c :
  heap_ok s l live -> c ∈ l -> prev ∈ ((base, 0) :: l).*1 -> h_ptr (u_mem s) prev = c.1 ->
  exists l1 l2 L pb, l = l1 ++ c :: l2 /\ pb.1 = prev /\ place s live l1 c l2 L pb.
Proof.
  intros Hk Hc Hprev Hpc. pose proof (hk_top _ _ _ Hk) as Ht. pose proof (hk_base _ _ _ Hk) as [Hb0 Hb].
  destruct (ring_pred _ _ _ _ (hk_ring _ _ _ Hk) Hprev Hc (ok_incr _ _ _ Hk) Hpc) as (l1 & l2 & L & pb & -> & HL & <-).
  exists l1, l2, L, pb. split; [done|]. split; [done|].
  pose proof (hk_gaps _ _ _ Hk) as Hg. pose proof Hg as (Hg1 & Hg2 & Hg3)%gaps_app. destruct Hg2 as (Hc1 & Hc2 & Hg2).
  pose proof (hk_ring _ _ _ Hk) as Hr. rewrite app_comm_cons, HL, <- app_assoc in Hr.
  apply ring_app in Hr as [HrL (Hps & Hpq & Hcs & Hcq & Hr2)]. simpl in HrL, Hpq.
  pose proof (ok_incr _ _ _ Hk) as Hi. rewrite app_comm_cons, HL, <- app_assoc in Hi. simpl in Hi.
  pose proof (StronglySorted_app_1_elem_of (fun b c : block => b.1 < c.1) L (pb :: c :: l2)) as HiL.
  pose proof Hi as [_ Hip]%StronglySorted_app_1_r%StronglySorted_inv. rewrite Forall_forall in Hip.
  split; try done.
  - split; [lia|]. split; [done|]. by eapply hk_end.
  - intros b Hin. by destruct (Hg3 b Hin) as [? _].
  - split; [done|]. intros b Hin. split; apply HiL; set_solver.
  - split; [done|]. split; [done|]. apply Hip. set_solver.
  - intros b Hin. rewrite app_comm_cons, HL. set_solver.
  - destruct l2 as [|b l2]; simpl; [hlia|]. pose proof (gaps_elem _ _ b Hg ltac:(set_solver)).
    pose proof (hk_end _ _ _ Hk b ltac:(set_solver)). unfold bend in *. hlia.
Qed.

Lemma place_far s live l1 c l2 L pb b :
  place s live l1 c l2 L pb -> b ∈ (base, 0) :: l1 ++ c :: l2 -> c.1 <> b.1 -> b.1 + HEADER <= c.1 \/ bend c < b.1.
Proof.
  intros P Hin Hne. pose proof (hk_base _ _ _ (pl_ok _ _ _ _ _ _ _ P)). pose proof (pl_c _ _ _ _ _ _ _ P).
  apply elem_of_cons in Hin as [->|Hin]; [simpl; left; hlia|].
  apply elem_of_app in Hin as [Hin|[->|Hin]%elem_of_cons]; [left|done|right].
  - pose proof (pl_lt1 _ _ _ _ _ _ _ P b Hin). pose proof (gaps_elem _ _ b (pl_l1 _ _ _ _ _ _ _ P) Hin).
    unfold bend in *. hlia.
  - pose proof (gaps_elem _ _ b (pl_l2 _ _ _ _ _ _ _ P) Hin). lia.
Qed.

(** The rest of the ring when only the headers of [pb] and [c] change. *)
Lemma place_ring s live l1 c l2 L pb m' l2' :
  place s live l1 c l2 L pb ->
  (forall b, b ∈ L \/ b ∈ l2 -> same_header (u_mem s) m' b.1) ->
  (ring m' l2 base -> ring m' (pb :: l2') base) ->
  ring m' ((base, 0) :: l1 ++ l2') base /\ pb.1 ∈ ((base, 0) :: l1 ++ l2').*1.
Proof.
  intros P Hs Hr. rewrite app_comm_cons, (pl_last _ _ _ _ _ _ _ P), <- app_assoc. split.
  - apply ring_app. split; [|apply Hr].
    + eapply ring_same; [|apply P]. intros b Hin. apply Hs. by left.
    + eapply ring_same; [|apply P]. intros b Hin. apply Hs. by right.
  - apply list_elem_of_fmap. exists pb. set_solver.
Qed.

Lemma take_exact_ok s live l1 c l2 L pb :
  place s live l1 c l2 L pb ->
  let m' := set_h_ptr pb.1 (h_ptr (u_mem s) c.1) (u_mem s) in
  heap_ok (set_u_freep pb.1 (set_u_mem m' s)) (l1 ++ l2) (<[c.1 := c.2]> live) /\ live !! c.1 = None /\
  same_live live (u_mem s) m'.
Proof.
  intros P m'. pose proof (pl_ok _ _ _ _ _ _ _ P) as Hk. pose proof (pl_c _ _ _ _ _ _ _ P) as (Hc0 & Hc1 & _).
  pose proof (pl_pb _ _ _ _ _ _ _ P) as (Hps & _ & Hpc). pose proof (pl_hc _ _ _ _ _ _ _ P) as (Hcs & Hcq).
  assert (Hpin : pb ∈ (base, 0) :: l1 ++ c :: l2) by (eapply pl_in; eauto).
  assert (Hc : c ∈ l1 ++ c :: l2) by set_solver.
  assert (Ho : only_header pb.1 (u_mem s) m') by apply only_set_ptr.
  assert (Hsame : same_live live (u_mem s) m') by (intros a n x Ha Hx; apply Ho; by eapply live_off_header).
  assert (Hkeep : forall b, b ∈ L \/ b = c \/ b ∈ l2 -> same_header (u_mem s) m' b.1).
  { intros b Hin. eapply only_same; [exact Ho|]. eapply ok_sep; [done..|eapply pl_in; [done|tauto]|].
    destruct Hin as [Hin|[->|Hin]]; [|lia|].
    - destruct (pl_L _ _ _ _ _ _ _ P) as [_ HL]. destruct (HL b Hin). lia.
    - pose proof (gaps_elem _ _ b (pl_l2 _ _ _ _ _ _ _ P) Hin). unfold bend in *. hlia. }
  destruct (place_ring s live l1 c l2 L pb m' l2 P) as [Hr Hf].
  { intros b Hin. apply Hkeep. tauto. }
  { intros Hr. simpl. unfold m' at 1 2. rewrite Hcq, size_set_ptr, ptr_set_ptr by apply P. done. }
  destruct (heap_ok_alloc s _ live m' pb.1 (l1 ++ l2) c.1 c.2 c Hk Hc) as [Hk' Hnone]; try done.
  - by eapply hk_aligned.
  - rewrite <- Hcs. by apply Hkeep; right; left.
  - apply gaps_app. split; [apply P|]. split; [eapply gaps_mono; [|apply P]; unfold bend; hlia|].
    intros b Hin. eapply gaps_mono; [|apply P]. pose proof (pl_lt1 _ _ _ _ _ _ _ P b Hin). unfold bend in *. hlia.
  - intros b Hin. split; [eapply hk_aligned; [done|set_solver]|]. split; [|exists b; split; [set_solver|split; lia]].
    apply elem_of_app in Hin as [Hin|Hin].
    + pose proof (pl_lt1 _ _ _ _ _ _ _ P b Hin). right. simpl. lia.
    + pose proof (gaps_elem _ _ b (pl_l2 _ _ _ _ _ _ _ P) Hin). left. unfold bend in *. simpl. lia.
  - rewrite !units_app. simpl. lia.
Qed.

Lemma take_split_ok s live l1 c l2 L pb nu :
  place s live l1 c l2 L pb -> 1 <= nu < c.2 ->
  let sz := c.2 - nu in let q := c.1 + HEADER * sz in
  let m' := set_h_size q nu (set_h_size c.1 sz (u_mem s)) in
  heap_ok (set_u_freep pb.1 (set_u_mem m' s)) (l1 ++ (c.1, sz) :: l2) (<[q := nu]> live) /\ live !! q = None /\
  same_live live (u_mem s) m'.
Proof.
  intros P Hnu sz q m'. pose proof (pl_ok _ _ _ _ _ _ _ P) as Hk. pose proof (pl_c _ _ _ _ _ _ _ P) as (Hc0 & Hc1 & Hce).
  pose proof (pl_pb _ _ _ _ _ _ _ P) as (Hps & Hpq & Hpc). pose proof (pl_hc _ _ _ _ _ _ _ P) as (Hcs & Hcq).
  pose proof (hk_top _ _ _ Hk) as Ht. pose proof (hk_base _ _ _ Hk) as [Hb0 Hb].
  assert (Hc : c ∈ l1 ++ c :: l2) by set_solver.
  set (m1 := set_h_size c.1 sz (u_mem s)) in *. assert (Hsz : 1 <= sz) by (unfold sz; lia).
  assert (Ho1 : only_header c.1 (u_mem s) m1) by apply only_set_size.
  assert (Ho2 : only_header q m1 m') by apply only_set_size.
  assert (Hq : sep q c.1) by (unfold q; hlia).
  assert (Hqe : q + HEADER * nu = bend c) by (unfold q, sz, bend; lia).
  assert (Hkeep : forall b, b ∈ (base, 0) :: l1 ++ c :: l2 -> c.1 <> b.1 -> same_header (u_mem s) m' b.1).
  { intros b Hin Hb'. apply same_header_bytes. intros x Hx. pose proof (place_far _ _ _ _ _ _ _ b P Hin Hb').
    rewrite Ho2, Ho1; [done| |]; unfold q, bend in *; hlia. }
  destruct (only_same q c.1 m1 m' Ho2 Hq) as [Hp1 Hs1].
  assert (Hsame : same_live live (u_mem s) m').
  { intros a n x Ha Hx. pose proof (live_off_header _ _ _ c a n x Hk ltac:(set_solver) Ha Hx).
    pose proof (hk_live_free _ _ _ Hk a n c Ha Hc) as Hd. rewrite Ho2, Ho1; [done|done|].
    unfold disj in Hd. cbn [fst] in Hd. change (bend c) with (c.1 + HEADER * c.2) in *. unfold q, sz in *. hlia. }
  destruct (place_ring s live l1 c l2 L pb m' ((c.1, sz) :: l2) P) as [Hr Hf].
  { intros b Hin. apply Hkeep; [eapply pl_in; [done|tauto]|]. destruct Hin as [Hin|Hin].
    - destruct (pl_L _ _ _ _ _ _ _ P) as [_ HL]. destruct (HL b Hin). lia.
    - pose proof (gaps_elem _ _ b (pl_l2 _ _ _ _ _ _ _ P) Hin). unfold bend in *. hlia. }
  { intros Hr. simpl. destruct (Hkeep pb) as [-> ->]; [eapply pl_in; eauto|lia|]. rewrite Hp1, Hs1. unfold m1.
    rewrite ptr_set_size, size_set_size by (unfold bend in *; hlia). done. }
  destruct (heap_ok_alloc s _ live m' pb.1 (l1 ++ (c.1, sz) :: l2) q nu c Hk Hc) as [Hk' Hnone]; try done.
  - split; simpl; [unfold q; hlia|unfold bend at 1; simpl; lia].
  - lia.
  - unfold q. rewrite Z.mul_comm, Z.mod_add by done. by eapply hk_aligned.
  - apply size_set_size. unfold bend in *. hlia.
  - apply gaps_app. pose proof (pl_l2 _ _ _ _ _ _ _ P) as Hg2.
    assert (gaps (bend (c.1, sz)) l2) by (eapply gaps_mono; [|exact Hg2]; unfold bend; simpl; hlia).
    split; [apply P|]. split; [simpl; split; [lia|done]|].
    intros b Hin. pose proof (pl_lt1 _ _ _ _ _ _ _ P b Hin). simpl. done.
  - intros b Hin. assert (Hin' : b ∈ l1 \/ b = (c.1, sz) \/ b ∈ l2) by set_solver. destruct Hin' as [Hin'|[->|Hin']].
    + split; [eapply hk_aligned; [done|set_solver]|]. split; [|exists b; split; [set_solver|split; lia]].
      pose proof (pl_lt1 _ _ _ _ _ _ _ P b Hin'). right. simpl. unfold q. hlia.
    + split; [exact (hk_aligned _ _ _ Hk c Hc)|]. split; [right; unfold bend, q; simpl; lia|]. exists c. split; [done|].
      split; simpl; [lia|]. unfold bend. simpl. hlia.
    + split; [eapply hk_aligned; [done|set_solver]|]. split; [|exists b; split; [set_solver|split; lia]].
      pose proof (gaps_elem _ _ b (pl_l2 _ _ _ _ _ _ _ P) Hin'). left. unfold bend at 1. simpl. lia.
  - rewrite !units_app. simpl. unfold sz. lia.
Qed.

Lemma take_units_ok s l live prev c nu :
  heap_ok s l live -> c ∈ l -> prev ∈ ((base, 0) :: l).*1 -> h_ptr (u_mem s) prev = c.1 -> 1 <= nu <= c.2 ->
  exists q l' s', take_units nu prev c.1 s = (q + HEADER, s') /\ heap_ok s' l' (<[q := nu]> live) /\ live !! q = None /\
    u_brk s' = u_brk s /\ u_limit s' = u_limit s /\ same_live live (u_mem s) (u_mem s').
Proof.
  intros Hk Hc Hprev Hpc Hnu. pose proof (hk_top _ _ _ Hk) as Ht. pose proof (hk_end _ _ _ Hk c Hc) as Hce.
  destruct (place_ok _ _ _ _ _ Hk Hc Hprev Hpc) as (l1 & l2 & L & pb & -> & <- & P).
  unfold take_units. rewrite (proj1 (pl_hc _ _ _ _ _ _ _ P)). destruct (Z.eqb_spec c.2 nu) as [<-|Hne].
  - destruct (take_exact_ok _ _ _ _ _ _ _ P) as (Hk' & Hn & Hs). by eexists _, _, _.
  - pose proof (pl_c _ _ _ _ _ _ _ P). pose proof (hk_base _ _ _ Hk). rewrite u32_small by (unfold bend in *; hlia).
    destruct (take_split_ok _ _ _ _ _ _ _ nu P) as (Hk' & Hn & Hs); [lia|]. by eexists _, _, _.
Qed.
(** Following the pointers from [prev] meets the blocks [w]. *)
Fixpoint path (m : mem) (prev : Z) (w : list block) : Prop :=
  match w with
  | [] => True
  | x :: w => h_ptr m prev = x.1 /\ h_size m x.1 = x.2 /\ path m x.1 w
  end.
Definition last_of (prev : Z) (w : list block) : Z := foldl (fun _ x => x.1) prev w.

Lemma path_app m prev w w' : path m prev (w ++ w') <-> path m prev w /\ path m (last_of prev w) w'.
Proof. revert prev. induction w as [|x w IH]; intros prev; simpl; [tauto|]. rewrite IH. tauto. Qed.

Lemma ring_path m prev l e :
  ring m l e -> h_ptr m prev = next_of l e -> path m prev l /\ h_ptr m (last_of prev l) = e.
Proof.
  revert prev. induction l as [|x l IH]; intros prev; simpl; [done|]. intros (Hs & Hp & Hr) Hn.
  destruct (IH x.1 Hr Hp). done.
Qed.

Lemma last_of_elem prev w : last_of prev w ∈ prev :: w.*1.
Proof.
  revert prev. induction w as [|x w IH]; intros prev; simpl; [set_solver|].
  specialize (IH x.1). set_solver.
Qed.

Lemma malloc_skip s nu prev wa fuel :
  path (u_mem s) prev wa -> (forall x, x ∈ wa -> x.2 < nu /\ x.1 <> u_freep s) ->
  malloc_loop (length wa + fuel) nu prev (h_ptr (u_mem s) prev) s =
  malloc_loop fuel nu (last_of prev wa) (h_ptr (u_mem s) (last_of prev wa)) s.
Proof.
  revert prev. induction wa as [|x wa IH]; intros prev; simpl; [done|]. intros (-> & -> & Hp) Hw.
  destruct (Hw x ltac:(set_solver)) as [? ?].
  rewrite Z.geb_leb, (proj2 (Z.leb_gt _ _)), (proj2 (Z.eqb_neq _ _)) by done.
  apply IH; [done|]. intros y Hy. apply Hw. set_solver.
Qed.

Lemma split_first nu (w : list block) :
  (forall x, x ∈ w -> x.2 < nu) \/
  exists wa c wb, w = wa ++ c :: wb /\ nu <= c.2 /\ forall x, x ∈ wa -> x.2 < nu.
Proof.
  induction w as [|y w IH]; [left; intros x Hx%elem_of_nil; done|].
  destruct (Z.le_gt_cases nu y.2); [right; exists [], y, w; set_solver|].
  destruct IH as [IH|(wa & c & wb & -> & Hc & Hw)].
  - left. intros x [->|Hx]%elem_of_cons; auto.
  - right. exists (y :: wa), c, wb. split; [done|]. split; [done|]. intros x [->|Hx]%elem_of_cons; auto.
Qed.

(** One turn of the ring from [freep] takes the first block that is large
    enough, or finds none. *)
Lemma malloc_turn s l live nu fuel :
  heap_ok s l live -> 1 <= nu -> (length l < fuel)%nat ->
  (exists prev c, c ∈ l /\ nu <= c.2 /\ prev ∈ ((base, 0) :: l).*1 /\ h_ptr (u_mem s) prev = c.1 /\
     malloc_loop fuel nu (u_freep s) (h_ptr (u_mem s) (u_freep s)) s = Done (take_units nu prev c.1 s)) \/
  ((forall c, c ∈ l -> c.2 < nu) /\
   malloc_loop fuel nu (u_freep s) (h_ptr (u_mem s) (u_freep s)) s =
     ('(p, s) ← morecore nu s;
      if p =? 0 then Done (0, s) else malloc_loop (fuel - S (length l)) nu p (h_ptr (u_mem s) p) s)).
Proof.
  intros Hk Hnu Hf. pose proof (hk_freep _ _ _ Hk) as Hfp. apply list_elem_of_fmap in Hfp as (f & Ef & Hfin).
  apply list_elem_of_split in Hfin as (Ra & Rb & HR). pose proof (hk_ring _ _ _ Hk) as Hr. rewrite HR in Hr.
  apply ring_app in Hr as [Hra (Hfs & Hfq & Hrb)]. simpl in Hra.
  destruct (ring_path _ f.1 Rb base Hrb Hfq) as [Hp1 Hl1].
  destruct (ring_path _ (last_of f.1 Rb) Ra f.1 Hra) as [Hp2 Hl2].
  { rewrite Hl1. destruct Ra; simpl in *; by injection HR as <-. }
  assert (Hlast : last_of (last_of f.1 Rb) Ra = last_of f.1 (Rb ++ Ra)) by (unfold last_of; by rewrite foldl_app).
  rewrite Hlast in *. assert (Hp : path (u_mem s) f.1 ((Rb ++ Ra) ++ [f])).
  { apply path_app. split; [by apply path_app|]. simpl. done. }
  assert (Hne : forall x, x ∈ Rb ++ Ra -> x.1 <> u_freep s).
  { intros x Hx. pose proof (ok_incr _ _ _ Hk) as Hi. rewrite HR in Hi. rewrite Ef.
    apply elem_of_app in Hx as [Hx|Hx].
    - apply StronglySorted_app_1_r, StronglySorted_inv in Hi as [_ Hi]. rewrite Forall_forall in Hi. specialize (Hi x Hx). simpl in Hi. lia.
    - assert (x.1 < f.1); [|lia].
      exact (StronglySorted_app_1_elem_of (fun b c : block => b.1 < c.1) Ra (f :: Rb) x f Hi Hx ltac:(set_solver)). }
  assert (Hlen : length (Rb ++ Ra) = length l).
  { apply (f_equal length) in HR. rewrite length_app in HR |- *. simpl in HR. lia. }
  assert (Hin : forall x, x ∈ (Rb ++ Ra) ++ [f] <-> x ∈ (base, 0) :: l) by (intros x; rewrite HR; set_solver).
  rewrite Ef. destruct (split_first nu ((Rb ++ Ra) ++ [f])) as [Hno|(wa & c & wb & E & Hc & Hwa)].
  - right. split; [intros c Hc; apply Hno, Hin; set_solver|].
    set (k := (fuel - S (length l))%nat). replace fuel with (length (Rb ++ Ra) + S k)%nat by (unfold k; lia).
    apply path_app in Hp as [Hp _]. rewrite malloc_skip; [|done|intros x Hx; split; [apply Hno|apply Hne]; set_solver].
    rewrite Hl2. simpl. rewrite Hfs, Z.geb_leb, (proj2 (Z.leb_gt _ _)) by (apply Hno; set_solver).
    by rewrite Ef, Z.eqb_refl.
  - left. rewrite E in Hp. apply path_app in Hp as [Hpa (Hcq & Hcs & _)].
    assert (Hwin : forall x, x ∈ wa -> x ∈ Rb ++ Ra).
    { intros x Hx. destruct wb as [|y wb _] using rev_ind.
      - apply app_inj_tail in E as [-> _]. done.
      - rewrite app_comm_cons, app_assoc in E. apply app_inj_tail in E as [E _]. rewrite E. set_solver. }
    exists (last_of f.1 wa), c. assert (Hcin : c ∈ (base, 0) :: l) by (apply Hin; rewrite E; set_solver).
    split; [apply elem_of_cons in Hcin as [->|?]; [simpl in Hc; lia|done]|]. split; [done|]. split.
    { pose proof (last_of_elem f.1 wa) as Hlw. apply elem_of_cons in Hlw as [->|Hlw].
      - apply list_elem_of_fmap. exists f. split; [done|]. apply Hin. set_solver.
      - apply list_elem_of_fmap in Hlw as (x & -> & Hx). apply list_elem_of_fmap. exists x. split; [done|].
        apply Hin. specialize (Hwin x Hx). set_solver. }
    split; [done|].
    assert (Hlw : (length wa <= length l)%nat).
    { apply (f_equal length) in E. rewrite !length_app in E. simpl in E. rewrite length_app in Hlen. lia. }
    replace fuel with (length wa + S (fuel - S (length wa)))%nat by lia.
    rewrite malloc_skip; [|done|intros x Hx; split; [by apply Hwa|by apply Hne, Hwin]].
    rewrite Hcq. simpl. by rewrite Hcs, Z.geb_leb, (proj2 (Z.leb_le _ _)).
Qed.
Definition units_for (nbytes : Z) : Z := (nbytes + HEADER - 1) / HEADER + 1.

(** The heap before or after the first call. *)
Definition umalloc_inv (s : ustate) (live : gmap Z Z) : Prop :=
  heap_new s live \/ exists l, heap_ok s l live.

Lemma first_call s live :
  heap_new s live ->
  heap_ok (set_u_freep base (set_u_mem (set_h_size base 0 (set_h_ptr base base (u_mem s))) s)) [] live.
Proof.
  intros (Hf & -> & Hbrk & Hb0 & Hb & Hal). split; cbn [u_mem u_freep u_brk u_limit set_u_freep set_u_mem]; try done.
  - hlia.
  - lia.
  - simpl. rewrite size_set_size, ptr_set_size, ptr_set_ptr by hlia. done.
  - set_solver.
  - intros b Hb'%elem_of_nil. done.
  - intros b Hb'%elem_of_nil. done.
  - unfold live_units. rewrite map_fold_empty. simpl. hlia.
Qed.

Lemma units_for_range nbytes : 0 <= nbytes <= 2 ^ 31 - 32 ->
  1 <= units_for nbytes < 2 ^ 27 /\ nbytes <= HEADER * units_for nbytes - HEADER.
Proof.
  intros H. unfold units_for, HEADER. pose proof (Z.div_mod (nbytes + 16 - 1) 16 ltac:(lia)).
  pose proof (Z.mod_pos_bound (nbytes + 16 - 1) 16 ltac:(lia)). lia.
Qed.

Definition malloc_post (nu : Z) (live : gmap Z Z) (s s' : ustate) (r : Z) : Prop :=
  u_limit s' = u_limit s /\ same_live live (u_mem s) (u_mem s') /\
  ((r = 0 /\ u_limit s < u_brk s + HEADER * core_units nu /\ exists l, heap_ok s' l live) \/
   (exists q l, r = q + HEADER /\ live !! q = None /\ heap_ok s' l (<[q := nu]> live))).

Lemma malloc_loop_ok s l live nu fuel :
  heap_ok s l live -> u_limit s < 2 ^ 32 -> 1 <= nu < 2 ^ 27 -> (length l + length l + 3 <= fuel)%nat ->
  exists r s', malloc_loop fuel nu (u_freep s) (h_ptr (u_mem s) (u_freep s)) s = Done (r, s') /\ malloc_post nu live s s' r.
Proof.
  intros Hk Hlim Hnu Hf.
  destruct (malloc_turn s l live nu fuel Hk) as [(prev & c & Hc & Hcn & Hp & Hpc & ->)|[Hno ->]]; [lia|lia| |].
  { destruct (take_units_ok _ _ _ _ _ nu Hk Hc Hp Hpc) as (q & l' & s' & -> & Hk' & Hn & _ & Hl & Hs); [lia|].
    exists (q + HEADER), s'. split; [done|]. split; [done|]. split; [done|]. right. by exists q, l'. }
  destruct (morecore_ok _ _ _ _ Hk Hnu Hlim) as [[Hr ->]|(s1 & l1 & -> & Hf1 & Hk1 & _ & _ & Hl1 & Hs1 & Hlen & c1 & Hc1 & Hcn1)].
  { exists 0, s. split; [done|]. split; [done|]. split; [done|]. left. split; [done|]. split; [done|]. by exists l. }
  simpl. rewrite (proj2 (Z.eqb_neq _ _)) by done.
  destruct (malloc_turn s1 l1 live nu (fuel - S (length l)) Hk1) as [(prev & c & Hc & Hcn & Hp & Hpc & ->)|[Hno' _]]; [lia|lia| |].
  - destruct (take_units_ok _ _ _ _ _ nu Hk1 Hc Hp Hpc) as (q & l' & s' & -> & Hk' & Hn & _ & Hl & Hs); [lia|].
    exists (q + HEADER), s'. split; [done|]. split; [congruence|]. split.
    + intros a n x Ha Hx. by rewrite (Hs a n x Ha Hx), (Hs1 a n x Ha Hx).
    + right. by exists q, l'.
  - specialize (Hno' c1 Hc1). lia.
Qed.

Lemma malloc_ok s live nbytes :
  umalloc_inv s live -> u_limit s < 2 ^ 32 -> 0 <= nbytes <= 2 ^ 31 - 32 ->
  exists r s', malloc base nbytes s = Done (r, s') /\ malloc_post (units_for nbytes) live s s' r.
Proof.
  intros Hi Hlim Hn. destruct (units_for_range nbytes Hn) as [Hnu _].
  unfold malloc. fold (units_for nbytes). rewrite u32_small by lia.
  destruct Hi as [Hnew|[l Hk]].
  - pose proof (first_call _ _ Hnew) as Hk. destruct Hnew as (-> & -> & _). simpl.
    destruct (malloc_loop_ok _ _ _ _ (malloc_fuel s) Hk Hlim Hnu) as (r & s' & E & Hl & _ & Hr).
    { unfold malloc_fuel, heap_fuel. simpl. lia. }
    exists r, s'. split; [exact E|]. split; [done|]. split; [|done]. intros a n x Ha. by rewrite lookup_empty in Ha.
  - pose proof (hk_freep _ _ _ Hk) as Hf. pose proof (hk_base _ _ _ Hk).
    rewrite (proj2 (Z.eqb_neq _ _)).
    + apply (malloc_loop_ok _ _ _ _ _ Hk Hlim Hnu). pose proof (ring_length _ _ _ Hk). unfold malloc_fuel. lia.
    + apply list_elem_of_fmap in Hf as (b & -> & Hb). apply elem_of_cons in Hb as [->|Hb]; [simpl; lia|].
      pose proof (gaps_elem _ _ _ (hk_gaps _ _ _ Hk) Hb). hlia.
Qed.

(** With nothing allocated the heap is one free block. *)
Lemma gaps_tight lo hi l :
  gaps lo l -> (forall b, b ∈ l -> bend b <= hi) -> lo <= hi -> HEADER * units l + Z.of_nat (length l) <= hi - lo.
Proof.
  revert lo. induction l as [|b l IH]; simpl; intros lo; [lia|]. intros (H1 & H2 & H3) He Hle.
  pose proof (He b ltac:(set_solver)). specialize (IH _ H3). unfold bend in *.
  assert (HEADER * units l + Z.of_nat (length l) <= hi - (b.1 + HEADER * b.2)); [|hlia].
  apply IH; [|done]. intros c Hc. apply He. set_solver.
Qed.

Lemma one_block s l : heap_ok s l ∅ -> heap0 < u_brk s -> l = [(heap0, (u_brk s - heap0) / HEADER)].
Proof.
  intros Hk Hlt. pose proof (hk_tile _ _ _ Hk) as Ht. unfold live_units in Ht. rewrite map_fold_empty, Z.add_0_r in Ht.
  pose proof (gaps_tight _ (u_brk s) l (hk_gaps _ _ _ Hk) (hk_end _ _ _ Hk)) as Hg.
  destruct l as [|[a n] [|c l]]; simpl in *; [hlia| |lia].
  pose proof (hk_end _ _ _ Hk (a, n) ltac:(set_solver)) as He. pose proof (hk_gaps _ _ _ Hk) as (Hg1 & _). unfold bend in He. simpl in *.
  rewrite <- Ht, Z.add_0_r, (Z.mul_comm HEADER), Z.div_mul by done. assert (a = heap0) as -> by hlia. done.
Qed.

(** * Programs that allocate *)

(** A program calls [malloc] and [free], writes to the memory it was given, and
    the memory the kernel has left changes. *)
Inductive ustep : ustate * gmap Z Z -> ustate * gmap Z Z -> Prop :=
| step_malloc s live nbytes r s' :
    0 <= nbytes <= 2 ^ 31 - 32 -> malloc base nbytes s = Done (r, s') ->
    ustep (s, live) (s', if r =? 0 then live else <[r - HEADER := units_for nbytes]> live)
| step_free s live a n s' :
    live !! a = Some n -> free (a + HEADER) s = Done s' -> ustep (s, live) (s', delete a live)
| step_write s live a n x v :
    live !! a = Some n -> a + HEADER <= x < bend (a, n) ->
    ustep (s, live) (set_u_mem (<[x := v]> (u_mem s)) s, live)
| step_limit s live z :
    z < 2 ^ 32 -> ustep (s, live) (UState (u_mem s) (u_freep s) (u_brk s) z, live).

Lemma heap_ok_write s l live a n x v :
  heap_ok s l live -> live !! a = Some n -> a + HEADER <= x < bend (a, n) ->
  heap_ok (set_u_mem (<[x := v]> (u_mem s)) s) l live.
Proof.
  intros Hk Ha Hx. assert (Hout : forall y, y <> x -> (<[x := v]> (u_mem s)) y = u_mem s y).
  { intros y Hy. by rewrite fn_insert_cases, decide_False. }
  split; cbn [u_mem u_freep u_brk u_limit set_u_mem]; try apply Hk.
  - eapply ring_same; [|apply Hk]. intros b Hb. apply same_header_bytes. intros y Hy. apply Hout. intros ->.
    eapply (live_off_header _ _ _ b a n x); [done..|hlia|done].
  - intros a' n' Ha'. destruct (hk_live _ _ _ Hk a' n' Ha') as (? & ? & ? & ? & Hs). repeat (split; [done|]).
    rewrite <- Hs. apply loadn_ext. intros y Hy. apply Hout. intros ->.
    destruct (decide (a = a')) as [->|Hne]; [hlia|].
    pose proof (hk_live_live _ _ _ Hk a n a' n' Ha Ha' Hne). unfold disj, bend in *. simpl in *. hlia.
Qed.

Lemma ustep_inv s live s' live' :
  ustep (s, live) (s', live') -> umalloc_inv s live -> u_limit s < 2 ^ 32 -> umalloc_inv s' live' /\ u_limit s' < 2 ^ 32.
Proof.
  intros Hs Hi Hl.
  inversion Hs as [? ? n r ? Hn Em|? ? a n ? Ha Ef|? ? a n x v Ha Hx|? ? z Hz]; subst.
  - destruct (malloc_ok _ _ _ Hi Hl Hn) as (r' & s1 & E & Hlim & _ & Hp). rewrite Em in E. simplify_eq.
    split; [|lia]. right. destruct Hp as [(-> & _ & l & Hk)|(q & l & -> & _ & Hk)]; [by exists l|].
    assert (Hq : heap0 <= q). { by eapply hk_live; [exact Hk|apply lookup_insert_eq]. }
    pose proof (hk_base _ _ _ Hk). rewrite (proj2 (Z.eqb_neq _ _)) by hlia. rewrite Z.add_simpl_r. by exists l.
  - destruct Hi as [(_ & -> & _)|[l Hk]]; [by rewrite lookup_empty in *|].
    destruct (free_ok _ _ _ _ _ Hk Ha) as (s1 & l' & E & Hk' & _ & Hlim & _). rewrite Ef in E. simplify_eq.
    split; [|lia]. right. by exists l'.
  - destruct Hi as [(_ & -> & _)|[l Hk]]; [by rewrite lookup_empty in *|]. split; [|done]. right. exists l. by eapply heap_ok_write.
  - split; [|done]. destruct Hi as [(?&?&?&?)|[l Hk]]; [left; by split|right]. exists l. destruct Hk. by split.
Qed.

Lemma ureach_inv x y :
  rtc ustep x y -> umalloc_inv x.1 x.2 -> u_limit x.1 < 2 ^ 32 -> umalloc_inv y.1 y.2 /\ u_limit y.1 < 2 ^ 32.
Proof.
  induction 1 as [x|[s live] [s' live'] z Hs _ IH]; [done|]. intros Hi Hl.
  destruct (ustep_inv _ _ _ _ Hs Hi Hl). by apply IH.
Qed.

End spec.

(** A process of four pages whose [base] is in the second one. *)
Definition fresh_process : ustate := UState (fun _ => 0) 0 16384 1000000.


