(* ===== verification/Ulib.v ===== *)
(** user/ulib.c: the string and memory functions of user programs.

    Memory is a function from addresses to bytes, as for kernel/string.c; a
    function that runs along a string takes fuel, and a null pointer is 0. *)

From S2P Require Import Prelude CString.
Local Open Scope Z_scope.

Module Ulib.

(** * Code *)

(** [while(( *s++ = *t++) != 0)] *)
Fixpoint strcpy (fuel : nat) (m : mem) (s t : Z) : outcome mem :=
  match fuel with
  | O => OutOfFuel
  | S fuel => let m' := <[s := m t]> m in if m t =? 0 then Done m' else strcpy fuel m' (s + 1) (t + 1)
  end.

(** [while( *p && *p == *q) p++, q++;] *)
Fixpoint strcmp (fuel : nat) (m : mem) (p q : Z) : outcome Z :=
  match fuel with
  | O => OutOfFuel
  | S fuel => if negb (m p =? 0) && (m p =? m q) then strcmp fuel m (p + 1) (q + 1) else Done (m p - m q)
  end.

(** [for(n = 0; s[n]; n++)] *)
Fixpoint strlen (fuel : nat) (m : mem) (s n : Z) : outcome Z :=
  match fuel with
  | O => OutOfFuel
  | S fuel => if m (s + n) =? 0 then Done n else strlen fuel m s (n + 1)
  end.

(** [for(i = 0; i < n; i++) cdst[i] = c;] *)
Fixpoint memset_loop (n : nat) (m : mem) (cdst i c : Z) : mem :=
  match n with
  | O => m
  | S n => memset_loop n (<[cdst + i := u8 c]> m) cdst (i + 1) c
  end.
Definition memset (m : mem) (dst c n : Z) : mem := memset_loop (Z.to_nat n) m dst 0 c.

Fixpoint strchr (fuel : nat) (m : mem) (s c : Z) : outcome Z :=
  match fuel with
  | O => OutOfFuel
  | S fuel => if m s =? 0 then Done 0 else if m s =? c then Done s else strchr fuel m (s + 1) c
  end.

(** The loop of [gets] with room for [n] more bytes, on what is left of the
    standard input: [read] of one byte fails at its end. *)
Fixpoint gets_loop (n : nat) (m : mem) (p : Z) (input : bytes) : mem * Z * bytes :=
  match n, input with
  | S n, c :: input =>
      let m := <[p := c]> m in
      if (c =? 10) || (c =? 13) then (m, p + 1, input) else gets_loop n m (p + 1) input
  | _, _ => (m, p, input)
  end.
Definition gets (m : mem) (buf max : Z) (input : bytes) : mem * bytes :=
  let '(m, p, input) := gets_loop (Z.to_nat (max - 1)) m buf input in (<[p := 0]> m, input).

(** The sum is an [int]: its overflow is undefined. *)
Fixpoint atoi (fuel : nat) (m : mem) (s n : Z) : outcome Z :=
  match fuel with
  | O => OutOfFuel
  | S fuel =>
      if (48 <=? m s) && (m s <=? 57)
      then if n * 10 + m s <? 2 ^ 31 then atoi fuel m (s + 1) (n * 10 + m s - 48) else Unspec
      else Done n
  end.

Definition memmove (m : mem) (dst src n : Z) : mem :=
  if src >? dst then copy_up (Z.to_nat n) m dst src
  else copy_down (Z.to_nat n) m (dst + n) (src + n).

Fixpoint memcmp (n : nat) (m : mem) (p1 p2 : Z) : Z :=
  match n with
  | O => 0
  | S n => if m p1 =? m p2 then memcmp n m (p1 + 1) (p2 + 1) else m p1 - m p2
  end.

Definition memcpy (m : mem) (dst src n : Z) : mem := memmove m dst src n.

(** * Strings in memory *)

(** [l] is in memory at [a]; as a string it has no NUL and one follows it. *)
Fixpoint holds (m : mem) (a : Z) (l : bytes) : Prop :=
  match l with
  | [] => True
  | c :: l => m a = c /\ holds m (a + 1) l
  end.
Definition cstr (m : mem) (a : Z) (l : bytes) : Prop :=
  holds m a l /\ m (a + Z.of_nat (length l)) = 0 /\ Forall (fun c => c <> 0) l.

Lemma holds_app m a l l' : holds m a (l ++ l') <-> holds m a l /\ holds m (a + Z.of_nat (length l)) l'.
Proof.
  revert a. induction l as [|c l IH]; intros a; simpl; [rewrite Z.add_0_r; tauto|]. rewrite IH.
  replace (a + 1 + Z.of_nat (length l)) with (a + Z.of_nat (S (length l))) by lia. tauto.
Qed.

Lemma holds_eq m m' a l : (forall x, a <= x < a + Z.of_nat (length l) -> m' x = m x) -> holds m a l -> holds m' a l.
Proof.
  revert a. induction l as [|c l IH]; intros a Hm; simpl; [done|]. simpl in Hm. intros [<- Hl]. split; [apply Hm; lia|].
  apply IH; [|done]. intros x Hx. apply Hm. lia.
Qed.

Lemma holds_insert m a b v l : ~ (a <= b < a + Z.of_nat (length l)) -> holds m a l -> holds (<[b := v]> m) a l.
Proof. intros Hb. apply holds_eq. intros x Hx. apply fn_lookup_insert_ne. lia. Qed.

Lemma holds_moved m m' dst src l : (forall x, m' x = moved m dst src (Z.of_nat (length l)) x) -> holds m src l -> holds m' dst l.
Proof.
  intros Hm. assert (Hm' : forall x, dst <= x < dst + Z.of_nat (length l) -> m' x = m (src + (x - dst))).
  { intros x Hx. rewrite Hm. unfold moved. by rewrite decide_True. }
  clear Hm. revert dst src Hm'. induction l as [|c l IH]; intros dst src Hm; simpl; [done|]. simpl in Hm. intros [<- Hl]. split.
  - rewrite Hm by lia. f_equal. lia.
  - apply (IH (dst + 1) (src + 1)); [|done]. intros x Hx. rewrite Hm by lia. f_equal. lia.
Qed.

Lemma cstr_cons m a c l : cstr m a (c :: l) <-> m a = c /\ c <> 0 /\ cstr m (a + 1) l.
Proof.
  unfold cstr. simpl. rewrite Forall_cons. replace (a + 1 + Z.of_nat (length l)) with (a + Z.of_nat (S (length l))) by lia. tauto.
Qed.
Lemma cstr_nil m a : cstr m a [] <-> m a = 0.
Proof. unfold cstr. simpl. rewrite Z.add_0_r. split; [tauto|]. intros ?. split; [done|]. split; [done|constructor]. Qed.
#[export] Hint Rewrite cstr_cons cstr_nil : cstr.

(** [memmove] is right for every overlap, and does nothing for [n <= 0]. *)
Lemma umemmove_moved m dst src n x : memmove m dst src n x = moved m dst src n x.
Proof.
  unfold memmove. destruct (Z.le_gt_cases n 0) as [Hn|Hn].
  { unfold moved. rewrite decide_False, (Z2Nat.nonpos n) by lia. by destruct (src >? dst). }
  rewrite Z.gtb_ltb. destruct (Z.ltb_spec dst src); [rewrite copy_up_spec by lia|rewrite copy_down_spec by lia]; rewrite Z2Nat.id by lia; [done|].
  by replace (dst + n - n) with dst by lia; replace (src + n - n) with src by lia.
Qed.

(** [strchr] finds the first occurrence. *)
Lemma strchr_none m s c l fuel : cstr m s l -> c ∉ l -> (length l < fuel)%nat -> strchr fuel m s c = Done 0.
Proof.
  revert s fuel. induction l as [|x l IH]; intros s fuel Hs Hc Hf; destruct fuel as [|fuel]; simpl in Hf; [lia|..]; try lia; simpl.
  - apply cstr_nil in Hs. by rewrite Hs.
  - apply cstr_cons in Hs as (<- & H0 & Hs). rewrite (proj2 (Z.eqb_neq _ 0)) by done.
    rewrite (proj2 (Z.eqb_neq _ c)) by set_solver. apply IH; [done|set_solver|lia].
Qed.

Lemma strchr_some m s c l l' fuel : holds m s (l ++ c :: l') -> c ∉ l -> 0 ∉ l -> c <> 0 -> (length l < fuel)%nat ->
  strchr fuel m s c = Done (s + Z.of_nat (length l)).
Proof.
  revert s fuel. induction l as [|x l IH]; intros s fuel Hs Hc H0 Hc0 Hf; destruct fuel as [|fuel]; simpl in Hf; try lia; simpl.
  - destruct Hs as [-> _]. rewrite (proj2 (Z.eqb_neq c 0)), Z.eqb_refl by done. f_equal. lia.
  - destruct Hs as [-> Hs]. rewrite (proj2 (Z.eqb_neq x 0)), (proj2 (Z.eqb_neq x c)) by set_solver.
    rewrite (IH (s + 1)); [f_equal; lia|done|set_solver..|lia].
Qed.


Lemma strlen_spec m s l n fuel : cstr m (s + n) l -> (length l < fuel)%nat -> strlen fuel m s n = Done (n + Z.of_nat (length l)).
Proof.
  revert n fuel. induction l as [|c l IH]; intros n fuel Hs Hf; destruct fuel as [|fuel]; simpl in Hf; try lia; simpl.
  - apply cstr_nil in Hs. rewrite Hs. simpl. f_equal. lia.
  - apply cstr_cons in Hs as (-> & H0 & Hs). rewrite (proj2 (Z.eqb_neq c 0)) by done.
    rewrite (IH (n + 1)); [f_equal; lia| |lia]. by rewrite Z.add_assoc.
Qed.

(** The order of strings. *)
Fixpoint lex (l l' : bytes) : comparison :=
  match l, l' with
  | [], [] => Eq
  | [], _ => Lt
  | _, [] => Gt
  | c :: l, c' :: l' => match c ?= c' with Eq => lex l l' | o => o end
  end.

Lemma strcmp_spec m p q l l' fuel : cstr m p l -> cstr m q l' -> Forall (fun c => 0 < c) l -> Forall (fun c => 0 < c) l' -> (length l < fuel)%nat ->
  exists r, strcmp fuel m p q = Done r /\ (r ?= 0) = lex l l'.
Proof.
  revert p q l' fuel. induction l as [|c l IH]; intros p q l' fuel Hp Hq Hl Hl' Hf; destruct fuel as [|fuel]; simpl in Hf; try lia; simpl.
  - apply cstr_nil in Hp. rewrite Hp. simpl. eexists. split; [done|]. destruct l' as [|c' l'].
    + apply cstr_nil in Hq. by rewrite Hq.
    + apply cstr_cons in Hq as (-> & _). apply Forall_cons in Hl' as [? _]. apply Z.compare_lt_iff. lia.
  - apply cstr_cons in Hp as (-> & H0 & Hp). apply Forall_cons in Hl as [? Hl]. rewrite (proj2 (Z.eqb_neq c 0)) by done. simpl. destruct l' as [|c' l'].
    + apply cstr_nil in Hq. rewrite Hq, (proj2 (Z.eqb_neq c 0)) by done. eexists. split; [done|]. apply Z.compare_gt_iff. lia.
    + apply cstr_cons in Hq as (-> & _ & Hq). apply Forall_cons in Hl' as [? Hl']. destruct (Z.compare_spec c c') as [->|Hlt|Hgt].
      * rewrite Z.eqb_refl. apply (IH _ _ l'); done || lia.
      * rewrite (proj2 (Z.eqb_neq c c')) by lia. eexists. split; [done|]. apply Z.compare_lt_iff. lia.
      * rewrite (proj2 (Z.eqb_neq c c')) by lia. eexists. split; [done|]. apply Z.compare_gt_iff. lia.
Qed.

Lemma strcpy_spec m s t l fuel : cstr m t l -> apart s t (Z.of_nat (length l) + 1) -> (length l < fuel)%nat ->
  exists m', strcpy fuel m s t = Done m' /\ cstr m' s l /\ forall x, ~ (s <= x <= s + Z.of_nat (length l)) -> m' x = m x.
Proof.
  unfold apart. revert m s t fuel. induction l as [|c l IH]; intros m s t fuel Ht Ha Hf; destruct fuel as [|fuel]; simpl in Hf, Ha; try lia; cbn [strcpy].
  - apply cstr_nil in Ht. rewrite Ht. eexists. split; [done|]. split; [apply cstr_nil, fn_lookup_insert|].
    intros x Hx. apply fn_lookup_insert_ne. simpl in Hx. lia.
  - apply cstr_cons in Ht as (-> & H0 & Ht). rewrite (proj2 (Z.eqb_neq c 0)) by done.
    destruct (IH (<[s := c]> m) (s + 1) (t + 1) fuel) as (m' & -> & Hm' & Hx); [|lia|lia|].
    { destruct Ht as (? & ? & ?). split; [apply holds_insert; [lia|done]|]. split; [|done]. rewrite fn_lookup_insert_ne by lia. done. }
    exists m'. split; [done|]. split.
    + apply cstr_cons. split; [|done]. rewrite Hx by lia. apply fn_lookup_insert.
    + intros x Hx'. simpl in Hx'. rewrite Hx by lia. apply fn_lookup_insert_ne. lia.
Qed.

Lemma gets_loop_spec n m p input :
  exists line rest m', gets_loop n m p input = (m', p + Z.of_nat (length line), rest) /\ input = line ++ rest /\ (length line <= n)%nat /\
    holds m' p line /\ (forall x, ~ (p <= x < p + Z.of_nat (length line)) -> m' x = m x) /\
    (forall a c b, line = a ++ c :: b -> c = 10 \/ c = 13 -> b = []) /\
    (rest = [] \/ length line = n \/ last line = Some 10 \/ last line = Some 13).
Proof.
  revert m p input. induction n as [|n IH]; intros m p input.
  { exists [], input, m. simpl. rewrite Z.add_0_r. repeat split; auto. intros [|? a] c b; discriminate. }
  destruct input as [|c input].
  { exists [], [], m. simpl. rewrite Z.add_0_r. repeat split; auto; [lia|]. intros [|? a] c b; discriminate. }
  cbn [gets_loop]. destruct ((c =? 10) || (c =? 13)) eqn:Ec.
  - exists [c], input, (<[p := c]> m). simpl. repeat split; [lia|apply fn_lookup_insert|intros; apply fn_lookup_insert_ne; lia| |].
    + intros [|? [|? a]] ? ? E; simplify_eq/=; done.
    + apply orb_true_iff in Ec as [->%Z.eqb_eq| ->%Z.eqb_eq]; auto.
  - destruct (IH (<[p := c]> m) (p + 1) input) as (line & rest & m' & -> & -> & Hlen & Hh & Hx & Hnl & Hmax).
    exists (c :: line), rest, m'. simpl. apply orb_false_iff in Ec as [H1%Z.eqb_neq H2%Z.eqb_neq].
    repeat split; [f_equal; f_equal; lia|lia|rewrite Hx by lia; apply fn_lookup_insert|done| | |].
    + intros x Hx'. rewrite Hx by lia. apply fn_lookup_insert_ne. lia.
    + intros [|? a] ? b E Hc; simplify_eq/=; [tauto|by eapply Hnl].
    + destruct Hmax as [?|[?|Hl]]; [auto|right; left; lia|right; right].
      destruct line as [|x line]; [simpl in Hl; by destruct Hl|done].
Qed.

(** * Properties *)

(** [gets] with [max > 0] takes from the input the longest piece that ends with
    a line break, with the input or after [max - 1] bytes, stores it with a NUL
    and writes nothing outside the [max] bytes of the buffer. *)
Theorem gets_spec (m : mem) (buf max : Z) (input : bytes) :
  0 < max ->
  exists line rest m', gets m buf max input = (m', rest) /\ input = line ++ rest /\
    holds m' buf line /\ m' (buf + Z.of_nat (length line)) = 0 /\ Z.of_nat (length line) < max /\
    (forall x, ~ (buf <= x < buf + max) -> m' x = m x) /\
    (forall a c b, line = a ++ c :: b -> c = 10 \/ c = 13 -> b = []) /\
    (rest = [] \/ Z.of_nat (length line) = max - 1 \/ last line = Some 10 \/ last line = Some 13).
Proof.
  intros Hmax. unfold gets. destruct (gets_loop_spec (Z.to_nat (max - 1)) m buf input) as (line & rest & m' & -> & -> & Hlen & Hh & Hx & Hnl & Hend).
  exists line, rest, (<[buf + Z.of_nat (length line) := 0]> m'). split; [done|]. split; [done|].
  split; [apply holds_insert; [lia|done]|]. split; [apply fn_lookup_insert|]. split; [lia|]. split.
  - intros x Hx'. rewrite fn_lookup_insert_ne by lia. apply Hx. lia.
  - split; [done|]. destruct Hend as [?|[?|?]]; [auto|right; left; lia|auto].
Qed.

Lemma gets_spec_witness : exists line rest m', gets (fun _ => 0) 100 10 (str "ls" ++ [10] ++ str "cat") = (m', rest) /\
  str "ls" ++ [10] ++ str "cat" = line ++ rest /\ holds m' 100 line.
Proof.
  destruct (gets_spec (fun _ => 0) 100 10 (str "ls" ++ [10] ++ str "cat")) as (line & rest & m' & H1 & H2 & H3 & _); [reflexivity|].
  by exists line, rest, m'.
Defined.

(** On strings in memory, [strlen] gives the length, [strcmp] orders them as
    strings of unsigned bytes, and [strcpy] to a place apart from the string
    makes a copy of it and changes nothing else. *)
Theorem strings_spec (m : mem) (p q s : Z) (l l' : bytes) (fuel : nat) :
  cstr m p l -> cstr m q l' -> Forall is_byte (l ++ l') -> apart s p (Z.of_nat (length l) + 1) -> (length l < fuel)%nat ->
  strlen fuel m p 0 = Done (Z.of_nat (length l)) /\
  (exists r, strcmp fuel m p q = Done r /\ (r ?= 0) = lex l l') /\
  exists m', strcpy fuel m s p = Done m' /\ cstr m' s l /\ forall x, ~ (s <= x <= s + Z.of_nat (length l)) -> m' x = m x.
Proof.
  intros Hp Hq Hb Ha Hf. assert (Hpos : forall a x, cstr m a x -> Forall is_byte x -> Forall (fun c => 0 < c) x).
  { intros a x (_ & _ & H) Hx. rewrite Forall_forall in *. intros c Hc. specialize (H c Hc). specialize (Hx c Hc). unfold is_byte in Hx. lia. }
  apply Forall_app in Hb as [? ?]. split; [|split].
  - rewrite (strlen_spec m p l 0) by (rewrite ?Z.add_0_r; done). done.
  - eapply strcmp_spec; eauto.
  - by apply strcpy_spec.
Qed.

Lemma strings_spec_witness :
  let m := <[100 := 104]> (<[101 := 105]> (<[200 := 104]> (fun _ => 0))) in
  strlen 9 m 100 0 = Done 2 /\ exists r, strcmp 9 m 100 200 = Done r /\ (r ?= 0) = Gt.
Proof.
  intros m. destruct (strings_spec m 100 200 0 [104; 105] [104] 9) as (H1 & H2 & _).
  - repeat split; [repeat constructor; discriminate].
  - repeat split; [repeat constructor; discriminate].
  - repeat constructor; discriminate.
  - left. vm_compute. discriminate.
  - vm_compute. lia.
  - split; [exact H1|exact H2].
Defined.
End Ulib.
