(* ===== verification/Sh.v ===== *)
(** The shell, user/sh.c: its lexer, its parser and [nulterminate].

    The command line is the [bytes] of the buffer before its NUL, a pointer into
    it an offset.  A [struct cmd *] is the index of a node in the store of the
    nodes [malloc] has given, so that a node is filled in after others point to
    it as in the code.  [panic] ends the shell's child. *)

From S2P Require Import Prelude.
From Stdlib Require Import Ascii.
Local Open Scope Z_scope.

Module Sh.

(** * Code *)

Definition MAXARGS : nat := 10.
Definition O_RDONLY : Z := 0.
Definition O_WRONLY : Z := 1.
Definition O_CREATE : Z := 0x200.
Definition O_TRUNC : Z := 0x400.

(** [strchr] of user/ulib.c as a test: a NUL is in no string. *)
Definition strchr (l : bytes) (c : Z) : bool := bool_decide (c ∈ l).

(** The structs of a command; a null pointer is [None]. *)
Inductive node :=
| EXEC (argv eargv : list (option nat))
| REDIR (cmd : nat) (file efile : nat) (mode fd : Z)
| PIPE (left right : nat)
| LIST (left right : nat)
| BACK (cmd : nat).

(** The parser's position [*ps] and the nodes allocated so far. *)
Record pst := PSt { ps : nat; nodes : list node }.
Definition P (A : Type) : Type := pst -> outcome (A * pst).
#[export] Instance P_ret : MRet P := fun _ a s => Done (a, s).
#[export] Instance P_bind : MBind P := fun _ _ f m s => '(a, s) ← m s; f a s.
Definition panic {A} (msg : string) : P A := fun _ => Panicked msg.
Definition get_ps : P nat := fun s => Done (ps s, s).
Definition set_ps (p : nat) : P unit := fun s => Done (tt, PSt p (nodes s)).

(** ** Constructors *)

Definition alloc (n : node) : P nat := fun s => Done (length (nodes s), PSt (ps s) (nodes s ++ [n])).
Definition execcmd : P nat := alloc (EXEC (replicate MAXARGS None) (replicate MAXARGS None)).
Definition redircmd (subcmd file efile : nat) (mode fd : Z) : P nat := alloc (REDIR subcmd file efile mode fd).
Definition pipecmd (left right : nat) : P nat := alloc (PIPE left right).
Definition listcmd (left right : nat) : P nat := alloc (LIST left right).
Definition backcmd (subcmd : nat) : P nat := alloc (BACK subcmd).

(** [cmd->argv[argc] = q; cmd->eargv[argc] = eq;] *)
Definition set_arg (cmd argc : nat) (q eq : option nat) : P unit := fun s =>
  match nodes s !! cmd with
  | Some (EXEC argv eargv) =>
      if (argc <? MAXARGS)%nat
      then Done (tt, PSt (ps s) (<[cmd := EXEC (<[argc := q]> argv) (<[argc := eq]> eargv)]> (nodes s)))
      else Unspec
  | _ => Unspec
  end.

(** ** Parsing *)

Definition whitespace : bytes := str " " ++ [9; 13; 10; 11].
Definition symbols : bytes := str "<|>&;()".

Section code.
(** The command line; [es] is the offset of its NUL. *)
Variable s : bytes.
Definition es : nat := length s.
(** [*p] *)
Definition at_ (p : nat) : Z := nth p s 0.

(** [while(s < es && ...) s++;], [n] bytes left before [es]. *)
Fixpoint skip (n : nat) (ok : Z -> bool) (p : nat) : nat :=
  match n with
  | O => p
  | S n => if ok (at_ p) then skip n ok (S p) else p
  end.
Definition skip_ws (p : nat) : nat := skip (es - p) (strchr whitespace) p.
Definition word_char (c : Z) : bool := negb (strchr whitespace c) && negb (strchr symbols c).

(** The token's kind, its start, its end and the position after it. *)
Definition gettoken_at (p : nat) : Z * nat * nat * nat :=
  let q := skip_ws p in
  let c := at_ q in
  let '(ret, e) :=
    if c =? 0 then (c, q)
    else if strchr (str "|();&<") c then (c, S q)
    else if c =? chr ">" then
      if at_ (S q) =? chr ">" then (chr "+", S (S q)) else (c, S q)
    else (chr "a", skip (es - q) word_char q) in
  (ret, q, e, skip_ws e).
Definition gettoken : P (Z * nat * nat) :=
  p ← get_ps;
  let '(ret, q, eq, p) := gettoken_at p in
  set_ps p;; mret (ret, q, eq).

Definition peek (toks : bytes) : P bool :=
  p ← get_ps;
  let p := skip_ws p in
  set_ps p;; mret (negb (at_ p =? 0) && strchr toks (at_ p)).

Fixpoint parseredirs (fuel : nat) (cmd : nat) : P nat :=
  match fuel with
  | O => fun _ => OutOfFuel
  | S fuel =>
      b ← peek (str "<>");
      if b : bool then
        t ← gettoken;
        w ← gettoken;
        if negb (w.1.1 =? chr "a") then panic "missing file for redirection" else
        cmd ←
          (if t.1.1 =? chr "<" then redircmd cmd w.1.2 w.2 O_RDONLY 0
           else if t.1.1 =? chr ">" then redircmd cmd w.1.2 w.2 (Z.lor (Z.lor O_WRONLY O_CREATE) O_TRUNC) 1
           else if t.1.1 =? chr "+" then redircmd cmd w.1.2 w.2 (Z.lor O_WRONLY O_CREATE) 1
           else mret cmd);
        parseredirs fuel cmd
      else mret cmd
  end.

(** The loop of [parseexec], after [argc] arguments. *)
Fixpoint parseargs (fuel : nat) (cmd argc ret : nat) : P nat :=
  match fuel with
  | O => fun _ => OutOfFuel
  | S fuel =>
      let fin := set_arg cmd argc None None;; mret ret in
      b ← peek (str "|)&;");
      if b : bool then fin else
      t ← gettoken;
      if t.1.1 =? 0 then fin
      else if negb (t.1.1 =? chr "a") then panic "syntax"
      else
        set_arg cmd argc (Some t.1.2) (Some t.2);;
        let argc := S argc in
        if (MAXARGS <=? argc)%nat then panic "too many args" else
        ret ← parseredirs (S es) ret;
        parseargs fuel cmd argc ret
  end.

(** [while(peek(ps, es, "&"))] *)
Fixpoint parseback (fuel : nat) (cmd : nat) : P nat :=
  match fuel with
  | O => fun _ => OutOfFuel
  | S fuel =>
      b ← peek (str "&");
      if b : bool then gettoken;; cmd ← backcmd cmd; parseback fuel cmd
      else mret cmd
  end.

Definition parseblock (parseline : P nat) : P nat :=
  b ← peek (str "(");
  if negb b then panic "parseblock" else
  gettoken;;
  cmd ← parseline;
  b ← peek (str ")");
  if negb b then panic "syntax - missing )" else
  gettoken;;
  parseredirs (S es) cmd.

Definition parseexec (parseline : P nat) : P nat :=
  b ← peek (str "(");
  if b : bool then parseblock parseline else
  cmd ← execcmd;
  ret ← parseredirs (S es) cmd;
  parseargs (S es) cmd 0 ret.

Fixpoint parsepipe (fuel : nat) (parseline : P nat) : P nat :=
  match fuel with
  | O => fun _ => OutOfFuel
  | S fuel =>
      cmd ← parseexec parseline;
      b ← peek (str "|");
      if b : bool then
        gettoken;;
        right ← parsepipe fuel parseline;
        pipecmd cmd right
      else mret cmd
  end.

Fixpoint parseline (fuel : nat) : P nat :=
  match fuel with
  | O => fun _ => OutOfFuel
  | S fuel =>
      cmd ← parsepipe (S es) (parseline fuel);
      cmd ← parseback (S es) cmd;
      b ← peek (str ";");
      if b : bool then
        gettoken;;
        right ← parseline fuel;
        listcmd cmd right
      else mret cmd
  end.
End code.

(** ** NUL termination *)

(** [for(i=0; ecmd->argv[i]; i++) *ecmd->eargv[i] = 0;] *)
Fixpoint nul_args (argv eargv : list (option nat)) (buf : bytes) : outcome bytes :=
  match argv, eargv with
  | None :: _, _ => Done buf
  | Some _ :: argv, Some e :: eargv => nul_args argv eargv (<[e := 0]> buf)
  | _, _ => Unspec
  end.

(** The buffer includes the NUL at the end of the line. *)
Fixpoint nulterminate (fuel : nat) (ns : list node) (cmd : nat) (buf : bytes) : outcome bytes :=
  match fuel with
  | O => OutOfFuel
  | S fuel =>
      match ns !! cmd with
      | None => Unspec
      | Some (EXEC argv eargv) => nul_args argv eargv buf
      | Some (REDIR c _ efile _ _) => buf ← nulterminate fuel ns c buf; Done (<[efile := 0]> buf)
      | Some (PIPE l r) | Some (LIST l r) => buf ← nulterminate fuel ns l buf; nulterminate fuel ns r buf
      | Some (BACK c) => nulterminate fuel ns c buf
      end
  end.

(** The root of the command, its nodes and the buffer. *)
Definition parsecmd (s : bytes) : outcome (nat * list node * bytes) :=
  '(cmd, st) ← parseline s (S (length s)) (PSt 0 []);
  '(_, st) ← peek s [] st;
  if negb (ps st =? length s)%nat then Panicked "syntax" else
  buf ← nulterminate (S cmd) (nodes st) cmd (s ++ [0]);
  Done (cmd, nodes st, buf).
End Sh.
