(* ===== verification/ShSpec.v ===== *)
(** The parser of user/sh.c against the grammar of command lines.

    [tokenize] is a reference lexer, [aline] the syntax of command lines,
    [rline] a reference parser on tokens.  The code implements the reference
    parser token by token, and the reference parser decides the grammar. *)

From S2P Require Import Prelude Sh.
From Stdlib Require Import Ascii.
Local Open Scope Z_scope.
Import Sh.

(** * Tokens *)

(** A word, or a symbol; [>>] is the symbol [+], as in the code. *)
Inductive token := TWord (w : bytes) | TSym (c : Z).

Definition flush (w : bytes) : list token := if decide (w = []) then [] else [TWord w].

(** The tokens of a line, after the letters [w] of an unfinished word. *)
Fixpoint tokens (w s : bytes) : list token :=
  match s with
  | [] => flush w
  | c :: s =>
      if strchr whitespace c then flush w ++ tokens [] s
      else if strchr symbols c then
        flush w ++
        match s with
        | d :: s' => if (c =? chr ">") && (d =? chr ">") then TSym (chr "+") :: tokens [] s' else TSym c :: tokens [] s
        | [] => [TSym c]
        end
      else tokens (w ++ [c]) s
  end.
Definition tokenize (s : bytes) : list token := tokens [] s.

(** The value [gettoken] returns, and the character [peek] sees. *)
Definition code (T : list token) : Z :=
  match T with [] => 0 | TWord _ :: _ => chr "a" | TSym c :: _ => c end.
Definition head_char (c : Z) : Z := if c =? chr "+" then chr ">" else c.
Definition head_in (toks : bytes) (T : list token) : bool :=
  match T with TSym c :: _ => strchr toks (head_char c) | _ => false end.

Definition tok_ok (t : token) : Prop :=
  match t with
  | TWord w => w <> [] /\ Forall (fun c => word_char c = true) w
  | TSym c => c ∈ str "|();&<>+"
  end.

Lemma word_char_spec c : word_char c = true <-> strchr whitespace c = false /\ strchr symbols c = false.
Proof. unfold word_char. rewrite andb_true_iff, !negb_true_iff. tauto. Qed.

Lemma symbols_spec c : strchr symbols c = true <-> c ∈ str "|();&<>".
Proof. unfold strchr. rewrite bool_decide_eq_true. unfold symbols, str. simpl. set_solver. Qed.

Lemma tokens_ok w s : Forall (fun c => word_char c = true) w -> Forall tok_ok (tokens w s).
Proof.
  assert (Hf : forall w, Forall (fun c => word_char c = true) w -> Forall tok_ok (flush w)).
  { intros u Hu. unfold flush. case_decide; repeat constructor; done. }
  revert w. induction s as [s IH] using (induction_ltof1 _ length). unfold ltof in IH. intros w Hw.
  destruct s as [|c s]; simpl; [by apply Hf|].
  destruct (strchr whitespace c) eqn:Ew; [apply Forall_app; split; [by apply Hf|apply IH; simpl; [lia|constructor]]|].
  destruct (strchr symbols c) eqn:Es; [|apply IH; [simpl; lia|]].
  - assert (Hc : tok_ok (TSym c)). { apply symbols_spec in Es. simpl. unfold str in *. simpl in *. set_solver. }
    apply Forall_app; split; [by apply Hf|]. destruct s as [|d s]; [by constructor|].
    destruct (_ && _); constructor; [simpl; unfold str; simpl; set_solver|apply IH; [simpl; lia|constructor]|done|apply IH; [simpl; lia|constructor]].
  - apply Forall_app; split; [done|]. repeat constructor. by apply word_char_spec.
Qed.

(** A word ends where the next character is not a letter. *)
Definition stops (s : bytes) : Prop := match s with [] => True | c :: _ => word_char c = false end.

Lemma tokens_stop w s : stops s -> tokens w s = flush w ++ tokens [] s.
Proof.
  destruct s as [|c s]; simpl; [by rewrite app_nil_r|]. intros Hc.
  destruct (strchr whitespace c) eqn:Ew; [done|]. destruct (strchr symbols c) eqn:Es; [done|].
  assert (word_char c = true) by (by apply word_char_spec). congruence.
Qed.

Lemma tokens_word w v s : Forall (fun c => word_char c = true) v -> tokens w (v ++ s) = tokens (w ++ v) s.
Proof.
  revert w. induction v as [|c v IH]; intros w Hv; simpl; [by rewrite app_nil_r|].
  apply Forall_cons in Hv as [Hc Hv]. apply word_char_spec in Hc as [-> ->]. rewrite IH by done. by rewrite <- app_assoc.
Qed.

Lemma tokens_white v s : Forall (fun c => strchr whitespace c = true) v -> tokens [] (v ++ s) = tokens [] s.
Proof. induction 1 as [|c v Hc _ IH]; simpl; [done|]. by rewrite Hc. Qed.

Section lexer.
Variable s : bytes.
Hypothesis no_nul : 0 ∉ s.

Lemma drop_at p : (p < length s)%nat -> drop p s = at_ s p :: drop (S p) s.
Proof.
  intros Hp. unfold at_. destruct (lookup_lt_is_Some_2 s p Hp) as [c Hc]. rewrite (drop_S s c p Hc). by rewrite (nth_lookup_Some _ _ _ _ Hc).
Qed.

Lemma at_end p : (length s <= p)%nat -> at_ s p = 0.
Proof. intros. unfold at_. by apply nth_overflow. Qed.

Lemma at_nonzero p : (p < length s)%nat -> at_ s p <> 0.
Proof.
  intros Hp E. apply no_nul. rewrite <- E. unfold at_. destruct (lookup_lt_is_Some_2 s p Hp) as [c Hc].
  rewrite (nth_lookup_Some _ _ _ _ Hc). by eapply list_elem_of_lookup_2.
Qed.

(** What [skip] passes over. *)
Lemma skip_spec ok p : (p <= length s)%nat ->
  exists v, drop p s = v ++ drop (skip s (es s - p) ok p) s /\ Forall (fun c => ok c = true) v /\
    skip s (es s - p) ok p = (p + length v)%nat /\ (p + length v <= length s)%nat /\
    ((skip s (es s - p) ok p < length s)%nat -> ok (at_ s (skip s (es s - p) ok p)) = false).
Proof.
  unfold es. remember (length s - p)%nat as n eqn:En. revert p En. induction n as [|n IH]; intros p En Hp; simpl.
  { exists []. split; [done|]. split; [constructor|]. simpl. split; [lia|]. split; lia. }
  destruct (ok (at_ s p)) eqn:E.
  - destruct (IH (S p)) as (v & Hv & Hok & Hlen & Hle & Hstop); [lia..|]. exists (at_ s p :: v).
    split; [rewrite drop_at by lia; simpl; by rewrite Hv at 1|]. split; [by constructor|]. simpl. split; [lia|]. split; [lia|done].
  - exists []. split; [done|]. split; [constructor|]. simpl. split; [lia|]. split; [lia|done].
Qed.

(** [q] and [e] delimit the word [w] of the line. *)
Definition word_is (q e : nat) (w : bytes) : Prop :=
  w <> [] /\ e = (q + length w)%nat /\ (e <= length s)%nat /\ w = take (length w) (drop q s) /\
  Forall (fun c => word_char c = true) w /\ stops (drop e s).

(** At this point of the line the tokens [T] are left. *)
Definition at_toks (st : pst) (T : list token) : Prop := (ps st <= length s)%nat /\ tokens [] (drop (ps st) s) = T.

Lemma at_toks_ok st T : at_toks st T -> Forall tok_ok T.
Proof. intros [_ <-]. apply tokens_ok. constructor. Qed.

Lemma skip_ws_spec p : (p <= length s)%nat ->
  (p <= skip_ws s p <= length s)%nat /\ tokens [] (drop (skip_ws s p) s) = tokens [] (drop p s) /\
  ((skip_ws s p < length s)%nat -> strchr whitespace (at_ s (skip_ws s p)) = false).
Proof.
  intros Hp. destruct (skip_spec (strchr whitespace) p Hp) as (v & Hv & Hw & Hlen & Hle & Hstop). fold (skip_ws s p) in *.
  split; [lia|]. split; [|done]. rewrite Hv at 1. by rewrite tokens_white.
Qed.

(** The token at a position that is not white space. *)
Lemma token_head q : (q < length s)%nat -> strchr whitespace (at_ s q) = false ->
  let c := at_ s q in
  (strchr (str "|();&<") c = true /\ tokens [] (drop q s) = TSym c :: tokens [] (drop (S q) s)) \/
  (c = chr ">" /\ at_ s (S q) = chr ">" /\ (S q < length s)%nat /\ tokens [] (drop q s) = TSym (chr "+") :: tokens [] (drop (S (S q)) s)) \/
  (c = chr ">" /\ at_ s (S q) <> chr ">" /\ tokens [] (drop q s) = TSym c :: tokens [] (drop (S q) s)) \/
  (word_char c = true).
Proof.
  intros Hq Hw c. rewrite (drop_at q Hq). fold c. fold c in Hw. cbn [tokens]. rewrite Hw.
  destruct (strchr symbols c) eqn:Es; [|right; right; right; by apply word_char_spec].
  destruct (Z.eqb_spec c (chr ">")) as [Ec|Ec].
  - right. destruct (decide (S q < length s)%nat) as [Hlt|Hge].
    + rewrite (drop_at (S q) Hlt). destruct (Z.eqb_spec (at_ s (S q)) (chr ">")); simpl; [left|right; left]; done.
    + right; left. rewrite at_end by lia. rewrite drop_ge by lia. simpl. split; [done|]. split; done.
  - left. assert (Hc : c ∈ str "|();&<").
    { apply symbols_spec in Es. unfold str in *. simpl in *. set_solver. }
    split; [by apply bool_decide_eq_true|]. simpl. destruct (drop (S q) s); done.
Qed.

Lemma word_token q : (q < length s)%nat -> word_char (at_ s q) = true ->
  let e := skip s (es s - q) word_char q in
  exists w, word_is q e w /\ (q < e)%nat /\ tokens [] (drop q s) = TWord w :: tokens [] (drop e s).
Proof.
  intros Hq Hc e. destruct (skip_spec word_char q) as (w & Hw & Hok & Hlen & Hle & Hstop); [lia|]. fold e in Hw, Hlen, Hstop.
  assert (Hst : stops (drop e s)).
  { destruct (decide (e < length s)%nat) as [Hlt|Hge]; [rewrite drop_at by done; by apply Hstop|by rewrite drop_ge by lia]. }
  assert (Hne : w <> []).
  { intros ->. simpl in *. assert (E : e = q) by lia. rewrite E in Hstop. rewrite Hstop in Hc by lia. done. }
  exists w. assert (length w <> 0)%nat by (by destruct w). split; [|split; [lia|]].
  - split; [done|]. split; [lia|]. split; [lia|]. split; [by rewrite Hw, take_app_length|]. done.
  - rewrite Hw at 1. rewrite tokens_word by done. simpl. rewrite tokens_stop by done. unfold flush. by rewrite decide_False.
Qed.

Lemma gettoken_at_spec p T : (p <= length s)%nat -> tokens [] (drop p s) = T ->
  exists q e, gettoken_at s p = (code T, q, e, skip_ws s e) /\ (e <= length s)%nat /\
    tokens [] (drop e s) = tail T /\ forall w T', T = TWord w :: T' -> word_is q e w.
Proof.
  intros Hp <-. destruct (skip_ws_spec p Hp) as (Hq & Eq & Hw). rewrite <- Eq. unfold gettoken_at.
  set (q := skip_ws s p) in *. exists q. destruct (decide (q < length s)%nat) as [Hlt|Hge].
  - rewrite (proj2 (Z.eqb_neq _ _)) by (by apply at_nonzero).
    destruct (token_head q Hlt (Hw Hlt)) as [[-> Et]|[(Ec & Ec' & Hlt' & Et)|[(Ec & Ec' & Et)|Hc]]].
    + exists (S q). rewrite Et. split; [done|]. split; [lia|]. split; [done|]. by intros.
    + exists (S (S q)). rewrite Et, Ec, Ec'. split; [done|]. split; [lia|]. split; [done|]. by intros.
    + exists (S q). rewrite Et, Ec, (proj2 (Z.eqb_neq (at_ s (S q)) _)) by done. split; [done|]. split; [lia|]. split; [done|]. by intros.
    + destruct (word_token q Hlt Hc) as (w & Hword & Hqe & Et). rewrite Et.
      apply word_char_spec in Hc as [_ Hs].
      assert (Hn : forall c, c ∈ symbols -> at_ s q <> c).
      { intros c Hin <-. unfold strchr in Hs. by rewrite bool_decide_eq_false in Hs. }
      assert (strchr (str "|();&<") (at_ s q) = false) as ->.
      { apply bool_decide_eq_false. intros Hin. apply (Hn (at_ s q)); [|done].
        unfold symbols, str in *. simpl in *. set_solver. }
      rewrite (proj2 (Z.eqb_neq _ _)) by (apply Hn; unfold symbols, str; simpl; set_solver).
      eexists. split; [done|]. destruct Hword as (? & ? & ? & ?) eqn:Hd. split; [done|]. split; [done|].
      intros w' T' [= <- _]. done.
  - rewrite at_end by lia. exists q. rewrite drop_ge by lia. simpl. split; [done|]. split; [lia|]. split; [done|].
    intros w T'. unfold flush. by rewrite decide_True.
Qed.

Lemma gettoken_step st T : at_toks st T ->
  exists q e st', gettoken s st = Done ((code T, q, e), st') /\ nodes st' = nodes st /\ at_toks st' (tail T) /\
    (forall w T', T = TWord w :: T' -> word_is q e w).
Proof.
  intros [Hp HT]. destruct (gettoken_at_spec _ _ Hp HT) as (q & e & E & He & Et & Hw).
  exists q, e, (PSt (skip_ws s e) (nodes st)). destruct (skip_ws_spec e He) as (? & E' & _).
  split; [unfold gettoken, mbind, P_bind; cbn -[gettoken_at]; by rewrite E|]. split; [done|]. split; [|done]. split; simpl; [lia|congruence].
Qed.

(** [peek] sees the first character of the next token; the characters it looks
    for are symbols. *)
Lemma peek_step st T toks : at_toks st T -> (forall c, c ∈ toks -> c ∈ symbols) ->
  exists st', peek s toks st = Done (head_in toks T, st') /\ nodes st' = nodes st /\ at_toks st' T /\
    (T = [] -> ps st' = length s).
Proof.
  intros [Hp HT] Htoks. destruct (skip_ws_spec (ps st) Hp) as (Hq & Eq & Hw). unfold peek, mbind, P_bind. cbn -[at_ skip_ws strchr].
  set (q := skip_ws s (ps st)) in *. exists (PSt q (nodes st)). rewrite HT in Eq.
  assert (Hb : negb (at_ s q =? 0) && strchr toks (at_ s q) = head_in toks T).
  { destruct (decide (q < length s)%nat) as [Hlt|Hge].
    - rewrite (proj2 (Z.eqb_neq _ _)) by (by apply at_nonzero). simpl.
      destruct (token_head q Hlt (Hw Hlt)) as [[Hc Et]|[(Ec & Ec' & Hlt' & Et)|[(Ec & Ec' & Et)|Hc]]].
      + rewrite Eq in Et. rewrite Et. simpl. unfold head_char. destruct (Z.eqb_spec (at_ s q) (chr "+")) as [E|]; [|done].
        rewrite E in Hc. by vm_compute in Hc.
      + rewrite Eq in Et. rewrite Et. by rewrite Ec.
      + rewrite Eq in Et. rewrite Et. by rewrite Ec.
      + destruct (word_token q Hlt Hc) as (w & _ & _ & Et). rewrite Eq in Et. rewrite Et. simpl.
        apply bool_decide_eq_false. intros Hin%Htoks. apply word_char_spec in Hc as [_ Hs].
        unfold strchr in Hs. by rewrite bool_decide_eq_false in Hs.
    - rewrite at_end by lia. rewrite drop_ge in Eq by lia. by rewrite <- Eq. }
  rewrite Hb. split; [done|]. split; [done|]. split; [by split; [simpl; lia|]|].
  intros ->. simpl. destruct (decide (q < length s)%nat) as [Hlt|]; [|lia]. exfalso.
  destruct (token_head q Hlt (Hw Hlt)) as [[Hc Et]|[(Ec & Ec' & Hlt' & Et)|[(Ec & Ec' & Et)|Hc]]]; try congruence.
  destruct (word_token q Hlt Hc) as (w & _ & _ & Et). congruence.
Qed.
End lexer.

(** * The grammar *)

(** A redirection: [<], [>] or [+] (for [>>]), and the file. *)
Record redir := Redir { r_kind : Z; r_file : bytes }.

(** exec ::= redirs (word redirs)* | '(' line ')' redirs
    pipe ::= exec ['|' pipe]
    line ::= pipe '&'* [';' line] *)
Inductive aline := ALast (p : apipe) (bg : nat) | ASeq (p : apipe) (bg : nat) (l : aline)
with apipe := PLast (e : aexec) | PPipe (e : aexec) (p : apipe)
with aexec := ESimple (rs : list redir) (args : list (bytes * list redir)) | EBlock (l : aline) (rs : list redir).

Scheme aline_mut := Induction for aline Sort Prop
with apipe_mut := Induction for apipe Sort Prop
with aexec_mut := Induction for aexec Sort Prop.
Combined Scheme syntax_ind from aline_mut, apipe_mut, aexec_mut.

Definition is_redir (c : Z) : bool := strchr (str "<>+") c.

Fixpoint redirs_toks (rs : list redir) : list token :=
  match rs with
  | [] => []
  | r :: rs => TSym (r_kind r) :: TWord (r_file r) :: redirs_toks rs
  end.
Fixpoint args_toks (args : list (bytes * list redir)) : list token :=
  match args with
  | [] => []
  | (w, rs) :: args => TWord w :: redirs_toks rs ++ args_toks args
  end.
Fixpoint line_toks (l : aline) : list token :=
  match l with
  | ALast p bg => pipe_toks p ++ replicate bg (TSym (chr "&"))
  | ASeq p bg l => pipe_toks p ++ replicate bg (TSym (chr "&")) ++ TSym (chr ";") :: line_toks l
  end
with pipe_toks (p : apipe) : list token :=
  match p with
  | PLast e => exec_toks e
  | PPipe e p => exec_toks e ++ TSym (chr "|") :: pipe_toks p
  end
with exec_toks (e : aexec) : list token :=
  match e with
  | ESimple rs args => redirs_toks rs ++ args_toks args
  | EBlock l rs => TSym (chr "(") :: line_toks l ++ TSym (chr ")") :: redirs_toks rs
  end.

(** At most nine arguments; redirections have a redirection symbol. *)
Definition redirs_ok (rs : list redir) : Prop := Forall (fun r => is_redir (r_kind r) = true) rs.
Definition args_ok (args : list (bytes * list redir)) : Prop :=
  (length args < MAXARGS)%nat /\ Forall (fun a => redirs_ok a.2) args.
Fixpoint line_ok (l : aline) : Prop :=
  match l with
  | ALast p _ => pipe_ok p
  | ASeq p _ l => pipe_ok p /\ line_ok l
  end
with pipe_ok (p : apipe) : Prop :=
  match p with
  | PLast e => exec_ok e
  | PPipe e p => exec_ok e /\ pipe_ok p
  end
with exec_ok (e : aexec) : Prop :=
  match e with
  | ESimple rs args => redirs_ok rs /\ args_ok args
  | EBlock l rs => line_ok l /\ redirs_ok rs
  end.

(** The command a line stands for: redirections wrap what is to their left. *)
Inductive tree :=
| TExec (argv : list bytes)
| TRedir (t : tree) (file : bytes) (mode fd : Z)
| TPipe (l r : tree)
| TList (l r : tree)
| TBack (t : tree).

Definition redir_mode (k : Z) : Z :=
  if k =? chr "<" then O_RDONLY
  else if k =? chr ">" then Z.lor (Z.lor O_WRONLY O_CREATE) O_TRUNC else Z.lor O_WRONLY O_CREATE.
Definition redir_fd (k : Z) : Z := if k =? chr "<" then 0 else 1.
Definition wrap (t : tree) (rs : list redir) : tree :=
  foldl (fun t r => TRedir t (r_file r) (redir_mode (r_kind r)) (redir_fd (r_kind r))) t rs.
Definition args_redirs (args : list (bytes * list redir)) : list redir := concat args.*2.

Fixpoint line_tree (l : aline) : tree :=
  match l with
  | ALast p bg => Nat.iter bg TBack (pipe_tree p)
  | ASeq p bg l => TList (Nat.iter bg TBack (pipe_tree p)) (line_tree l)
  end
with pipe_tree (p : apipe) : tree :=
  match p with
  | PLast e => exec_tree e
  | PPipe e p => TPipe (exec_tree e) (pipe_tree p)
  end
with exec_tree (e : aexec) : tree :=
  match e with
  | ESimple rs args => wrap (TExec args.*1) (rs ++ args_redirs args)
  | EBlock l rs => wrap (line_tree l) rs
  end.

(** * The reference parser *)

Fixpoint rredirs (T : list token) : option (list redir * list token) :=
  match T with
  | TSym k :: T1 =>
      if is_redir k then
        match T1 with
        | TWord f :: T2 => '(rs, T3) ← rredirs T2; Some (Redir k f :: rs, T3)
        | _ => None
        end
      else Some ([], T)
  | _ => Some ([], T)
  end.
Fixpoint rargs (fuel argc : nat) (T : list token) : option (list (bytes * list redir) * list token) :=
  match fuel, T with
  | S fuel, TWord w :: T =>
      if (MAXARGS <=? S argc)%nat then None else
      '(rs, T) ← rredirs T; '(args, T) ← rargs fuel (S argc) T; Some ((w, rs) :: args, T)
  | S _, TSym c :: _ => if strchr (str "|)&;") c then Some ([], T) else None
  | S _, [] => Some ([], [])
  | O, _ => None
  end.
Fixpoint rback (T : list token) : nat * list token :=
  match T with
  | TSym c :: T' => if c =? chr "&" then let '(n, T) := rback T' in (S n, T) else (O, T)
  | _ => (O, T)
  end.
Definition rexec (rline : list token -> option (aline * list token)) (n : nat) (T : list token)
    : option (aexec * list token) :=
  if head_in (str "(") T then
    '(l, T) ← rline (tail T);
    if head_in (str ")") T then '(rs, T) ← rredirs (tail T); Some (EBlock l rs, T) else None
  else '(rs, T) ← rredirs T; '(args, T) ← rargs n 0 T; Some (ESimple rs args, T).
Fixpoint rpipe (fuel : nat) (rline : list token -> option (aline * list token)) (n : nat) (T : list token)
    : option (apipe * list token) :=
  match fuel with
  | O => None
  | S fuel =>
      '(e, T) ← rexec rline n T;
      if head_in (str "|") T then '(p, T) ← rpipe fuel rline n (tail T); Some (PPipe e p, T)
      else Some (PLast e, T)
  end.
Fixpoint rline (fuel n : nat) (T : list token) : option (aline * list token) :=
  match fuel with
  | O => None
  | S fuel =>
      '(p, T) ← rpipe n (rline fuel n) n T;
      let '(bg, T) := rback T in
      if head_in (str ";") T then '(l, T) ← rline fuel n (tail T); Some (ASeq p bg l, T)
      else Some (ALast p bg, T)
  end.

(** ** The reference parser decides the grammar *)

Lemma head_one d T : d <> chr ">" /\ d <> chr "+" -> head_in [d] T = true <-> T = TSym d :: tail T.
Proof.
  intros [Hd Hd']. destruct T as [|[w|c] T]; simpl; [done|done|]. unfold strchr, head_char. rewrite bool_decide_eq_true, list_elem_of_singleton.
  destruct (Z.eqb_spec c (chr "+")) as [->|Hc].
  - split; [intros <-; done|]. intros [= E]. subst d. done.
  - split; [by intros ->|]. by intros [= ->].
Qed.

Lemma rredirs_sound T rs T' : rredirs T = Some (rs, T') ->
  T = redirs_toks rs ++ T' /\ redirs_ok rs /\ head_in (str "<>") T' = false.
Proof.
  revert rs. induction T as [T IH] using (induction_ltof1 _ length). unfold ltof in IH. intros rs.
  destruct T as [|[w|k] T]; simpl.
  - intros [= <- <-]. split; [done|]. split; [constructor|done].
  - intros [= <- <-]. split; [done|]. split; [constructor|done].
  - destruct (is_redir k) eqn:Ek.
    + destruct T as [|[f|k'] T]; try done. destruct (rredirs T) as [[rs1 T1]|] eqn:E; [|done]. intros [= <- <-].
      destruct (IH T ltac:(simpl; lia) rs1 E) as (-> & Hok & Hh). split; [done|]. split; [|done]. by constructor.
    + intros [= <- <-]. split; [done|]. split; [constructor|]. simpl. unfold is_redir, strchr in *.
      rewrite bool_decide_eq_false in *. unfold head_char. intros Hin. apply Ek.
      destruct (Z.eqb_spec k (chr "+")) as [->|]; unfold str in *; simpl in *; set_solver.
Qed.

Lemma rargs_sound fuel argc T args T' : (argc < MAXARGS)%nat -> rargs fuel argc T = Some (args, T') ->
  T = args_toks args ++ T' /\ (argc + length args < MAXARGS)%nat /\ Forall (fun a => redirs_ok a.2) args.
Proof.
  revert argc T args. induction fuel as [|fuel IH]; intros argc T args Hc; [done|]. cbn [rargs].
  destruct T as [|[w|c] T].
  - intros [= <- <-]. simpl. split; [done|]. split; [lia|constructor].
  - destruct (Nat.leb_spec MAXARGS (S argc)); [done|]. destruct (rredirs T) as [[rs T1]|] eqn:E1; [|done]. simpl.
    destruct (rargs fuel (S argc) T1) as [[args1 T2]|] eqn:E2; [|done]. simpl. intros [= <- <-].
    apply rredirs_sound in E1 as (-> & Hrs & _).
    destruct (IH (S argc) T1 args1 ltac:(lia) E2) as (Er & Hlen & Hargs). subst T1.
    cbn [args_toks length]. simpl. rewrite <- app_assoc. split; [done|]. split; [lia|]. by constructor.
  - destruct (strchr _ c); [|done]. intros [= <- <-]. simpl. split; [done|]. split; [lia|constructor].
Qed.

Lemma rback_sound T n T' : rback T = (n, T') ->
  T = replicate n (TSym (chr "&")) ++ T' /\ head_in (str "&") T' = false.
Proof.
  revert n. induction T as [|[w|c] T IH]; intros n; simpl; [by intros [= <- <-]..|].
  destruct (Z.eqb_spec c (chr "&")) as [->|Hc].
  - destruct (rback T) as [n1 T1]. intros [= <- <-]. destruct (IH n1 eq_refl) as [-> ?]. done.
  - intros [= <- <-]. split; [done|]. apply not_true_iff_false. change (str "&") with [chr "&"]. rewrite head_one by done. simpl. congruence.
Qed.

Lemma rexec_sound rl n T e T' :
  (forall T l T', rl T = Some (l, T') -> T = line_toks l ++ T' /\ line_ok l) ->
  rexec rl n T = Some (e, T') -> T = exec_toks e ++ T' /\ exec_ok e.
Proof.
  intros Hl. unfold rexec. destruct (head_in (str "(") T) eqn:E1.
  - apply head_one in E1; [|done]. destruct (rl (tail T)) as [[l T1]|] eqn:E2; [|done]. simpl.
    destruct (head_in (str ")") T1) eqn:E3; [|done]. apply head_one in E3; [|done].
    destruct (rredirs (tail T1)) as [[rs T2]|] eqn:E4; [|done]. simpl. intros [= <- <-].
    apply Hl in E2 as [E2 Hok]. apply rredirs_sound in E4 as (E4 & Hrs & _). rewrite E4 in E3.
    rewrite E1, E2, E3. simpl. rewrite <- app_assoc. done.
  - destruct (rredirs T) as [[rs T1]|] eqn:E2; [|done]. simpl. destruct (rargs n 0 T1) as [[args T2]|] eqn:E3; [|done].
    simpl. intros [= <- <-]. apply rredirs_sound in E2 as (-> & Hrs & _).
    apply rargs_sound in E3 as (-> & Hlen & Hargs); [|unfold MAXARGS; lia]. simpl. rewrite <- app_assoc. done.
Qed.

Lemma rpipe_sound fuel rl n T p T' :
  (forall T l T', rl T = Some (l, T') -> T = line_toks l ++ T' /\ line_ok l) ->
  rpipe fuel rl n T = Some (p, T') -> T = pipe_toks p ++ T' /\ pipe_ok p.
Proof.
  intros Hl. revert T p. induction fuel as [|fuel IH]; intros T p; [done|]. simpl.
  destruct (rexec rl n T) as [[e T1]|] eqn:E1; [|done]. simpl. apply (rexec_sound _ _ _ _ _ Hl) in E1 as [-> He].
  destruct (head_in (str "|") T1) eqn:E2; [|by intros [= <- <-]]. apply head_one in E2; [|done].
  destruct (rpipe fuel rl n (tail T1)) as [[p1 T2]|] eqn:E3; [|done]. simpl. intros [= <- <-].
  destruct (IH _ _ E3) as [E4 Hp]. rewrite E2, E4. simpl. rewrite <- app_assoc. done.
Qed.

Lemma rline_sound fuel n T l T' : rline fuel n T = Some (l, T') -> T = line_toks l ++ T' /\ line_ok l.
Proof.
  revert T l T'. induction fuel as [|fuel IH]; intros T l T'; [done|]. simpl.
  destruct (rpipe n (rline fuel n) n T) as [[p T1]|] eqn:E1; [|done]. simpl.
  apply rpipe_sound in E1 as [-> Hp]; [|exact IH].
  destruct (rback T1) as [bg T2] eqn:E2. apply rback_sound in E2 as [-> _].
  destruct (head_in (str ";") T2) eqn:E3.
  - apply head_one in E3; [|done]. destruct (rline fuel n (tail T2)) as [[l1 T3]|] eqn:E4; [|done]. simpl. intros [= <- <-].
    destruct (IH _ _ _ E4) as [E5 Hl]. rewrite E3, E5. simpl. rewrite <- !app_assoc. done.
  - intros [= <- <-]. simpl. rewrite <- !app_assoc. done.
Qed.

(** What may follow. *)
Definition follows (l : bytes) (T : list token) : Prop :=
  match T with [] => True | TSym c :: _ => c ∈ l | TWord _ :: _ => False end.

Lemma follows_mono l l' T : follows l T -> l ⊆ l' -> follows l' T.
Proof. destruct T as [|[w|c] T]; simpl; [done|done|]. set_solver. Qed.

Lemma follows_head l toks T : follows l T -> (forall c, c ∈ l -> c <> chr "+" /\ c ∉ toks) -> head_in toks T = false.
Proof.
  destruct T as [|[w|c] T]; simpl; [done|done|]. intros Hc H. destruct (H c Hc) as [Hp Hn].
  unfold head_char. rewrite (proj2 (Z.eqb_neq _ _)) by done. by apply bool_decide_eq_false.
Qed.

Definition nonredir (T : list token) : Prop := match T with TSym c :: _ => is_redir c = false | _ => True end.

Lemma follows_nonredir T : follows (str "|&;)") T -> nonredir T.
Proof.
  destruct T as [|[w|c] T]; simpl; [done|done|]. intros Hc. apply bool_decide_eq_false.
  unfold str in *. simpl in *. set_solver.
Qed.

Lemma rredirs_complete rs T : redirs_ok rs -> nonredir T -> rredirs (redirs_toks rs ++ T) = Some (rs, T).
Proof.
  intros Hrs HT. induction Hrs as [|[k f] rs Hk _ IH]; simpl.
  - destruct T as [|[w|c] T]; simpl; [done|done|]. by rewrite HT.
  - simpl in Hk. by rewrite Hk, IH.
Qed.

Lemma rargs_complete fuel argc args T :
  (argc + length args < MAXARGS)%nat -> Forall (fun a => redirs_ok a.2) args -> follows (str "|&;)") T ->
  (length (args_toks args) < fuel)%nat -> rargs fuel argc (args_toks args ++ T) = Some (args, T).
Proof.
  revert argc args. induction fuel as [|fuel IH]; intros argc args Hlen Hargs HT Hf; [lia|].
  destruct args as [|[w rs] args]; cbn [args_toks app rargs].
  - destruct T as [|[w|c] T]; simpl in HT; [done|done|].
    assert (strchr (str "|)&;") c = true) as ->; [|done]. apply bool_decide_eq_true. unfold str in *. simpl in *. set_solver.
  - apply Forall_cons in Hargs as [Hrs Hargs]. cbn [args_toks length snd] in *. destruct (Nat.leb_spec MAXARGS (S argc)); [lia|].
    rewrite <- app_assoc, rredirs_complete; [|done|].
    + simpl. rewrite IH; [done|lia|done|done|]. rewrite length_app in Hf. lia.
    + destruct args as [|[w' rs'] args]; [by apply follows_nonredir|done].
Qed.

Lemma rback_complete n T : head_in (str "&") T = false -> rback (replicate n (TSym (chr "&")) ++ T) = (n, T).
Proof.
  intros HT. induction n as [|n IH]; simpl; [|by rewrite IH].
  destruct T as [|[w|c] T]; simpl; [done|done|]. destruct (Z.eqb_spec c (chr "&")) as [->|]; [done|done].
Qed.

Lemma complete :
  (forall l fuel n T, line_ok l -> follows (str ")") T -> (length (line_toks l ++ T) < fuel)%nat ->
     (length (line_toks l ++ T) < n)%nat -> rline fuel n (line_toks l ++ T) = Some (l, T)) /\
  (forall p k fuel n T, pipe_ok p -> follows (str "&;)") T -> (length (pipe_toks p ++ T) <= fuel)%nat ->
     (length (pipe_toks p ++ T) < n)%nat -> (length (pipe_toks p ++ T) < k)%nat ->
     rpipe k (rline fuel n) n (pipe_toks p ++ T) = Some (p, T)) /\
  (forall e fuel n T, exec_ok e -> follows (str "|&;)") T -> (length (exec_toks e ++ T) <= fuel)%nat ->
     (length (exec_toks e ++ T) < n)%nat -> rexec (rline fuel n) n (exec_toks e ++ T) = Some (e, T)).
Proof.
  apply syntax_ind.
  - intros p IHp bg fuel n T Hok HT Hf Hn. destruct fuel as [|fuel]; [lia|]. simpl in *. rewrite <- app_assoc in *.
    rewrite IHp; [|done| |lia..|].
    2: { destruct bg; simpl; [eapply follows_mono; [done|]|]; unfold str; simpl; set_solver. }
    2: lia.
    simpl. rewrite rback_complete by (eapply follows_head; [done|]; unfold str; simpl; set_solver).
    assert (head_in (str ";") T = false) as -> by (eapply follows_head; [done|]; unfold str; simpl; set_solver). done.
  - intros p IHp bg l IHl fuel n T [Hp Hl] HT Hf Hn. destruct fuel as [|fuel]; [lia|]. simpl in *. rewrite <- !app_assoc in *.
    rewrite IHp; [|done| |lia..|].
    2: { destruct bg; simpl; unfold str; simpl; set_solver. }
    2: lia.
    simpl. rewrite rback_complete by done. simpl. rewrite IHl; [done|done|done|..];
      repeat (progress (rewrite ?length_app in *; simpl in *)); lia.
  - intros e IHe k fuel n T Hok HT Hf Hn Hk. destruct k as [|k]; [lia|]. simpl in *.
    rewrite IHe; [|done|eapply follows_mono; [done|]; unfold str; simpl; set_solver|done..]. simpl.
    assert (head_in (str "|") T = false) as -> by (eapply follows_head; [done|]; unfold str; simpl; set_solver). done.
  - intros e IHe p IHp k fuel n T [He Hp] HT Hf Hn Hk. destruct k as [|k]; [lia|]. simpl in *. rewrite <- !app_assoc in *.
    rewrite IHe; [|done|simpl; unfold str; simpl; set_solver|done..]. simpl.
    rewrite IHp; [done|done|done|..]; rewrite !length_app in *; simpl in *; rewrite ?length_app in *; lia.
  - intros rs args fuel n T [Hrs [Hlen Hargs]] HT Hf Hn. simpl in *. rewrite <- app_assoc in *. unfold rexec.
    assert (head_in (str "(") (redirs_toks rs ++ args_toks args ++ T) = false) as ->.
    { destruct rs as [|[k f] rs]; simpl.
      - destruct args as [|[w rs] args]; simpl; [|done]. eapply follows_head; [done|]. unfold str; simpl; set_solver.
      - apply Forall_cons in Hrs as [Hk _]. simpl in Hk. unfold is_redir, strchr in Hk. apply bool_decide_eq_true in Hk.
        apply bool_decide_eq_false. unfold head_char. case_match; unfold str in *; simpl in *; [by intros ?%list_elem_of_singleton|].
        intros ->%list_elem_of_singleton. set_solver. }
    rewrite rredirs_complete; [|done|].
    + simpl. rewrite rargs_complete; [done|done|done|done|]. rewrite !length_app in Hn. lia.
    + destruct args as [|[w rs'] args]; [by apply follows_nonredir|done].
  - intros l IHl rs fuel n T [Hl Hrs] HT Hf Hn. simpl in *. rewrite <- app_assoc in *. unfold rexec. simpl.
    rewrite IHl; [|done|simpl; unfold str; simpl; set_solver|repeat (progress (rewrite ?length_app in *; simpl in *)); lia..].
    simpl. rewrite rredirs_complete; [done|done|]. by apply follows_nonredir.
Qed.
