(* ===== verification/ShProps.v ===== *)
(** The code of the parser of user/sh.c implements the reference parser, its
    nodes represent the command, and the words in the buffer end with NUL. *)

From S2P Require Import Prelude Sh ShSpec.
From Stdlib Require Import Ascii.
Local Open Scope Z_scope.
Import Sh.

(** * Commands in the store *)

Section reps.
(** Which offsets delimit which word. *)
Variable W : nat -> nat -> bytes -> Prop.

Definition args_rep (argv eargv : list (option nat)) (ws : list bytes) : Prop :=
  length argv = MAXARGS /\ length eargv = MAXARGS /\ (length ws < MAXARGS)%nat /\
  (forall i w, ws !! i = Some w -> exists q e, argv !! i = Some (Some q) /\ eargv !! i = Some (Some e) /\ W q e w) /\
  argv !! length ws = Some None.

(** The node [p] is the root of the command [t]. *)
Inductive reps (ns : list node) : nat -> tree -> Prop :=
| reps_exec p argv eargv ws :
    ns !! p = Some (EXEC argv eargv) -> args_rep argv eargv ws -> reps ns p (TExec ws)
| reps_redir p c q e mode fd t f :
    ns !! p = Some (REDIR c q e mode fd) -> (c < p)%nat -> W q e f -> reps ns c t -> reps ns p (TRedir t f mode fd)
| reps_pipe p l r tl tr :
    ns !! p = Some (PIPE l r) -> (l < p)%nat -> (r < p)%nat -> reps ns l tl -> reps ns r tr -> reps ns p (TPipe tl tr)
| reps_list p l r tl tr :
    ns !! p = Some (LIST l r) -> (l < p)%nat -> (r < p)%nat -> reps ns l tl -> reps ns r tr -> reps ns p (TList tl tr)
| reps_back p c t :
    ns !! p = Some (BACK c) -> (c < p)%nat -> reps ns c t -> reps ns p (TBack t).

Lemma reps_ext ns ns' p t : ns `prefix_of` ns' -> reps ns p t -> reps ns' p t.
Proof.
  intros Hp. induction 1; eauto using reps, prefix_lookup_Some.
Qed.

Lemma reps_lt ns p t : reps ns p t -> (p < length ns)%nat.
Proof. destruct 1; by eapply lookup_lt_Some. Qed.

(** From node [c] the redirections [rs] lead to node [p]. *)
Inductive chain (ns : list node) : nat -> list redir -> nat -> Prop :=
| chain_nil c : chain ns c [] c
| chain_cons c d q e r rs p :
    ns !! d = Some (REDIR c q e (redir_mode (r_kind r)) (redir_fd (r_kind r))) -> (c < d)%nat -> W q e (r_file r) ->
    chain ns d rs p -> chain ns c (r :: rs) p.

Lemma chain_reps ns c rs p t : chain ns c rs p -> reps ns c t -> reps ns p (wrap t rs).
Proof.
  intros Hc. revert t. induction Hc as [c|c d q e r rs p Hd Hlt Hw _ IH]; intros t Ht; [done|].
  simpl. apply IH. by econstructor.
Qed.

Lemma redirs_ext ns ns' c rs p : ns `prefix_of` ns' -> chain ns c rs p -> chain ns' c rs p.
Proof. intros Hp. induction 1; econstructor; eauto using prefix_lookup_Some. Qed.

Lemma chain_lt ns c rs p : chain ns c rs p -> (c < length ns)%nat -> (p < length ns)%nat.
Proof. induction 1 as [|c d q e r rs p Hd _ _ _ IH]; [done|]. intros _. apply IH. by eapply lookup_lt_Some. Qed.

Lemma chain_app ns c rs p rs' p' : chain ns c rs p -> chain ns p rs' p' -> chain ns c (rs ++ rs') p'.
Proof. induction 1; simpl; [done|]. intros. econstructor; eauto. Qed.

Lemma chain_upd ns k a b a' b' c rs p :
  ns !! k = Some (EXEC a b) -> chain ns c rs p -> chain (<[k := EXEC a' b']> ns) c rs p.
Proof.
  intros Hk. induction 1 as [|c d q e r rs p Hd Hlt Hw _ IH]; [constructor|]. econstructor; eauto.
  rewrite list_lookup_insert_ne; [done|]. intros ->. congruence.
Qed.
End reps.

(** * The code implements the reference parser *)

Section parser.
Variable s : bytes.
Hypothesis no_nul : 0 ∉ s.

Abbreviation at_toks := (at_toks s).
Abbreviation reps := (reps (word_is s)).
Abbreviation chain := (chain (word_is s)).

Lemma tokens_length w r : (length (tokens w r) <= length r + length (flush w))%nat.
Proof.
  revert w. induction r as [r IH] using (induction_ltof1 _ length). unfold ltof in IH. intros w.
  destruct r as [|c r]; simpl; [lia|].
  assert (Hnil : forall r', (length r' < S (length r))%nat -> (length (tokens [] r') <= length r')%nat).
  { intros r' Hr'. pose proof (IH r' ltac:(simpl; lia) []) as H. unfold flush in H. rewrite decide_True in H by done. simpl in H. lia. }
  destruct (strchr whitespace c).
  { rewrite length_app. pose proof (Hnil r ltac:(lia)). lia. }
  destruct (strchr symbols c).
  - rewrite length_app. destruct r as [|d r]; simpl; [lia|]. destruct (_ && _); simpl.
    + pose proof (Hnil r ltac:(simpl; lia)). lia.
    + pose proof (Hnil (d :: r) ltac:(simpl; lia)). simpl in *. lia.
  - pose proof (IH r ltac:(simpl; lia) (w ++ [c])) as H. unfold flush in *. rewrite decide_False in H by (by destruct w).
    simpl in H. lia.
Qed.

Lemma toks_length st T : at_toks st T -> (length T < S (es s))%nat.
Proof.
  intros [Hp <-]. pose proof (tokens_length [] (drop (ps st) s)) as H. unfold flush in H. rewrite decide_True in H by done.
  simpl in H. rewrite length_drop in H. unfold es. lia.
Qed.

(** One run of [m] against the reference function [f]. *)
Definition run_ok {A} (m : outcome (nat * pst)) (st : pst) (T : list token) (r : option (A * list token))
    (Q : list node -> nat -> A -> Prop) : Prop :=
  match r with
  | Some (a, T') => exists p st', m = Done (p, st') /\ at_toks st' T' /\ (length T' <= length T)%nat /\
      nodes st `prefix_of` nodes st' /\ Q (nodes st') p a
  | None => exists msg, m = Panicked msg
  end.

Lemma P_bind_Done {A B} (m : P A) (f : A -> P B) st a st' : m st = Done (a, st') -> (m ≫= f) st = f a st'.
Proof. intros E. unfold mbind, P_bind. by rewrite E. Qed.

(** Run the next [peek] or [gettoken]. *)
Ltac run_peek H :=
  match goal with
  | |- context [mbind _ (peek s ?toks) ?st] =>
      let st' := fresh "st" in let E := fresh "E" in let Hn := fresh "Hn" in let Ht := fresh "Ht" in
      destruct (peek_step s no_nul st _ toks H) as (st' & E & Hn & Ht & _);
        [unfold symbols, str; simpl; set_solver|]; rewrite (P_bind_Done _ _ _ _ _ E); clear E
  end.
Ltac run_token H :=
  match goal with
  | |- context [mbind _ (gettoken s) ?st] =>
      let q := fresh "q" in let e := fresh "e" in
      let st' := fresh "st" in let E := fresh "E" in let Hn := fresh "Hn" in let Ht := fresh "Ht" in let Hw := fresh "Hw" in
      destruct (gettoken_step s no_nul st _ H) as (q & e & st' & E & Hn & Ht & Hw); rewrite (P_bind_Done _ _ _ _ _ E); clear E
  end.

Lemma head_redir T : Forall tok_ok T ->
  head_in (str "<>") T = match T with TSym k :: _ => is_redir k | _ => false end.
Proof.
  destruct T as [|[w|k] T]; simpl; [done|done|]. intros [Hk _]%Forall_cons. simpl in Hk. unfold is_redir, strchr, head_char.
  apply bool_decide_ext. destruct (Z.eqb_spec k (chr "+")) as [->|]; unfold str in *; simpl in *; set_solver.
Qed.

Lemma parseredirs_ok fuel st T cmd : at_toks st T -> (length T < fuel)%nat -> (cmd < length (nodes st))%nat ->
  run_ok (parseredirs s fuel cmd st) st T (rredirs T) (fun ns p rs => chain ns cmd rs p).
Proof.
  revert st T cmd. induction fuel as [|fuel IH]; intros st T cmd HT Hf Hc; [lia|]. cbn [parseredirs].
  run_peek HT. rewrite head_redir by (by eapply at_toks_ok).
  destruct T as [|[w|k] T]; cbn [rredirs].
  - exists cmd, st0. split; [done|]. split; [done|]. split; [done|]. rewrite Hn. split; [done|constructor].
  - exists cmd, st0. split; [done|]. split; [done|]. split; [done|]. rewrite Hn. split; [done|constructor].
  - pose proof (at_toks_ok _ _ _ HT) as [Hk _]%Forall_cons. destruct (is_redir k) eqn:Ek.
    2: { exists cmd, st0. split; [done|]. split; [done|]. split; [done|]. rewrite Hn. split; [done|constructor]. }
    run_token Ht. cbn [tail] in Ht0. run_token Ht0. cbn [fst snd code].
    destruct T as [|[f|k'] T].
    { by eexists. }
    2: { pose proof (at_toks_ok _ _ _ Ht0) as [Hk' _]%Forall_cons. simpl in Hk'. cbn [code].
      rewrite (proj2 (Z.eqb_neq _ _)); [by eexists|]. intros ->. unfold str in Hk'. simpl in Hk'. set_solver. }
    rewrite Z.eqb_refl. cbn [negb]. specialize (Hw0 f T eq_refl). cbn [tail] in Ht1.
    assert (Hkind : exists st3, (if k =? chr "<" then redircmd cmd q0 e0 O_RDONLY 0
           else if k =? chr ">" then redircmd cmd q0 e0 (Z.lor (Z.lor O_WRONLY O_CREATE) O_TRUNC) 1
           else if k =? chr "+" then redircmd cmd q0 e0 (Z.lor O_WRONLY O_CREATE) 1 else mret cmd) st2
         = Done (length (nodes st2), st3) /\ st3 = PSt (ps st2) (nodes st2 ++ [REDIR cmd q0 e0 (redir_mode k) (redir_fd k)])).
    { eexists. split; [|done]. unfold redir_mode, redir_fd. apply bool_decide_eq_true in Ek.
      destruct (Z.eqb_spec k (chr "<")); [done|]. destruct (Z.eqb_spec k (chr ">")); [done|]. destruct (Z.eqb_spec k (chr "+")); [done|].
      unfold str in Ek. simpl in Ek. exfalso.
      repeat (apply elem_of_cons in Ek as [->|Ek]; [done|]). by apply elem_of_nil in Ek. }
    destruct Hkind as (st3 & E & ->). rewrite (P_bind_Done _ _ _ _ _ E).
    specialize (IH (PSt (ps st2) (nodes st2 ++ [REDIR cmd q0 e0 (redir_mode k) (redir_fd k)])) T (length (nodes st2)) Ht1).
    simpl in Hf. cbn [nodes] in IH. rewrite length_app in IH. specialize (IH ltac:(lia) ltac:(simpl; lia)). unfold run_ok in *.
    destruct (rredirs T) as [[rs T']|]; cbn [mbind option_bind]; [|done].
    destruct IH as (p & st' & E' & Ht' & Hlen & Hpre & Hch). exists p, st'. split; [done|]. split; [done|]. simpl. split; [lia|].
    assert (Hn2 : nodes st2 = nodes st) by congruence. simpl in Hpre. rewrite Hn2 in *. split.
    { etrans; [|exact Hpre]. by apply prefix_app_r. }
    econstructor; [|exact Hc|exact Hw0|exact Hch]. eapply prefix_lookup_Some; [|exact Hpre]. simpl.
    by rewrite lookup_app_r, Nat.sub_diag by lia.
Qed.

(** The arguments [parseexec] has stored so far. *)
Definition args_part (argv eargv : list (option nat)) (ws : list bytes) : Prop :=
  length argv = MAXARGS /\ length eargv = MAXARGS /\ (length ws < MAXARGS)%nat /\
  forall i w, ws !! i = Some w -> exists q e, argv !! i = Some (Some q) /\ eargv !! i = Some (Some e) /\ word_is s q e w.

Lemma args_part_snoc argv eargv ws q e w :
  args_part argv eargv ws -> word_is s q e w -> (S (length ws) < MAXARGS)%nat ->
  args_part (<[length ws := Some q]> argv) (<[length ws := Some e]> eargv) (ws ++ [w]).
Proof.
  intros (H1 & H2 & H3 & H4) Hw Hlen. split; [by rewrite length_insert|]. split; [by rewrite length_insert|].
  split; [rewrite length_app; simpl; lia|]. intros i v Hi. apply lookup_app_Some in Hi as [Hi|[Hge Hi]].
  - pose proof (lookup_lt_Some _ _ _ Hi). rewrite !list_lookup_insert_ne by lia. by apply H4.
  - apply list_lookup_singleton_Some in Hi as [Hi <-]. replace i with (length ws) by lia.
    exists q, e. rewrite !list_lookup_insert_eq by lia. done.
Qed.

Lemma args_part_end argv eargv ws :
  args_part argv eargv ws ->
  args_rep (word_is s) (<[length ws := None]> argv) (<[length ws := None]> eargv) ws.
Proof.
  intros (H1 & H2 & H3 & H4). split; [by rewrite length_insert|]. split; [by rewrite length_insert|]. split; [done|].
  split; [|by rewrite list_lookup_insert_eq by lia]. intros i w Hi. pose proof (lookup_lt_Some _ _ _ Hi).
  rewrite !list_lookup_insert_ne by lia. by apply H4.
Qed.

Lemma set_arg_run st cmd argc q e argv eargv :
  nodes st !! cmd = Some (EXEC argv eargv) -> (argc < MAXARGS)%nat ->
  set_arg cmd argc q e st = Done (tt, PSt (ps st) (<[cmd := EXEC (<[argc := q]> argv) (<[argc := e]> eargv)]> (nodes st))).
Proof. intros E Hlt. unfold set_arg. by rewrite E, (proj2 (Nat.ltb_lt _ _)). Qed.

Lemma head_stop c T : c ∈ str "|();&<>+" -> head_in (str "|)&;") (TSym c :: T) = strchr (str "|)&;") c.
Proof.
  intros Hc. simpl. unfold head_char, strchr. apply bool_decide_ext.
  destruct (Z.eqb_spec c (chr "+")) as [->|]; [|done]. unfold str. simpl. set_solver.
Qed.

(** What [parseargs] leaves: the EXEC node [k] with its arguments, wrapped. *)
Definition args_done (k : nat) (ws : list bytes) (rs0 : list redir) (ns ns' : list node) (p : nat)
    (args : list (bytes * list redir)) : Prop :=
  take k ns `prefix_of` ns' /\
  (exists argv eargv, ns' !! k = Some (EXEC argv eargv) /\ args_rep (word_is s) argv eargv (ws ++ args.*1)) /\
  chain ns' k (rs0 ++ args_redirs args) p.

Lemma parseargs_ok fuel st T k ws rs0 ret argv eargv :
  at_toks st T -> (length T < fuel)%nat -> nodes st !! k = Some (EXEC argv eargv) -> args_part argv eargv ws ->
  chain (nodes st) k rs0 ret -> (ret < length (nodes st))%nat ->
  match rargs fuel (length ws) T with
  | Some (args, T') => exists p st', parseargs s fuel k (length ws) ret st = Done (p, st') /\ at_toks st' T' /\
      (length T' <= length T)%nat /\ args_done k ws rs0 (nodes st) (nodes st') p args
  | None => exists msg, parseargs s fuel k (length ws) ret st = Panicked msg
  end.
Proof.
  revert st T ws rs0 ret argv eargv. induction fuel as [|fuel IH]; intros st T ws rs0 ret argv eargv HT Hf Hk Hpart Hch Hret; [lia|].
  cbn [parseargs rargs]. pose proof Hpart as (_ & _ & Hlen & _). pose proof (lookup_lt_Some _ _ _ Hk) as Hkl.
  assert (Hfin : forall st' T', at_toks st' T' -> nodes st' = nodes st -> (length T' <= length T)%nat ->
    exists p st'', ((set_arg k (length ws) None None;; mret ret) : P nat) st' = Done (p, st'') /\ at_toks st'' T' /\ (length T' <= length T)%nat /\
      args_done k ws rs0 (nodes st) (nodes st'') p []).
  { intros st' T' Ht' Hn' Hl. eexists ret, _. rewrite <- Hn' in Hk. split.
    { erewrite P_bind_Done; [done|by apply set_arg_run]. }
    split; [done|]. split; [done|]. cbn [nodes]. rewrite Hn' in *. split; [|split].
    - eexists. rewrite <- (take_drop k (<[k := _]> (nodes st))) at 1. by rewrite take_insert_ge by lia.
    - eexists _, _. rewrite list_lookup_insert_eq by done. split; [done|]. simpl. rewrite app_nil_r. by apply args_part_end.
    - unfold args_redirs. simpl. rewrite app_nil_r. by eapply chain_upd. }
  run_peek HT. destruct T as [|[w|c] T].
  - cbn [head_in]. run_token Ht. cbn [code fst]. rewrite Z.eqb_refl. apply Hfin; [done|congruence|done].
  - cbn [head_in]. run_token Ht. cbn [code fst snd tail] in *. change (chr "a" =? 0) with false. change (chr "a" =? chr "a") with true. cbn [negb].
    specialize (Hw w T eq_refl). assert (Hn1 : nodes st1 = nodes st) by congruence.
    erewrite P_bind_Done by (apply set_arg_run; [by rewrite Hn1|done]).
    destruct (Nat.leb_spec MAXARGS (S (length ws))); [by eexists|].
    rewrite Hn1. set (ns1 := <[k := _]> (nodes st)).
    assert (Hk1 : ns1 !! k = Some (EXEC (<[length ws:=Some q]> argv) (<[length ws:=Some e]> eargv))) by (by apply list_lookup_insert_eq).
    assert (Hl1 : length ns1 = length (nodes st)) by apply length_insert.
    pose proof (parseredirs_ok (S (es s)) (PSt (ps st1) ns1) T ret Ht0 (toks_length _ _ Ht0)) as Hr.
    cbn [nodes] in Hr. rewrite Hl1 in Hr. specialize (Hr Hret). unfold run_ok in Hr.
    destruct (rredirs T) as [[rs T1]|]; [|destruct Hr as [msg Hr]; exists msg; unfold mbind at 1, P_bind at 1; by rewrite Hr].
    destruct Hr as (p & st' & E & Ht' & Hl' & Hpre & Hchp). rewrite (P_bind_Done _ _ _ _ _ E). cbn [mbind option_bind].
    assert (Hpart' := args_part_snoc _ _ _ _ _ _ Hpart Hw H).
    specialize (IH st' T1 (ws ++ [w]) (rs0 ++ rs) p _ _ Ht' ltac:(simpl in Hf; lia) (prefix_lookup_Some _ _ _ _ Hk1 Hpre) Hpart').
    rewrite length_app in IH. simpl in IH. rewrite Nat.add_1_r in IH.
    assert (Hpl : (p < length (nodes st'))%nat).
    { eapply chain_lt; [exact Hchp|]. apply prefix_length in Hpre. cbn [nodes] in Hpre. lia. }
    assert (Hch1 : chain (nodes st') k (rs0 ++ rs) p).
    { eapply chain_app; [|done]. eapply redirs_ext; [done|]. by eapply chain_upd. }
    specialize (IH Hch1 Hpl). destruct (rargs fuel (S (length ws)) T1) as [[args T2]|]; [|done].
    destruct IH as (p2 & st2 & E2 & Ht2 & Hl2 & Hd1 & (argv2 & eargv2 & Hk2 & Ha2) & Hch2).
    exists p2, st2. split; [done|]. split; [done|]. split; [simpl; lia|]. split; [|split].
    + etrans; [|exact Hd1]. cbn [nodes] in Hpre. destruct Hpre as [ns2 ->]. rewrite take_app_le by lia. unfold ns1. by rewrite take_insert_ge by lia.
    + exists argv2, eargv2. split; [done|]. simpl. by rewrite <- app_assoc in Ha2.
    + unfold args_redirs in *. simpl. by rewrite <- app_assoc in Hch2.
  - pose proof (at_toks_ok _ _ _ Ht) as [Hc _]%Forall_cons. rewrite head_stop by exact Hc.
    destruct (strchr (str "|)&;") c) eqn:Ec; [by apply Hfin|]. run_token Ht. cbn [code fst]. simpl in Hc.
    assert (c <> 0 /\ c <> chr "a") as [Hc0 Hca].
    { unfold str in Hc. simpl in Hc. split; intros ->; vm_compute in Hc; set_solver. }
    rewrite (proj2 (Z.eqb_neq _ _)) by done. rewrite (proj2 (Z.eqb_neq _ _)) by done. by eexists.
Qed.

Lemma alloc_run n st : alloc n st = Done (length (nodes st), PSt (ps st) (nodes st ++ [n])).
Proof. done. Qed.

Lemma alloc_new (ns : list node) n : (ns ++ [n]) !! length ns = Some n.
Proof. by rewrite lookup_app_r, Nat.sub_diag by lia. Qed.

Lemma parseback_ok fuel st T cmd t : at_toks st T -> (length T < fuel)%nat -> reps (nodes st) cmd t ->
  exists p st', parseback s fuel cmd st = Done (p, st') /\ at_toks st' (rback T).2 /\ (length (rback T).2 <= length T)%nat /\
    nodes st `prefix_of` nodes st' /\ reps (nodes st') p (Nat.iter (rback T).1 TBack t).
Proof.
  revert st T cmd t. induction fuel as [|fuel IH]; intros st T cmd t HT Hf Hc; [lia|]. cbn [parseback]. run_peek HT.
  destruct (head_in (str "&") T) eqn:Eh.
  - apply head_one in Eh; [|done]. destruct T as [|[w|c] T]; try done. injection Eh as ->. run_token Ht. cbn [tail] in Ht0.
    erewrite P_bind_Done by apply alloc_run. assert (Hn1 : nodes st1 = nodes st) by congruence. rewrite Hn1.
    simpl in Hf. destruct (IH (PSt (ps st1) (nodes st ++ [BACK cmd])) T (length (nodes st)) (TBack t)) as (p & st' & E & Ht' & Hl & Hpre & Hr);
      [done|lia| |].
    { eapply reps_back; [apply alloc_new|by eapply reps_lt|]. eapply reps_ext; [|done]. by apply prefix_app_r. }
    cbn [rback]. change (chr "&" =? chr "&") with true. cbn. destruct (rback T) as [n T1]. simpl in *. exists p, st'. split; [done|].
    split; [done|]. split; [lia|]. split; [etrans; [|done]; by apply prefix_app_r|]. by rewrite <- Nat.iter_succ_r in Hr.
  - assert (rback T = (O, T)) as ->.
    { destruct T as [|[w|c] T]; simpl; [done|done|]. destruct (Z.eqb_spec c (chr "&")) as [->|]; [done|done]. }
    exists cmd, st0. split; [done|]. split; [done|]. split; [done|]. rewrite Hn. done.
Qed.

(** [m] parses what the reference function [f] parses, for short inputs. *)
Definition implements {A} (m : P nat) (f : list token -> option (A * list token)) (g : A -> tree) (bound : nat) : Prop :=
  forall st T, at_toks st T -> (length T < bound)%nat -> run_ok (m st) st T (f T) (fun ns p a => reps ns p (g a)).

Lemma bind_Panicked {A B} (m : P A) (f : A -> P B) st msg : m st = Panicked msg -> (m ≫= f) st = Panicked msg.
Proof. intros E. unfold mbind, P_bind. by rewrite E. Qed.

Lemma parseblock_ok pl rl bound st T : implements pl rl line_tree bound -> at_toks st T -> (length T <= bound)%nat ->
  head_in (str "(") T = true -> run_ok (parseblock s pl st) st T (rexec rl (S (es s)) T) (fun ns p e => reps ns p (exec_tree e)).
Proof.
  intros Hpl HT Hb Eh. unfold parseblock, rexec. rewrite Eh. run_peek HT. rewrite Eh. cbn [negb].
  apply head_one in Eh; [|done]. destruct T as [|[w|c] T]; try done. run_token Ht. cbn [tail] in *. simpl in Hb.
  pose proof (Hpl st1 T Ht0 ltac:(lia)) as Hl. unfold run_ok in Hl.
  destruct (rl T) as [[l T1]|]; [|destruct Hl as [msg Hl]; exists msg; by apply bind_Panicked].
  destruct Hl as (p & st2 & E & Ht2 & Hl2 & Hpre & Hr). rewrite (P_bind_Done _ _ _ _ _ E). cbn [mbind option_bind].
  run_peek Ht2. destruct (head_in (str ")") T1) eqn:Eh1; [|by eexists]. cbn [negb].
  apply head_one in Eh1; [|done]. destruct T1 as [|[w|c'] T1]; try done. run_token Ht1. cbn [tail] in *. simpl in Hl2.
  assert (Hns4 : nodes st4 = nodes st2) by congruence.
  pose proof (parseredirs_ok (S (es s)) st4 T1 p Ht3 (toks_length _ _ Ht3)) as Hrd. rewrite Hns4 in Hrd.
  specialize (Hrd (reps_lt _ _ _ _ Hr)). unfold run_ok in *. destruct (rredirs T1) as [[rs T2]|]; [|done].
  destruct Hrd as (p' & st5 & E5 & Ht5 & Hl5 & Hpre5 & Hch). exists p', st5. split; [done|]. split; [done|]. split; [simpl; lia|].
  rewrite Hns4 in Hpre5. assert (Hns : nodes st1 = nodes st) by congruence. rewrite Hns in Hpre. split; [by etrans|].
  simpl. eapply chain_reps; [done|]. by eapply reps_ext.
Qed.

Lemma parseexec_ok pl rl bound : implements pl rl line_tree bound ->
  implements (parseexec s pl) (rexec rl (S (es s))) exec_tree (S bound).
Proof.
  intros Hpl st T HT Hb. unfold parseexec. run_peek HT. destruct (head_in (str "(") T) eqn:Eh.
  { pose proof (parseblock_ok _ _ _ _ _ Hpl Ht ltac:(lia) Eh) as H. unfold run_ok in *. by rewrite <- Hn. }
  unfold rexec. rewrite Eh. erewrite P_bind_Done by apply alloc_run. rewrite Hn. set (k := length (nodes st)).
  set (ns0 := nodes st ++ [_]). assert (Hk : ns0 !! k = Some (EXEC (replicate MAXARGS None) (replicate MAXARGS None))) by apply alloc_new.
  pose proof (parseredirs_ok (S (es s)) (PSt (ps st0) ns0) T k Ht (toks_length _ _ Ht)) as Hrd. cbn [nodes] in Hrd.
  specialize (Hrd (lookup_lt_Some _ _ _ Hk)). unfold run_ok in *.
  destruct (rredirs T) as [[rs T1]|]; [|destruct Hrd as [msg Hrd]; exists msg; by apply bind_Panicked].
  destruct Hrd as (ret & st1 & E1 & Ht1 & Hl1 & Hpre1 & Hch). rewrite (P_bind_Done _ _ _ _ _ E1). cbn [mbind option_bind].
  pose proof (parseargs_ok (S (es s)) st1 T1 k [] rs ret _ _ Ht1 (toks_length _ _ Ht1) (prefix_lookup_Some _ _ _ _ Hk Hpre1)) as Ha.
  assert (Hp0 : args_part (replicate MAXARGS None) (replicate MAXARGS None) []).
  { split; [done|]. split; [done|]. split; [unfold MAXARGS; simpl; lia|]. done. }
  assert (Hlt : (ret < length (nodes st1))%nat).
  { eapply chain_lt; [exact Hch|]. apply prefix_length in Hpre1. cbn [nodes] in Hpre1. pose proof (lookup_lt_Some _ _ _ Hk). lia. }
  specialize (Ha Hp0 Hch Hlt). cbn [length] in Ha. destruct (rargs (S (es s)) 0 T1) as [[args T2]|]; [|done].
  destruct Ha as (p & st2 & E2 & Ht2 & Hl2 & Hd & (argv & eargv & Hk2 & Ha2) & Hch2).
  exists p, st2. split; [done|]. split; [done|]. split; [lia|]. split.
  - etrans; [|exact Hd]. destruct Hpre1 as [x ->]. cbn [nodes]. unfold ns0, k. by rewrite <- app_assoc, take_app_length.
  - simpl. eapply chain_reps; [done|]. by eapply reps_exec.
Qed.

Lemma parsepipe_ok k pl rl bound : implements pl rl line_tree bound ->
  implements (parsepipe s k pl) (rpipe k rl (S (es s))) pipe_tree (Nat.min k (S bound)).
Proof.
  intros Hpl. induction k as [|k IH]; intros st T HT Hf; [lia|]. cbn [parsepipe rpipe].
  pose proof (parseexec_ok _ _ _ Hpl st T HT ltac:(lia)) as He. unfold run_ok in He |- *.
  destruct (rexec rl (S (es s)) T) as [[e T1]|]; [|destruct He as [msg He]; exists msg; by apply bind_Panicked].
  destruct He as (p & st1 & E1 & Ht1 & Hl1 & Hpre1 & Hr1). rewrite (P_bind_Done _ _ _ _ _ E1). cbn [mbind option_bind].
  run_peek Ht1. destruct (head_in (str "|") T1) eqn:Eh.
  2: { exists p, st0. split; [done|]. split; [done|]. split; [done|]. by rewrite Hn. }
  apply head_one in Eh; [|done]. destruct T1 as [|[w|c] T1]; try done. run_token Ht. cbn [tail] in *. simpl in Hl1.
  pose proof (IH st2 T1 Ht0 ltac:(lia)) as Hp. unfold run_ok in Hp.
  destruct (rpipe k rl (S (es s)) T1) as [[p1 T2]|]; [|destruct Hp as [msg Hp]; exists msg; by apply bind_Panicked].
  destruct Hp as (r & st3 & E3 & Ht3 & Hl3 & Hpre3 & Hr3). rewrite (P_bind_Done _ _ _ _ _ E3).
  assert (Hns : nodes st2 = nodes st1) by congruence. rewrite Hns in Hpre3.
  eexists _, _. split; [apply alloc_run|]. split; [done|]. split; [lia|]. cbn [nodes].
  assert (Hx : nodes st3 `prefix_of` nodes st3 ++ [PIPE p r]) by (by apply prefix_app_r).
  split; [etrans; [done|]; by etrans|]. simpl. eapply reps_pipe; [apply alloc_new| | | |].
  - eapply reps_lt, reps_ext; [exact Hpre3|done].
  - by eapply reps_lt.
  - eapply reps_ext; [|exact Hr1]. by etrans.
  - by eapply reps_ext.
Qed.

Lemma parseline_ok fuel : implements (parseline s fuel) (rline fuel (S (es s))) line_tree fuel.
Proof.
  induction fuel as [|fuel IH]; intros st T HT Hf; [lia|]. cbn [parseline rline].
  pose proof (toks_length _ _ HT).
  pose proof (parsepipe_ok (S (es s)) _ _ _ IH st T HT ltac:(lia)) as Hp. unfold run_ok in Hp |- *.
  destruct (rpipe (S (es s)) (rline fuel (S (es s))) (S (es s)) T) as [[p T1]|];
    [|destruct Hp as [msg Hp]; exists msg; by apply bind_Panicked].
  destruct Hp as (c & st1 & E1 & Ht1 & Hl1 & Hpre1 & Hr1). rewrite (P_bind_Done _ _ _ _ _ E1). cbn [mbind option_bind].
  destruct (parseback_ok (S (es s)) st1 T1 c _ Ht1 (toks_length _ _ Ht1) Hr1) as (c2 & st2 & E2 & Ht2 & Hl2 & Hpre2 & Hr2).
  rewrite (P_bind_Done _ _ _ _ _ E2). destruct (rback T1) as [bg T2]. cbn [fst snd] in *. run_peek Ht2.
  destruct (head_in (str ";") T2) eqn:Eh.
  2: { exists c2, st0. split; [done|]. split; [done|]. split; [lia|]. rewrite Hn. split; [by etrans|done]. }
  apply head_one in Eh; [|done]. destruct T2 as [|[w|d] T2]; try done. run_token Ht. cbn [tail] in *. simpl in Hl2.
  pose proof (IH st3 T2 Ht0 ltac:(lia)) as Hl. unfold run_ok in Hl.
  destruct (rline fuel (S (es s)) T2) as [[l T3]|]; [|destruct Hl as [msg Hl]; exists msg; by apply bind_Panicked].
  destruct Hl as (r & st4 & E4 & Ht4 & Hl4 & Hpre4 & Hr4). rewrite (P_bind_Done _ _ _ _ _ E4).
  assert (Hns : nodes st3 = nodes st2) by congruence. rewrite Hns in Hpre4.
  eexists _, _. split; [apply alloc_run|]. split; [done|]. split; [lia|]. cbn [nodes].
  assert (Hx : nodes st4 `prefix_of` nodes st4 ++ [LIST c2 r]) by (by apply prefix_app_r).
  split; [etrans; [done|]; etrans; [done|]; by etrans|]. simpl. eapply reps_list; [apply alloc_new| | | |].
  - eapply reps_lt, reps_ext; [exact Hpre4|done].
  - by eapply reps_lt.
  - eapply reps_ext; [|exact Hr2]. by etrans.
  - by eapply reps_ext.
Qed.
End parser.

(** * NUL termination *)

Lemma reps_impl (W W' : nat -> nat -> bytes -> Prop) ns p t :
  (forall q e w, W q e w -> W' q e w) -> reps W ns p t -> reps W' ns p t.
Proof.
  intros HW. induction 1 as [p argv eargv ws Hp (H1 & H2 & H3 & H4 & H5)|p c q e mode fd t f Hp Hc Hw _ IH|p l r tl tr Hp Hl Hr _ IHl _ IHr|p l r tl tr Hp Hl Hr _ IHl _ IHr|p c t Hp Hc _ IH].
  - eapply reps_exec; [done|]. repeat (split; [done|]). split; [|done]. intros i w Hi.
    destruct (H4 i w Hi) as (q & e & Hq & He & Hw). exists q, e. auto.
  - eapply reps_redir; eauto.
  - eapply reps_pipe; eauto.
  - eapply reps_list; eauto.
  - eapply reps_back; eauto.
Qed.

(** The C string at offset [q] of the buffer is [w], its NUL at [e]. *)
Definition cstr_is (buf : bytes) (q e : nat) (w : bytes) : Prop :=
  e = (q + length w)%nat /\ 0 ∉ w /\ take (S (length w)) (drop q buf) = w ++ [0].

Section nul.
Variable s : bytes.
Hypothesis no_nul : 0 ∉ s.

Definition word_pos (i : nat) : Prop := exists c, s !! i = Some c /\ word_char c = true.
(** The letters of words are as they were. *)
Definition keep (buf : bytes) : Prop := length buf = S (length s) /\ forall i, word_pos i -> buf !! i = s !! i.
Definition grows (buf buf' : bytes) : Prop := forall i, buf !! i = Some 0 -> buf' !! i = Some 0.
Definition word_nul (buf : bytes) (q e : nat) (w : bytes) : Prop := word_is s q e w /\ buf !! e = Some 0.

Lemma nul_step buf q e w : keep buf -> word_is s q e w ->
  keep (<[e := 0]> buf) /\ grows buf (<[e := 0]> buf) /\ word_nul (<[e := 0]> buf) q e w.
Proof.
  intros [Hlen Hk] Hw. pose proof Hw as (_ & _ & He & _ & _ & Hst). split; [split|split; [|split]].
  - by rewrite length_insert.
  - intros i Hi. rewrite list_lookup_insert_ne; [by apply Hk|]. intros <-. destruct Hi as (c & Hc & Hwc).
    rewrite (drop_S _ _ _ Hc) in Hst. simpl in Hst. congruence.
  - intros i Hi. destruct (decide (e = i)) as [<-|]; [apply list_lookup_insert_eq; lia|by rewrite list_lookup_insert_ne].
  - done.
  - apply list_lookup_insert_eq. lia.
Qed.

Lemma word_nul_grows buf buf' q e w : grows buf buf' -> word_nul buf q e w -> word_nul buf' q e w.
Proof. intros Hg [Hw Hz]. split; auto. Qed.

Lemma grows_trans b1 b2 b3 : grows b1 b2 -> grows b2 b3 -> grows b1 b3.
Proof. intros H1 H2 i Hi. auto. Qed.

Lemma nul_args_ok ws argv eargv buf :
  (forall i w, ws !! i = Some w -> exists q e, argv !! i = Some (Some q) /\ eargv !! i = Some (Some e) /\ word_is s q e w) ->
  argv !! length ws = Some None -> keep buf ->
  exists buf', nul_args argv eargv buf = Done buf' /\ keep buf' /\ grows buf buf' /\
    forall i w, ws !! i = Some w -> exists q e, argv !! i = Some (Some q) /\ eargv !! i = Some (Some e) /\ word_nul buf' q e w.
Proof.
  revert argv eargv buf. induction ws as [|w ws IH]; intros argv eargv buf Hargs Hend Hk.
  - destruct argv as [|[|] argv]; try done. exists buf. split; [done|]. split; [done|]. split; [by intros i|]. by intros i v.
  - destruct (Hargs O w eq_refl) as (q & e & Hq & He & Hw). destruct argv as [|a argv]; [done|]. destruct eargv as [|a' eargv]; [done|].
    simpl in Hq, He. injection Hq as ->. injection He as ->. simpl.
    destruct (nul_step _ _ _ _ Hk Hw) as (Hk' & Hg & Hz).
    destruct (IH argv eargv (<[e := 0]> buf)) as (buf' & E & Hk2 & Hg2 & Ha); [|done|done|].
    { intros i v Hi. by apply (Hargs (S i)). }
    exists buf'. split; [done|]. split; [done|]. split; [by eapply grows_trans|]. intros [|i] v Hi.
    + simpl in Hi. injection Hi as <-. exists q, e. split; [done|]. split; [done|]. by eapply word_nul_grows.
    + by apply Ha.
Qed.

Lemma nulterminate_ok ns p t : reps (word_is s) ns p t -> forall fuel buf, (p < fuel)%nat -> keep buf ->
  exists buf', nulterminate fuel ns p buf = Done buf' /\ keep buf' /\ grows buf buf' /\ reps (word_nul buf') ns p t.
Proof.
  assert (Hmono : forall b b' ns p t, grows b b' -> reps (word_nul b) ns p t -> reps (word_nul b') ns p t).
  { intros b b' ns' p' t' Hg. apply reps_impl. intros q e w. by apply word_nul_grows. }
  assert (Htwo : forall (f : bytes -> outcome bytes) (g : bytes -> outcome bytes) l r tl tr buf,
    (forall buf, keep buf -> exists buf', f buf = Done buf' /\ keep buf' /\ grows buf buf' /\ reps (word_nul buf') ns l tl) ->
    (forall buf, keep buf -> exists buf', g buf = Done buf' /\ keep buf' /\ grows buf buf' /\ reps (word_nul buf') ns r tr) ->
    keep buf -> exists buf', (b ← f buf; g b) = Done buf' /\ keep buf' /\ grows buf buf' /\
      reps (word_nul buf') ns l tl /\ reps (word_nul buf') ns r tr).
  { intros f g l r tl tr buf Hf Hg Hk. destruct (Hf buf Hk) as (b1 & E1 & Hk1 & Hg1 & Hr1).
    destruct (Hg b1 Hk1) as (b2 & E2 & Hk2 & Hg2 & Hr2). exists b2. rewrite E1. simpl. split; [done|]. split; [done|].
    split; [by eapply grows_trans|]. split; [by eapply Hmono|done]. }
  induction 1 as [p argv eargv ws Hp (H1 & H2 & H3 & H4 & H5)|p c q e mode fd t f Hp Hc Hw _ IH|p l r tl tr Hp Hl Hr _ IHl _ IHr|p l r tl tr Hp Hl Hr _ IHl _ IHr|p c t Hp Hc _ IH];
    intros fuel buf Hf Hk; (destruct fuel as [|fuel]; [lia|]); simpl; rewrite Hp.
  - destruct (nul_args_ok ws argv eargv buf H4 H5 Hk) as (buf' & E & Hk' & Hg & Ha). exists buf'. split; [done|]. split; [done|].
    split; [done|]. eapply reps_exec; [done|]. repeat (split; [done|]). done.
  - destruct (IH fuel buf ltac:(lia) Hk) as (b1 & -> & Hk1 & Hg1 & Hr1). simpl.
    destruct (nul_step _ _ _ _ Hk1 Hw) as (Hk2 & Hg2 & Hz). eexists. split; [done|]. split; [done|].
    split; [by eapply grows_trans|]. eapply reps_redir; [done..|]. by eapply Hmono.
  - destruct (Htwo (nulterminate fuel ns l) (nulterminate fuel ns r) l r tl tr buf) as (b & E & ? & ? & ? & ?); [|..|done|].
    + intros. apply IHl; [lia|done].
    + intros. apply IHr; [lia|done].
    + exists b. split; [done|]. split; [done|]. split; [done|]. by eapply reps_pipe.
  - destruct (Htwo (nulterminate fuel ns l) (nulterminate fuel ns r) l r tl tr buf) as (b & E & ? & ? & ? & ?); [|..|done|].
    + intros. apply IHl; [lia|done].
    + intros. apply IHr; [lia|done].
    + exists b. split; [done|]. split; [done|]. split; [done|]. by eapply reps_list.
  - destruct (IH fuel buf ltac:(lia) Hk) as (b1 & E & Hk1 & Hg1 & Hr1). exists b1. split; [done|]. split; [done|].
    split; [done|]. by eapply reps_back.
Qed.

Lemma word_cstr buf q e w : keep buf -> word_nul buf q e w -> cstr_is buf q e w.
Proof.
  intros [Hlen Hk] [(Hne & He & Hle & Hw & Hwc & _) Hz]. split; [done|].
  assert (Hlook : forall i c, w !! i = Some c -> s !! (q + i)%nat = Some c).
  { intros i c Hi. rewrite Hw in Hi. apply lookup_take_Some in Hi as [Hi _]. by rewrite lookup_drop in Hi. }
  split.
  - intros Hin. apply list_elem_of_lookup in Hin as (i & Hi). apply Hlook in Hi. apply no_nul. by eapply list_elem_of_lookup_2.
  - apply list_eq. intros i. destruct (decide (i < length w)%nat) as [Hi|Hi].
    + rewrite lookup_take_lt, lookup_drop, lookup_app_l by lia. destruct (lookup_lt_is_Some_2 w i Hi) as [c Hc].
      rewrite Hk, Hc; [by apply Hlook|]. exists c. split; [by apply Hlook|]. rewrite Forall_forall in Hwc.
      apply Hwc. by eapply list_elem_of_lookup_2.
    + destruct (decide (i = length w)) as [->|Hn].
      * rewrite lookup_take_lt, lookup_drop by lia. rewrite lookup_app_r, Nat.sub_diag by lia. by rewrite <- He.
      * rewrite lookup_take_ge by lia. rewrite lookup_app_r by lia. simpl.
        destruct (i - length w)%nat eqn:E; [lia|done].
Qed.

Lemma keep_init : keep (s ++ [0]).
Proof.
  split; [rewrite length_app; simpl; lia|]. intros i (c & Hc & _). by rewrite lookup_app_l by (by eapply lookup_lt_Some).
Qed.
End nul.

(** C15: the shell parses exactly the command lines of its grammar.  On a line
    whose tokens are those of a command, with at most nine arguments in each,
    [parsecmd] returns and the nodes it built represent the command, every
    argument and file name a NUL-terminated string of the buffer.  On any other
    line it reports an error and exits. *)
Theorem parsecmd_correct (s : bytes) :
  0 ∉ s ->
  (exists l cmd ns buf, tokenize s = line_toks l /\ line_ok l /\
     parsecmd s = Done (cmd, ns, buf) /\ reps (cstr_is buf) ns cmd (line_tree l)) \/
  ((forall l, line_ok l -> tokenize s <> line_toks l) /\ exists msg, parsecmd s = Panicked msg).
Proof.
  intros Hs. assert (HT : at_toks s (PSt 0 []) (tokenize s)) by (split; [simpl; lia|done]).
  pose proof (toks_length s _ _ HT) as Hlen. unfold es in Hlen.
  pose proof (parseline_ok s Hs (S (length s)) _ _ HT Hlen) as Hl. unfold run_ok, es in Hl. unfold parsecmd.
  assert (Hcomp : forall l, line_ok l -> tokenize s = line_toks l ->
    rline (S (length s)) (S (length s)) (tokenize s) = Some (l, [])).
  { intros l Hok E. rewrite E in *. rewrite <- (app_nil_r (line_toks l)). apply complete; rewrite ?app_nil_r; done. }
  destruct (rline (S (length s)) (S (length s)) (tokenize s)) as [[l T']|] eqn:El.
  - destruct Hl as (p & st' & -> & Ht' & _ & _ & Hr). cbn [mbind outcome_bind].
    destruct (peek_step s Hs st' T' [] Ht') as (st2 & E2 & Hn2 & Ht2 & Hend); [by intros c Hc%elem_of_nil|]. rewrite E2.
    cbn [mbind outcome_bind]. destruct T' as [|t T'].
    + left. rewrite (Hend eq_refl), Nat.eqb_refl. cbn [negb]. apply rline_sound in El as [El Hok]. rewrite app_nil_r in El.
      rewrite Hn2. destruct (nulterminate_ok s _ _ _ Hr (S p) (s ++ [0])) as (buf & -> & Hk & _ & Hr'); [lia|apply keep_init|].
      exists l, p, (nodes st'), buf. split; [done|]. split; [done|]. split; [done|].
      eapply reps_impl; [|exact Hr']. intros q e w. by apply word_cstr.
    + right. split; [intros l' Hok E; specialize (Hcomp l' Hok E); congruence|].
      destruct (Nat.eqb_spec (ps st2) (length s)) as [E|]; [|by eexists]. destruct Ht2 as [_ Ht2]. rewrite E, drop_ge in Ht2 by lia. done.
  - right. split; [intros l Hok E; specialize (Hcomp l Hok E); congruence|]. destruct Hl as [msg ->]. by eexists.
Qed.

(** [(ls >x -l; a) | b & ; c >> d] *)
Lemma parsecmd_correct_witness :
  0 ∉ str "(ls >x -l; a)|b&;c >>d" /\
  exists l cmd ns buf, tokenize (str "(ls >x -l; a)|b&;c >>d") = line_toks l /\
    parsecmd (str "(ls >x -l; a)|b&;c >>d") = Done (cmd, ns, buf) /\ reps (cstr_is buf) ns cmd (line_tree l).
Proof.
  assert (H : 0 ∉ str "(ls >x -l; a)|b&;c >>d") by (vm_compute; set_solver).
  split; [exact H|]. destruct (parsecmd_correct (str "(ls >x -l; a)|b&;c >>d") H) as [(l & cmd & ns & buf & H1 & _ & H2 & H3)|[_ [msg H1]]].
  - exists l, cmd, ns, buf. split; [exact H1|]. split; [exact H2|exact H3].
  - vm_compute in H1. discriminate.
Defined.
