(* ===== verification/ShRun.v ===== *)
(** [runcmd] of user/sh.c: the processes a command line becomes.

    The commands are trees, as the nodes of [parsecmd] represent them.  The code
    of a process is the list of the system calls it has left; [runcmd] of a
    subcommand is itself an instruction, and never returns.  The machine runs
    the processes in any order; a system call that can fail may do so. *)

From S2P Require Import Prelude Sh ShSpec.
From stdpp Require Import gmap.
Local Open Scope Z_scope.

(** * Code *)

(** What a descriptor refers to; pipes are numbered. *)
Inductive ofile := OConsole | OFile (name : bytes) (mode : Z) | PipeR (n : nat) | PipeW (n : nat).
Abbreviation fdtable := (gmap Z ofile).

(** [close(fd)], [dup(p[b])] and [close(p[b])] *)
Inductive fdop := OClose (fd : Z) | ODup (b : bool) | OCloseP (b : bool).

Inductive instr :=
| IRun (t : tree)                    (* runcmd(cmd) *)
| IOp (o : fdop)
| IOpen (file : bytes) (mode : Z)    (* if(open(...) < 0) exit(1) *)
| IPipe                              (* if(pipe(p) < 0) panic("pipe") *)
| IFork (pre : list fdop) (t : tree) (* if(fork1() == 0) { pre; runcmd(cmd); } *)
| IWait
| IExec (argv : list bytes)
| IPrint                             (* fprintf(2, ...) *)
| IExit (status : Z).

Definition runcmd (t : tree) : list instr :=
  match t with
  | TExec [] => [IExit 1]
  | TExec argv => [IExec argv; IPrint; IExit 0]
  | TRedir t file mode fd => [IOp (OClose fd); IOpen file mode; IRun t; IExit 0]
  | TList l r => [IFork [] l; IWait; IRun r; IExit 0]
  | TPipe l r =>
      [IPipe;
       IFork [OClose 1; ODup true; OCloseP false; OCloseP true] l;
       IFork [OClose 0; ODup false; OCloseP false; OCloseP true] r;
       IOp (OCloseP false); IOp (OCloseP true); IWait; IWait; IExit 0]
  | TBack t => [IFork [] t; IExit 0]
  end.
(** [panic] and the failure of [open] *)
Definition failed : list instr := [IPrint; IExit 1].

(** * The machine *)

Inductive pstat := Running (code : list instr) | Program (argv : list bytes) | Zombie | Reaped.
Record uproc := Proc { p_stat : pstat; p_fds : fdtable; p_p : Z * Z; p_parent : option nat }.
(** The processes in the order of [fork], the number of pipes made, what was
    executed with which descriptors, and whether a system call has failed. *)
Record sys := Sys { s_procs : list uproc; s_pipes : nat; s_log : list (list bytes * fdtable); s_fail : bool }.

(** The lowest descriptor that is not in use. *)
Definition lowest (fds : fdtable) : option Z := snd <$> list_find (fun fd => fds !! fd = None) (seqZ 0 NOFILE).
Definition sel (b : bool) (p : Z * Z) : Z := if b then p.2 else p.1.
Definition do_op (p : Z * Z) (o : fdop) (fds : fdtable) : fdtable :=
  match o with
  | OClose fd => delete fd fds
  | OCloseP b => delete (sel b p) fds
  | ODup b => match fds !! sel b p, lowest fds with Some f, Some fd => <[fd := f]> fds | _, _ => fds end
  end.

Definition child_of (i : nat) (pr : uproc) : bool :=
  bool_decide (p_parent pr = Some i) && match p_stat pr with Reaped => false | _ => true end.
Definition kids (i : nat) (l : list uproc) : nat := length (filter (fun pr => child_of i pr = true) l).
Definition orphan (i : nat) (pr : uproc) : uproc :=
  if decide (p_parent pr = Some i) then Proc (p_stat pr) (p_fds pr) (p_p pr) None else pr.
(** Process [i] exits. *)
Definition uexit (i : nat) (pr : uproc) (s : sys) : sys :=
  Sys (orphan i <$> <[i := Proc Zombie ∅ (p_p pr) (p_parent pr)]> (s_procs s)) (s_pipes s) (s_log s) (s_fail s).

(** A step of process [i]: [ok] if the call succeeds, [z] the child [wait]
    takes. *)
Definition exec1 (ok : bool) (z i : nat) (s : sys) : option sys :=
  match s_procs s !! i with
  | Some pr =>
      let put pr' := <[i := pr']> (s_procs s) in
      let set l := Sys l (s_pipes s) (s_log s) (s_fail s) in
      let fail := Some (Sys (put (Proc (Running failed) (p_fds pr) (p_p pr) (p_parent pr))) (s_pipes s) (s_log s) true) in
      match p_stat pr with
      | Running (ins :: k) =>
          let next fds := Proc (Running k) fds (p_p pr) (p_parent pr) in
          match ins with
          | IRun t => Some (set (put (Proc (Running (runcmd t)) (p_fds pr) (p_p pr) (p_parent pr))))
          | IOp o => Some (set (put (next (do_op (p_p pr) o (p_fds pr)))))
          | IOpen file mode =>
              match lowest (p_fds pr), ok with
              | Some fd, true => Some (set (put (next (<[fd := OFile file mode]> (p_fds pr)))))
              | _, _ => fail
              end
          | IPipe =>
              let n := s_pipes s in
              match lowest (p_fds pr), ok with
              | Some a, true =>
                  match lowest (<[a := PipeR n]> (p_fds pr)) with
                  | Some b => Some (Sys (put (Proc (Running k) (<[b := PipeW n]> (<[a := PipeR n]> (p_fds pr))) (a, b) (p_parent pr)))
                                        (S n) (s_log s) (s_fail s))
                  | None => fail
                  end
              | _, _ => fail
              end
          | IFork pre t =>
              if ok then Some (set (put (next (p_fds pr)) ++ [Proc (Running ((IOp <$> pre) ++ [IRun t])) (p_fds pr) (p_p pr) (Some i)]))
              else fail
          | IWait =>
              if (kids i (s_procs s) =? 0)%nat then Some (set (put (next (p_fds pr)))) else
              match s_procs s !! z with
              | Some c =>
                  if bool_decide (p_parent c = Some i) && match p_stat c with Zombie => true | _ => false end
                  then Some (set (<[z := Proc Reaped (p_fds c) (p_p c) (p_parent c)]> (put (next (p_fds pr)))))
                  else None
              | None => None
              end
          | IExec argv =>
              if ok then Some (Sys (put (Proc (Program argv) (p_fds pr) (p_p pr) (p_parent pr))) (s_pipes s) (s_log s ++ [(argv, p_fds pr)]) (s_fail s))
              else Some (Sys (put (next (p_fds pr))) (s_pipes s) (s_log s) true)
          | IPrint => Some (set (put (next (p_fds pr))))
          | IExit _ => Some (uexit i pr s)
          end
      | Program _ => Some (uexit i pr s)
      | _ => None
      end
  | None => None
  end.
Definition step (s s' : sys) : Prop := exists ok z i, exec1 ok z i s = Some s'.

(** The child of the shell that runs the line. *)
Definition start (t : tree) (fds : fdtable) (n : nat) : sys := Sys [Proc (Running [IRun t]) fds (0, 0) None] n [] false.
