(* ===== verification/ShRunProps.v ===== *)
(** The processes of a command line: what each program is executed with, that
    each command is executed once, in order, and that the shell ends. *)

From S2P Require Import Prelude Sh ShSpec ShRun.
From stdpp Require Import gmap.
From Stdlib Require Import Ascii.
Local Open Scope Z_scope.

(** * Descriptors *)

(** The three standard descriptors are open, and redirections are of the first
    two. *)
Definition std (e : fdtable) : Prop := is_Some (e !! 0) /\ is_Some (e !! 1) /\ is_Some (e !! 2).
Fixpoint std_tree (t : tree) : Prop :=
  match t with
  | TExec _ => True
  | TRedir t _ _ fd => (fd = 0 \/ fd = 1) /\ std_tree t
  | TPipe l r | TList l r => std_tree l /\ std_tree r
  | TBack t => std_tree t
  end.

Lemma std_insert e fd f : std e -> std (<[fd := f]> e).
Proof. intros (? & ? & ?). repeat split; apply lookup_insert_is_Some'; auto. Qed.

(** The parser's redirections are of descriptors 0 and 1. *)
Lemma std_wrap t rs : std_tree t -> std_tree (wrap t rs).
Proof.
  revert t. induction rs as [|r rs IH]; intros t Ht; [done|]. simpl. apply IH. simpl. split; [|done].
  unfold redir_fd. destruct (_ =? _); auto.
Qed.
Lemma std_iter n t : std_tree t -> std_tree (Nat.iter n TBack t).
Proof. induction n; simpl; auto. Qed.
Lemma std_line : (forall l, std_tree (line_tree l)) /\ (forall p, std_tree (pipe_tree p)) /\ (forall e, std_tree (exec_tree e)).
Proof. apply syntax_ind; intros; cbn [line_tree pipe_tree exec_tree std_tree]; auto using std_wrap, std_iter; by apply std_wrap. Qed.

Lemma lowest_Some e fd : lowest e = Some fd -> e !! fd = None /\ 0 <= fd < NOFILE /\ forall j, 0 <= j < fd -> is_Some (e !! j).
Proof.
  unfold lowest. intros H. apply fmap_Some in H as ([k x] & Hk & ->). apply list_find_Some in Hk as (Hk & He & Hlt).
  apply lookup_seqZ in Hk as [-> Hk]. simpl. split; [done|]. split; [lia|]. intros j Hj. destruct (e !! j) eqn:Ej; [done|].
  exfalso. apply (Hlt (Z.to_nat j) j); [apply lookup_seqZ; lia|lia|done].
Qed.

Lemma lowest_is e fd : e !! fd = None -> 0 <= fd < NOFILE -> (forall j, 0 <= j < fd -> is_Some (e !! j)) -> lowest e = Some fd.
Proof.
  intros He Hfd Hlt. unfold lowest. apply fmap_Some. exists (Z.to_nat fd, fd). split; [|done]. apply list_find_Some.
  split; [apply lookup_seqZ; lia|]. split; [done|]. intros j x Hx Hj He'. apply lookup_seqZ in Hx as [-> Hx].
  destruct (Hlt (0 + Z.of_nat j)) as [? E]; [lia|]. simpl in *. congruence.
Qed.

(** * What is executed with which descriptors *)

Section wiring.
(** The line, the descriptors and the number of pipes when it starts. *)
Context (T : tree) (fds0 : fdtable) (n0 : nat).

(** [made]: the pipe command and the descriptors for which each new pipe was
    made.  [sub made t e]: the subcommand [t] is to run with the descriptors
    [e]; the two sides of a pipe have its two ends and nothing else of it. *)
Inductive sub (made : list (tree * tree * fdtable)) : tree -> fdtable -> Prop :=
| sub_root : sub made T fds0
| sub_redir t f m fd e : sub made (TRedir t f m fd) e -> sub made t (<[fd := OFile f m]> e)
| sub_list_l l r e : sub made (TList l r) e -> sub made l e
| sub_list_r l r e : sub made (TList l r) e -> sub made r e
| sub_back t e : sub made (TBack t) e -> sub made t e
| sub_pipe_l n l r e : sub made (TPipe l r) e -> made !! n = Some (l, r, e) -> sub made l (<[1 := PipeW (n0 + n)]> e)
| sub_pipe_r n l r e : sub made (TPipe l r) e -> made !! n = Some (l, r, e) -> sub made r (<[0 := PipeR (n0 + n)]> e).

Lemma sub_mono made made' t e : made `prefix_of` made' -> sub made t e -> sub made' t e.
Proof. intros Hp. induction 1; eauto using sub, prefix_lookup_Some. Qed.

Context (std0 : std fds0) (stdT : std_tree T).

Lemma sub_std made t e : sub made t e -> std e /\ std_tree t.
Proof. induction 1; simpl in *; repeat match goal with H : _ /\ _ |- _ => destruct H end; auto using std_insert. Qed.

(** The code of a process with its descriptors. *)
Inductive wf (made : list (tree * tree * fdtable)) : fdtable -> Z * Z -> list instr -> Prop :=
| wf_run t e p k : sub made t e -> wf made e p (IRun t :: k)
| wf_op o e p k : wf made (do_op p o e) p k -> wf made e p (IOp o :: k)
| wf_open f m fd e p k : lowest e = Some fd -> wf made (<[fd := OFile f m]> e) p k -> wf made e p (IOpen f m :: k)
| wf_pipe l r e p : sub made (TPipe l r) e -> wf made e p (runcmd (TPipe l r))
| wf_fork pre t e p k : wf made e p ((IOp <$> pre) ++ [IRun t]) -> wf made e p k -> wf made e p (IFork pre t :: k)
| wf_wait t e p k : sub made t e -> wf made e p k -> wf made e p (IWait :: k)
| wf_exec ws e p k : sub made (TExec ws) e -> wf made e p k -> wf made e p (IExec ws :: k)
| wf_print e p k : wf made e p k -> wf made e p (IPrint :: k)
| wf_exit n e p k : wf made e p (IExit n :: k).

Lemma wf_mono made made' e p k : made `prefix_of` made' -> wf made e p k -> wf made' e p k.
Proof. intros Hp. induction 1; eauto using wf, sub_mono. Qed.

Hint Constructors wf sub : core.

Lemma wf_runcmd made t e p : sub made t e -> wf made e p (runcmd t).
Proof.
  intros Hs. destruct (sub_std _ _ _ Hs) as [(H0 & H1 & H2) Ht]. destruct t as [ws|t f m fd|l r|l r|t]; simpl.
  - destruct ws; eauto.
  - apply wf_op. simpl. simpl in Ht. destruct Ht as [Hfd _]. apply (wf_open _ _ _ fd).
    + apply lowest_is; [apply lookup_delete_eq|unfold NOFILE; lia|]. intros j Hj.
      assert (j = 0 /\ fd = 1) as [-> ->] by lia. by rewrite lookup_delete_ne.
    + apply wf_run. rewrite insert_delete_eq. eauto.
  - by apply wf_pipe.
  - apply wf_fork; [simpl; eauto|]. eauto.
  - apply wf_fork; simpl; eauto.
Qed.

(** After [pipe]: each side ends up with its end as standard input or output. *)
Lemma wf_piped made l r e n a b : sub made (TPipe l r) e -> made !! n = Some (l, r, e) -> lowest e = Some a ->
  lowest (<[a := PipeR (n0 + n)]> e) = Some b ->
  wf made (<[b := PipeW (n0 + n)]> (<[a := PipeR (n0 + n)]> e)) (a, b) (tail (runcmd (TPipe l r))).
Proof.
  intros Hs Hn Ha Hb. destruct (sub_std _ _ _ Hs) as [(H0 & H1 & H2) _].
  apply lowest_Some in Ha as (Ha & _). apply lowest_Some in Hb as (Hb & _).
  assert (a <> b) by (intros ->; by rewrite lookup_insert_eq in Hb). rewrite lookup_insert_ne in Hb by done.
  assert (Hne : forall x, is_Some (e !! x) -> a <> x /\ b <> x) by (intros x [? E]; split; intros ->; congruence).
  destruct (Hne 0 H0), (Hne 1 H1). clear Hne. set (e2 := <[b := _]> _).
  assert (E2 : forall x, x <> a -> x <> b -> e2 !! x = e !! x) by (intros; unfold e2; by rewrite !lookup_insert_ne by done).
  assert (Ea : e2 !! a = Some (PipeR (n0 + n))) by (unfold e2; rewrite lookup_insert_ne by done; apply lookup_insert_eq).
  assert (Eb : e2 !! b = Some (PipeW (n0 + n))) by apply lookup_insert_eq.
  assert (Hdel : forall x f, x <> a -> x <> b -> delete b (delete a (<[x := f]> (delete x e2))) = <[x := f]> e).
  { intros x f Hxa Hxb. rewrite insert_delete_eq. unfold e2. apply map_eq. intros y. destruct (decide (y = a)) as [->|]; [|destruct (decide (y = b)) as [->|]].
    - rewrite lookup_delete_ne, lookup_delete_eq, lookup_insert_ne by done. done.
    - by rewrite lookup_delete_eq, lookup_insert_ne.
    - rewrite !lookup_delete_ne by done. destruct (decide (y = x)) as [->|]; [by rewrite !lookup_insert_eq|]. by rewrite !lookup_insert_ne by done. }
  assert (Hlow : forall x, x = 0 \/ x = 1 -> lowest (delete x e2) = Some x).
  { intros x Hx. apply lowest_is; [apply lookup_delete_eq|unfold NOFILE; lia|]. intros j Hj. assert (j = 0 /\ x = 1) as [-> ->] by lia.
    rewrite lookup_delete_ne, E2 by done. done. }
  cbn [tail runcmd]. apply wf_fork; [|apply wf_fork]; cbn [fmap list_fmap app].
  - do 4 apply wf_op. cbn [do_op sel fst snd]. rewrite lookup_delete_ne, Eb, Hlow, Hdel by auto. apply wf_run. by eapply sub_pipe_l.
  - do 4 apply wf_op. cbn [do_op sel fst snd]. rewrite lookup_delete_ne, Ea, Hlow, Hdel by auto. apply wf_run. by eapply sub_pipe_r.
  - do 2 apply wf_op. cbn [do_op sel fst snd].
    assert (delete b (delete a e2) = e) as ->; [|eauto].
    apply map_eq. intros y. destruct (decide (y = a)) as [->|]; [|destruct (decide (y = b)) as [->|]].
    + by rewrite lookup_delete_ne, lookup_delete_eq by done.
    + by rewrite lookup_delete_eq.
    + by rewrite !lookup_delete_ne, E2 by done.
Qed.

(** ** Every step keeps it *)

Definition proc_ok (made : list (tree * tree * fdtable)) (pr : uproc) : Prop :=
  match p_stat pr with Running code => wf made (p_fds pr) (p_p pr) code | _ => True end.
Record wired (made : list (tree * tree * fdtable)) (s : sys) : Prop := {
  wi_pipes : s_pipes s = (n0 + length made)%nat;
  wi_made : Forall (fun x => sub made (TPipe x.1.1 x.1.2) x.2) made;
  wi_procs : Forall (proc_ok made) (s_procs s);
  wi_log : Forall (fun x => sub made (TExec x.1) x.2) (s_log s);
}.

Lemma wired_mono made made' : made `prefix_of` made' ->
  (forall l, Forall (proc_ok made) l -> Forall (proc_ok made') l) /\
  (forall l : list (tree * tree * fdtable), Forall (fun x => sub made (TPipe x.1.1 x.1.2) x.2) l -> Forall (fun x => sub made' (TPipe x.1.1 x.1.2) x.2) l) /\
  (forall l : list (list bytes * fdtable), Forall (fun x => sub made (TExec x.1) x.2) l -> Forall (fun x => sub made' (TExec x.1) x.2) l).
Proof.
  intros Hp. split; [|split]; intros l Hl; (eapply Forall_impl; [exact Hl|]); intros x; [|by apply sub_mono..].
  unfold proc_ok. destruct (p_stat x); try done. by apply wf_mono.
Qed.

Lemma wired_put made s i pr : wired made s -> proc_ok made pr -> wired made (Sys (<[i := pr]> (s_procs s)) (s_pipes s) (s_log s) (s_fail s)).
Proof. intros [] Hp. split; try done. by apply Forall_insert. Qed.

Lemma wired_exit made s i pr : wired made s -> wired made (uexit i pr s).
Proof.
  intros []. split; try done. unfold uexit. simpl. apply Forall_fmap, Forall_insert.
  - eapply Forall_impl; [done|]. intros x Hx. unfold compose, orphan. by case_decide.
  - unfold compose, orphan. by case_decide.
Qed.

Lemma wired_step made s s' ok z i : wired made s -> exec1 ok z i s = Some s' -> exists made', made `prefix_of` made' /\ wired made' s'.
Proof.
  intros Hw Hs. unfold exec1 in Hs. destruct (s_procs s !! i) as [pr|] eqn:Hi; [|done].
  pose proof (Forall_lookup_1 _ _ _ _ (wi_procs _ _ Hw) Hi) as Hpr. unfold proc_ok in Hpr.
  assert (Hfail : forall b, wired made (Sys (<[i := Proc (Running failed) (p_fds pr) (p_p pr) (p_parent pr)]> (s_procs s)) (s_pipes s) (s_log s) b)).
  { intros b. destruct (wired_put made s i (Proc (Running failed) (p_fds pr) (p_p pr) (p_parent pr)) Hw); [|by split]. unfold proc_ok, failed. simpl. eauto. }
  destruct (p_stat pr) as [[|ins k]|argv| |]; try done; [|injection Hs as <-; exists made; split; [done|by apply wired_exit]].
  inversion Hpr as [| |? ? fd ? ? ? Hlow| | | | | |]; subst; simpl in Hs.
  - injection Hs as <-. exists made. split; [done|]. apply wired_put; [done|]. by apply wf_runcmd.
  - injection Hs as <-. exists made. split; [done|]. by apply wired_put.
  - rewrite Hlow in Hs. destruct ok; injection Hs as <-; exists made; (split; [done|]); [by apply wired_put|apply Hfail].
  - destruct (lowest (p_fds pr)) as [a|] eqn:Ea; [destruct ok|]; [|injection Hs as <-; by exists made..].
    destruct (lowest (<[a := PipeR (s_pipes s)]> (p_fds pr))) as [b|] eqn:Eb; injection Hs as <-; [|by exists made].
    set (made' := made ++ [(l, r, p_fds pr)]). assert (Hp : made `prefix_of` made') by (by eexists).
    destruct (wired_mono made made' Hp) as (Mp & Mm & Ml). exists made'. split; [done|]. destruct Hw as [E Hm Hps Hl].
    assert (sub made' (TPipe l r) (p_fds pr)) by (by eapply sub_mono). split; simpl.
    + unfold made'. rewrite length_app. simpl. lia.
    + apply Forall_app. split; [by apply Mm|]. by apply Forall_singleton.
    + apply Forall_insert; [by apply Mp|]. rewrite E in Eb. rewrite E. eapply wf_piped; try done.
      unfold made'. apply lookup_app_Some. right. split; [lia|]. by rewrite Nat.sub_diag.
    + by apply Ml.
  - destruct ok; injection Hs as <-; exists made; (split; [done|]); [|apply Hfail].
    destruct Hw as [E Hm Hps Hl]. split; try done. simpl. apply Forall_app. split; [by apply Forall_insert|]. by apply Forall_singleton.
  - destruct (kids i (s_procs s) =? 0)%nat; [injection Hs as <-; exists made; split; [done|by apply wired_put]|].
    destruct (s_procs s !! z) as [c|]; [|done]. destruct (_ && _); [|done]. injection Hs as <-. exists made. split; [done|].
    destruct Hw as [E Hm Hps Hl]. split; try done. simpl. by repeat apply Forall_insert.
  - destruct ok; injection Hs as <-; exists made; (split; [done|]); destruct Hw as [E Hm Hps Hl]; split; try done; simpl.
    + by apply Forall_insert.
    + apply Forall_app. split; [done|]. by apply Forall_singleton.
    + by apply Forall_insert.
  - injection Hs as <-. exists made. split; [done|]. by apply wired_put.
  - injection Hs as <-. exists made. split; [done|]. by apply wired_exit.
Qed.

Lemma wired_run s : rtc step (start T fds0 n0) s -> exists made, wired made s.
Proof.
  intros Hr. assert (Hgen : forall x y, rtc step x y -> (exists made, wired made x) -> exists made, wired made y).
  { clear Hr s. induction 1 as [|x y z (ok & c & i & Hxy) _ IH]; [done|]. intros (made & Hw).
    destruct (wired_step _ _ _ _ _ _ Hw Hxy) as (made' & _ & Hw'). eauto. }
  eapply Hgen; [done|]. exists []. split; simpl; [lia|constructor| |constructor]. apply Forall_singleton. unfold proc_ok. simpl. eauto.
Qed.

Lemma wired_facts (s : sys) : rtc step (start T fds0 n0) s ->
  exists made, s_pipes s = (n0 + length made)%nat /\
    Forall (fun x => sub made (TPipe x.1.1 x.1.2) x.2) made /\
    Forall (fun x => sub made (TExec x.1) x.2) (s_log s) /\
    forall i pr k, s_procs s !! i = Some pr -> p_stat pr = Running (IWait :: k) -> exists t, sub made t (p_fds pr).
Proof.
  intros Hr. destruct (wired_run s Hr) as (made & [E Hm Hp Hl]). exists made. split; [done|]. split; [done|]. split; [done|].
  intros i pr k Hi Hst. pose proof (Forall_lookup_1 _ _ _ _ Hp Hi) as Hpr. unfold proc_ok in Hpr. rewrite Hst in Hpr.
  inversion Hpr; subst. by eexists.
Qed.
End wiring.

(** * Order, completeness and the end *)

(** The commands of a line. *)
Fixpoint commands (t : tree) : list (list bytes) :=
  match t with
  | TExec [] => []
  | TExec ws => [ws]
  | TRedir t _ _ _ | TBack t => commands t
  | TPipe l r | TList l r => commands l ++ commands r
  end.
(** Those a process has still to execute itself or in children it will fork. *)
Fixpoint pending (code : list instr) : list (list bytes) :=
  match code with
  | [] => []
  | IRun t :: _ => commands t
  | IFork _ t :: k => commands t ++ pending k
  | IExec ws :: k => ws :: pending k
  | IExit _ :: _ => []
  | _ :: k => pending k
  end.
(** With [n] children that were not waited for: there is a [wait] for each child
    before another command is run. *)
Fixpoint balanced (n : nat) (code : list instr) : Prop :=
  match code with
  | [] => False
  | IRun _ :: _ => n = O
  | IFork _ _ :: k => balanced (S n) k
  | IWait :: k => match n with O => False | S n => balanced n k end
  | IExec _ :: k => pending k = [] /\ balanced n k
  | IExit _ :: _ => True
  | _ :: k => balanced n k
  end.

Lemma balanced_runcmd t : balanced 0 (runcmd t) /\ pending (runcmd t) = commands t.
Proof. destruct t as [[|w ws]| | | |]; simpl; rewrite ?app_nil_r; done. Qed.
Lemma balanced_child pre t : balanced 0 ((IOp <$> pre) ++ [IRun t]) /\ pending ((IOp <$> pre) ++ [IRun t]) = commands t.
Proof. induction pre; done. Qed.

Lemma child_of_stat i pr st fds p : (p_stat pr = Reaped <-> st = Reaped) -> child_of i (Proc st fds p (p_parent pr)) = child_of i pr.
Proof. intros H. unfold child_of. simpl. f_equal. destruct (p_stat pr), st; try done; naive_solver. Qed.

Lemma kids_insert j l i pr pr' : l !! i = Some pr ->
  (kids j (<[i := pr']> l) + (if child_of j pr then 1 else 0) = kids j l + (if child_of j pr' then 1 else 0))%nat.
Proof.
  unfold kids. revert i. induction l as [|x l IH]; intros [|i] H; simplify_eq/=.
  - rewrite !filter_cons. destruct (child_of j pr), (child_of j pr'); repeat case_decide; simpl; try congruence; lia.
  - specialize (IH i H). rewrite !filter_cons. destruct (decide _); simpl; lia.
Qed.

Lemma kids_same j l i pr pr' : l !! i = Some pr -> child_of j pr' = child_of j pr -> kids j (<[i := pr']> l) = kids j l.
Proof. intros H E. pose proof (kids_insert j l i pr pr' H) as Hk. rewrite E in Hk. lia. Qed.

Lemma kids_snoc j l pr : kids j (l ++ [pr]) = (kids j l + if child_of j pr then 1 else 0)%nat.
Proof. unfold kids. rewrite filter_app, length_app, filter_cons. destruct (child_of j pr); [by rewrite decide_True|by rewrite decide_False]. Qed.

Lemma kids_orphan j i l : i <> j -> kids j (orphan i <$> l) = kids j l.
Proof.
  intros Hne. unfold kids. induction l as [|x l IH]; [done|]. cbn [fmap list_fmap]. rewrite !filter_cons.
  assert (child_of j (orphan i x) = child_of j x) as ->.
  { unfold child_of, orphan. case_decide as E; [|done]. simpl. rewrite E. by rewrite !bool_decide_eq_false_2 by congruence. }
  destruct (decide _); simpl; by rewrite IH.
Qed.

(** What the processes have still to execute. *)
Definition todo (pr : uproc) : list (list bytes) := match p_stat pr with Running code => pending code | _ => [] end.
Definition todos (l : list uproc) : list (list bytes) := concat (todo <$> l).

Lemma todos_insert l i pr pr' : l !! i = Some pr -> todos (<[i := pr']> l) ++ todo pr ≡ₚ todos l ++ todo pr'.
Proof.
  unfold todos. revert i. induction l as [|x l IH]; intros [|i] H; simplify_eq/=.
  - rewrite <- !app_assoc. rewrite (Permutation_app_comm (todo pr')), <- !app_assoc. rewrite (Permutation_app_comm (concat _)), <- app_assoc.
    apply Permutation_app_head, Permutation_app_comm.
  - rewrite <- !app_assoc. by rewrite (IH i H).
Qed.
Lemma todos_snoc l pr : todos (l ++ [pr]) = todos l ++ todo pr.
Proof. unfold todos. rewrite fmap_app, concat_app. simpl. by rewrite app_nil_r. Qed.
Lemma todos_orphan i l : todos (orphan i <$> l) = todos l.
Proof.
  unfold todos. f_equal. rewrite <- list_fmap_compose. apply list_fmap_ext. intros _ x _. unfold compose, orphan, todo. by case_decide.
Qed.

Section once.
Context (T : tree) (fds0 : fdtable) (n0 : nat).

Record tidy (s : sys) : Prop := {
  ti_parent : forall k pr j, s_procs s !! k = Some pr -> p_parent pr = Some j -> (j < k)%nat;
  ti_bal : forall i pr code, s_procs s !! i = Some pr -> p_stat pr = Running code -> balanced (kids i (s_procs s)) code;
  ti_sub : (s_log s).*1 ++ todos (s_procs s) ⊆+ commands T;
  ti_all : s_fail s = false -> (s_log s).*1 ++ todos (s_procs s) ≡ₚ commands T;
}.

(** The accounts when process [i] becomes [pr'] and [lost] commands are given up. *)
Lemma once_put (l : list uproc) i pr pr' (log log' lost : list (list bytes)) : l !! i = Some pr -> log' ++ todo pr' ++ lost ≡ₚ log ++ todo pr ->
  (log' ++ todos (<[i := pr']> l)) ++ lost ≡ₚ log ++ todos l.
Proof.
  intros Hi Hl. pose proof (todos_insert l i pr pr' Hi) as Ht.
  apply (Permutation_app_inv_r (todo pr)).
  trans ((todos (<[i := pr']> l) ++ todo pr) ++ log' ++ lost); [solve_Permutation|]. rewrite Ht.
  trans (todos l ++ log' ++ todo pr' ++ lost); [solve_Permutation|]. rewrite Hl. solve_Permutation.
Qed.

Lemma once_sub (a b lost : list (list bytes)) : a ++ lost ≡ₚ b -> b ⊆+ commands T -> a ⊆+ commands T.
Proof. intros E Hb. rewrite <- E in Hb. etrans; [|exact Hb]. apply submseteq_inserts_r. done. Qed.

Lemma tidy_put s i pr pr' pipes log fail lost : tidy s -> s_procs s !! i = Some pr -> p_parent pr' = p_parent pr ->
  (p_stat pr = Reaped <-> p_stat pr' = Reaped) ->
  (forall code, p_stat pr' = Running code -> balanced (kids i (s_procs s)) code) ->
  log.*1 ++ todo pr' ++ lost ≡ₚ (s_log s).*1 ++ todo pr -> (fail = false -> s_fail s = false /\ lost = []) ->
  tidy (Sys (<[i := pr']> (s_procs s)) pipes log fail).
Proof.
  intros [Hp Hb Hs Ha] Hi Epar Est Hbal Hlost Hf. pose proof (once_put _ _ _ _ _ _ _ Hi Hlost) as Ho. split; simpl.
  - intros k q j Hk Hj. apply list_lookup_insert_Some in Hk as [(<- & <- & _)|[_ Hk]]; [|by eapply Hp]. rewrite Epar in Hj. by eapply Hp.
  - intros j q code Hj Hst. rewrite (kids_same j _ i pr pr' Hi).
    + apply list_lookup_insert_Some in Hj as [(<- & <- & _)|[_ Hj]]; [by apply Hbal|by eapply Hb].
    + destruct pr' as [st fds p par]. simpl in *. subst par. by apply child_of_stat.
  - by eapply once_sub.
  - intros E. destruct (Hf E) as [E' ->]. rewrite app_nil_r in Ho. rewrite Ho. by apply Ha.
Qed.

Lemma tidy_exit s i pr : tidy s -> s_procs s !! i = Some pr -> todo pr = [] -> p_stat pr <> Reaped -> tidy (uexit i pr s).
Proof.
  intros Ht Hi Htodo Hst. assert (Ht' : tidy (Sys (<[i := Proc Zombie ∅ (p_p pr) (p_parent pr)]> (s_procs s)) (s_pipes s) (s_log s) (s_fail s))).
  { eapply (tidy_put s i pr _ _ _ _ []); simpl; try done. by rewrite Htodo. }
  destruct Ht' as [Hp Hb Hs Ha]. simpl in *. split; simpl; [| |by rewrite todos_orphan..].
  - intros k q j Hk Hj. rewrite list_lookup_fmap in Hk. apply fmap_Some in Hk as (x & Hx & ->). apply (Hp k x); [done|].
    unfold orphan in Hj. by case_decide.
  - intros j q code Hj Hrun. rewrite list_lookup_fmap in Hj. apply fmap_Some in Hj as (x & Hx & ->).
    assert (Hrun' : p_stat x = Running code) by (unfold orphan in Hrun; by case_decide). rewrite kids_orphan; [by eapply Hb|].
    intros ->. rewrite list_lookup_insert_eq in Hx by (by eapply lookup_lt_Some). by simplify_eq.
Qed.

Lemma tidy_fork s i pr pre t k : tidy s -> s_procs s !! i = Some pr -> p_stat pr = Running (IFork pre t :: k) ->
  tidy (Sys (<[i := Proc (Running k) (p_fds pr) (p_p pr) (p_parent pr)]> (s_procs s) ++ [Proc (Running ((IOp <$> pre) ++ [IRun t])) (p_fds pr) (p_p pr) (Some i)])
    (s_pipes s) (s_log s) (s_fail s)).
Proof.
  intros [Hp Hb Hs Ha] Hi Est. set (pr' := Proc (Running k) _ _ _). set (c := Proc (Running (_ ++ _)) _ _ _).
  destruct (balanced_child pre t) as [Bc Pc]. pose proof (lookup_lt_Some _ _ _ Hi) as Hlt.
  assert (Hperm : (s_log s).*1 ++ todos (<[i := pr']> (s_procs s) ++ [c]) ≡ₚ (s_log s).*1 ++ todos (s_procs s)).
  { pose proof (todos_insert _ i pr pr' Hi) as E. rewrite todos_snoc. apply Permutation_app_head. unfold todo in E at 1. rewrite Est in E. simpl in E.
    apply (Permutation_app_inv_r (todo pr')). rewrite <- E, <- !app_assoc. apply Permutation_app_head.
    change (todo c) with (pending ((IOp <$> pre) ++ [IRun t])). by rewrite Pc. }
  split; simpl; [| |by rewrite Hperm..].
  - intros m q j Hm Hj. apply lookup_app_Some in Hm as [Hm|[Hge Hm]].
    + apply list_lookup_insert_Some in Hm as [(<- & <- & _)|[_ Hm]]; by eapply Hp.
    + apply list_lookup_singleton_Some in Hm as [_ <-]. injection Hj as <-. rewrite length_insert in Hge. lia.
  - intros j q code Hj Hrun. rewrite kids_snoc, (kids_same j _ i pr pr' Hi) by (apply child_of_stat; rewrite Est; done).
    apply lookup_app_Some in Hj as [Hj|[Hge Hj]].
    + apply list_lookup_insert_Some in Hj as [(<- & <- & _)|[Hne Hj]].
      * injection Hrun as <-. specialize (Hb i pr _ Hi Est). simpl in Hb. unfold child_of. simpl. rewrite bool_decide_eq_true_2 by done.
        simpl. by rewrite Nat.add_1_r.
      * unfold child_of. simpl. rewrite bool_decide_eq_false_2 by congruence. simpl. rewrite Nat.add_0_r. by eapply Hb.
    + apply list_lookup_singleton_Some in Hj as [E <-]. injection Hrun as <-. rewrite length_insert in *.
      assert (kids j (s_procs s) = O) as ->.
      { unfold kids. apply length_zero_iff_nil. apply elem_of_nil_inv. intros x [Hc Hx]%list_elem_of_filter.
        apply list_elem_of_lookup in Hx as (m & Hm). unfold child_of in Hc. apply andb_true_iff in Hc as [E'%bool_decide_eq_true _].
        specialize (Hp m x j Hm E'). pose proof (lookup_lt_Some _ _ _ Hm). lia. }
      unfold child_of. simpl. rewrite bool_decide_eq_false_2 by (intros [= ->]; lia). done.
Qed.

(** [wait] takes the child [z]. *)
Lemma tidy_wait s i z pr c k : tidy s -> s_procs s !! i = Some pr -> p_stat pr = Running (IWait :: k) ->
  s_procs s !! z = Some c -> p_parent c = Some i -> p_stat c = Zombie ->
  tidy (Sys (<[z := Proc Reaped (p_fds c) (p_p c) (p_parent c)]> (<[i := Proc (Running k) (p_fds pr) (p_p pr) (p_parent pr)]> (s_procs s)))
    (s_pipes s) (s_log s) (s_fail s)).
Proof.
  intros [Hp Hb Hs Ha] Hi Est Hz Hpar Hzst. set (pr' := Proc (Running k) _ _ _). set (c' := Proc Reaped _ _ _).
  assert (Hne : i <> z) by (intros ->; congruence).
  assert (Hz' : <[i := pr']> (s_procs s) !! z = Some c) by (by rewrite list_lookup_insert_ne).
  assert (Hperm : todos (<[z := c']> (<[i := pr']> (s_procs s))) ≡ₚ todos (s_procs s)).
  { pose proof (todos_insert _ z c c' Hz') as E1. pose proof (todos_insert _ i pr pr' Hi) as E2.
    unfold todo in E1, E2. rewrite Hzst in E1. rewrite Est in E2. simpl in E1, E2. rewrite !app_nil_r in E1. rewrite E1.
    by apply Permutation_app_inv_r in E2. }
  assert (Hk : forall j, (kids j (<[z := c']> (<[i := pr']> (s_procs s))) + (if bool_decide (j = i) then 1 else 0) = kids j (s_procs s))%nat).
  { intros j. pose proof (kids_insert j _ z c c' Hz') as E. rewrite (kids_same j _ i pr pr' Hi) in E by (apply child_of_stat; rewrite Est; done).
    unfold child_of in E. rewrite Hzst in E. simpl in E. rewrite andb_true_r, andb_false_r, Hpar in E.
    rewrite (bool_decide_ext (j = i) (Some i = Some j)) by (split; congruence). destruct (bool_decide _); lia. }
  split; simpl; [| |by rewrite Hperm..].
  - intros m q j Hm Hj. apply list_lookup_insert_Some in Hm as [(<- & <- & _)|[_ Hm]]; [by eapply Hp|].
    apply list_lookup_insert_Some in Hm as [(<- & <- & _)|[_ Hm]]; by eapply Hp.
  - intros j q code Hj Hrun. specialize (Hk j). apply list_lookup_insert_Some in Hj as [(<- & <- & _)|[_ Hj]]; [done|].
    apply list_lookup_insert_Some in Hj as [(<- & <- & _)|[Hij Hj]].
    + injection Hrun as <-. specialize (Hb i pr _ Hi Est). rewrite <- Hk, bool_decide_eq_true_2, Nat.add_1_r in Hb by done. exact Hb.
    + rewrite bool_decide_eq_false_2, Nat.add_0_r in Hk by done. rewrite Hk. by eapply Hb.
Qed.

Lemma tidy_step s s' ok z i : tidy s -> exec1 ok z i s = Some s' -> tidy s'.
Proof.
  intros Ht Hs. unfold exec1 in Hs. destruct (s_procs s !! i) as [pr|] eqn:Hi; [|done].
  assert (Hgo : forall st fds p pipes, st <> Reaped -> p_stat pr <> Reaped -> (forall code, st = Running code -> balanced (kids i (s_procs s)) code) ->
    todo pr = (match st with Running code => pending code | _ => [] end) ->
    tidy (Sys (<[i := Proc st fds p (p_parent pr)]> (s_procs s)) pipes (s_log s) (s_fail s))).
  { intros st fds p pipes Hst Hnr Hbal Htd. eapply (tidy_put s i pr _ _ _ _ []); simpl; try done.
    rewrite app_nil_r. unfold todo at 1. simpl. by rewrite Htd. }
  assert (Hfail : forall lost log, p_stat pr <> Reaped -> log.*1 ++ lost ≡ₚ (s_log s).*1 ++ todo pr ->
    tidy (Sys (<[i := Proc (Running failed) (p_fds pr) (p_p pr) (p_parent pr)]> (s_procs s)) (s_pipes s) log true)).
  { intros lost log Hnr Hl. eapply (tidy_put s i pr _ _ _ _ lost); simpl; try done. by intros code [= <-]. }
  destruct (p_stat pr) as [[|ins k]|argv| |] eqn:Est; try done.
  2: { injection Hs as <-. apply tidy_exit; try done; [unfold todo|]; by rewrite Est. }
  pose proof (ti_bal _ Ht i pr _ Hi Est) as Hb. assert (Htd : todo pr = pending (ins :: k)) by (unfold todo; by rewrite Est).
  destruct ins as [t|o|f m| |pre t| |ws| |n]; simpl in Hb.
  - injection Hs as <-. apply Hgo; try done. + intros code [= <-]. rewrite Hb. apply balanced_runcmd. + rewrite Htd. symmetry. apply balanced_runcmd.
  - injection Hs as <-. apply Hgo; try done. by intros code [= <-].
  - destruct (lowest _) as [fd|]; [destruct ok|]; injection Hs as <-; [|by apply (Hfail (todo pr) (s_log s))..].
    apply Hgo; try done. by intros code [= <-].
  - destruct (lowest _) as [a|]; [destruct ok|]; [|injection Hs as <-; by apply (Hfail (todo pr) (s_log s))..].
    destruct (lowest _) as [b|]; injection Hs as <-; [|by apply (Hfail (todo pr) (s_log s))]. apply Hgo; try done. by intros code [= <-].
  - destruct ok; injection Hs as <-; [|by apply (Hfail (todo pr) (s_log s))]. by apply tidy_fork.
  - destruct (kids i (s_procs s)) eqn:Ek; [done|]. simpl in Hs. destruct (s_procs s !! z) as [c|] eqn:Hz; [|done].
    destruct (bool_decide_reflect (p_parent c = Some i)); [|done]. destruct (p_stat c) eqn:Ec; try done. simpl in Hs. injection Hs as <-. by apply tidy_wait.
  - destruct Hb as [Hk Hb]. destruct ok; injection Hs as <-.
    + eapply (tidy_put s i pr _ _ _ _ []); simpl; try done; [by rewrite Est|]. rewrite fmap_app. simpl. rewrite Htd. simpl. by rewrite Hk, app_nil_r.
    + eapply (tidy_put s i pr _ _ _ _ [ws]); simpl; try done; [by rewrite Est|by intros code [= <-]|]. rewrite Htd. unfold todo. simpl. by rewrite Hk.
  - injection Hs as <-. apply Hgo; try done. by intros code [= <-].
  - injection Hs as <-. apply tidy_exit; try done. by rewrite Est.
Qed.

Lemma tidy_run s : rtc step (start T fds0 n0) s -> tidy s.
Proof.
  intros Hr. assert (Hgen : forall x y, rtc step x y -> tidy x -> tidy y).
  { clear Hr s. induction 1 as [|x y z (ok & c & i & Hxy) _ IH]; [done|]. intros Hw. by eapply IH, tidy_step. }
  eapply Hgen; [done|]. split; simpl.
  - intros [|k] pr j Hk Hj; simplify_eq/=.
  - intros [|i] pr code Hi Hst; simplify_eq/=. done.
  - unfold todos. simpl. by rewrite app_nil_r.
  - intros _. unfold todos. simpl. by rewrite app_nil_r.
Qed.

(** ** Progress *)

Definition running (pr : uproc) : bool := match p_stat pr with Running _ => true | _ => false end.

Lemma progress s i pr : tidy s -> s_procs s !! i = Some pr -> running pr = true -> exists s', step s s'.
Proof.
  intros Ht. remember (length (s_procs s) - i)%nat as d eqn:Ed. revert i pr Ed. induction d as [d IH] using lt_wf_ind. intros i pr Ed Hi Hr.
  pose proof (lookup_lt_Some _ _ _ Hi) as Hlt. unfold running in Hr. destruct (p_stat pr) as [code| | |] eqn:Est; try done.
  pose proof (ti_bal _ Ht i pr _ Hi Est) as Hb. destruct code as [|ins k]; [done|].
  assert (Hstep : forall z, (forall k', ins :: k <> IWait :: k') -> exists s', exec1 true z i s = Some s').
  { intros z Hnw. unfold exec1. rewrite Hi, Est. destruct ins; try by eexists.
    - destruct (lowest _); by eexists.
    - destruct (lowest _); [destruct (lowest _)|]; by eexists.
    - by destruct (Hnw k). }
  destruct ins; try (destruct (Hstep O) as [s' Hs']; [done|]; exists s'; by exists true, O, i). clear Hstep.
  simpl in Hb. destruct (kids i (s_procs s)) as [|n] eqn:Ek; [done|].
  assert (Hc : exists z c, s_procs s !! z = Some c /\ child_of i c = true).
  { unfold kids in Ek. destruct (filter _ (s_procs s)) as [|c l] eqn:Ef; [done|].
    assert (Hc : c ∈ filter (fun pr => child_of i pr = true) (s_procs s)) by (rewrite Ef; by left).
    apply list_elem_of_filter in Hc as [Hc Hin]. apply list_elem_of_lookup in Hin as [z Hz]. by exists z, c. }
  destruct Hc as (z & c & Hz & Hc). apply andb_true_iff in Hc as [Hpar%bool_decide_eq_true Hnr].
  pose proof (ti_parent _ Ht z c i Hz Hpar). pose proof (lookup_lt_Some _ _ _ Hz). destruct (p_stat c) as [code|argv| |] eqn:Ec; [| | |done].
  - apply (IH (length (s_procs s) - z)%nat ltac:(lia) z c); [done|done|]. unfold running. by rewrite Ec.
  - eexists. exists true, O, z. unfold exec1. rewrite Hz, Ec. reflexivity.
  - eexists. exists true, z, i. unfold exec1. rewrite Hi, Est, Ek, Hz, Hpar, bool_decide_eq_true_2, Ec by done. reflexivity.
Qed.

(** ** Termination *)

Fixpoint tree_work (t : tree) : nat :=
  match t with
  | TExec _ => 9
  | TRedir t _ _ _ => 9 + tree_work t
  | TPipe l r => 60 + tree_work l + tree_work r
  | TList l r => 9 + tree_work l + tree_work r
  | TBack t => 9 + tree_work t
  end.
Definition instr_work (i : instr) : nat :=
  match i with
  | IRun t => tree_work t
  | IFork pre t => 4 + 3 * length pre + tree_work t
  | IPrint | IExit _ => 1
  | _ => 3
  end.
Definition proc_work (pr : uproc) : nat :=
  match p_stat pr with Running code => sum_list_with instr_work code | Program _ => 1 | _ => 0 end.
Definition sys_work (s : sys) : nat := sum_list_with proc_work (s_procs s).

Lemma work_runcmd t k : (sum_list_with instr_work (runcmd t) < sum_list_with instr_work (IRun t :: k))%nat.
Proof. destruct t as [[|w ws]| | | |]; simpl; lia. Qed.

Lemma work_insert l i pr pr' : l !! i = Some pr ->
  (sum_list_with proc_work (<[i := pr']> l) + proc_work pr = sum_list_with proc_work l + proc_work pr')%nat.
Proof. revert i. induction l as [|x l IH]; intros [|i] H; simplify_eq/=; [lia|]. specialize (IH i H). lia. Qed.

Lemma work_orphan i l : sum_list_with proc_work (orphan i <$> l) = sum_list_with proc_work l.
Proof.
  induction l as [|x l IH]; [done|]. rewrite fmap_cons. cbn [sum_list_with]. rewrite IH. f_equal. unfold orphan, proc_work. by case_decide.
Qed.

Lemma work_child pre t fds p par : proc_work (Proc (Running ((IOp <$> pre) ++ [IRun t])) fds p par) = (3 * length pre + tree_work t)%nat.
Proof.
  unfold proc_work. cbn [p_stat]. rewrite sum_list_with_app. cbn [sum_list_with instr_work]. induction pre as [|o pre IH]; [done|].
  rewrite fmap_cons. cbn [sum_list_with instr_work length]. lia.
Qed.

Lemma step_work s s' : step s s' -> (sys_work s' < sys_work s)%nat.
Proof.
  intros (ok & z & i & Hs). unfold exec1 in Hs. destruct (s_procs s !! i) as [pr|] eqn:Hi; [|done]. unfold sys_work.
  assert (Hgo : forall st fds p, (proc_work (Proc st fds p (p_parent pr)) < proc_work pr)%nat ->
    (sum_list_with proc_work (<[i := Proc st fds p (p_parent pr)]> (s_procs s)) < sum_list_with proc_work (s_procs s))%nat).
  { intros st fds p Hlt. pose proof (work_insert _ _ _ (Proc st fds p (p_parent pr)) Hi). lia. }
  destruct (p_stat pr) as [[|ins k]|argv| |] eqn:Est; try done.
  2: { injection Hs as <-. simpl. rewrite work_orphan. apply Hgo. unfold proc_work. rewrite Est. simpl. lia. }
  assert (Hpw : proc_work pr = (instr_work ins + sum_list_with instr_work k)%nat) by (unfold proc_work; by rewrite Est).
  assert (Hpos : (0 < instr_work ins)%nat) by (destruct ins as [[]| | | | | | | |]; simpl; lia).
  assert (Hnext : forall fds p, (proc_work (Proc (Running k) fds p (p_parent pr)) < proc_work pr)%nat) by (intros; rewrite Hpw; unfold proc_work; simpl; lia).
  assert (Hfail : (3 <= instr_work ins)%nat -> forall fds p, (proc_work (Proc (Running failed) fds p (p_parent pr)) < proc_work pr)%nat)
    by (intros; rewrite Hpw; unfold proc_work; simpl; lia).
  destruct ins as [t|o|f m| |pre t| |ws| |n].
  - injection Hs as <-. apply Hgo. rewrite Hpw. apply (work_runcmd t k).
  - injection Hs as <-. by apply Hgo.
  - destruct (lowest _); [destruct ok|]; injection Hs as <-; apply Hgo; auto; apply Hfail; simpl; lia.
  - destruct (lowest _); [destruct ok|]; [|injection Hs as <-; apply Hgo, Hfail; simpl; lia..].
    destruct (lowest _); injection Hs as <-; apply Hgo; auto; apply Hfail; simpl; lia.
  - destruct ok; injection Hs as <-; [|apply Hgo, Hfail; simpl; lia]. simpl. rewrite sum_list_with_app. cbn [sum_list_with]. rewrite work_child.
    pose proof (work_insert (s_procs s) i pr (Proc (Running k) (p_fds pr) (p_p pr) (p_parent pr)) Hi) as Hle. rewrite Hpw in Hle.
    change (proc_work (Proc (Running k) _ _ _)) with (sum_list_with instr_work k) in Hle. simpl in Hle. lia.
  - destruct (_ =? _)%nat; [injection Hs as <-; by apply Hgo|]. destruct (s_procs s !! z) as [c|] eqn:Hz; [|done].
    destruct (bool_decide _ && _) eqn:Ec; [|done]. injection Hs as <-. simpl. apply andb_true_iff in Ec as [_ Ec].
    assert (Hiz : i <> z) by (intros ->; rewrite Hi in Hz; injection Hz as <-; by rewrite Est in Ec).
    pose proof (Hgo (Running k) (p_fds pr) (p_p pr) (Hnext _ _)).
    pose proof (work_insert (<[i := Proc (Running k) (p_fds pr) (p_p pr) (p_parent pr)]> (s_procs s)) z c (Proc Reaped (p_fds c) (p_p c) (p_parent c))) as Hle.
    rewrite list_lookup_insert_ne in Hle by done. specialize (Hle Hz). change (proc_work (Proc Reaped _ _ _)) with O in Hle. lia.
  - destruct ok; injection Hs as <-; apply Hgo; auto. rewrite Hpw. unfold proc_work. simpl. lia.
  - injection Hs as <-. by apply Hgo.
  - injection Hs as <-. simpl. rewrite work_orphan. apply Hgo. rewrite Hpw. unfold proc_work. simpl. lia.
Qed.

(** C17: The shell's process for a command line ends, whatever the schedule and
    whichever system calls fail: the number of steps is bounded, and as long as
    a process of the shell runs some process can take a step.  No command is
    executed twice; a process goes on to the right of a [;] only when the left
    has exited and was waited for; and once no process of the shell runs and
    no system call has failed, every command was executed. *)
Theorem runcmd_ends :
  (exists N, forall n s, nsteps step n (start T fds0 n0) s -> (n <= N)%nat) /\
  forall s, rtc step (start T fds0 n0) s ->
    (forall i pr, s_procs s !! i = Some pr -> running pr = true -> exists s', step s s') /\
    (s_log s).*1 ⊆+ commands T /\
    (forall i pr t k, s_procs s !! i = Some pr -> p_stat pr = Running (IRun t :: k) -> kids i (s_procs s) = O) /\
    (s_fail s = false -> Forall (fun pr => running pr = false) (s_procs s) -> (s_log s).*1 ≡ₚ commands T).
Proof.
  split.
  - exists (sys_work (start T fds0 n0)). intros n s Hn.
    assert (Hgen : forall n s s', nsteps step n s s' -> (n + sys_work s' <= sys_work s)%nat).
    { intros n1 s1 s2 H. induction H as [|n1 x y w Hxy _ IH]; [lia|]. pose proof (step_work _ _ Hxy). lia. }
    specialize (Hgen n _ s Hn). lia.
  - intros s Ht%tidy_run. split; [intros; by eapply progress|]. destruct Ht as [_ Hb Hs Ha]. split; [|split].
    + etrans; [|exact Hs]. by apply submseteq_inserts_r.
    + intros i pr t k Hi Hst. exact (Hb i pr _ Hi Hst).
    + intros Hf Hall. rewrite <- (Ha Hf). assert (todos (s_procs s) = []) as ->; [|by rewrite app_nil_r].
      unfold todos. clear - Hall. induction Hall as [|pr l Hpr _ IH]; [done|]. rewrite fmap_cons. simpl. rewrite IH, app_nil_r.
      unfold todo, running in *. by destruct (p_stat pr).
Qed.
End once.

(** * Command lines *)

(** C16: Every program of a command line is executed with the descriptors the line
    asks for: those the shell had, its redirections opened as 0 or 1, the right
    end of every pipe it is a side of, and no other; and a process of the shell
    that waits holds no end of a pipe it does not write or read. *)
Theorem runcmd_wired (l : aline) (fds : fdtable) (n0 : nat) (s : sys) :
  std fds -> rtc step (start (line_tree l) fds n0) s ->
  exists made, s_pipes s = (n0 + length made)%nat /\
    Forall (fun x => sub (line_tree l) fds n0 made (TPipe x.1.1 x.1.2) x.2) made /\
    Forall (fun x => sub (line_tree l) fds n0 made (TExec x.1) x.2) (s_log s) /\
    forall i pr k, s_procs s !! i = Some pr -> p_stat pr = Running (IWait :: k) -> exists t, sub (line_tree l) fds n0 made t (p_fds pr).
Proof. intros Hstd. apply wired_facts; [done|apply std_line]. Qed.

(** A schedule: the first process that can take a step, no call fails, and
    [wait] takes the first zombie. *)
Definition first_zombie (i : nat) (l : list uproc) : nat :=
  default O (fst <$> list_find (fun pr => p_parent pr = Some i /\ match p_stat pr with Zombie => true | _ => false end = true) l).
Fixpoint pick (l : list nat) (s : sys) : option sys :=
  match l with
  | [] => None
  | i :: l => match exec1 true (first_zombie i (s_procs s)) i s with Some s' => Some s' | None => pick l s end
  end.
Fixpoint run (fuel : nat) (s : sys) : sys :=
  match fuel with
  | O => s
  | S fuel => match pick (seq 0 (length (s_procs s))) s with Some s' => run fuel s' | None => s end
  end.

Lemma run_steps fuel s : rtc step s (run fuel s).
Proof.
  assert (Hp : forall l s s', pick l s = Some s' -> step s s').
  { induction l as [|i l IH]; intros x x' H; simpl in H; [done|]. destruct (exec1 true _ i x) eqn:E; [simplify_eq; by do 3 eexists|by apply IH]. }
  revert s. induction fuel as [|fuel IH]; intros s; simpl; [apply rtc_refl|].
  destruct (pick _ s) eqn:E; [|apply rtc_refl]. eapply rtc_l; [by eapply Hp|apply IH].
Qed.

(** [ls | wc > out] *)
Definition demo_line : aline := ALast (PPipe (ESimple [] [(str "ls", [])]) (PLast (ESimple [] [(str "wc", [Redir (chr ">") (str "out")])]))) 0.
Definition demo_fds : fdtable := <[0 := OConsole]> (<[1 := OConsole]> (<[2 := OConsole]> ∅)).
Definition demo_end : sys := run 100 (start (line_tree demo_line) demo_fds 7).

Lemma runcmd_wired_witness :
  s_log demo_end = [([str "ls"], <[1 := PipeW 7]> demo_fds);
                    ([str "wc"], <[1 := OFile (str "out") 0x601]> (<[0 := PipeR 7]> demo_fds))] /\
  exists made, s_pipes demo_end = (7 + length made)%nat /\
    Forall (fun x => sub (line_tree demo_line) demo_fds 7 made (TExec x.1) x.2) (s_log demo_end).
Proof.
  split; [vm_compute; reflexivity|].
  destruct (runcmd_wired demo_line demo_fds 7 demo_end) as (made & H1 & _ & H2 & _); [repeat split; vm_compute; eauto|apply run_steps|].
  exists made. split; [exact H1|exact H2].
Defined.

Lemma runcmd_ends_witness : s_fail demo_end = false /\ (s_log demo_end).*1 ≡ₚ commands (line_tree demo_line).
Proof.
  split; [vm_compute; reflexivity|].
  destruct (runcmd_ends (line_tree demo_line) demo_fds 7) as [_ H]. destruct (H demo_end (run_steps _ _)) as (_ & _ & _ & Hall).
  apply Hall; [vm_compute; reflexivity|]. vm_compute. repeat constructor.
Defined.
