(* ===== verification/Ergasia.v ===== *)
(** The process simulation of "operating systems project 1", ergasia1.c.

    A parent reads commands, each for a step: start a child (S), terminate one
    (T), stop (EXIT).  At every step it picks an active child, writes a line of
    text to shared memory and wakes the child, which prints it.  Parent and
    children hand over control by semaphores.  The model has one program counter
    per process and a step for every access to shared memory or to a semaphore;
    any process may take the next step. *)

From S2P Require Import Prelude.
From Stdlib Require Import Ascii.
Local Open Scope Z_scope.

Module Erg.

Definition MAX_CHILDREN : nat := 100.

(** * Reading the configuration file *)

(** The commands of the table; [CNone] is [" "]. *)
Inductive command := CStart | CTerm | CExit | CNone.
#[export] Instance command_eq_dec : EqDecision command.
Proof. solve_decision. Defined.
Record opcommand := Op { process : Z; command_ : command; command_exists : bool }.
Definition no_command : opcommand := Op 0 CNone false.

(** ** sscanf *)

Definition isspace (c : Z) : bool := bool_decide (c ∈ [32; 9; 10; 11; 12; 13]).
Definition isdigit (c : Z) : bool := (48 <=? c) && (c <=? 57).
Fixpoint skip_space (l : bytes) : bytes :=
  match l with c :: l' => if isspace c then skip_space l' else l | [] => [] end.
(** The longest prefix of characters that satisfy [f], and the rest. *)
Fixpoint span (f : Z -> bool) (l : bytes) : bytes * bytes :=
  match l with
  | c :: l' => if f c then let '(a, b) := span f l' in (c :: a, b) else ([], l)
  | [] => ([], [])
  end.
Definition number_of (ds : bytes) : Z := foldl (fun n d => 10 * n + (d - 48)) 0 ds.
(** [%d]: the number is converted to an int. *)
Definition scan_d (l : bytes) : option (Z * bytes) :=
  let l := skip_space l in
  let '(neg, l) := match l with c :: l' => if c =? chr "-" then (true, l') else if c =? chr "+" then (false, l') else (false, l) | [] => (false, []) end in
  let '(ds, l) := span isdigit l in
  match ds with
  | [] => None
  | _ => Some (i32 (if neg then - number_of ds else number_of ds), l)
  end.
(** [%s] *)
Definition scan_s (l : bytes) : option (bytes * bytes) :=
  let '(w, l) := span (fun c => negb (isspace c)) (skip_space l) in
  match w with [] => None | _ => Some (w, l) end.

(** The fields [sscanf] stores for ["%d %s %s"]; its value is how many. *)
Record fields := Fields { f_step : option Z; f_s1 : option bytes; f_s2 : option bytes }.
Definition sscanf3 (l : bytes) : fields :=
  match scan_d l with
  | None => Fields None None None
  | Some (n, l) =>
      match scan_s l with
      | None => Fields (Some n) None None
      | Some (w, l) => Fields (Some n) (Some w) (fst <$> scan_s l)
      end
  end.

(** ** The two passes over the file *)

(** A word and its NUL do not fit the buffer. *)
Definition overruns (size : nat) (w : option bytes) : bool :=
  match w with Some w => (size <=? length w)%nat | None => false end.

(** The first pass finds the number of the last step, with [char col[3]] and
    [char status[2]]. *)
Fixpoint find_last (lines : list bytes) (last_number : Z) : outcome Z :=
  match lines with
  | [] => Done last_number
  | line :: lines =>
      let f := sscanf3 line in
      if overruns 3 (f_s1 f) || overruns 2 (f_s2 f) then Unspec else
      match f_step f, f_s1 f with
      | Some number, Some _ => find_last lines number
      | _, _ => find_last lines last_number
      end
  end.

(** [atoi] on digits. *)
Definition atoi (w : bytes) : Z := i32 (number_of (span isdigit w).1).

Record pstate := PS { last_step : Z; final_step : Z; exit_found : bool; table : Z -> opcommand }.
Inductive perror := ENotAscending | ECharacter | ENotDigit | ENotST | ENotExit | EFormat.

(** [commandsstruct[step] = ...] in an array of [size] elements. *)
Definition put_command (size step : Z) (c : opcommand) (t : Z -> opcommand) : outcome (Z -> opcommand) :=
  if (0 <=? step) && (step <? size) then Done (<[step := c]> t) else Unspec.

(** One line of the second pass, with [char process[16], command[10]]. *)
Definition parse_line (size : Z) (line : bytes) (s : pstate) : outcome (perror + pstate) :=
  let f := sscanf3 line in
  if overruns 16 (f_s1 f) || overruns 10 (f_s2 f) then Unspec else
  match f with
  | Fields (Some step) (Some process) (Some command) =>
      if last_step s >? step then Done (inl ENotAscending)
      else if negb (bool_decide (head process = Some (chr "C"))) then Done (inl ECharacter)
      else if negb (forallb isdigit (tail process)) then Done (inl ENotDigit)
      else
        let final_step := if (final_step s <? step) && negb (exit_found s) then step else final_step s in
        if bool_decide (command = str "S") then
          t ← put_command size step (Op (atoi (tail process)) CStart true) (table s);
          Done (inr (PS step final_step (exit_found s) t))
        else if bool_decide (command = str "T") then
          t ← put_command size step (Op (atoi (tail process)) CTerm true) (table s);
          Done (inr (PS step final_step (exit_found s) t))
        else Done (inl ENotST)
  | Fields (Some step) (Some command) None =>
      if (10 <=? length command)%nat then Unspec
      else if last_step s >? step then Done (inl ENotAscending)
      else if negb (bool_decide (command = str "EXIT")) then Done (inl ENotExit)
      else if exit_found s then Done (inr (PS step (final_step s) true (table s)))
      else
        t ← put_command size step (Op 0 CExit true) (table s);
        Done (inr (PS step step true t))
  | _ => Done (inl EFormat)
  end.

Fixpoint parse_lines (size : Z) (lines : list bytes) (s : pstate) : outcome (perror + pstate) :=
  match lines with
  | [] => Done (inr s)
  | line :: lines =>
      r ← parse_line size line s;
      match r with inl e => Done (inl e) | inr s => parse_lines size lines s end
  end.

(** [opcommand commandsstruct[last_number];] and the second pass. *)
Definition read_config (lines : list bytes) : outcome (perror + pstate) :=
  last_number ← find_last lines 0;
  parse_lines last_number lines (PS 0 (-1) false (fun _ => no_command)).

(** ** The start of main *)

(** The tests of the arguments; [ex1] and [ex2]: the files exist ([access]).
    [None] is [return -1], otherwise the number of active processes. *)
Definition check_args (argv : list bytes) (ex1 ex2 : bool) : option Z :=
  match argv with
  | [_; _; _; n] => if negb ex1 || negb ex2 then None else if forallb isdigit n then Some (atoi n) else None
  | _ => None
  end.

(** [fgets(line, 257, file)]: up to 256 bytes, to the end of the line. *)
Fixpoint fgets (n : nat) (file : bytes) : bytes * bytes :=
  match n, file with
  | S n, c :: file => if c =? 10 then ([c], file) else let '(l, r) := fgets n file in (c :: l, r)
  | _, _ => ([], file)
  end.
(** What the calls return until [NULL]. *)
Fixpoint fgets_all (fuel : nat) (file : bytes) : list bytes :=
  match fuel, file with
  | S fuel, _ :: _ => let '(l, r) := fgets 256 file in l :: fgets_all fuel r
  | _, _ => []
  end.
(** [strncpy(text_file_content[i], line1, 257)] and, but for the last line,
    [text_file_content[i][strlen(line1) - 1] = 0]; a string is its bytes before
    the NUL. *)
Definition before_nul (l : bytes) : bytes := (span (fun c => negb (c =? 0)) l).1.
Fixpoint text_table (lines : list bytes) : outcome (list bytes) :=
  match lines with
  | [] => Done []
  | [l] => Done [before_nul l]
  | l :: lines =>
      match before_nul l with
      | [] => Unspec
      | s => t ← text_table lines; Done (take (length s - 1) s :: t)
      end
  end.
Definition read_text (file : bytes) : outcome (list bytes) := text_table (fgets_all (S (length file)) file).

(** * The simulation *)

(** Where a child is; [j] is the index of its semaphore. *)
Inductive kpc :=
| KFind (j : nat)                (* if (array[j] == 0) *)
| KStore (j : nat)               (* array[j] = getpid() *)
| KUp (j : nat)                  (* sem_post(par_sem) before child_process *)
| KWait (j : nat)                (* sem_wait(child_sem) *)
| KCmd (j : nat)                 (* memcpy(&terminatecommand, ...) *)
| KTStep (j : nat) (cmd : Z)     (* memcpy(&terminate_step, ...) *)
| KMsg (j : nat)                 (* strncpy(message0, originalptr, 256) *)
| KPost (j : nat)                (* sem_post(par_sem) after printing *)
| KReset (t : Z)                 (* memcpy(ptr_command, 0) *)
| KBye (t : Z)                   (* sem_post(par_sem); exit(0) *)
| KDead.
Record kid := Kid { k_pc : kpc; k_start : Z; k_msgs : Z }.

(** Where the parent is. *)
Inductive ppc :=
| PStep                          (* the test of the loop over the steps *)
| PStartWait                     (* sem_wait(par_sem) after fork *)
| PSetCmd (pid : Z)              (* memcpy(ptr_command, &terminate_pid) *)
| PSetStep (pid : Z)             (* memcpy(ptr_terminate_step, &i) *)
| PScan (pid : Z) (j : nat)      (* if (array[j] == terminate_pid) *)
| PClear (j : nat)               (* array[j] = 0 *)
| PPostT (j : nat)               (* sem_post(semaphores[j]) *)
| PTermWait                      (* sem_wait(par_sem) *)
| PTalk                          (* if (no_of_currently_running_processes > 0) *)
| PChoose (pids : list Z)        (* choose_random_active_child(...) *)
| PWrite (j : nat) (msg : bytes) (* strncpy(originalptr, ..., 256) *)
| PPost (j : nat)                (* sem_post(semaphores[chosen_index]) *)
| PTalkWait                      (* sem_wait(par_sem) *)
| PEndCmd | PEndStep             (* terminate_pid = -1 *)
| PEndPost (j : nat)             (* sem_post(semaphores[j]) *)
| PReap (n : nat)                (* waitpid(child_pid_name[n].pid) *)
| PDone
| PFail                          (* return -1 *)
| PUndef.                        (* behaviour C leaves undefined *)

(** What is printed: the parent's pick, a child's message and its last words. *)
Inductive event :=
| OPick (step p : Z) (msg : bytes)
| OMsg (p : Z) (msg : bytes)
| OBye (p msgs steps : Z).

(** Children are numbered in the order of [fork]; [e_names] is [child_pid_name],
    pid and name of each. *)
Record est := Est {
  e_pc : ppc; e_i : Z; e_running : Z; e_names : list (Z * Z);
  e_msg : bytes; e_pids : list Z; e_cmd : Z; e_tstep : Z;
  e_par : nat; e_sems : list nat;
  e_kids : list kid; e_out : list event;
}.

Definition set_pc (pc : ppc) (s : est) : est :=
  Est pc (e_i s) (e_running s) (e_names s) (e_msg s) (e_pids s) (e_cmd s) (e_tstep s) (e_par s) (e_sems s) (e_kids s) (e_out s).
Definition set_i (i : Z) (s : est) : est :=
  Est (e_pc s) i (e_running s) (e_names s) (e_msg s) (e_pids s) (e_cmd s) (e_tstep s) (e_par s) (e_sems s) (e_kids s) (e_out s).
Definition set_running (n : Z) (s : est) : est :=
  Est (e_pc s) (e_i s) n (e_names s) (e_msg s) (e_pids s) (e_cmd s) (e_tstep s) (e_par s) (e_sems s) (e_kids s) (e_out s).
Definition set_names (l : list (Z * Z)) (s : est) : est :=
  Est (e_pc s) (e_i s) (e_running s) l (e_msg s) (e_pids s) (e_cmd s) (e_tstep s) (e_par s) (e_sems s) (e_kids s) (e_out s).
Definition set_msg (m : bytes) (s : est) : est :=
  Est (e_pc s) (e_i s) (e_running s) (e_names s) m (e_pids s) (e_cmd s) (e_tstep s) (e_par s) (e_sems s) (e_kids s) (e_out s).
Definition set_pids (l : list Z) (s : est) : est :=
  Est (e_pc s) (e_i s) (e_running s) (e_names s) (e_msg s) l (e_cmd s) (e_tstep s) (e_par s) (e_sems s) (e_kids s) (e_out s).
Definition set_cmd (c : Z) (s : est) : est :=
  Est (e_pc s) (e_i s) (e_running s) (e_names s) (e_msg s) (e_pids s) c (e_tstep s) (e_par s) (e_sems s) (e_kids s) (e_out s).
Definition set_tstep (t : Z) (s : est) : est :=
  Est (e_pc s) (e_i s) (e_running s) (e_names s) (e_msg s) (e_pids s) (e_cmd s) t (e_par s) (e_sems s) (e_kids s) (e_out s).
Definition set_par (n : nat) (s : est) : est :=
  Est (e_pc s) (e_i s) (e_running s) (e_names s) (e_msg s) (e_pids s) (e_cmd s) (e_tstep s) n (e_sems s) (e_kids s) (e_out s).
Definition set_sems (l : list nat) (s : est) : est :=
  Est (e_pc s) (e_i s) (e_running s) (e_names s) (e_msg s) (e_pids s) (e_cmd s) (e_tstep s) (e_par s) l (e_kids s) (e_out s).
Definition set_kids (l : list kid) (s : est) : est :=
  Est (e_pc s) (e_i s) (e_running s) (e_names s) (e_msg s) (e_pids s) (e_cmd s) (e_tstep s) (e_par s) (e_sems s) l (e_out s).
Definition print (o : event) (s : est) : est :=
  Est (e_pc s) (e_i s) (e_running s) (e_names s) (e_msg s) (e_pids s) (e_cmd s) (e_tstep s) (e_par s) (e_sems s) (e_kids s) (e_out s ++ [o]).

Section code.
(** The number of semaphores, the commands of each step, the last step, the
    lines of the text file, and the pid of the n-th child. *)
Variable M : nat.
Variable commands : Z -> opcommand.
Variable final : Z.
Variable text : list bytes.
Variable pid : nat -> Z.

Definition sem_post (j : nat) (s : est) : est := set_sems (alter S j (e_sems s)) s.

(** [bool active[MAX_CHILDREN]] after the commands of the steps [0 .. n - 1]. *)
Fixpoint active_after (n : nat) : option (list bool) :=
  match n with
  | O => Some (replicate MAX_CHILDREN false)
  | S n =>
      active ← active_after n;
      let c := commands (Z.of_nat n) in
      let set b := if (0 <=? process c) && (process c <? Z.of_nat MAX_CHILDREN)
                   then Some (<[Z.to_nat (process c) := b]> active) else None in
      match command_ c with CStart => set true | CTerm => set false | _ => Some active end
  end.
(** The indices [i] with [active[i]], in order. *)
Fixpoint active_children (i : nat) (active : list bool) : list Z :=
  match active with
  | [] => []
  | b :: active => if b : bool then Z.of_nat i :: active_children (S i) active else active_children (S i) active
  end.
(** [r] is what [rand()] returns. *)
Definition choose_random_active_child (max_step query_step r : Z) : option Z :=
  if query_step >? max_step then Some (-1) else
  active ← active_after (Z.to_nat (query_step + 1));
  let l := active_children 0 active in
  match l with [] => Some (-1) | _ => l !! Z.to_nat (r mod Z.of_nat (length l)) end.

(** The last entry of [child_pid_name] with this name. *)
Definition pid_of_name (names : list (Z * Z)) (name : Z) : option Z :=
  foldl (fun acc e => if e.2 =? name then Some e.1 else acc) None names.
(** The last live entry with this name is taken off the table. *)
Fixpoint remove_name (names : list (Z * Z)) (name : Z) (found : Z) : list (Z * Z) * Z :=
  match names with
  | [] => ([], found)
  | e :: names =>
      if (e.2 =? name) && negb (e.1 =? 0) then
        let '(l, p) := remove_name names name e.1 in ((0, 0) :: l, p)
      else let '(l, p) := remove_name names name found in (e :: l, p)
  end.
(** The first index [j] with [pid_semaphore[j] == p]. *)
Definition sem_of (pids : list Z) (p : Z) : option nat := fst <$> list_find (fun x => x = p) pids.

(** The parent after the last step. *)
Definition pend (s : est) : option est :=
  match e_pc s with
  | PEndCmd => Some (set_pc PEndStep (set_cmd (-1) s))
  | PEndStep => Some (set_pc (PEndPost 0) (set_tstep (Z.min (e_i s) final) s))
  | PEndPost j => if (j <? M)%nat then Some (set_pc (PEndPost (S j)) (sem_post j s)) else Some (set_pc (PReap 0) s)
  | PReap n =>
      match e_names s !! n with
      | None => Some (set_pc PDone s)
      | Some (p, _) =>
          if p =? 0 then Some (set_pc (PReap (S n)) s)
          else match e_kids s !! n with
               | Some (Kid KDead _ _) => Some (set_pc (PReap (S n)) (set_names (<[n := (0, 0)]> (e_names s)) s))
               | _ => None
               end
      end
  | _ => None
  end.

(** One step of the parent; [r1] and [r2] are what [rand()] returns. *)
Definition par_step (r1 r2 : Z) (s : est) : option est :=
  let i := e_i s in
  match e_pc s with
  | PStep =>
      if negb (i <=? final) then Some (set_pc PEndCmd s) else
      let c := commands i in
      if command_exists c then
        match command_ c with
        | CStart =>
            let s := set_running (e_running s + 1) s in
            if e_running s >? Z.of_nat M then Some (set_pc PFail s) else
            let n := length (e_kids s) in
            if (MAX_CHILDREN <=? n)%nat then Some (set_pc PUndef s) else
            Some (set_pc PStartWait (set_names (e_names s ++ [(pid n, process c)])
                    (set_kids (e_kids s ++ [Kid (KFind 0) i 0]) s)))
        | CTerm =>
            let '(names, p) := remove_name (e_names s) (process c) 0 in
            if p =? 0 then Some (set_i (i + 1) (set_names names s))
            else Some (set_pc (PSetCmd p) (set_running (e_running s - 1) (set_names names s)))
        | _ => Some (set_pc PEndCmd s)
        end
      else Some (set_pc PTalk s)
  | PStartWait => match e_par s with S n => Some (set_pc PTalk (set_par n s)) | O => None end
  | PSetCmd p => Some (set_pc (PSetStep p) (set_cmd p s))
  | PSetStep p => Some (set_pc (PScan p 0) (set_tstep i s))
  | PScan p j =>
      if (M <=? j)%nat then Some (set_pc PTalk s)
      else if nth j (e_pids s) 0 =? p then Some (set_pc (PClear j) s) else Some (set_pc (PScan p (S j)) s)
  | PClear j => Some (set_pc (PPostT j) (set_pids (<[j := 0]> (e_pids s)) s))
  | PPostT j => Some (set_pc PTermWait (sem_post j s))
  | PTermWait => match e_par s with S n => Some (set_pc PTalk (set_par n s)) | O => None end
  | PTalk => if e_running s >? 0 then Some (set_pc (PChoose (e_pids s)) s) else Some (set_pc PStep (set_i (i + 1) s))
  | PChoose pids =>
      match choose_random_active_child final i r1 with
      | None => Some (set_pc PUndef s)
      | Some name =>
          match pid_of_name (e_names s) name with
          | None => Some (set_pc PUndef s)
          | Some p =>
              let j := default (Z.to_nat name) (sem_of pids p) in
              match text !! Z.to_nat (r2 mod Z.of_nat (length text)), pids !! j with
              | Some line, Some p => Some (set_pc (PWrite j line) (print (OPick i p line) s))
              | _, _ => Some (set_pc PUndef s)
              end
          end
      end
  | PWrite j line => Some (set_pc (PPost j) (set_msg (take 256 line) s))
  | PPost j => Some (set_pc PTalkWait (sem_post j s))
  | PTalkWait => match e_par s with S n => Some (set_pc PStep (set_i (i + 1) (set_par n s))) | O => None end
  | PEndCmd | PEndStep | PEndPost _ | PReap _ => pend s
  | PDone | PFail | PUndef => None
  end.

(** One step of the n-th child. *)
Definition kid_step (n : nat) (s : est) : option est :=
  match e_kids s !! n with
  | None => None
  | Some k =>
      let go pc s := Some (set_kids (<[n := Kid pc (k_start k) (k_msgs k)]> (e_kids s)) s) in
      match k_pc k with
      | KFind j =>
          if (M <=? j)%nat then Some (set_pc PUndef s)
          else if nth j (e_pids s) 0 =? 0 then go (KStore j) s else go (KFind (S j)) s
      | KStore j => go (KUp j) (set_pids (<[j := pid n]> (e_pids s)) s)
      | KUp j => go (KWait j) (set_par (S (e_par s)) s)
      | KWait j => match nth j (e_sems s) O with S m => go (KCmd j) (set_sems (<[j := m]> (e_sems s)) s) | O => None end
      | KCmd j => go (KTStep j (e_cmd s)) s
      | KTStep j cmd =>
          if negb (cmd =? pid n) && negb (cmd =? -1) then go (KMsg j) s
          else if negb (cmd =? -1) then go (KReset (e_tstep s)) s else go (KBye (e_tstep s)) s
      | KMsg j => Some (set_kids (<[n := Kid (KPost j) (k_start k) (k_msgs k + 1)]> (e_kids s)) (print (OMsg (pid n) (e_msg s)) s))
      | KPost j => go (KWait j) (set_par (S (e_par s)) s)
      | KReset t => go (KBye t) (set_cmd 0 s)
      | KBye t => go KDead (set_par (S (e_par s)) (print (OBye (pid n) (k_msgs k) (t - k_start k)) s))
      | KDead => None
      end
  end.

Inductive estep (s s' : est) : Prop :=
| step_parent r1 r2 : 0 <= r1 -> 0 <= r2 -> par_step r1 r2 s = Some s' -> estep s s'
| step_kid n : kid_step n s = Some s' -> estep s s'.

(** After the initialisation of [main]: the loop at step 0. *)
Definition einit : est := Est PStep 0 0 [] [] (replicate M 0) 0 0 O (replicate M O) [] [].
End code.
End Erg.
