(* ===== verification/ErgasiaProps.v ===== *)
(** The simulation of "operating systems project 1": what its configuration
    reader does, and the hand-over between parent and children. *)

From S2P Require Import Prelude Ergasia.
From stdpp Require Import gmap sets.
From Stdlib Require Import Ascii.
Local Open Scope Z_scope.
Import Erg.

(** * The configuration file *)

Lemma find_last_app ls ls' n :
  find_last (ls ++ ls') n = (m ← find_last ls n; find_last ls' m).
Proof.
  revert n. induction ls as [|x ls IH]; intros n; [done|]. simpl. destruct (_ || _); [done|].
  destruct (f_step (sscanf3 x)), (f_s1 (sscanf3 x)); apply IH.
Qed.

Lemma parse_lines_app size ls ls' s :
  parse_lines size (ls ++ ls') s =
  (r ← parse_lines size ls s; match r with inl e => Done (inl e) | inr s => parse_lines size ls' s end).
Proof.
  revert s. induction ls as [|x ls IH]; intros s; [done|]. simpl.
  destruct (parse_line size x s) as [[e|s']| | | |]; simpl; [done|apply IH|done..].
Qed.

(** C40: [main] declares its table of commands with one element less than the steps
    it stores, and reads words into buffers of two and three bytes: on every
    configuration file that is not empty it reports an error or its behaviour
    is undefined. *)
Theorem config_undefined (lines : list bytes) (s : pstate) :
  lines <> [] -> read_config lines <> Done (inr s).
Proof.
  intros Hne. destruct lines as [|l ls _] using rev_ind; [done|]. clear Hne. unfold read_config. rewrite find_last_app.
  destruct (find_last ls 0) as [m| | | |]; try done. simpl.
  destruct (overruns 3 (f_s1 (sscanf3 l)) || overruns 2 (f_s2 (sscanf3 l))) eqn:Eo; [done|].
  apply orb_false_iff in Eo as [Eo1 Eo2].
  assert (Hgo : forall n, (forall x y, f_step (sscanf3 l) = Some x -> f_s1 (sscanf3 l) = Some y -> n = x) ->
    parse_lines n (ls ++ [l]) (PS 0 (-1) false (fun _ => no_command)) <> Done (inr s)).
  { intros n Hn. rewrite parse_lines_app. destruct (parse_lines n ls _) as [[e|s1]| | | |]; try done. simpl.
    unfold parse_line. destruct (overruns 16 _ || overruns 10 _); [done|]. destruct (sscanf3 l) as [x y z]. simpl in *.
    destruct x as [step|]; [|done]. destruct y as [w|]; [|done]. rewrite (Hn step w eq_refl eq_refl).
    assert (Hput : forall c t, put_command step step c t = Unspec).
    { intros. unfold put_command. by rewrite Z.ltb_irrefl, andb_false_r. }
    destruct z as [cmd|].
    - destruct (last_step s1 >? step); [done|]. destruct (negb (bool_decide (head w = _))); [done|].
      destruct (negb (forallb isdigit (tail w))); [done|]. rewrite !Hput. by repeat case_match.
    - assert (bool_decide (w = str "EXIT") = false) as ->; [|by repeat case_match].
      apply bool_decide_eq_false. intros ->. done. }
  destruct (f_step (sscanf3 l)) as [x|] eqn:Ex; [destruct (f_s1 (sscanf3 l)) as [y|] eqn:Ey|]; simpl; apply Hgo; congruence.
Qed.

Lemma config_undefined_witness : read_config [str "21 C3 S"; str "48 C1 S"; str "100 EXIT"] <> Done (inr (PS 0 0 true (fun _ => no_command))).
Proof. apply (config_undefined [str "21 C3 S"; str "48 C1 S"; str "100 EXIT"]). discriminate. Defined.

(** * Reading the text file *)

Lemma before_nul_id l : 0 ∉ l -> before_nul l = l.
Proof.
  unfold before_nul. induction l as [|c l IH]; intros H; [done|]. simpl. rewrite (proj2 (Z.eqb_neq c 0)) by set_solver. simpl.
  specialize (IH ltac:(set_solver)). destruct (span _ l). simpl in *. by rewrite IH.
Qed.
Lemma fgets_line n l rest : 10 ∉ l -> (length l < n)%nat -> fgets n (l ++ 10 :: rest) = (l ++ [10], rest).
Proof.
  revert n. induction l as [|c l IH]; intros n H Hn; destruct n as [|n]; simpl in *; try lia; [done|].
  rewrite (proj2 (Z.eqb_neq c 10)) by set_solver. rewrite IH by (set_solver || lia). done.
Qed.
Lemma fgets_last n l : 10 ∉ l -> (length l <= n)%nat -> fgets n l = (l, []).
Proof.
  revert n. induction l as [|c l IH]; intros n H Hn; destruct n as [|n]; simpl in *; try lia; [done..|].
  rewrite (proj2 (Z.eqb_neq c 10)) by set_solver. rewrite IH by (set_solver || lia). done.
Qed.

(** Lines, each ended by a newline, and a last one. *)
Definition joined (ls : list bytes) (l : bytes) : bytes := foldr (fun x t => x ++ 10 :: t) l ls.

Lemma fgets_joined fuel ls l : Forall (fun l => 10 ∉ l /\ 0 ∉ l /\ (length l < 256)%nat) ls -> l <> [] -> 10 ∉ l -> (length l <= 256)%nat ->
  (length (joined ls l) < fuel)%nat -> fgets_all fuel (joined ls l) = map (fun x => x ++ [10]) ls ++ [l].
Proof.
  intros Hls Hne H10 Hl. revert fuel. induction Hls as [|x ls (Hx & _ & Hxl) _ IH]; intros [|fuel] Hf; try lia; cbn [joined foldr map app] in *.
  - destruct l as [|c l]; [done|]. cbn [fgets_all]. rewrite fgets_last by done. by destruct fuel.
  - fold (joined ls l) in *. assert (E : exists c r, x ++ 10 :: joined ls l = c :: r) by (destruct x; eauto). destruct E as (c & r & E). rewrite E.
    cbn [fgets_all]. rewrite <- E. rewrite fgets_line by done. f_equal. apply IH. rewrite length_app in Hf. simpl in Hf. lia.
Qed.

(** For a text without NULs, of lines that fit the buffer, each ended by a
    newline but the last, the table has the lines of the text, in order. *)
Theorem read_text_lines (ls : list bytes) (l : bytes) :
  Forall (fun l => 10 ∉ l /\ 0 ∉ l /\ (length l < 256)%nat) ls -> l <> [] -> 10 ∉ l -> 0 ∉ l -> (length l <= 256)%nat ->
  read_text (joined ls l) = Done (ls ++ [l]).
Proof.
  intros Hls Hne H10 H0 Hl. unfold read_text. rewrite fgets_joined by (done || lia).
  induction Hls as [|x ls (Hx & Hx0 & _) _ IH]; cbn [map app text_table].
  - by rewrite before_nul_id.
  - rewrite before_nul_id by set_solver. assert (E : exists y t, map (fun x => x ++ [10]) ls ++ [l] = y :: t) by (destruct ls; simpl; eauto).
    destruct E as (y & t & E). rewrite E in *. assert (Es : exists c s, x ++ [10] = c :: s) by (destruct x; simpl; eauto).
    destruct Es as (c & s & Es). rewrite Es, IH. cbn [mbind outcome_bind]. rewrite <- Es, length_app. simpl length.
    by rewrite Nat.add_sub, take_app_length.
Qed.

(** A longer line loses a character where the buffer ends. *)
Lemma read_text_long : read_text (replicate 257 97 ++ [10] ++ str "b") = Done [replicate 255 97; str "a"; str "b"].
Proof. vm_compute. reflexivity. Qed.

(** * The hand-over *)

Section sim.
Context (M : nat) (commands : Z -> opcommand) (final : Z) (text : list bytes) (pid : nat -> Z).
(** Pids are positive and distinct, and there is a line to print. *)
Context (pid_pos : forall n, 0 < pid n) (pid_inj : forall n m, pid n = pid m -> n = m) (text_ne : text <> []).

(** The names that are active after the commands of the steps [0 .. n - 1], and
    how many children were started. *)
Fixpoint act (n : nat) : gset Z :=
  match n with
  | O => ∅
  | S n =>
      let c := commands (Z.of_nat n) in
      match command_ c with CStart => {[process c]} ∪ act n | CTerm => act n ∖ {[process c]} | _ => act n end
  end.
Fixpoint starts (n : nat) : nat :=
  match n with
  | O => O
  | S n => match command_ (commands (Z.of_nat n)) with CStart => S (starts n) | _ => starts n end
  end.

(** A configuration the program is meant for: a child is started only if it is
    not active, there are at most [M] active children and [MAX_CHILDREN] in all,
    and names are from 1 to [MAX_CHILDREN - 1]. *)
Record config_ok : Prop := {
  ok_exists : forall k, (Z.of_nat k <= final) ->
    command_exists (commands (Z.of_nat k)) = negb (bool_decide (command_ (commands (Z.of_nat k)) = CNone));
  ok_start : forall k, Z.of_nat k <= final -> command_ (commands (Z.of_nat k)) = CStart ->
    1 <= process (commands (Z.of_nat k)) < Z.of_nat MAX_CHILDREN /\
    process (commands (Z.of_nat k)) ∉ act k /\ (size (act k) < M)%nat;
  ok_term : forall k, Z.of_nat k <= final -> command_ (commands (Z.of_nat k)) = CTerm ->
    1 <= process (commands (Z.of_nat k)) < Z.of_nat MAX_CHILDREN;
  ok_starts : forall k, Z.of_nat k <= final + 1 -> (starts k <= MAX_CHILDREN)%nat;
}.
Context (Hcfg : config_ok).

Lemma active_after_spec n : Z.of_nat n <= final + 1 ->
  exists a, active_after commands n = Some a /\ length a = MAX_CHILDREN /\
    forall nm, a !! nm = Some true <-> Z.of_nat nm ∈ act n.
Proof.
  induction n as [|n IH]; intros Hn.
  { exists (replicate MAX_CHILDREN false). split; [done|]. split; [apply length_replicate|]. intros nm. cbn [act]. split; [|set_solver].
    intros H. apply lookup_replicate in H as [? _]. done. }
  destruct IH as (a & E & Hlen & Ha); [lia|]. cbn [active_after act]. rewrite E. cbn [mbind option_bind].
  set (c := commands (Z.of_nat n)) in *. destruct (command_ c) eqn:Ec.
  - destruct (ok_start Hcfg n ltac:(lia) Ec) as (Hp & _). fold c in Hp.
    rewrite (proj2 (Z.leb_le _ _)), (proj2 (Z.ltb_lt _ _)) by lia. simpl. eexists. split; [done|].
    split; [by rewrite length_insert|]. intros nm. destruct (decide (nm = Z.to_nat (process c))) as [->|Hne].
    + rewrite list_lookup_insert_eq by (rewrite Hlen; lia). rewrite Z2Nat.id by lia. set_solver.
    + rewrite list_lookup_insert_ne by done. rewrite Ha, elem_of_union, elem_of_singleton. split; [tauto|]. intros [E'|?]; [lia|done].
  - pose proof (ok_term Hcfg n ltac:(lia) Ec) as Hp. fold c in Hp.
    rewrite (proj2 (Z.leb_le _ _)), (proj2 (Z.ltb_lt _ _)) by lia. simpl. eexists. split; [done|].
    split; [by rewrite length_insert|]. intros nm. destruct (decide (nm = Z.to_nat (process c))) as [->|Hne].
    + rewrite list_lookup_insert_eq by (rewrite Hlen; lia). rewrite Z2Nat.id by lia. set_solver.
    + rewrite list_lookup_insert_ne by done. rewrite Ha, elem_of_difference, elem_of_singleton. split; [|tauto].
      intros ?. split; [done|lia].
  - by exists a.
  - by exists a.
Qed.

Lemma active_children_elem i a x : x ∈ active_children i a <-> exists k, a !! k = Some true /\ x = Z.of_nat (i + k).
Proof.
  revert i. induction a as [|b a IH]; intros i; simpl.
  { split; [set_solver|]. intros (k & ? & _). done. }
  assert (Hs : x ∈ active_children (S i) a <-> exists k, (b :: a) !! S k = Some true /\ x = Z.of_nat (i + S k)).
  { rewrite IH. split; intros (k & ? & ->); exists k; split; try done; lia. }
  destruct b; rewrite ?elem_of_cons, Hs; split.
  - intros [->|(k & ? & ?)]; [exists O; split; [done|lia]|by exists (S k)].
  - intros ([|k] & H & ->); [left; lia|right; by exists k].
  - intros (k & ? & ?). by exists (S k).
  - intros ([|k] & H & ->); [done|by exists k].
Qed.

(** The parent picks an active child. *)
Lemma choose_spec i r : 0 <= i <= final -> 0 <= r -> act (Z.to_nat (i + 1)) <> ∅ ->
  exists nm, choose_random_active_child commands final i r = Some nm /\ nm ∈ act (Z.to_nat (i + 1)).
Proof.
  intros Hi Hr Hne. unfold choose_random_active_child. rewrite Z.gtb_ltb, (proj2 (Z.ltb_ge _ _)) by lia.
  destruct (active_after_spec (Z.to_nat (i + 1))) as (a & -> & _ & Ha); [lia|]. cbn [mbind option_bind].
  destruct (active_children 0 a) as [|x l] eqn:El.
  - apply set_choose_L in Hne as [nm Hnm]. exfalso.
    assert (Hpos : 0 <= nm).
    { assert (Hgen : forall k x, Z.of_nat k <= final + 1 -> x ∈ act k -> 0 <= x).
      { clear - Hcfg. induction k as [|k IH]; intros x Hk Hx; simpl in Hx; [set_solver|].
        destruct (command_ (commands (Z.of_nat k))) eqn:Ec; [|apply IH; [lia|set_solver]..].
        apply elem_of_union in Hx as [->%elem_of_singleton|Hx]; [|apply IH; [lia|done]].
        destruct (ok_start Hcfg k ltac:(lia) Ec). lia. }
      eapply Hgen; [|done]. lia. }
    assert (Hin : nm ∈ active_children 0 a).
    { apply active_children_elem. exists (Z.to_nat nm). split; [apply Ha; by rewrite Z2Nat.id|]. simpl. lia. }
    rewrite El in Hin. set_solver.
  - rewrite <- El. set (k := Z.to_nat (r mod Z.of_nat (length (active_children 0 a)))).
    assert (Hk : (k < length (active_children 0 a))%nat).
    { unfold k. rewrite El. pose proof (Z.mod_pos_bound r (Z.of_nat (length (x :: l))) ltac:(simpl; lia)). lia. }
    destruct (lookup_lt_is_Some_2 _ _ Hk) as [nm Hnm]. exists nm. split; [done|].
    apply list_elem_of_lookup_2, active_children_elem in Hnm as (m & Hm & ->). by apply Ha.
Qed.

(** ** The table of children *)

(** What the parent knows of each child it started: its semaphore and name while
    it is active. *)
Abbreviation info := (list (option (nat * Z))).
Definition entry (n : nat) (x : option (nat * Z)) : Z * Z :=
  match x with Some (_, nm) => (pid n, nm) | None => (0, 0) end.
Definition live (l : info) (n j : nat) (nm : Z) : Prop := l !! n = Some (Some (j, nm)).

Lemma imap_insert (l : info) n x : imap entry (<[n := x]> l) = <[n := entry n x]> (imap entry l).
Proof.
  apply list_eq. intros k. rewrite list_lookup_imap. destruct (decide (n = k)) as [<-|Hne].
  - destruct (decide (n < length l)%nat).
    + rewrite !list_lookup_insert_eq by (rewrite ?length_imap; done). done.
    + rewrite !lookup_ge_None_2; [done|rewrite length_insert, length_imap; lia|rewrite length_insert; lia].
  - rewrite !list_lookup_insert_ne by done. by rewrite list_lookup_imap.
Qed.

Lemma imap_snoc (l : info) x : imap entry (l ++ [x]) = imap entry l ++ [entry (length l) x].
Proof. rewrite imap_app. simpl. unfold compose. by rewrite Nat.add_0_r. Qed.

Lemma pid_of_name_spec (l : list (Z * Z)) nm p :
  (forall e, e ∈ l -> e.2 = nm -> e.1 = p) -> (exists e, e ∈ l /\ e.2 = nm) -> pid_of_name l nm = Some p.
Proof.
  intros Hall Hex. unfold pid_of_name.
  assert (Hgen : forall acc, (exists e, e ∈ l /\ e.2 = nm) \/ acc = Some p ->
    foldl (fun acc e => if e.2 =? nm then Some e.1 else acc) acc l = Some p); [|by apply Hgen; left].
  clear Hex. induction l as [|e l IH]; intros acc Hacc; simpl.
  { destruct Hacc as [(e & ?%elem_of_nil & _)|]; done. }
  apply IH; [intros; apply Hall; set_solver|]. destruct (Z.eqb_spec e.2 nm) as [E|E].
  - right. f_equal. apply Hall; set_solver.
  - destruct Hacc as [(e' & [->|He']%elem_of_cons & ?)|]; [done|left; by exists e'|by right].
Qed.

Lemma remove_name_none l nm f : (forall e, e ∈ l -> e.2 = nm -> e.1 = 0) -> remove_name l nm f = (l, f).
Proof.
  induction l as [|e l IH]; intros H; simpl; [done|].
  assert ((e.2 =? nm) && negb (e.1 =? 0) = false) as ->.
  { destruct (Z.eqb_spec e.2 nm) as [E|]; [|done]. rewrite (H e) by set_solver. done. }
  rewrite IH; [done|]. intros. apply H; set_solver.
Qed.

Lemma remove_name_one l nm n p f :
  l !! n = Some (p, nm) -> p <> 0 -> (forall k e, l !! k = Some e -> e.2 = nm -> e.1 <> 0 -> k = n) ->
  remove_name l nm f = (<[n := (0, 0)]> l, p).
Proof.
  revert n f. induction l as [|e l IH]; intros n f Hn Hp Hu; [done|]. destruct n as [|n]; simpl.
  - simpl in Hn. injection Hn as ->. simpl. rewrite Z.eqb_refl, (proj2 (Z.eqb_neq _ _)) by done. simpl.
    rewrite remove_name_none; [done|]. intros e He E. apply list_elem_of_lookup in He as (k & Hk).
    destruct (decide (e.1 = 0)) as [|Hn0]; [done|]. by specialize (Hu (S k) e Hk E Hn0).
  - assert ((e.2 =? nm) && negb (e.1 =? 0) = false) as ->.
    { destruct (Z.eqb_spec e.2 nm) as [E|]; [|done]. destruct (Z.eqb_spec e.1 0) as [|Hn0]; [done|]. by specialize (Hu O e eq_refl E Hn0). }
    rewrite (IH n f Hn Hp); [done|]. intros k e' Hk E Hn0. specialize (Hu (S k) e' Hk E Hn0). lia.
Qed.

(** The children, their names and semaphores, the names [A] of the active ones. *)
Record frame (s : est) (l : info) (A : gset Z) : Prop := {
  fr_names : e_names s = imap entry l;
  fr_kids : length (e_kids s) = length l;
  fr_pids : length (e_pids s) = M;
  fr_sems : length (e_sems s) = M;
  fr_live : forall n j nm, live l n j nm -> (j < M)%nat /\ 1 <= nm < Z.of_nat MAX_CHILDREN /\ nm ∈ A;
  fr_act : forall nm, nm ∈ A -> exists n j, live l n j nm;
  fr_inj : forall n j nm n' j' nm', live l n j nm -> live l n' j' nm' -> j = j' \/ nm = nm' -> n = n';
  fr_run : e_running s = Z.of_nat (size A);
}.

(** The table of pids holds the pid of the child that waits on each semaphore;
    at [hole] it may differ. *)
Definition slots (s : est) (l : info) (hole : option nat) : Prop :=
  (forall n j nm, live l n j nm -> hole <> Some j -> e_pids s !! j = Some (pid n)) /\
  (forall j p, e_pids s !! j = Some p -> hole <> Some j -> p <> 0 -> exists n nm, live l n j nm /\ p = pid n).

(** Where a child rests. *)
Definition rest (x : option (nat * Z)) : kpc := match x with Some (j, _) => KWait j | None => KDead end.
Definition kid_pc (s : est) (n : nat) (pc : kpc) : Prop := exists k, e_kids s !! n = Some k /\ k_pc k = pc.
Definition quiet (s : est) (l : info) (busy : option nat) : Prop :=
  forall n x, l !! n = Some x -> busy <> Some n -> kid_pc s n (rest x).

Definition no_sem (s : est) : Prop := forall j n, e_sems s !! j = Some n -> n = O.

(** A live child is found by its name and by its pid. *)
Lemma frame_pid s l A n j nm : frame s l A -> live l n j nm -> pid_of_name (e_names s) nm = Some (pid n).
Proof.
  intros F Hl. rewrite (fr_names _ _ _ F). destruct (fr_live _ _ _ F n j nm Hl) as (_ & Hnm & _). apply pid_of_name_spec.
  - intros e He E. apply list_elem_of_lookup in He as (k & Hk). rewrite list_lookup_imap in Hk.
    destruct (l !! k) as [[[j' nm']|]|] eqn:Ek; simplify_eq/=; [|lia].
    f_equal. eapply (fr_inj _ _ _ F); [exact Ek|exact Hl|by right].
  - exists (pid n, nm). split; [|done]. apply (list_elem_of_lookup_2 _ n). rewrite list_lookup_imap, Hl. done.
Qed.

Lemma slot_find s l A n j nm : frame s l A -> slots s l None -> live l n j nm -> sem_of (e_pids s) (pid n) = Some j.
Proof.
  intros F [S1 S2] Hl. unfold sem_of. assert (Hp : e_pids s !! j = Some (pid n)) by (by eapply S1).
  destruct (list_find (fun x => x = pid n) (e_pids s)) as [[k p]|] eqn:E.
  - apply list_find_Some in E as (Hk & -> & _). simpl. f_equal.
    destruct (S2 k (pid n) Hk) as (n' & nm' & Hl' & Ep); [done|pose proof (pid_pos n); lia|]. apply pid_inj in Ep as <-.
    unfold live in *. congruence.
  - apply list_find_None in E. rewrite Forall_forall in E. exfalso. apply (E (pid n)); [|done]. by eapply list_elem_of_lookup_2.
Qed.

(** While fewer than [M] children are active there is a free semaphore. *)
Lemma free_slot s l A : frame s l A -> slots s l None -> (size A < M)%nat ->
  exists j, (j < M)%nat /\ e_pids s !! j = Some 0 /\ forall k p, (k < j)%nat -> e_pids s !! k = Some p -> p <> 0.
Proof.
  intros F [S1 S2] Hsz. destruct (list_find (fun x => x = 0) (e_pids s)) as [[j p]|] eqn:E.
  - apply list_find_Some in E as (Hj & -> & Hlt). exists j. split; [rewrite <- (fr_pids _ _ _ F); by eapply lookup_lt_Some|].
    split; [done|]. intros k p Hk Hp. by eapply Hlt.
  - exfalso. apply list_find_None in E. rewrite Forall_forall in E.
    assert (Hl : forall k, (k <= M)%nat -> exists L, length L = k /\ NoDup L /\
      forall x, x ∈ L -> x ∈ A /\ exists n j, (j < k)%nat /\ live l n j x).
    { induction k as [|k IH]; intros Hk.
      - exists []. split; [done|]. split; [constructor|]. set_solver.
      - destruct IH as (L & Hlen & Hnd & HL); [lia|].
        destruct (lookup_lt_is_Some_2 (e_pids s) k) as [p Hp]; [rewrite (fr_pids _ _ _ F); lia|].
        destruct (S2 k p Hp) as (n & nm & Hl & _); [done|apply E; by eapply list_elem_of_lookup_2|].
        destruct (fr_live _ _ _ F _ _ _ Hl) as (_ & _ & HA). exists (nm :: L). simpl. split; [lia|]. split.
        + constructor; [|done]. intros Hin. destruct (HL nm Hin) as (_ & n' & j' & Hj' & Hl').
          assert (n = n') as -> by (eapply (fr_inj _ _ _ F); eauto). unfold live in *. simplify_eq. lia.
        + intros x [->|Hx]%elem_of_cons; [split; [done|]; exists n, k; split; [lia|done]|].
          destruct (HL x Hx) as (? & n' & j' & ? & ?). split; [done|]. exists n', j'. split; [lia|done]. }
    destruct (Hl M ltac:(lia)) as (L & Hlen & Hnd & HL).
    assert (list_to_set L ⊆ A) as Hsub by (intros x Hx%elem_of_list_to_set; by apply HL).
    apply subseteq_size in Hsub. rewrite size_list_to_set in Hsub by done. lia.
Qed.

(** ** The invariant *)

(** A child prints what the parent has just picked for it. *)
Definition trace_ok (out : list event) : Prop :=
  forall k p m, out !! k = Some (OMsg p m) ->
    exists k' i line, k = S k' /\ out !! k' = Some (OPick i p line) /\ m = take 256 line.

Lemma trace_snoc out o : trace_ok out ->
  (forall p m, o = OMsg p m -> exists i line, last out = Some (OPick i p line) /\ m = take 256 line) -> trace_ok (out ++ [o]).
Proof.
  intros Ht Ho k p m Hk. apply lookup_app_Some in Hk as [Hk|[Hle Hk]].
  - destruct (Ht k p m Hk) as (k' & i & line & -> & Hk' & ->). exists k', i, line. split; [done|]. split; [|done].
    by apply lookup_app_l_Some.
  - apply list_lookup_singleton_Some in Hk as [Hk ->]. destruct (Ho p m eq_refl) as (i & line & Hl & ->).
    rewrite last_lookup in Hl. exists (pred (length out)), i, line. pose proof (lookup_lt_Some _ _ _ Hl).
    split; [lia|]. split; [by apply lookup_app_l_Some|done].
Qed.

Record core (s : est) (l : info) (A : gset Z) (hole busy : option nat) : Prop := {
  co_frame : frame s l A;
  co_slots : slots s l hole;
  co_quiet : quiet s l busy;
  co_trace : trace_ok (e_out s);
  co_i : 0 <= e_i s;
}.

(** The names that are active when the parent talks at this step. *)
Abbreviation now s := (act (Z.to_nat (e_i s))).
Abbreviation next s := (act (Z.to_nat (e_i s + 1))).
(** [semaphores[j]] is up, the others are down. *)
Definition one_sem (s : est) (j : nat) : Prop := forall k n, e_sems s !! k = Some n -> n = if decide (k = j) then 1%nat else O.
Definition unused (l : info) (j : nat) : Prop := forall n nm, ~ live l n j nm.
Definition down (s : est) : Prop := no_sem s /\ e_par s = O.

(** The talk of a step, up to the [sem_post] of the chosen child. *)
Definition talking (s : est) (l : info) : Prop :=
  e_pc s = PTalk \/ (e_pc s = PChoose (e_pids s) /\ next s <> ∅) \/
  exists n j nm line i, live l n j nm /\ last (e_out s) = Some (OPick i (pid n) line) /\
    (e_pc s = PWrite j line \/ (e_pc s = PPost j /\ e_msg s = take 256 line)).

(** The new child [n] looks for a semaphore: it will find [j]. *)
Definition joining (s : est) (n j : nat) (hole : option nat) : Prop :=
  (hole = Some j /\ e_pids s !! j = Some 0 /\ (forall k p, (k < j)%nat -> e_pids s !! k = Some p -> p <> 0) /\
   ((exists k, (k <= j)%nat /\ kid_pc s n (KFind k)) \/ kid_pc s n (KStore j))) \/
  (hole = None /\ kid_pc s n (KUp j)).

(** The child [n] on semaphore [j] is told to leave. *)
Definition dismissing (s : est) (n j : nat) (hole : option nat) : Prop :=
  kid_pc s n (KWait j) /\ (j < M)%nat /\
  ((hole = Some j /\ e_pids s !! j = Some (pid n) /\
    ((e_pc s = PSetCmd (pid n) /\ e_cmd s = 0) \/
     (e_cmd s = pid n /\ (e_pc s = PSetStep (pid n) \/ (exists k, (k <= j)%nat /\ e_pc s = PScan (pid n) k) \/ e_pc s = PClear j)))) \/
   (hole = None /\ e_cmd s = pid n /\ e_pc s = PPostT j)).
Definition leaving (s : est) (n j : nat) : Prop :=
  (kid_pc s n (KWait j) /\ (j < M)%nat /\ one_sem s j /\ e_cmd s = pid n) \/
  (no_sem s /\ e_cmd s = pid n /\ (kid_pc s n (KCmd j) \/ kid_pc s n (KTStep j (pid n)) \/ exists t, kid_pc s n (KReset t))) \/
  (no_sem s /\ e_cmd s = 0 /\ exists t, kid_pc s n (KBye t)).

(** The child [n] on semaphore [j] prints the line. *)
Definition printing (s : est) (n j : nat) : Prop :=
  (exists i line, last (e_out s) = Some (OPick i (pid n) line) /\ e_msg s = take 256 line /\
     ((kid_pc s n (KWait j) /\ one_sem s j) \/
      (no_sem s /\ (kid_pc s n (KCmd j) \/ kid_pc s n (KTStep j 0) \/ kid_pc s n (KMsg j))))) \/
  (no_sem s /\ kid_pc s n (KPost j)).

(** After the last step the first [k] semaphores have been posted. *)
Record ending (s : est) (l : info) (k : nat) : Prop := {
  en_names : e_names s = imap entry l;
  en_kids : length (e_kids s) = length l;
  en_sems : length (e_sems s) = M;
  en_live : forall n j nm, live l n j nm -> (j < M)%nat;
  en_inj : forall n j nm n' nm', live l n j nm -> live l n' j nm' -> n = n';
  en_dead : forall n, l !! n = Some None -> kid_pc s n KDead;
  en_kid : forall n j nm, live l n j nm ->
    (kid_pc s n (KWait j) /\ e_sems s !! j = Some (if (j <? k)%nat then 1%nat else O)) \/
    ((j < k)%nat /\ e_cmd s = -1 /\ (kid_pc s n (KCmd j) \/ kid_pc s n (KTStep j (-1)) \/ (exists t, kid_pc s n (KBye t)) \/ kid_pc s n KDead));
  en_zero : forall j, (k <= j < M)%nat -> e_sems s !! j = Some O;
  en_trace : trace_ok (e_out s);
  en_all : (length l <= MAX_CHILDREN)%nat;
}.

Definition ended (s : est) (l : info) (k : nat) : Prop :=
  (k = O /\ (e_pc s = PEndCmd \/ (e_pc s = PEndStep /\ e_cmd s = -1))) \/
  ((k <= M)%nat /\ e_cmd s = -1 /\ e_pc s = PEndPost k) \/
  (k = M /\ e_cmd s = -1 /\ ((exists m, e_pc s = PReap m /\ forall n, (n < m)%nat -> (n < length l)%nat -> l !! n = Some None) \/
     (e_pc s = PDone /\ forall n, (n < length l)%nat -> l !! n = Some None))).

Inductive inv (s : est) : Prop :=
| inv_step l : core s l (now s) None None -> length l = starts (Z.to_nat (e_i s)) -> down s -> e_cmd s = 0 ->
    e_i s <= final + 1 -> e_pc s = PStep -> inv s
| inv_talk l : core s l (next s) None None -> length l = starts (Z.to_nat (e_i s + 1)) -> down s -> e_cmd s = 0 ->
    e_i s <= final -> talking s l -> inv s
| inv_join l n j nm hole : core s l (next s) hole (Some n) -> length l = starts (Z.to_nat (e_i s + 1)) -> down s -> e_cmd s = 0 ->
    e_i s <= final -> e_pc s = PStartWait -> live l n j nm -> joining s n j hole -> inv s
| inv_dismiss l n j hole : core s l (next s) hole (Some n) -> length l = starts (Z.to_nat (e_i s + 1)) -> down s ->
    e_i s <= final -> l !! n = Some None -> unused l j -> dismissing s n j hole -> inv s
| inv_leave l n j : core s l (next s) None (Some n) -> length l = starts (Z.to_nat (e_i s + 1)) -> e_par s = O ->
    e_i s <= final -> l !! n = Some None -> unused l j -> e_pc s = PTermWait -> leaving s n j -> inv s
| inv_back l : core s l (next s) None None -> length l = starts (Z.to_nat (e_i s + 1)) -> no_sem s -> e_par s = 1%nat -> e_cmd s = 0 ->
    e_i s <= final -> e_pc s = PStartWait \/ e_pc s = PTermWait \/ e_pc s = PTalkWait -> inv s
| inv_print l n j nm : core s l (next s) None (Some n) -> length l = starts (Z.to_nat (e_i s + 1)) -> e_par s = O -> e_cmd s = 0 ->
    e_i s <= final -> e_pc s = PTalkWait -> live l n j nm -> printing s n j -> inv s
| inv_end l k : ending s l k -> ended s l k -> inv s.

(** ** Moving the invariant *)

Lemma core_to s s' l A hole busy : core s l A hole busy ->
  e_names s' = e_names s -> e_kids s' = e_kids s -> e_pids s' = e_pids s -> length (e_sems s') = length (e_sems s) ->
  e_running s' = e_running s -> trace_ok (e_out s') -> 0 <= e_i s' -> core s' l A hole busy.
Proof.
  intros [[] [S1 S2] Hq _ _] En Ek Ep Es Er Ht Hi. split; [split|split| | |]; rewrite ?En, ?Ek, ?Ep, ?Es, ?Er; try done.
  intros n x Hn Hb. destruct (Hq n x Hn Hb) as (k & ? & ?). exists k. by rewrite Ek.
Qed.

Lemma kid_pc_insert s s' n pc a b k : e_kids s !! n = Some k -> e_kids s' = <[n := Kid pc a b]> (e_kids s) -> kid_pc s' n pc.
Proof. intros Hk E. exists (Kid pc a b). split; [|done]. rewrite E, list_lookup_insert_eq; [done|by eapply lookup_lt_Some]. Qed.

(** The busy child moves. *)
Lemma core_kid s s' l A hole n k : core s l A hole (Some n) ->
  e_names s' = e_names s -> e_kids s' = <[n := k]> (e_kids s) -> e_pids s' = e_pids s -> length (e_sems s') = length (e_sems s) ->
  e_running s' = e_running s -> trace_ok (e_out s') -> 0 <= e_i s' -> core s' l A hole (Some n).
Proof.
  intros [[] [S1 S2] Hq _ _] En Ek Ep Es Er Ht Hi.
  split; [split|split| | |]; rewrite ?En, ?Ek, ?Ep, ?Es, ?Er, ?length_insert; try done.
  intros m x Hm Hb. destruct (Hq m x Hm Hb) as (k' & ? & ?). exists k'. rewrite Ek, list_lookup_insert_ne; [done|congruence].
Qed.

Lemma core_busy s l A hole n : core s l A hole None -> core s l A hole (Some n).
Proof. intros [? ? Hq ? ?]. split; try done. intros m x Hm _. by apply Hq. Qed.

Lemma core_rest s l A hole n x : core s l A hole (Some n) -> l !! n = Some x -> kid_pc s n (rest x) -> core s l A hole None.
Proof.
  intros [? ? Hq ? ?] Hn Hk. split; try done. intros m y Hm _. destruct (decide (n = m)) as [<-|Hne].
  - by simplify_eq.
  - apply Hq; [done|congruence].
Qed.

(** A child that rests does not run while its semaphore is down. *)
Lemma rest_stuck s n x : kid_pc s n (rest x) -> (forall j nm, x = Some (j, nm) -> nth j (e_sems s) O = O) -> kid_step M pid n s = None.
Proof.
  intros (k & Hk & Hpc) Hx. unfold kid_step. rewrite Hk, Hpc. destruct x as [[j nm]|]; simpl; [|done]. by rewrite (Hx j nm).
Qed.

Lemma no_sem_nth s j : no_sem s -> nth j (e_sems s) O = O.
Proof. intros H. destruct (e_sems s !! j) as [m|] eqn:E; [rewrite (nth_lookup_Some _ _ _ _ E); by eapply H|]. by rewrite nth_lookup, E. Qed.
Lemma one_sem_nth s j k : one_sem s j -> k <> j -> nth k (e_sems s) O = O.
Proof.
  intros H Hne. rewrite nth_lookup. destruct (e_sems s !! k) as [m|] eqn:E; [|done]. simpl. rewrite (H k m E). by rewrite decide_False.
Qed.

(** Only the busy child runs. *)
Lemma only_busy s s' l A hole busy n : core s l A hole busy ->
  (forall j nm, live l n j nm -> busy <> Some n -> nth j (e_sems s) O = O) -> kid_step M pid n s = Some s' -> busy = Some n.
Proof.
  intros [F ? Hq ? ?] Hs Hk. destruct (decide (busy = Some n)) as [|Hb]; [done|]. exfalso.
  destruct (l !! n) as [x|] eqn:Hn.
  - rewrite (rest_stuck s n x) in Hk; [done|by apply Hq|]. intros j nm ->. by eapply Hs.
  - unfold kid_step in Hk. rewrite (proj2 (lookup_ge_None _ n)) in Hk; [done|]. rewrite (fr_kids _ _ _ F). by apply lookup_ge_None.
Qed.

Lemma next_unfold s : 0 <= e_i s -> Z.to_nat (e_i s + 1) = S (Z.to_nat (e_i s)) /\ Z.of_nat (Z.to_nat (e_i s)) = e_i s.
Proof. lia. Qed.

(** ** The children's steps *)

Lemma slots_store s s' l A n j nm : frame s l A -> slots s l (Some j) -> live l n j nm ->
  e_pids s' = <[j := pid n]> (e_pids s) -> slots s' l None.
Proof.
  intros F [S1 S2] Hl E. destruct (fr_live _ _ _ F _ _ _ Hl) as (Hj & _). rewrite <- (fr_pids _ _ _ F) in Hj. unfold slots. rewrite E. split.
  - intros n' j' nm' Hl' _. destruct (decide (j = j')) as [<-|Hne].
    + rewrite list_lookup_insert_eq by done. do 2 f_equal. eapply (fr_inj _ _ _ F); eauto.
    + rewrite list_lookup_insert_ne by done. apply (S1 n' j' nm'); [done|congruence].
  - intros j' p. destruct (decide (j = j')) as [<-|Hne].
    + rewrite list_lookup_insert_eq by done. intros [= <-] _ _. by exists n, nm.
    + rewrite list_lookup_insert_ne by done. intros Hp _. apply S2; [done|congruence].
Qed.

Lemma join_kid s s' l n j nm hole : core s l (next s) hole (Some n) -> length l = starts (Z.to_nat (e_i s + 1)) -> down s -> e_cmd s = 0 ->
  e_i s <= final -> e_pc s = PStartWait -> live l n j nm -> joining s n j hole -> kid_step M pid n s = Some s' -> inv s'.
Proof.
  intros Hc Hlen [Hns Hpar] Hcmd Hi Hpc Hl Hj Hk. pose proof (co_frame _ _ _ _ _ Hc) as F.
  destruct (fr_live _ _ _ F _ _ _ Hl) as (HjM & _). unfold kid_step in Hk.
  destruct Hj as [(-> & H0 & Hlt & [(k & Hkj & kd & Hkd & Hkpc)|(kd & Hkd & Hkpc)])|(-> & kd & Hkd & Hkpc)];
    rewrite Hkd, Hkpc in Hk.
  - rewrite (proj2 (Nat.leb_gt _ _)) in Hk by lia.
    destruct (lookup_lt_is_Some_2 (e_pids s) k) as [p Hp]; [rewrite (fr_pids _ _ _ F); lia|].
    rewrite nth_lookup, Hp in Hk. simpl in Hk. destruct (Z.eqb_spec p 0) as [E|Hne]; injection Hk as <-.
    + subst p. assert (k = j) as -> by (destruct (decide (k = j)); [done|]; exfalso; by apply (Hlt k 0 ltac:(lia) Hp)).
      eapply inv_join with (hole := Some j); try done.
      * eapply core_kid; try done; apply Hc.
      * left. repeat split; try done. right. by eapply kid_pc_insert.
    + assert (k <> j) by congruence. eapply inv_join with (hole := Some j); try done.
      * eapply core_kid; try done; apply Hc.
      * left. repeat split; try done. left. exists (S k). split; [lia|]. by eapply kid_pc_insert.
  - injection Hk as <-. eapply inv_join with (hole := None); try done.
    + destruct Hc as [_ Hs Hq Ht Hi0]. split; try done.
      * destruct F. split; simpl; rewrite ?length_insert; done.
      * eapply slots_store; try done.
      * intros m x Hm Hb. destruct (Hq m x Hm Hb) as (k' & ? & ?). exists k'. simpl. rewrite list_lookup_insert_ne; [done|congruence].
    + right. split; [done|]. by eapply kid_pc_insert.
  - injection Hk as <-. eapply inv_back with (l := l); try done.
    + eapply core_rest; [eapply core_kid; try done; apply Hc|done|]. by eapply kid_pc_insert.
    + simpl. by rewrite Hpar.
    + by left.
Qed.

(** A child takes its semaphore. *)
Lemma take_sem (s s' : est) j m : one_sem s j -> nth j (e_sems s) O = S m -> e_sems s' = <[j := m]> (e_sems s) -> no_sem s'.
Proof.
  intros H1 Hm E k x. rewrite E. rewrite nth_lookup in Hm. destruct (e_sems s !! j) as [y|] eqn:Ej; [|done]. simpl in Hm. subst y.
  pose proof (H1 j _ Ej) as Hy. rewrite decide_True in Hy by done. destruct (decide (j = k)) as [<-|Hne].
  - rewrite list_lookup_insert_eq by (by eapply lookup_lt_Some). intros [= <-]. lia.
  - rewrite list_lookup_insert_ne by done. intros Hx. rewrite (H1 k x Hx). by rewrite decide_False.
Qed.

Lemma leave_kid s s' l n j : core s l (next s) None (Some n) -> length l = starts (Z.to_nat (e_i s + 1)) -> e_par s = O ->
  e_i s <= final -> l !! n = Some None -> unused l j -> e_pc s = PTermWait -> leaving s n j -> kid_step M pid n s = Some s' -> inv s'.
Proof.
  intros Hc Hlen Hpar Hi Hn Hu Hpc Hlv Hk. unfold kid_step in Hk. pose proof (pid_pos n) as Hpos.
  destruct Hlv as [((kd & Hkd & Hkpc) & HjM & H1 & Hcmd)|[(Hns & Hcmd & [(kd & Hkd & Hkpc)|[(kd & Hkd & Hkpc)|(t & kd & Hkd & Hkpc)]])|(Hns & Hcmd & t & kd & Hkd & Hkpc)]];
    rewrite Hkd, Hkpc in Hk.
  - destruct (nth j (e_sems s) O) as [|m] eqn:Em; [done|]. injection Hk as <-. eapply inv_leave with (j := j); try done.
    + eapply core_kid; try done; try apply Hc. simpl. by rewrite length_insert.
    + right; left. split; [by eapply take_sem|]. split; [done|]. left. by eapply kid_pc_insert.
  - injection Hk as <-. eapply inv_leave with (j := j); try done; [eapply core_kid; try done; apply Hc|].
    right; left. split; [done|]. split; [done|]. right; left. rewrite <- Hcmd. by eapply kid_pc_insert.
  - rewrite Z.eqb_refl, (proj2 (Z.eqb_neq _ (-1))) in Hk by lia. simpl in Hk. injection Hk as <-.
    eapply inv_leave with (j := j); try done; [eapply core_kid; try done; apply Hc|].
    right; left. split; [done|]. split; [done|]. right; right. exists (e_tstep s). by eapply kid_pc_insert.
  - injection Hk as <-. eapply inv_leave with (j := j); try done; [eapply core_kid; try done; apply Hc|].
    right; right. split; [done|]. split; [done|]. exists t. by eapply kid_pc_insert.
  - injection Hk as <-. eapply inv_back with (l := l); try done.
    + eapply core_rest; [eapply core_kid; try done; [|apply Hc]|exact Hn|by eapply kid_pc_insert].
      apply trace_snoc; [apply Hc|done].
    + simpl. by rewrite Hpar.
    + by right; left.
Qed.

Lemma print_kid s s' l n j nm : core s l (next s) None (Some n) -> length l = starts (Z.to_nat (e_i s + 1)) -> e_par s = O -> e_cmd s = 0 ->
  e_i s <= final -> e_pc s = PTalkWait -> live l n j nm -> printing s n j -> kid_step M pid n s = Some s' -> inv s'.
Proof.
  intros Hc Hlen Hpar Hcmd Hi Hpc Hl Hp Hk. unfold kid_step in Hk. pose proof (pid_pos n) as Hpos.
  destruct Hp as [(i & line & Hlast & Hmsg & [((kd & Hkd & Hkpc) & H1)|(Hns & [(kd & Hkd & Hkpc)|[(kd & Hkd & Hkpc)|(kd & Hkd & Hkpc)]])])|(Hns & kd & Hkd & Hkpc)];
    rewrite Hkd, Hkpc in Hk.
  - destruct (nth j (e_sems s) O) as [|m] eqn:Em; [done|]. injection Hk as <-. eapply inv_print; try done.
    + eapply core_kid; try done; try apply Hc. simpl. by rewrite length_insert.
    + left. exists i, line. split; [done|]. split; [done|]. right. split; [by eapply take_sem|]. left. by eapply kid_pc_insert.
  - injection Hk as <-. eapply inv_print; try done; [eapply core_kid; try done; apply Hc|]. left. exists i, line.
    split; [done|]. split; [done|]. right. split; [done|]. right; left. rewrite <- Hcmd. by eapply kid_pc_insert.
  - rewrite (proj2 (Z.eqb_neq _ (pid n))) in Hk by lia. simpl in Hk. injection Hk as <-.
    eapply inv_print; try done; [eapply core_kid; try done; apply Hc|]. left. exists i, line.
    split; [done|]. split; [done|]. right. split; [done|]. right; right. by eapply kid_pc_insert.
  - injection Hk as <-. eapply inv_print; try done; [eapply core_kid; try done; [|apply Hc]|].
    + apply trace_snoc; [apply Hc|]. intros p m [= <- <-]. by exists i, line.
    + right. split; [done|]. by eapply kid_pc_insert.
  - injection Hk as <-. eapply inv_back with (l := l); try done.
    + eapply core_rest; [eapply core_kid; try done; apply Hc|exact Hl|by eapply kid_pc_insert].
    + simpl. by rewrite Hpar.
    + by right; right.
Qed.

Lemma ending_move s s' l k n j nm kd pc a b : ending s l k -> live l n j nm -> e_kids s !! n = Some kd -> (j < k)%nat -> e_cmd s = -1 ->
  e_names s' = e_names s -> e_kids s' = <[n := Kid pc a b]> (e_kids s) -> e_cmd s' = e_cmd s -> length (e_sems s') = length (e_sems s) ->
  (forall j', j' <> j -> e_sems s' !! j' = e_sems s !! j') -> trace_ok (e_out s') ->
  pc = KCmd j \/ pc = KTStep j (-1) \/ (exists t, pc = KBye t) \/ pc = KDead -> ending s' l k.
Proof.
  intros [] Hl Hkd Hjk Hcmd En Ek Ec Es Hsem Ht Hpc.
  assert (Hn : kid_pc s' n pc) by (by eapply kid_pc_insert).
  assert (Hm : forall m q, m <> n -> kid_pc s m q -> kid_pc s' m q).
  { intros m q Hne (k' & ? & ?). exists k'. rewrite Ek, list_lookup_insert_ne; [done|congruence]. }
  split; rewrite ?En, ?Ek, ?Ec, ?Es, ?length_insert; try done.
  - intros m Hm0. apply Hm; [|by apply en_dead0]. intros ->. unfold live in Hl. congruence.
  - intros m j' nm' Hl'. destruct (decide (m = n)) as [->|Hne].
    + unfold live in *. simplify_eq. right. split; [done|]. split; [done|].
      destruct Hpc as [->|[->|[[t ->]| ->]]]; eauto 6.
    + destruct (en_kid0 m j' nm' Hl') as [[H1 H2]|(H1 & H2 & H3)].
      * left. split; [by apply Hm|]. rewrite Hsem; [done|]. intros ->. by eapply Hne, en_inj0.
      * right. split; [done|]. split; [done|]. destruct H3 as [?|[?|[[t ?]|?]]]; eauto 7.
  - intros j' Hj'. rewrite Hsem by lia. by apply en_zero0.
Qed.

Lemma end_kid s s' l k n : ending s l k -> (k = O \/ e_cmd s = -1) -> kid_step M pid n s = Some s' ->
  ending s' l k /\ e_pc s' = e_pc s /\ e_cmd s' = e_cmd s.
Proof.
  intros He Hc Hk. pose proof He as []. destruct (e_kids s !! n) as [kd|] eqn:Hkd; [|unfold kid_step in Hk; by rewrite Hkd in Hk].
  destruct (lookup_lt_is_Some_2 l n) as [x Hx]; [rewrite <- en_kids0; by eapply lookup_lt_Some|].
  destruct x as [[j nm]|]; last first.
  { rewrite (rest_stuck s n None) in Hk; [done|by apply en_dead0|done]. }
  pose proof (pid_pos n) as Hpos. unfold kid_step in Hk. rewrite Hkd in Hk.
  destruct (en_kid0 n j nm Hx) as [[(kd' & Hkd' & Hpc) Hsem]|(Hjk & Hcmd & Hpc)].
  - simplify_eq. rewrite Hpc, nth_lookup, Hsem in Hk. simpl in Hk. destruct (Nat.ltb_spec j k); [|done]. injection Hk as <-.
    split; [|done]. eapply ending_move; try done; [by destruct Hc; [lia|]|by simpl; rewrite length_insert| |by left].
    intros j' Hne. simpl. by rewrite list_lookup_insert_ne.
  - destruct Hpc as [(kd' & Hkd' & Hpc)|[(kd' & Hkd' & Hpc)|[(t & kd' & Hkd' & Hpc)|(kd' & Hkd' & Hpc)]]]; simplify_eq; rewrite Hpc in Hk.
    + injection Hk as <-. split; [|done]. eapply ending_move; try done. right; left. by rewrite Hcmd.
    + rewrite (proj2 (Z.eqb_neq _ (pid n))) in Hk by lia. simpl in Hk. injection Hk as <-. split; [|done].
      eapply ending_move; try done. right; right; left. eauto.
    + injection Hk as <-. split; [|done]. eapply ending_move; try done; [by apply trace_snoc|]. by right; right; right.
    + done.
Qed.

(** The semaphore that is up is the busy child's. *)
Lemma leave_others s l n j : unused l j -> leaving s n j -> forall m j' nm, live l m j' nm -> nth j' (e_sems s) O = O.
Proof.
  intros Hu Hlv m j' nm Hl'. destruct Hlv as [(_ & _ & H1 & _)|[(Hns & _)|(Hns & _)]]; [|by apply no_sem_nth..].
  apply (one_sem_nth s j); [done|]. intros ->. by apply Hu in Hl'.
Qed.
Lemma print_others s l A n j nm : frame s l A -> live l n j nm -> printing s n j ->
  forall m j' nm', live l m j' nm' -> Some n <> Some m -> nth j' (e_sems s) O = O.
Proof.
  intros F Hl Hp m j' nm' Hl' Hne. destruct Hp as [(_ & _ & _ & _ & [[_ H1]|[Hns _]])|(Hns & _)]; [|by apply no_sem_nth..].
  apply (one_sem_nth s j); [done|]. intros ->. destruct Hne. f_equal. eapply (fr_inj _ _ _ F); eauto.
Qed.

Lemma inv_kid s s' n : inv s -> kid_step M pid n s = Some s' -> inv s'.
Proof.
  intros [l Hc Hlen [Hns Hpar] Hcmd Hi Hpc
    |l Hc Hlen [Hns Hpar] Hcmd Hi Ht
    |l m j nm hole Hc Hlen Hd Hcmd Hi Hpc Hl Hj
    |l m j hole Hc Hlen [Hns Hpar] Hi Hn Hu Hd
    |l m j Hc Hlen Hpar Hi Hn Hu Hpc Hlv
    |l Hc Hlen Hns Hpar Hcmd Hi Hpc
    |l m j nm Hc Hlen Hpar Hcmd Hi Hpc Hl Hp
    |l k He Hpc] Hk.
  - exfalso. by apply (only_busy s s' l _ _ _ n Hc) in Hk; [|intros; apply no_sem_nth].
  - exfalso. by apply (only_busy s s' l _ _ _ n Hc) in Hk; [|intros; apply no_sem_nth].
  - pose proof Hd as [Hns _]. pose proof Hk as E. apply (only_busy s s' l _ _ _ n Hc) in E as [= ->]; [|intros; by apply no_sem_nth].
    by eapply join_kid.
  - pose proof Hk as E. apply (only_busy s s' l _ _ _ n Hc) in E as [= ->]; [|intros; by apply no_sem_nth].
    destruct Hd as (Hw & _). rewrite (rest_stuck s n (Some (j, 0))) in Hk; [done|done|]. intros j' nm [= <- <-]. by apply no_sem_nth.
  - pose proof Hk as E. apply (only_busy s s' l _ _ _ n Hc) in E as [= ->]; [by eapply leave_kid|].
    intros j' nm Hl' _. by eapply leave_others.
  - exfalso. by apply (only_busy s s' l _ _ _ n Hc) in Hk; [|intros; apply no_sem_nth].
  - pose proof Hk as E. apply (only_busy s s' l _ _ _ n Hc) in E as [= ->]; [by eapply print_kid|].
    intros j' nm' Hl' Hne. eapply (print_others s l _ m j nm); [apply Hc|done..].
  - destruct (end_kid s s' l k n He) as (He' & Ep & Ec); [|done|].
    + destruct Hpc as [[? _]|[(_ & ? & _)|(_ & ? & _)]]; tauto.
    + eapply inv_end; [done|]. unfold ended. by rewrite Ep, Ec.
Qed.

(** ** The parent's steps *)

Lemma live_snoc l x n j nm : live (l ++ [x]) n j nm <-> live l n j nm \/ (n = length l /\ x = Some (j, nm)).
Proof.
  unfold live. rewrite lookup_app_Some, list_lookup_singleton_Some. split.
  - intros [?|(? & ? & ->)]; [by left|right; split; [lia|done]].
  - intros [?|(-> & ->)]; [by left|right; split; [lia|]]. split; [lia|done].
Qed.

Lemma live_insert_none l m n j nm : live (<[m := None]> l) n j nm <-> live l n j nm /\ n <> m.
Proof.
  unfold live. destruct (decide (n = m)) as [->|Hne].
  - split; [|tauto]. intros H. destruct (decide (m < length l)%nat).
    + by rewrite list_lookup_insert_eq in H.
    + rewrite lookup_ge_None_2 in H; [done|]. rewrite length_insert. lia.
  - rewrite list_lookup_insert_ne by done. tauto.
Qed.

(** [fork]: the new child [length l], which will take semaphore [j]. *)
Lemma core_start s s' l A j nm st : core s l A None None -> (j < M)%nat -> e_pids s !! j = Some 0 ->
  1 <= nm < Z.of_nat MAX_CHILDREN -> nm ∉ A ->
  e_names s' = e_names s ++ [(pid (length l), nm)] -> e_kids s' = e_kids s ++ [Kid (KFind 0) st 0] ->
  e_pids s' = e_pids s -> e_sems s' = e_sems s -> e_running s' = e_running s + 1 -> e_out s' = e_out s -> e_i s' = e_i s ->
  core s' (l ++ [Some (j, nm)]) ({[nm]} ∪ A) (Some j) (Some (length l)).
Proof.
  intros [F [S1 S2] Hq Ht Hi] Hj H0 Hnm HA En Ek Ep Es Er Eo Ei. pose proof F as [].
  assert (Hfree : forall n nm', ~ live l n j nm').
  { intros n nm' Hl. apply S1 in Hl; [|done]. pose proof (pid_pos n). simplify_eq. lia. }
  split; [split|split| | |]; rewrite ?En, ?Ek, ?Ep, ?Es, ?Er, ?Eo, ?Ei, ?length_app; try done.
  - rewrite imap_snoc, fr_names0. done.
  - simpl. lia.
  - intros n j' nm'. rewrite live_snoc. intros [Hl|(_ & [= <- <-])]; [|set_solver].
    destruct (fr_live0 _ _ _ Hl) as (? & ? & ?). set_solver.
  - intros nm'. rewrite elem_of_union, elem_of_singleton. intros [->|Hin].
    + exists (length l), j. apply live_snoc. by right.
    + destruct (fr_act0 nm' Hin) as (n & j' & Hl). exists n, j'. apply live_snoc. by left.
  - intros n j1 nm1 n' j2 nm2. rewrite !live_snoc. intros [H1|(-> & [= -> ->])] [H2|(-> & [= -> ->])] E; [by eapply fr_inj0| | |done].
    + exfalso. destruct E as [->| ->]; [by eapply Hfree|]. by destruct (fr_live0 _ _ _ H1) as (_ & _ & ?).
    + exfalso. destruct E as [->| ->]; [by eapply Hfree|]. by destruct (fr_live0 _ _ _ H2) as (_ & _ & ?).
  - rewrite size_union, size_singleton by set_solver. lia.
  - intros n j' nm'. rewrite live_snoc. intros [Hl|(_ & [= <- <-])] Hne; [|done]. by eapply S1.
  - intros j' p Hp Hne Hp0. destruct (S2 j' p Hp) as (n & nm' & Hl & ->); [done|done|]. exists n, nm'. split; [|done]. apply live_snoc. by left.
  - intros n x Hx Hb. apply lookup_app_Some in Hx as [Hx|[Hge Hx]].
    + destruct (Hq n x Hx) as (k & Hk & ?); [done|]. exists k. split; [|done]. rewrite Ek. by apply lookup_app_l_Some.
    + apply list_lookup_singleton_Some in Hx as [Hx _]. destruct Hb. f_equal. lia.
Qed.

(** The child [n] is struck off the table: it still holds semaphore [j]. *)
Lemma core_term s s' l A n j nm : core s l A None None -> live l n j nm ->
  e_names s' = <[n := (0, 0)]> (e_names s) -> e_kids s' = e_kids s -> e_pids s' = e_pids s -> e_sems s' = e_sems s ->
  e_running s' = e_running s - 1 -> e_out s' = e_out s -> e_i s' = e_i s ->
  core s' (<[n := None]> l) (A ∖ {[nm]}) (Some j) (Some n).
Proof.
  intros [F [S1 S2] Hq Ht Hi] Hl En Ek Ep Es Er Eo Ei. pose proof F as []. destruct (fr_live0 _ _ _ Hl) as (HjM & Hnm & HA).
  split; [split|split| | |]; rewrite ?En, ?Ek, ?Ep, ?Es, ?Er, ?Eo, ?Ei, ?length_insert; try done.
  - rewrite imap_insert, fr_names0. done.
  - intros m j' nm' [Hl' Hne]%live_insert_none. destruct (fr_live0 _ _ _ Hl') as (? & ? & ?). split; [done|]. split; [done|].
    apply elem_of_difference. split; [done|]. intros ->%elem_of_singleton. eapply Hne, fr_inj0; eauto.
  - intros nm' [Hin Hne]%elem_of_difference. destruct (fr_act0 nm' Hin) as (m & j' & Hl'). exists m, j'.
    apply live_insert_none. split; [done|]. intros ->. unfold live in *. simplify_eq. set_solver.
  - intros m j1 nm1 m' j2 nm2 [H1 _]%live_insert_none [H2 _]%live_insert_none. by eapply fr_inj0.
  - rewrite size_difference by set_solver. rewrite size_singleton.
    assert (size A <> 0)%nat by (intros E%size_empty_inv; set_solver). lia.
  - intros m j' nm' [Hl' _]%live_insert_none _. by eapply S1.
  - intros j' p Hp Hne Hp0. destruct (S2 j' p Hp) as (m & nm' & Hl' & ->); [done|done|]. exists m, nm'. split; [|done].
    apply live_insert_none. split; [done|]. intros ->. unfold live in *. simplify_eq.
  - intros m x Hx Hb. rewrite list_lookup_insert_ne in Hx by congruence.
    destruct (Hq m x Hx) as (k & Hk & ?); [done|]. exists k. by rewrite Ek.
Qed.

(** A name that is not active is not on the table. *)
Lemma remove_none s l A nm : frame s l A -> nm ∉ A -> remove_name (e_names s) nm 0 = (e_names s, 0).
Proof.
  intros F HA. apply remove_name_none. rewrite (fr_names _ _ _ F). intros e He E. apply list_elem_of_lookup in He as (k & Hk).
  rewrite list_lookup_imap in Hk. destruct (l !! k) as [[[j nm']|]|] eqn:Ek; simplify_eq/=; [|done].
  exfalso. apply HA. by apply (fr_live _ _ _ F k j nm').
Qed.

Lemma remove_one s l A n j nm : frame s l A -> live l n j nm -> remove_name (e_names s) nm 0 = (<[n := (0, 0)]> (e_names s), pid n).
Proof.
  intros F Hl. pose proof (pid_pos n) as Hp. apply remove_name_one; [|lia|]; rewrite (fr_names _ _ _ F).
  - by rewrite list_lookup_imap, Hl.
  - intros k e Hk E He. rewrite list_lookup_imap in Hk. destruct (l !! k) as [[[j' nm']|]|] eqn:Ek; simplify_eq/=.
    eapply (fr_inj _ _ _ F); eauto.
Qed.

Lemma core_ending s l A : core s l A None None -> no_sem s -> (length l <= MAX_CHILDREN)%nat -> ending s l 0.
Proof.
  intros [[] _ Hq Ht _] Hns Hle.
  assert (Hz : forall j, (j < M)%nat -> e_sems s !! j = Some O).
  { intros j Hj. rewrite <- fr_sems0 in Hj. destruct (lookup_lt_is_Some_2 _ _ Hj) as [x Hx]. by rewrite Hx, (Hns j x Hx). }
  split; try done.
  - intros n j nm Hl. by apply (fr_live0 n j nm).
  - intros n j nm n' nm' H1 H2. eapply fr_inj0; eauto.
  - intros n Hn. by apply (Hq n None).
  - intros n j nm Hl. left. split; [by apply (Hq n (Some (j, nm)))|]. apply Hz. by apply (fr_live0 n j nm).
  - intros j Hj. apply Hz. lia.
Qed.

Lemma ending_to s s' l k : ending s l k -> e_names s' = e_names s -> e_kids s' = e_kids s -> e_sems s' = e_sems s -> e_out s' = e_out s ->
  k = O \/ e_cmd s' = e_cmd s -> ending s' l k.
Proof.
  intros [] En Ek Es Eo Hc. split; rewrite ?En, ?Ek, ?Es, ?Eo; try done; unfold kid_pc; rewrite ?Ek; try done.
  intros n j nm Hl. destruct (en_kid0 n j nm Hl) as [?|(? & ? & ?)]; [by left|]. destruct Hc as [?|Hc]; [lia|]. right. by rewrite Hc.
Qed.

Lemma act_next s : 0 <= e_i s -> let c := commands (e_i s) in
  next s = match command_ c with CStart => {[process c]} ∪ now s | CTerm => now s ∖ {[process c]} | _ => now s end /\
  starts (Z.to_nat (e_i s + 1)) = match command_ c with CStart => S (starts (Z.to_nat (e_i s))) | _ => starts (Z.to_nat (e_i s)) end.
Proof. intros Hi. destruct (next_unfold s Hi) as [E1 E2]. rewrite E1. cbn [act starts]. by rewrite E2. Qed.

(** The configuration at this step. *)
Lemma config_at s : 0 <= e_i s <= final -> let c := commands (e_i s) in
  command_exists c = negb (bool_decide (command_ c = CNone)) /\
  (command_ c = CStart -> 1 <= process c < Z.of_nat MAX_CHILDREN /\ process c ∉ now s /\ (size (now s) < M)%nat /\
    (S (starts (Z.to_nat (e_i s))) <= MAX_CHILDREN)%nat).
Proof.
  intros Hi. destruct (next_unfold s ltac:(lia)) as [E1 E2].
  pose proof (ok_exists Hcfg (Z.to_nat (e_i s))) as He. rewrite E2 in He. split; [apply He; lia|]. intros Hc.
  pose proof (ok_start Hcfg (Z.to_nat (e_i s))) as Hs. rewrite E2 in Hs. destruct (Hs ltac:(lia) Hc) as (? & ? & ?).
  repeat split; try done; try lia. pose proof (ok_starts Hcfg (S (Z.to_nat (e_i s))) ltac:(lia)) as Hst. cbn [starts] in Hst. by rewrite E2, Hc in Hst.
Qed.

Lemma end_step s l : core s l (now s) None None -> length l = starts (Z.to_nat (e_i s)) -> down s -> e_i s <= final + 1 ->
  inv (set_pc PEndCmd s).
Proof.
  intros Hc Hlen [Hns _] Hi. pose proof (co_i _ _ _ _ _ Hc). apply (inv_end _ l 0); [|left; by split; [|left]].
  eapply ending_to; [eapply core_ending; [done..|]|done..|by left]. rewrite Hlen. apply (ok_starts Hcfg). lia.
Qed.

Lemma step_start s s' l r1 r2 : core s l (now s) None None -> length l = starts (Z.to_nat (e_i s)) -> down s -> e_cmd s = 0 ->
  e_i s <= final -> e_pc s = PStep -> command_ (commands (e_i s)) = CStart ->
  par_step M commands final text pid r1 r2 s = Some s' -> inv s'.
Proof.
  intros Hc Hlen Hd Hcmd Hi Hpc Ec Hp. pose proof (co_i _ _ _ _ _ Hc) as H0. pose proof (co_frame _ _ _ _ _ Hc) as F.
  destruct (config_at s ltac:(lia)) as [Hex Hst]. destruct (Hst Ec) as (Hpr & Hnin & Hsz & Hall).
  unfold par_step, pend in Hp. rewrite Hpc, (proj2 (Z.leb_le _ _)), Hex, Ec in Hp by lia.
  rewrite bool_decide_false in Hp by done. cbn [negb e_running set_running e_kids e_names] in Hp.
  rewrite (fr_run _ _ _ F), Z.gtb_ltb, (proj2 (Z.ltb_ge _ _)), (fr_kids _ _ _ F), (proj2 (Nat.leb_gt _ _)) in Hp by lia.
  injection Hp as <-. destruct (free_slot s l _ F (co_slots _ _ _ _ _ Hc) Hsz) as (j & Hj & Hp0 & Hlt).
  destruct (act_next s H0) as [En Es]. rewrite Ec in En, Es.
  apply (inv_join _ (l ++ [Some (j, process (commands (e_i s)))]) (length l) j (process (commands (e_i s))) (Some j)); try done.
  - change (next _) with (next s). rewrite En. eapply core_start; try done; simpl; try done. by rewrite (fr_run _ _ _ F).
  - rewrite length_app. simpl. rewrite Es, Hlen. lia.
  - apply live_snoc. by right.
  - left. repeat split; try done. left. exists O. split; [lia|]. eexists. simpl. rewrite list_lookup_middle; [done|]. symmetry. apply F.
Qed.

Lemma step_term s s' l r1 r2 : core s l (now s) None None -> length l = starts (Z.to_nat (e_i s)) -> down s -> e_cmd s = 0 ->
  e_i s <= final -> e_pc s = PStep -> command_ (commands (e_i s)) = CTerm ->
  par_step M commands final text pid r1 r2 s = Some s' -> inv s'.
Proof.
  intros Hc Hlen Hd Hcmd Hi Hpc Ec Hp. pose proof (co_i _ _ _ _ _ Hc) as H0. pose proof (co_frame _ _ _ _ _ Hc) as F.
  destruct (config_at s ltac:(lia)) as [Hex _]. destruct (act_next s H0) as [En Es]. rewrite Ec in En, Es.
  unfold par_step, pend in Hp. rewrite Hpc, (proj2 (Z.leb_le _ _)), Hex, Ec in Hp by lia. simpl in Hp.
  set (nm := process (commands (e_i s))) in *. destruct (decide (nm ∈ now s)) as [Hin|Hin].
  - destruct (fr_act _ _ _ F nm Hin) as (n & j & Hl). rewrite (remove_one s l _ n j nm F Hl) in Hp.
    pose proof (pid_pos n). rewrite (proj2 (Z.eqb_neq _ 0)) in Hp by lia. injection Hp as <-.
    assert (Hn : (n < length l)%nat) by (by eapply lookup_lt_Some). destruct (fr_live _ _ _ F _ _ _ Hl) as (HjM & _).
    apply (inv_dismiss _ (<[n := None]> l) n j (Some j)); try done.
    + change (next _) with (next s). rewrite En. by eapply core_term.
    + rewrite length_insert, Hlen. symmetry. exact Es.
    + by rewrite list_lookup_insert_eq.
    + intros m nm' [Hl' Hne]%live_insert_none. eapply Hne, (fr_inj _ _ _ F); eauto.
    + split; [by apply (co_quiet _ _ _ _ _ Hc n _ Hl)|]. split; [done|]. left. split; [done|]. split; [|by left].
      by eapply (co_slots _ _ _ _ _ Hc).
  - rewrite (remove_none s l _ nm F Hin) in Hp. simpl in Hp. injection Hp as <-.
    assert (next s = now s) as En' by (rewrite En; set_solver).
    apply (inv_step _ l); try done; [|simpl; by rewrite Es|simpl; lia].
    change (core (set_i (e_i s + 1) (set_names (e_names s) s)) l (next s) None None). rewrite En'. eapply core_to; try done; [apply Hc|simpl; lia].
Qed.

Lemma post_one s s' j : no_sem s -> e_sems s' = alter S j (e_sems s) -> one_sem s' j.
Proof.
  intros Hns E k m. rewrite E. case_decide as Hk; [subst k|].
  - rewrite list_lookup_alter_eq. destruct (e_sems s !! j) as [y|] eqn:Ej; [|done]. simpl. intros [= <-]. by rewrite (Hns j y Ej).
  - rewrite list_lookup_alter_ne by done. apply Hns.
Qed.

Lemma talk_step s s' l r1 r2 : core s l (next s) None None -> length l = starts (Z.to_nat (e_i s + 1)) -> down s -> e_cmd s = 0 ->
  e_i s <= final -> talking s l -> 0 <= r1 -> 0 <= r2 -> par_step M commands final text pid r1 r2 s = Some s' -> inv s'.
Proof.
  intros Hc Hlen Hd Hcmd Hi Ht Hr1 Hr2 Hp. pose proof (co_i _ _ _ _ _ Hc) as H0. pose proof (co_frame _ _ _ _ _ Hc) as F. unfold par_step, pend in Hp.
  destruct Ht as [Hpc|[[Hpc Hne]|(n & j & nm & line & i & Hl & Hlast & [Hpc|[Hpc Hmsg]])]]; rewrite Hpc in Hp.
  - rewrite (fr_run _ _ _ F), Z.gtb_ltb in Hp. destruct (Z.ltb_spec 0 (Z.of_nat (size (next s)))) as [Hsz|Hsz]; injection Hp as <-.
    + apply (inv_talk _ l); try done; [eapply core_to; try done; apply Hc|]. right; left. split; [done|].
      intros E%(f_equal size). rewrite size_empty in E. change (next (set_pc _ s)) with (next s) in E. lia.
    + apply (inv_step _ l); try done; [eapply core_to; try done; [apply Hc|simpl; lia]|simpl; lia].
  - destruct (choose_spec (e_i s) r1) as (nm & Ech & Hnm); [lia|done|done|]. rewrite Ech in Hp.
    destruct (fr_act _ _ _ F nm Hnm) as (n & j & Hl). rewrite (frame_pid s l _ n j nm F Hl) in Hp.
    rewrite (slot_find s l _ n j nm F (co_slots _ _ _ _ _ Hc) Hl) in Hp. cbn [default from_option id] in Hp.
    destruct (co_slots _ _ _ _ _ Hc) as [S1 _]. rewrite (S1 n j nm Hl) in Hp by done.
    destruct (lookup_lt_is_Some_2 text (Z.to_nat (r2 mod Z.of_nat (length text)))) as [line Hline].
    { assert (0 < Z.of_nat (length text)) as Hpos by (destruct text; [done|simpl; lia]).
      pose proof (Z.mod_pos_bound r2 _ Hpos). lia. }
    rewrite Hline in Hp. injection Hp as <-. apply (inv_talk _ l); try done.
    + eapply core_to; try done. apply trace_snoc; [apply Hc|done].
    + right; right. exists n, j, nm, line, (e_i s). split; [done|]. split; [simpl; apply last_snoc|]. by left.
  - injection Hp as <-. apply (inv_talk _ l); try done; [eapply core_to; try done; apply Hc|].
    right; right. exists n, j, nm, line, i. split; [done|]. split; [done|]. by right.
  - injection Hp as <-. destruct Hd as [Hns Hpar]. apply (inv_print _ l n j nm); try done.
    + eapply core_busy, core_to; try done; [|apply Hc]. simpl. apply length_alter.
    + left. exists i, line. split; [done|]. split; [done|]. left. split; [by apply (co_quiet _ _ _ _ _ Hc n _ Hl)|]. by eapply post_one.
Qed.

(** The slot of the child that leaves is cleared. *)
Lemma slots_clear s s' l j : slots s l (Some j) -> unused l j -> (j < length (e_pids s))%nat -> e_pids s' = <[j := 0]> (e_pids s) ->
  slots s' l None.
Proof.
  intros [S1 S2] Hu Hj E. unfold slots. rewrite E. split.
  - intros n j' nm Hl _. destruct (decide (j = j')) as [<-|Hne]; [by apply Hu in Hl|].
    rewrite list_lookup_insert_ne by done. apply (S1 n j' nm); [done|congruence].
  - intros j' p. destruct (decide (j = j')) as [<-|Hne].
    + rewrite list_lookup_insert_eq by done. by intros [= <-].
    + rewrite list_lookup_insert_ne by done. intros Hp _. apply S2; [done|congruence].
Qed.

Lemma dismiss_step s s' l n j hole r1 r2 : core s l (next s) hole (Some n) -> length l = starts (Z.to_nat (e_i s + 1)) -> down s ->
  e_i s <= final -> l !! n = Some None -> unused l j -> dismissing s n j hole ->
  par_step M commands final text pid r1 r2 s = Some s' -> inv s'.
Proof.
  intros Hc Hlen Hd Hi Hn Hu (Hw & HjM & Hdis) Hp. pose proof (co_frame _ _ _ _ _ Hc) as F. unfold par_step, pend in Hp.
  destruct Hdis as [(-> & Hpj & [[Hpc Hcmd]|(Hcmd & [Hpc|[(k & Hk & Hpc)|Hpc]])])|(-> & Hcmd & Hpc)]; rewrite Hpc in Hp.
  - injection Hp as <-. apply (inv_dismiss _ l n j (Some j)); try done; [eapply core_to; try done; apply Hc|].
    split; [done|]. split; [done|]. left. split; [done|]. split; [done|]. right. by split; [|left].
  - injection Hp as <-. apply (inv_dismiss _ l n j (Some j)); try done; [eapply core_to; try done; apply Hc|].
    split; [done|]. split; [done|]. left. split; [done|]. split; [done|]. right. split; [done|]. right; left. exists O. split; [lia|done].
  - rewrite (proj2 (Nat.leb_gt _ _)) in Hp by lia.
    destruct (lookup_lt_is_Some_2 (e_pids s) k) as [p Hpk]; [rewrite (fr_pids _ _ _ F); lia|].
    rewrite nth_lookup, Hpk in Hp. simpl in Hp. destruct (Z.eqb_spec p (pid n)) as [E|Hne]; injection Hp as <-.
    + assert (k = j) as ->.
      { subst p. destruct (decide (k = j)) as [|Hkj]; [done|]. exfalso. destruct (co_slots _ _ _ _ _ Hc) as [_ S2].
        destruct (S2 k _ Hpk) as (m & nm & Hl & Em); [congruence|pose proof (pid_pos n); lia|]. apply pid_inj in Em as <-.
        unfold live in Hl. congruence. }
      apply (inv_dismiss _ l n j (Some j)); try done; [eapply core_to; try done; apply Hc|].
      split; [done|]. split; [done|]. left. split; [done|]. split; [done|]. right. split; [done|]. by right; right.
    + assert (k <> j) by congruence. apply (inv_dismiss _ l n j (Some j)); try done; [eapply core_to; try done; apply Hc|].
      split; [done|]. split; [done|]. left. split; [done|]. split; [done|]. right. split; [done|]. right; left. exists (S k). split; [lia|done].
  - injection Hp as <-. apply (inv_dismiss _ l n j None); try done; [|split; [done|]; split; [done|]; by right].
    destruct Hc as [_ Hs Hq Ht Hi0]. split; try done.
    + destruct F. split; simpl; rewrite ?length_insert; done.
    + eapply slots_clear; try done. by rewrite (fr_pids _ _ _ F).
  - injection Hp as <-. destruct Hd as [Hns Hpar]. apply (inv_leave _ l n j); try done.
    + eapply core_to; try done; [|apply Hc..]. simpl. apply length_alter.
    + left. split; [done|]. split; [done|]. split; [by eapply post_one|done].
Qed.

Lemma back_step s s' l r1 r2 : core s l (next s) None None -> length l = starts (Z.to_nat (e_i s + 1)) -> no_sem s -> e_par s = 1%nat ->
  e_cmd s = 0 -> e_i s <= final -> e_pc s = PStartWait \/ e_pc s = PTermWait \/ e_pc s = PTalkWait ->
  par_step M commands final text pid r1 r2 s = Some s' -> inv s'.
Proof.
  intros Hc Hlen Hns Hpar Hcmd Hi Hpc Hp. pose proof (co_i _ _ _ _ _ Hc) as H0. unfold par_step, pend in Hp.
  destruct Hpc as [Hpc|[Hpc|Hpc]]; rewrite Hpc, Hpar in Hp; injection Hp as <-.
  1,2: apply (inv_talk _ l); try done; [eapply core_to; try done; apply Hc|by left].
  apply (inv_step _ l); try done; [eapply core_to; try done; [apply Hc|simpl; lia]|simpl; lia].
Qed.

Lemma ending_post s s' l k : ending s l k -> (k < M)%nat -> e_cmd s = -1 -> e_names s' = e_names s -> e_kids s' = e_kids s ->
  e_sems s' = alter S k (e_sems s) -> e_cmd s' = e_cmd s -> e_out s' = e_out s -> ending s' l (S k).
Proof.
  intros [] HkM Hcmd En Ek Es Ec Eo.
  split; rewrite ?En, ?Ek, ?Es, ?Ec, ?Eo, ?length_alter; try done; unfold kid_pc; rewrite ?Ek; try done.
  - intros n j nm Hl. destruct (en_kid0 n j nm Hl) as [[Hw Hs]|(? & ? & ?)]; [left|right; split; [lia|done]]. split; [done|].
    destruct (decide (k = j)) as [<-|Hne].
    + rewrite list_lookup_alter_eq, Hs. simpl. by rewrite Nat.ltb_irrefl, (proj2 (Nat.ltb_lt k (S k))) by lia.
    + rewrite list_lookup_alter_ne, Hs by done. do 2 f_equal. destruct (Nat.ltb_spec j k), (Nat.ltb_spec j (S k)); lia || done.
  - intros j Hj. rewrite list_lookup_alter_ne by lia. apply en_zero0. lia.
Qed.

Lemma ending_reap s s' l k n : ending s l k -> kid_pc s n KDead -> e_names s' = <[n := (0, 0)]> (e_names s) -> e_kids s' = e_kids s ->
  e_sems s' = e_sems s -> e_cmd s' = e_cmd s -> e_out s' = e_out s -> ending s' (<[n := None]> l) k.
Proof.
  intros [] Hd En Ek Es Ec Eo.
  split; rewrite ?En, ?Ek, ?Es, ?Ec, ?Eo, ?length_insert; try done; unfold kid_pc; rewrite ?Ek; try done.
  - by rewrite imap_insert, en_names0.
  - intros m j nm [? _]%live_insert_none. by eapply en_live0.
  - intros m j nm m' nm' [? _]%live_insert_none [? _]%live_insert_none. by eapply en_inj0.
  - intros m Hm. destruct (decide (m = n)) as [->|Hne]; [done|]. rewrite list_lookup_insert_ne in Hm by done. by apply en_dead0.
  - intros m j nm [Hl _]%live_insert_none. by apply (en_kid0 m j nm).
Qed.

Lemma end_par s s' l k r1 r2 : ending s l k -> ended s l k -> par_step M commands final text pid r1 r2 s = Some s' -> inv s'.
Proof.
  intros He Hpc Hp. unfold par_step, pend in Hp.
  destruct Hpc as [(-> & [Hpc|[Hpc Hcmd]])|[(Hk & Hcmd & Hpc)|(-> & Hcmd & [(m & Hpc & Hm)|[Hpc _]])]]; rewrite Hpc in Hp.
  - injection Hp as <-. apply (inv_end _ l 0); [eapply ending_to; try done; by left|]. left. split; [done|]. by right.
  - injection Hp as <-. apply (inv_end _ l 0); [eapply ending_to; try done; by left|]. right; left. split; [lia|done].
  - destruct (Nat.ltb_spec k M); injection Hp as <-.
    + apply (inv_end _ l (S k)); [by eapply ending_post|]. right; left. split; [lia|done].
    + apply (inv_end _ l k); [eapply ending_to; try done; by right|]. right; right. split; [lia|]. split; [done|]. left. exists O. split; [done|]. lia.
  - rewrite (en_names _ _ _ He), list_lookup_imap in Hp. destruct (l !! m) as [x|] eqn:Hx; simpl in Hp; last first.
    + injection Hp as <-. apply (inv_end _ l M); [eapply ending_to; try done; by right|]. right; right. split; [done|]. split; [done|]. right.
      split; [done|]. intros n Hn. apply Hm; [|done]. apply lookup_ge_None in Hx. lia.
    + assert (Hext : forall l', l' !! m = Some None -> length l' = length l -> (forall n, n <> m -> l' !! n = l !! n) ->
        forall n, (n < S m)%nat -> (n < length l')%nat -> l' !! n = Some None).
      { intros l' Hl' El Hne n Hn Hn'. destruct (decide (n = m)) as [->|Hnm]; [done|]. rewrite Hne by done. apply Hm; lia. }
      destruct x as [[j nm]|]; simpl in Hp.
      * pose proof (pid_pos m). rewrite (proj2 (Z.eqb_neq _ 0)) in Hp by lia.
        destruct (e_kids s !! m) as [[[] ? ?]|] eqn:Hkd; try done. injection Hp as <-.
        apply (inv_end _ (<[m := None]> l) M).
        -- eapply ending_reap; try done; [by eexists|]. simpl. by rewrite (en_names _ _ _ He).
        -- right; right. split; [done|]. split; [done|]. left. exists (S m). split; [done|].
           apply Hext; [apply list_lookup_insert_eq; by eapply lookup_lt_Some|apply length_insert|].
           intros n Hne. by apply list_lookup_insert_ne.
      * injection Hp as <-. apply (inv_end _ l M); [eapply ending_to; try done; by right|].
        right; right. split; [done|]. split; [done|]. left. exists (S m). split; [done|]. by apply Hext.
  - done.
Qed.

(** ** Every step keeps the invariant *)

Lemma inv_par s s' r1 r2 : inv s -> 0 <= r1 -> 0 <= r2 -> par_step M commands final text pid r1 r2 s = Some s' -> inv s'.
Proof.
  intros [l Hc Hlen Hd Hcmd Hi Hpc
    |l Hc Hlen Hd Hcmd Hi Ht
    |l n j nm hole Hc Hlen [_ Hpar] Hcmd Hi Hpc Hl Hj
    |l n j hole Hc Hlen Hd Hi Hn Hu Hdis
    |l n j Hc Hlen Hpar Hi Hn Hu Hpc Hlv
    |l Hc Hlen Hns Hpar Hcmd Hi Hpc
    |l n j nm Hc Hlen Hpar Hcmd Hi Hpc Hl Hp'
    |l k He Hpc] Hr1 Hr2 Hp.
  - pose proof (co_i _ _ _ _ _ Hc) as H0. pose proof Hp as Hp'. unfold par_step, pend in Hp. rewrite Hpc in Hp.
    destruct (Z.leb_spec (e_i s) final) as [Hle|Hgt]; simpl in Hp; [|injection Hp as <-; by eapply end_step].
    destruct (config_at s ltac:(lia)) as [Hex _]. rewrite Hex in Hp. destruct (command_ (commands (e_i s))) eqn:Ec; [|by eapply step_term| |].
    + by eapply step_start.
    + rewrite bool_decide_false in Hp by done. injection Hp as <-. by eapply end_step.
    + rewrite bool_decide_true in Hp by done. injection Hp as <-. destruct (act_next s H0) as [En Es]. rewrite Ec in En, Es.
      apply (inv_talk _ l); try done; [|by rewrite Hlen; symmetry|by left].
      change (next (set_pc _ s)) with (next s). rewrite En. eapply core_to; try done; apply Hc.
  - by eapply (talk_step s s' l r1 r2).
  - unfold par_step, pend in Hp. by rewrite Hpc, Hpar in Hp.
  - by eapply dismiss_step.
  - unfold par_step, pend in Hp. by rewrite Hpc, Hpar in Hp.
  - by eapply back_step.
  - unfold par_step, pend in Hp. by rewrite Hpc, Hpar in Hp.
  - by eapply end_par.
Qed.

Lemma inv_init : final >= -1 -> inv (einit M).
Proof.
  intros Hf. apply (inv_step _ []); try done; [|split; [|done]; intros j n H; by apply lookup_replicate in H as [-> _]|simpl; lia].
  split; [split|split| | |]; simpl; try done; rewrite ?length_replicate; try done.
  intros j p H. by apply lookup_replicate in H as [-> _].
Qed.

Lemma inv_estep s s' : inv s -> estep M commands final text pid s s' -> inv s'.
Proof. intros Hi [r1 r2 H1 H2 Hp|n Hk]; [by eapply (inv_par s s' r1 r2)|by eapply inv_kid]. Qed.

(** ** Progress and exclusion *)

Definition par_can (s : est) : Prop := exists r1 r2 s', 0 <= r1 /\ 0 <= r2 /\ par_step M commands final text pid r1 r2 s = Some s'.
Definition kid_can (s : est) (n : nat) : Prop := exists s', kid_step M pid n s = Some s'.

(** A child that neither waits nor is dead runs. *)
Lemma kid_runs s n pc : kid_pc s n pc -> (forall j, pc = KWait j -> nth j (e_sems s) O <> O) -> pc <> KDead -> kid_can s n.
Proof.
  intros (k & Hk & <-) Hw Hd. unfold kid_can, kid_step. rewrite Hk. destruct (k_pc k) eqn:E; try done; try by eexists.
  - repeat case_match; by eexists.
  - destruct (nth j (e_sems s) O) eqn:Ej; [|by eexists]. by destruct (Hw j eq_refl).
  - repeat case_match; by eexists.
Qed.

Lemma join_can s n j hole : joining s n j hole -> kid_can s n.
Proof. intros [(_ & _ & _ & [(k & _ & Hk)|Hk])|(_ & Hk)]; by eapply kid_runs. Qed.

Lemma one_sem_up s j : one_sem s j -> (j < length (e_sems s))%nat -> nth j (e_sems s) O <> O.
Proof.
  intros H Hj. destruct (lookup_lt_is_Some_2 _ _ Hj) as [x Hx]. rewrite (nth_lookup_Some _ _ _ _ Hx), (H j x Hx). by rewrite decide_True.
Qed.

Lemma leave_can s l A n j : frame s l A -> leaving s n j -> kid_can s n.
Proof.
  intros F [(Hk & Hj & H1 & _)|[(_ & _ & [Hk|[Hk|(t & Hk)]])|(_ & _ & t & Hk)]]; eapply kid_runs; try done.
  intros j' [= <-]. apply one_sem_up; [done|]. by rewrite (fr_sems _ _ _ F).
Qed.

Lemma print_can s l A n j nm : frame s l A -> live l n j nm -> printing s n j -> kid_can s n.
Proof.
  intros F Hl [(_ & _ & _ & _ & [[Hk H1]|[_ [Hk|[Hk|Hk]]]])|[_ Hk]]; eapply kid_runs; try done.
  intros j' [= <-]. apply one_sem_up; [done|]. rewrite (fr_sems _ _ _ F). by apply (fr_live _ _ _ F n j nm).
Qed.

(** The parent is never stuck but on a semaphore or a child that still runs. *)
Lemma par_can_0 s : (exists s', par_step M commands final text pid 0 0 s = Some s') -> par_can s.
Proof. intros [s' H]. by exists 0, 0, s'. Qed.

Lemma par_runs s : e_pc s <> PDone -> e_pc s <> PFail -> e_pc s <> PUndef ->
  (e_par s = O -> e_pc s <> PStartWait /\ e_pc s <> PTermWait /\ e_pc s <> PTalkWait) -> (forall m, e_pc s <> PReap m) -> par_can s.
Proof.
  intros Hd Hf Hu Hw Hr. apply par_can_0. unfold par_step, pend. destruct (e_pc s) eqn:Hpc; try done; try by eexists.
  - repeat case_match; by eexists.
  - destruct (e_par s) eqn:E; [by destruct (Hw eq_refl) as (? & _)|by eexists].
  - repeat case_match; by eexists.
  - destruct (e_par s) eqn:E; [by destruct (Hw eq_refl) as (_ & ? & _)|by eexists].
  - repeat case_match; by eexists.
  - repeat case_match; by eexists.
  - destruct (e_par s) eqn:E; [by destruct (Hw eq_refl) as (_ & _ & ?)|by eexists].
  - repeat case_match; by eexists.
  - by destruct (Hr n).
Qed.

Lemma end_runs s l k : ending s l k -> ended s l k -> e_pc s <> PDone -> par_can s \/ exists n, kid_can s n.
Proof.
  intros He Hpc Hd. assert (Hr : (exists m, e_pc s = PReap m) \/ forall m, e_pc s <> PReap m) by (destruct (e_pc s); eauto; by right).
  destruct Hr as [[m Em]|Hn].
  - destruct Hpc as [(_ & [E|[E _]])|[(_ & _ & E)|(-> & _ & [(m' & E & Hm)|[E _]])]]; try congruence. assert (m' = m) as -> by congruence.
    cut ((exists s', par_step M commands final text pid 0 0 s = Some s') \/ exists n, kid_can s n); [intros [?%par_can_0|?]; tauto|]. unfold par_step, pend.
    rewrite Em, (en_names _ _ _ He), list_lookup_imap. destruct (l !! m) as [[[j nm]|]|] eqn:Hx; simpl; try by left; eexists.
    pose proof (pid_pos m). rewrite (proj2 (Z.eqb_neq _ 0)) by lia. pose proof (en_live _ _ _ He m j nm Hx) as HjM.
    destruct (en_kid _ _ _ He m j nm Hx) as [[Hk Hs]|(_ & _ & [Hk|[Hk|[(t & Hk)|Hk]]])]; [right; exists m; eapply kid_runs; try done..|].
    + intros j' [= <-]. by rewrite nth_lookup, Hs, (proj2 (Nat.ltb_lt _ _)).
    + destruct Hk as ([pc a b] & -> & Hk). simpl in Hk. subst pc. left. by eexists.
  - left. apply par_runs; try done; intros;
      repeat split; intros E; destruct Hpc as [(_ & [?|[? _]])|[(_ & _ & ?)|(_ & _ & [(? & ? & _)|[? _]])]]; congruence.
Qed.

Lemma inv_progress s : inv s -> e_pc s <> PDone -> par_can s \/ exists n, kid_can s n.
Proof.
  intros [l Hc Hlen Hd Hcmd Hi Hpc
    |l Hc Hlen Hd Hcmd Hi Ht
    |l n j nm hole Hc Hlen _ Hcmd Hi Hpc Hl Hj
    |l n j hole Hc Hlen Hd Hi Hn Hu Hdis
    |l n j Hc Hlen Hpar Hi Hn Hu Hpc Hlv
    |l Hc Hlen Hns Hpar Hcmd Hi Hpc
    |l n j nm Hc Hlen Hpar Hcmd Hi Hpc Hl Hp'
    |l k He Hpc] Hdone.
  - left. apply par_runs; rewrite Hpc; done.
  - left. destruct Ht as [E|[[E _]|(? & ? & ? & ? & ? & _ & _ & [E|[E _]])]]; apply par_runs; rewrite E; done.
  - right. exists n. by eapply join_can.
  - left. destruct Hdis as (_ & _ & [(_ & _ & [[E _]|(_ & [E|[(? & _ & E)|E]])])|(_ & _ & E)]); apply par_runs; rewrite E; done.
  - right. exists n. eapply leave_can; [apply Hc|done].
  - left. apply par_runs; [..|lia|]; destruct Hpc as [E|[E|E]]; rewrite E; done.
  - right. exists n. eapply print_can; [apply Hc|done..].
  - by eapply end_runs.
Qed.

(** Until the last step is over. *)
Definition working (s : est) : bool :=
  match e_pc s with PEndCmd | PEndStep | PEndPost _ | PReap _ | PDone => false | _ => true end.

Lemma inv_exclusive s : inv s -> working s = true ->
  (par_can s -> forall n, ~ kid_can s n) /\ (forall n m, kid_can s n -> kid_can s m -> n = m).
Proof.
  assert (Hidle : forall l A hole, core s l A hole None -> no_sem s ->
    (par_can s -> forall n, ~ kid_can s n) /\ (forall n m, kid_can s n -> kid_can s m -> n = m)).
  { intros l A hole Hc Hns. assert (forall n, ~ kid_can s n); [|by split; intros; firstorder].
    intros n (s' & Hk). by apply (only_busy s s' l _ _ _ n Hc) in Hk; [|intros; apply no_sem_nth]. }
  assert (Hbusy : forall l A hole b, core s l A hole (Some b) -> (forall n j nm, live l n j nm -> Some b <> Some n -> nth j (e_sems s) O = O) ->
    (e_par s = O /\ (e_pc s = PStartWait \/ e_pc s = PTermWait \/ e_pc s = PTalkWait)) \/ ~ kid_can s b ->
    (par_can s -> forall n, ~ kid_can s n) /\ (forall n m, kid_can s n -> kid_can s m -> n = m)).
  { intros l A hole b Hc Hsem Hb.
    assert (Hn : forall n, kid_can s n -> n = b) by (intros n (s' & Hk); by apply (only_busy s s' l _ _ _ n Hc) in Hk as [= <-]; [|apply Hsem]).
    split; [|intros n m ->%Hn ->%Hn; done]. intros (r1 & r2 & s' & _ & _ & Hp) n Hk. pose proof (Hn n Hk) as ->. destruct Hb as [[Hpar Hpc]|Hb]; [|done].
    unfold par_step, pend in Hp. rewrite Hpar in Hp. by destruct Hpc as [E|[E|E]]; rewrite E in Hp. }
  intros [l Hc Hlen [Hns Hpar] Hcmd Hi Hpc
    |l Hc Hlen [Hns Hpar] Hcmd Hi Ht
    |l n j nm hole Hc Hlen [Hns Hpar] Hcmd Hi Hpc Hl Hj
    |l n j hole Hc Hlen [Hns Hpar] Hi Hn Hu Hdis
    |l n j Hc Hlen Hpar Hi Hn Hu Hpc Hlv
    |l Hc Hlen Hns Hpar Hcmd Hi Hpc
    |l n j nm Hc Hlen Hpar Hcmd Hi Hpc Hl Hp'
    |l k He Hpc] Hw.
  - by eapply Hidle.
  - by eapply Hidle.
  - eapply Hbusy; [done|intros; by apply no_sem_nth|left; by split; [|left]].
  - eapply Hbusy; [done|intros; by apply no_sem_nth|right]. intros (s' & Hk). destruct Hdis as (Hk0 & _).
    rewrite (rest_stuck s n (Some (j, 0))) in Hk; [done|done|]. intros; by apply no_sem_nth.
  - eapply Hbusy; [done| |left; by split; [|right; left]]. intros m j' nm Hl' _. by eapply leave_others.
  - by eapply Hidle.
  - eapply Hbusy; [done| |left; by split; [|right; right]]. eapply (print_others s l _ n j nm); [apply Hc|done..].
  - exfalso. unfold working in Hw. destruct Hpc as [(_ & [E|[E _]])|[(_ & _ & E)|(_ & _ & [(? & E & _)|[E _]])]]; by rewrite E in Hw.
Qed.

Lemma inv_facts s : inv s ->
  (e_pc s <> PUndef /\ e_pc s <> PFail) /\ trace_ok (e_out s) /\ (working s = true -> e_i s <= final + 1) /\
  (forall n, e_pc s = PReap n -> (length (e_names s) <= MAX_CHILDREN)%nat) /\
  (e_pc s = PDone -> Forall (fun k => k_pc k = KDead) (e_kids s)).
Proof.
  intros [l Hc Hlen Hd Hcmd Hi Hpc
    |l Hc Hlen Hd Hcmd Hi Ht
    |l n j nm hole Hc Hlen _ Hcmd Hi Hpc Hl Hj
    |l n j hole Hc Hlen Hd Hi Hn Hu Hdis
    |l n j Hc Hlen Hpar Hi Hn Hu Hpc Hlv
    |l Hc Hlen Hns Hpar Hcmd Hi Hpc
    |l n j nm Hc Hlen Hpar Hcmd Hi Hpc Hl Hp'
    |l k He Hpc].
  8: { pose proof He as []. unfold working. rewrite en_names0, length_imap.
       destruct Hpc as [(_ & [E|[E _]])|[(_ & _ & E)|(_ & _ & [(? & E & _)|[E Hall]])]]; rewrite E; repeat split; try done.
       intros _. apply Forall_lookup. intros m kd Hm. destruct (en_dead0 m) as (k' & ? & ?); [|by simplify_eq].
       apply Hall. rewrite <- en_kids0. by eapply lookup_lt_Some. }
  all: split; [|split; [apply Hc|split; [lia|]]].
  2,4,6,8,10,12,14: split; [intros m E|intros E]; exfalso.
  all: try destruct Ht as [E'|[[E' _]|(? & ? & ? & ? & ? & _ & _ & [E'|[E' _]])]];
    try destruct Hdis as (_ & _ & [(_ & _ & [[E' _]|(_ & [E'|[(? & _ & E')|E']])])|(_ & _ & E')]);
    try destruct Hpc as [E'|[E'|E']]; try split; congruence.
Qed.

(** ** Termination *)

Definition kw (k : kid) : nat :=
  match k_pc k with
  | KFind j => M - j + 5 | KStore _ => 4 | KUp _ => 2 | KWait _ => 0 | KCmd _ => 5 | KTStep _ _ => 4 | KMsg _ => 3
  | KPost _ => 2 | KReset _ => 3 | KBye _ => 2 | KDead => 0
  end%nat.
Definition pw (pc : ppc) : nat :=
  match pc with
  | PStep => 7 * M + 200 | PStartWait => 10 | PSetCmd _ => 21 + M | PSetStep _ => 20 + M | PScan _ j => 19 + (M - j)
  | PClear _ => 18 | PPostT _ => 17 | PTermWait => 10 | PTalk => 10 | PChoose _ => 9 | PWrite _ _ => 8 | PPost _ => 7 | PTalkWait => 0
  | PEndCmd => 7 * M + 105 | PEndStep => 7 * M + 104 | PEndPost j => 7 * (M - j) + 103 | PReap n => S (101 - n)
  | PDone | PFail | PUndef => 0
  end%nat.
(** What is left to do: the steps, the parent's place in this one, the
    semaphores that are up and the places of the children. *)
Definition work (s : est) : nat :=
  (Z.to_nat (final + 2 - e_i s) * (7 * M + 201) + pw (e_pc s) + 6 * sum_list (e_sems s) + e_par s + sum_list_with kw (e_kids s))%nat.

Lemma sum_insert {A} (f : A -> nat) l n x y : l !! n = Some x -> (sum_list_with f (<[n := y]> l) + f x = sum_list_with f l + f y)%nat.
Proof. revert n. induction l as [|z l IH]; intros [|n] H; simplify_eq/=; [lia|]. specialize (IH n H). lia. Qed.

Lemma sum_alter l j : (sum_list (alter S j l) <= S (sum_list l))%nat.
Proof. revert j. induction l as [|z l IH]; intros [|j]; simpl; try lia. specialize (IH j). simpl in *. unfold id, alter in *. lia. Qed.

Ltac fields :=
  cbn [e_pc e_i e_running e_names e_msg e_pids e_cmd e_tstep e_par e_sems e_kids e_out set_pc set_i set_running set_names set_msg
       set_pids set_cmd set_tstep set_par set_sems set_kids print sem_post kw pw k_pc id] in *.

Lemma kid_work s s' n : inv s' -> kid_step M pid n s = Some s' -> (work s' < work s)%nat.
Proof.
  intros Hi Hk. destruct (inv_facts s' Hi) as ((Hu & _) & _). unfold kid_step in Hk. destruct (e_kids s !! n) as [k|] eqn:Ek; [|done].
  assert (Hs : forall x, (sum_list_with kw (<[n := x]> (e_kids s)) + kw k = sum_list_with kw (e_kids s) + kw x)%nat) by (intros; by apply sum_insert).
  assert (Hkw : kw k = kw (Kid (k_pc k) 0 0)) by done. rewrite Hkw in Hs.
  unfold work. destruct (k_pc k) eqn:Epc; cbn [kw k_pc] in Hs.
  - destruct (Nat.leb_spec M j); [by injection Hk as <-|]. case_match; injection Hk as <-; fields;
      [specialize (Hs (Kid (KStore j) (k_start k) (k_msgs k)))|specialize (Hs (Kid (KFind (S j)) (k_start k) (k_msgs k)))]; fields; lia.
  - injection Hk as <-. specialize (Hs (Kid (KUp j) (k_start k) (k_msgs k))). fields. lia.
  - injection Hk as <-. specialize (Hs (Kid (KWait j) (k_start k) (k_msgs k))). fields. lia.
  - destruct (nth j (e_sems s) O) as [|m] eqn:Em; [done|]. injection Hk as <-. specialize (Hs (Kid (KCmd j) (k_start k) (k_msgs k))).
    rewrite nth_lookup in Em. destruct (e_sems s !! j) as [y|] eqn:Ej; [|done]. simpl in Em. subst y.
    pose proof (sum_insert id (e_sems s) j (S m) m Ej) as Hsem. unfold id in *. fields. lia.
  - injection Hk as <-. specialize (Hs (Kid (KTStep j (e_cmd s)) (k_start k) (k_msgs k))). fields. lia.
  - repeat case_match; injection Hk as <-; [specialize (Hs (Kid (KMsg j) (k_start k) (k_msgs k)))|
      specialize (Hs (Kid (KReset (e_tstep s)) (k_start k) (k_msgs k)))|specialize (Hs (Kid (KBye (e_tstep s)) (k_start k) (k_msgs k)))]; fields; lia.
  - injection Hk as <-. specialize (Hs (Kid (KPost j) (k_start k) (k_msgs k + 1))). fields. lia.
  - injection Hk as <-. specialize (Hs (Kid (KWait j) (k_start k) (k_msgs k))). fields. lia.
  - injection Hk as <-. specialize (Hs (Kid (KBye t) (k_start k) (k_msgs k))). fields. lia.
  - injection Hk as <-. specialize (Hs (Kid KDead (k_start k) (k_msgs k))). fields. lia.
  - done.
Qed.

Lemma par_work s s' r1 r2 : inv s -> inv s' -> par_step M commands final text pid r1 r2 s = Some s' -> (work s' < work s)%nat.
Proof.
  intros Hi Hi' Hp. destruct (inv_facts s Hi) as (_ & _ & Hw & Hr & _). destruct (inv_facts s' Hi') as ((Hu & Hf) & _).
  unfold par_step, pend, working in *. unfold work. destruct (e_pc s) eqn:Epc; try done.
  - specialize (Hw eq_refl). assert (Z.to_nat (final + 2 - e_i s) = S (Z.to_nat (final + 2 - (e_i s + 1)))) as E by lia.
    destruct (negb (e_i s <=? final)); [injection Hp as <-; fields; lia|].
    destruct (command_exists _); [|injection Hp as <-; fields; lia].
    destruct (command_ _); [| |injection Hp as <-; fields; lia|injection Hp as <-; fields; lia].
    + fields. destruct (_ >? _); [by injection Hp as <-|]. destruct (_ <=? _)%nat; [by injection Hp as <-|]. injection Hp as <-. fields.
      rewrite sum_list_with_app. simpl. fields. lia.
    + destruct (remove_name _ _ _) as [names p]. destruct (p =? 0); injection Hp as <-; fields; rewrite ?E, ?Epc; fields; lia.
  - destruct (e_par s) as [|m] eqn:E; [done|]. injection Hp as <-. fields. lia.
  - injection Hp as <-. fields. lia.
  - injection Hp as <-. fields. lia.
  - destruct (Nat.leb_spec M j); [injection Hp as <-; fields; lia|]. case_match; injection Hp as <-; fields; lia.
  - injection Hp as <-. fields. lia.
  - injection Hp as <-. pose proof (sum_alter (e_sems s) j). fields. lia.
  - destruct (e_par s) as [|m] eqn:E; [done|]. injection Hp as <-. fields. lia.
  - specialize (Hw eq_refl). assert (Z.to_nat (final + 2 - e_i s) = S (Z.to_nat (final + 2 - (e_i s + 1)))) as E by lia.
    case_match; injection Hp as <-; fields; rewrite ?E, ?Epc; fields; lia.
  - repeat case_match; injection Hp as <-; fields; lia || done.
  - injection Hp as <-. fields. lia.
  - injection Hp as <-. pose proof (sum_alter (e_sems s) j). fields. lia.
  - specialize (Hw eq_refl). assert (Z.to_nat (final + 2 - e_i s) = S (Z.to_nat (final + 2 - (e_i s + 1)))) as E by lia.
    destruct (e_par s) as [|m] eqn:Em; [done|]. injection Hp as <-. fields. rewrite ?E. lia.
  - injection Hp as <-. fields. lia.
  - injection Hp as <-. fields. lia.
  - destruct (Nat.ltb_spec j M); injection Hp as <-; [pose proof (sum_alter (e_sems s) j)|]; fields; lia.
  - specialize (Hr n eq_refl). destruct (e_names s !! n) as [[p q]|] eqn:En; [|injection Hp as <-; fields; lia].
    pose proof (lookup_lt_Some _ _ _ En). unfold MAX_CHILDREN in *. repeat case_match; simplify_eq; fields; lia.
Qed.

Lemma inv_work s s' : inv s -> estep M commands final text pid s s' -> (work s' < work s)%nat.
Proof.
  intros Hi Hs. pose proof (inv_estep s s' Hi Hs) as Hi'. destruct Hs as [r1 r2 _ _ Hp|n Hk]; [by eapply par_work|by eapply kid_work].
Qed.

Abbreviation run := (rtc (estep M commands final text pid)).

Lemma inv_run s : final >= -1 -> run (einit M) s -> inv s.
Proof.
  intros Hf Hr. assert (Hgen : forall x y, run x y -> inv x -> inv y); [|by eapply Hgen, inv_init].
  clear Hf Hr s. induction 1 as [|x y z Hxy _ IH]; intros Hi; [done|]. by eapply IH, inv_estep.
Qed.


End sim.

(** * Runs *)

(** A schedule: the parent if it can run, who draws 0, or else the first child
    that can. *)
Section schedule.
Context (M : nat) (commands : Z -> opcommand) (final : Z) (text : list bytes) (pid : nat -> Z).
Fixpoint first_kid (ns : list nat) (s : est) : option est :=
  match ns with [] => None | n :: ns => match kid_step M pid n s with Some s' => Some s' | None => first_kid ns s end end.
Definition next_step (s : est) : option est :=
  match par_step M commands final text pid 0 0 s with Some s' => Some s' | None => first_kid (seq 0 (length (e_kids s))) s end.
Fixpoint exec (fuel : nat) (s : est) : est :=
  match fuel with
  | O => s
  | S fuel => match next_step s with Some s' => exec fuel s' | None => s end
  end.

Lemma first_kid_step ns s s' : first_kid ns s = Some s' -> exists n, kid_step M pid n s = Some s'.
Proof. induction ns as [|n ns IH]; simpl; [done|]. destruct (kid_step M pid n s) eqn:E; [intros [= <-]; by exists n|done]. Qed.

Lemma exec_run fuel s : rtc (estep M commands final text pid) s (exec fuel s).
Proof.
  revert s. induction fuel as [|fuel IH]; intros s; simpl; [apply rtc_refl|]. unfold next_step.
  destruct (par_step M commands final text pid 0 0 s) as [s1|] eqn:E; [|destruct (first_kid _ s) as [s1|] eqn:Ek; [|apply rtc_refl]].
  - eapply rtc_l; [by apply (step_parent _ _ _ _ _ s s1 0 0)|apply IH].
  - apply first_kid_step in Ek as [n Ek]. eapply rtc_l; [by apply (step_kid _ _ _ _ _ s s1 n)|apply IH].
Qed.
End schedule.

Definition demo_pid (n : nat) : Z := Z.of_nat n + 100.
Definition demo_text : list bytes := [str "hello"].

(** C1 starts, C2 starts, C1 terminates, then EXIT. *)
Definition demo (i : Z) : opcommand :=
  if i =? 0 then Op 1 CStart true else if i =? 1 then Op 2 CStart true else
  if i =? 2 then Op 1 CTerm true else if i =? 3 then Op 0 CExit true else no_command.

Lemma demo_ok : config_ok 2 demo 3.
Proof.
  split.
  - intros k Hk. destruct k as [|[|[|[|k]]]]; (reflexivity || lia).
  - intros k Hk Hc. destruct k as [|[|[|[|k]]]]; try discriminate Hc; try lia; (split; [split; by vm_compute|]; split; [vm_compute; set_solver|vm_compute; lia]).
  - intros k Hk Hc. destruct k as [|[|[|[|k]]]]; try discriminate Hc; try lia. split; by vm_compute.
  - intros k Hk. destruct k as [|[|[|[|[|k]]]]]; try lia; vm_compute; lia.
Qed.

Lemma demo_pid_inj n m : demo_pid n = demo_pid m -> n = m.
Proof. unfold demo_pid. lia. Qed.

Definition demo_run (fuel : nat) : est := exec 2 demo 3 demo_text demo_pid fuel (einit 2).



(** The same with a child named C0. *)
Definition demo_zero (i : Z) : opcommand :=
  if i =? 0 then Op 0 CStart true else if i =? 1 then Op 1 CStart true else
  if i =? 2 then Op 1 CTerm true else if i =? 3 then Op 0 CExit true else no_command.
Definition zero_run : est := exec 2 demo_zero 3 demo_text demo_pid 200 (einit 2).

(** The configuration reader takes the name C0, and 0 is also what the table
    of children holds for a child that has left: with C0 active and another
    child gone, the parent posts the semaphore of an empty slot and waits for
    ever, as does the child. *)
Theorem name_zero_deadlock :
  rtc (estep 2 demo_zero 3 demo_text demo_pid) (einit 2) zero_run /\ e_pc zero_run = PTalkWait /\
  (exists k, e_kids zero_run !! 0%nat = Some k /\ k_pc k = KWait 0) /\
  forall s', ~ estep 2 demo_zero 3 demo_text demo_pid zero_run s'.
Proof.
  split; [apply exec_run|]. split; [by vm_compute|]. split; [eexists; split; [vm_compute; reflexivity|done]|]. intros s' [r1 r2 _ _ H|n H].
  - vm_compute in H. discriminate H.
  - destruct n as [|[|n]]; vm_compute in H; discriminate H.
Qed.
