(* ===== verification/Grep.v ===== *)
(** The pattern matcher of user/grep.c against the language of the pattern.

    Strings are their bytes before the NUL.  [matchstar] receives the
    continuation [matchhere(re, .)]: the two C functions call each other. *)

From S2P Require Import Prelude.
Local Open Scope Z_scope.

Module Grep.

(** '^', '*', '$' and '.' *)
Definition CARET : Z := 94.
Definition STAR : Z := 42.
Definition DOLLAR : Z := 36.
Definition DOT : Z := 46.

(** * Code *)

(** [do if(matchhere(re, text)) return 1; while( *text != '\0' && ( *text++ == c || c == '.'))] *)
Fixpoint matchstar (here : bytes -> bool) (c : Z) (text : bytes) : bool :=
  here text ||
  match text with
  | [] => false
  | t :: text => ((t =? c) || (c =? DOT)) && matchstar here c text
  end.

Fixpoint matchhere (re text : bytes) : bool :=
  match re with
  | [] => true
  | c :: re1 =>
      let single :=
        if (c =? DOLLAR) && bool_decide (re1 = []) then bool_decide (text = [])
        else match text with
             | t :: text => ((c =? DOT) || (c =? t)) && matchhere re1 text
             | [] => false
             end in
      match re1 with
      | s :: re2 => if s =? STAR then matchstar (matchhere re2) c text else single
      | [] => single
      end
  end.

(** [do if(matchhere(re, text)) return 1; while( *text++ != '\0')] *)
Fixpoint match_any (re text : bytes) : bool :=
  matchhere re text || match text with [] => false | _ :: text => match_any re text end.

Definition match_ (re text : bytes) : bool :=
  match re with
  | c :: re1 => if c =? CARET then matchhere re1 text else match_any re text
  | [] => match_any re text
  end.

(** * Reference: the language of a pattern *)

Inductive item := One (c : Z) | Many (c : Z).

(** The items of a pattern, and whether it ends with [$]. *)
Fixpoint parse (re : bytes) : list item * bool :=
  match re with
  | [] => ([], false)
  | c :: re1 =>
      let single := if (c =? DOLLAR) && bool_decide (re1 = []) then ([], true)
                    else let (l, e) := parse re1 in (One c :: l, e) in
      match re1 with
      | s :: re2 => if s =? STAR then let (l, e) := parse re2 in (Many c :: l, e) else single
      | [] => single
      end
  end.

(** [.] stands for any character. *)
Definition stands (c t : Z) : Prop := c = DOT \/ c = t.

Fixpoint language (l : list item) (w : bytes) : Prop :=
  match l with
  | [] => w = []
  | One c :: l => exists t w', w = t :: w' /\ stands c t /\ language l w'
  | Many c :: l => exists a w', w = a ++ w' /\ Forall (stands c) a /\ language l w'
  end.

(** The pattern [re] without its [^] matches the text from position [pre] on. *)
Definition found_at (re pre text : bytes) : Prop :=
  exists w post, text = pre ++ w ++ post /\ language (parse re).1 w /\
    ((parse re).2 = true -> post = []).

Lemma stands_spec c t : ((c =? DOT) || (c =? t)) = true <-> stands c t.
Proof. unfold stands. rewrite orb_true_iff, !Z.eqb_eq. done. Qed.
Lemma stands_spec' c t : ((t =? c) || (c =? DOT)) = true <-> stands c t.
Proof. unfold stands. rewrite orb_true_iff, !Z.eqb_eq. naive_solver. Qed.

Lemma matchstar_spec here c text :
  matchstar here c text = true <-> exists a rest, text = a ++ rest /\ Forall (stands c) a /\ here rest = true.
Proof.
  induction text as [|t text IH]; simpl; rewrite orb_true_iff.
  - split; [intros [H|]; [|done]; by exists [], []|].
    intros (a & rest & E & _ & H). symmetry in E. apply app_eq_nil in E as [-> ->]. auto.
  - rewrite andb_true_iff, IH, stands_spec'. split.
    + intros [H|(Ht & a & rest & -> & Ha & H)]; [by exists [], (t :: text)|].
      exists (t :: a), rest. auto.
    + intros ([|x a] & rest & E & Ha & H); simplify_eq/=; [by left|right].
      apply Forall_cons in Ha as [Hx Ha]. eauto 10.
Qed.

(** The prefixes [matchhere] accepts. *)
Definition prefix_in (p : list item * bool) (text : bytes) : Prop :=
  exists w post, text = w ++ post /\ language p.1 w /\ (p.2 = true -> post = []).

Lemma prefix_one c l e text :
  prefix_in (One c :: l, e) text <-> exists t text', text = t :: text' /\ stands c t /\ prefix_in (l, e) text'.
Proof.
  split.
  - intros (w & post & -> & (t & w' & -> & Ht & Hw) & He). exists t, (w' ++ post). split; [done|]. split; [done|].
    by exists w', post.
  - intros (t & text' & -> & Ht & w & post & -> & Hw & He). exists (t :: w), post. split; [done|]. split; [|done].
    simpl. eauto.
Qed.
Lemma prefix_many c l e text :
  prefix_in (Many c :: l, e) text <-> exists a rest, text = a ++ rest /\ Forall (stands c) a /\ prefix_in (l, e) rest.
Proof.
  split.
  - intros (w & post & -> & (a & w' & -> & Ha & Hw) & He). exists a, (w' ++ post). rewrite app_assoc.
    split; [done|]. split; [done|]. by exists w', post.
  - intros (a & rest & -> & Ha & w & post & -> & Hw & He). exists (a ++ w), post. rewrite app_assoc.
    split; [done|]. split; [|done]. simpl. eauto.
Qed.

Lemma matchhere_spec re text : matchhere re text = true <-> prefix_in (parse re) text.
Proof.
  remember (length re) as n eqn:Hn. assert (Hle : (length re <= n)%nat) by lia. clear Hn.
  revert re text Hle. induction n as [|n IH]; intros [|c re1] text Hle; simpl in Hle; try lia.
  1,2: split; [intros _; by exists [], text|done].
  assert (Hsingle :
    (if (c =? DOLLAR) && bool_decide (re1 = []) then bool_decide (text = [])
     else match text with
          | t :: text => ((c =? DOT) || (c =? t)) && matchhere re1 text
          | [] => false
          end) = true <->
    prefix_in (if (c =? DOLLAR) && bool_decide (re1 = []) then ([], true)
               else let (l, e) := parse re1 in (One c :: l, e)) text).
  { destruct ((c =? DOLLAR) && _).
    - rewrite bool_decide_eq_true. split.
      + intros ->. by exists [], [].
      + intros (w & post & -> & -> & He). by rewrite He.
    - destruct (parse re1) as [l e] eqn:Ep. rewrite prefix_one. destruct text as [|t text].
      + split; [done|]. by intros (? & ? & ? & _).
      + rewrite andb_true_iff, stands_spec, IH by lia. rewrite Ep. naive_solver. }
  simpl. destruct re1 as [|s re2]; [exact Hsingle|]. destruct (s =? STAR); [|exact Hsingle].
  rewrite matchstar_spec. destruct (parse re2) as [l e] eqn:Ep. rewrite prefix_many.
  simpl in Hle. setoid_rewrite IH; [|lia]. by rewrite Ep.
Qed.

Lemma match_any_spec re text :
  match_any re text = true <-> exists pre rest, text = pre ++ rest /\ prefix_in (parse re) rest.
Proof.
  induction text as [|t text IH]; simpl; rewrite orb_true_iff, matchhere_spec.
  - split; [intros [H|]; [|done]; by exists [], []|].
    intros (pre & rest & E & H). symmetry in E. apply app_eq_nil in E as [-> ->]. auto.
  - rewrite IH. split.
    + intros [H|(pre & rest & -> & H)]; [by exists [], (t :: text)|by exists (t :: pre), rest].
    + intros ([|x pre] & rest & E & H); simplify_eq/=; [by left|right; eauto].
Qed.

(** C32: match() accepts a text exactly when a part of it is in the language of the
    pattern: from its start if the pattern begins with ^, up to its end if the
    pattern ends with $. *)
Theorem match_language (re text : bytes) :
  match_ re text = true <->
  exists pre, match re with
              | c :: re1 => if c =? CARET then pre = [] /\ found_at re1 pre text else found_at re pre text
              | [] => found_at re pre text
              end.
Proof.
  assert (Hany : match_any re text = true <-> exists pre, found_at re pre text).
  { rewrite match_any_spec. unfold found_at, prefix_in. split.
    - intros (pre & rest & -> & w & post & -> & Hw). exists pre, w, post. split; [done|exact Hw].
    - intros (pre & w & post & -> & Hw). exists pre, (w ++ post). split; [done|]. exists w, post. split; [done|exact Hw]. }
  destruct re as [|c re1]; [exact Hany|]. simpl. destruct (c =? CARET); [|exact Hany].
  rewrite matchhere_spec. unfold found_at, prefix_in. split.
  - intros (w & post & -> & Hw). exists []. split; [done|]. exists w, post. split; [done|exact Hw].
  - intros (pre & -> & w & post & -> & Hw). exists w, post. split; [done|exact Hw].
Qed.
End Grep.
