(* ===== verification/PrintfProps.v ===== *)
(** What the kernel's printf prints for a number, and when its digit buffer is
    too small. *)

From S2P Require Import Prelude BufCache BufSpec KState KThread Printf CString Ulib.
From Stdlib Require Import Ascii.
Local Open Scope Z_scope.

(** * Reading digits back *)

Definition digit_value (c : Z) : Z := if c <=? 57 then c - 48 else c - 87.
(** Least significant digit first, as in [buf]. *)
Fixpoint rev_value (base : Z) (l : bytes) : Z :=
  match l with
  | [] => 0
  | c :: l => digit_value c + base * rev_value base l
  end.
(** A number as printed, with its sign. *)
Definition read_number (base : Z) (out : bytes) : Z :=
  match out with
  | c :: l => if c =? chr "-" then - rev_value base (rev l) else rev_value base (rev out)
  | [] => 0
  end.

Lemma digit_value_digits d : 0 <= d < 16 ->
  digit_value (byte_at digits d) = d /\ byte_at digits d <> chr "-".
Proof.
  intros H. assert (Hd : d ∈ seqZ 0 16) by (apply elem_of_seqZ; lia). revert d Hd H.
  apply (Forall_forall (fun d => 0 <= d < 16 -> digit_value (byte_at digits d) = d /\ byte_at digits d <> chr "-")).
  repeat constructor; by vm_compute.
Qed.

Section digits.
Variable base : Z.
Hypothesis Hbase : 2 <= base <= 16.

Lemma digit_loop_value n x : 0 <= x < 2 ^ Z.of_nat n -> (0 < n)%nat ->
  rev_value base (digit_loop n digits x base) = x.
Proof.
  revert x. induction n as [|n IH]; intros x Hx Hn; [lia|].
  assert (Hm : 0 <= x mod base < base) by (apply Z.mod_pos_bound; lia).
  pose proof (Z.div_mod x base ltac:(lia)) as Hdm.
  cbn [digit_loop rev_value]. rewrite (proj1 (digit_value_digits (x mod base) ltac:(lia))).
  destruct (Z.eqb_spec (x / base) 0) as [E|E]; simpl.
  - rewrite E in Hdm. lia.
  - assert (Hq : 0 <= x / base) by (apply Z.div_pos; lia).
    rewrite Nat2Z.inj_succ, Z.pow_succ_r in Hx by lia.
    rewrite IH; [lia| |destruct n; [simpl in Hx|]; nia]. split; [done|]. nia.
Qed.

(** The number of digits. *)
Lemma digit_loop_length n x k : 0 <= x < 2 ^ Z.of_nat n -> (0 < n)%nat -> (0 < k)%nat ->
  (length (digit_loop n digits x base) <= k)%nat <-> x < base ^ Z.of_nat k.
Proof.
  revert x k. induction n as [|n IH]; intros x k Hx Hn Hk; [lia|].
  pose proof (Z.div_mod x base ltac:(lia)) as Hdm.
  assert (Hm : 0 <= x mod base < base) by (apply Z.mod_pos_bound; lia).
  assert (Hq : 0 <= x / base) by (apply Z.div_pos; lia).
  destruct k as [|k]; [lia|]. rewrite Nat2Z.inj_succ, Z.pow_succ_r by lia.
  assert (Hp : 1 <= base ^ Z.of_nat k) by (pose proof (Z.pow_pos_nonneg base (Z.of_nat k)); lia).
  cbn [digit_loop length]. destruct (Z.eqb_spec (x / base) 0) as [E|E]; simpl.
  - split; [nia|lia].
  - rewrite Nat2Z.inj_succ, Z.pow_succ_r in Hx by lia.
    destruct k as [|k].
    + split; [|nia]. destruct n as [|n]; [simpl in Hx; nia|]. simpl. lia.
    + rewrite <- Nat.succ_le_mono, IH; [nia| |destruct n; [simpl in Hx; nia|lia]|lia]. split; [done|nia].
Qed.

Lemma digit_loop_no_sign n x : Forall (fun c => c <> chr "-") (digit_loop n digits x base).
Proof.
  revert x. induction n as [|n IH]; intros x; [constructor|]. cbn [digit_loop].
  assert (Hm : 0 <= x mod base < base) by (apply Z.mod_pos_bound; lia).
  constructor; [apply digit_value_digits; lia|]. destruct (negb _); [apply IH|constructor].
Qed.

Lemma read_plain l : l <> [] -> Forall (fun c => c <> chr "-") l -> read_number base (rev l) = rev_value base l.
Proof.
  intros Hne Hl. rewrite <- (rev_involutive l) at 2. assert (Hr : Forall (fun c => c <> chr "-") (rev l)) by (by apply List.Forall_rev).
  destruct (rev l) as [|c r] eqn:E; [by destruct l as [|? l]; [|simpl in E; destruct (rev l)]|].
  apply Forall_cons in Hr as [Hc _]. unfold read_number. by rewrite (proj2 (Z.eqb_neq _ _) Hc).
Qed.
End digits.

(** The number printed: the argument itself when it is printed as signed, its
    64-bit two's complement otherwise. *)
Definition shown (xx : Z) (sign : bool) : Z := if sign then xx else u64 xx.
(** Room for the digits: one of the 16 bytes may go to the sign. *)
Definition room (xx : Z) (sign : bool) : nat := if sign && (xx <? 0) then 15 else 16.

(** C36: printint prints a 64-bit number so that reading the output back in the same
    base gives the number, INT64_MIN included, and overruns its 16-byte buffer
    exactly when the digits do not fit. *)
Theorem printint_spec (xx base : Z) (sign : bool) :
  2 <= base <= 16 -> - 2 ^ 63 <= xx < 2 ^ 63 ->
  match printint xx base sign with
  | Some out => read_number base out = shown xx sign /\ Z.abs (shown xx sign) < base ^ Z.of_nat (room xx sign)
  | None => base ^ Z.of_nat (room xx sign) <= Z.abs (shown xx sign)
  end.
Proof.
  intros Hb Hx. unfold printint, room, shown, from_buf.
  set (neg := sign && (xx <? 0)). set (x := if neg then u64 (- xx) else u64 xx).
  assert (Hx64 : 0 <= x < 2 ^ Z.of_nat 64) by (unfold x; destruct neg; apply Z.mod_pos_bound; lia).
  assert (Habs : x = Z.abs (if sign then xx else u64 xx)).
  { unfold x, neg. destruct sign; simpl; [|symmetry; apply Z.abs_eq, Z.mod_pos_bound; lia].
    destruct (Z.ltb_spec xx 0); rewrite u64_small by lia; lia. }
  pose proof (digit_loop_value base Hb 64 x Hx64 ltac:(lia)) as Hval.
  pose proof (digit_loop_no_sign base Hb 64 x) as Hns.
  pose proof (digit_loop_length base Hb 64 x) as Hlen.
  assert (Hne : digit_loop 64 digits x base <> []) by (cbn [digit_loop]; done).
  rewrite <- Habs. clearbody x. revert Hlen Hval Hns Hne. generalize (digit_loop 64 digits x base) as l.
  intros l Hlen Hval Hns Hne. destruct neg eqn:En.
  - rewrite length_app, Nat.add_comm. change (length [chr "-"] + length l)%nat with (S (length l)).
    specialize (Hlen 15%nat Hx64 ltac:(lia) ltac:(lia)).
    destruct (Nat.leb_spec (S (length l)) 16) as [H|H].
    + split; [|apply Hlen; lia]. rewrite rev_app_distr. simpl. rewrite rev_involutive, Hval, Habs.
      unfold neg in En. apply andb_true_iff in En as [-> En%Z.ltb_lt]. lia.
    + assert (~ x < base ^ Z.of_nat 15) by (rewrite <- Hlen; lia). lia.
  - rewrite app_nil_r. specialize (Hlen 16%nat Hx64 ltac:(lia) ltac:(lia)).
    destruct (Nat.leb_spec (length l) 16) as [H|H].
    + split; [|by apply Hlen]. rewrite read_plain, Hval, Habs by done.
      unfold neg in En. destruct sign; simpl in *; [apply Z.ltb_ge in En; lia|].
      apply Z.abs_eq, Z.mod_pos_bound. lia.
    + assert (~ x < base ^ Z.of_nat 16) by (rewrite <- Hlen; lia). lia.
Qed.

Lemma printint_spec_witness :
  match printint (- 2 ^ 63) 16 false with
  | Some out => read_number 16 out = 2 ^ 63 /\ Z.abs (shown (- 2 ^ 63) false) < 16 ^ Z.of_nat (room (- 2 ^ 63) false)
  | None => False
  end.
Proof. pose proof (printint_spec (- 2 ^ 63) 16 false ltac:(lia) ltac:(lia)) as H. vm_compute in H |- *. exact H. Defined.

Lemma printint_overruns xx base :
  2 <= base <= 16 -> base ^ 16 <= u64 xx -> printint xx base false = None.
Proof.
  intros Hb Hx. unfold printint, from_buf. cbn [andb]. rewrite app_nil_r.
  assert (H64 : 0 <= u64 xx < 2 ^ Z.of_nat 64) by (apply Z.mod_pos_bound; lia).
  pose proof (digit_loop_length base Hb 64 (u64 xx) 16 H64 ltac:(lia) ltac:(lia)) as Hl.
  destruct (Nat.leb_spec (length (digit_loop 64 digits (u64 xx) base)) 16) as [H|]; [|done].
  apply Hl in H. change (Z.of_nat 16) with 16 in H. lia.
Qed.

(** The kernel's [%u] is broken for every unsigned int from 2^31 up: the
    argument is fetched as an int and sign-extended to 64 bits, and its 20
    digits overrun the 16-byte buffer of printint. *)
Theorem printf_unsigned_overruns (z : Z) :
  2 ^ 31 <= z < 2 ^ 32 -> format (str "%u") [VInt z] = None.
Proof.
  intros Hz. assert (Hi : i64 (i32 z) = z - 2 ^ 32).
  { unfold i32. rewrite <- (Z.mod_unique_pos (z + 2 ^ 31) (2 ^ 32) 1 (z + 2 ^ 31 - 2 ^ 32)) by lia.
    unfold i64. rewrite Z.mod_small; lia. }
  assert (Hp : kernel_int (i32 z) 10 false = None).
  { unfold kernel_int. rewrite Hi. apply printint_overruns; [lia|].
    unfold u64. rewrite <- (Z.mod_unique_pos (z - 2 ^ 32) (2 ^ 64) (-1) (z - 2 ^ 32 + 2 ^ 64)) by lia. lia. }
  change (format (str "%u") [VInt z]) with
    ('(out, ap, i) ← ('(out, ap) ← (out ← kernel_int (i32 z) 10 false; Some (out, [] : list vararg)); Some (out, ap, 0%nat));
     rest ← printf_loop 2 (drop i []) ap; Some (out ++ rest)).
  by rewrite Hp.
Qed.

Lemma printf_unsigned_overruns_witness : format (str "%u") [VInt 3000000000] = None.
Proof. apply (printf_unsigned_overruns 3000000000). lia. Defined.

(** * printf and atoi of user programs *)

Lemma user_digit d : 0 <= d < 10 -> byte_at user_digits d = 48 + d.
Proof.
  intros H. assert (Hd : d ∈ seqZ 0 10) by (apply elem_of_seqZ; lia). revert d Hd H.
  apply (Forall_forall (fun d => 0 <= d < 10 -> byte_at user_digits d = 48 + d)). repeat constructor; by vm_compute.
Qed.

Lemma user_digits_length k x : length (digit_loop k user_digits x 10) = length (digit_loop k digits x 10).
Proof. revert x. induction k as [|k IH]; intros x; [done|]. cbn [digit_loop length]. by destruct (negb _); [rewrite IH|]. Qed.

(** The decimal digits of an [int] fit the buffer. *)
Lemma user_printint_some z : is_Some (user_printint z 10 true).
Proof.
  unfold user_printint, from_buf. rewrite length_app, user_digits_length.
  assert (Hx : forall x, (length (digit_loop 64 digits (u32 x) 10) <= 10)%nat).
  { intros x. assert (0 <= u32 x < 2 ^ 32) by (apply Z.mod_pos_bound; lia). apply (digit_loop_length 10); lia. }
  assert (Hle : (length (digit_loop 64 digits (if true && (i32 z <? 0)%Z then u32 (- i32 z) else u32 (i32 z)) 10) <= 10)%nat)
    by (destruct (true && _); apply Hx).
  rewrite (proj2 (Nat.leb_le _ _)); [by eexists|]. destruct (true && (i32 z <? 0)); cbn [length]; lia.
Qed.

(** [atoi] along the digits of [x]. *)
Lemma atoi_digits k m s x fuel : 0 <= x < 2 ^ Z.of_nat k -> (0 < k)%nat -> x < 2 ^ 31 - 48 ->
  Ulib.holds m s (rev (digit_loop k user_digits x 10)) ->
  Ulib.atoi (length (digit_loop k user_digits x 10) + fuel) m s 0 =
  Ulib.atoi fuel m (s + Z.of_nat (length (digit_loop k user_digits x 10))) x.
Proof.
  revert x fuel. induction k as [|k IH]; intros x fuel Hx Hk Hmax Hh; [lia|]. cbn [digit_loop] in *.
  pose proof (Z.div_mod x 10 ltac:(lia)) as Hdm. assert (Hm : 0 <= x mod 10 < 10) by (apply Z.mod_pos_bound; lia).
  rewrite user_digit in * by done.
  assert (Hone : forall fuel a n, n * 10 = x - x mod 10 -> m a = 48 + x mod 10 -> Ulib.atoi (S fuel) m a n = Ulib.atoi fuel m (a + 1) x).
  { intros f a n Hn Ha. cbn [Ulib.atoi]. rewrite Ha, (proj2 (Z.leb_le _ _)), (proj2 (Z.leb_le _ _)) by lia. simpl.
    rewrite (proj2 (Z.ltb_lt _ _)) by lia. f_equal. lia. }
  destruct (Z.eqb_spec (x / 10) 0) as [E|E]; cbn [negb length rev app] in *.
  - destruct Hh as [Ha _]. rewrite Hone by lia. done.
  - assert (Hq : 0 <= x / 10) by (apply Z.div_pos; lia). rewrite Nat2Z.inj_succ, Z.pow_succ_r in Hx by lia.
    apply Ulib.holds_app in Hh as [Hh [Ha _]]. rewrite length_rev in Ha. rewrite Nat.add_succ_comm, IH;
      [|nia|destruct k; [simpl in Hx; nia|lia]|nia|done].
    rewrite Hone by (done || lia). f_equal. lia.
Qed.

(** What a user program prints with %d for a number from 0 to INT_MAX - 48,
    [atoi] reads back; above that the sum of [atoi] overflows. *)
Theorem atoi_printf (n : Z) :
  0 <= n < 2 ^ 31 - 48 ->
  exists out, user_printint n 10 true = Some out /\
    forall m s fuel, Ulib.cstr m s out -> (length out < fuel)%nat -> Ulib.atoi fuel m s 0 = Done n.
Proof.
  intros Hn. unfold user_printint. rewrite i32_small by lia. rewrite (proj2 (Z.ltb_ge n 0)) by lia. simpl andb.
  rewrite app_nil_r, u32_small by lia. unfold from_buf.
  assert (Hlen : (length (digit_loop 64 user_digits n 10) <= 10)%nat).
  { rewrite user_digits_length. apply (digit_loop_length 10); lia. }
  rewrite (proj2 (Nat.leb_le _ _)) by lia. eexists. split; [done|]. intros m s fuel (Hh & H0 & _) Hf. rewrite length_rev in *.
  replace fuel with (length (digit_loop 64 user_digits n 10) + S (fuel - S (length (digit_loop 64 user_digits n 10))))%nat by lia.
  rewrite atoi_digits; [|lia|lia|lia|done]. cbn [Ulib.atoi]. by rewrite H0.
Qed.

Lemma atoi_printf_witness : exists out, user_printint 2047 10 true = Some out /\ out = str "2047" /\
  forall m s fuel, Ulib.cstr m s out -> (length out < fuel)%nat -> Ulib.atoi fuel m s 0 = Done 2047.
Proof.
  destruct (atoi_printf 2047) as (out & H1 & H2); [vm_compute; split; [discriminate|reflexivity]|].
  exists out. split; [exact H1|]. split; [|exact H2]. vm_compute in H1. injection H1 as <-. reflexivity.
Defined.
