(* ===== verification/Userland.v ===== *)
(** User programs and the system calls they make.

    A program is an interaction tree over the system calls of user/user.h, so
    that a loop that never ends (user/init.c) is a program too.  [run] executes
    one on a kernel, a function from a call and a state to an answer and a state;
    [uwp] is the total-correctness logic on it, and [FileSys] is what the
    programs of this library rely on: what open, read, write, fstat and close do
    to the files.  The formatted output of user/printf.c and [stat] of
    user/ulib.c are at this level. *)

From S2P Require Import Prelude CString Fs Sysfile Printf.
From stdpp Require Import gmap.
From ITree Require Import ITree Eq.Shallow.
Local Open Scope Z_scope.

(** * Programs *)

(** A pointer argument stands for what it points to: the path, the bytes to
    write, and what read or fstat stores ([None] is the answer -1). *)
Variant call : Type -> Type :=
| Open (path : bytes) (mode : Z) : call Z
| Close (fd : Z) : call Z
| Read (fd n : Z) : call (option bytes)
| Write (fd : Z) (b : bytes) : call Z
| Fstat (fd : Z) : call (option stat)
| Mknod (path : bytes) (major minor : Z) : call Z
| Mkdir (path : bytes) : call Z
| Link (old new : bytes) : call Z
| Unlink (path : bytes) : call Z
| Dup (fd : Z) : call Z
| Fork : call Z
| Exec (path : bytes) (argv : list bytes) : call Z
| Wait : call Z
| Kill (pid : Z) : call Z
| Sleep (n : Z) : call Z.
Variant uevent : Type -> Type :=
| Call {X} (c : call X) : uevent X
| Exit (status : Z) : uevent Empty_set.

Definition prog : Type -> Type := itree uevent.
#[export] Instance prog_ret : MRet prog := fun A x => Ret x.
#[export] Instance prog_bind : MBind prog := fun A B f m => ITree.bind m f.

Definition sys {X} (c : call X) : prog X := ITree.trigger (Call c).
Definition do_exit {A} (status : Z) : prog A := ITree.bind (ITree.trigger (Exit status)) (fun x : Empty_set => match x with end).
Definition ploop {I R} (body : I -> prog (I + R)) (i : I) : prog R := ITree.iter body i.
Fixpoint pfor {A} (l : list A) (f : A -> prog unit) : prog unit :=
  match l with
  | [] => mret tt
  | x :: l => f x;; pfor l f
  end.
(** A computation of the program itself; where it does not return, neither does
    the program. *)
Definition compute {A} (x : outcome A) : prog A := match x with Done a => mret a | _ => ITree.spin end.

(** user/printf.c *)
Definition putc (fd c : Z) : prog unit := sys (Write fd [c]);; mret tt.
Definition fprintf (fd : Z) (fmt : bytes) (ap : list vararg) : prog unit :=
  match vprintf fmt ap with
  | Some out => pfor out (putc fd)
  | None => ITree.spin
  end.
Definition uprintf (fmt : bytes) (ap : list vararg) : prog unit := fprintf 1 fmt ap.
Definition line (s : string) : bytes := str s ++ [10].
Definition VText (s : bytes) : vararg := VStr (Some s).

(** [stat] of user/ulib.c *)
Definition ustat (n : bytes) : prog (option stat) :=
  fd ← sys (Open n O_RDONLY);
  if fd <? 0 then mret None else
  r ← sys (Fstat fd);
  sys (Close fd);;
  mret r.
(** [start], which the kernel enters. *)
Definition start (main : prog unit) : prog unit := main;; do_exit 0.

(** * Execution *)

(** A kernel. *)
Class Kernel (S : Type) := handle : forall X, call X -> S -> X * S.
Arguments handle {S _} {X} c s.

Section run.
Context {S : Type} `{!Kernel S}.

(** [inr z] is [exit(z)]; [n] bounds the steps. *)
Fixpoint run (n : nat) {R} (t : prog R) (s : S) : outcome ((R + Z) * S) :=
  match n with
  | O => OutOfFuel
  | Datatypes.S n =>
      match observe t with
      | RetF r => Done (inl r, s)
      | TauF t => run n t s
      | VisF e k =>
          match e in uevent X return (X -> prog R) -> outcome ((R + Z) * S) with
          | Call c => fun k => let '(x, s) := handle c s in run n (k x) s
          | Exit z => fun _ => Done (inr z, s)
          end k
      end
  end.

Definition runs {R} (t : prog R) (s : S) (r : R + Z) (s' : S) : Prop := exists n, run n t s = Done (r, s').

Lemma observe_bind' {A B} (t : prog A) (k : A -> prog B) :
  observe (ITree.bind t k) =
    match observe t with
    | RetF r => observe (k r)
    | TauF t => TauF (ITree.bind t k)
    | VisF e h => VisF e (fun x => ITree.bind (h x) k)
    end.
Proof. rewrite Shallow.observe_bind. by destruct (observe t). Qed.

Lemma run_exit n {A B} (t : prog A) (k : A -> prog B) s z s' :
  run n t s = Done (inr z, s') -> run n (ITree.bind t k) s = Done (inr z, s').
Proof.
  revert t s. induction n as [|n IH]; intros t s H; [done|]. cbn [run] in *. rewrite observe_bind'.
  destruct (observe t) as [r|t'|X e h]; [done|by apply IH|]. destruct e as [X c|z']; [|by injection H as <- <-].
  destruct (handle c s) as [x s1]. by apply IH.
Qed.

Lemma run_seq n m {A B} (t : prog A) (k : A -> prog B) s a s1 r s' :
  run n t s = Done (inl a, s1) -> run m (k a) s1 = Done (r, s') -> runs (ITree.bind t k) s r s'.
Proof.
  revert t s. induction n as [|n IH]; intros t s H Hk; [done|]. cbn [run] in H.
  destruct (observe t) as [x|t'|X e h] eqn:E.
  - injection H as -> ->. exists m. destruct m; [done|]. cbn [run] in *. by rewrite observe_bind', E.
  - destruct (IH _ _ H Hk) as [j Hj]. exists (Datatypes.S j). cbn [run]. by rewrite observe_bind', E.
  - destruct e as [X c|z']; [|done]. destruct (handle c s) as [x s2] eqn:Ec. destruct (IH _ _ H Hk) as [j Hj].
    exists (Datatypes.S j). cbn [run]. by rewrite observe_bind', E, Ec.
Qed.

Lemma runs_iter {I R} (body : I -> prog (I + R)) i s r s' :
  runs (ITree.bind (body i) (fun x => match x with inl j => ploop body j | inr r => mret r end)) s r s' ->
  runs (ploop body i) s r s'.
Proof.
  intros [n H]. enough (Hg : forall n (t : prog (I + R)) s,
    run n (ITree.bind t (fun x => match x with inl j => ploop body j | inr r => mret r end)) s = Done (r, s') ->
    runs (ITree.bind t (fun x => match x with inl j => Tau (ploop body j) | inr r => Ret r end)) s r s').
  { apply Hg in H as [m H]. exists m. destruct m; [done|]. cbn [run] in *. exact H. }
  clear H i n s. intros n. induction n as [|n IH]; intros t s H; [done|]. cbn [run] in H. rewrite observe_bind' in H.
  destruct (observe t) as [x|t'|X e h] eqn:E.
  - destruct x as [j|x].
    + exists (Datatypes.S (Datatypes.S n)). cbn [run]. rewrite observe_bind', E. exact H.
    + exists (Datatypes.S n). cbn [run]. rewrite observe_bind', E. exact H.
  - apply IH in H as [m H]. exists (Datatypes.S m). cbn [run]. by rewrite observe_bind', E.
  - destruct e as [X c|z].
    + destruct (handle c s) as [x s2] eqn:Ec. apply IH in H as [m H]. exists (Datatypes.S m). cbn [run]. by rewrite observe_bind', E, Ec.
    + exists 1%nat. cbn [run]. by rewrite observe_bind', E.
Qed.
End run.

(** * Traces *)

(** What a program did: a call and its answer, or exit. *)
Inductive obs := | Did {X} (c : call X) (x : X) | Exited (status : Z).

(** The sequences of a program, for any answers, in [n] steps; with [Some r] it
    has returned. *)
Fixpoint trace (n : nat) {R} (t : prog R) (l : list obs) (r : option R) : Prop :=
  match n with
  | O => l = [] /\ r = None
  | S n =>
      match observe t with
      | RetF x => l = [] /\ r = Some x
      | TauF t => trace n t l r
      | VisF e k =>
          match e in uevent X return (X -> prog R) -> Prop with
          | Call c => fun k => exists x l', l = Did c x :: l' /\ trace n (k x) l' r
          | Exit z => fun _ => l = [Exited z] /\ r = None
          end k
      end
  end.

Section automaton.
(** A safety automaton: [None] is a violation. *)
Context {A : Type} (delta : A -> obs -> option A).

Fixpoint accept (a : A) (l : list obs) : option A :=
  match l with
  | [] => Some a
  | x :: l => a ← delta a x; accept a l
  end.

(** Every sequence is accepted, and those that return end in [Q]. *)
Definition safe {R} (t : prog R) (a : A) (Q : R -> A -> Prop) : Prop :=
  forall n l r, trace n t l r -> exists a', accept a l = Some a' /\ (forall x, r = Some x -> Q x a').

(** The next step. *)
Lemma safe_step {R} (t : prog R) a (Q : R -> A -> Prop) :
  match observe t with
  | RetF x => Q x a
  | TauF t => safe t a Q
  | VisF e k =>
      match e in uevent X return (X -> prog R) -> Prop with
      | Call c => fun k => forall x, exists a', delta a (Did c x) = Some a' /\ safe (k x) a' Q
      | Exit z => fun _ => is_Some (delta a (Exited z))
      end k
  end <-> safe t a Q.
Proof.
  split.
  - intros Ht n l r H. destruct n as [|n]; [destruct H as [-> ->]; by exists a|]. cbn [trace] in H.
    destruct (observe t) as [x|t'|X e k].
    + destruct H as [-> ->]. exists a. split; [done|]. by intros y [= ->].
    + by eapply Ht.
    + destruct e as [X c|z].
      * destruct H as (x & l' & -> & H). destruct (Ht x) as (a1 & Ed & Hk). cbn. rewrite Ed. by eapply Hk.
      * destruct H as [-> ->]. destruct Ht as [a' Ed]. exists a'. cbn. by rewrite Ed.
  - intros Ht. destruct (observe t) as [x|t'|X e k] eqn:E.
    + destruct (Ht 1%nat [] (Some x)) as (a' & [= <-] & HQ); [cbn; by rewrite E|]. by apply HQ.
    + intros n l r H. apply (Ht (S n)). cbn. by rewrite E.
    + destruct e as [X c|z].
      * intros x. destruct (Ht 1%nat [Did c x] None) as (a' & Ea & _); [cbn; rewrite E; by exists x, []|].
        cbn in Ea. destruct (delta a (Did c x)) as [a1|] eqn:Ed; [|done]. exists a1. split; [done|]. intros n l r H.
        destruct (Ht (S n) (Did c x :: l) r) as (a2 & Ea2 & HQ); [cbn; rewrite E; by exists x, l|]. cbn in Ea2. rewrite Ed in Ea2. by exists a2.
      * destruct (Ht 1%nat [Exited z] None) as (a' & Ea & _); [cbn; by rewrite E|]. cbn in Ea. by destruct (delta a (Exited z)).
Qed.

Lemma safe_ret {R} (x : R) a (Q : R -> A -> Prop) : Q x a -> safe (mret x) a Q.
Proof. intros HQ. by apply safe_step. Qed.
Lemma safe_exit {R} z a (Q : R -> A -> Prop) : is_Some (delta a (Exited z)) -> safe (do_exit z) a Q.
Proof. intros Hz. by apply safe_step. Qed.
Lemma safe_sys {X} (c : call X) a (Q : X -> A -> Prop) :
  (forall x, exists a', delta a (Did c x) = Some a' /\ Q x a') -> safe (sys c) a Q.
Proof. intros Hc. apply safe_step. cbn. intros x. destruct (Hc x) as (a' & Ed & HQ). exists a'. split; [done|]. by apply safe_ret. Qed.

(** Induction on the steps of the whole program. *)
Lemma safe_bind {X R} (t : prog X) (k : X -> prog R) a (Q : R -> A -> Prop) :
  safe t a (fun x a' => safe (k x) a' Q) -> safe (t ≫= k) a Q.
Proof.
  intros Ht n. revert t a Ht. induction n as [|n IH]; intros t a Ht l r H; [destruct H as [-> ->]; by exists a|].
  apply safe_step in Ht. cbn [trace] in H. unfold mbind, prog_bind in H. rewrite observe_bind' in H.
  destruct (observe t) as [x|t'|Y e h].
  - by apply (Ht (S n)).
  - by eapply (IH t').
  - destruct e as [Y c|z].
    + destruct H as (x & l' & -> & H). destruct (Ht x) as (a1 & Ed & Hk). cbn. rewrite Ed. by eapply (IH (h x)).
    + destruct H as [-> ->]. destruct Ht as [a' Ed]. exists a'. cbn. by rewrite Ed.
Qed.
Lemma safe_loop {I R} (body : I -> prog (I + R)) (J : I -> A -> Prop) i a (Q : R -> A -> Prop) : J i a ->
  (forall i a, J i a -> safe (body i) a (fun r a' => match r with inl j => J j a' | inr x => Q x a' end)) ->
  safe (ploop body i) a Q.
Proof.
  intros HJ Hb n. assert (Hg : forall (u : prog (I + R)) a, safe u a (fun r a' => match r with inl j => J j a' | inr x => Q x a' end) ->
    forall l r, trace n (ITree.bind u (fun x => match x with inl j => Tau (ploop body j) | inr x => Ret x end)) l r ->
    exists a', accept a l = Some a' /\ forall x, r = Some x -> Q x a').
  { clear HJ i a. induction n as [|n IH]; intros u a Hu l r H; [destruct H as [-> ->]; by exists a|].
    apply safe_step in Hu. cbn [trace] in H. rewrite observe_bind' in H. destruct (observe u) as [[j|x]|u'|Y e h].
    - cbn in H. destruct n as [|n]; [destruct H as [-> ->]; by exists a|]. apply (IH (body j) a); [by apply Hb|exact H].
    - destruct H as [-> ->]. exists a. split; [done|]. by intros y [= ->].
    - by eapply IH.
    - destruct e as [Y c|z].
      + destruct H as (x & l' & -> & H). destruct (Hu x) as (a1 & Ed & Hk). cbn. rewrite Ed. by eapply IH.
      + destruct H as [-> ->]. destruct Hu as [a' Ed]. exists a'. cbn. by rewrite Ed. }
  intros l r H. destruct n as [|n]; [destruct H as [-> ->]; by exists a|]. apply (Hg (body i) a); [by apply Hb|exact H].
Qed.
(** Writes that the automaton does not look at. *)
Lemma safe_fprintf fd fmt ap a (Q : unit -> A -> Prop) : (forall b x, delta a (Did (Write fd b) x) = Some a) ->
  Q tt a -> safe (fprintf fd fmt ap) a Q.
Proof.
  intros Hw HQ. unfold fprintf. destruct (vprintf fmt ap) as [out|].
  - induction out as [|c out IH]; [by apply safe_ret|]. apply safe_bind, safe_bind, safe_sys. intros x. exists a. split; [done|].
    by apply safe_ret.
  - intros n. induction n as [|n IH]; intros l r H; [destruct H as [-> ->]; by exists a|]. by apply IH.
Qed.
End automaton.

(** What a program does on a kernel. *)
Fixpoint calls {S : Type} `{!Kernel S} (n : nat) {R} (t : prog R) (s : S) : list obs * option R :=
  match n with
  | O => ([], None)
  | Datatypes.S n =>
      match observe t with
      | RetF x => ([], Some x)
      | TauF t => calls n t s
      | VisF e k =>
          match e in uevent X return (X -> prog R) -> list obs * option R with
          | Call c => fun k => let '(x, s) := handle c s in let '(l, r) := calls n (k x) s in (Did c x :: l, r)
          | Exit z => fun _ => ([Exited z], None)
          end k
      end
  end.
Lemma calls_trace {S : Type} `{!Kernel S} n {R} (t : prog R) (s : S) : trace n t (calls n t s).1 (calls n t s).2.
Proof.
  revert t s. induction n as [|n IH]; intros t s; [done|]. cbn [trace calls]. destruct (observe t) as [x|t'|X e k]; [done|apply IH|].
  destruct e as [X c|z]; [|done]. destruct (handle c s) as [x s']. specialize (IH (k x) s'). destruct (calls n (k x) s') as [l r].
  by exists x, l.
Qed.

(** * Files *)

(** What a program sees of the file system: the files it may open by name, with
    what fstat says of them; its open descriptors and what is left to read; what
    went to the standard output and to the standard error. *)
Record fview := FView {
  v_files : gmap bytes (stat * bytes);
  v_open : gmap Z (stat * bytes);
  v_out : bytes;
  v_err : bytes;
}.
Definition set_open (o : gmap Z (stat * bytes)) (v : fview) : fview := FView (v_files v) o (v_out v) (v_err v).
Definition print_out (b : bytes) (v : fview) : fview := FView (v_files v) (v_open v) (v_out v ++ b) (v_err v).
Definition print_err (b : bytes) (v : fview) : fview := FView (v_files v) (v_open v) (v_out v) (v_err v ++ b).

(** What the programs rely on: open gives a new descriptor or, when there is no
    such file, -1; read takes some of the bytes asked for, at least one unless
    the file has ended; write takes all. *)
Class FileSys (S : Type) `{!Kernel S} := {
  view : S -> fview;
  fs_open s p : exists fd s', handle (Open p O_RDONLY) s = (fd, s') /\
    match v_files (view s) !! p with
    | Some f => 3 <= fd /\ v_open (view s) !! fd = None /\ view s' = set_open (<[fd := f]> (v_open (view s))) (view s)
    | None => fd = -1 /\ view s' = view s
    end;
  fs_read s fd st rest n : v_open (view s) !! fd = Some (st, rest) -> 0 <= n ->
    exists k s', (k <= Z.to_nat n)%nat /\ (0 < n -> (1 <= k)%nat) /\ handle (Read fd n) s = (Some (take k rest), s') /\
      view s' = set_open (<[fd := (st, drop k rest)]> (v_open (view s))) (view s);
  fs_fstat s fd st rest : v_open (view s) !! fd = Some (st, rest) ->
    exists s', handle (Fstat fd) s = (Some st, s') /\ view s' = view s;
  fs_close s fd : is_Some (v_open (view s) !! fd) ->
    exists s', handle (Close fd) s = (0, s') /\ view s' = set_open (delete fd (v_open (view s))) (view s);
  fs_write_out s b : exists s', handle (Write 1 b) s = (Z.of_nat (length b), s') /\ view s' = print_out b (view s);
  fs_write_err s b : exists s', handle (Write 2 b) s = (Z.of_nat (length b), s') /\ view s' = print_err b (view s);
}.

Section uwp.
Context {S : Type} `{FileSys S}.

(** The program ends, and [Q] holds of its result and the view then. *)
Definition uwp {R} (t : prog R) (v : fview) (Q : R + Z -> fview -> Prop) : Prop :=
  forall s, view s = v -> exists r s', runs t s r s' /\ Q r (view s').

Lemma uwp_mono {R} (t : prog R) v (Q Q' : R + Z -> fview -> Prop) : uwp t v Q -> (forall r v, Q r v -> Q' r v) -> uwp t v Q'.
Proof. intros Ht HQ s Hs. destruct (Ht s Hs) as (r & s' & ? & ?). exists r, s'. auto. Qed.
Lemma uwp_ret {R} (x : R) v (Q : R + Z -> fview -> Prop) : Q (inl x) v -> uwp (mret x) v Q.
Proof. intros HQ s <-. exists (inl x), s. split; [by exists 1%nat|done]. Qed.
Lemma uwp_exit {R} z v (Q : R + Z -> fview -> Prop) : Q (inr z) v -> uwp (do_exit z) v Q.
Proof. intros HQ s <-. exists (inr z), s. split; [by exists 1%nat|done]. Qed.
Lemma uwp_bind {A B} (t : prog A) (k : A -> prog B) v (Q : B + Z -> fview -> Prop) :
  uwp t v (fun r v => match r with inl a => uwp (k a) v Q | inr z => Q (inr z) v end) -> uwp (t ≫= k) v Q.
Proof.
  intros Ht s Hs. destruct (Ht s Hs) as ([a|z] & s1 & [n Hn] & Hk).
  - destruct (Hk s1 eq_refl) as (r & s2 & [m Hm] & HQ). exists r, s2. split; [by eapply run_seq|done].
  - exists (inr z), s1. split; [exists n; by apply run_exit|done].
Qed.
Lemma uwp_loop {I R} (body : I -> prog (I + R)) i v (Q : R + Z -> fview -> Prop) :
  uwp (body i) v (fun r v => match r with
    | inl (inl j) => uwp (ploop body j) v Q | inl (inr x) => Q (inl x) v | inr z => Q (inr z) v end) ->
  uwp (ploop body i) v Q.
Proof.
  intros Hb s Hs. eassert (uwp (body i ≫= _) v Q) as Hw.
  { apply (uwp_bind _ (fun x => match x with inl j => ploop body j | inr r => mret r end)).
    eapply uwp_mono; [exact Hb|]. intros [[j|x]|z] v'; [done|apply uwp_ret|done]. }
  destruct (Hw s Hs) as (r & s' & Hr & HQ). exists r, s'. split; [by apply runs_iter|done].
Qed.
Lemma uwp_compute {A} (x : outcome A) a v (Q : A + Z -> fview -> Prop) : x = Done a -> Q (inl a) v -> uwp (compute x) v Q.
Proof. intros ->. apply uwp_ret. Qed.

(** A call. *)
Lemma uwp_sys {X} (c : call X) v (Q : X + Z -> fview -> Prop) :
  (forall s, view s = v -> exists x s', handle c s = (x, s') /\ Q (inl x) (view s')) -> uwp (sys c) v Q.
Proof.
  intros Hc s Hs. destruct (Hc s Hs) as (x & s' & E & HQ). exists (inl x), s'. split; [|done]. exists 2%nat. cbn. by rewrite E.
Qed.
Lemma uwp_open p v (Q : Z + Z -> fview -> Prop) :
  match v_files v !! p with
  | Some f => forall fd, 3 <= fd -> v_open v !! fd = None -> Q (inl fd) (set_open (<[fd := f]> (v_open v)) v)
  | None => Q (inl (-1)) v
  end -> uwp (sys (Open p O_RDONLY)) v Q.
Proof.
  intros HQ. apply uwp_sys. intros s <-. destruct (fs_open s p) as (fd & s' & E & Hf). exists fd, s'. split; [done|].
  destruct (v_files (view s) !! p); [destruct Hf as (? & ? & ->)|destruct Hf as [-> ->]]; auto.
Qed.
Lemma uwp_read fd n v st rest (Q : option bytes + Z -> fview -> Prop) : v_open v !! fd = Some (st, rest) -> 0 <= n ->
  (forall l rest', rest = l ++ rest' -> (length l <= Z.to_nat n)%nat -> (0 < n -> l = [] -> rest = []) ->
     Q (inl (Some l)) (set_open (<[fd := (st, rest')]> (v_open v)) v)) ->
  uwp (sys (Read fd n)) v Q.
Proof.
  intros Hfd Hn HQ. apply uwp_sys. intros s <-. destruct (fs_read s fd st rest n Hfd Hn) as (k & s' & Hk & H1 & E & Hv).
  exists (Some (take k rest)), s'. split; [done|]. rewrite Hv. apply HQ.
  - by rewrite take_drop.
  - rewrite length_take. lia.
  - intros H0 Hl. specialize (H1 H0). destruct rest; [done|]. destruct k; [lia|done].
Qed.
Lemma uwp_fstat fd v st rest (Q : option stat + Z -> fview -> Prop) : v_open v !! fd = Some (st, rest) ->
  Q (inl (Some st)) v -> uwp (sys (Fstat fd)) v Q.
Proof.
  intros Hfd HQ. apply uwp_sys. intros s <-. destruct (fs_fstat s fd st rest Hfd) as (s' & E & Hv). exists (Some st), s'. by rewrite Hv.
Qed.
Lemma uwp_close fd v (Q : Z + Z -> fview -> Prop) : is_Some (v_open v !! fd) ->
  Q (inl 0) (set_open (delete fd (v_open v)) v) -> uwp (sys (Close fd)) v Q.
Proof.
  intros Hfd HQ. apply uwp_sys. intros s <-. destruct (fs_close s fd Hfd) as (s' & E & Hv). exists 0, s'. by rewrite Hv.
Qed.
Lemma uwp_write b v (Q : Z + Z -> fview -> Prop) : Q (inl (Z.of_nat (length b))) (print_out b v) -> uwp (sys (Write 1 b)) v Q.
Proof. intros HQ. apply uwp_sys. intros s <-. destruct (fs_write_out s b) as (s' & E & Hv). eexists _, s'. by rewrite Hv. Qed.
Lemma uwp_write_err b v (Q : Z + Z -> fview -> Prop) : Q (inl (Z.of_nat (length b))) (print_err b v) -> uwp (sys (Write 2 b)) v Q.
Proof. intros HQ. apply uwp_sys. intros s <-. destruct (fs_write_err s b) as (s' & E & Hv). eexists _, s'. by rewrite Hv. Qed.

Lemma print_out_app a b v : print_out b (print_out a v) = print_out (a ++ b) v.
Proof. unfold print_out. cbn. by rewrite app_assoc. Qed.
Lemma print_err_app a b v : print_err b (print_err a v) = print_err (a ++ b) v.
Proof. unfold print_err. cbn. by rewrite app_assoc. Qed.
Lemma print_out_nil v : print_out [] v = v.
Proof. unfold print_out. rewrite app_nil_r. by destruct v. Qed.
Lemma print_err_nil v : print_err [] v = v.
Proof. unfold print_err. rewrite app_nil_r. by destruct v. Qed.

(** Formatted output. *)
Lemma uwp_printf fmt ap out v (Q : unit + Z -> fview -> Prop) : vprintf fmt ap = Some out ->
  Q (inl tt) (print_out out v) -> uwp (uprintf fmt ap) v Q.
Proof.
  intros E. unfold uprintf, fprintf. rewrite E. clear E. revert v. induction out as [|c out IH]; intros v HQ.
  - apply uwp_ret. by rewrite print_out_nil in HQ.
  - apply uwp_bind, uwp_bind, uwp_write, uwp_ret. apply IH. by rewrite print_out_app.
Qed.
Lemma uwp_eprintf fmt ap out v (Q : unit + Z -> fview -> Prop) : vprintf fmt ap = Some out ->
  Q (inl tt) (print_err out v) -> uwp (fprintf 2 fmt ap) v Q.
Proof.
  intros E. unfold fprintf. rewrite E. clear E. revert v. induction out as [|c out IH]; intros v HQ.
  - apply uwp_ret. by rewrite print_err_nil in HQ.
  - apply uwp_bind, uwp_bind, uwp_write_err, uwp_ret. apply IH. by rewrite print_err_app.
Qed.

(** [stat] gives what fstat says of the file, and leaves nothing open. *)
Lemma uwp_ustat p v (Q : option stat + Z -> fview -> Prop) : Q (inl (fst <$> v_files v !! p)) v -> uwp (ustat p) v Q.
Proof.
  intros HQ. apply uwp_bind, uwp_open. destruct (v_files v !! p) as [[st b]|]; [|by apply uwp_ret].
  intros fd Hfd Hn. cbn beta iota. rewrite (proj2 (Z.ltb_ge fd 0)) by lia.
  apply uwp_bind. eapply uwp_fstat; [apply lookup_insert_eq|]. apply uwp_bind, uwp_close; [cbn; rewrite lookup_insert_eq; eauto|].
  apply uwp_ret. cbn. rewrite delete_insert_id by done. by destruct v.
Qed.
End uwp.

(** * A file system *)

(** One that satisfies [FileSys]: the i-th call, if it is a read, takes at most
    [1 + cut i] bytes. *)
Record simple_state := UState { us_view : fview; us_calls : nat }.
Definition next_fd (o : gmap Z (stat * bytes)) : Z := map_fold (fun k _ n => Z.max (k + 1) n) 3 o.

Lemma next_fd_spec o : 3 <= next_fd o /\ o !! next_fd o = None.
Proof.
  assert (H : 3 <= next_fd o /\ forall k, is_Some (o !! k) -> k < next_fd o).
  { unfold next_fd. apply (map_fold_weak_ind (fun n (o : gmap Z (stat * bytes)) => 3 <= n /\ forall k, is_Some (o !! k) -> k < n)).
    - split; [lia|]. intros k [x Hx]. by rewrite lookup_empty in Hx.
    - intros i x m r Hi [H3 H]. split; [lia|]. intros k Hk. destruct (decide (k = i)) as [->|Hne]; [lia|].
      rewrite lookup_insert_ne in Hk by done. specialize (H k Hk). lia. }
  destruct H as [H3 H]. split; [done|]. destruct (o !! next_fd o) eqn:E; [|done]. specialize (H (next_fd o)). rewrite E in H.
  specialize (H ltac:(by eexists)). lia.
Qed.

Definition simple_call (cut : nat -> nat) {X} (c : call X) (s : simple_state) : X * simple_state :=
  let v := us_view s in
  let keep {X} (x : X) := (x, UState v (S (us_calls s))) in
  let give {X} (x : X) (v : fview) := (x, UState v (S (us_calls s))) in
  match c with
  | Open p _ =>
      match v_files v !! p with
      | Some f => let fd := next_fd (v_open v) in give fd (set_open (<[fd := f]> (v_open v)) v)
      | None => keep (-1)
      end
  | Read fd n =>
      match v_open v !! fd with
      | Some (st, rest) =>
          let k := Nat.min (Z.to_nat n) (S (cut (us_calls s))) in
          give (Some (take k rest)) (set_open (<[fd := (st, drop k rest)]> (v_open v)) v)
      | None => keep None
      end
  | Fstat fd => keep (fst <$> v_open v !! fd)
  | Close fd => if decide (is_Some (v_open v !! fd)) then give 0 (set_open (delete fd (v_open v)) v) else keep (-1)
  | Write fd b =>
      if fd =? 1 then give (Z.of_nat (length b)) (print_out b v)
      else if fd =? 2 then give (Z.of_nat (length b)) (print_err b v) else keep (-1)
  | _ => keep (-1)
  end.

Section simple.
Variable cut : nat -> nat.
#[local] Instance simple_kernel : Kernel simple_state := fun X c s => simple_call cut c s.
#[local] Program Instance simple_files : FileSys simple_state := {| view := us_view |}.
Next Obligation.
  intros s p. unfold handle, simple_kernel, simple_call. destruct (v_files (us_view s) !! p) eqn:E.
  - eexists _, _. split; [done|]. destruct (next_fd_spec (v_open (us_view s))). done.
  - eexists _, _. by split.
Qed.
Next Obligation.
  intros s fd st rest n Hfd Hn. unfold handle, simple_kernel, simple_call. rewrite Hfd.
  eexists _, _. split; [|split; [|split; [done|done]]]; lia.
Qed.
Next Obligation. intros s fd st rest Hfd. unfold handle, simple_kernel, simple_call. rewrite Hfd. by eexists. Qed.
Next Obligation. intros s fd Hfd. unfold handle, simple_kernel, simple_call. rewrite decide_True by done. by eexists. Qed.
Next Obligation. intros s b. by eexists. Qed.
Next Obligation. intros s b. by eexists. Qed.
End simple.
