(* ===== verification/Programs.v ===== *)
(** Programs that read files to their end: user/wc.c, user/cat.c and user/grep.c
    (its matcher is in Grep), on any file system that satisfies [FileSys],
    whatever pieces read returns a file in. *)

From S2P Require Import Prelude CString Ulib Grep Fs Sysfile Printf PrintfProps Userland.
From stdpp Require Import gmap.
Local Open Scope Z_scope.

(** * Code *)

(** ** wc *)

Record counts := Counts { c_l : Z; c_w : Z; c_c : Z; c_in : bool }.
(** [strchr(" \r\t\n\v", c)] *)
Definition blank (c : Z) : bool := bool_decide (c ∈ [32; 13; 9; 10; 11]).
Definition wc_byte (b : Z) (s : counts) : counts :=
  let c := i32 (c_c s + 1) in
  let l := if b =? 10 then i32 (c_l s + 1) else c_l s in
  if blank b then Counts l (c_w s) c false
  else if c_in s then Counts l (c_w s) c true
  else Counts l (i32 (c_w s + 1)) c true.
(** The loop ends with [None] when read fails. *)
Definition wc_body (fd : Z) (s : counts) : prog (counts + option counts) :=
  b ← sys (Read fd 512);
  mret (match b with
        | None => inr None
        | Some [] => inr (Some s)
        | Some buf => inl (fold_left (fun s b => wc_byte b s) buf s)
        end).
Definition wc (fd : Z) (name : bytes) : prog unit :=
  r ← ploop (wc_body fd) (Counts 0 0 0 false);
  match r with
  | None => uprintf (line "wc: read error") [];; do_exit 1
  | Some s => uprintf (line "%d %d %d %s") [VInt (c_l s); VInt (c_w s); VInt (c_c s); VText name]
  end.

(** [main] on the arguments after [argv[0]], of which there are [argc - 1]. *)
Definition wc_file (a : bytes) : prog unit :=
  fd ← sys (Open a O_RDONLY);
  if fd <? 0 then uprintf (line "wc: cannot open %s") [VText a];; do_exit 1 else
  wc fd a;;
  sys (Close fd);;
  mret tt.
Definition wc_main (args : list bytes) : prog unit :=
  match args with
  | [] => wc 0 [];; do_exit 0
  | _ => pfor args wc_file;; do_exit 0
  end.

(** ** cat *)

Definition cat_body (fd : Z) (_ : unit) : prog (unit + unit) :=
  b ← sys (Read fd 512);
  match b with
  | None => fprintf 2 (line "cat: read error") [];; do_exit 1
  | Some [] => mret (inr tt)
  | Some buf =>
      n ← sys (Write 1 buf);
      if negb (n =? Z.of_nat (length buf)) then fprintf 2 (line "cat: write error") [];; do_exit 1
      else mret (inl tt)
  end.
Definition cat (fd : Z) : prog unit := ploop (cat_body fd) tt.

Definition cat_file (a : bytes) : prog unit :=
  fd ← sys (Open a O_RDONLY);
  if fd <? 0 then fprintf 2 (line "cat: cannot open %s") [VText a];; do_exit 1 else
  cat fd;;
  sys (Close fd);;
  mret tt.
Definition cat_main (args : list bytes) : prog unit :=
  match args with
  | [] => cat 0;; do_exit 0
  | _ => pfor args cat_file;; do_exit 0
  end.

(** ** grep *)

(** The bytes before the NUL at [a]. *)
Fixpoint string_at (fuel : nat) (m : mem) (a : Z) : outcome bytes :=
  match fuel with
  | O => OutOfFuel
  | S fuel => if m a =? 0 then Done [] else l ← string_at fuel m (a + 1); Done (m a :: l)
  end.
(** The bytes from [a] on that write takes. *)
Definition bytes_at (m : mem) (a n : Z) : bytes := (fun i => m (a + i)) <$> seqZ 0 n.
(** read stores what it returns. *)
Fixpoint store (m : mem) (a : Z) (l : bytes) : mem :=
  match l with
  | [] => m
  | c :: l => store (<[a := c]> m) (a + 1) l
  end.

Section grep.
(** The address of [char buf[1024]]; the memory is the state of the program. *)
Variable buf : Z.

(** [while((q = strchr(p, '\n')) != 0)] *)
Definition lines_body (pattern : bytes) (s : mem * Z) : prog (mem * Z + mem * Z) :=
  let '(m, p) := s in
  q ← compute (Ulib.strchr 1024 m p 10);
  if q =? 0 then mret (inr (m, p)) else
  let m := <[q := 0]> m in
  l ← compute (string_at 1024 m p);
  if Grep.match_ pattern l then
    let m := <[q := 10]> m in
    sys (Write 1 (bytes_at m p (q + 1 - p)));;
    mret (inl (m, q + 1))
  else mret (inl (m, q + 1)).
(** [while((n = read(fd, buf+m, sizeof(buf)-m-1)) > 0)], [k] the variable [m]. *)
Definition grep_body (pattern : bytes) (fd : Z) (s : mem * Z) : prog (mem * Z + mem) :=
  let '(m, k) := s in
  b ← sys (Read fd (1024 - k - 1));
  match b with
  | None | Some [] => mret (inr m)
  | Some l =>
      let m := store m (buf + k) l in
      let k := k + Z.of_nat (length l) in
      let m := <[buf + k := 0]> m in
      '(m, p) ← ploop (lines_body pattern) (m, buf);
      mret (inl (if k >? 0 then let k := k - (p - buf) in (Ulib.memmove m buf p k, k) else (m, k)))
  end.
Definition grep (pattern : bytes) (fd : Z) (m : mem) : prog mem := ploop (grep_body pattern fd) (m, 0).

(** [for(i = 2; i < argc; i++)] *)
Fixpoint grep_files (pattern : bytes) (args : list bytes) (m : mem) : prog unit :=
  match args with
  | [] => mret tt
  | a :: args =>
      fd ← sys (Open a O_RDONLY);
      if fd <? 0 then uprintf (line "grep: cannot open %s") [VText a];; do_exit 1 else
      m ← grep pattern fd m;
      sys (Close fd);;
      grep_files pattern args m
  end.
Definition grep_main (args : list bytes) (m : mem) : prog unit :=
  match args with
  | [] => fprintf 2 (line "usage: grep pattern [file ...]") [];; do_exit 1
  | [pattern] => grep pattern 0 m;; do_exit 0
  | pattern :: args => grep_files pattern args m;; do_exit 0
  end.
End grep.

(** * wc and cat *)

Lemma i32_succ z : i32 (i32 z + 1) = i32 (z + 1).
Proof.
  unfold i32. replace ((z + 2 ^ 31) mod 2 ^ 32 - 2 ^ 31 + 1 + 2 ^ 31) with ((z + 2 ^ 31) mod 2 ^ 32 + 1) by lia.
  rewrite Zplus_mod_idemp_l. do 2 f_equal. lia.
Qed.

(** The pieces of a text between blanks: its words are those that are not empty. *)
Fixpoint pieces (text : bytes) : list bytes :=
  match text with
  | [] => [[]]
  | c :: text => if blank c then [] :: pieces text else match pieces text with p :: ps => (c :: p) :: ps | [] => [[c]] end
  end.
Definition words (text : bytes) : Z := Z.of_nat (length (filter (fun p => p <> []) (pieces text))).
Definition newlines (text : bytes) : Z := Z.of_nat (length (filter (fun c => c = 10) text)).
(** The text starts inside a word. *)
Definition in_word (text : bytes) : bool := match text with [] => false | c :: _ => negb (blank c) end.

Lemma words_cons c text : words (c :: text) =
  words text + (if blank c then 0 else if in_word text then 0 else 1).
Proof.
  unfold words. cbn [pieces]. destruct (blank c); [by rewrite filter_cons_False, Z.add_0_r by tauto|].
  destruct text as [|d text]; [done|]. cbn [in_word]. cbn [pieces]. destruct (blank d) eqn:Ed; simpl negb; cbn [pieces].
  - rewrite filter_cons_True, filter_cons_False by (done || tauto). simpl. lia.
  - destruct (pieces text) as [|p ps]; rewrite !filter_cons_True by done; simpl; lia.
Qed.

Lemma wc_fold text s a b c : c_l s = i32 a -> c_w s = i32 b -> c_c s = i32 c ->
  let s' := fold_left (fun s x => wc_byte x s) text s in
  c_l s' = i32 (a + newlines text) /\ c_w s' = i32 (b + words text - (if c_in s && in_word text then 1 else 0)) /\
  c_c s' = i32 (c + Z.of_nat (length text)).
Proof.
  revert s a b c. induction text as [|x text IH]; intros s a b c Ha Hb Hc; cbn [fold_left].
  { rewrite andb_false_r. change (newlines []) with 0. change (words []) with 0. simpl. rewrite !Z.add_0_r, Z.sub_0_r. done. }
  set (s1 := wc_byte x s).
  assert (H1 : c_l s1 = i32 (a + newlines [x])).
  { unfold s1, wc_byte. change (newlines [x]) with (Z.of_nat (length (filter (fun c => c = 10) [x]))).
    destruct (Z.eqb_spec x 10) as [->|E]; [rewrite filter_cons_True by done|rewrite filter_cons_False by done];
      destruct (blank _); [|destruct (c_in s)| |destruct (c_in s)]; simpl; rewrite Ha, ?i32_succ, ?Z.add_0_r; done. }
  assert (H2 : c_w s1 = i32 (b + (if negb (blank x) && negb (c_in s) then 1 else 0))).
  { unfold s1, wc_byte. destruct (blank x); [|destruct (c_in s)]; simpl; rewrite Hb, ?i32_succ, ?Z.add_0_r; done. }
  assert (H3 : c_c s1 = i32 (c + 1)).
  { unfold s1, wc_byte. destruct (blank x); [|destruct (c_in s)]; simpl; by rewrite Hc, i32_succ. }
  assert (H4 : c_in s1 = negb (blank x)).
  { unfold s1, wc_byte. destruct (blank x); [|destruct (c_in s)]; done. }
  destruct (IH s1 _ _ _ H1 H2 H3) as (E1 & E2 & E3). rewrite E1, E2, E3, H4, words_cons. cbn [in_word].
  split; [|split; [|simpl length; f_equal; lia]].
  - f_equal. unfold newlines. rewrite (filter_cons _ x text), (filter_cons _ x []). destruct (decide (x = 10)); simpl; lia.
  - f_equal. destruct (blank x), (c_in s), (in_word text); simpl; lia.
Qed.

Lemma i32_idem z : i32 (i32 z) = i32 z.
Proof. unfold i32. rewrite Z.sub_add, Z.mod_mod by done. done. Qed.

(** What [%d] prints. *)
Definition dec (z : Z) : bytes := default [] (user_printint (i32 z) 10 true).

Lemma dec_i32 z : dec (i32 z) = dec z.
Proof. unfold dec. by rewrite i32_idem. Qed.

Lemma vprintf_plain c fmt ap out : c <> 37 -> vprintf fmt ap = Some out -> vprintf (c :: fmt) ap = Some (c :: out).
Proof.
  intros Hc E. unfold vprintf. cbn [vprintf_loop negb]. change (chr _) with 37. rewrite (proj2 (Z.eqb_neq c 37)) by done.
  unfold vprintf in E. by rewrite E.
Qed.
Lemma vprintf_d fmt z ap out : vprintf fmt ap = Some out -> vprintf (37 :: 100 :: fmt) (VInt z :: ap) = Some (dec z ++ out).
Proof.
  intros E. unfold dec. destruct (user_printint_some (i32 z)) as [d Ed].
  change (vprintf (37 :: 100 :: fmt) (VInt z :: ap)) with
    ('(o, ap, i) ← ('(o, ap) ← (o ← user_printint (i32 z) 10 true; Some (o, ap)); Some (o, ap, 0%nat)); r ← vprintf_loop fmt false i ap; Some (o ++ r)).
  rewrite Ed. cbn. unfold vprintf in E. by rewrite E.
Qed.
Lemma vprintf_s fmt s ap out : vprintf fmt ap = Some out -> vprintf (37 :: 115 :: fmt) (VText s :: ap) = Some (s ++ out).
Proof.
  intros E. change (vprintf (37 :: 115 :: fmt) (VText s :: ap)) with (r ← vprintf fmt ap; Some (s ++ r)). by rewrite E.
Qed.
(** The output of a format with [%d] and [%s]. *)
Ltac vp :=
  lazymatch goal with |- vprintf ?f _ = _ => let l := eval vm_compute in f in change f with l end;
  repeat first [eapply vprintf_d | eapply vprintf_s | eapply vprintf_plain; [done|]]; reflexivity.

Section files.
Context {S : Type} `{FileSys S}.
Implicit Types (v : fview).

(** [fd] is open with [rest] left to read. *)
Definition reading v (fd : Z) (st : stat) (rest : bytes) : fview := set_open (<[fd := (st, rest)]> (v_open v)) v.

Lemma reading_print v fd st rest b : print_out b (reading v fd st rest) = reading (print_out b v) fd st rest.
Proof. done. Qed.
Lemma uwp_reading fd n v st rest (Q : option bytes + Z -> fview -> Prop) : 0 <= n ->
  (forall l rest', rest = l ++ rest' -> (length l <= Z.to_nat n)%nat -> (0 < n -> l = [] -> rest = []) ->
     Q (inl (Some l)) (reading v fd st rest')) ->
  uwp (sys (Read fd n)) (reading v fd st rest) Q.
Proof.
  intros Hn HQ. eapply uwp_read; [apply lookup_insert_eq|done|]. intros l rest' E Hl Hend.
  unfold reading, set_open. cbn. rewrite insert_insert_eq. by apply HQ.
Qed.
(** Opening a file, and closing it after use. *)
Lemma uwp_file {A} a st text v (t : Z -> prog A) (e : prog A) Q : v_files v !! a = Some (st, text) ->
  (forall fd, v_open v !! fd = None -> uwp (t fd) (reading v fd st text) Q) ->
  uwp (fd ← sys (Open a O_RDONLY); if fd <? 0 then e else t fd) v Q.
Proof.
  intros Ha Ht. apply uwp_bind, uwp_open. rewrite Ha. intros fd Hfd Hn. rewrite (proj2 (Z.ltb_ge fd 0)) by lia. by apply Ht.
Qed.
Lemma uwp_no_file {A} a v (t : Z -> prog A) (e : prog A) Q : v_files v !! a = None ->
  uwp e v Q -> uwp (fd ← sys (Open a O_RDONLY); if fd <? 0 then e else t fd) v Q.
Proof. intros Ha He. apply uwp_bind, uwp_open. by rewrite Ha. Qed.
Lemma uwp_closing {A} fd v st rest (k : Z -> prog A) Q : v_open v !! fd = None -> uwp (k 0) v Q ->
  uwp (sys (Close fd) ≫= k) (reading v fd st rest) Q.
Proof.
  intros Hn Hk. apply uwp_bind, uwp_close; [unfold reading; cbn; rewrite lookup_insert_eq; eauto|].
  unfold reading, set_open. cbn. rewrite delete_insert_id by done. by destruct v.
Qed.

(** What a program prints that shows [show] of each file in turn, up to the
    first name that is not a file, and that name. *)
Fixpoint shown (show : bytes -> bytes -> bytes) (files : gmap bytes (stat * bytes)) (args : list bytes) : bytes * option bytes :=
  match args with
  | [] => ([], None)
  | a :: args =>
      match files !! a with
      | Some (_, text) => let '(out, e) := shown show files args in (show a text ++ out, e)
      | None => ([], Some a)
      end
  end.

Lemma uwp_pfor_files (f : bytes -> prog unit) show (complain : bytes -> fview -> fview) args v (Q : unit + Z -> fview -> Prop) :
  (forall a st text v Q, v_files v !! a = Some (st, text) -> Q (inl tt) (print_out (show a text) v) -> uwp (f a) v Q) ->
  (forall a v (Q : unit + Z -> fview -> Prop), v_files v !! a = None -> Q (inr 1) (complain a v) -> uwp (f a) v Q) ->
  (let '(out, e) := shown show (v_files v) args in
   match e with None => Q (inl tt) (print_out out v) | Some a => Q (inr 1) (complain a (print_out out v)) end) ->
  uwp (pfor args f) v Q.
Proof.
  intros Hs He. revert v. induction args as [|a args IH]; intros v HQ; cbn [pfor shown] in *.
  - apply uwp_ret. by rewrite print_out_nil in HQ.
  - apply uwp_bind. destruct (v_files v !! a) as [[st text]|] eqn:Ea.
    + eapply Hs; [done|]. apply IH. cbn. destruct (shown show (v_files v) args) as [out e]. by rewrite print_out_app.
    + eapply He; [done|]. by rewrite print_out_nil in HQ.
Qed.

(** ** wc *)

Definition wc_line (name text : bytes) : bytes :=
  dec (newlines text) ++ 32 :: dec (words text) ++ 32 :: dec (Z.of_nat (length text)) ++ 32 :: name ++ [10].

Lemma wc_line_eq name text : wc_line name text = dec (newlines text) ++ 32 :: dec (words text) ++ 32 :: dec (Z.of_nat (length text)) ++ 32 :: name ++ [10].
Proof. reflexivity. Qed.

Lemma uwp_wc_loop v fd st rest s (Q : option counts + Z -> fview -> Prop) :
  Q (inl (Some (fold_left (fun s x => wc_byte x s) rest s))) (reading v fd st []) -> uwp (ploop (wc_body fd) s) (reading v fd st rest) Q.
Proof.
  remember (length rest) as n eqn:En. revert rest s En. induction n as [n IH] using lt_wf_ind. intros rest s -> HQ.
  apply uwp_loop, uwp_bind, uwp_reading; [done|]. intros l rest' -> _ Hend. apply uwp_ret. destruct l as [|c l].
  - assert (rest' = []) as -> by (by apply Hend). done.
  - eapply IH; [|done|]; [rewrite length_app; simpl; lia|]. by rewrite fold_left_app in HQ.
Qed.

Lemma uwp_wc v fd st name text (Q : unit + Z -> fview -> Prop) :
  Q (inl tt) (reading (print_out (wc_line name text) v) fd st []) -> uwp (wc fd name) (reading v fd st text) Q.
Proof.
  intros HQ. apply uwp_bind, uwp_wc_loop.
  destruct (wc_fold text (Counts 0 0 0 false) 0 0 0) as (E1 & E2 & E3); [done..|]. cbn [c_in andb] in E2. rewrite Z.add_0_l in E1, E2, E3. rewrite Z.sub_0_r in E2.
  rewrite E1, E2, E3. eapply uwp_printf; [vp|]. rewrite reading_print. rewrite !dec_i32, <- wc_line_eq. exact HQ.
Qed.

(** However read cuts the files, [wc] prints for each argument the counts of
    newlines, words and bytes, kept in 32 bits, up to the first that cannot be
    opened, and then exits with 1. *)
Theorem wc_counts v args : args <> [] ->
  uwp (wc_main args) v (fun r v' =>
    let '(out, e) := shown wc_line (v_files v) args in
    match e with
    | None => r = inr 0 /\ v' = print_out out v
    | Some a => r = inr 1 /\ v' = print_out (out ++ str "wc: cannot open " ++ a ++ [10]) v
    end).
Proof.
  intros Ha. destruct args as [|a args]; [done|]. clear Ha. cbn [wc_main]. generalize (a :: args). clear a args. intros args.
  apply uwp_bind, (uwp_pfor_files _ wc_line (fun a v => print_out (str "wc: cannot open " ++ a ++ [10]) v)).
  - intros a st text v' Q Ha HQ. eapply uwp_file; [done|]. intros fd Hfd. apply uwp_bind, uwp_wc, uwp_closing; [done|]. by apply uwp_ret.
  - intros a v' Q Ha HQ. apply uwp_no_file; [done|]. apply uwp_bind. eapply uwp_printf; [vp|]. by apply uwp_exit.
  - destruct (shown wc_line (v_files v) args) as [out [a|]]; [by rewrite print_out_app|by apply uwp_exit].
Qed.

(** ** cat *)

Lemma uwp_cat v fd st rest (Q : unit + Z -> fview -> Prop) :
  Q (inl tt) (reading (print_out rest v) fd st []) -> uwp (cat fd) (reading v fd st rest) Q.
Proof.
  remember (length rest) as n eqn:En. revert rest v En. induction n as [n IH] using lt_wf_ind. intros rest v -> HQ.
  apply uwp_loop, uwp_bind, uwp_reading; [done|]. intros l rest' -> _ Hend. destruct l as [|c l]; cbn beta iota.
  - assert (rest' = []) as -> by (by apply Hend). apply uwp_ret. by rewrite print_out_nil in HQ.
  - apply uwp_bind, uwp_write. rewrite Z.eqb_refl. cbn [negb]. apply uwp_ret. rewrite reading_print.
    eapply IH; [|done|]; [rewrite length_app; simpl; lia|]. by rewrite print_out_app.
Qed.

(** However read cuts the files, [cat] writes their contents one after the other,
    up to the first that cannot be opened, and then exits with 1. *)
Theorem cat_prints v args : args <> [] ->
  uwp (cat_main args) v (fun r v' =>
    let '(out, e) := shown (fun _ text => text) (v_files v) args in
    match e with
    | None => r = inr 0 /\ v' = print_out out v
    | Some a => r = inr 1 /\ v' = print_err (str "cat: cannot open " ++ a ++ [10]) (print_out out v)
    end).
Proof.
  intros Ha. destruct args as [|a args]; [done|]. clear Ha. cbn [cat_main]. generalize (a :: args). clear a args. intros args.
  apply uwp_bind, (uwp_pfor_files _ (fun _ text => text) (fun a v => print_err (str "cat: cannot open " ++ a ++ [10]) v)).
  - intros a st text v' Q Ha HQ. eapply uwp_file; [done|]. intros fd Hfd. apply uwp_bind, uwp_cat, uwp_closing; [done|]. by apply uwp_ret.
  - intros a v' Q Ha HQ. apply uwp_no_file; [done|]. apply uwp_bind. eapply uwp_eprintf; [vp|]. by apply uwp_exit.
  - destruct (shown _ (v_files v) args) as [out [a|]]; [done|by apply uwp_exit].
Qed.
End files.

(** * grep *)

(** The lines of a text that end with a newline, and what follows the last. *)
Fixpoint split_lines (text : bytes) : list bytes * bytes :=
  match text with
  | [] => ([], [])
  | c :: text =>
      let '(ls, tl) := split_lines text in
      if c =? 10 then ([] :: ls, tl) else match ls with [] => ([], c :: tl) | l :: ls => ((c :: l) :: ls, tl) end
  end.
Definition unlines (ls : list bytes) : bytes := concat ((fun l => l ++ [10]) <$> ls).

Lemma split_lines_spec text ls tl : split_lines text = (ls, tl) ->
  text = unlines ls ++ tl /\ Forall (fun l => 10 ∉ l) ls /\ 10 ∉ tl.
Proof.
  revert ls tl. induction text as [|c text IH]; intros ls tl H; simpl in H; [injection H as <- <-; set_solver|].
  destruct (split_lines text) as [ls0 tl0]. destruct (IH _ _ eq_refl) as (-> & Hls & Htl). destruct (Z.eqb_spec c 10) as [->|Hc].
  - injection H as <- <-. split; [done|]. split; [constructor; [set_solver|done]|done].
  - destruct ls0 as [|l ls0]; injection H as <- <-.
    + split; [done|]. set_solver.
    + apply Forall_cons in Hls as [? ?]. split; [done|]. split; [constructor; [set_solver|done]|done].
Qed.

Lemma split_lines_app a b : split_lines (a ++ b) =
  let '(ls, tl) := split_lines a in let '(ls', tl') := split_lines (tl ++ b) in (ls ++ ls', tl').
Proof.
  induction a as [|c a IH]; simpl; [by destruct (split_lines b)|]. rewrite IH. destruct (split_lines a) as [ls tl].
  destruct (split_lines (tl ++ b)) as [ls' tl'] eqn:E. destruct (Z.eqb_spec c 10) as [->|Hc].
  - rewrite E. done.
  - destruct ls as [|l ls]; simpl; [|by rewrite E]. rewrite E, (proj2 (Z.eqb_neq c 10)) by done. by destruct ls'.
Qed.

Lemma split_lines_none tl : 10 ∉ tl -> split_lines tl = ([], tl).
Proof.
  induction tl as [|c tl IH]; intros H; simpl; [done|]. rewrite IH by set_solver. rewrite (proj2 (Z.eqb_neq c 10)) by set_solver. done.
Qed.

(** Lines that fit the buffer with their newline, up to the first that does not. *)
Fixpoint fitting (ls : list bytes) : list bytes :=
  match ls with
  | [] => []
  | l :: ls => if (length l <? 1023)%nat then l :: fitting ls else []
  end.

Lemma fitting_app ls ls' : Forall (fun l => (length l < 1023)%nat) ls -> fitting (ls ++ ls') = ls ++ fitting ls'.
Proof. induction 1 as [|l ls Hl _ IH]; simpl; [done|]. by rewrite (proj2 (Nat.ltb_lt _ _) Hl), IH. Qed.

Lemma fitting_long tl b : 10 ∉ tl -> (1023 <= length tl)%nat -> fitting (split_lines (tl ++ b)).1 = [].
Proof.
  intros Htl Hlen. destruct (split_lines (tl ++ b)) as [ls tl'] eqn:E. apply split_lines_spec in E as (E & _). destruct ls as [|l ls]; [done|].
  simpl. assert (Hl : (1023 <= length l)%nat); [|by rewrite (proj2 (Nat.ltb_ge _ _) Hl)].
  unfold unlines in E. simpl in E. rewrite <- !app_assoc in E.
  destruct (decide (length tl <= length l)%nat) as [|Hlt]; [lia|]. exfalso. apply Htl.
  apply (list_elem_of_lookup_2 _ (length l)). rewrite <- (lookup_app_l tl b) by lia. rewrite E. by apply list_lookup_middle.
Qed.

Lemma string_at_spec fuel m a l : Ulib.cstr m a l -> (length l < fuel)%nat -> string_at fuel m a = Done l.
Proof.
  revert a fuel. induction l as [|c l IH]; intros a fuel H Hf; destruct fuel as [|fuel]; simpl in Hf; try lia; simpl.
  - apply Ulib.cstr_nil in H. by rewrite H.
  - apply Ulib.cstr_cons in H as (-> & H0 & H). rewrite (proj2 (Z.eqb_neq c 0)) by done. by rewrite IH by (done || lia).
Qed.

Lemma bytes_at_spec m a l n : Ulib.holds m a l -> n = Z.of_nat (length l) -> bytes_at m a n = l.
Proof.
  intros H ->. unfold bytes_at. revert a H. induction l as [|c l IH]; intros a H; [done|]. destruct H as [<- H].
  replace (Z.of_nat (length (m a :: l))) with (Z.succ (Z.of_nat (length l))) by (simpl; lia).
  rewrite seqZ_cons by lia. cbn [fmap list_fmap]. rewrite Z.add_0_r. f_equal. rewrite <- (IH (a + 1) H) at 2.
  replace (Z.pred (Z.succ (Z.of_nat (length l)))) with (Z.of_nat (length l)) by lia. change (Z.succ 0) with (1 + 0). rewrite <- (fmap_add_seqZ 1 0). rewrite <- list_fmap_compose.
  apply list_fmap_ext. intros i x _. unfold compose. f_equal. lia.
Qed.

Lemma store_spec m a l x : store m a l x = if decide (a <= x < a + Z.of_nat (length l)) then l !!! Z.to_nat (x - a) else m x.
Proof.
  revert m a. induction l as [|c l IH]; intros m a; simpl; [by rewrite decide_False by lia|]. rewrite IH, fn_insert_cases.
  repeat case_decide; try lia; try done.
  - replace (Z.to_nat (x - a)) with (S (Z.to_nat (x - (a + 1)))) by lia. done.
  - subst x. by rewrite Z.sub_diag.
Qed.

Lemma holds_store m a l : Ulib.holds (store m a l) a l.
Proof.
  revert m a. induction l as [|c l IH]; intros m a; simpl; [done|]. split; [|apply IH].
  rewrite store_spec, decide_False by lia. apply fn_lookup_insert.
Qed.

Section grep_spec.
Context {W : Type} {KW : Kernel W} {FW : FileSys W}.
Context (buf : Z) (buf_pos : 0 < buf).
(** What [grep] is to print of these lines. *)
Definition selected (pattern : bytes) (ls : list bytes) : bytes := unlines (filter (fun l => Grep.match_ pattern l = true) ls).

Lemma uwp_lines pattern m p ls tl v (Q : mem * Z + Z -> fview -> Prop) :
  0 < p -> Ulib.holds m p (unlines ls ++ tl) -> m (p + Z.of_nat (length (unlines ls ++ tl))) = 0 ->
  0 ∉ unlines ls ++ tl -> Forall (fun l => 10 ∉ l) ls -> 10 ∉ tl -> (length (unlines ls ++ tl) < 1024)%nat ->
  (forall m', (forall x, p + Z.of_nat (length (unlines ls)) <= x -> m' x = m x) ->
     Q (inl (m', p + Z.of_nat (length (unlines ls)))) (print_out (selected pattern ls) v)) ->
  uwp (ploop (lines_body pattern) (m, p)) v Q.
Proof.
  revert m p v. induction ls as [|l ls IH]; intros m p v Hp Hh H0 Hnul Hls Htl Hlen HQ; apply uwp_loop.
  - change (unlines [] ++ tl) with tl in *. apply uwp_bind. eapply uwp_compute.
    { apply (Ulib.strchr_none m p 10 tl); [|done|lia]. split; [done|split; [done|]]. apply Forall_forall. intros x Hx ->. done. }
    apply uwp_ret. specialize (HQ m). change (length (unlines [])) with O in HQ. rewrite Z.add_0_r, print_out_nil in HQ. by apply HQ.
  - change (unlines (l :: ls)) with ((l ++ [10]) ++ unlines ls) in *. rewrite <- !app_assoc in *. change ([10] ++ unlines ls ++ tl) with (10 :: unlines ls ++ tl) in *. change ([10] ++ unlines ls) with (10 :: unlines ls) in *.
    apply Forall_cons in Hls as [Hl Hls]. rewrite length_app in Hlen, H0. simpl length in Hlen, H0.
    apply uwp_bind. eapply uwp_compute; [apply (Ulib.strchr_some m p 10 l (unlines ls ++ tl)); [done|done|set_solver|done|lia]|].
    rewrite (proj2 (Z.eqb_neq _ 0)) by lia. set (q := p + Z.of_nat (length l)). apply Ulib.holds_app in Hh as [Hhl [Hq Hh]]. fold q in Hq, Hh.
    apply uwp_bind. eapply uwp_compute; [apply (string_at_spec 1024 (<[q := 0]> m) p l); [|lia]|].
    { split; [apply Ulib.holds_insert; [lia|done]|]. split; [apply fn_lookup_insert|]. apply Forall_forall. intros x Hx ->. set_solver. }
    assert (Hrec : forall m1 out1, (forall x, q < x -> m1 x = m x) ->
      selected pattern (l :: ls) = out1 ++ selected pattern ls -> uwp (ploop (lines_body pattern) (m1, q + 1)) (print_out out1 v) Q).
    { intros m1 out1 Hm1 Eo. eapply IH; [lia| | | |done|done|lia|].
      - eapply Ulib.holds_eq; [|exact Hh]. intros x Hx. apply Hm1. lia.
      - rewrite Hm1 by lia. rewrite <- H0. f_equal. lia.
      - set_solver.
      - intros m' Hm'. rewrite print_out_app, <- Eo. rewrite length_app in HQ. simpl length in HQ. unfold q in *.
        replace (p + Z.of_nat (length l) + 1 + Z.of_nat (length (unlines ls))) with (p + Z.of_nat (length l + S (length (unlines ls)))) in * by lia.
        apply HQ. intros x Hx. rewrite Hm' by lia. apply Hm1. lia. }
    unfold selected in Hrec. rewrite filter_cons in Hrec. destruct (Grep.match_ pattern l).
    + apply uwp_bind, uwp_write, uwp_ret. apply Hrec.
      { intros x Hx. rewrite !fn_lookup_insert_ne by lia. done. }
      rewrite decide_True by done. rewrite (bytes_at_spec _ p (l ++ [10])).
      * unfold unlines. simpl. done.
      * apply Ulib.holds_app. split; [|split; [apply fn_lookup_insert|done]]. apply Ulib.holds_insert; [lia|]. apply Ulib.holds_insert; [lia|done].
      * rewrite length_app. simpl. lia.
    + apply uwp_ret. rewrite <- (print_out_nil v). apply Hrec; [intros x Hx; by rewrite fn_lookup_insert_ne by lia|]. by rewrite decide_False by done.
Qed.

Lemma lines_short ls tl : (length (unlines ls ++ tl) < 1024)%nat -> Forall (fun l => (length l < 1023)%nat) ls /\ (length ls < 1024)%nat.
Proof.
  rewrite length_app. intros H. assert (Hle : (length (unlines ls) < 1024)%nat) by lia. clear H. revert Hle.
  assert (Hg : forall n, (length (unlines ls) < n)%nat -> Forall (fun l => (length l < pred n)%nat) ls /\ (length ls < n)%nat);
    [|intros H; by apply (Hg 1024%nat)].
  induction ls as [|l ls IH]; intros n H; [split; [by apply Forall_nil|simpl in H |- *; lia]|].
  change (unlines (l :: ls)) with ((l ++ [10]) ++ unlines ls) in H. rewrite !length_app in H. simpl in H.
  destruct (IH n ltac:(lia)) as [H1 _]. destruct (IH (n - 1)%nat ltac:(lia)) as [_ H2]. split; [apply Forall_cons; split; [lia|done]|simpl; lia].
Qed.

Lemma uwp_grep_loop pattern fd v st m tl rest (Q : mem + Z -> fview -> Prop) :
  Ulib.holds m buf tl -> 10 ∉ tl -> 0 ∉ tl ++ rest -> (length tl < 1024)%nat ->
  (forall m' rest', Q (inl m') (reading (print_out (selected pattern (fitting (split_lines (tl ++ rest)).1)) v) fd st rest')) ->
  uwp (ploop (grep_body buf pattern fd) (m, Z.of_nat (length tl))) (reading v fd st rest) Q.
Proof.
  remember (length rest) as n eqn:En. revert m tl rest v En. induction n as [n IH] using lt_wf_ind.
  intros m tl rest v -> Hh Htl H0 Hlen HQ. apply uwp_loop, uwp_bind, uwp_reading; [lia|]. intros l rest' -> Hl Hend.
  assert (Hstop : l = [] -> forall m', Q (inl m') (reading v fd st rest')).
  { intros -> m'. assert (E : selected pattern (fitting (split_lines (tl ++ [] ++ rest')).1) = []).
    { destruct (decide (length tl = 1023%nat)) as [E|Hne]; [by rewrite fitting_long by (done || lia)|].
      assert (rest' = []) as -> by (apply Hend; [lia|done]). by rewrite app_nil_r, split_lines_none. }
    specialize (HQ m' rest'). by rewrite E, print_out_nil in HQ. }
  destruct l as [|c l]; [apply uwp_ret; by apply Hstop|]. clear Hstop.
  assert (Hl0 : (0 < length (c :: l))%nat) by (simpl; lia). cbv beta iota. set (l' := c :: l) in *. clearbody l'. clear c l.
  assert (Hlen' : (length (tl ++ l') < 1024)%nat) by (rewrite length_app; lia).
  rewrite app_assoc, split_lines_app in HQ. destruct (split_lines (tl ++ l')) as [ls tl'] eqn:Es. apply split_lines_spec in Es as (Es & Hls & Htl').
  set (m1 := <[buf + (Z.of_nat (length tl) + Z.of_nat (length l')) := 0]> (store m (buf + Z.of_nat (length tl)) l')).
  assert (Hh1 : Ulib.holds m1 buf (tl ++ l')).
  { apply Ulib.holds_insert; [rewrite length_app; lia|]. apply Ulib.holds_app. split; [|apply holds_store].
    eapply Ulib.holds_eq; [|exact Hh]. intros x Hx. rewrite store_spec. by rewrite decide_False by lia. }
  apply uwp_bind. apply (uwp_lines pattern m1 buf ls tl').
  - done.
  - by rewrite <- Es.
  - rewrite <- Es, length_app, Nat2Z.inj_add. apply fn_lookup_insert.
  - rewrite <- Es. rewrite app_assoc in H0. set_solver.
  - done.
  - done.
  - by rewrite <- Es.
  - intros m' Hm'. apply uwp_ret. rewrite Z.gtb_ltb, (proj2 (Z.ltb_lt _ _)) by lia.
    rewrite Es in Hh1, Hlen'. apply Ulib.holds_app in Hh1 as [_ Hh1].
    assert (Ek : Z.of_nat (length tl) + Z.of_nat (length l') - (buf + Z.of_nat (length (unlines ls)) - buf) = Z.of_nat (length tl')).
    { apply (f_equal length) in Es. rewrite !length_app in Es. lia. }
    rewrite Ek, reading_print. eapply IH; [|done| |done| | |].
    + rewrite length_app. lia.
    + eapply Ulib.holds_moved; [intros x; apply Ulib.umemmove_moved|]. eapply Ulib.holds_eq; [|exact Hh1]. intros x Hx. apply Hm'. lia.
    + rewrite app_assoc, Es in H0. set_solver.
    + rewrite length_app in Hlen'. lia.
    + intros m2 rest2. destruct (split_lines (tl' ++ rest')) as [ls' tl'']. cbn [fst] in *. rewrite fitting_app in HQ by (by eapply lines_short).
      rewrite print_out_app. unfold selected, unlines in *. by rewrite filter_app, fmap_app, concat_app in HQ.
Qed.

(** The lines [grep] prints of a file. *)
Definition grep_lines (pattern _ text : bytes) : bytes := selected pattern (fitting (split_lines text).1).

Lemma uwp_grep pattern fd v st m text (Q : mem + Z -> fview -> Prop) : 0 ∉ text ->
  (forall m' rest, Q (inl m') (reading (print_out (grep_lines pattern [] text) v) fd st rest)) ->
  uwp (grep buf pattern fd m) (reading v fd st text) Q.
Proof. intros H0 HQ. apply (uwp_grep_loop pattern fd v st m [] text Q); [done|set_solver|done|simpl; lia|done]. Qed.

Lemma uwp_grep_files pattern args m v (Q : unit + Z -> fview -> Prop) :
  (forall a st text, a ∈ args -> v_files v !! a = Some (st, text) -> 0 ∉ text) ->
  (let '(out, e) := shown (grep_lines pattern) (v_files v) args in
   match e with
   | None => Q (inl tt) (print_out out v)
   | Some a => Q (inr 1) (print_out (out ++ str "grep: cannot open " ++ a ++ [10]) v)
   end) ->
  uwp (grep_files buf pattern args m) v Q.
Proof.
  revert v m. induction args as [|a args IH]; intros v m H0 HQ; cbn [grep_files shown] in *.
  - apply uwp_ret. by rewrite print_out_nil in HQ.
  - destruct (v_files v !! a) as [[st text]|] eqn:Ea.
    + eapply uwp_file; [done|]. intros fd Hfd. apply uwp_bind, uwp_grep; [by eapply H0; [left|]|]. intros m' rest.
      apply uwp_closing; [done|]. apply IH; [intros b sb tb Hb; eapply H0; by right|]. cbn [v_files print_out].
      destruct (shown (grep_lines pattern) (v_files v) args) as [out [b|]]; by rewrite print_out_app, ?app_assoc in *.
    + apply uwp_no_file; [done|]. apply uwp_bind. eapply uwp_printf; [vp|]. by apply uwp_exit.
Qed.

(** C33: On any file system that keeps its promises, however it cuts the files, and
    for files without NULs, grep ends and prints for each file named on the
    command line the lines that match the pattern, in order: those that end with
    a newline and stand before the first line of 1023 bytes or more, where it
    leaves the file.  At the first name it cannot open it says so and exits with
    1; otherwise it exits with 0, having closed every file. *)
Theorem grep_prints (m : mem) (v : fview) (pattern file : bytes) (files : list bytes) :
  (forall a st text, a ∈ file :: files -> v_files v !! a = Some (st, text) -> 0 ∉ text) ->
  uwp (grep_main buf (pattern :: file :: files) m) v (fun r v' =>
    let '(out, e) := shown (grep_lines pattern) (v_files v) (file :: files) in
    match e with
    | None => r = inr 0 /\ v' = print_out out v
    | Some a => r = inr 1 /\ v' = print_out (out ++ str "grep: cannot open " ++ a ++ [10]) v
    end).
Proof.
  intros H0. apply uwp_bind, uwp_grep_files; [done|].
  destruct (shown (grep_lines pattern) (v_files v) (file :: files)) as [out [a|]]; [done|by apply uwp_exit].
Qed.
End grep_spec.

(** * Witnesses *)

Definition demo_stat : stat := Stat 1 2 T_FILE 1 0.
Definition demo_view : fview :=
  FView {[str "a" := (demo_stat, str "ab cd" ++ [10] ++ str "bcd" ++ [10] ++ str "bx")]} ∅ [] [].

(** A file is read three bytes at a time; the other does not exist. *)
Lemma grep_prints_witness :
  let K := simple_kernel (fun _ => 2%nat) in
  exists s, runs (grep_main 5000 [str "^b"; str "a"; str "x"] (fun _ => 0)) (UState demo_view 0) (inr 1) s /\
    v_out (us_view s) = str "bcd" ++ [10] ++ str "grep: cannot open x" ++ [10].
Proof.
  intros K.
  destruct (grep_prints 5000 ltac:(reflexivity) (FW := simple_files (fun _ => 2%nat)) (fun _ => 0) demo_view (str "^b") (str "a") [str "x"]) with (s := UState demo_view 0)
    as (r & s & Hr & HQ).
  - intros a st text Ha E. unfold demo_view in E. cbn [v_files] in E.
    apply lookup_singleton_Some in E as [_ E]. injection E as _ <-.
    vm_compute. intros H. repeat (apply elem_of_cons in H as [H|H]; [discriminate H|]). by apply elem_of_nil in H.
  - reflexivity.
  - assert (E : shown (grep_lines (str "^b")) (v_files demo_view) [str "a"; str "x"] = (str "bcd" ++ [10], Some (str "x")))
      by (vm_compute; reflexivity).
    rewrite E in HQ. destruct HQ as [-> HQ]. exists s. split; [exact Hr|]. apply (f_equal v_out) in HQ. exact HQ.
Defined.
