(* ===== verification/Uprogs.v ===== *)
(** The small user programs: user/echo.c, ls.c, mkdir.c, rm.c, ln.c, kill.c,
    zombie.c and init.c.

    [main] takes the arguments after [argv[0]], of which there are [argc - 1].
    ls is verified on the file systems of Userland; init, which does not end, by
    an automaton that every sequence of its calls and their answers passes. *)

From S2P Require Import Prelude CString Ulib Fs Sysfile Printf PrintfProps Userland Programs.
From stdpp Require Import gmap.
Local Open Scope Z_scope.

(** * Code *)

(** [for(i = 1; i < argc; i++)] *)
Fixpoint echo_loop (args : list bytes) : prog unit :=
  match args with
  | [] => mret tt
  | a :: args =>
      sys (Write 1 a);;
      (match args with [] => sys (Write 1 [10]) | _ => sys (Write 1 [32]) end);;
      echo_loop args
  end.
Definition echo_main (args : list bytes) : prog unit := echo_loop args;; do_exit 0.

(** The loops of mkdir.c and rm.c, up to [break]. *)
Fixpoint mkdir_loop (args : list bytes) : prog unit :=
  match args with
  | [] => mret tt
  | a :: args =>
      r ← sys (Mkdir a);
      if r <? 0 then fprintf 2 (line "mkdir: %s failed to create") [VText a] else mkdir_loop args
  end.
Definition mkdir_main (args : list bytes) : prog unit :=
  match args with
  | [] => fprintf 2 (line "Usage: mkdir files...") [];; do_exit 1
  | _ => mkdir_loop args;; do_exit 0
  end.
Fixpoint rm_loop (args : list bytes) : prog unit :=
  match args with
  | [] => mret tt
  | a :: args =>
      r ← sys (Unlink a);
      if r <? 0 then fprintf 2 (line "rm: %s failed to delete") [VText a] else rm_loop args
  end.
Definition rm_main (args : list bytes) : prog unit :=
  match args with
  | [] => fprintf 2 (line "Usage: rm files...") [];; do_exit 1
  | _ => rm_loop args;; do_exit 0
  end.
Definition ln_main (args : list bytes) : prog unit :=
  match args with
  | [old; new] =>
      r ← sys (Link old new);
      (if r <? 0 then fprintf 2 (line "link %s %s: failed") [VText old; VText new] else mret tt);;
      do_exit 0
  | _ => fprintf 2 (line "Usage: ln old new") [];; do_exit 1
  end.
Definition kill_main (args : list bytes) : prog unit :=
  match args with
  | [] => fprintf 2 (line "usage: kill pid...") [];; do_exit 1
  | _ =>
      pfor args (fun a => pid ← compute (Ulib.atoi (S (length a)) (chars a) 0 0); sys (Kill pid);; mret tt);;
      do_exit 0
  end.
Definition zombie_main : prog unit :=
  pid ← sys Fork;
  (if pid >? 0 then sys (Sleep 5);; mret tt else mret tt);;
  do_exit 0.

(** ** ls *)

(** [for(p=path+strlen(path); p >= path && *p != '/'; p--) ;] and [p++], with
    [p = path + i]. *)
Fixpoint last_slash (path : bytes) (i : nat) : nat :=
  if chars path (Z.of_nat i) =? 47 then S i
  else match i with O => 0%nat | S j => last_slash path j end.
(** [static char buf[DIRSIZ+1]] keeps its last NUL. *)
Definition fmtname (path : bytes) : bytes :=
  let p := drop (last_slash path (length path)) path in
  if Z.of_nat (length p) >=? DIRSIZ then p
  else p ++ replicate (Z.to_nat DIRSIZ - length p) 32.

(** The string at the start of a buffer. *)
Fixpoint c_string (l : bytes) : bytes :=
  match l with
  | [] => []
  | c :: l => if c =? 0 then [] else c :: c_string l
  end.
Definition show_entry (path : bytes) (st : stat) : prog unit :=
  uprintf (line "%s %d %d %d") [VText (fmtname path); VInt (st_type st); VInt (st_ino st); VInt (i32 (st_size st))].

(** [while(read(fd, &de, sizeof(de)) == sizeof(de))]; [buf] holds [path], a slash
    and the name of the entry. *)
Definition ls_body (fd : Z) (path : bytes) (_ : unit) : prog (unit + unit) :=
  r ← sys (Read fd DIRENT_SIZE);
  match r with
  | Some de =>
      if negb (Z.of_nat (length de) =? DIRENT_SIZE) then mret (inr tt) else
      if de_inum de =? 0 then mret (inl tt) else
      let buf := path ++ [47] ++ c_string (de_name de) in
      st ← ustat buf;
      match st with
      | None => uprintf (line "ls: cannot stat %s") [VText buf]
      | Some st => show_entry buf st
      end;;
      mret (inl tt)
  | None => mret (inr tt)
  end.
Definition ls (path : bytes) : prog unit :=
  fd ← sys (Open path O_RDONLY);
  if fd <? 0 then fprintf 2 (line "ls: cannot open %s") [VText path] else
  r ← sys (Fstat fd);
  match r with
  | None => fprintf 2 (line "ls: cannot stat %s") [VText path];; sys (Close fd);; mret tt
  | Some st =>
      (if (st_type st =? T_DEVICE) || (st_type st =? T_FILE) then show_entry path st
       else if st_type st =? T_DIR then
         if Z.of_nat (length path) + 1 + DIRSIZ + 1 >? 512 then uprintf (line "ls: path too long") []
         else ploop (ls_body fd path) tt
       else mret tt);;
      sys (Close fd);;
      mret tt
  end.
Definition ls_main (args : list bytes) : prog unit :=
  match args with
  | [] => ls [46];; do_exit 0
  | _ => pfor args ls;; do_exit 0
  end.

(** ** init *)

(** The inner loop: until the shell is collected. *)
Definition init_wait (pid : Z) (_ : unit) : prog (unit + unit) :=
  wpid ← sys Wait;
  if wpid =? pid then mret (inr tt)
  else if wpid <? 0 then uprintf (line "init: wait returned an error") [];; do_exit 1
  else mret (inl tt).
Definition init_body (_ : unit) : prog (unit + unit) :=
  uprintf (line "init: starting sh") [];;
  pid ← sys Fork;
  if pid <? 0 then uprintf (line "init: fork failed") [];; do_exit 1 else
  if pid =? 0 then
    sys (Exec (str "sh") [str "sh"]);;
    uprintf (line "init: exec sh failed") [];;
    do_exit 1
  else
    ploop (init_wait pid) tt;;
    mret (inl tt).
Definition init_main : prog unit :=
  fd ← sys (Open (str "console") O_RDWR);
  (if fd <? 0 then
     sys (Mknod (str "console") CONSOLE 0);;
     sys (Open (str "console") O_RDWR);;
     mret tt
   else mret tt);;
  sys (Dup 0);;
  sys (Dup 0);;
  ploop init_body tt.

(** * echo and ls *)

(** Files on a disk: a read of at most 512 bytes is only cut by the end. *)
Class DiskFiles (W : Type) {KW : Kernel W} {FW : FileSys W} :=
  full_read s fd st rest n x s' : v_open (view s) !! fd = Some (st, rest) -> 0 <= n <= 512 ->
    handle (Read fd n) s = (x, s') -> x = Some (take (Z.to_nat n) rest).

Section files.
Context {W : Type} {KW : Kernel W} {FW : FileSys W} {DW : DiskFiles W}.
Implicit Types (v : fview).

Fixpoint join (args : list bytes) : bytes :=
  match args with
  | [] => []
  | [a] => a ++ [10]
  | a :: args => a ++ 32 :: join args
  end.
(** echo prints its arguments with spaces between them and a newline. *)
Lemma echo_prints v args : uwp (echo_main args) v (fun r v' => r = inr 0 /\ v' = print_out (join args) v).
Proof.
  apply uwp_bind. set (Q := fun r v0 => _). assert (HQ : Q (inl tt) (print_out (join args) v)) by by apply uwp_exit.
  clearbody Q. revert v HQ. induction args as [|a args IH]; intros v HQ; cbn [echo_loop].
  - apply uwp_ret. by rewrite print_out_nil in HQ.
  - apply uwp_bind, uwp_write, uwp_bind. destruct args as [|b args]; apply uwp_write, IH; rewrite !print_out_app.
    + change (join []) with (@nil Z). rewrite app_nil_r. exact HQ.
    + exact HQ.
Qed.

Lemma uwp_full_read fd n v st rest (Q : option bytes + Z -> fview -> Prop) : 0 <= n <= 512 ->
  Q (inl (Some (take (Z.to_nat n) rest))) (reading v fd st (drop (Z.to_nat n) rest)) ->
  uwp (sys (Read fd n)) (reading v fd st rest) Q.
Proof.
  intros Hn HQ. apply uwp_sys. intros s Hs.
  assert (Hfd : v_open (view s) !! fd = Some (st, rest)) by (rewrite Hs; apply lookup_insert_eq).
  destruct (fs_read s fd st rest n Hfd) as (k & s' & Hk & _ & E & Hv); [lia|]. exists (Some (take k rest)), s'. split; [done|].
  pose proof (full_read _ _ _ _ _ _ _ Hfd Hn E) as Ex. injection Ex as Ex.
  assert (Ed : drop k rest = drop (Z.to_nat n) rest).
  { apply (app_inv_head (take k rest)). rewrite take_drop, Ex, take_drop. done. }
  rewrite Hv, Hs, Ex, Ed. unfold reading, set_open in *. cbn. by rewrite insert_insert_eq.
Qed.

(** What ls is to print of a file, and of a directory: the entries in use, in
    order, as stat sees them. *)
Definition entry_line (path : bytes) (st : stat) : bytes :=
  fmtname path ++ 32 :: dec (st_type st) ++ 32 :: dec (st_ino st) ++ 32 :: dec (st_size st) ++ [10].
Fixpoint entries (fuel : nat) (l : bytes) : list bytes :=
  match fuel with
  | O => []
  | S fuel => if (length l <? 16)%nat then [] else take 16 l :: entries fuel (drop 16 l)
  end.
Definition entry_text (files : gmap bytes (stat * bytes)) (path de : bytes) : bytes :=
  if de_inum de =? 0 then [] else
  let name := path ++ [47] ++ c_string (de_name de) in
  match files !! name with
  | Some (st, _) => entry_line name st
  | None => str "ls: cannot stat " ++ name ++ [10]
  end.
Definition listing (files : gmap bytes (stat * bytes)) (path content : bytes) : bytes :=
  concat (entry_text files path <$> entries (S (length content)) content).

Lemma uwp_show_entry path st v (Q : unit + Z -> fview -> Prop) : Q (inl tt) (print_out (entry_line path st) v) -> uwp (show_entry path st) v Q.
Proof. intros HQ. eapply uwp_printf; [vp|]. rewrite dec_i32. exact HQ. Qed.

Lemma uwp_ls_loop fuel fd path v st content (Q : unit + Z -> fview -> Prop) : (length content < fuel)%nat ->
  (forall rest, Q (inl tt) (reading (print_out (concat (entry_text (v_files v) path <$> entries fuel content)) v) fd st rest)) ->
  uwp (ploop (ls_body fd path) tt) (reading v fd st content) Q.
Proof.
  revert content v. induction fuel as [|fuel IH]; intros content v Hf HQ; [lia|]. apply uwp_loop, uwp_bind, uwp_full_read; [done|].
  change (Z.to_nat DIRENT_SIZE) with 16%nat. change DIRENT_SIZE with 16. cbn [entries] in HQ. rewrite length_take.
  destruct (Nat.ltb_spec (length content) 16) as [Hlt|Hge]; cbn beta iota.
  - rewrite (proj2 (Z.eqb_neq _ 16)) by lia. apply uwp_ret. specialize (HQ (drop 16 content)). by rewrite print_out_nil in HQ.
  - rewrite Nat.min_l by lia. cbn [Z.of_nat Z.eqb negb]. change (Z.of_nat 16 =? 16) with true. cbn [negb].
    assert (Hnext : uwp (ploop (ls_body fd path) tt) (reading (print_out (entry_text (v_files v) path (take 16 content)) v) fd st (drop 16 content)) Q).
    { apply IH; [rewrite length_drop; lia|]. intros rest. specialize (HQ rest). cbn [fmap list_fmap concat] in HQ. by rewrite print_out_app. }
    unfold entry_text in Hnext at 1. destruct (de_inum (take 16 content) =? 0); [apply uwp_ret; by rewrite print_out_nil in Hnext|].
    set (name := path ++ [47] ++ c_string (de_name (take 16 content))) in *. apply uwp_bind, uwp_ustat. cbn [v_files reading set_open].
    destruct (v_files v !! name) as [[ste b]|]; cbn [fmap option_fmap option_map fst]; apply uwp_bind.
    + apply uwp_show_entry, uwp_ret. exact Hnext.
    + eapply uwp_printf; [vp|]. apply uwp_ret. exact Hnext.
Qed.

(** C34: On a disk file system, ls of a directory ends, prints a line for each
    entry in use, in order, with its name padded, its type, inode number and
    size as stat gives them (or says that it cannot stat it), and closes every
    file it opened. *)
Theorem ls_lists v path st content : v_files v !! path = Some (st, content) -> st_type st = T_DIR ->
  (length path <= 496)%nat ->
  uwp (ls path) v (fun r v' => r = inl tt /\ v' = print_out (listing (v_files v) path content) v).
Proof.
  intros Hp Ht Hl. eapply uwp_file; [done|]. intros fd Hfd.
  apply uwp_bind. eapply uwp_fstat; [apply lookup_insert_eq|]. rewrite Ht. change ((T_DIR =? T_DEVICE) || (T_DIR =? T_FILE)) with false.
  change (T_DIR =? T_DIR) with true. cbn beta iota. change DIRSIZ with 14. rewrite Z.gtb_ltb, (proj2 (Z.ltb_ge 512 _)) by lia.
  apply uwp_bind, (uwp_ls_loop (S (length content))); [lia|]. intros rest. apply uwp_closing; [done|]. by apply uwp_ret.
Qed.

(** The name is the last component, padded with blanks to 14 bytes. *)
Lemma last_slash_none path i : 47 ∉ path -> (i <= length path)%nat -> last_slash path i = 0%nat.
Proof.
  intros Hp Hi. assert (Hc : forall j, chars path (Z.of_nat j) =? 47 = false).
  { intros j. apply Z.eqb_neq. unfold chars. rewrite Nat2Z.id. destruct (path !! j) eqn:E; simpl; [|done].
    apply list_elem_of_lookup_2 in E. set_solver. }
  induction i as [|i IH]; cbn [last_slash]; [by rewrite (Hc 0%nat)|]. rewrite Hc. apply IH. lia.
Qed.
Lemma last_slash_app dir name i : 47 ∉ name -> (i <= length name)%nat ->
  last_slash (dir ++ 47 :: name) (length dir + 1 + i) = (length dir + 1)%nat.
Proof.
  intros Hn. assert (Hc : forall j, chars (dir ++ 47 :: name) (Z.of_nat (length dir + 1 + j)) =? 47 = false).
  { intros j. apply Z.eqb_neq. unfold chars. rewrite Nat2Z.id, lookup_app_r by lia.
    replace (length dir + 1 + j - length dir)%nat with (S j) by lia. simpl. destruct (name !! j) eqn:E; simpl; [|done].
    apply list_elem_of_lookup_2 in E. set_solver. }
  induction i as [|i IH]; intros Hi.
  - specialize (Hc 0%nat). rewrite !Nat.add_0_r in *. rewrite Nat.add_1_r in *. cbn [last_slash]. rewrite Hc.
    assert (Hs : chars (dir ++ 47 :: name) (Z.of_nat (length dir)) =? 47 = true).
    { unfold chars. by rewrite Nat2Z.id, list_lookup_middle by done. }
    destruct (length dir); cbn [last_slash]; by rewrite Hs.
  - specialize (Hc (S i)). rewrite Nat.add_succ_r in Hc |- *. cbn [last_slash]. rewrite Hc. apply IH. lia.
Qed.
Lemma fmtname_spec dir name : 47 ∉ name -> fmtname (dir ++ 47 :: name) = name ++ replicate (14 - length name) 32.
Proof.
  intros Hn. unfold fmtname. rewrite length_app. cbn [length]. replace (length dir + S (length name))%nat with (length dir + 1 + length name)%nat by lia.
  rewrite last_slash_app by (done || lia). replace (drop (length dir + 1) (dir ++ 47 :: name)) with name.
  2: { rewrite drop_app_ge by lia. by replace (length dir + 1 - length dir)%nat with 1%nat by lia. }
  change DIRSIZ with 14. destruct (Z.geb_spec (Z.of_nat (length name)) 14); [|done].
  replace (14 - length name)%nat with 0%nat by lia. by rewrite app_nil_r.
Qed.
End files.

(** * rm and mkdir *)

(** The automaton of a program that is to apply a call to its arguments in order,
    until one fails, and exit with 0; [None] after a failure. *)
Definition attempt_next (args : option (list bytes)) (p : bytes) (r : Z) : option (option (list bytes)) :=
  match args with
  | Some (a :: args) => if bool_decide (a = p) then Some (if r <? 0 then None else Some args) else None
  | _ => None
  end.
Definition attempt (mk : bool) (args : option (list bytes)) (o : obs) : option (option (list bytes)) :=
  match o with
  | Did (Mkdir p) r => if mk then attempt_next args p r else None
  | Did (Unlink p) r => if mk then None else attempt_next args p r
  | Did (Write 2 _) _ => match args with None => Some args | _ => None end
  | Exited 0 => match args with Some (_ :: _) => None | _ => Some args end
  | _ => None
  end.

Lemma attempt_next_head a args r : attempt_next (Some (a :: args)) a r = Some (if r <? 0 then None else Some args).
Proof. unfold attempt_next. by rewrite bool_decide_true. Qed.
Lemma rm_safe args : args <> [] -> safe (attempt false) (rm_main args) (Some args) (fun _ _ => False).
Proof.
  intros Ha. destruct args as [|a args]; [done|]. clear Ha. cbn [rm_main]. generalize (a :: args). clear a args. intros args.
  apply safe_bind. induction args as [|a args IH]; cbn [rm_loop]; [apply safe_ret, safe_exit; by eexists|].
  apply safe_bind, safe_sys. intros r. eexists. split; [apply attempt_next_head|]. destruct (r <? 0); [|done].
  apply safe_fprintf; [done|]. apply safe_exit. by eexists.
Qed.
Lemma mkdir_safe args : args <> [] -> safe (attempt true) (mkdir_main args) (Some args) (fun _ _ => False).
Proof.
  intros Ha. destruct args as [|a args]; [done|]. clear Ha. cbn [mkdir_main]. generalize (a :: args). clear a args. intros args.
  apply safe_bind. induction args as [|a args IH]; cbn [mkdir_loop]; [apply safe_ret, safe_exit; by eexists|].
  apply safe_bind, safe_sys. intros r. eexists. split; [apply attempt_next_head|]. destruct (r <? 0); [|done].
  apply safe_fprintf; [done|]. apply safe_exit. by eexists.
Qed.

(** * init *)

(** Nothing runs; the shell [pid] runs; this is the child; a call has failed. *)
Inductive initst := NoShell | Shell (pid : Z) | Child | Failing.
Definition init_delta (a : initst) (o : obs) : option initst :=
  match o with
  | Did (Write _ _) _ => Some a
  | Did (Open _ _) _ | Did (Mknod _ _ _) _ | Did (Dup _) _ => match a with NoShell => Some a | _ => None end
  | Did Fork pid =>
      match a with NoShell => Some (if pid <? 0 then Failing else if pid =? 0 then Child else Shell pid) | _ => None end
  | Did Wait wpid =>
      match a with Shell pid => Some (if wpid =? pid then NoShell else if wpid <? 0 then Failing else a) | _ => None end
  | Did (Exec p argv) _ =>
      match a with Child => if bool_decide (p = str "sh" /\ argv = [str "sh"]) then Some a else None | _ => None end
  | Exited z => match a with Child | Failing => if z =? 1 then Some a else None | _ => None end
  | _ => None
  end.

Lemma init_safe : safe init_delta init_main NoShell (fun _ _ => False).
Proof.
  assert (Hp : forall s a (Q : unit -> initst -> Prop), Q tt a -> safe init_delta (uprintf (line s) []) a Q).
  { intros s a Q HQ. by apply safe_fprintf. }
  apply safe_bind, safe_sys. intros fd. exists NoShell. split; [done|]. apply safe_bind.
  assert (Hrest : safe init_delta (sys (Dup 0);; sys (Dup 0);; ploop init_body tt) NoShell (fun _ _ => False)).
  { do 2 (apply safe_bind, safe_sys; intros ?; exists NoShell; split; [done|]).
    apply (safe_loop _ _ (fun _ a => a = NoShell)); [done|]. intros [] _ ->.
    apply safe_bind, Hp, safe_bind, safe_sys. intros pid. eexists. split; [reflexivity|]. destruct (pid <? 0).
    { apply safe_bind, Hp, safe_exit. by eexists. }
    destruct (pid =? 0).
    { apply safe_bind, safe_sys. intros r. exists Child. split; [done|]. apply safe_bind, Hp, safe_exit. by eexists. }
    apply safe_bind, (safe_loop _ _ (fun _ a => a = Shell pid)); [done|]. intros [] _ ->.
    apply safe_bind, safe_sys. intros wpid. eexists. split; [reflexivity|]. destruct (wpid =? pid); [by apply safe_ret, safe_ret|].
    destruct (wpid <? 0); [|by apply safe_ret]. apply safe_bind, Hp, safe_exit. by eexists. }
  destruct (fd <? 0); [|by apply safe_ret].
  do 2 (apply safe_bind, safe_sys; intros ?; exists NoShell; split; [done|]). by apply safe_ret.
Qed.


(** * Witnesses *)

(** A kernel that answers fork and wait from a list, and 0 or nothing else. *)
Definition scripted {X} (c : call X) (s : list Z) : X * list Z :=
  match c with
  | Fork | Wait => (hd (-1) s, tail s)
  | Read _ _ => (None, s)
  | Fstat _ => (None, s)
  | _ => (0, s)
  end.
Definition asked {X} (c : call X) (x : X) : option Z := match c in call X return X -> option Z with Fork | Wait => Some | _ => fun _ => None end x.
Definition script (o : obs) : option Z := match o with Did c x => asked c x | _ => None end.


(** A directory with an entry in use, one that is free and one without a file. *)
Definition dir_view : fview :=
  FView (<[str "d" := (Stat 1 9 T_DIR 1 48, dirent_enc 3 (str "x") ++ dirent_enc 0 (str "old") ++ dirent_enc 4 (str "gone"))]>
         {[str "d/x" := (Stat 1 3 T_FILE 1 5, str "hello")]}) ∅ [] [].
Lemma simple_disk : @DiskFiles simple_state (simple_kernel (fun _ => 511%nat)) (simple_files (fun _ => 511%nat)).
Proof.
  intros s fd st rest n x s' Hfd Hn H. unfold handle, simple_kernel, simple_call in H. cbn in Hfd. rewrite Hfd in H. injection H as <- _.
  f_equal. f_equal. lia.
Qed.
Lemma ls_lists_witness :
  let K := simple_kernel (fun _ => 511%nat) in
  exists s, runs (ls (str "d")) (UState dir_view 0) (inl tt) s /\
    v_out (us_view s) = line "x              2 3 5" ++ line "ls: cannot stat d/gone".
Proof.
  intros K.
  destruct (@ls_lists _ K _ simple_disk dir_view (str "d") (Stat 1 9 T_DIR 1 48)
    (dirent_enc 3 (str "x") ++ dirent_enc 0 (str "old") ++ dirent_enc 4 (str "gone"))) with (s := UState dir_view 0)
    as (r & s & Hr & -> & Hv); [vm_compute; reflexivity|reflexivity|vm_compute; lia|reflexivity|].
  exists s. split; [exact Hr|]. apply (f_equal v_out) in Hv. cbn [view] in Hv. etransitivity; [exact Hv|]. vm_compute. reflexivity.
Defined.
