(* ===== verification/ShMain.v ===== *)
(** [getcmd] and [main] of user/sh.c: from the input to the command lines.

    The buffer is 100 bytes of memory; what the shell does itself or hands to a
    child, which runs [runcmd(parsecmd(buf))], is a list of actions. *)

From S2P Require Import Prelude CString Ulib Sh ShSpec ShRun ShRunProps Programs.
From stdpp Require Import gmap.
Local Open Scope Z_scope.

(** * Code *)

Definition CMDBUF : Z := 100.
Inductive action := ACd (path : bytes) | ARun (line : bytes).

Section code.
(** The address of [static char buf[100]]. *)
Variable buf : Z.

(** [-1] is [false]. *)
Definition getcmd (m : mem) (nbuf : Z) (input : bytes) : mem * bytes * bool :=
  let m := Ulib.memset m buf 0 nbuf in
  let '(m, input) := Ulib.gets m buf nbuf input in
  (m, input, negb (m buf =? 0)).

Fixpoint main_loop (fuel : nat) (m : mem) (input : bytes) (acts : list action) : outcome (list action) :=
  match fuel with
  | O => OutOfFuel
  | S fuel =>
      let '(m, input, ok) := getcmd m CMDBUF input in
      if negb ok then Done acts
      else if (m buf =? 99) && (m (buf + 1) =? 100) && (m (buf + 2) =? 32) then
        n ← Ulib.strlen 100 m buf 0;
        let m := <[buf + (n - 1) := 0]> m in
        path ← string_at 100 m (buf + 3);
        main_loop fuel m input (acts ++ [ACd path])
      else
        line ← string_at 100 m buf;
        main_loop fuel m input (acts ++ [ARun line])
  end.
Definition main (fuel : nat) (m : mem) (input : bytes) : outcome (list action) := main_loop fuel m input [].
End code.

(** [while((fd = open("console", O_RDWR)) >= 0) if(fd >= 3) { close(fd); break; }]
    [open] fails when every descriptor is in use. *)
Fixpoint open_console (fuel : nat) (fds : fdtable) : outcome fdtable :=
  match fuel with
  | O => OutOfFuel
  | S fuel =>
      match lowest fds with
      | None => Done fds
      | Some fd =>
          let fds := <[fd := OConsole]> fds in
          if fd >=? 3 then Done (delete fd fds) else open_console fuel fds
      end
  end.

(** * The lines of the input *)

(** The first line, of at most [n] bytes, and the rest. *)
Fixpoint first_line (n : nat) (input : bytes) : bytes * bytes :=
  match n, input with
  | S n, c :: input => if (c =? 10) || (c =? 13) then ([c], input) else let '(l, r) := first_line n input in (c :: l, r)
  | _, _ => ([], input)
  end.
Fixpoint input_lines (fuel : nat) (input : bytes) : list bytes :=
  match fuel with
  | O => []
  | S fuel => let '(l, r) := first_line 99 input in match l with [] => [] | _ => l :: input_lines fuel r end
  end.
(** A line that starts with [cd ] is for the shell: the rest of it but its last
    character is the path. *)
Definition action_of (line : bytes) : action :=
  if bool_decide (take 3 line = str "cd ") then ACd (drop 3 (take (length line - 1) line)) else ARun line.

Lemma first_line_app n input l r : first_line n input = (l, r) -> input = l ++ r /\ (length l <= n)%nat.
Proof.
  revert input l r. induction n as [|n IH]; intros input l r H; simpl in H; [injection H as <- <-; by split; [|simpl; lia]|].
  destruct input as [|c input]; [injection H as <- <-; by split; [|simpl; lia]|]. destruct (_ || _).
  - injection H as <- <-. split; [done|simpl; lia].
  - destruct (first_line n input) as [l' r'] eqn:E. injection H as <- <-. destruct (IH _ _ _ E) as [-> ?]. split; [done|simpl; lia].
Qed.

Lemma gets_loop_line n m p input l r : first_line n input = (l, r) ->
  Ulib.gets_loop n m p input = (store m p l, p + Z.of_nat (length l), r).
Proof.
  revert m p input l r. induction n as [|n IH]; intros m p input l r H; cbn [first_line Ulib.gets_loop] in *.
  { injection H as <- <-. simpl. by rewrite Z.add_0_r. }
  destruct input as [|c input]; [injection H as <- <-; simpl; by rewrite Z.add_0_r|]. destruct (_ || _).
  - by injection H as <- <-.
  - destruct (first_line n input) as [l' r'] eqn:E. injection H as <- <-. rewrite (IH _ _ _ _ _ E). cbn [store length]. do 2 f_equal. lia.
Qed.

Lemma memset_zero n m d i x : Ulib.memset_loop n m d i 0 x = if decide (d + i <= x < d + i + Z.of_nat n) then 0 else m x.
Proof.
  revert m i. induction n as [|n IH]; intros m i; cbn [Ulib.memset_loop]; [by rewrite decide_False by lia|].
  rewrite IH, fn_insert_cases. change (u8 0) with 0. repeat case_decide; lia || done.
Qed.

(** The buffer holds the line, and NULs up to its end. *)
Lemma getcmd_spec buf m input l r : first_line 99 input = (l, r) -> 0 ∉ input ->
  exists m', getcmd buf m CMDBUF input = (m', r, bool_decide (l <> [])) /\ Ulib.cstr m' buf l /\
    forall x, buf + Z.of_nat (length l) <= x < buf + 100 -> m' x = 0.
Proof.
  intros E H0. destruct (first_line_app _ _ _ _ E) as [-> Hlen]. unfold getcmd, Ulib.gets. change (Z.to_nat (CMDBUF - 1)) with 99%nat.
  rewrite (gets_loop_line _ _ _ _ _ _ E). set (m0 := Ulib.memset m buf 0 CMDBUF).
  set (m' := <[buf + Z.of_nat (length l) := 0]> (store m0 buf l)).
  assert (Hz : forall x, buf + Z.of_nat (length l) <= x < buf + 100 -> m' x = 0).
  { intros x Hx. unfold m'. rewrite fn_insert_cases. case_decide; [done|]. rewrite store_spec, decide_False by lia.
    unfold m0, Ulib.memset. rewrite memset_zero. rewrite decide_True by (change (Z.to_nat CMDBUF) with 100%nat; lia). done. }
  assert (Hs : Ulib.cstr m' buf l).
  { split; [apply Ulib.holds_insert; [lia|apply holds_store]|]. split; [apply fn_lookup_insert|]. apply Forall_forall. intros x Hx ->. set_solver. }
  exists m'. split; [|done]. f_equal. destruct l as [|c l].
  - apply Ulib.cstr_nil in Hs. rewrite Hs. done.
  - apply Ulib.cstr_cons in Hs as (-> & Hc & _). by rewrite (proj2 (Z.eqb_neq _ 0)).
Qed.

(** The test for [cd ], and the path after the last character is cut. *)
Lemma cd_test m buf l : Ulib.cstr m buf l -> (forall x, buf + Z.of_nat (length l) <= x < buf + 100 -> m x = 0) -> (length l <= 99)%nat ->
  (m buf =? 99) && (m (buf + 1) =? 100) && (m (buf + 2) =? 32) = bool_decide (take 3 l = str "cd ").
Proof.
  intros Hs Hz Hlen. change (str "cd ") with [99; 100; 32].
  destruct l as [|a [|b [|c l]]]; simpl in Hz.
  - by rewrite bool_decide_eq_false_2, (Hz buf) by (done || lia).
  - rewrite bool_decide_eq_false_2 by done. apply Ulib.cstr_cons in Hs as (-> & _). rewrite (Hz (buf + 1)) by lia. by rewrite andb_false_r.
  - rewrite bool_decide_eq_false_2 by done. apply Ulib.cstr_cons in Hs as (-> & _ & Hs). apply Ulib.cstr_cons in Hs as (-> & _). rewrite (Hz (buf + 2)) by lia. by rewrite !andb_false_r.
  - apply Ulib.cstr_cons in Hs as (-> & _ & Hs). apply Ulib.cstr_cons in Hs as (-> & _ & Hs). apply Ulib.cstr_cons in Hs as (Ec & _).
    replace (buf + 2) with (buf + 1 + 1) by lia. rewrite Ec. apply eq_bool_prop_intro.
    rewrite bool_decide_spec, !andb_True, !Is_true_true, !Z.eqb_eq. simpl. split; [intros [[-> ->] ->]; done|]. by intros [= -> -> ->].
Qed.

Lemma cut_last m buf l : Ulib.cstr m buf l -> l <> [] -> Ulib.cstr (<[buf + (Z.of_nat (length l) - 1) := 0]> m) buf (take (length l - 1) l).
Proof.
  intros (Hh & _ & Hn) Hne. destruct l as [|c l _] using rev_ind; [done|]. rewrite length_app in *. simpl in *.
  replace (length l + 1 - 1)%nat with (length l) by lia. rewrite take_app_length. apply Ulib.holds_app in Hh as [Hh _]. apply Forall_app in Hn as [Hn _].
  replace (buf + (Z.of_nat (length l + 1) - 1)) with (buf + Z.of_nat (length l)) by lia.
  split; [apply Ulib.holds_insert; [lia|done]|]. split; [apply fn_lookup_insert|done].
Qed.

Lemma cstr_drop m buf l : Ulib.cstr m buf l -> (3 <= length l)%nat -> Ulib.cstr m (buf + 3) (drop 3 l).
Proof.
  intros Hs Hl. destruct l as [|a [|b [|c l]]]; simpl in Hl; try lia. do 3 apply Ulib.cstr_cons in Hs as (_ & _ & Hs).
  by replace (buf + 3) with (buf + 1 + 1 + 1) by lia.
Qed.

(** The path of a [cd]. *)
Lemma cd_path m buf l : Ulib.cstr m buf l -> (forall x, buf + Z.of_nat (length l) <= x < buf + 100 -> m x = 0) -> (3 <= length l <= 99)%nat ->
  string_at 100 (<[buf + (Z.of_nat (length l) - 1) := 0]> m) (buf + 3) = Done (drop 3 (take (length l - 1) l)).
Proof.
  intros Hs Hz Hl. apply string_at_spec; [|rewrite length_drop, length_take; lia]. pose proof (cut_last m buf l Hs) as Hc.
  destruct (decide (length l = 3%nat)) as [E|Hne].
  - rewrite drop_ge by (rewrite length_take; lia). apply Ulib.cstr_nil. rewrite fn_lookup_insert_ne by lia. apply Hz. lia.
  - apply cstr_drop; [apply Hc; intros ->; simpl in Hl; lia|rewrite length_take; lia].
Qed.

Lemma main_loop_spec buf fuel m input acts : 0 ∉ input -> (length input < fuel)%nat ->
  main_loop buf fuel m input acts = Done (acts ++ (action_of <$> input_lines fuel input)).
Proof.
  revert m input acts. induction fuel as [|fuel IH]; intros m input acts H0 Hf; [lia|]. cbn [main_loop input_lines].
  destruct (first_line 99 input) as [l r] eqn:E. destruct (first_line_app _ _ _ _ E) as [-> Hlen].
  destruct (getcmd_spec buf m (l ++ r) l r E H0) as (m' & -> & Hs & Hz). destruct l as [|c l]; [by rewrite app_nil_r|].
  rewrite bool_decide_eq_true_2 by done. cbn [negb]. rewrite (cd_test _ _ _ Hs Hz Hlen).
  assert (Hrec : forall m a, main_loop buf fuel m r (acts ++ [a]) = Done (acts ++ a :: (action_of <$> input_lines fuel r))).
  { intros m1 a. rewrite IH, <- app_assoc; [done|set_solver|]. rewrite length_app in Hf. simpl in Hf. lia. }
  rewrite fmap_cons. replace (action_of (c :: l)) with (if bool_decide (take 3 (c :: l) = str "cd ") then ACd (drop 3 (take (length (c :: l) - 1) (c :: l))) else ARun (c :: l)) by done.
  case_bool_decide as Ecd.
  - assert (H3 : (3 <= length (c :: l))%nat) by (apply (f_equal length) in Ecd; rewrite length_take in Ecd; change (length (str "cd ")) with 3%nat in Ecd; lia).
    rewrite (Ulib.strlen_spec m' buf (c :: l) 0) by (rewrite ?Z.add_0_r; done || lia). cbn [mbind outcome_bind]. rewrite Z.add_0_l.
    rewrite (cd_path _ _ _ Hs Hz) by lia. cbn [mbind outcome_bind]. apply Hrec.
  - rewrite (string_at_spec _ m' buf (c :: l) Hs) by lia. cbn [mbind outcome_bind]. apply Hrec.
Qed.

(** The shell takes its input line by line, a longer line in pieces of 99 bytes; a
    line that starts with [cd ] it executes itself, the path being the rest of
    the line without its last character; every other line is run by a child, in
    order. *)
Theorem shell_main (buf : Z) (m : mem) (input : bytes) :
  0 ∉ input -> main buf (S (length input)) m input = Done (action_of <$> input_lines (S (length input)) input).
Proof. intros H0. unfold main. by rewrite main_loop_spec by (done || lia). Qed.

(** * The descriptors of the shell *)

Lemma lowest_None e fd : lowest e = None -> 0 <= fd < NOFILE -> is_Some (e !! fd).
Proof.
  unfold lowest. intros H%fmap_None Hfd. apply list_find_None in H. rewrite Forall_forall in H.
  destruct (e !! fd) eqn:E; [done|]. exfalso. apply (H fd); [apply elem_of_seqZ; lia|done].
Qed.

Lemma open_console_std fuel k fds : (forall j, 0 <= j < k -> is_Some (fds !! j)) -> 0 <= k <= 3 -> 4 <= Z.of_nat fuel + k ->
  exists fds', open_console fuel fds = Done fds' /\ std fds' /\ fds ⊆ fds'.
Proof.
  revert k fds. induction fuel as [|fuel IH]; intros k fds Hk H0 Hf; [lia|]. cbn [open_console]. destruct (lowest fds) as [fd|] eqn:E.
  - pose proof (lowest_Some _ _ E) as (Hn & Hfd & Hlt). rewrite Z.geb_leb. destruct (Z.leb_spec 3 fd).
    + exists fds. rewrite delete_insert_id by done. split; [done|]. split; [|done]. repeat split; apply Hlt; lia.
    + assert (k <= fd). { destruct (Z.le_gt_cases k fd); [done|]. destruct (Hk fd) as [? ?]; [lia|congruence]. }
      destruct (IH (fd + 1) (<[fd := OConsole]> fds)) as (fds' & E' & Hs & Hsub); [|lia|lia|].
      * intros j Hj. destruct (decide (j = fd)) as [->|]; [rewrite lookup_insert_eq; eauto|]. rewrite lookup_insert_ne by done. apply Hlt. lia.
      * exists fds'. split; [done|]. split; [done|]. etrans; [|exact Hsub]. by apply insert_subseteq.
  - exists fds. split; [done|]. split; [|done]. repeat split; apply lowest_None; done.
Qed.

(** Whatever descriptors the shell is started with, its first loop ends with 0, 1
    and 2 open and the others kept: the programs of its command lines get the
    descriptors that ShRunProps states. *)
Theorem shell_descriptors (fds : fdtable) : exists fds', open_console 4 fds = Done fds' /\ std fds' /\ fds ⊆ fds'.
Proof. apply (open_console_std 4 0); [lia..|]. done. Qed.
